(* ===== verification/_CoqProject ===== *)
-Q . S2P
Prelude.v
Spki.v
External.v
Sql.v
Toy.v
Certificate.v
CertChain.v
Encrypt.v
Credential.v
SecureChain.v
TrustStore.v
TransactionStore.v
GroupId.v
StorageTrait.v
SqlxStorage.v
Provider.v
ServerStore.v
ClientStore.v
UserStore.v
Verifiers.v
Mls.v
KeyRetrievers.v
MlsServer.v
MlsMember.v
Actors.v
UserMls.v
Transport.v
Permissions.v
Script.v
TlsTransport.v
Pake.v
Login.v
LoginMeets.v
Init.v
Rpc.v
Connections.v
Streaming.v
Receivers.v
MlsStream.v
OnlineStatus.v
Join.v
Enroll.v
Files.v
Persist.v
ServerConfig.v
AgentConfig.v
Installer.v
Profile.v
KeyPackageCommand.v
TcpForward.v
Terminal.v
Tunnels.v
Commands.v
FirstConnect.v
Devices.v
Gui.v
GuiMain.v
Replication.v
Serving.v
