(* ===== verification/Prelude.v ===== *)
(** * Svalin: verification development

    Svalin manages devices. A _server_ connects the _agents_ that run on the
    devices with the _clients_ of their administrator. Who is who is decided
    by certificates below one root certificate, which the user creates when
    the server is initialised; what has to stay hidden from the server goes
    through MLS groups and TLS sessions tunnelled through it. This library
    models the program's own logic (the crates [svalin_pki], [svalin_rpc],
    [svalin_store], [sqlx_storage], [svalin] and the states of [svalin_iced]) as executable definitions,
    translated function by function, and proves what makes the parts, and
    their compositions, correct.

    ** The parts of the program, and where they are modelled

    Foundations.
    - [Prelude]: results with panics, lists, options, the tactics and hints of
      the library. [Spki]: certificate types, SPKI hashes and their texts.
      [External]: the interfaces of the crates the program calls, as classes
      of operations, and their documented behaviour, as classes of laws.
      [Sql]: tables and the statements used on them. [Toy]: one small
      executable implementation of the interfaces, for the worked examples.
    - Trust ([svalin_pki/src]): [Certificate] ([certificate.rs]), [CertChain]
      ([certificate_chain.rs]), [Encrypt] ([encrypt.rs], [argon.rs]),
      [Credential] ([keypair.rs], [credential.rs]), [SecureChain]
      ([secure_chain.rs]: the signed block chain over any replicated state,
      a class [ChainState] with [ChainStateLaws]), [TrustStore]
      ([trust_store.rs]: the replicated set of certificates, its instance).
    - Verifiers ([svalin_pki/src/verifier], [svalin/src/verifier], the chain
      loader of the server): [Verifiers], with the class [Verifier] and the
      TLS certificate verifiers on top of it.
    - [Permissions]: which command needs what, and the three permission
      handlers ([svalin_rpc/src/permissions], [svalin/src/permissions]).

    Stores of the nodes.
    - [TransactionStore]: the blocks of the trust store on the server and on
      clients and agents, the server's broadcast, catching up and following
      ([update_trust_store.rs]), replay at start ([util/trust_store.rs]).
      [Replication]: the whole of it, a server and any number of nodes whose
      tasks interleave, as a log.
    - [ServerStore] (Modules [Sessions], [KeyPackages], [Messages]) and
      [UserStore]: [svalin_store/src/server_store]. [ClientStore]:
      [svalin_store/src/client_store].
    - MLS storage: [StorageTrait] (the trait of the MLS library and its calls
      as data), [SqlxStorage] ([sqlx_storage/src]), [Provider]
      ([svalin_pki/src/mls/provider.rs]).

    Messaging groups ([svalin_pki/src/mls]). [GroupId], [Mls] (key packages
    and the checks of commits; classes [KeyRetriever] and processors),
    [KeyRetrievers] (both implementations of the retriever),
    [KeyPackageCommand] (the command behind the remote one), [MlsServer] (the
    server's public groups), [MlsMember] (clients and agents), [UserMls] (the
    messaging state of a user, shared by the user's sessions through the
    server, [update_user_mls.rs]), [Actors] (the tasks the processors of
    groups are, with their channels and the callers that wait).

    Sessions and exchanges ([svalin_rpc/src], [svalin/src/shared]).
    - [Transport] (chunks and objects), [Rpc] (commands, handlers, forwarding
      and end-to-end sessions), [Connections] (the server's book of peers).
    - [Script]: a language for the two sides of a conversation, with its
      semantics for one side against any answers and for two sides against
      each other. [Serving] (the tasks of a server that accepts, serves and
      closes, [svalin_rpc/src/rpc/server]). [TlsTransport], [Pake] (password authenticated sessions),
      [Login] and [LoginMeets], [Init], [Join] and [Enroll] (joining of an
      agent), [Commands] (the short commands) and [Devices] (a client's
      command on a device, through the server) are written in it;
      [FirstConnect] is the way through them when a client connects first.
    - Message streams ([svalin/src/message_streaming]): [Streaming] (what
      sessions and agents send), [MlsStream] (the stored messages the server
      streams), [Receivers] (what sessions and agents do with what they
      receive), [OnlineStatus].

    Nodes on disk. [Files] (paths and a file system in which operations fail
    and processes are killed), [Persist] (the saved trust store, keys on
    disk), [ServerConfig] ([svalin/src/server.rs]), [AgentConfig]
    ([svalin/src/agent.rs]), [Profile] ([svalin/src/client/profile.rs]).

    [Installer]: installing and updating an agent ([svalin/src/installer],
    [update_agent.rs]), with the command line.

    Clients at work. [TcpForward] (one forwarded connection) and [Tunnels] (the
    manager of TCP tunnels with its tasks, [svalin/src/client/tunnel_manager]).
    [Terminal] (a terminal on a device). [Gui] and [GuiMain]
    ([svalin_iced/src/ui]): the states of the graphical client, what its views
    let the user send, and its tasks.

    ** How the source is translated

    - A function keeps its name; where two have the same, the file or a prefix
      distinguishes them. A call returns [Ok], [Err] or [Panic]
      ([Prelude.result]); [?] is the monad's bind, with [map_err] for the
      conversion of the error; an [unwrap] that fails is [Panic]. Error types
      of the program are inductive types with its constructors; errors of
      foreign crates are the text they print, as the program only prints them.
    - A method that changes its object takes the object and returns it with
      the result. A long exchange threads it through the monads [io] (one side
      with a world of its own) or [Script.script].
    - Times are integers in nanoseconds; the program's timestamps are seconds
      ([get_current_timestamp]). Clock readings and random draws are arguments
      of the operation that makes them, one for each reading; scripts number
      their draws. The theorems quantify over them, with distinctness assumed
      where it is needed (UUIDs, nonces).
    - Integers of the program are [Z]; where a width matters its bounds are
      written out: the 31-bit chunk lengths, the 64-bit sequence numbers of
      SQLite, the 96-bit nonce counter.
    - A [HashMap] or [HashSet] is a [gmap] or [gset]. Iteration order is that
      of [map_to_list], or an argument; no theorem depends on it. Objects
      behind an [Arc] that are reached from two places are an index into a
      store of objects ([Provider], [Tunnels]).
    - A database transaction that is not committed leaves its tables as they
      were; a statement fails by violating a constraint. The one order of rows
      the database does not promise is a parameter ([SqlOrder]).
    - X.509, signatures, hashes, AEAD, Argon2, postcard, JSON, TLS, AuCPace,
      TOTP and openmls are parameters. A theorem that needs more of them than
      their operations takes the laws as arguments; each such theorem has a
      worked example in which they are discharged by [Toy].

    ** Recursion, fuel and termination

    Recursion is structural except in three places.
    [TrustStore.complete_loop] gets one unit of fuel more than there are
    certificates in the store, which is enough
    ([complete_certificate_chain_terminates]). Filling the key packages of a
    member up to the limit of 100 takes 100 minus the number that are there
    ([UserMls.fill_key_packages]). The task that handles the
    messages of a session ends when it is cancelled, and is modelled by the
    messages it gets until then. Tasks that run forever (streams, listeners,
    the subscription tasks) are step relations; what is proved of them are
    invariants of all reachable states, and, where a task has to come to an
    end, a bound on the number of its steps. [inevitable] says of two scripts
    that every interleaving is bounded and ends in the same final state; it
    follows from one interleaving, because two sides that only share their two
    byte streams cannot race ([Script.pair_outcome_unique]).

    ** What is proved

    - Trust. Equal head digests mean equal histories
      ([same_head_same_history], up to a collision of SHA-512); every
      certificate in a reachable trust store derives from its root
      ([reachable_store_trusted]), and blocks are authorised
      ([accepted_block_authorised]); chains verify soundly ([verify_sound])
      and are found ([complete_certificate_chain_terminates]); a node accepts
      exactly the certificates of its store and the sessions their users
      signed ([tls_accepts_exactly]).
    - Access. The root's commands of an agent are run in a session only behind
      a TLS handshake inside it that authenticated a trusted session of the
      root ([agent_device_access]); in
      the other direction nothing of a request leaves the client before the
      device has shown its certificate ([request_reaches_its_device]); a
      server is initialised once ([init_runs_once]); a session is added only
      after the password protocol and a right code
      ([login_session_authenticated]); whoever logged in has what the password
      vouches for ([login_success_checked]).
    - Exchanges that meet, in every interleaving: [init_meets], [login_meets],
      [join_meets], [key_packages_meet], [session_stream_meets],
      [user_credential_meets], [device_command_meets]. Behind an initialisation the client logs in at
      the server it initialised and no other ([init_logs_in_at_its_server]).
    - Replication. Every reachable state of server and nodes is one of a log
      with readers ([replication_refines_log]): nodes hold beginnings of what
      the server accepted. From an initialisation on, and undisturbed by three
      kinds of events, clients that follow have the server's trust store
      whenever they were sent everything ([followers_keep_up]), and one that
      connects catches up ([node_catches_up]). An agent that is enrolled with a
      trust store that has a further block never gets beyond it
      ([enrolled_later_stays_behind]). Two orders of tasks that break a node
      until its next start are worked out ([digest_race], [duplicate_race]),
      and what happens to a client that adds a block itself when the answer
      overtakes the block ([own_block_refused]).
    - Tasks. Calls of the processors take effect one at a time and in order of
      arrival ([calls_linearize]), each returns also when the task dies
      ([calls_return]), and the calls of members are the methods the other
      theorems are about ([member_calls_are_steps]); between processing and
      merging the server can overtake itself ([stale_commit_merged]). Closing
      a server ends within a bounded number of steps of its tasks
      ([close_ends]), and has waited for all of them when it reports success
      ([close_succeeded]).
    - Groups. The server's groups and the members' follow approved commits
      only ([server_groups_change], [check_commit_sound],
      [join_requires_members]); what is read is attributed to who sent it
      ([client_data_attributed]); delivery lists ([add_to_group_delivery]).
    - State that must not be lost. Messages are acknowledged only when they
      were handled and the state that results is stored
      ([state_stored_before_messages_go], [acknowledged_was_handled],
      [message_kept_until_handled]); a subscriber of the chain gets every block
      once ([load_all_after_exactly_once]); a node killed at any moment loads
      the trust store it had ([snapshot_survives]), a server keeps the
      configuration it was started with ([server_start_survives]), an agent
      the one it joined with ([agent_joins_once]), a profile opens with what
      was added ([added_profile_opens]). A restarted server, on the other
      hand, loses the blocks it accepted ([restart_forgets]).
    - Storage. The SQLite storage is a map from slots to values
      ([last_change_is_read]); the delegating one is the one it delegates to
      ([storage_is_its_provider]); exported memory continues where it was
      ([export_import_continues], [next_session_continues]).
    - Devices. A forwarded connection keeps order and loses nothing
      ([forwarded_in_order], [forwarding_completes]); so does a terminal, as
      long as no read is interrupted within an object ([terminal_in_order],
      [output_completes]; what happens otherwise is
      [interrupted_read_desynchronises]). Installing an agent touches nothing
      that is installed ([installing_keeps_installations]), a starting agent
      removes only the others ([cleanup_keeps_mine]), and updates can go on
      forever as long as somebody starts what they install, which the
      service does not ([updates_never_run_out], [service_has_no_action]).
    - Clients. Closing a tunnel ends its tasks and no others
      ([closed_tunnel_removed]); what is listed is what listens
      ([settled_tunnels]). The screens of the graphical client never leave the
      user without a way on ([picker_never_stuck], [main_view_never_stuck]),
      and connections are used once, for what was checked
      ([connections_used_once]).

    The proofs of the exchanges run both scripts symbolically with
    [pair_does] and [server_performs]; those about crashes apply one rule of
    [Files.survives] per operation; invariants of tasks go by induction on the
    steps.

    ** Assumptions worth knowing

    - The login is modelled against a server whose stores nobody else changes
      during it; other exchanges state what the other tasks may do.
    - Channels between tasks are lists without a bound, except where a full
      one holds up its sender ([MlsStream]); receivers that lag behind a
      broadcast are not modelled.
    - A TLS handshake is one step of both sides that succeeds or fails
      according to their verifiers, and afterwards the two talk to each other
      without anybody between them.
    - A kill ends a process between or within its operations on files. What
      was handed to the operating system is on disk: loss of power is not
      modelled. Paths are those of Linux.

    ** What is not modelled, and why

    - The drawing of the graphical client and the collection of system data
      ([svalin_sysctl]): widgets and operating system calls. The installation
      on Windows, and what a service manager does.
    - Parts of the modelled files that only wire components together: the
      construction of sockets and of the tables of commands, [Debug] and
      [Display] instances, builders. The permission and the peer type of every
      command are modelled.
    - The realtime status sends readings of the operating system until one
      side ends. In [TcpForward] and [Terminal] a full stream never holds up
      its writer.
    - Files that no module of the program includes ([tbrhl], [signed_object],
      [signed_message], the migrator of [sqlx_storage], [lazy_watch],
      [server/session_store.rs], [agent/update.rs], [upload_agent.rs], the
      earlier screens of the graphical client) and helpers that nothing uses ([smart_subscriber], [rpc_subscribe]).
    - The serialisation formats: postcard and JSON are parameters of which
      round trips are assumed, so that the byte layout of records is not. *)

From stdpp Require Export base tactics list gmap sets strings sorting.
From Stdlib Require Export ZArith Lia.
From stdpp Require Import list_numbers.
From stdpp Require Import options.

Open Scope Z_scope.

(** ** Results

    A call of the program has one of three outcomes: it returns [Ok], it
    returns [Err], or it unwinds ([unwrap], [expect], [panic!], an
    out-of-range slice). *)
Inductive result (E A : Type) : Type :=
  | Ok (a : A)
  | Err (e : E)
  | Panic.
Arguments Ok {E A} a.
Arguments Err {E A} e.
Arguments Panic {E A}.

#[global] Instance result_ret E : MRet (result E) := λ A, Ok.
#[global] Instance result_bind E : MBind (result E) := λ A B f r,
  match r with
  | Ok a => f a
  | Err e => Err e
  | Panic => Panic
  end.
#[global] Instance result_fmap E : FMap (result E) := λ A B f r,
  match r with
  | Ok a => Ok (f a)
  | Err e => Err e
  | Panic => Panic
  end.

#[global] Instance result_eq_dec E A `{EqDecision E, EqDecision A} :
  EqDecision (result E A).
Proof. solve_decision. Defined.

(** [Result::map_err], which is also what [?] does through [From]. *)
Definition map_err {E F A} (f : E → F) (r : result E A) : result F A :=
  match r with
  | Ok a => Ok a
  | Err e => Err (f e)
  | Panic => Panic
  end.

(** [Option::ok_or]. *)
Definition ok_or {E A} (o : option A) (e : E) : result E A :=
  match o with
  | Some a => Ok a
  | None => Err e
  end.

(** [Option::expect] / [Option::unwrap]. *)
Definition expect {E A} (o : option A) : result E A :=
  match o with
  | Some a => Ok a
  | None => Panic
  end.

(** [Result::expect] / [Result::unwrap]. *)
Definition unwrap {E F A} (r : result F A) : result E A :=
  match r with
  | Ok a => Ok a
  | Err _ | Panic => Panic
  end.

(** An early return: [if !b { return Err(e) }]. *)
Definition ensure {E} (b : bool) (e : E) : result E () :=
  if b then Ok () else Err e.

Definition is_ok {E A} (r : result E A) : bool :=
  match r with Ok _ => true | _ => false end.
Definition is_err {E A} (r : result E A) : bool :=
  match r with Err _ => true | _ => false end.

(** A [for] loop whose body may return early: a left fold. *)
Fixpoint foldM {E S A} (f : S → A → result E S) (s : S) (l : list A) :
    result E S :=
  match l with
  | [] => Ok s
  | a :: l => s' ← f s a; foldM f s' l
  end.

(** [iter.map(f).collect::<Result<Vec<_>, _>>()] and the loops that fill an
    array slot by slot. *)
Fixpoint collectM {E A B} (f : A → result E B) (l : list A) : result E (list B) :=
  match l with
  | [] => Ok []
  | a :: l => b ← f a; bs ← collectM f l; Ok (b :: bs)
  end.

(** ** Lemmas on results *)
#[local] Set Warnings "-clear-no-such-hyp".
Section result_lemmas.
Context {E A B : Type}.

Lemma bind_Ok (r : result E A) (f : A → result E B) b :
  (r ≫= f) = Ok b ↔ ∃ a, r = Ok a ∧ f a = Ok b.
Proof. destruct r; cbn; naive_solver. Qed.

Lemma bind_Err (r : result E A) (f : A → result E B) e :
  (r ≫= f) = Err e ↔ r = Err e ∨ ∃ a, r = Ok a ∧ f a = Err e.
Proof. destruct r; cbn; naive_solver. Qed.

Lemma bind_Panic (r : result E A) (f : A → result E B) :
  (r ≫= f) = Panic ↔ r = Panic ∨ ∃ a, r = Ok a ∧ f a = Panic.
Proof. destruct r; cbn; naive_solver. Qed.

Lemma ensure_Ok (b : bool) (e : E) u : ensure b e = Ok u ↔ b = true.
Proof. destruct b, u; cbn; naive_solver. Qed.

Lemma ensure_Err (b : bool) (e e' : E) : ensure b e = Err e' ↔ b = false ∧ e' = e.
Proof. destruct b; cbn; naive_solver. Qed.

Lemma map_err_Ok {F} (f : F → E) (r : result F A) a : map_err f r = Ok a ↔ r = Ok a.
Proof. destruct r; cbn; naive_solver. Qed.

Lemma map_err_Err {F} (f : F → E) (r : result F A) e :
  map_err f r = Err e ↔ ∃ e', r = Err e' ∧ e = f e'.
Proof. destruct r; cbn; naive_solver. Qed.

Lemma map_err_Panic {F} (f : F → E) (r : result F A) : map_err f r = Panic ↔ r = Panic.
Proof. destruct r; cbn; naive_solver. Qed.

Lemma ok_or_Ok (o : option A) (e : E) a : ok_or o e = Ok a ↔ o = Some a.
Proof. destruct o; cbn; naive_solver. Qed.

Lemma ok_or_Err (o : option A) (e e' : E) : ok_or o e = Err e' ↔ o = None ∧ e' = e.
Proof. destruct o; cbn; naive_solver. Qed.

Lemma expect_Ok (o : option A) a : @expect E A o = Ok a ↔ o = Some a.
Proof. destruct o; cbn; naive_solver. Qed.

Lemma unwrap_Ok {F} (r : result F A) a : @unwrap E F A r = Ok a ↔ r = Ok a.
Proof. destruct r; cbn; naive_solver. Qed.

Lemma unwrap_inv {F} (r : result F A) a : @unwrap E F A r = Ok a → r = Ok a.
Proof. by apply unwrap_Ok. Qed.
End result_lemmas.

Section result_loops.
Context {E A B : Type}.

Lemma foldM_app {S} (f : S → A → result E S) s l k :
  foldM f s (l ++ k) = (s' ← foldM f s l; foldM f s' k).
Proof.
  revert s. induction l as [|a l IH]; intros s; [done|]. cbn.
  destruct (f s a) as [s'| |]; cbn; [apply IH|done|done].
Qed.

(** An invariant kept by the body of a loop holds after the loop. *)
Lemma foldM_invariant {S} (P : S → Prop) (f : S → A → result E S) l s s' :
  (∀ s a s', a ∈ l → P s → f s a = Ok s' → P s') →
  P s → foldM f s l = Ok s' → P s'.
Proof.
  revert s. induction l as [|a l IH]; intros s Hf Hs Hl; cbn in Hl; [naive_solver|].
  apply bind_Ok in Hl as (s1 & Ha & Hl).
  eapply IH; [|eapply Hf; [|exact Hs|exact Ha]; set_solver|exact Hl].
  intros; eapply Hf; eauto. set_solver.
Qed.

Lemma collectM_Ok (f : A → result E B) l k :
  collectM f l = Ok k ↔ Forall2 (λ a b, f a = Ok b) l k.
Proof.
  revert k. induction l as [|a l IH]; intros k; cbn.
  - split; [intros [= <-]; constructor|by inversion 1].
  - rewrite bind_Ok. split.
    + intros (b & Hb & (bs & Hbs & [= <-])%bind_Ok). constructor; [done|]. by apply IH.
    + inversion 1 as [|? b ? bs]; subst. exists b. split; [done|].
      apply bind_Ok. exists bs. split; [|done]. by apply IH.
Qed.

Lemma collectM_map {C} (g : C → A) (f : A → result E B) l :
  collectM f (g <$> l) = collectM (f ∘ g) l.
Proof. induction l as [|c l IH]; cbn; [done|]. by rewrite IH. Qed.

Lemma collectM_all_Ok (f : A → result E B) (g : A → B) l :
  (∀ a, a ∈ l → f a = Ok (g a)) → collectM f l = Ok (g <$> l).
Proof.
  induction l as [|a l IH]; intros H; cbn; [done|].
  rewrite H by set_solver. cbn. rewrite IH by set_solver. done.
Qed.
End result_loops.

Create HintDb svalin.
Create HintDb keeps.
#[export] Hint Rewrite @bind_Ok @bind_Err @bind_Panic @ensure_Ok @ensure_Err
  @map_err_Ok @map_err_Err @map_err_Panic @ok_or_Ok @ok_or_Err @expect_Ok
  @unwrap_Ok : result.

(** [inv_result H] splits an equation on a monadic computation into the
    equations of its steps. *)
Ltac inv_result H :=
  lazymatch type of H with
  | (_ ≫= _) = Ok _ =>
      let a := fresh "x" in let H1 := fresh "Hx" in let H2 := fresh "Hk" in
      apply bind_Ok in H; destruct H as (a & H1 & H2);
      try inv_result H1; try inv_result H2
  | ensure _ _ = Ok _ => apply (proj1 (ensure_Ok _ _ _)) in H
  | ensure _ _ = Err _ => apply (proj1 (ensure_Err _ _ _)) in H
  | map_err _ _ = Ok _ => apply (proj1 (map_err_Ok _ _ _)) in H; try inv_result H
  | ok_or _ _ = Ok _ => apply (proj1 (ok_or_Ok _ _ _)) in H
  | expect _ = Ok _ => apply (proj1 (expect_Ok _ _)) in H
  | unwrap _ = Ok _ => apply (proj1 (unwrap_Ok _ _)) in H; try inv_result H
  | Ok _ = Ok _ => injection H; clear H; intros; subst
  | Err _ = Ok _ => discriminate H
  | Panic = Ok _ => discriminate H
  | _ = _ => idtac
  end.

(** [bool_hyps] turns the boolean tests in the context into propositions. *)
Ltac bool_hyps :=
  repeat match goal with
  | H : bool_decide _ = true |- _ => apply bool_decide_eq_true in H
  | H : bool_decide _ = false |- _ => apply bool_decide_eq_false in H
  | H : negb _ = true |- _ => apply negb_true_iff in H
  | H : negb _ = false |- _ => apply negb_false_iff in H
  | H : _ && _ = true |- _ => apply andb_true_iff in H; destruct H
  | H : _ || _ = false |- _ => apply orb_false_iff in H; destruct H
  | H : (_ <=? _) = true |- _ => apply Z.leb_le in H
  | H : (_ <=? _) = false |- _ => apply Z.leb_gt in H
  | H : (_ <? _) = true |- _ => apply Z.ltb_lt in H
  | H : (_ <? _) = false |- _ => apply Z.ltb_ge in H
  | H : (_ =? _) = true |- _ => apply Z.eqb_eq in H
  | H : (_ =? _) = false |- _ => apply Z.eqb_neq in H
  end.

(** ** Steps on a state

    A step on a state that may fail; the state is what it left behind. *)
Definition io (S E A : Type) : Type := S → S * result E A.

#[global] Instance io_ret S E : MRet (io S E) := λ A a s, (s, Ok a).
#[global] Instance io_bind S E : MBind (io S E) := λ A B f m s,
  match m s with
  | (s, Ok a) => f a s
  | (s, Err e) => (s, Err e)
  | (s, Panic) => (s, Panic)
  end.

Definition io_map_err {S E F A} (f : E → F) (m : io S E A) : io S F A :=
  λ s, let '(s, r) := m s in (s, map_err f r).
Definition io_result {S E A} (r : result E A) : io S E A := λ s, (s, r).
Definition io_get {S E} : io S E S := λ s, (s, Ok s).
Definition io_err {S E A} (e : E) : io S E A := io_result (Err e).

Lemma io_bind_step {S E A B} (m : io S E A) (f : A → io S E B) s s' a :
  m s = (s', Ok a) → (m ≫= f) s = f a s'.
Proof. intros H. unfold mbind, io_bind. by rewrite H. Qed.

Lemma io_bind_fail {S E A B} (m : io S E A) (f : A → io S E B) s s' e :
  m s = (s', Err e) → (m ≫= f) s = (s', Err e).
Proof. intros H. unfold mbind, io_bind. by rewrite H. Qed.

Lemma io_bind_panic {S E A B} (m : io S E A) (f : A → io S E B) s s' :
  m s = (s', Panic) → (m ≫= f) s = (s', Panic).
Proof. intros H. unfold mbind, io_bind. by rewrite H. Qed.

Lemma io_map_err_step {S E F A} (f : E → F) (m : io S E A) s s' a :
  m s = (s', Ok a) → io_map_err f m s = (s', Ok a).
Proof. intros E'. unfold io_map_err. by rewrite E'. Qed.

Lemma io_get_step {S E} (s : S) : io_get (E := E) s = (s, Ok s).
Proof. done. Qed.

Lemma io_bind_inv {S E A B} (m : io S E A) (f : A → io S E B) s s' b :
  (m ≫= f) s = (s', Ok b) → ∃ s1 a, m s = (s1, Ok a) ∧ f a s1 = (s', Ok b).
Proof. unfold mbind, io_bind. destruct (m s) as [s1 [a| |]]; naive_solver. Qed.

Lemma io_map_err_inv {S E F A} (f : E → F) (m : io S E A) s s' a :
  io_map_err f m s = (s', Ok a) → m s = (s', Ok a).
Proof. unfold io_map_err. destruct (m s) as [s1 [a'| |]]; naive_solver. Qed.

(** What a bind leaves behind: the state of its first step when that fails,
    else the state of the second. *)
Lemma io_bind_cases {S E A B} (m : io S E A) (f : A → io S E B) s s' r :
  (m ≫= f) s = (s', r) →
  (∃ s1 a, m s = (s1, Ok a) ∧ f a s1 = (s', r)) ∨
  (∃ r', m s = (s', r') ∧ is_ok r' = false ∧ is_ok r = false).
Proof.
  unfold mbind, io_bind. destruct (m s) as [s1 [a| |]]; [eauto| |];
    intros [= -> <-]; right; eauto.
Qed.

(** A computation known to succeed, by its result alone. *)
Lemma io_run {S E A} (m : io S E A) s a : (m s).2 = Ok a → m s = ((m s).1, Ok a).
Proof. destruct (m s). by intros [= ->]. Qed.

(** A loop over steps. *)
Fixpoint io_iter {S E A} (f : A → io S E ()) (l : list A) : io S E () :=
  match l with
  | [] => mret ()
  | a :: l => _ ← f a; io_iter f l
  end.

(** A loop that collects what its steps return. *)
Fixpoint io_collect {S E A B} (f : A → io S E B) (l : list A) : io S E (list B) :=
  match l with
  | [] => mret []
  | a :: l => b ← f a; bs ← io_collect f l; mret (b :: bs)
  end.

(** [keeps R m]: whatever its outcome, [m] moves the state along [R]. *)
Definition keeps {S E A} (R : relation S) (m : io S E A) : Prop :=
  ∀ s s' r, m s = (s', r) → R s s'.

Section keeps.
Context {S : Type} (R : relation S).

Lemma keeps_result `{!PreOrder R} {E A} (r : result E A) : keeps R (io_result r).
Proof. by intros s s' r' [= -> _]. Qed.

Lemma keeps_ret `{!PreOrder R} {E A} (a : A) : keeps (E := E) R (mret a).
Proof. by intros s s' r' [= -> _]. Qed.

Lemma keeps_get `{!PreOrder R} {E} : keeps (E := E) R io_get.
Proof. by intros s s' r' [= -> _]. Qed.

Lemma keeps_bind `{!PreOrder R} {E A B} (m : io S E A) (f : A → io S E B) :
  keeps R m → (∀ a, keeps R (f a)) → keeps R (m ≫= f).
Proof.
  intros Hm Hf s s' r H. apply io_bind_cases in H as [(s1 & a & H1 & H2)|(r' & H1 & _)].
  - transitivity s1; [by eapply Hm|by eapply Hf].
  - by eapply Hm.
Qed.

Lemma keeps_map_err {E F A} (f : E → F) (m : io S E A) : keeps R m → keeps R (io_map_err f m).
Proof.
  intros Hm s s' r. unfold io_map_err. destruct (m s) as [s1 r1] eqn:H1.
  intros [= <- _]. by eapply Hm.
Qed.

Lemma keeps_iter `{!PreOrder R} {E A} (f : A → io S E ()) l : (∀ a, keeps R (f a)) → keeps R (io_iter f l).
Proof.
  intros Hf. induction l as [|a l IH]; cbn; [apply keeps_ret|]. apply keeps_bind; [done|]. done.
Qed.

Lemma keeps_collect `{!PreOrder R} {E A B} (f : A → io S E B) l :
  (∀ a, keeps R (f a)) → keeps R (io_collect f l).
Proof.
  intros Hf. induction l as [|a l IH]; cbn; [by apply keeps_ret|].
  apply keeps_bind; [done|]. intros b. apply keeps_bind; [done|]. intros bs. by apply keeps_ret.
Qed.

Lemma io_collect_Forall2 `{!PreOrder R} {E A B} (Q : A → B → Prop) (f : A → io S E B) l s s' bs :
  (∀ a s1 s2 b, R s s1 → f a s1 = (s2, Ok b) → R s1 s2 ∧ Q a b) →
  io_collect f l s = (s', Ok bs) → Forall2 Q l bs.
Proof.
  intros Hf. assert (∀ s1 bs, R s s1 → io_collect f l s1 = (s', Ok bs) → Forall2 Q l bs) as H.
  2:{ by apply H. }
  induction l as [|a l IH]; cbn; intros s1 cs H1 Hl; [injection Hl as _ <-; constructor|].
  apply io_bind_inv in Hl as (s2 & b & Ha & Hl). destruct (Hf _ _ _ _ H1 Ha) as [H2 Hq].
  apply io_bind_inv in Hl as (s3 & cs' & Hcs & [= -> <-]).
  constructor; [done|]. eapply IH; [by etransitivity|done].
Qed.

(** A loop that ends well has done its work on every element, each time in
    a state the start leads to. *)
Lemma io_iter_Forall `{!PreOrder R} {E A} (Q : A → Prop) (f : A → io S E ()) l s s' u :
  (∀ a s1 s2 u, R s s1 → f a s1 = (s2, Ok u) → R s1 s2 ∧ Q a) →
  io_iter f l s = (s', Ok u) → R s s' ∧ Forall Q l.
Proof.
  intros Hf. assert (∀ s1, R s s1 → io_iter f l s1 = (s', Ok u) → R s s' ∧ Forall Q l) as H.
  2:{ by apply H. }
  induction l as [|a l IH]; cbn; intros s1 H1 Hl; [by injection Hl as ->|].
  apply io_bind_inv in Hl as (s2 & v & Ha & Hl). destruct (Hf _ _ _ _ H1 Ha) as [H2 Hq].
  destruct (IH s2) as [H3 H4]; [by etransitivity|done|]. by split; [|constructor].
Qed.
End keeps.

#[export] Hint Resolve keeps_result keeps_ret keeps_get : keeps.
#[export] Hint Extern 0 (PreOrder _) => apply _ : keeps.

(** [keep] walks through a computation with the hints of [keeps]. *)
Ltac keep :=
  repeat (intros; first
    [ solve [eauto with keeps]
    | apply keeps_bind
    | apply keeps_map_err
    | apply keeps_iter
    | apply keeps_collect
    | case_match ]).

(** ** Machine integers

    Unsigned integers are [Z] with their range; [+] wraps, as the release
    profile compiles it. *)
Definition u8_max : Z := 2 ^ 8 - 1.
Definition u32_max : Z := 2 ^ 32 - 1.
Definition u64_max : Z := 2 ^ 64 - 1.
Definition wrap_u32 (z : Z) : Z := z `mod` 2 ^ 32.
Definition wrap_u64 (z : Z) : Z := z `mod` 2 ^ 64.
Definition is_u8 (z : Z) : Prop := 0 ≤ z < 2 ^ 8.
Definition is_u32 (z : Z) : Prop := 0 ≤ z < 2 ^ 32.
Definition is_u64 (z : Z) : Prop := 0 ≤ z < 2 ^ 64.

Lemma wrap_u64_small z : is_u64 z → wrap_u64 z = z.
Proof. apply Z.mod_small. Qed.

Lemma wrap_u64_range z : is_u64 (wrap_u64 z).
Proof. unfold is_u64, wrap_u64. apply Z.mod_pos_bound. lia. Qed.

(** ** Bytes *)
Notation bytes := (list Z).
Definition is_bytes (b : list Z) : Prop := Forall is_u8 b.

Definition to_le_bytes (n : nat) (z : Z) : list Z := Z_to_little_endian (Z.of_nat n) 8 z.
Definition from_le_bytes (b : list Z) : Z := little_endian_to_Z 8 b.
Definition to_be_bytes (n : nat) (z : Z) : list Z := reverse (to_le_bytes n z).
Definition from_be_bytes (b : list Z) : Z := from_le_bytes (reverse b).

Lemma length_to_le_bytes n z : length (to_le_bytes n z) = n.
Proof.
  apply Nat2Z.inj. unfold to_le_bytes.
  rewrite length_Z_to_little_endian by lia. done.
Qed.

Lemma length_to_be_bytes n z : length (to_be_bytes n z) = n.
Proof. unfold to_be_bytes. by rewrite length_reverse, length_to_le_bytes. Qed.

Lemma is_bytes_to_le_bytes n z : is_bytes (to_le_bytes n z).
Proof. apply Z_to_little_endian_bound; lia. Qed.

Lemma is_bytes_to_be_bytes n z : is_bytes (to_be_bytes n z).
Proof. apply Forall_reverse, is_bytes_to_le_bytes. Qed.

Lemma from_le_to_le_bytes n z :
  0 ≤ z < 2 ^ (8 * Z.of_nat n) → from_le_bytes (to_le_bytes n z) = z.
Proof.
  intros H. unfold from_le_bytes, to_le_bytes.
  rewrite little_endian_to_Z_to_little_endian by lia.
  apply Z.mod_small. by rewrite Z.mul_comm.
Qed.

Lemma from_be_to_be_bytes n z :
  0 ≤ z < 2 ^ (8 * Z.of_nat n) → from_be_bytes (to_be_bytes n z) = z.
Proof.
  intros H. unfold from_be_bytes, to_be_bytes.
  rewrite reverse_involutive. by apply from_le_to_le_bytes.
Qed.

Lemma to_le_from_le_bytes b : is_bytes b → to_le_bytes (length b) (from_le_bytes b) = b.
Proof. intros H. apply Z_to_little_endian_to_Z; [lia|lia|done]. Qed.

Lemma to_be_from_be_bytes b : is_bytes b → to_be_bytes (length b) (from_be_bytes b) = b.
Proof.
  intros H. unfold to_be_bytes, from_be_bytes.
  rewrite <-(length_reverse b), to_le_from_le_bytes by (by apply Forall_reverse).
  apply reverse_involutive.
Qed.

Lemma to_le_bytes_inj n x y :
  0 ≤ x < 2 ^ (8 * Z.of_nat n) → 0 ≤ y < 2 ^ (8 * Z.of_nat n) →
  to_le_bytes n x = to_le_bytes n y → x = y.
Proof.
  intros Hx Hy H. rewrite <-(from_le_to_le_bytes n x), <-(from_le_to_le_bytes n y) by done.
  by rewrite H.
Qed.

(** The lexicographic order of byte arrays ([Ord] of [[u8; N]] and [[u8]]). *)
Fixpoint bytes_leb (a b : list Z) : bool :=
  match a, b with
  | [], _ => true
  | _ :: _, [] => false
  | x :: a, y :: b => (x <? y) || ((x =? y) && bytes_leb a b)
  end.

Definition bytes_le (a b : list Z) : Prop := bytes_leb a b = true.
#[global] Instance bytes_le_dec : RelDecision bytes_le.
Proof. intros a b. unfold bytes_le. apply _. Defined.

Lemma bytes_leb_refl a : bytes_leb a a = true.
Proof. induction a as [|x a IH]; cbn; [done|]. rewrite IH. lia. Qed.

Lemma bytes_leb_trans a b c : bytes_leb a b = true → bytes_leb b c = true → bytes_leb a c = true.
Proof.
  revert b c. induction a as [|x a IH]; intros [|y b] [|z c]; cbn; try done.
  intros H1%orb_true_iff H2%orb_true_iff. apply orb_true_iff.
  rewrite !andb_true_iff in *. destruct H1 as [?|[? H1]], H2 as [?|[? H2]]; try lia.
  right. split; [lia|eauto].
Qed.

Lemma bytes_leb_antisym a b : bytes_leb a b = true → bytes_leb b a = true → a = b.
Proof.
  revert b. induction a as [|x a IH]; intros [|y b]; cbn; try done.
  intros H1%orb_true_iff H2%orb_true_iff.
  rewrite !andb_true_iff in *. destruct H1 as [?|[? H1]], H2 as [?|[? H2]]; try lia.
  f_equal; [lia|auto].
Qed.

Lemma bytes_leb_total a b : bytes_leb a b = true ∨ bytes_leb b a = true.
Proof.
  revert b. induction a as [|x a IH]; intros [|y b]; cbn; auto.
  destruct (IH b) as [H|H]; rewrite H; destruct (Z.lt_total x y) as [|[|]];
    rewrite !orb_true_iff, !andb_true_iff; lia.
Qed.

#[global] Instance bytes_le_total : Total bytes_le.
Proof. intros a b. apply bytes_leb_total. Qed.
#[global] Instance bytes_le_trans : Transitive bytes_le.
Proof. intros a b c. apply bytes_leb_trans. Qed.
#[global] Instance bytes_le_antisym : AntiSymm (=) bytes_le.
Proof. intros a b. apply bytes_leb_antisym. Qed.
#[global] Instance bytes_le_refl : Reflexive bytes_le.
Proof. intros a. apply bytes_leb_refl. Qed.

#[export] Hint Resolve is_bytes_to_le_bytes is_bytes_to_be_bytes wrap_u64_range : svalin.
#[export] Hint Rewrite length_to_le_bytes length_to_be_bytes : svalin.

(** ** Lists *)
Lemma app_inj_len {A} (a b c d : list A) :
  length a = length c → a ++ b = c ++ d → a = c ∧ b = d.
Proof. intros Hl H. by apply app_inj_1. Qed.

Section filter_lemmas.
Context {A : Type} (P : A → Prop) `{∀ x, Decision (P x)}.

Lemma filter_all (l : list A) : (∀ x, x ∈ l → P x) → filter P l = l.
Proof.
  induction l as [|x l IH]; intros Hl; [done|].
  rewrite filter_cons_True by (apply Hl; by left). f_equal. apply IH. intros y Hy. apply Hl. by right.
Qed.

Lemma filter_length_pos (l : list A) x : x ∈ l → P x → (0 < length (filter P l))%nat.
Proof.
  intros Hx HP. destruct (filter P l) eqn:Hf; [|cbn; lia].
  assert (x ∈ filter P l) as Hin by by apply list_elem_of_filter.
  rewrite Hf in Hin. by apply elem_of_nil in Hin.
Qed.
End filter_lemmas.
