(* ===== verification/Spki.v ===== *)
(** * Certificate types and SPKI hashes

    The part of [svalin_pki/src/certificate.rs] that does not depend on the
    X.509 parser: the certificate types with the hierarchy they form and
    their textual forms, and the SPKI hash that identifies a certificate.
    The standard library's string operations the code calls are here too. *)
From S2P Require Import Prelude.
From stdpp Require Import options.

(** ** Certificate types *)
Inductive CertificateType : Set :=
  | Root
  | Temporary
  | User
  | UserSession
  | Agent
  | Server.

#[global] Instance CertificateType_eq_dec : EqDecision CertificateType.
Proof. solve_decision. Defined.

Definition should_be_ca (self : CertificateType) : bool :=
  match self with
  | Root => true
  | User => true
  | UserSession => false
  | Agent => false
  | Server => false
  | Temporary => false
  end.

(** [time::Duration::days] and [minutes], in seconds. *)
Definition duration_days (n : Z) : Z := n * 86400.
Definition duration_minutes (n : Z) : Z := n * 60.

Definition validity_duration (self : CertificateType) : Z :=
  match self with
  | Root => duration_days (365 * 10)
  | User => duration_days (365 * 1)
  | UserSession => duration_days 30
  | Agent => duration_days (365 * 1)
  | Server => duration_days (365 * 10)
  | Temporary => duration_minutes 1
  end.

Definition may_be_parent_of (self child_type : CertificateType) : bool :=
  match self with
  | Root =>
      match child_type with
      | Root => false
      | Server => true
      | User => true
      | Agent => true
      | UserSession => true
      | Temporary => false
      end
  | User =>
      match child_type with
      | Root => false
      | Server => false
      | User => true
      | Agent => true
      | UserSession => true
      | Temporary => false
      end
  | UserSession => false
  | Agent => false
  | Server => false
  | Temporary => false
  end.

Definition is_user (self : CertificateType) : bool :=
  match self with
  | Root => true
  | User => true
  | _ => false
  end.

Definition display_type (self : CertificateType) : string :=
  match self with
  | Root => "root"
  | User => "user"
  | UserSession => "user_device"
  | Agent => "agent"
  | Server => "server"
  | Temporary => "temporary"
  end.

Inductive CertificateTypeError : Set := InvalidType.

Definition type_from_str (s : string) : result CertificateTypeError CertificateType :=
  if bool_decide (s = "root") then Ok Root
  else if bool_decide (s = "user") then Ok User
  else if bool_decide (s = "user_device") then Ok UserSession
  else if bool_decide (s = "agent") then Ok Agent
  else if bool_decide (s = "server") then Ok Server
  else if bool_decide (s = "temporary") then Ok Temporary
  else Err InvalidType.

(** ** Strings of the standard library

    A [str] is its UTF-8 bytes. *)
Definition char_code (c : Ascii.ascii) : Z := Z.of_N (Ascii.N_of_ascii c).
Definition char_of (z : Z) : Ascii.ascii := Ascii.ascii_of_N (Z.to_N z).
Definition str_bytes (s : string) : list Z := char_code <$> String.list_ascii_of_string s.
Definition str_of_bytes (b : list Z) : string :=
  String.string_of_list_ascii (char_of <$> b).

(** [str::is_char_boundary]: no continuation byte at the index. *)
Definition is_char_boundary (b : list Z) (i : nat) : bool :=
  if bool_decide (i = 0%nat) then true
  else match b !! i with
       | None => bool_decide (i = length b)
       | Some c => (c <? 128) || (192 <=? c)
       end.

(** [&s[i..j]] unwinds out of range or inside a character. *)
Definition str_slice {E} (b : list Z) (i j : nat) : result E (list Z) :=
  if bool_decide (i ≤ j)%nat && is_char_boundary b i && is_char_boundary b j
     && bool_decide (j ≤ length b)%nat
  then Ok (take (j - i) (drop i b)) else Panic.

(** [char::to_digit(16)] on an ASCII byte. *)
Definition hex_digit (c : Z) : option Z :=
  if (48 <=? c) && (c <=? 57) then Some (c - 48)
  else if (65 <=? c) && (c <=? 70) then Some (c - 55)
  else if (97 <=? c) && (c <=? 102) then Some (c - 87)
  else None.

Fixpoint from_digits16 (acc : Z) (s : list Z) : option Z :=
  match s with
  | [] => Some acc
  | c :: s =>
      d ← hex_digit c;
      let acc := acc * 16 + d in
      if acc <=? u8_max then from_digits16 acc s else None
  end.

(** [u8::from_str_radix(s, 16)]: an empty string and a lone sign are
    errors, a leading plus sign is skipped. *)
Definition u8_from_str_radix16 (s : list Z) : option Z :=
  match s with
  | [] => None
  | [43] | [45] => None
  | 43 :: s => from_digits16 0 s
  | s => from_digits16 0 s
  end.

(** [format!("{:02X}", byte)]. *)
Definition upper_hex_digit (d : Z) : Z := if d <? 10 then d + 48 else d + 55.
Definition byte_upper_hex (b : Z) : list Z :=
  [upper_hex_digit (b `div` 16); upper_hex_digit (b `mod` 16)].

(** ** SPKI hashes *)
Record SpkiHash : Set := mkSpkiHash { as_slice : list Z }.

#[global] Instance SpkiHash_eq_dec : EqDecision SpkiHash.
Proof. solve_decision. Defined.
#[global] Program Instance SpkiHash_countable : Countable SpkiHash :=
  inj_countable' as_slice mkSpkiHash _.
Next Obligation. by intros []. Qed.

(** The values of the Rust type [[u8; 32]]. *)
Definition spki_wf (s : SpkiHash) : Prop := is_bytes (as_slice s) ∧ length (as_slice s) = 32%nat.

Definition spki_le (a b : SpkiHash) : Prop := bytes_le (as_slice a) (as_slice b).
#[global] Instance spki_le_dec : RelDecision spki_le.
Proof. intros a b. unfold spki_le. apply _. Defined.

(** [Display for SpkiHash] (and its [Debug]): the bytes of the string. *)
Definition display_spki_bytes (s : SpkiHash) : list Z := as_slice s ≫= byte_upper_hex.
Definition display_spki (s : SpkiHash) : string := str_of_bytes (display_spki_bytes s).

Definition spki_from_slice (slice : list Z) : result () SpkiHash :=
  if bool_decide (length slice ≠ 32%nat) then Err () else Ok (mkSpkiHash slice).

(** ** Lemmas on strings and SPKI hashes *)
Lemma char_code_of z : is_u8 z → char_code (char_of z) = z.
Proof.
  intros [H1 H2]. unfold char_code, char_of.
  rewrite Ascii.N_ascii_embedding; lia.
Qed.

Lemma str_bytes_of_bytes b : is_bytes b → str_bytes (str_of_bytes b) = b.
Proof.
  intros H. unfold str_bytes, str_of_bytes.
  rewrite String.list_ascii_of_string_of_list_ascii, <-list_fmap_compose.
  induction H as [|z b Hz Hb IH]; cbn; [done|]. by rewrite char_code_of, IH.
Qed.

Definition is_ascii (b : list Z) : Prop := Forall (λ c, 0 ≤ c < 128) b.

Lemma is_char_boundary_ascii b i : is_ascii b → (i ≤ length b)%nat → is_char_boundary b i = true.
Proof.
  intros Hb Hi. unfold is_char_boundary. case_bool_decide; [done|].
  destruct (b !! i) as [c|] eqn:Hc.
  - apply orb_true_iff. left. apply Z.ltb_lt.
    by apply (Forall_lookup_1 _ _ _ _ Hb Hc).
  - apply lookup_ge_None in Hc. case_bool_decide; lia.
Qed.

Lemma str_slice_ascii {E} b i j :
  is_ascii b → (i ≤ j)%nat → (j ≤ length b)%nat →
  str_slice (E := E) b i j = Ok (take (j - i) (drop i b)).
Proof.
  intros Hb Hij Hj. unfold str_slice.
  rewrite !is_char_boundary_ascii by (done || lia).
  by rewrite !bool_decide_true by done.
Qed.

Lemma upper_hex_digit_spec d : 0 ≤ d < 16 →
  hex_digit (upper_hex_digit d) = Some d ∧ 48 ≤ upper_hex_digit d < 128.
Proof.
  intros H. unfold upper_hex_digit, hex_digit.
  destruct (d <? 10) eqn:E; bool_hyps.
  - rewrite !(proj2 (Z.leb_le _ _)) by lia. split; [|lia]. cbn. f_equal. lia.
  - destruct (d + 55 <=? 57) eqn:E1; bool_hyps; [lia|].
    rewrite andb_false_r, !(proj2 (Z.leb_le _ _)) by lia. split; [|lia]. cbn. f_equal. lia.
Qed.

Lemma byte_upper_hex_digits b : is_u8 b → 0 ≤ b `div` 16 < 16 ∧ 0 ≤ b `mod` 16 < 16.
Proof.
  intros [H1 H2]. split; [|apply Z.mod_pos_bound; lia].
  split; [apply Z.div_pos; lia|]. apply Z.div_lt_upper_bound; lia.
Qed.

Lemma u8_from_byte_upper_hex b : is_u8 b → u8_from_str_radix16 (byte_upper_hex b) = Some b.
Proof.
  intros Hb. destruct (byte_upper_hex_digits b Hb) as [H1 H2].
  destruct (upper_hex_digit_spec _ H1) as [Hd1 Hr1], (upper_hex_digit_spec _ H2) as [Hd2 Hr2].
  unfold byte_upper_hex. set (x := upper_hex_digit (b `div` 16)) in *.
  set (y := upper_hex_digit (b `mod` 16)) in *.
  assert (u8_from_str_radix16 [x; y] = from_digits16 0 [x; y]) as ->.
  { destruct x as [|x|x]; [done| |lia]. assert (Z.pos x ≠ 43) by lia.
    cbn -[from_digits16]. repeat (destruct x as [x|x|]; try done). }
  cbn -[Z.mul Z.add Z.leb]. rewrite Hd1. cbn -[Z.mul Z.add Z.leb].
  rewrite (proj2 (Z.leb_le _ _)) by (unfold u8_max; lia).
  rewrite Hd2. cbn -[Z.mul Z.add Z.leb].
  rewrite (proj2 (Z.leb_le _ _)); [|unfold u8_max; destruct Hb; lia].
  f_equal. rewrite (Z.div_mod b 16) at 3 by lia. lia.
Qed.

Lemma display_spki_bytes_ascii l : is_bytes l → is_ascii (l ≫= byte_upper_hex).
Proof.
  induction 1 as [|b l Hb Hl IH]; cbn; [constructor|].
  destruct (byte_upper_hex_digits b Hb) as [H1 H2].
  destruct (upper_hex_digit_spec _ H1), (upper_hex_digit_spec _ H2).
  repeat constructor; try lia. apply IH.
Qed.

Lemma length_display_spki_bytes (l : list Z) :
  length (l ≫= byte_upper_hex) = (2 * length l)%nat.
Proof. induction l; cbn in *; lia. Qed.

Lemma display_spki_bytes_slice (l : list Z) i b :
  l !! i = Some b → take 2 (drop (i * 2) (l ≫= byte_upper_hex)) = byte_upper_hex b.
Proof.
  revert i. induction l as [|x l IH]; intros [|i] Hi; try done.
  - by injection Hi as ->.
  - cbn. apply IH. done.
Qed.

Lemma is_ascii_is_bytes b : is_ascii b → is_bytes b.
Proof. intros H. eapply Forall_impl; [exact H|]. unfold is_u8. cbn. lia. Qed.

Lemma str_bytes_display_spki s :
  spki_wf s → str_bytes (display_spki s) = as_slice s ≫= byte_upper_hex.
Proof.
  intros [Hb _]. apply str_bytes_of_bytes.
  by apply is_ascii_is_bytes, display_spki_bytes_ascii.
Qed.

