(* ===== verification/External.v ===== *)
(** * Interfaces of the code the program calls

    The program's crates call [x509_parser], [ring], [sha2], [hex], [postcard]
    and the like.  Each is a class of operations (a parameter of the model);
    what the program relies on is a second class of laws, assumed only by the
    theorems that need it.  An error value of such a crate is opaque to the
    program, which only wraps and prints it: it is the text it prints. *)
From S2P Require Import Prelude.
From S2P Require Import Spki.
From stdpp Require Import options.

Abbreviation ExtError := string.

(** [x509_parser]: parsing a DER certificate and reading its fields.  An
    [ASN1Time] is its Unix timestamp (an [i64]), a [time::Duration] its number
    of seconds.  A name is seen through its attribute iterators; the value of
    an attribute may fail to be a string. *)
Class X509 := {
  X509Certificate : Type;
  X509Name : Type;
  SubjectPki : Type;
  x509_from_der : list Z → result ExtError (list Z * X509Certificate);
  x509_subject : X509Certificate → X509Name;
  x509_issuer : X509Certificate → X509Name;
  x509_public_key : X509Certificate → SubjectPki;
  x509_not_before : X509Certificate → Z;
  x509_not_after : X509Certificate → Z;
  x509_is_ca : X509Certificate → bool;
  (** [X509Certificate::verify_signature(Some(key))]. *)
  x509_verify_signature : X509Certificate → SubjectPki → result ExtError ();
  name_common_names : X509Name → list (result ExtError string);
  name_organizational_units : X509Name → list (result ExtError string);
  name_eqb : X509Name → X509Name → bool;
  spki_raw : SubjectPki → list Z;
  spki_subject_public_key : SubjectPki → list Z;
  (** [ASN1Time - ASN1Time]. *)
  asn1_sub : Z → Z → option Z;
}.

(** Subtraction of two times is [None] when it would be negative or zero. *)
Class X509Laws `{X509} := {
  asn1_sub_spec a b : asn1_sub a b = if a >? b then Some (a - b) else None;
}.

(** [ring] and [sha2]: digests and Ed25519.  [KeyPair] is [ring]'s signing
    key pair. *)
Class Crypto := {
  sha512 : list Z → list Z;
  sha512_256 : list Z → list Z;
  SigningKeyPair : Type;
  ed25519_public_key : SigningKeyPair → list Z;
  ed25519_sign : SigningKeyPair → list Z → list Z;
  ed25519_verify : list Z → list Z → list Z → bool;
}.

(** What the digests and signatures are documented to do: fixed lengths, and
    a signature made with a key pair verifies under its public key. *)
Class CryptoLaws `{Crypto} := {
  length_sha512 m : length (sha512 m) = 64%nat;
  is_bytes_sha512 m : is_bytes (sha512 m);
  length_sha512_256 m : length (sha512_256 m) = 32%nat;
  is_bytes_sha512_256 m : is_bytes (sha512_256 m);
  ed25519_sign_verify k m : ed25519_verify (ed25519_public_key k) m (ed25519_sign k m) = true;
}.

(** [hex]: the bytes of [encode_hex]'s text, and [decode]. *)
Class Hex := {
  hex_encode : list Z → list Z;
  hex_decode : list Z → result ExtError (list Z);
}.

(** Two digits for each byte, small ones when writing; reading takes both
    cases. *)
Class HexLaws `{Hex} := {
  hex_encode_digits b : Forall (λ c, is_Some (hex_digit c)) (hex_encode b);
  hex_decode_encode b : is_bytes b → hex_decode (hex_encode b) = Ok b;
  hex_decode_wf s b : hex_decode s = Ok b → is_bytes b;
  hex_decode_pairs s b :
    Forall2 (λ p x, ∃ h l, hex_digit p.1 = Some h ∧ hex_digit p.2 = Some l ∧ x = h * 16 + l) s b →
    hex_decode (s ≫= λ p, [p.1; p.2]) = Ok b;
}.

(** [postcard]'s encoding of the serialisable types. *)
Class Postcard (T : Type) := {
  to_stdvec : T → result ExtError (list Z);
  from_bytes : list Z → result ExtError T;
}.

Class PostcardLaws (T : Type) `{Postcard T} := {
  from_to_stdvec x b : to_stdvec x = Ok b → from_bytes b = Ok x;
}.

(** [ring::aead]: sealing and opening under one nonce, for the algorithm
    with the given number. Sealing appends the tag. *)
Class Aead := {
  aead_key_ok : Z → list Z → bool;
  aead_seal : Z → list Z → list Z → list Z → result ExtError (list Z);
  aead_open : Z → list Z → list Z → list Z → result ExtError (list Z);
}.

Class AeadLaws `{Aead} := {
  aead_open_seal alg key nonce m c :
    aead_seal alg key nonce m = Ok c → aead_open alg key nonce c = Ok m;
}.

(** [argon2]: [Params::new] checks the three costs; hashing may fail, and may
    unwind. *)
Class Argon2 := {
  argon2_params_ok : Z → Z → Z → bool;
  argon2id_hash : Z * Z * Z → list Z → list Z → result ExtError (list Z);
}.

(** [rcgen]: key pairs and the making of certificates, and [ring]'s reading
    of a PKCS8 private key.  A [CertificateParams] is seen through the fields
    the program sets; a time is a number of nanoseconds. The signature
    algorithm of a key pair is Ed25519 or another one. *)
Inductive IsCa := NoCa | CaUnconstrained.
Inductive DnType := OrganizationalUnitName | CommonName.
Inductive KeyUsagePurpose := DigitalSignature | KeyCertSign.
Inductive KeyIdMethod := KeyIdSha256 | KeyIdDefault.

Record CertificateParams := mkParams {
  p_not_before : Z;
  p_not_after : Z;
  p_is_ca : IsCa;
  p_key_usages : list KeyUsagePurpose;
  p_use_authority_key_identifier_extension : bool;
  p_key_identifier_method : KeyIdMethod;
  p_distinguished_name : list (DnType * string);
}.

Class Rcgen `{Crypto} := {
  RcgenKeyPair : Type;
  RcgenIssuer : Type;
  rcgen_serialized_der : RcgenKeyPair → list Z;
  rcgen_public_der : RcgenKeyPair → list Z;
  rcgen_is_ed25519 : RcgenKeyPair → bool;
  (** [PrivateKeyDer::try_from]: the encoding of a private key is known. *)
  private_key_der_known : list Z → bool;
  rcgen_from_der : list Z → result ExtError RcgenKeyPair;
  ed25519_from_pkcs8 : list Z → result ExtError SigningKeyPair;
  (** [PublicKeyData::subject_public_key_info]. *)
  subject_public_key_info : list Z → list Z;
  time_saturating_add : Z → Z → Z;
  self_signed : CertificateParams → RcgenKeyPair → result ExtError (list Z);
  issuer_from_ca_cert_der : list Z → RcgenKeyPair → result ExtError RcgenIssuer;
  signed_by : CertificateParams → list Z → RcgenIssuer → result ExtError (list Z);
}.

(** Key pairs survive their encoding; a time far from the end of time is
    added to; a self-signed certificate parses to what its parameters say,
    its times cut to seconds. *)
Class RcgenLaws `{Rcgen, X509} := {
  rcgen_from_serialized k :
    rcgen_from_der (rcgen_serialized_der k) = Ok k ∧
    private_key_der_known (rcgen_serialized_der k) = true;
  time_add_below t d : 0 ≤ t → t + d * 10 ^ 9 < 2 ^ 62 → time_saturating_add t d = t + d * 10 ^ 9;
  self_signed_parses p k der ou cn :
    self_signed p k = Ok der →
    p_distinguished_name p = [(OrganizationalUnitName, ou); (CommonName, cn)] →
    ∃ x, x509_from_der der = Ok ([], x) ∧
      head (name_common_names (x509_subject x)) = Some (Ok cn) ∧
      head (name_organizational_units (x509_subject x)) = Some (Ok ou) ∧
      head (name_common_names (x509_issuer x)) = Some (Ok cn) ∧
      spki_raw (x509_public_key x) = subject_public_key_info (rcgen_public_der k) ∧
      x509_not_before x = p_not_before p `div` 10 ^ 9 ∧
      x509_not_after x = p_not_after p `div` 10 ^ 9 ∧
      x509_is_ca x = match p_is_ca p with NoCa => false | CaUnconstrained => true end;
}.
