(* ===== verification/Sql.v ===== *)
(** * Tables of the SQLite database

    A table is the list of its rows in the order of its integer primary key.
    The stores of the program use it through a handful of statements, which
    are the functions of this file.  Failures of the database other than the
    violation of a constraint (a full disk, a lost file) are not modelled. *)
From S2P Require Import Prelude.
From S2P Require Import External.
From stdpp Require Import options.

(** [u64 as i64] and [i64 as u64]. *)
Definition as_i64 (z : Z) : Z := if z <? 2 ^ 63 then z else z - 2 ^ 64.
Definition as_u64 (z : Z) : Z := z `mod` 2 ^ 64.

Inductive SqlxError :=
  | RowNotFound
  | UniqueViolation
  | CheckViolation
  | EncodeError (e : ExtError)
  | DecodeError (e : ExtError).

Section table.
Context {A : Type}.
Abbreviation table := (list (Z * A)).

(** [INSERT INTO t (key, data) VALUES (?, ?)]. *)
Fixpoint sql_insert (k : Z) (a : A) (t : table) : result SqlxError table :=
  match t with
  | [] => Ok [(k, a)]
  | (k', a') :: t' =>
      if k <? k' then Ok ((k, a) :: t)
      else if k =? k' then Err UniqueViolation
      else t'' ← sql_insert k a t'; Ok ((k', a') :: t'')
  end.

(** [SELECT MAX(key) FROM t]: [NULL] on an empty table. *)
Definition sql_max (t : table) : option Z := fst <$> last t.

(** [SELECT data FROM t WHERE key = ?], one row expected. *)
Definition sql_fetch_one (k : Z) (t : table) : result SqlxError A :=
  match list_find (λ r, r.1 = k) t with
  | Some (_, (_, a)) => Ok a
  | None => Err RowNotFound
  end.

(** [SELECT data FROM t WHERE key > ? ORDER BY key ASC]. *)
Definition sql_after (k : Z) (t : table) : list A := (filter (λ r, k < r.1) t).*2.

(** The rows are in the order of their keys, without duplicates. *)
Definition table_ok (t : table) : Prop := StronglySorted (λ r s : Z * A, r.1 < s.1) t.

Lemma sql_insert_last k a t :
  Forall (λ r, r.1 < k) t → sql_insert k a t = Ok (t ++ [(k, a)]).
Proof.
  induction 1 as [|[k' a'] t Hk Ht IH]; [done|]. cbn in *.
  rewrite (proj2 (Z.ltb_ge k k')), (proj2 (Z.eqb_neq k k')) by lia. by rewrite IH.
Qed.

Lemma sql_insert_present k a t :
  table_ok t → k ∈ t.*1 → sql_insert k a t = Err UniqueViolation.
Proof.
  induction 1 as [|[k' a'] t Ht IH Hall]; cbn; [by intros ?%elem_of_nil|].
  intros [->|Hk]%elem_of_cons.
  - by rewrite Z.ltb_irrefl, Z.eqb_refl.
  - assert (k' < k).
    { apply list_elem_of_fmap in Hk as ([k1 a1] & -> & Hk). by apply (proj1 (Forall_forall _ _) Hall) in Hk. }
    rewrite (proj2 (Z.ltb_ge k k')), (proj2 (Z.eqb_neq k k')) by lia. by rewrite IH.
Qed.

Lemma sql_fetch_one_Ok k a t : table_ok t → (k, a) ∈ t → sql_fetch_one k t = Ok a.
Proof.
  unfold sql_fetch_one. induction 1 as [|[k' a'] t Ht IH Hall]; cbn; [by intros ?%elem_of_nil|].
  intros [[= -> ->]|Hk]%elem_of_cons; [by rewrite decide_True|].
  assert (k' < k) by exact (proj1 (Forall_forall _ _) Hall _ Hk).
  rewrite decide_False by (cbn; lia). specialize (IH Hk).
  destruct (list_find _ t) as [[i [k1 a1]]|]; cbn; done.
Qed.

Lemma sql_max_last t k a : sql_max (t ++ [(k, a)]) = Some k.
Proof. unfold sql_max. by rewrite last_snoc. Qed.
End table.

(** ** Tables with other keys

    A table whose primary key is one or several columns is a finite map. *)
Section keyed.
Context {K : Type} `{Countable K} {A : Type}.

(** [INSERT INTO t (key, data) VALUES (?, ?)]. *)
Definition keyed_insert (k : K) (a : A) (t : gmap K A) : result SqlxError (gmap K A) :=
  match t !! k with
  | Some _ => Err UniqueViolation
  | None => Ok (<[k := a]> t)
  end.

(** [INSERT OR REPLACE INTO t (key, data) VALUES (?, ?)]. *)
Definition keyed_replace (k : K) (a : A) (t : gmap K A) : gmap K A := <[k := a]> t.

Lemma keyed_insert_Ok k a t t' : keyed_insert k a t = Ok t' ↔ t !! k = None ∧ t' = <[k := a]> t.
Proof. unfold keyed_insert. destruct (t !! k); naive_solver. Qed.
End keyed.

(** The order of the rows of a query without [ORDER BY] is the database's. *)
Class SqlOrder := sql_order : ∀ {A : Type}, list A → list A.

Class SqlOrderLaws `{SqlOrder} := {
  sql_order_perm {A : Type} (l : list A) : sql_order l ≡ₚ l;
}.
