(* ===== verification/Toy.v ===== *)
(** * A concrete instance of the interfaces

    Small executable implementations of the interfaces of [External], which
    satisfy their laws; the worked examples of the development evaluate the
    program's definitions over them. *)
From S2P Require Import Prelude.
From S2P Require Import External.
From S2P Require Import Spki.
From stdpp Require Import options.

(** A digest of [S n] bytes: the sum of the message, then zeros. *)
Definition toy_hash (n : nat) (m : list Z) : list Z :=
  (foldr Z.add 0 m `mod` 256) :: replicate n 0.

Lemma is_bytes_toy_hash n m : is_bytes (toy_hash n m).
Proof.
  constructor; [apply Z.mod_pos_bound; lia|].
  apply Forall_replicate. unfold is_u8. lia.
Qed.

(** A key pair is its public byte; a signature is the key and the message. *)
Definition toy_crypto : Crypto := {|
  sha512 := toy_hash 63;
  sha512_256 := toy_hash 31;
  SigningKeyPair := Z;
  ed25519_public_key k := [k];
  ed25519_sign k m := k :: m;
  ed25519_verify pk m s := bool_decide (s = pk ++ m);
|}.

Lemma toy_crypto_laws : @CryptoLaws toy_crypto.
Proof.
  split; intros.
  1, 3: done.
  1, 2: apply is_bytes_toy_hash.
  by apply bool_decide_true.
Qed.

(** A toy certificate is its fields; its encoding is the numbers, then the
    three strings with their lengths. *)
Record toy_cert := mkToyCert {
  toy_key : Z;
  toy_signer : Z;
  toy_not_before : Z;
  toy_not_after : Z;
  toy_is_ca : bool;
  toy_ou : string;
  toy_cn : string;
  toy_issuer_cn : string;
}.

Definition toy_encode_str (s : string) : list Z :=
  Z.of_nat (String.length s) :: str_bytes s.

Definition toy_decode_str (d : list Z) : option (string * list Z) :=
  match d with
  | n :: d => Some (str_of_bytes (take (Z.to_nat n) d), drop (Z.to_nat n) d)
  | [] => None
  end.

Definition toy_der (c : toy_cert) : list Z :=
  [toy_key c; toy_signer c; toy_not_before c; toy_not_after c; if toy_is_ca c then 1 else 0] ++
  toy_encode_str (toy_ou c) ++ toy_encode_str (toy_cn c) ++ toy_encode_str (toy_issuer_cn c).

Definition toy_from_der (d : list Z) : result ExtError (list Z * toy_cert) :=
  match d with
  | k :: i :: nb :: na :: ca :: d =>
      ok_or ('(ou, d) ← toy_decode_str d;
             '(cn, d) ← toy_decode_str d;
             '(icn, d) ← toy_decode_str d;
             Some (d, mkToyCert k i nb na (ca =? 1) ou cn icn)) "short"%string
  | _ => Err "short"%string
  end.

Lemma toy_decode_encode_str s d : toy_decode_str (toy_encode_str s ++ d) = Some (s, d).
Proof.
  unfold toy_decode_str, toy_encode_str. cbn [app]. rewrite Nat2Z.id.
  assert (length (str_bytes s) = String.length s) as Hlen.
  { unfold str_bytes. rewrite length_fmap. induction s; cbn; congruence. }
  rewrite <-Hlen, take_app_length, drop_app_length. do 2 f_equal.
  unfold str_of_bytes, str_bytes. rewrite <-list_fmap_compose.
  rewrite <-(String.string_of_list_ascii_of_string s) at 2. f_equal.
  rewrite <-(list_fmap_id (String.list_ascii_of_string s)) at 2.
  apply list_fmap_ext. intros _ c _. cbn. unfold char_of, char_code.
  rewrite N2Z.id. apply Ascii.ascii_N_embedding.
Qed.

Lemma toy_from_to_der c : toy_from_der (toy_der c) = Ok ([], c).
Proof.
  destruct c as [k i nb na ca ou cn icn]. unfold toy_der, toy_from_der. cbn -[toy_encode_str toy_decode_str].
  rewrite toy_decode_encode_str. cbn -[toy_encode_str toy_decode_str].
  rewrite toy_decode_encode_str. cbn -[toy_encode_str toy_decode_str].
  rewrite <-(app_nil_r (toy_encode_str icn)), toy_decode_encode_str. cbn. by destruct ca.
Qed.

Definition toy_key_cn (k : Z) : string := display_spki (mkSpkiHash (toy_hash 31 [k])).

(** The certificate a key gets by the program's conventions. *)
Definition mkToy (t : CertificateType) (key issuer not_before : Z) : toy_cert := {|
  toy_key := key;
  toy_signer := issuer;
  toy_not_before := not_before;
  toy_not_after := not_before + validity_duration t;
  toy_is_ca := should_be_ca t;
  toy_ou := display_type t;
  toy_cn := toy_key_cn key;
  toy_issuer_cn := toy_key_cn issuer;
|}.

(** A name is a common name and, for a subject, an organizational unit. *)
Definition toy_x509 : X509 := {|
  X509Certificate := toy_cert;
  X509Name := string * option string;
  SubjectPki := Z;
  x509_from_der := toy_from_der;
  x509_subject c := (toy_cn c, Some (toy_ou c));
  x509_issuer c := (toy_issuer_cn c, None);
  x509_public_key := toy_key;
  x509_not_before := toy_not_before;
  x509_not_after := toy_not_after;
  x509_is_ca := toy_is_ca;
  x509_verify_signature c k := if toy_signer c =? k then Ok () else Err "bad signature"%string;
  name_common_names n := [Ok n.1];
  name_organizational_units n := match n.2 with Some t => [Ok t] | None => [] end;
  name_eqb a b := bool_decide (a.1 = b.1);
  spki_raw k := [k];
  spki_subject_public_key k := [k];
  asn1_sub a b := if a >? b then Some (a - b) else None;
|}.

Lemma toy_x509_laws : @X509Laws toy_x509.
Proof. split. done. Qed.

(** A key pair is its number; a certificate is made from the parameters. *)
Definition toy_made (p : CertificateParams) (k signer : Z) (issuer_cn : string → string) : list Z :=
  let ou := default ""%string (snd <$> head (p_distinguished_name p)) in
  let cn := default ""%string (snd <$> p_distinguished_name p !! 1%nat) in
  toy_der (mkToyCert k signer (p_not_before p `div` 10 ^ 9) (p_not_after p `div` 10 ^ 9)
    (match p_is_ca p with NoCa => false | CaUnconstrained => true end) ou cn (issuer_cn cn)).

Definition toy_rcgen : @Rcgen toy_crypto := {|
  RcgenKeyPair := Z;
  RcgenIssuer := Z;
  rcgen_serialized_der k := [k];
  rcgen_public_der k := [k];
  rcgen_is_ed25519 k := true;
  private_key_der_known d := true;
  rcgen_from_der d := match d with [k] => Ok k | _ => Err "key"%string end;
  ed25519_from_pkcs8 d := match d with [k] => Ok (k : @SigningKeyPair toy_crypto) | _ => Err "key"%string end;
  subject_public_key_info d := d;
  time_saturating_add t d := t + d * 10 ^ 9;
  self_signed p k := Ok (toy_made p k k id);
  issuer_from_ca_cert_der d k := Ok k;
  signed_by p pk i := match pk with [k] => Ok (toy_made p k i (λ _, toy_key_cn i)) | _ => Err "key"%string end;
|}.

Lemma toy_rcgen_laws : @RcgenLaws toy_crypto toy_rcgen toy_x509.
Proof.
  split; [done|done|]. intros p k d ou cn [= <-] Hdn. eexists. split.
  - unfold toy_made. apply toy_from_to_der.
  - rewrite Hdn. cbn. by destruct (p_is_ca p).
Qed.

(** Any countable type has an encoding of one number. *)
Definition toy_postcard (T : Type) `{Countable T} : Postcard T := {|
  to_stdvec x := Ok [Zpos (encode x)];
  from_bytes b := match b with [Zpos p] => ok_or (decode p) "code"%string | _ => Err "code"%string end;
|}.

Lemma toy_postcard_laws (T : Type) `{Countable T} : @PostcardLaws T (toy_postcard T).
Proof. split. intros x b [= <-]. cbn. by rewrite decode_encode. Qed.

(** One value, encoded as nothing. *)
Definition postcard_only {T} `{EqDecision T} (x : T) : Postcard T := {|
  to_stdvec y := if bool_decide (y = x) then Ok [] else Err "other"%string;
  from_bytes b := Ok x;
|}.
Lemma postcard_only_laws {T} `{EqDecision T} (x : T) : @PostcardLaws T (postcard_only x).
Proof. split. intros y b. cbn. case_bool_decide as E; [|done]. intros [= <-]. by rewrite E. Qed.

