(* ===== verification/Certificate.v ===== *)
(** * Certificates ([svalin_pki/src/certificate.rs])

    Parsing a certificate from DER with the conventions the program
    enforces, and the verification of one certificate by its issuer. *)
From S2P Require Import Prelude.
From S2P Require Import External.
From S2P Require Import Spki.
From S2P Require Import Toy.
From stdpp Require Import options.

(** ** Certificates *)
Record Validity : Set := mkValidity { not_before : Z; not_after : Z }.

Record CertificateData : Set := mkCertificateData {
  der : list Z;
  certificate_type : CertificateType;
  public_key : list Z;
  spki_hash : SpkiHash;
  is_ca : bool;
  issuer : SpkiHash;
  validity : Validity;
}.

Record UnverifiedCertificate : Set := mkUnverified { data : CertificateData }.
Record Certificate : Set := mkCertificate { as_unverified : UnverifiedCertificate }.
Record RootCertificate : Set := mkRoot { as_certificate : Certificate }.

(** [Deref]: a certificate, trusted or not, is read as its data. *)
Coercion data : UnverifiedCertificate >-> CertificateData.
Coercion as_unverified : Certificate >-> UnverifiedCertificate.
Coercion as_certificate : RootCertificate >-> Certificate.

(** All the [PartialEq] instances compare the DER encodings. *)
Definition cert_eqb (a b : CertificateData) : bool := bool_decide (der a = der b).

Inductive ValidityError : Set := NotYetValid | Expired.

Inductive CertificateParseError : Set :=
  | X509ParserError (e : ExtError)
  | X509Error (e : ExtError)
  | MissingCommonName
  | MissingOrganizationalUnit
  | InvalidCertificateType (e : CertificateTypeError)
  | IssuerMissingCommonName
  | SpkiHashMismatch
  | ShouldNotBeCa (t : CertificateType)
  | ShouldBeCa (t : CertificateType)
  | SelfSignedNotRootOrTemp
  | BrokenValidity
  | IncorrectValidityDuration (t : CertificateType) (expected got : Z)
  | InvalidIssuer (s : string).

Inductive SignatureVerificationError : Set :=
  | SigParserError (e : ExtError)
  | SigX509VerificationError (e : ExtError)
  | SigInvalidCertificateType (parent child : CertificateType)
  | SigValidityError (e : ValidityError).

Inductive UseAsRootError : Set := RootInvalidCertificateType.

#[global] Instance ValidityError_eq_dec : EqDecision ValidityError.
Proof. solve_decision. Defined.
#[global] Instance SignatureVerificationError_eq_dec : EqDecision SignatureVerificationError.
Proof. solve_decision. Defined.
#[global] Instance Validity_eq_dec : EqDecision Validity.
Proof. solve_decision. Defined.
#[global] Instance CertificateData_eq_dec : EqDecision CertificateData.
Proof. solve_decision. Defined.
#[global] Instance UnverifiedCertificate_eq_dec : EqDecision UnverifiedCertificate.
Proof. solve_decision. Defined.
#[global] Instance Certificate_eq_dec : EqDecision Certificate.
Proof. solve_decision. Defined.

(** [i64::try_into::<u64>().unwrap()]. *)
Definition timestamp_u64 {E} (t : Z) : result E Z := if t <? 0 then Panic else Ok t.

Definition check_validity_at (self : CertificateData) (time : Z) : result ValidityError () :=
  nb ← timestamp_u64 (not_before (validity self));
  if time <? nb then Err NotYetValid
  else
    na ← timestamp_u64 (not_after (validity self));
    if time >? na then Err Expired
    else Ok ().

Definition mark_as_trusted (self : UnverifiedCertificate) : Certificate := mkCertificate self.

Definition use_as_temporary (self : UnverifiedCertificate) : option Certificate :=
  if bool_decide (certificate_type self ≠ Temporary) then None
  else Some (mkCertificate self).

Definition use_as_root (self : UnverifiedCertificate) : result UseAsRootError RootCertificate :=
  if bool_decide (certificate_type self = Root) then Ok (mkRoot (mkCertificate self))
  else Err RootInvalidCertificateType.

(** The loop of [from_der] that fills the 32 bytes of the issuer. *)
Definition parse_issuer (issuer_str : string) : result CertificateParseError SpkiHash :=
  let s := str_bytes issuer_str in
  if bool_decide (length s ≠ 64%nat) then Err (InvalidIssuer issuer_str)
  else
    issuer_data ← collectM (λ i : nat,
        hex_byte ← str_slice s (i * 2) (i * 2 + 2);
        ok_or (u8_from_str_radix16 hex_byte) (InvalidIssuer issuer_str))
      (seq 0 32);
    Ok (mkSpkiHash issuer_data).

Section certificate.
Context `{X509, Crypto}.

(** The [try_into().unwrap()] of the digest's slice to an array. *)
Definition compute_spki_hash {E} (spki_der : list Z) : result E SpkiHash :=
  unwrap (spki_from_slice (sha512_256 spki_der)).

(** The first value of an attribute iterator, as a string. *)
Definition first_attribute (l : list (result ExtError string)) (missing : CertificateParseError) :
    result CertificateParseError string :=
  r ← ok_or (head l) missing;
  map_err X509Error r.

Definition from_der (d : list Z) : result CertificateParseError UnverifiedCertificate :=
  '(_, cert) ← map_err X509ParserError (x509_from_der d);
  spki_hash ← compute_spki_hash (spki_raw (x509_public_key cert));
  cn ← first_attribute (name_common_names (x509_subject cert)) MissingCommonName;
  ou ← first_attribute (name_organizational_units (x509_subject cert)) MissingOrganizationalUnit;
  certificate_type ← map_err InvalidCertificateType (type_from_str ou);
  _ ← ensure (bool_decide (display_spki spki_hash = cn)) SpkiHashMismatch;
  let validity := mkValidity (x509_not_before cert) (x509_not_after cert) in
  validity_time ← ok_or (asn1_sub (not_after validity) (not_before validity)) BrokenValidity;
  let expected_validity := validity_duration certificate_type in
  _ ← ensure (bool_decide (validity_time = expected_validity))
        (IncorrectValidityDuration certificate_type expected_validity validity_time);
  issuer_str ← first_attribute (name_common_names (x509_issuer cert)) MissingCommonName;
  issuer ← parse_issuer issuer_str;
  _ ← (if name_eqb (x509_issuer cert) (x509_subject cert) then
         ensure (bool_decide (certificate_type = Root) || bool_decide (certificate_type = Temporary))
           SelfSignedNotRootOrTemp
       else Ok ());
  let public_key := spki_subject_public_key (x509_public_key cert) in
  let is_ca := x509_is_ca cert in
  if negb (Bool.eqb is_ca (should_be_ca certificate_type)) then
    if is_ca then Err (ShouldNotBeCa certificate_type) else Err (ShouldBeCa certificate_type)
  else Ok (mkUnverified (mkCertificateData d certificate_type public_key spki_hash is_ca issuer validity)).

Definition dangerous_from_already_verified_der (d : list Z) :
    result CertificateParseError Certificate :=
  c ← from_der d;
  Ok (mark_as_trusted c).

Definition verify_signature (self : UnverifiedCertificate) (issuer : Certificate) (time : Z) :
    result SignatureVerificationError Certificate :=
  if negb (may_be_parent_of (certificate_type issuer) (certificate_type self)) then
    Err (SigInvalidCertificateType (certificate_type issuer) (certificate_type self))
  else
    '(_, cert) ← map_err SigParserError (x509_from_der (der self));
    '(_, issuer_cert) ← map_err SigParserError (x509_from_der (der issuer));
    _ ← map_err SigX509VerificationError (x509_verify_signature cert (x509_public_key issuer_cert));
    _ ← map_err SigValidityError (check_validity_at self time);
    Ok (mkCertificate self).
End certificate.

(** Reading the issuer back from the text of an SPKI hash. *)
Lemma parse_display_spki s : spki_wf s → parse_issuer (display_spki s) = Ok s.
Proof.
  intros Hs. unfold parse_issuer. rewrite (str_bytes_display_spki s Hs).
  destruct s as [l], Hs as [Hb Hl]; cbn [as_slice] in *.
  rewrite length_display_spki_bytes, Hl, bool_decide_false by (cbn; lia).
  rewrite (collectM_all_Ok _ (λ i, l !!! i)).
  - cbn [mbind result_bind]. f_equal. f_equal. apply list_eq_same_length with 32%nat; try done.
    intros i x y Hi Hx Hy.
    rewrite list_lookup_fmap, lookup_seq_lt in Hx by done. cbn in Hx.
    rewrite (list_lookup_total_correct _ _ _ Hy) in Hx. congruence.
  - intros i [_ Hi]%elem_of_seq. cbn in Hi.
    destruct (lookup_lt_is_Some_2 l i) as [b Hi']; [lia|].
    rewrite str_slice_ascii;
      [|by apply display_spki_bytes_ascii|lia|rewrite length_display_spki_bytes; lia].
    replace (i * 2 + 2 - i * 2)%nat with 2%nat by lia. cbn [mbind result_bind].
    rewrite (display_spki_bytes_slice _ _ _ Hi'), u8_from_byte_upper_hex
      by exact (Forall_lookup_1 _ _ _ _ Hb Hi').
    cbn. by rewrite (list_lookup_total_correct _ _ _ Hi').
Qed.

Lemma display_spki_inj s t :
  spki_wf s → spki_wf t → display_spki s = display_spki t → s = t.
Proof.
  intros Hs Ht E. apply parse_display_spki in Hs, Ht. rewrite E in Hs. congruence.
Qed.

(** ** Parsing *)
Lemma from_digits16_range acc l z : 0 ≤ acc → from_digits16 acc l = Some z → acc ≤ u8_max → is_u8 z.
Proof.
  revert acc. induction l as [|c l IH]; intros acc Hacc H Hmax; cbn -[Z.mul Z.add Z.leb] in H.
  - injection H as <-. unfold is_u8, u8_max in *. lia.
  - destruct (hex_digit c) as [d|] eqn:Hd; [|done]. cbn -[Z.mul Z.add Z.leb] in H.
    assert (0 ≤ d).
    { unfold hex_digit in Hd. repeat (case_match; simplify_eq; bool_hyps; try lia). }
    destruct (acc * 16 + d <=? u8_max) eqn:E; bool_hyps; [|done].
    eapply IH; [|exact H|]; lia.
Qed.

Lemma u8_from_str_radix16_range s z : u8_from_str_radix16 s = Some z → is_u8 z.
Proof.
  assert (∀ s, from_digits16 0 s = Some z → is_u8 z) as H.
  { intros l Hl. apply (from_digits16_range 0 l); unfold u8_max; lia || done. }
  unfold u8_from_str_radix16. intros Hs. repeat case_match; try done; eauto.
Qed.

Lemma parse_issuer_wf s i : parse_issuer s = Ok i → spki_wf i.
Proof.
  unfold parse_issuer. case_bool_decide; [done|]. intros Hi. inv_result Hi.
  apply collectM_Ok in Hx. split; cbn [as_slice].
  - eapply Forall2_Forall_r; [exact Hx|]. apply Forall_forall. intros n _ z Hz.
    inv_result Hz. eapply u8_from_str_radix16_range; eauto.
  - by rewrite <-(Forall2_length _ _ _ Hx), length_seq.
Qed.

Section certificate_lemmas.
Context `{X509, Crypto}.

Lemma compute_spki_hash_wf {E} `{!CryptoLaws} k h :
  compute_spki_hash (E := E) k = Ok h → h = mkSpkiHash (sha512_256 k) ∧ spki_wf h.
Proof.
  unfold compute_spki_hash, spki_from_slice. intros Hh. inv_result Hh.
  case_bool_decide; [done|]. injection Hh as <-.
  split; [done|]. split; [apply is_bytes_sha512_256|apply length_sha512_256].
Qed.

Lemma compute_spki_hash_total {E} `{!CryptoLaws} k :
  compute_spki_hash (E := E) k = Ok (mkSpkiHash (sha512_256 k)).
Proof.
  unfold compute_spki_hash, spki_from_slice. rewrite length_sha512_256.
  by rewrite bool_decide_false by naive_solver.
Qed.

Lemma first_attribute_Ok l e s : first_attribute l e = Ok s ↔ head l = Some (Ok s).
Proof.
  unfold first_attribute. destruct l as [|[a|b|] l]; cbn; naive_solver.
Qed.

(** What holds of a certificate that [from_der] accepts. *)
Lemma from_der_Ok d c :
  from_der d = Ok c →
  ∃ rest x cn ou icn,
    x509_from_der d = Ok (rest, x) ∧ der c = d ∧
    compute_spki_hash (E := CertificateParseError) (spki_raw (x509_public_key x)) = Ok (spki_hash c) ∧
    head (name_common_names (x509_subject x)) = Some (Ok cn) ∧
    display_spki (spki_hash c) = cn ∧
    head (name_organizational_units (x509_subject x)) = Some (Ok ou) ∧
    type_from_str ou = Ok (certificate_type c) ∧
    validity c = mkValidity (x509_not_before x) (x509_not_after x) ∧
    asn1_sub (x509_not_after x) (x509_not_before x) = Some (validity_duration (certificate_type c)) ∧
    head (name_common_names (x509_issuer x)) = Some (Ok icn) ∧
    parse_issuer icn = Ok (issuer c) ∧
    (name_eqb (x509_issuer x) (x509_subject x) = true →
      certificate_type c = Root ∨ certificate_type c = Temporary) ∧
    public_key c = spki_subject_public_key (x509_public_key x) ∧
    is_ca c = x509_is_ca x ∧ is_ca c = should_be_ca (certificate_type c).
Proof.
  unfold from_der. intros Hd.
  apply bind_Ok in Hd as ([rest x] & Hx%map_err_Ok & Hd).
  apply bind_Ok in Hd as (h & Hh & Hd).
  apply bind_Ok in Hd as (cn & Hcn%first_attribute_Ok & Hd).
  apply bind_Ok in Hd as (ou & Hou%first_attribute_Ok & Hd).
  apply bind_Ok in Hd as (t & Ht%map_err_Ok & Hd).
  apply bind_Ok in Hd as (u1 & Hdisp%ensure_Ok & Hd). bool_hyps.
  apply bind_Ok in Hd as (vt & Hvt%ok_or_Ok & Hd).
  apply bind_Ok in Hd as (u2 & Hv%ensure_Ok & Hd). bool_hyps. cbn in Hvt. subst vt.
  apply bind_Ok in Hd as (icn & Hicn%first_attribute_Ok & Hd).
  apply bind_Ok in Hd as (i & Hi & Hd).
  apply bind_Ok in Hd as (u3 & Hself & Hd).
  destruct (Bool.eqb (x509_is_ca x) (should_be_ca t)) eqn:Hca;
    cbn [negb] in Hd; [|by destruct (x509_is_ca x)].
  injection Hd as <-. cbn. apply eqb_prop in Hca.
  exists rest, x, cn, ou, icn. repeat split; try done.
  intros Hn. rewrite Hn in Hself. apply ensure_Ok in Hself.
  apply orb_true_iff in Hself as [?|?]; bool_hyps; auto.
Qed.

(** A certificate whose names follow the conventions: [from_der] decides on
    its lifetime, its issuer and its CA flag. *)
Lemma from_der_names d rest x h t cn :
  x509_from_der d = Ok (rest, x) →
  compute_spki_hash (E := CertificateParseError) (spki_raw (x509_public_key x)) = Ok h →
  head (name_common_names (x509_subject x)) = Some (Ok cn) →
  head (name_organizational_units (x509_subject x)) = Some (Ok (display_type t)) →
  display_spki h = cn →
  let vt := asn1_sub (x509_not_after x) (x509_not_before x) in
  from_der d =
    (validity_time ← ok_or vt BrokenValidity;
     _ ← ensure (bool_decide (validity_time = validity_duration t))
           (IncorrectValidityDuration t (validity_duration t) validity_time);
     issuer_str ← first_attribute (name_common_names (x509_issuer x)) MissingCommonName;
     issuer ← parse_issuer issuer_str;
     _ ← (if name_eqb (x509_issuer x) (x509_subject x) then
            ensure (bool_decide (t = Root) || bool_decide (t = Temporary)) SelfSignedNotRootOrTemp
          else Ok ());
     if negb (Bool.eqb (x509_is_ca x) (should_be_ca t)) then
       if x509_is_ca x then Err (ShouldNotBeCa t) else Err (ShouldBeCa t)
     else Ok (mkUnverified (mkCertificateData d t (spki_subject_public_key (x509_public_key x)) h
                (x509_is_ca x) issuer (mkValidity (x509_not_before x) (x509_not_after x))))).
Proof.
  intros Hx Hh Hcn Hou Hd. unfold from_der. rewrite Hx. cbn. rewrite Hh. cbn.
  apply (first_attribute_Ok _ MissingCommonName) in Hcn.
  apply (first_attribute_Ok _ MissingOrganizationalUnit) in Hou.
  rewrite Hcn. cbn. rewrite Hou. cbn.
  assert (type_from_str (display_type t) = Ok t) as -> by by destruct t.
  cbn [map_err mbind result_bind]. rewrite (bool_decide_true (display_spki h = cn)) by done.
  reflexivity.
Qed.

(** The values of the Rust type [UnverifiedCertificate] are made by
    [from_der] only. *)
Definition parsed (c : UnverifiedCertificate) : Prop := from_der (der c) = Ok c.

Lemma from_der_parsed d c : from_der d = Ok c → parsed c.
Proof.
  intros Hc. unfold parsed.
  apply from_der_Ok in Hc as Hd. destruct Hd as (?&?&?&?&?&_&->&_). done.
Qed.

Lemma from_der_wf `{!CryptoLaws} d c : from_der d = Ok c → spki_wf (spki_hash c) ∧ spki_wf (issuer c).
Proof.
  intros Hc. apply from_der_Ok in Hc.
  destruct Hc as (rest & x & cn & ou & icn & _ & _ & Hh & _ & _ & _ & _ & _ & _ & _ & Hi & _).
  split; [by apply compute_spki_hash_wf in Hh as [_ ?]|by eapply parse_issuer_wf].
Qed.

Lemma parsed_spki_hash `{!CryptoLaws} c :
  parsed c → ∃ rest x, x509_from_der (der c) = Ok (rest, x) ∧
    spki_hash c = mkSpkiHash (sha512_256 (spki_raw (x509_public_key x))).
Proof.
  intros Hc. apply from_der_Ok in Hc.
  destruct Hc as (rest & x & _ & _ & _ & Hx & _ & Hh & _).
  exists rest, x. split; [done|]. by apply compute_spki_hash_wf in Hh as [-> _].
Qed.

(** A parsed certificate is determined by its encoding. *)
Lemma parsed_eq c1 c2 : parsed c1 → parsed c2 → der c1 = der c2 → c1 = c2.
Proof. unfold parsed. intros H1 H2 E. rewrite E in H1. congruence. Qed.
End certificate_lemmas.

(** ** Validity and signatures *)
Lemma check_validity_at_Ok c t u :
  check_validity_at c t = Ok u ↔
  0 ≤ not_before (validity c) ≤ t ∧ 0 ≤ not_after (validity c) ∧ t ≤ not_after (validity c).
Proof.
  destruct u. unfold check_validity_at, timestamp_u64.
  destruct (not_before (validity c) <? 0) eqn:E1; cbn; bool_hyps; [split; [done|lia]|].
  destruct (t <? not_before (validity c)) eqn:E2; cbn; bool_hyps; [split; [done|lia]|].
  destruct (not_after (validity c) <? 0) eqn:E3; cbn; bool_hyps; [split; [done|lia]|].
  rewrite Z.gtb_ltb. destruct (not_after (validity c) <? t) eqn:E4; cbn; bool_hyps;
    split; done || lia.
Qed.

Section verification.
Context `{X509, Crypto}.

Lemma verify_signature_Ok c p t v :
  verify_signature c p t = Ok v →
  v = mkCertificate c ∧
  may_be_parent_of (certificate_type p) (certificate_type c) = true ∧
  check_validity_at c t = Ok () ∧
  ∃ rest x rest' x', x509_from_der (der c) = Ok (rest, x) ∧
    x509_from_der (der p) = Ok (rest', x') ∧
    x509_verify_signature x (x509_public_key x') = Ok ().
Proof.
  unfold verify_signature. intros Hv.
  destruct (may_be_parent_of _ _) eqn:Hp; cbn [negb] in Hv; [|done].
  apply bind_Ok in Hv as ([r x] & Hx%map_err_Ok & Hv).
  apply bind_Ok in Hv as ([r' x'] & Hx'%map_err_Ok & Hv).
  apply bind_Ok in Hv as ([] & Hs%map_err_Ok & Hv).
  apply bind_Ok in Hv as ([] & Ht%map_err_Ok & Hv).
  injection Hv as <-. naive_solver.
Qed.

(** The outcome depends on the issuer only through its type and encoding, on
    the time only through the validity window. *)
Lemma verify_signature_later c p t t' v :
  verify_signature c p t = Ok v → check_validity_at c t' = Ok () →
  verify_signature c p t' = Ok v.
Proof.
  intros Hv Ht. apply verify_signature_Ok in Hv as (-> & Hp & _ & r & x & r' & x' & Hx & Hx' & Hs).
  unfold verify_signature. rewrite Hp. cbn. rewrite Hx. cbn. rewrite Hx'. cbn. rewrite Hs. cbn.
  by rewrite Ht.
Qed.

(** C26: Every certificate [from_der] accepts follows the program's
    conventions: it keeps its encoding and is what parsing that encoding
    again gives (so serialising and deserialising is the identity), its CA
    flag and its lifetime are the ones of its type, and both of its hashes
    are 32-byte values. *)
Theorem from_der_conventions `{!X509Laws, !CryptoLaws} d c :
  from_der d = Ok c →
  der c = d ∧ from_der (der c) = Ok c ∧
  is_ca c = should_be_ca (certificate_type c) ∧
  not_after (validity c) = not_before (validity c) + validity_duration (certificate_type c) ∧
  spki_wf (spki_hash c) ∧ spki_wf (issuer c).
Proof.
  intros Hc. pose proof (from_der_parsed _ _ Hc). pose proof (from_der_wf _ _ Hc).
  apply from_der_Ok in Hc as (rest & x & cn & ou & icn & Hx & <- & Hh & Hcn & Hd & Hou & Ht & Hv &
    Hsub & Hicn & Hi & Hself & Hpk & Hca & Hca').
  split_and!; [done|done|done| |tauto|tauto].
  rewrite Hv. cbn. rewrite asn1_sub_spec in Hsub. destruct (_ >? _); [|done].
  injection Hsub as Hsub. lia.
Qed.

(** Issuer names link to parents: when the issuer common name of one
    accepted certificate is the text of the subject common name of another
    one, the issuer hash of the first is the SPKI hash of the second.  This
    is the link [push_parent], the trust store and the chain loader follow. *)
Theorem issuer_links_to_parent `{!CryptoLaws} dc dp c p rc xc rp xp cn :
  from_der dc = Ok c → from_der dp = Ok p →
  x509_from_der dc = Ok (rc, xc) → x509_from_der dp = Ok (rp, xp) →
  head (name_common_names (x509_issuer xc)) = Some (Ok cn) →
  head (name_common_names (x509_subject xp)) = Some (Ok cn) →
  issuer c = spki_hash p.
Proof.
  intros Hc Hp Hxc Hxp Hi Hs. pose proof (from_der_wf _ _ Hp) as [Hwf _].
  apply from_der_Ok in Hc as (rc' & xc' & _ & _ & icn & Hxc' & _ & _ & _ & _ & _ & _ & _ & _ & Hicn & Hiss & _).
  apply from_der_Ok in Hp as (rp' & xp' & pcn & _ & _ & Hxp' & _ & _ & Hpcn & Hdisp & _).
  rewrite Hxc in Hxc'. injection Hxc' as <- <-. rewrite Hxp in Hxp'. injection Hxp' as <- <-.
  rewrite Hi in Hicn. injection Hicn as <-. rewrite Hs in Hpcn. injection Hpcn as <-.
  rewrite <-Hdisp, parse_display_spki in Hiss by done. congruence.
Qed.

(** A certificate made by [from_der] parses again: verification never
    reports a parser error. *)
Lemma parsed_verify_no_parser_error c (p : Certificate) t e :
  parsed c → parsed p → verify_signature c p t ≠ Err (SigParserError e).
Proof.
  intros Hc Hp. apply from_der_Ok in Hc as (r&x&_&_&_&Hx&_).
  apply from_der_Ok in Hp as (r'&x'&_&_&_&Hx'&_).
  unfold verify_signature. destruct (may_be_parent_of _ _); [|done]. cbn.
  rewrite Hx. cbn. rewrite Hx'. cbn.
  destruct (x509_verify_signature x _); cbn; try done.
  destruct (check_validity_at c t); done.
Qed.
End verification.

(** [FromStr] and [Display] of certificate types are inverse to each
    other, and no other string is a type. *)
Theorem type_from_str_iff s t : type_from_str s = Ok t ↔ s = display_type t.
Proof.
  unfold type_from_str. split.
  - intros Ht. repeat (case_bool_decide; [by simplify_eq|]). done.
  - intros ->. by destruct t.
Qed.

(** [from_der] unwinds on an issuer common name that has 64 bytes with a
    character across a two-byte slice. *)
Definition split_character_name : string :=
  str_of_bytes ([48; 195; 169] ++ replicate 61 48).

Lemma parse_issuer_panics : parse_issuer split_character_name = Panic.
Proof. vm_compute. reflexivity. Qed.

(** The issuer text is not canonical: [from_str_radix] skips a plus sign. *)
Lemma parse_issuer_accepts_plus :
  parse_issuer (str_of_bytes ([43; 53] ++ replicate 62 48)) = Ok (mkSpkiHash (5 :: replicate 31 0)).
Proof. vm_compute. reflexivity. Qed.

(** On an ASCII issuer name parsing the issuer never unwinds: it is the
    32 bytes, or the [InvalidIssuer] error with the whole name. *)
Theorem parse_issuer_ascii s :
  is_ascii (str_bytes s) →
  (∃ i, parse_issuer s = Ok i ∧ spki_wf i) ∨ parse_issuer s = Err (InvalidIssuer s).
Proof.
  intros Hs. destruct (parse_issuer s) as [i|e|] eqn:Hi.
  - left. eauto using parse_issuer_wf.
  - right. f_equal. unfold parse_issuer in Hi. case_bool_decide; [by injection Hi|].
    apply bind_Err in Hi as [Hi|(?&_&?)]; [|done].
    revert Hi. generalize (seq 0 32). intros l. induction l as [|n l IH]; cbn; [done|].
    intros [Hi|(b & _ & Hi)]%bind_Err.
    + apply bind_Err in Hi as [Hi|(sl & _ & [_ ->]%ok_or_Err)]; [|done].
      unfold str_slice in Hi. by case_match.
    + apply bind_Err in Hi as [Hi|(?&_&?)]; [by apply IH|done].
  - exfalso. unfold parse_issuer in Hi. case_bool_decide; [done|].
    apply bind_Panic in Hi as [Hi|(?&_&?)]; [|done].
    assert (Forall (λ n, n < 32)%nat (seq 0 32)) as Hl.
    { apply Forall_forall. intros n [_ ?]%elem_of_seq. lia. }
    revert Hi Hl. generalize (seq 0 32). intros l. induction l as [|n l IH]; cbn; [done|].
    intros Hi [Hn Hl]%Forall_cons. apply bind_Panic in Hi as [Hi|(b & _ & Hi)].
    + rewrite str_slice_ascii in Hi by (done || lia). cbn in Hi.
      destruct (u8_from_str_radix16 _); done.
    + apply bind_Panic in Hi as [Hi|(?&_&?)]; [|done]. by apply IH.
Qed.

(** ** Worked examples over the concrete interfaces *)
#[local] Existing Instance toy_x509.
#[local] Existing Instance toy_crypto.

(** What [from_der] makes of a toy certificate. *)
Definition toy_certificate (t : CertificateType) (k i nb : Z) : UnverifiedCertificate :=
  mkUnverified (mkCertificateData (toy_der (mkToy t k i nb)) t [k]
    (mkSpkiHash (toy_hash 31 [k])) (should_be_ca t)
    (mkSpkiHash (toy_hash 31 [i])) (mkValidity nb (nb + validity_duration t))).

Definition toy_root : UnverifiedCertificate := toy_certificate Root 1 1 100.
Definition toy_user : UnverifiedCertificate := toy_certificate User 2 1 200.
Definition toy_agent : UnverifiedCertificate := toy_certificate Agent 3 2 300.
Definition toy_root_certificate : RootCertificate := mkRoot (mkCertificate toy_root).

Lemma from_der_conventions_witness :
  from_der (der toy_user) = Ok toy_user ∧ is_ca toy_user = true.
Proof.
  split; [vm_compute; reflexivity|].
  refine (eq_trans (proj1 (proj2 (proj2 (@from_der_conventions toy_x509 toy_crypto toy_x509_laws toy_crypto_laws
    (der toy_user) toy_user _)))) _); vm_compute; reflexivity.
Defined.

Lemma issuer_links_to_parent_witness : issuer toy_user = spki_hash toy_root.
Proof.
  apply (@issuer_links_to_parent toy_x509 toy_crypto toy_crypto_laws (der toy_user) (der toy_root)
    toy_user toy_root [] (mkToy User 2 1 200) [] (mkToy Root 1 1 100) (toy_key_cn 1));
    vm_compute; reflexivity.
Defined.

Lemma parse_issuer_ascii_witness :
  (∃ i, parse_issuer (toy_key_cn 1) = Ok i ∧ spki_wf i) ∨
  parse_issuer (toy_key_cn 1) = Err (InvalidIssuer (toy_key_cn 1)).
Proof.
  apply parse_issuer_ascii.
  apply (bool_decide_unpack (Forall (λ c, 0 ≤ c < 128) (str_bytes (toy_key_cn 1)))).
  vm_compute. exact I.
Defined.
