(* ===== verification/CertChain.v ===== *)
(** * Certificate chains ([svalin_pki/src/certificate_chain.rs])

    The builder that collects the parents of a leaf certificate up to a root,
    and the verification of the finished chain against a trusted root. *)
From S2P Require Import Prelude.
From S2P Require Import External.
From S2P Require Import Spki.
From S2P Require Import Toy.
From S2P Require Import Certificate.
From stdpp Require Import options.

(** The builder's certificates, leaf first; the hashes are kept as text. *)
Record CertificateChainBuilder := mkBuilder {
  certificates : list UnverifiedCertificate;
  known_spki_hashes : gset string;
}.

(** Root first. *)
Record UnverifiedCertificateChain := mkUnverifiedChain {
  chain_certificates : list UnverifiedCertificate;
}.

Record CertificateChain := mkChain {
  verified_certificates : list Certificate;
}.

Inductive AddCertificateError :=
  | SignatureLoop (order : list UnverifiedCertificate)
  | AddSignatureVerificationError (e : SignatureVerificationError)
  | WrongParent (expected got : string)
  | AlreadyFinished.

Inductive VerifyChainError :=
  | EmptyChain
  | WrongRoot (expected : RootCertificate) (found : UnverifiedCertificate)
  | SignatureVerificationFailed (e : SignatureVerificationError)
  | ChainValidityError (e : ValidityError).

Definition builder_new (leaf_certificate : UnverifiedCertificate) : CertificateChainBuilder :=
  mkBuilder [leaf_certificate] {[ display_spki (spki_hash leaf_certificate) ]}.

(** Every error leaves the builder as it was. *)
Definition push_parent (self : CertificateChainBuilder) (parent : UnverifiedCertificate) :
    result AddCertificateError CertificateChainBuilder :=
  '(last_cert : UnverifiedCertificate) ← expect (last (certificates self));
  if bool_decide (certificate_type last_cert = Root) then Err AlreadyFinished
  else if bool_decide (issuer last_cert ≠ spki_hash parent) then
    Err (WrongParent (display_spki (spki_hash last_cert)) (display_spki (spki_hash parent)))
  else if bool_decide (display_spki (spki_hash parent) ∈ known_spki_hashes self) then
    Err (SignatureLoop (certificates self ++ [parent]))
  else
    Ok (mkBuilder (certificates self ++ [parent])
          ({[ display_spki (spki_hash parent) ]} ∪ known_spki_hashes self)).

Definition requested_issuer {E} (self : CertificateChainBuilder) : result E (option SpkiHash) :=
  '(last_cert : UnverifiedCertificate) ← expect (last (certificates self));
  Ok (if bool_decide (certificate_type last_cert = Root) then None else Some (issuer last_cert)).

Definition is_finished {E} (self : CertificateChainBuilder) : result E bool :=
  '(last_cert : UnverifiedCertificate) ← expect (last (certificates self));
  Ok (bool_decide (certificate_type last_cert = Root)).

Definition finish (self : CertificateChainBuilder) : result () UnverifiedCertificateChain :=
  finished ← is_finished self;
  if finished : bool then Ok (mkUnverifiedChain (reverse (certificates self))) else Err ().

Section verify.
Context `{X509, Crypto}.

(** One round of the loop of [verify]; the parent is the last certificate
    verified so far. *)
Definition verify_step (root : RootCertificate) (timestamp : Z)
    (verified_chain : list Certificate) (current : UnverifiedCertificate) :
    result VerifyChainError (list Certificate) :=
  let parent := default (as_certificate root) (last verified_chain) in
  verified_cert ← map_err SignatureVerificationFailed (verify_signature current parent timestamp);
  Ok (verified_chain ++ [verified_cert]).

Definition verify (self : UnverifiedCertificateChain) (root : RootCertificate) (timestamp : Z) :
    result VerifyChainError CertificateChain :=
  '(chain_root : UnverifiedCertificate) ← ok_or (head (chain_certificates self)) EmptyChain;
  if negb (cert_eqb chain_root root) then Err (WrongRoot root chain_root)
  else
    let verified_chain := [as_certificate root] in
    if bool_decide (length (chain_certificates self) = 1%nat) then Ok (mkChain verified_chain)
    else
      verified_chain ← foldM (verify_step root timestamp) verified_chain
                         (drop 1 (chain_certificates self));
      Ok (mkChain verified_chain).
End verify.

Definition chain_leaf {E} (self : CertificateChain) : result E Certificate :=
  expect (last (verified_certificates self)).

Definition take_leaf {E} (self : CertificateChain) : result E Certificate :=
  expect (last (verified_certificates self)).

Definition unverified_leaf (self : UnverifiedCertificateChain) : option UnverifiedCertificate :=
  last (chain_certificates self).

(** ** The builder *)

(** Consecutive certificates of the builder: the issuer of each is the next,
    and only the last may be a root. *)
Fixpoint linked (l : list UnverifiedCertificate) : Prop :=
  match l with
  | c :: ((p :: _) as l') => certificate_type c ≠ Root ∧ issuer c = spki_hash p ∧ linked l'
  | _ => True
  end.

Definition builder_ok (leaf : UnverifiedCertificate) (b : CertificateChainBuilder) : Prop :=
  head (certificates b) = Some leaf ∧
  linked (certificates b) ∧
  NoDup ((λ c : UnverifiedCertificate, display_spki (spki_hash c)) <$> certificates b) ∧
  known_spki_hashes b =
    list_to_set ((λ c : UnverifiedCertificate, display_spki (spki_hash c)) <$> certificates b).

Lemma linked_snoc l (c p : UnverifiedCertificate) :
  linked l → last l = Some c → certificate_type c ≠ Root → issuer c = spki_hash p →
  linked (l ++ [p]).
Proof.
  induction l as [|x l IH]; [done|]. intros Hl Hlast Ht Hi.
  destruct l as [|y l]; cbn in *.
  - injection Hlast as ->. done.
  - destruct Hl as (? & ? & Hl). split_and!; [done|done|]. by apply IH.
Qed.

Lemma builder_new_ok leaf : builder_ok leaf (builder_new leaf).
Proof.
  unfold builder_ok. cbn. split_and!; try done.
  - apply NoDup_singleton.
  - by rewrite union_empty_r_L.
Qed.

Lemma builder_last leaf b : builder_ok leaf b → ∃ c, last (certificates b) = Some c.
Proof.
  intros [Hh _]. destruct (last (certificates b)) eqn:E; [eauto|].
  apply last_None in E. by rewrite E in Hh.
Qed.

Lemma push_parent_ok leaf b p b' :
  builder_ok leaf b → push_parent b p = Ok b' → builder_ok leaf b'.
Proof.
  intros (Hh & Hl & Hnd & Hk) Hp. unfold push_parent in Hp.
  apply bind_Ok in Hp as (c & Hc%expect_Ok & Hp).
  case_bool_decide as Ht; [done|]. case_bool_decide as Hi; [done|].
  case_bool_decide as Hkn; [done|]. injection Hp as <-.
  unfold builder_ok; cbn. rewrite fmap_app. cbn. split_and!.
  - destruct (certificates b); [done|]. done.
  - by eapply linked_snoc.
  - apply NoDup_app. split_and!; [done| |apply NoDup_singleton].
    intros s Hs ->%list_elem_of_singleton. apply Hkn. rewrite Hk. by apply elem_of_list_to_set.
  - rewrite Hk, list_to_set_app_L. cbn. set_solver.
Qed.

(** ** Verification *)
Section verify_lemmas.
Context `{X509, Crypto}.

(** A verified path below [p]: every certificate is signed by the one before
    it, which is of a type that may sign it, and is valid at [t]. *)
Inductive signed_path (t : Z) : Certificate → list Certificate → Prop :=
  | signed_nil p : signed_path t p []
  | signed_cons p c l :
      verify_signature (as_unverified c) p t = Ok c →
      signed_path t c l →
      signed_path t p (c :: l).

Lemma verify_step_last root t acc p c :
  last acc = Some p →
  verify_step root t acc c =
    (v ← map_err SignatureVerificationFailed (verify_signature c p t); Ok (acc ++ [v])).
Proof. intros Hp. unfold verify_step. by rewrite Hp. Qed.

Lemma foldM_verify_step root t acc p l r :
  last acc = Some p →
  foldM (verify_step root t) acc l = Ok r ↔
  r = acc ++ (mkCertificate <$> l) ∧ signed_path t p (mkCertificate <$> l).
Proof.
  revert acc p. induction l as [|c l IH]; intros acc p Hp; cbn.
  - rewrite app_nil_r. split; [intros [= <-]; split; [done|constructor]|by intros [-> _]].
  - rewrite (verify_step_last _ _ _ p) by done.
    destruct (verify_signature c p t) as [v|e|] eqn:Hv; cbn.
    + apply verify_signature_Ok in Hv as Hv'. destruct Hv' as (-> & _).
      rewrite (IH _ (mkCertificate c)) by apply last_snoc. rewrite <-app_assoc. cbn.
      split; intros [-> Hs]; split; try done; [by constructor|by inversion Hs].
    + split; [done|]. intros [_ Hs]. inversion Hs; subst. cbn in *. congruence.
    + split; [done|]. intros [_ Hs]. inversion Hs; subst. cbn in *. congruence.
Qed.

Lemma verify_Ok ch root t v :
  verify ch root t = Ok v ↔
  ∃ c0 l, chain_certificates ch = c0 :: l ∧ der c0 = der root ∧
    v = mkChain (as_certificate root :: (mkCertificate <$> l)) ∧
    signed_path t root (mkCertificate <$> l).
Proof.
  unfold verify. destruct ch as [[|c0 l]]; cbn; [naive_solver|].
  unfold cert_eqb. case_bool_decide as Hd; cbn; [|naive_solver].
  case_bool_decide as Hl; cbn.
  - destruct l as [|? l]; [|by cbn in Hl]. split.
    + intros [= <-]. exists c0, []. split_and!; try done. constructor.
    + intros (? & ? & [= <- <-] & _ & -> & _). done.
  - rewrite skipn_O. split.
    + intros (r & Hr & [= <-])%bind_Ok.
      apply (foldM_verify_step _ _ _ root) in Hr as [-> Hs]; [|done]. eauto 10.
    + intros (? & ? & [= <- <-] & _ & -> & Hs).
      assert (foldM (verify_step root t) [as_certificate root] l =
        Ok (as_certificate root :: (mkCertificate <$> l))) as ->; [|done].
      by apply (foldM_verify_step _ _ _ root).
Qed.

Lemma signed_path_types t p l (c : Certificate) :
  signed_path t p l → c ∈ l →
  certificate_type c ≠ Root ∧ certificate_type c ≠ Temporary ∧ check_validity_at c t = Ok ().
Proof.
  induction 1 as [|p x l Hx Hl IH]; [set_solver|].
  apply verify_signature_Ok in Hx as (_ & Hm & Hv & _).
  intros [->|?]%elem_of_cons; [|by apply IH].
  split_and!; [| |done]; intros E; rewrite E in Hm; by destruct (certificate_type p).
Qed.

(** Consecutive certificates of a path: the second is signed by the first. *)
Lemma signed_path_step t p l1 (c x : Certificate) l2 :
  signed_path t p (l1 ++ c :: x :: l2) → verify_signature x c t = Ok x.
Proof.
  revert p. induction l1 as [|y l1 IH]; cbn; intros p Hs; inversion Hs as [|? ? ? Hy Hl]; subst; [|by eapply IH].
  by inversion Hl.
Qed.

(** A signer below the root is a user. *)
Lemma signed_path_signers t p l l1 (c x : Certificate) l2 :
  signed_path t p l → l = l1 ++ c :: x :: l2 → certificate_type c = User.
Proof.
  intros Hs. revert l1. induction Hs as [|p y l Hy Hl IH]; intros l1 E; [by destruct l1|].
  destruct l1 as [|z l1]; cbn in E; injection E as -> E.
  - subst l. inversion Hl as [|? ? ? Hx _]; subst.
    apply verify_signature_Ok in Hx as (_ & Hm & _).
    apply verify_signature_Ok in Hy as (_ & Hm' & _).
    destruct (certificate_type c); try done. by destruct (certificate_type p).
  - by eapply IH.
Qed.
End verify_lemmas.

Section chain_properties.
Context `{X509, Crypto}.

(** C25: A chain that verifies against a root at a time is sound: it starts
    with the trusted root, keeps the other certificates of the input in
    order, each signed by the one before it and valid at that time; below
    the root there is no second root and no temporary certificate, and every
    certificate that signed another one is a user's. *)
Theorem verify_sound ch root t v :
  verify ch root t = Ok v →
  ∃ l, verified_certificates v = as_certificate root :: l ∧
    drop 1 (chain_certificates ch) = as_unverified <$> l ∧
    signed_path t root l ∧
    (∀ c : Certificate, c ∈ l → certificate_type c ≠ Root ∧ certificate_type c ≠ Temporary ∧
                  check_validity_at c t = Ok ()) ∧
    (∀ l1 (c x : Certificate) l2, l = l1 ++ c :: x :: l2 → certificate_type c = User).
Proof.
  intros (c0 & l & Hch & _ & -> & Hs)%verify_Ok. exists (mkCertificate <$> l).
  split_and!; [done| |done| |].
  - rewrite Hch. cbn. rewrite skipn_O, <-list_fmap_compose. cbn. symmetry. apply list_fmap_id.
  - intros c Hc. by eapply signed_path_types.
  - intros l1 c x l2 Hl. by eapply signed_path_signers.
Qed.

(** Verification accepts every properly signed chain: a root with the
    trusted root's encoding followed by certificates each of which its
    predecessor verifies. The leaf of the result is then the last one, or
    the root itself. *)
Theorem verify_complete (root : RootCertificate) t (c0 : UnverifiedCertificate) l :
  der c0 = der root → signed_path t root l →
  ∃ v, verify (mkUnverifiedChain (c0 :: (as_unverified <$> l))) root t = Ok v ∧
       chain_leaf (E := ()) v = Ok (default (as_certificate root) (last l)).
Proof.
  intros Hd Hs. exists (mkChain (as_certificate root :: l)). split.
  - apply verify_Ok. exists c0, (as_unverified <$> l).
    assert (mkCertificate <$> (as_unverified <$> l) = l) as ->.
    { rewrite <-list_fmap_compose. rewrite <-(list_fmap_id l) at 2.
      apply list_fmap_ext. by intros ? []. }
    done.
  - unfold chain_leaf. cbn [verified_certificates]. rewrite last_cons.
    by destruct (last l).
Qed.
End chain_properties.

Lemma foldM_push_parent leaf ps b b' :
  builder_ok leaf b → foldM push_parent b ps = Ok b' →
  builder_ok leaf b' ∧ certificates b' = certificates b ++ ps.
Proof.
  revert b. induction ps as [|p ps IH]; intros b Hb; cbn.
  - intros [= ->]. by rewrite app_nil_r.
  - intros (b1 & Hp & Hps)%bind_Ok.
    destruct (IH b1) as [Hb' Hc]; [by eapply push_parent_ok|done|].
    split; [done|]. rewrite Hc. unfold push_parent in Hp.
    apply bind_Ok in Hp as (c & _ & Hp). repeat (case_bool_decide; [done|]).
    injection Hp as <-. cbn. by rewrite <-app_assoc.
Qed.

Lemma linked_roots l i (c : UnverifiedCertificate) :
  linked l → l !! i = Some c → certificate_type c = Root → i = (length l - 1)%nat.
Proof.
  revert i. induction l as [|x l IH]; intros i Hl Hi Hc; [done|].
  destruct l as [|y l]; [by destruct i|]. destruct Hl as (Hx & _ & Hl).
  destruct i as [|i]; cbn in Hi; [congruence|]. rewrite (IH i Hl Hi Hc). cbn. lia.
Qed.

Lemma linked_lookup l i (c p : UnverifiedCertificate) :
  linked l → l !! i = Some c → l !! S i = Some p → issuer c = spki_hash p.
Proof.
  revert i. induction l as [|x [|y l] IH]; intros i Hl Hi Hp; [done|by destruct i|].
  destruct Hl as (_ & Hx & Hl). destruct i as [|i]; cbn in *; [congruence|by eapply IH].
Qed.

(** What the builder finishes with is a chain from a root down to the
    leaf it started from: the leaf's requested issuers in order, one root at
    the top and no other, each certificate issued by the one above, and no
    SPKI hash twice. *)
Theorem builder_finish leaf ps b ch :
  foldM push_parent (builder_new leaf) ps = Ok b → finish b = Ok ch →
  chain_certificates ch = reverse (leaf :: ps) ∧
  (∃ r : UnverifiedCertificate, head (chain_certificates ch) = Some r ∧ certificate_type r = Root) ∧
  (∀ i (c : UnverifiedCertificate), chain_certificates ch !! i = Some c → certificate_type c = Root → i = 0%nat) ∧
  (∀ i (p c : UnverifiedCertificate), chain_certificates ch !! i = Some p → chain_certificates ch !! S i = Some c →
     issuer c = spki_hash p) ∧
  NoDup ((λ c : UnverifiedCertificate, display_spki (spki_hash c)) <$> chain_certificates ch).
Proof.
  intros Hps Hf. destruct (foldM_push_parent leaf ps (builder_new leaf) b) as [(Hh & Hl & Hnd & _) Hc];
    [apply builder_new_ok|done|]. cbn in Hc.
  unfold finish, is_finished in Hf.
  apply bind_Ok in Hf as (fin & (r & Hr%expect_Ok & [= <-])%bind_Ok & Hf).
  case_bool_decide as Hroot; [|done]. injection Hf as <-. cbn [chain_certificates].
  rewrite Hc in *. split_and!; [done| | | |].
  - exists r. by rewrite head_reverse.
  - intros i c [Hi Hlt]%reverse_lookup_Some Ht.
    apply (linked_roots _ _ _ Hl Hi) in Ht. lia.
  - intros i p c [Hp Hlt]%reverse_lookup_Some [Hc' Hlt']%reverse_lookup_Some.
    eapply linked_lookup; [exact Hl|exact Hc'|]. rewrite <-Hp. f_equal. lia.
  - by rewrite fmap_reverse, reverse_Permutation.
Qed.

(** ** Worked examples *)
#[local] Existing Instance toy_x509.
#[local] Existing Instance toy_crypto.

Definition toy_chain : UnverifiedCertificateChain :=
  mkUnverifiedChain [toy_root; toy_user; toy_agent].
Definition toy_verified : CertificateChain :=
  mkChain (mkCertificate <$> [toy_root; toy_user; toy_agent]).

Lemma verify_sound_witness :
  verify toy_chain toy_root_certificate 1000 = Ok toy_verified ∧
  drop 1 (chain_certificates toy_chain) = [toy_user; toy_agent].
Proof.
  split; [vm_compute; reflexivity|].
  destruct (verify_sound toy_chain toy_root_certificate 1000 toy_verified) as (l & _ & Hl & _);
    [vm_compute; reflexivity|]. vm_compute. reflexivity.
Defined.

Lemma verify_complete_witness :
  ∃ v, verify (mkUnverifiedChain (toy_root :: (as_unverified <$> (mkCertificate <$> [toy_user; toy_agent]))))
         toy_root_certificate 1000 = Ok v ∧
       chain_leaf (E := ()) v =
         Ok (default (as_certificate toy_root_certificate) (last (mkCertificate <$> [toy_user; toy_agent]))).
Proof.
  apply (@verify_complete toy_x509 toy_root_certificate 1000 toy_root).
  - reflexivity.
  - repeat constructor; vm_compute; reflexivity.
Defined.

Definition toy_builder : CertificateChainBuilder :=
  mkBuilder [toy_agent; toy_user; toy_root]
    ({[ toy_key_cn 1 ]} ∪ ({[ toy_key_cn 2 ]} ∪ {[ toy_key_cn 3 ]})).
Definition toy_built : UnverifiedCertificateChain :=
  mkUnverifiedChain (reverse [toy_agent; toy_user; toy_root]).

Lemma builder_finish_witness :
  foldM push_parent (builder_new toy_agent) [toy_user; toy_root] = Ok toy_builder ∧
  chain_certificates toy_built = reverse [toy_agent; toy_user; toy_root].
Proof.
  assert (foldM push_parent (builder_new toy_agent) [toy_user; toy_root] = Ok toy_builder) as H1
    by (vm_compute; reflexivity).
  assert (finish toy_builder = Ok toy_built) as H2 by (vm_compute; reflexivity).
  exact (conj H1 (proj1 (builder_finish toy_agent [toy_user; toy_root] toy_builder toy_built H1 H2))).
Defined.
