(* ===== verification/Encrypt.v ===== *)
(** * Encryption and password hashing ([encrypt.rs], [argon.rs])

    Authenticated encryption of data and of serialised objects under a
    32-byte key, with the nonce counter that is masked by random bytes, and
    the Argon2 parameters keys and password hashes are derived with.  Random
    bytes are arguments of the operations that draw them. *)
From S2P Require Import Prelude.
From S2P Require Import External.
From stdpp Require Import options.

Inductive EncryptionAlgorithm := Chacha20Poly1305 | Aes256Gcm.

(** [From<EncryptionAlgorithm> for &ring::aead::Algorithm]. *)
Definition ring_algorithm (value : EncryptionAlgorithm) : Z :=
  match value with
  | Chacha20Poly1305 => 0
  | Aes256Gcm => 1
  end.

Record EncryptionKey := mkEncryptionKey { key_bytes : list Z }.

Definition NONCE_LEN : nat := 12.

Record EncryptedData := mkEncryptedData {
  ciphertext : list Z;
  alg : EncryptionAlgorithm;
  nonce_mask : list Z;
}.

(** [EncryptedObject<T>]: [T] is a phantom type. *)
Record EncryptedObject (T : Type) := mkEncryptedObject { object_ciphertext : EncryptedData }.
Arguments mkEncryptedObject {T} _.
Arguments object_ciphertext {T} _.

(** ** The nonce counter; the counter is a [u128]. *)
Record NonceCounter := mkNonceCounter { mask : list Z; counter : Z }.

Definition nonce_new (mask : list Z) : NonceCounter := mkNonceCounter mask 0.

Definition advance (self : NonceCounter) : NonceCounter * option (list Z) :=
  let counter := counter self + 1 in
  if counter >=? Z.shiftl 1 (Z.of_nat NONCE_LEN * 8) then (self, None)
  else
    let self := mkNonceCounter (mask self) counter in
    let count_bytes := to_be_bytes 16 counter in
    (self, Some (zip_with Z.lxor (mask self) (drop (16 - NONCE_LEN) count_bytes))).

Definition DEFAULT_ALG : EncryptionAlgorithm := Chacha20Poly1305.

Inductive DecryptError :=
  | UnmarshalError (e : ExtError)
  | MissingHashParameters
  | DecryptCreateUnboundError
  | UnsealError.

Inductive EncryptError :=
  | MarshalError (e : ExtError)
  | EncryptCreateUnboundError
  | SealError.

Section encrypt.
Context `{Aead}.

Definition encrypt_with_alg (random data : list Z) (encryption_key : EncryptionKey)
    (alg : EncryptionAlgorithm) : result EncryptError EncryptedData :=
  let ring_alg := ring_algorithm alg in
  let nonce_mask := random in
  _ ← ensure (aead_key_ok ring_alg (key_bytes encryption_key)) EncryptCreateUnboundError;
  let '(_, nonce) := advance (nonce_new nonce_mask) in
  nonce ← ok_or nonce SealError;
  encrypted ← map_err (λ _, SealError) (aead_seal ring_alg (key_bytes encryption_key) nonce data);
  Ok (mkEncryptedData encrypted alg nonce_mask).

Definition encrypt (random data : list Z) (encryption_key : EncryptionKey) :
    result EncryptError EncryptedData :=
  encrypt_with_alg random data encryption_key DEFAULT_ALG.

Definition decrypt (self : EncryptedData) (encryption_key : EncryptionKey) :
    result DecryptError (list Z) :=
  let ring_alg := ring_algorithm (alg self) in
  _ ← ensure (aead_key_ok ring_alg (key_bytes encryption_key)) DecryptCreateUnboundError;
  let '(_, nonce) := advance (nonce_new (nonce_mask self)) in
  nonce ← ok_or nonce UnsealError;
  map_err (λ _, UnsealError) (aead_open ring_alg (key_bytes encryption_key) nonce (ciphertext self)).

Definition encrypt_object {T} `{Postcard T} (random : list Z) (object : T)
    (encryption_key : EncryptionKey) : result EncryptError (EncryptedObject T) :=
  serialized ← map_err MarshalError (to_stdvec object);
  ciphertext ← encrypt random serialized encryption_key;
  Ok (mkEncryptedObject ciphertext).

Definition decrypt_object {T} `{Postcard T} (self : EncryptedObject T)
    (encryption_key : EncryptionKey) : result DecryptError T :=
  encoded ← decrypt (object_ciphertext self) encryption_key;
  map_err UnmarshalError (from_bytes encoded).
End encrypt.

(** ** Argon2 *)
Record ArgonCost := mkArgonCost { m_cost : Z; t_cost : Z; p_cost : Z }.

Definition cost_strong : ArgonCost := mkArgonCost (128 * 1024) 2 8.
Definition cost_basic : ArgonCost := mkArgonCost (32 * 1024) 2 4.

Inductive ParamsStringParseError := MCostUnavailable | TCostUnavailable | PCostUnavailable.

(** [TryFrom<&ParamsString>]: the string is seen through [get_decimal]. *)
Definition cost_try_from (get_decimal : string → option Z) : result ParamsStringParseError ArgonCost :=
  m_cost ← ok_or (get_decimal "m"%string) MCostUnavailable;
  t_cost ← ok_or (get_decimal "t"%string) TCostUnavailable;
  p_cost ← ok_or (get_decimal "p"%string) PCostUnavailable;
  Ok (mkArgonCost m_cost t_cost p_cost).

Record ArgonParams := mkArgonParams { cost : ArgonCost; salt : list Z }.

Inductive DeriveKeyError := HashError (e : ExtError) | JoinError.

Record PasswordHash := mkPasswordHash { params : ArgonParams; hash : list Z }.

Section argon.
Context `{Argon2, Crypto}.

Definition get_params {E} (self : ArgonCost) : result E (Z * Z * Z) :=
  if argon2_params_ok (m_cost self) (t_cost self) (p_cost self)
  then Ok (m_cost self, t_cost self, p_cost self) else Panic.

Definition get_argon_hasher {E} (self : ArgonCost) : result E (Z * Z * Z) := get_params self.

Definition fake_salt (seed : list Z) : list Z := sha512_256 seed.

Definition strong_with_salt (salt : list Z) : ArgonParams := mkArgonParams cost_strong salt.
Definition basic_with_salt (salt : list Z) : ArgonParams := mkArgonParams cost_basic salt.
Definition strong_with_fake_salt (seed : list Z) : ArgonParams := strong_with_salt (fake_salt seed).
Definition basic_with_fake_salt (seed : list Z) : ArgonParams := basic_with_salt (fake_salt seed).
Definition params_strong (random : list Z) : ArgonParams := strong_with_salt (take 32 random).
Definition params_basic (random : list Z) : ArgonParams := basic_with_salt (take 32 random).

(** A blocking task that unwinds is a [JoinError] of the caller. *)
Definition derive_key (self : ArgonParams) (secret : list Z) : result DeriveKeyError (list Z) :=
  argon ← get_argon_hasher (cost self);
  match argon2id_hash argon secret (salt self) with
  | Ok hash => Ok hash
  | Err e => Err (HashError e)
  | Panic => Err JoinError
  end.

Definition derive_encryption_key (self : ArgonParams) (secret : list Z) :
    result DeriveKeyError EncryptionKey :=
  hash ← derive_key self secret;
  Ok (mkEncryptionKey hash).

Definition derive_password_hash (self : ArgonParams) (secret : list Z) :
    result DeriveKeyError PasswordHash :=
  hash ← derive_key self secret;
  Ok (mkPasswordHash self hash).

Definition password_verify (self : PasswordHash) (secret : list Z) : result DeriveKeyError bool :=
  h ← derive_key (params self) secret;
  Ok (bool_decide (hash self = h)).
End argon.

(** ** Nonces *)

(** The nonces of [n] calls of [advance]. *)
Fixpoint advances (n : nat) (c : NonceCounter) : list (option (list Z)) :=
  match n with
  | O => []
  | S n => let '(c, nonce) := advance c in nonce :: advances n c
  end.

Definition nonce_bytes (mask : list Z) (k : Z) : list Z :=
  zip_with Z.lxor mask (drop 4 (to_be_bytes 16 k)).

Lemma advance_below m k :
  k + 1 < 2 ^ 96 → advance (mkNonceCounter m k) = (mkNonceCounter m (k + 1), Some (nonce_bytes m (k + 1))).
Proof.
  intros Hk. unfold advance. cbn [counter mask].
  rewrite Z.geb_leb, Z.shiftl_1_l. change (Z.of_nat NONCE_LEN * 8) with 96.
  rewrite (proj2 (Z.leb_gt _ _)) by lia. done.
Qed.

Lemma lookup_advances n m k i :
  (i < n)%nat → k + Z.of_nat n < 2 ^ 96 →
  advances n (mkNonceCounter m k) !! i = Some (Some (nonce_bytes m (k + 1 + Z.of_nat i))).
Proof.
  revert k i. induction n as [|n IH]; intros k i Hi Hk; [lia|]. cbn [advances].
  rewrite advance_below by lia. destruct i as [|i]; cbn [lookup list_lookup].
  - do 3 f_equal. lia.
  - rewrite IH by lia. do 3 f_equal. lia.
Qed.

Lemma zip_lxor_inj m a b :
  length a = length m → length b = length m →
  zip_with Z.lxor m a = zip_with Z.lxor m b → a = b.
Proof.
  revert a b. induction m as [|x m IH]; intros [|y a] [|z b]; cbn; try done.
  intros [= Ha] [= Hb] [= Hx Hm]. f_equal; [|by apply IH].
  assert (Z.lxor x (Z.lxor x y) = Z.lxor x (Z.lxor x z)) as E by congruence.
  by rewrite <-!Z.lxor_assoc, !Z.lxor_nilpotent, !Z.lxor_0_l in E.
Qed.

Lemma drop_be_bytes_inj x y :
  0 ≤ x < 2 ^ 96 → 0 ≤ y < 2 ^ 96 → drop 4 (to_be_bytes 16 x) = drop 4 (to_be_bytes 16 y) → x = y.
Proof.
  intros Hx Hy E. apply (to_le_bytes_inj 12); [lia|lia|].
  assert (∀ z, to_le_bytes 12 z = reverse (drop 4 (to_be_bytes 16 z))) as H; [|by rewrite !H, E].
  intros z. unfold to_be_bytes. rewrite drop_reverse, length_to_le_bytes, reverse_involutive.
  reflexivity.
Qed.

Lemma nonce_bytes_inj m x y :
  length m = NONCE_LEN → 0 ≤ x < 2 ^ 96 → 0 ≤ y < 2 ^ 96 →
  nonce_bytes m x = nonce_bytes m y → x = y.
Proof.
  intros Hm Hx Hy E. apply drop_be_bytes_inj; [done|done|].
  apply (zip_lxor_inj m); [..|exact E]; by rewrite length_drop, length_to_be_bytes, Hm.
Qed.

(** The nonce counter never repeats a nonce: over any number of calls
    below its bound of [2^96 - 1], whatever the random mask, every call
    yields a nonce and no two of them are equal. *)
Theorem advance_nonces_unique m n :
  length m = NONCE_LEN → Z.of_nat n < 2 ^ 96 →
  Forall is_Some (advances n (nonce_new m)) ∧ NoDup (advances n (nonce_new m)).
Proof.
  intros Hm Hn. unfold nonce_new.
  assert (length (advances n (mkNonceCounter m 0)) = n) as Hlen.
  { clear. generalize (mkNonceCounter m 0). induction n as [|n IH]; intros c; cbn; [done|].
    destruct (advance c). cbn. by rewrite IH. }
  split.
  - apply Forall_lookup. intros i x Hi. pose proof (lookup_lt_Some _ _ _ Hi).
    rewrite lookup_advances in Hi by lia. by injection Hi as <-.
  - apply NoDup_alt. intros i j x Hi Hj.
    pose proof (lookup_lt_Some _ _ _ Hi). pose proof (lookup_lt_Some _ _ _ Hj).
    rewrite lookup_advances in Hi by lia. rewrite lookup_advances in Hj by lia.
    rewrite <-Hi in Hj. injection Hj as Hj.
    apply nonce_bytes_inj in Hj; lia || done.
Qed.

(** At the bound the counter refuses to wrap: it returns an error and
    keeps its state, so the refusal is permanent. *)
Theorem advance_exhausted m k :
  2 ^ 96 ≤ k + 1 → advance (mkNonceCounter m k) = (mkNonceCounter m k, None).
Proof.
  intros Hk. unfold advance. cbn [counter].
  rewrite Z.geb_leb, Z.shiftl_1_l. change (Z.of_nat NONCE_LEN * 8) with 96.
  by rewrite (proj2 (Z.leb_le _ _)) by lia.
Qed.

Lemma advance_nonces_unique_witness :
  Forall is_Some (advances 3 (nonce_new (replicate 12 7))) ∧
  NoDup (advances 3 (nonce_new (replicate 12 7))).
Proof. apply advance_nonces_unique; [reflexivity|lia]. Defined.

Lemma advance_exhausted_witness :
  advance (mkNonceCounter [] (2 ^ 96 - 1)) = (mkNonceCounter [] (2 ^ 96 - 1), None).
Proof. apply advance_exhausted. lia. Defined.

(** ** Round trips *)
Section roundtrip.
Context `{Aead}.

Lemma decrypt_encrypt_with_alg `{!AeadLaws} random m key a e :
  encrypt_with_alg random m key a = Ok e → decrypt e key = Ok m.
Proof.
  unfold encrypt_with_alg, decrypt. intros Hc.
  apply bind_Ok in Hc as ([] & Hkey%ensure_Ok & Hc).
  destruct (advance (nonce_new random)) as [c nonce] eqn:Hn.
  apply bind_Ok in Hc as (nonce' & ->%ok_or_Ok & Hc).
  apply bind_Ok in Hc as (ct & Hct%map_err_Ok & [= <-]). cbn.
  rewrite Hkey, Hn. cbn. by erewrite aead_open_seal.
Qed.

(** Decrypting with the key that encrypted gives the object back, for
    every object that serialises and whatever random mask was drawn. *)
Theorem decrypt_encrypt_object `{!AeadLaws} {T} `{Postcard T} `{!PostcardLaws T} random (x : T) key e :
  encrypt_object random x key = Ok e → decrypt_object e key = Ok x.
Proof.
  unfold encrypt_object, decrypt_object. intros Hc.
  apply bind_Ok in Hc as (s & Hs%map_err_Ok & Hc).
  apply bind_Ok in Hc as (d & Hd & [= <-]). cbn.
  apply decrypt_encrypt_with_alg in Hd. rewrite Hd. cbn.
  by apply from_to_stdvec in Hs as ->.
Qed.
End roundtrip.

Section password.
Context `{Argon2}.

(** A password hash accepts the secret it was derived from, and accepts
    another secret exactly when Argon2 derives the same 32 bytes from it
    under the stored parameters. *)
Theorem password_verify_derived p secret h secret' h' :
  derive_password_hash p secret = Ok h → derive_key p secret' = Ok h' →
  password_verify h secret = Ok true ∧
  (password_verify h secret' = Ok true ↔ derive_key p secret' = derive_key p secret).
Proof.
  unfold derive_password_hash, password_verify. intros (k & Hk & [= <-])%bind_Ok Hs'. cbn [params hash].
  rewrite Hk, Hs'. cbn. split; [by rewrite bool_decide_true|].
  split; intros [= E]; bool_hyps; [by subst|]. subst. by rewrite bool_decide_true.
Qed.
End password.

(** ** Worked examples *)

(** A cipher that adds the sum of key and nonce to every byte, and a
    one-byte tag. *)
Definition toy_aead : Aead := {|
  aead_key_ok a k := bool_decide (length k = 32%nat);
  aead_seal a k n m := Ok (map (Z.add (foldr Z.add a (k ++ n))) m ++ [a]);
  aead_open a k n c :=
    match last c with
    | Some t => if t =? a then Ok (map (λ b, b - foldr Z.add a (k ++ n)) (take (length c - 1) c))
                else Err "tag"%string
    | None => Err "short"%string
    end;
|}.

Lemma toy_aead_laws : @AeadLaws toy_aead.
Proof.
  split. intros a k n m c. cbn. intros [= <-]. rewrite last_snoc, Z.eqb_refl.
  rewrite length_app, Nat.add_sub, take_app_length, map_map. cbn. f_equal.
  rewrite <-map_id. apply map_ext. lia.
Qed.

Definition postcard_bytes : Postcard (list Z) := {| to_stdvec := Ok; from_bytes := Ok |}.

Lemma postcard_bytes_laws : @PostcardLaws (list Z) postcard_bytes.
Proof. split. cbn. congruence. Qed.

Lemma decrypt_encrypt_object_witness :
  ∃ e, @encrypt_object toy_aead _ postcard_bytes (replicate 12 9) [1; 2; 3]
         (mkEncryptionKey (replicate 32 5)) = Ok e ∧
       @decrypt_object toy_aead _ postcard_bytes e (mkEncryptionKey (replicate 32 5)) = Ok [1; 2; 3].
Proof.
  eexists. split; [vm_compute; reflexivity|].
  apply (@decrypt_encrypt_object toy_aead toy_aead_laws _ postcard_bytes postcard_bytes_laws
    (replicate 12 9)). vm_compute. reflexivity.
Defined.

Definition toy_argon : Argon2 := {|
  argon2_params_ok m t p := true;
  argon2id_hash c secret salt := Ok (secret ++ salt);
|}.

Lemma password_verify_derived_witness :
  let p := strong_with_salt [9] in
  @password_verify toy_argon (mkPasswordHash p [1; 2; 9]) [1; 2] = Ok true ∧
  (@password_verify toy_argon (mkPasswordHash p [1; 2; 9]) [1; 3] = Ok true ↔
    @derive_key toy_argon p [1; 3] = @derive_key toy_argon p [1; 2]).
Proof.
  refine (@password_verify_derived toy_argon (strong_with_salt [9]) [1; 2]
    (mkPasswordHash (strong_with_salt [9]) [1; 2; 9]) [1; 3] [1; 3; 9] _ _); reflexivity.
Defined.
