(* ===== verification/Credential.v ===== *)
(** * Key pairs and credentials ([keypair.rs], [credential.rs])

    A credential is a key pair with the certificate of its public key.  The
    operations that generate keys take the generated key pair, and those that
    read the clock the times read, as arguments. *)
From S2P Require Import Prelude.
From S2P Require Import External.
From S2P Require Import Spki.
From S2P Require Import Toy.
From S2P Require Import Certificate.
From S2P Require Import Encrypt.
From stdpp Require Import options.

Inductive Algorithm := PkcsEd25519.

(** The serialised forms: the private key, and the public key. *)
Record SavedKeypair := mkSavedKeypair { saved_der : list Z; saved_alg : Algorithm }.
Record ExportedPublicKey := mkExportedPublicKey { exported_der : list Z; exported_alg : Algorithm }.

Inductive DecodeKeypairError :=
  | KeypairDecryptError (e : DecryptError)
  | KeypairDecodeError (e : ExtError)
  | DetectEncodingError
  | ParseKeypairError (e : ExtError).

Inductive CreateCertificateError :=
  | SignCertificateError (e : ExtError)
  | CreateCertificateParseError (e : CertificateParseError)
  | IssuerCreateError (e : ExtError).

Inductive CreateCredentialsError :=
  | SelfSignError (e : ExtError)
  | CredentialCreateCertificateError (e : CreateCertificateError)
  | KeyMismatch.

Inductive DecodeCredentialsError :=
  | DecodeStructError (e : ExtError)
  | ParseCertificateError (e : CertificateParseError)
  | DecodeKeypairFailed (e : DecodeKeypairError)
  | DecodeCreateCredentialsError (e : CreateCredentialsError).

Section credential.
Context `{X509, CR : Crypto, !Rcgen, Aead, Postcard SavedKeypair}.

Record KeyPair := mkKeyPair { keypair : RcgenKeyPair; sign_keypair : SigningKeyPair }.

Record Credential := mkCredential {
  credential_keypair : KeyPair;
  credential_certificate : Certificate;
}.

Record EncryptedCredential := mkEncryptedCredential {
  encrypted_keypair : EncryptedObject SavedKeypair;
  encrypted_certificate : UnverifiedCertificate;
}.

(** [Algorithm::from_rcgen] unwinds on any other algorithm. *)
Definition algorithm_from_rcgen {E} (is_ed25519 : bool) : result E Algorithm :=
  if is_ed25519 then Ok PkcsEd25519 else Panic.

(** [KeyPair::generate], for the key pair [rcgen] generated. *)
Definition keypair_generate {E} (generated : RcgenKeyPair) : result E KeyPair :=
  sign_keypair ← unwrap (ed25519_from_pkcs8 (rcgen_serialized_der generated));
  Ok (mkKeyPair generated sign_keypair).

Definition export_public_key {E} (self : KeyPair) : result E ExportedPublicKey :=
  alg ← algorithm_from_rcgen (rcgen_is_ed25519 (keypair self));
  Ok (mkExportedPublicKey (rcgen_public_der (keypair self)) alg).

Definition keypair_encrypt (random : list Z) (self : KeyPair) (encryption_key : EncryptionKey) :
    result EncryptError (EncryptedObject SavedKeypair) :=
  alg ← algorithm_from_rcgen (rcgen_is_ed25519 (keypair self));
  encrypt_object random (mkSavedKeypair (rcgen_serialized_der (keypair self)) alg) encryption_key.

Definition keypair_decrypt (ciphertext : EncryptedObject SavedKeypair)
    (encryption_key : EncryptionKey) : result DecodeKeypairError KeyPair :=
  saved ← map_err KeypairDecryptError (decrypt_object ciphertext encryption_key);
  _ ← ensure (private_key_der_known (saved_der saved)) DetectEncodingError;
  keypair ← map_err ParseKeypairError (rcgen_from_der (saved_der saved));
  sign_keypair ← unwrap (ed25519_from_pkcs8 (rcgen_serialized_der keypair));
  Ok (mkKeyPair keypair sign_keypair).

Definition credential_new (keypair : KeyPair) (certificate : UnverifiedCertificate) :
    result CreateCredentialsError Credential :=
  exported ← export_public_key keypair;
  keypair_spki_hash ← compute_spki_hash (subject_public_key_info (exported_der exported));
  if bool_decide (keypair_spki_hash ≠ spki_hash certificate) then Err KeyMismatch
  else Ok (mkCredential keypair (mark_as_trusted certificate)).

(** [KeyPair::upgrade]. *)
Definition upgrade (self : KeyPair) (certificate : UnverifiedCertificate) :
    result CreateCredentialsError Credential :=
  credential_new self certificate.

(** [generate_temporary]: [now1] and [now2] are the two readings of the
    clock, for the start and for the end of the validity. *)
Definition generate_temporary (default_params : CertificateParams) (generated : RcgenKeyPair)
    (now1 now2 : Z) : result CreateCredentialsError Credential :=
  let cert_type := Temporary in
  let not_before := now1 in
  let not_after := time_saturating_add now2 (validity_duration cert_type) in
  keypair ← keypair_generate generated;
  exported ← export_public_key keypair;
  spki_hash ← compute_spki_hash (subject_public_key_info (exported_der exported));
  let dn := [(OrganizationalUnitName, display_type cert_type);
             (CommonName, display_spki spki_hash)] in
  let temp_parameters := mkParams not_before not_after NoCa []
    (p_use_authority_key_identifier_extension default_params)
    (p_key_identifier_method default_params) dn in
  certificate ← map_err SelfSignError (self_signed temp_parameters generated);
  certificate ← map_err (CredentialCreateCertificateError ∘ CreateCertificateParseError)
                  (from_der certificate);
  credential_new keypair certificate.

Definition generate_root (default_params : CertificateParams) (generated : RcgenKeyPair)
    (now1 now2 : Z) : result CreateCredentialsError Credential :=
  let not_before := now1 in
  let not_after := time_saturating_add now2 (validity_duration Root) in
  keypair ← keypair_generate generated;
  exported ← export_public_key keypair;
  spki_hash ← compute_spki_hash (subject_public_key_info (exported_der exported));
  let dn := [(OrganizationalUnitName, display_type Root);
             (CommonName, display_spki spki_hash)] in
  let root_parameters := mkParams not_before not_after CaUnconstrained
    [DigitalSignature; KeyCertSign]
    (p_use_authority_key_identifier_extension default_params)
    (p_key_identifier_method default_params) dn in
  certificate ← map_err SelfSignError (self_signed root_parameters generated);
  certificate ← map_err (CredentialCreateCertificateError ∘ CreateCertificateParseError)
                  (from_der certificate);
  credential_new keypair certificate.

(** [rcgen_clone] reads the key pair back from its encoding. *)
Definition rcgen_clone {E} (self : KeyPair) : result E RcgenKeyPair :=
  unwrap (rcgen_from_der (rcgen_serialized_der (keypair self))).

(** [Credential::issuer]. *)
Definition credential_issuer (self : Credential) : result ExtError RcgenIssuer :=
  clone ← rcgen_clone (credential_keypair self);
  issuer_from_ca_cert_der (der (credential_certificate self)) clone.

Definition create_certificate_for_key (self : Credential) (public_key : ExportedPublicKey)
    (certificate_type : CertificateType) (now1 now2 : Z) :
    result CreateCertificateError UnverifiedCertificate :=
  let not_before := now1 in
  let not_after := time_saturating_add now2 (validity_duration certificate_type) in
  let is_ca := if should_be_ca certificate_type then CaUnconstrained else NoCa in
  spki_hash ← compute_spki_hash (subject_public_key_info (exported_der public_key));
  let dn := [(OrganizationalUnitName, display_type certificate_type);
             (CommonName, display_spki spki_hash)] in
  let leaf_parameters :=
    mkParams not_before not_after is_ca [DigitalSignature] true KeyIdSha256 dn in
  issuer ← map_err IssuerCreateError (credential_issuer self);
  certificate ← map_err SignCertificateError
                  (signed_by leaf_parameters (exported_der public_key) issuer);
  map_err CreateCertificateParseError (from_der certificate).

Definition create_agent_certificate_for_key (self : Credential) (public_key : ExportedPublicKey)
    (now1 now2 : Z) : result CreateCertificateError Certificate :=
  c ← create_certificate_for_key self public_key Agent now1 now2;
  Ok (mark_as_trusted c).

Definition create_server_certificate_for_key (self : Credential) (public_key : ExportedPublicKey)
    (now1 now2 : Z) : result CreateCertificateError Certificate :=
  c ← create_certificate_for_key self public_key Server now1 now2;
  Ok (mark_as_trusted c).

Definition create_user_device_credential (self : Credential) (generated : RcgenKeyPair)
    (now1 now2 : Z) : result CreateCredentialsError Credential :=
  keypair ← keypair_generate generated;
  exported ← export_public_key keypair;
  certificate ← map_err CredentialCreateCertificateError
                  (create_certificate_for_key self exported UserSession now1 now2);
  upgrade keypair certificate.

(** [Credential::export]. *)
Definition credential_export (random : list Z) (self : Credential)
    (encryption_key : EncryptionKey) : result EncryptError EncryptedCredential :=
  encrypted_keypair ← keypair_encrypt random (credential_keypair self) encryption_key;
  Ok (mkEncryptedCredential encrypted_keypair (credential_certificate self)).

(** [EncryptedCredential::decrypt]. *)
Definition credential_decrypt (self : EncryptedCredential) (encryption_key : EncryptionKey) :
    result DecodeCredentialsError Credential :=
  decrypted_keypair ← map_err DecodeKeypairFailed
                        (keypair_decrypt (encrypted_keypair self) encryption_key);
  map_err DecodeCreateCredentialsError
    (credential_new decrypted_keypair (encrypted_certificate self)).
End credential.

Section credential_lemmas.
Context `{X509, CR : Crypto, !Rcgen, Aead, Postcard SavedKeypair}.

(** The values of the Rust types: a key pair's signing key is the one read
    from its encoding, a credential's certificate is its key's. *)
Definition keypair_ok (k : KeyPair) : Prop :=
  ed25519_from_pkcs8 (rcgen_serialized_der (keypair k)) = Ok (sign_keypair k).

Definition credential_ok (c : Credential) : Prop :=
  keypair_ok (credential_keypair c) ∧
  rcgen_is_ed25519 (keypair (credential_keypair c)) = true ∧
  compute_spki_hash (E := ())
    (subject_public_key_info (rcgen_public_der (keypair (credential_keypair c)))) =
  Ok (spki_hash (credential_certificate c)).

Lemma compute_spki_hash_any {E F} k h :
  compute_spki_hash (E := E) k = Ok h → compute_spki_hash (E := F) k = Ok h.
Proof.
  unfold compute_spki_hash. destruct (spki_from_slice (sha512_256 k)); cbn; congruence.
Qed.

Lemma keypair_generate_ok {E} g k : keypair_generate (E := E) g = Ok k → keypair_ok k ∧ keypair k = g.
Proof.
  unfold keypair_generate, keypair_ok. intros (s & Hs%unwrap_inv & [= <-])%bind_Ok. done.
Qed.

Lemma credential_new_Ok k c cr :
  credential_new k c = Ok cr →
  cr = mkCredential k (mkCertificate c) ∧ rcgen_is_ed25519 (keypair k) = true ∧
  compute_spki_hash (E := ()) (subject_public_key_info (rcgen_public_der (keypair k))) = Ok (spki_hash c).
Proof.
  unfold credential_new, export_public_key, algorithm_from_rcgen.
  destruct (rcgen_is_ed25519 (keypair k)) eqn:E; cbn; [|done].
  intros (h & Hh & Hc)%bind_Ok. case_bool_decide as Heq; [done|].
  injection Hc as <-. split_and!; [done|done|]. apply (compute_spki_hash_any (F := ())) in Hh.
  by rewrite Hh, Heq.
Qed.

Lemma credential_new_ok k c cr : keypair_ok k → credential_new k c = Ok cr → credential_ok cr.
Proof. intros Hk (-> & ? & ?)%credential_new_Ok. done. Qed.

Lemma decrypt_exported `{!RcgenLaws, !AeadLaws, !PostcardLaws SavedKeypair} random cr key e :
  credential_ok cr → credential_export random cr key = Ok e → credential_decrypt e key = Ok cr.
Proof.
  intros (Hk & Ha & Hs) (ek & He & [= <-])%bind_Ok.
  unfold keypair_encrypt, algorithm_from_rcgen in He. rewrite Ha in He. cbn in He.
  unfold encrypt_object in He.
  apply bind_Ok in He as (s & Hser%map_err_Ok & He). apply bind_Ok in He as (d & Hd & [= <-]).
  apply decrypt_encrypt_with_alg in Hd. apply from_to_stdvec in Hser.
  unfold credential_decrypt, keypair_decrypt, decrypt_object. cbn. rewrite Hd. cbn. rewrite Hser. cbn.
  destruct (rcgen_from_serialized (keypair (credential_keypair cr))) as [-> ->]. cbn.
  rewrite Hk. cbn. destruct cr as [[k s'] [c]]; cbn in *.
  unfold credential_new, export_public_key, algorithm_from_rcgen; cbn. rewrite Ha. cbn.
  apply (compute_spki_hash_any (F := CreateCredentialsError)) in Hs. rewrite Hs. cbn.
  by rewrite bool_decide_false by naive_solver.
Qed.

(** A credential survives export and decryption: with the key it was
    exported under, the decrypted credential is the exported one, with the
    same signing key. *)
Theorem credential_decrypt_export `{!RcgenLaws, !AeadLaws, !PostcardLaws SavedKeypair} random cr key e :
  credential_ok cr → credential_export random cr key = Ok e → credential_decrypt e key = Ok cr.
Proof. apply decrypt_exported. Qed.

(** The lifetime [from_der] reads off a certificate made with two clock
    readings is right when both fall in the same second only. *)
Lemma lifetime_two_clocks now1 now2 d :
  (now2 + d * 10 ^ 9) `div` 10 ^ 9 - now1 `div` 10 ^ 9 = d ↔ now1 `div` 10 ^ 9 = now2 `div` 10 ^ 9.
Proof. rewrite Z.div_add by done. lia. Qed.

Lemma from_der_self_signed `{!X509Laws, !CryptoLaws, !RcgenLaws} p g d h t :
  self_signed p g = Ok d →
  p_distinguished_name p = [(OrganizationalUnitName, display_type t); (CommonName, display_spki h)] →
  compute_spki_hash (E := CertificateParseError) (subject_public_key_info (rcgen_public_der g)) = Ok h →
  t = Root ∨ t = Temporary →
  p_is_ca p = (if should_be_ca t then CaUnconstrained else NoCa) →
  p_not_before p `div` 10 ^ 9 < p_not_after p `div` 10 ^ 9 →
  let got := p_not_after p `div` 10 ^ 9 - p_not_before p `div` 10 ^ 9 in
  if decide (got = validity_duration t)
  then ∃ c, from_der d = Ok c ∧ spki_hash c = h ∧ certificate_type c = t
  else from_der d = Err (IncorrectValidityDuration t (validity_duration t) got).
Proof.
  intros Hd Hdn Hh Ht Hca Hlt got.
  destruct (self_signed_parses _ _ _ _ _ Hd Hdn) as (x & Hx & Hcn & Hou & Hicn & Hpk & Hnb & Hna & Hxca).
  rewrite (from_der_names d [] x h t (display_spki h)); [|done|by rewrite Hpk|done|done|done].
  rewrite asn1_sub_spec, Hna, Hnb. rewrite Z.gtb_ltb, (proj2 (Z.ltb_lt _ _)) by done.
  cbn [ok_or mbind result_bind]. fold got. destruct (decide (got = validity_duration t)) as [E|E].
  - rewrite (bool_decide_true (got = _)) by done. cbn [ensure mbind result_bind].
    rewrite (proj2 (first_attribute_Ok _ _ _) Hicn). cbn [mbind result_bind].
    rewrite parse_display_spki by (by apply compute_spki_hash_wf in Hh as [_ ?]).
    cbn [mbind result_bind]. rewrite Hxca, Hca.
    assert (bool_decide (t = Root) || bool_decide (t = Temporary) = true) as ->.
    { destruct Ht as [-> | ->]; done. }
    destruct (name_eqb _ _), t; cbn; naive_solver.
  - by rewrite (bool_decide_false (got = _)) by done.
Qed.

(** [generate_root] reads the clock twice, and works only when both
    readings fall in the same second: otherwise the certificate it has just
    made is refused by [from_der] for its lifetime. Key generation and
    signing are taken to succeed. *)
Theorem generate_root_same_second `{!X509Laws, !CryptoLaws, !RcgenLaws} dp g k now1 now2 :
  keypair_generate (E := ()) g = Ok k → rcgen_is_ed25519 g = true →
  (∀ p, ∃ d, self_signed p g = Ok d) →
  0 ≤ now1 ≤ now2 → now2 < 2 ^ 61 →
  if decide (now1 `div` 10 ^ 9 = now2 `div` 10 ^ 9)
  then ∃ c, generate_root dp g now1 now2 = Ok c ∧ credential_ok c ∧
            certificate_type (credential_certificate c) = Root
  else ∃ got, generate_root dp g now1 now2 =
         Err (CredentialCreateCertificateError (CreateCertificateParseError
           (IncorrectValidityDuration Root (validity_duration Root) got))).
Proof.
  intros Hg Ha Hsign Hnow Hmax.
  apply keypair_generate_ok in Hg as [Hk <-].
  unfold generate_root, keypair_generate. unfold keypair_ok in Hk. rewrite Hk. cbn [unwrap mbind result_bind].
  unfold export_public_key, algorithm_from_rcgen. cbn [keypair]. rewrite Ha. cbn [mbind result_bind exported_der].
  rewrite compute_spki_hash_total. set (h := mkSpkiHash _).
  assert (∀ E, compute_spki_hash (E := E) (subject_public_key_info (rcgen_public_der (keypair k))) = Ok h)
    as Hh by (intros E; apply compute_spki_hash_total).
  cbn [mbind result_bind].
  match goal with |- context [self_signed ?p _] => set (params := p) end.
  destruct (Hsign params) as [d Hd]. rewrite Hd. cbn [map_err mbind result_bind].
  assert (p_not_after params = now2 + validity_duration Root * 10 ^ 9) as Hna.
  { unfold params. cbn [p_not_after]. apply time_add_below; [lia|]. change (validity_duration Root) with 315360000. lia. }
  pose proof (Z.div_le_mono now1 now2 (10 ^ 9) ltac:(lia) ltac:(lia)).
  assert (p_not_after params `div` 10 ^ 9 = now2 `div` 10 ^ 9 + validity_duration Root) as Hna'.
  { by rewrite Hna, Z.div_add. }
  pose proof (from_der_self_signed params (keypair k) d h Root Hd eq_refl (Hh _) (or_introl eq_refl) eq_refl)
    as Hfd.
  rewrite Hna' in Hfd. change (p_not_before params) with now1 in Hfd.
  specialize (Hfd ltac:(change (validity_duration Root) with 315360000; lia)). cbn zeta in Hfd.
  destruct (decide (now1 `div` 10 ^ 9 = now2 `div` 10 ^ 9)) as [E|E].
  - rewrite decide_True in Hfd by lia. destruct Hfd as (c & -> & Hc & Ht). cbn [map_err mbind result_bind].
    unfold credential_new, export_public_key, algorithm_from_rcgen. cbn [keypair].
    rewrite Ha. cbn [mbind result_bind exported_der]. rewrite Hh. cbn [mbind result_bind].
    rewrite bool_decide_false by naive_solver.
    eexists. split; [done|]. split; [|done]. unfold credential_ok, keypair_ok; cbn.
    split_and!; [done|done|]. by rewrite Hh, Hc.
  - rewrite decide_False in Hfd by lia. rewrite Hfd. cbn. eauto.
Qed.
End credential_lemmas.

(** ** Worked examples *)
#[local] Existing Instance toy_x509.
#[local] Existing Instance toy_crypto.
#[local] Existing Instance toy_rcgen.
#[local] Existing Instance toy_aead.

Definition postcard_keypair : Postcard SavedKeypair := {|
  to_stdvec s := Ok (saved_der s);
  from_bytes b := Ok (mkSavedKeypair b PkcsEd25519);
|}.
#[local] Existing Instance postcard_keypair.

Lemma postcard_keypair_laws : @PostcardLaws SavedKeypair postcard_keypair.
Proof. split. intros [d []] b. cbn. congruence. Qed.

#[global] Instance algorithm_eq_dec : EqDecision Algorithm.
Proof. solve_decision. Defined.
#[global] Instance public_key_eq_dec : EqDecision ExportedPublicKey.
Proof. solve_decision. Defined.

Definition toy_keypair (k : Z) : @KeyPair toy_crypto toy_rcgen :=
  @mkKeyPair toy_crypto toy_rcgen k k.

Definition toy_credential : @Credential toy_crypto toy_rcgen :=
  mkCredential (toy_keypair 2) (mkCertificate toy_user).
Definition toy_encrypted : EncryptedCredential :=
  mkEncryptedCredential
    (mkEncryptedObject (mkEncryptedData [2 + (6 * 32 + 7 * 11 + 6); 0] Chacha20Poly1305 (replicate 12 7))) toy_user.

Lemma credential_decrypt_export_witness :
  credential_export (replicate 12 7) toy_credential (mkEncryptionKey (replicate 32 6)) = Ok toy_encrypted ∧
  credential_decrypt toy_encrypted (mkEncryptionKey (replicate 32 6)) = Ok toy_credential.
Proof.
  assert (credential_export (replicate 12 7) toy_credential (mkEncryptionKey (replicate 32 6)) = Ok toy_encrypted)
    as H1 by (vm_compute; reflexivity).
  split; [exact H1|].
  refine (@credential_decrypt_export toy_x509 toy_crypto toy_rcgen toy_aead postcard_keypair
    toy_rcgen_laws toy_aead_laws postcard_keypair_laws (replicate 12 7) _ _ _ _ H1).
  split_and!; vm_compute; reflexivity.
Defined.

Definition toy_params : CertificateParams := mkParams 0 0 NoCa [] false KeyIdDefault [].

Lemma generate_root_same_second_witness :
  if decide (1999999999 `div` 10 ^ 9 = 2000000000 `div` 10 ^ 9)
  then ∃ c, generate_root toy_params (2 : @RcgenKeyPair toy_crypto toy_rcgen) 1999999999 2000000000 = Ok c ∧
            credential_ok c ∧ certificate_type (credential_certificate c) = Root
  else ∃ got, generate_root toy_params (2 : @RcgenKeyPair toy_crypto toy_rcgen) 1999999999 2000000000 =
         Err (CredentialCreateCertificateError (CreateCertificateParseError
           (IncorrectValidityDuration Root (validity_duration Root) got))).
Proof.
  apply (@generate_root_same_second toy_x509 toy_crypto toy_rcgen toy_x509_laws toy_crypto_laws
    toy_rcgen_laws toy_params _ (toy_keypair 2)); [reflexivity|reflexivity| |lia|lia].
  intros p. eexists. reflexivity.
Defined.
