(* ===== verification/SecureChain.v ===== *)
(** * Secure chains ([svalin_pki/src/secure_chain.rs])

    A chain of signed blocks over an arbitrary replicated state.  The state is
    an instance of [ChainState]; what a chain needs of it is [ChainStateLaws],
    against which the theorems of this file are proved.  A [Digest] argument
    of the source is the list of the bytes fed to the hasher so far. The clock
    is read once per call and is an argument. *)
From S2P Require Import Prelude.
From S2P Require Import External.
From S2P Require Import Spki.
From S2P Require Import Toy.
From S2P Require Import Certificate.
From S2P Require Import Credential.
From stdpp Require Import options.

(** ** The interface of a chain's state *)
Class ChainState (State : Type) := {
  Transaction : Type;
  StateError : Type;
  Exported : Type;
  StateImportError : Type;
  transaction_digest : Transaction → list Z → list Z;
  state_check : State → SpkiHash → Z → Transaction → result StateError ();
  (** [apply] has no error: it returns or unwinds. *)
  state_apply : State → SpkiHash → Z → Transaction → result Empty_set State;
  state_revert : State → Transaction → State;
  state_digest : State → list Z → list Z;
  state_export : State → Exported;
  state_import : Exported → result StateImportError State;
}.

(** The contract: [wf] is the invariant of the state, [tx_wf] what holds of
    every value of the transaction's type. *)
Class ChainStateLaws (State : Type) `{ChainState State} (wf : State → Prop)
    (tx_wf : Transaction → Prop) := {
  apply_checked s signer t tx :
    wf s → tx_wf tx → state_check s signer t tx = Ok () →
    ∃ s', state_apply s signer t tx = Ok s' ∧ wf s' ∧ state_revert s' tx = s;
  state_digest_app s d : state_digest s d = d ++ state_digest s [];
  transaction_digest_app tx d : transaction_digest tx d = d ++ transaction_digest tx [];
}.

(** A computation without errors, inside one that may have some. *)
Definition infallible {E A} (r : result Empty_set A) : result E A :=
  match r with
  | Ok a => Ok a
  | Err e => match e with end
  | Panic => Panic
  end.

(** ** Blocks

    [InnerDigest] and its three newtypes are 64 bytes. *)
Abbreviation InnerDigest := (list Z).
Abbreviation BlockDigest := (list Z).
Abbreviation StateDigest := (list Z).
Abbreviation ChainDigest := (list Z).

Definition empty_digest : BlockDigest := replicate 64 0.

Record UncheckedBlock (T : Type) := mkBlock {
  block_sequence : Z;
  block_time : Z;
  previous_block_hash : BlockDigest;
  resulting_state : StateDigest;
  block_signer : SpkiHash;
  block_transaction : T;
  (** Not part of the block's digest. *)
  signature : list Z;
}.
Arguments mkBlock {T}.
Arguments block_sequence {T} _.
Arguments block_time {T} _.
Arguments previous_block_hash {T} _.
Arguments resulting_state {T} _.
Arguments block_signer {T} _.
Arguments block_transaction {T} _.
Arguments signature {T} _.

Record CheckedBlock (T : Type) := mkCheckedBlock { as_unchecked : UncheckedBlock T }.
Arguments mkCheckedBlock {T} _.
Arguments as_unchecked {T} _.
Coercion as_unchecked : CheckedBlock >-> UncheckedBlock.

Inductive CheckBlockError (Inner : Type) :=
  | SequenceMismatch
  | PreviousBlockHashMismatch
  | TimeToEarly (time last_time : Z)
  | IncorrectCertificate
  | BlockSignatureVerificationFailed
  | CheckInvalidTransaction (e : Inner)
  | ResultingStateMismatch
  | TimeInFuture.
Arguments SequenceMismatch {Inner}.
Arguments PreviousBlockHashMismatch {Inner}.
Arguments TimeToEarly {Inner} _ _.
Arguments IncorrectCertificate {Inner}.
Arguments BlockSignatureVerificationFailed {Inner}.
Arguments CheckInvalidTransaction {Inner} _.
Arguments ResultingStateMismatch {Inner}.
Arguments TimeInFuture {Inner}.

Inductive CreateBlockError (Inner : Type) := CreateInvalidTransaction (e : Inner).
Arguments CreateInvalidTransaction {Inner} _.

Inductive ImportError (Inner : Type) := InnerImportError (e : Inner) | IncorrectStateDigest.
Arguments InnerImportError {Inner} _.
Arguments IncorrectStateDigest {Inner}.

Record Chain (State : Type) `{ChainState State} := mkChainOf {
  last_block : option (CheckedBlock Transaction);
  chain_state : State;
}.
Arguments mkChainOf {State _} _ _.
Arguments last_block {State _} _.
Arguments chain_state {State _} _.

Record ExportedChain (State : Type) `{ChainState State} := mkExportedChain {
  exported_state : Exported;
  exported_last_block : option (UncheckedBlock Transaction);
}.
Arguments mkExportedChain {State _} _ _.
Arguments exported_state {State _} _.
Arguments exported_last_block {State _} _.

Section chain.
Context `{ChainState State, CR : Crypto, !Rcgen}.

(** The bytes that are hashed and signed, field by field. *)
Definition block_preimage (b : UncheckedBlock Transaction) : list Z :=
  transaction_digest (block_transaction b)
    (to_le_bytes 8 (block_sequence b) ++ to_le_bytes 8 (block_time b) ++
     previous_block_hash b ++ resulting_state b ++ as_slice (block_signer b)).

Definition block_digest (self : UncheckedBlock Transaction) : BlockDigest :=
  sha512 (block_preimage self).

(** [PartialEq for UncheckedBlock]. *)
Definition block_eqb (self other : UncheckedBlock Transaction) : bool :=
  bool_decide (block_digest self = block_digest other) &&
  bool_decide (signature self = signature other).

(** [let mut hasher = Sha512::new(); state.digest(&mut hasher); ...]. *)
Definition state_hash (s : State) : StateDigest := sha512 (state_digest s []).

Definition initialize (state : State) : Chain State := mkChainOf None state.

Definition sign_block (credential : Credential) (block : UncheckedBlock Transaction) :
    UncheckedBlock Transaction :=
  mkBlock (block_sequence block) (block_time block) (previous_block_hash block)
    (resulting_state block) (block_signer block) (block_transaction block)
    (ed25519_sign (sign_keypair (credential_keypair credential)) (block_digest block)).

(** [Chain::package]; the chain it leaves behind comes with the result. *)
Definition package (self : Chain State) (transaction : Transaction) (credential : Credential)
    (timestamp : Z) :
    Chain State * result (CreateBlockError StateError) (CheckedBlock Transaction) :=
  let signer := spki_hash (credential_certificate credential) in
  match state_check (chain_state self) signer timestamp transaction with
  | Err reason => (self, Err (CreateInvalidTransaction reason))
  | Panic => (self, Panic)
  | Ok _ =>
      match state_apply (chain_state self) signer timestamp transaction with
      | Err e => match e with end
      | Panic => (self, Panic)
      | Ok applied =>
          let new_digest := state_hash applied in
          let self := mkChainOf (last_block self) (state_revert applied transaction) in
          let block :=
            match last_block self with
            | Some last =>
                mkBlock (wrap_u64 (block_sequence last + 1)) timestamp (block_digest last)
                  new_digest signer transaction []
            | None => mkBlock 1 timestamp empty_digest new_digest signer transaction []
            end in
          (self, Ok (mkCheckedBlock (sign_block credential block)))
      end
  end.

(** The checks of [Chain::check] that do not touch the state. *)
Definition check_header (last_block : option (CheckedBlock Transaction))
    (block : UncheckedBlock Transaction) (certificate : Certificate) (now : Z) :
    result (CheckBlockError StateError) () :=
  _ ← match last_block with
      | Some last =>
          _ ← ensure (block_sequence block =? wrap_u64 (block_sequence last + 1)) SequenceMismatch;
          _ ← ensure (bool_decide (previous_block_hash block = block_digest last))
                PreviousBlockHashMismatch;
          ensure (negb (block_time block <? block_time last))
            (TimeToEarly (block_time block) (block_time last))
      | None =>
          _ ← ensure (block_sequence block =? 1) SequenceMismatch;
          ensure (bool_decide (previous_block_hash block = empty_digest)) PreviousBlockHashMismatch
      end;
  _ ← ensure (negb (block_time block >? now)) TimeInFuture;
  _ ← ensure (bool_decide (block_signer block = spki_hash certificate)) IncorrectCertificate;
  ensure (ed25519_verify (public_key certificate) (block_digest block) (signature block))
    BlockSignatureVerificationFailed.

Definition check (self : Chain State) (block : UncheckedBlock Transaction)
    (certificate : Certificate) (now : Z) :
    Chain State * result (CheckBlockError StateError) (CheckedBlock Transaction) :=
  match check_header (last_block self) block certificate now with
  | Err e => (self, Err e)
  | Panic => (self, Panic)
  | Ok _ =>
      match state_check (chain_state self) (block_signer block) (block_time block)
              (block_transaction block) with
      | Err reason => (self, Err (CheckInvalidTransaction reason))
      | Panic => (self, Panic)
      | Ok _ =>
          match state_apply (chain_state self) (block_signer block) (block_time block)
                  (block_transaction block) with
          | Err e => match e with end
          | Panic => (self, Panic)
          | Ok applied =>
              let new_digest := state_hash applied in
              let self := mkChainOf (last_block self)
                            (state_revert applied (block_transaction block)) in
              if bool_decide (resulting_state block ≠ new_digest)
              then (self, Err ResultingStateMismatch)
              else (self, Ok (mkCheckedBlock block))
          end
      end
  end.

(** [Chain::apply] unwinds when the state it reaches is not the block's. *)
Definition apply {E} (self : Chain State) (block : CheckedBlock Transaction) : result E (Chain State) :=
  state ← infallible (state_apply (chain_state self) (block_signer block) (block_time block)
                        (block_transaction block));
  if bool_decide (resulting_state block ≠ state_hash state) then Panic
  else Ok (mkChainOf (Some block) state).

Definition chain_digest (self : Chain State) : ChainDigest :=
  let block_digest := default empty_digest (block_digest ∘ as_unchecked <$> last_block self) in
  sha512 (state_digest (chain_state self) block_digest).

Definition export (self : Chain State) : ExportedChain State :=
  mkExportedChain (state_export (chain_state self)) (as_unchecked <$> last_block self).

(** Only the state's digest is checked: neither the signature of the block
    nor its sequence is. *)
Definition import (exported : ExportedChain State) :
    result (ImportError StateImportError) (Chain State) :=
  state ← map_err InnerImportError (state_import (exported_state exported));
  match exported_last_block exported with
  | Some last_block =>
      if bool_decide (resulting_state last_block ≠ state_hash state) then Err IncorrectStateDigest
      else Ok (mkChainOf (Some (mkCheckedBlock last_block)) state)
  | None => Ok (mkChainOf None state)
  end.

Definition sequence (self : Chain State) : Z :=
  match last_block self with
  | None => 0
  | Some block => block_sequence block
  end.
End chain.

(** ** The chain keeps its contract, for every lawful state *)
Section chain_lemmas.
Context `{CS : ChainState State, CR : Crypto, !Rcgen}.
Implicit Types b : UncheckedBlock Transaction.
Implicit Types c : Chain State.
Implicit Types cert : Certificate.

Lemma check_header_Ok (lb : option (CheckedBlock Transaction)) b cert now u :
  check_header lb b cert now = Ok u →
  match lb with
  | Some last =>
      block_sequence b = wrap_u64 (block_sequence last + 1) ∧
      previous_block_hash b = block_digest last ∧ block_time last ≤ block_time b
  | None => block_sequence b = 1 ∧ previous_block_hash b = empty_digest
  end ∧
  block_time b ≤ now ∧ block_signer b = spki_hash cert ∧
  ed25519_verify (public_key cert) (block_digest b) (signature b) = true.
Proof.
  unfold check_header. intros ([] & Hl & Hb)%bind_Ok.
  apply bind_Ok in Hb as ([] & Ht%ensure_Ok & Hb).
  apply bind_Ok in Hb as ([] & Hs%ensure_Ok & Hv%ensure_Ok).
  rewrite Z.gtb_ltb in Ht. bool_hyps. split_and!; try done.
  destruct lb as [last|].
  - apply bind_Ok in Hl as ([] & H1%ensure_Ok & Hl).
    apply bind_Ok in Hl as ([] & H2%ensure_Ok & H3%ensure_Ok). bool_hyps. done.
  - apply bind_Ok in Hl as ([] & H1%ensure_Ok & H2%ensure_Ok). bool_hyps. done.
Qed.

Lemma check_header_intro (lb : option (CheckedBlock Transaction)) b cert now :
  match lb with
  | Some last =>
      block_sequence b = wrap_u64 (block_sequence last + 1) ∧
      previous_block_hash b = block_digest last ∧ block_time last ≤ block_time b
  | None => block_sequence b = 1 ∧ previous_block_hash b = empty_digest
  end →
  block_time b ≤ now → block_signer b = spki_hash cert →
  ed25519_verify (public_key cert) (block_digest b) (signature b) = true →
  check_header lb b cert now = Ok ().
Proof.
  intros Hl Ht Hs Hv. unfold check_header. rewrite Hv, (bool_decide_true (block_signer b = _)) by done.
  rewrite Z.gtb_ltb, (proj2 (Z.ltb_ge now _)) by done.
  destruct lb as [last|].
  - destruct Hl as (-> & -> & Hlt). rewrite Z.eqb_refl, bool_decide_true by done.
    by rewrite (proj2 (Z.ltb_ge _ _)) by done.
  - destruct Hl as (-> & ->). by rewrite bool_decide_true by done.
Qed.

Lemma sign_block_verifies `{!CryptoLaws} cred b :
  ed25519_verify (ed25519_public_key (sign_keypair (credential_keypair cred)))
    (block_digest (sign_block cred b)) (signature (sign_block cred b)) = true.
Proof. apply ed25519_sign_verify. Qed.

(** What an accepted block satisfies, and that the chain is as before. *)
Lemma check_inv (wf : State → Prop) (tx_wf : Transaction → Prop)
    `{!ChainStateLaws State wf tx_wf} c b cert now :
  wf (chain_state c) → tx_wf (block_transaction b) →
  let '(c', r) := check c b cert now in
  c' = c ∧
  (∀ cb, r = Ok cb →
    cb = mkCheckedBlock b ∧
    check_header (last_block c) b cert now = Ok () ∧
    ∃ s', state_apply (chain_state c) (block_signer b) (block_time b) (block_transaction b) = Ok s' ∧
      wf s' ∧ resulting_state b = state_hash s').
Proof.
  intros Hwf Htx. unfold check. destruct (check_header _ _ _ _) as [[]|e|] eqn:Hh; [|done|done].
  destruct (state_check _ _ _ _) as [[]|e|] eqn:Hc; [|done|done].
  destruct (apply_checked _ _ _ _ Hwf Htx Hc) as (s' & Hs & Hwf' & Hrev). rewrite Hs, Hrev.
  destruct c as [lb s]; cbn [chain_state last_block] in *. case_bool_decide as Hd; [done|].
  split; [done|]. intros cb [= <-]. split_and!; [done|done|]. exists s'. done.
Qed.

Lemma apply_checked_block {E} c b s' :
  state_apply (chain_state c) (block_signer b) (block_time b) (block_transaction b) = Ok s' →
  resulting_state b = state_hash s' →
  apply (E := E) c (mkCheckedBlock b) = Ok (mkChainOf (Some (mkCheckedBlock b)) s').
Proof.
  intros Hs Hr. unfold apply. cbn [as_unchecked]. rewrite Hs. cbn [infallible mbind result_bind].
  by rewrite bool_decide_false by naive_solver.
Qed.
End chain_lemmas.

Section chain_properties.
Context `{CS : ChainState State, CR : Crypto, !Rcgen}.
Implicit Types b : UncheckedBlock Transaction.
Implicit Types c : Chain State.
Implicit Types cert : Certificate.

(** Checking a block never changes the chain, whatever the verdict: the
    transaction is applied for its digest and reverted, also when the digest
    does not match. *)
Theorem check_keeps_chain (wf : State → Prop) (tx_wf : Transaction → Prop)
    `{!ChainStateLaws State wf tx_wf} c b cert now :
  wf (chain_state c) → tx_wf (block_transaction b) → (check c b cert now).1 = c.
Proof.
  intros Hwf Htx. pose proof (check_inv wf tx_wf c b cert now Hwf Htx) as Hc.
  destruct (check c b cert now). by destruct Hc.
Qed.

(** Applying a block that was checked on this chain never unwinds, and
    makes it the last block of a chain whose state hash is the one the block
    announced and whose state is well-formed again. *)
Theorem check_then_apply (wf : State → Prop) (tx_wf : Transaction → Prop)
    `{!ChainStateLaws State wf tx_wf} {E} c b cert now cb :
  wf (chain_state c) → tx_wf (block_transaction b) →
  (check c b cert now).2 = Ok cb →
  ∃ c', apply (E := E) c cb = Ok c' ∧ wf (chain_state c') ∧
    last_block c' = Some cb ∧ as_unchecked cb = b ∧
    state_hash (chain_state c') = resulting_state b ∧ sequence c' = block_sequence b.
Proof.
  intros Hwf Htx Hr. pose proof (check_inv wf tx_wf c b cert now Hwf Htx) as Hc.
  destruct (check c b cert now) as [c1 r]. destruct Hc as [-> Hc]. cbn in Hr.
  destruct (Hc cb Hr) as (-> & Hh & s' & Hs & Hwf' & Hd).
  eexists. split; [by eapply apply_checked_block|]. done.
Qed.

(** A block is accepted at most once: after it has been applied, checking
    it again is a sequence mismatch. *)
Theorem applied_block_not_replayable {E} c cb c' cert now :
  apply (E := E) c cb = Ok c' → (check c' cb cert now).2 = Err SequenceMismatch.
Proof.
  unfold apply. intros (s & _ & Ha)%bind_Ok. case_bool_decide; [done|]. injection Ha as <-.
  unfold check, check_header. cbn [last_block].
  destruct (block_sequence cb =? wrap_u64 (block_sequence cb + 1)) eqn:Heq; [|done].
  exfalso. apply Z.eqb_eq in Heq. unfold wrap_u64 in Heq.
  pose proof (Z.mod_pos_bound (block_sequence cb + 1) (2 ^ 64) ltac:(lia)).
  pose proof (Z.div_mod (block_sequence cb + 1) (2 ^ 64) ltac:(lia)). nia.
Qed.

(** Every replica accepts what an honest signer packages: on a chain in
    the same position, under the signer's certificate and a clock that is not
    behind, [check] returns the packaged block. Neither side's chain changes. *)
Theorem package_accepted (wf : State → Prop) (tx_wf : Transaction → Prop)
    `{!ChainStateLaws State wf tx_wf, !CryptoLaws} c tx cred t now :
  wf (chain_state c) → tx_wf tx →
  is_ok (state_check (chain_state c) (spki_hash (credential_certificate cred)) t tx) = true →
  ed25519_public_key (sign_keypair (credential_keypair cred)) = public_key (credential_certificate cred) →
  t ≤ now → (∀ last, last_block c = Some last → block_time last ≤ t) →
  ∃ cb, package c tx cred t = (c, Ok cb) ∧
    check c cb (credential_certificate cred) now = (c, Ok cb) ∧
    block_transaction cb = tx ∧ block_sequence cb = wrap_u64 (sequence c + 1).
Proof.
  intros Hwf Htx Hc Hk Hnow Hlast. unfold package.
  destruct (state_check _ _ _ _) as [[]|e|] eqn:Hck; [|done|done].
  destruct (apply_checked _ _ _ _ Hwf Htx Hck) as (s' & Hs & Hwf' & Hrev). rewrite Hs, Hrev.
  set (blk := match last_block c with
        | Some last => mkBlock (wrap_u64 (block_sequence last + 1)) t (block_digest last)
            (state_hash s') (spki_hash (credential_certificate cred)) tx []
        | None => mkBlock 1 t empty_digest (state_hash s')
            (spki_hash (credential_certificate cred)) tx [] end).
  assert (block_time blk = t ∧ block_signer blk = spki_hash (credential_certificate cred) ∧
    block_transaction blk = tx ∧ resulting_state blk = state_hash s' ∧
    block_sequence blk = wrap_u64 (sequence c + 1)) as (Hbt & Hbs & Hbx & Hbr & Hbq).
  { unfold blk, sequence. by destruct (last_block c). }
  exists (mkCheckedBlock (sign_block cred blk)). split_and!.
  - destruct c; reflexivity.
  - unfold check. rewrite check_header_intro.
    + cbn [as_unchecked sign_block block_signer block_time block_transaction resulting_state].
      rewrite Hbs, Hbt, Hbx, Hbr, Hck, Hs, Hrev, bool_decide_false by naive_solver. by destruct c.
    + cbn [as_unchecked sign_block block_sequence block_time previous_block_hash]. rewrite Hbt.
      unfold blk. destruct (last_block c) as [last|]; cbn; auto.
    + cbn [as_unchecked sign_block block_time]. by rewrite Hbt.
    + done.
    + rewrite <-Hk. apply sign_block_verifies.
  - done.
  - done.
Qed.
End chain_properties.

(** ** Histories

    The replication loop of every node: a block is checked, and applied when
    the check accepts it; the certificates and clocks are whatever the node
    used. *)
Section history.
Context `{CS : ChainState State, CR : Crypto, !Rcgen}.
Implicit Types b : UncheckedBlock Transaction.
Implicit Types c : Chain State.

Inductive accepted (c0 : Chain State) : list (UncheckedBlock Transaction) → Chain State → Prop :=
  | accepted_nil : accepted c0 [] c0
  | accepted_snoc bs c b cert now cb c' :
      accepted c0 bs c →
      (check c b cert now).2 = Ok cb →
      apply (E := ()) (check c b cert now).1 cb = Ok c' →
      accepted c0 (bs ++ [b]) c'.

(** A block as its fixed-width fields and the bytes of its transaction. *)
Definition block_ok b : Prop :=
  is_u64 (block_sequence b) ∧ is_u64 (block_time b) ∧
  length (previous_block_hash b) = 64%nat ∧ length (resulting_state b) = 64%nat ∧
  length (as_slice (block_signer b)) = 32%nat.

(** Everything of a block its digest covers; the signature is left out. *)
Definition same_content b b' : Prop :=
  block_sequence b = block_sequence b' ∧ block_time b = block_time b' ∧
  previous_block_hash b = previous_block_hash b' ∧ resulting_state b = resulting_state b' ∧
  block_signer b = block_signer b' ∧
  transaction_digest (block_transaction b) [] = transaction_digest (block_transaction b') [].

Lemma block_preimage_inj (wf : State → Prop) (tx_wf : Transaction → Prop)
    `{!ChainStateLaws State wf tx_wf} b b' :
  block_ok b → block_ok b' → block_preimage b = block_preimage b' → same_content b b'.
Proof.
  intros (Hs & Ht & Hp & Hr & Hg) (Hs' & Ht' & Hp' & Hr' & Hg') E. unfold block_preimage in E.
  rewrite transaction_digest_app, (transaction_digest_app (block_transaction b')) in E.
  rewrite <-!app_assoc in E.
  apply app_inj_len in E as [E1 E]; [|by rewrite !length_to_le_bytes].
  apply app_inj_len in E as [E2 E]; [|by rewrite !length_to_le_bytes].
  apply app_inj_len in E as [E3 E]; [|congruence].
  apply app_inj_len in E as [E4 E]; [|congruence].
  apply app_inj_len in E as [E5 E6]; [|congruence].
  apply to_le_bytes_inj in E1; [|exact Hs|exact Hs'].
  apply to_le_bytes_inj in E2; [|exact Ht|exact Ht'].
  split_and!; try done. destruct (block_signer b), (block_signer b'); cbn in *; congruence.
Qed.

Lemma accepted_step (wf : State → Prop) (tx_wf : Transaction → Prop)
    `{!ChainStateLaws State wf tx_wf} c0 bs c :
  wf (chain_state c0) → Forall (λ b, tx_wf (block_transaction b)) bs → accepted c0 bs c →
  wf (chain_state c) ∧
  last_block c = match last bs with Some b => Some (mkCheckedBlock b) | None => last_block c0 end.
Proof.
  intros Hwf Htx Ha. induction Ha as [|bs c b cert now cb c' Ha IH Hc Hap]; [done|].
  apply Forall_app in Htx as [Htx [Hb _]%Forall_cons].
  destruct (IH Htx) as [Hwf' Hl].
  pose proof (check_inv wf tx_wf c b cert now Hwf' Hb) as Hi.
  destruct (check c b cert now) as [c1 r]. destruct Hi as [-> Hi]. cbn in *.
  destruct (Hi cb Hc) as (-> & _ & s' & Hs & Hwf'' & Hd).
  rewrite (apply_checked_block c b s' Hs Hd) in Hap. injection Hap as <-.
  rewrite last_snoc. done.
Qed.

Lemma accepted_header (wf : State → Prop) (tx_wf : Transaction → Prop)
    `{!ChainStateLaws State wf tx_wf} c0 bs b c :
  wf (chain_state c0) → Forall (λ b, tx_wf (block_transaction b)) (bs ++ [b]) →
  accepted c0 (bs ++ [b]) c →
  ∃ c1 cert now, accepted c0 bs c1 ∧ check_header (last_block c1) b cert now = Ok ().
Proof.
  intros Hwf Htx Ha. inversion Ha as [|bs' c1 b' cert now cb c' Ha' Hc Hap Heq]; [by destruct bs|].
  apply app_inj_tail in Heq as [-> ->].
  apply Forall_app in Htx as [Htx [Hb _]%Forall_cons].
  destruct (accepted_step wf tx_wf _ _ _ Hwf Htx Ha') as [Hwf' Hl].
  pose proof (check_inv wf tx_wf c1 b cert now Hwf' Hb) as Hi.
  destruct (check c1 b cert now) as [c2 r]. destruct Hi as [-> Hi]. cbn in *.
  destruct (Hi cb Hc) as (_ & Hh & _). eauto.
Qed.

Lemma accepted_sequence (wf : State → Prop) (tx_wf : Transaction → Prop)
    `{!ChainStateLaws State wf tx_wf} s0 bs b c :
  wf s0 → Forall (λ b, tx_wf (block_transaction b)) (bs ++ [b]) →
  accepted (initialize s0) (bs ++ [b]) c → block_sequence b = wrap_u64 (Z.of_nat (length bs) + 1).
Proof.
  revert b c. induction bs as [|b0 bs IH] using rev_ind; intros b c Hwf Htx Ha.
  - destruct (accepted_header wf tx_wf (initialize s0) [] b c Hwf Htx Ha) as (c1 & cert & now & Ha' & Hh).
    apply (accepted_step wf tx_wf) in Ha' as [_ Hl]; [|done|constructor]. cbn in Hl.
    apply check_header_Ok in Hh as [Hh _]. rewrite Hl in Hh. by destruct Hh as [-> _].
  - destruct (accepted_header wf tx_wf (initialize s0) _ b c Hwf Htx Ha) as (c1 & cert & now & Ha' & Hh).
    apply Forall_app in Htx as [Htx _].
    destruct (accepted_step wf tx_wf (initialize s0) _ _ Hwf Htx Ha') as [_ Hl]. rewrite last_snoc in Hl.
    apply check_header_Ok in Hh as [Hh _]. rewrite Hl in Hh. destruct Hh as [-> _]. cbn [as_unchecked].
    rewrite (IH b0 c1 Hwf Htx Ha'). rewrite length_app; cbn. unfold wrap_u64.
    rewrite Z.add_mod_idemp_l by lia. f_equal. lia.
Qed.

Lemma accepted_link (wf : State → Prop) (tx_wf : Transaction → Prop)
    `{!ChainStateLaws State wf tx_wf} s0 bs b c :
  wf s0 → Forall (λ b, tx_wf (block_transaction b)) (bs ++ [b]) →
  accepted (initialize s0) (bs ++ [b]) c →
  match last bs with
  | Some l => previous_block_hash b = block_digest l ∧ block_time l ≤ block_time b
  | None => previous_block_hash b = empty_digest
  end.
Proof.
  intros Hwf Htx Ha.
  destruct (accepted_header wf tx_wf (initialize s0) bs b c Hwf Htx Ha) as (c1 & cert & now & Ha' & Hh).
  apply Forall_app in Htx as [Htx _].
  destruct (accepted_step wf tx_wf (initialize s0) _ _ Hwf Htx Ha') as [_ Hl].
  apply check_header_Ok in Hh as [Hh _]. rewrite Hl in Hh. cbn in Hh.
  destruct (last bs); cbn in Hh; naive_solver.
Qed.

Lemma accepted_prefix (wf : State → Prop) (tx_wf : Transaction → Prop)
    `{!ChainStateLaws State wf tx_wf} s0 bs b c :
  wf s0 → Forall (λ b, tx_wf (block_transaction b)) (bs ++ [b]) →
  accepted (initialize s0) (bs ++ [b]) c → ∃ c1, accepted (initialize s0) bs c1.
Proof.
  intros Hwf Htx Ha.
  destruct (accepted_header wf tx_wf (initialize s0) bs b c Hwf Htx Ha) as (c1 & _ & _ & Ha' & _). eauto.
Qed.

(** Every history a node accepted from the initial chain is numbered from
    1 without gaps (in 64 bits), its first block points at the all-zero
    digest and every other one at the digest of the block before it, its
    times never decrease, and the chain's sequence is its length. *)
Theorem accepted_history (wf : State → Prop) (tx_wf : Transaction → Prop)
    `{!ChainStateLaws State wf tx_wf} s0 bs c :
  wf s0 → Forall (λ b, tx_wf (block_transaction b)) bs → accepted (initialize s0) bs c →
  sequence c = wrap_u64 (Z.of_nat (length bs)) ∧
  ∀ i b, bs !! i = Some b →
    block_sequence b = wrap_u64 (Z.of_nat i + 1) ∧
    (i = 0%nat → previous_block_hash b = empty_digest) ∧
    (∀ j p, i = S j → bs !! j = Some p →
      previous_block_hash b = block_digest p ∧ block_time p ≤ block_time b).
Proof.
  revert c. induction bs as [|b0 bs IH] using rev_ind; intros c Hwf Htx Ha.
  { apply (accepted_step wf tx_wf (initialize s0)) in Ha as [_ Hl]; [|done|done].
    split; [|done]. unfold sequence. by rewrite Hl. }
  pose proof (accepted_sequence wf tx_wf s0 bs b0 c Hwf Htx Ha) as Hs.
  pose proof (accepted_link wf tx_wf s0 bs b0 c Hwf Htx Ha) as Hp.
  destruct (accepted_prefix wf tx_wf s0 bs b0 c Hwf Htx Ha) as [c1 Ha1].
  destruct (accepted_step wf tx_wf (initialize s0) _ _ Hwf Htx Ha) as [_ Hl].
  apply Forall_app in Htx as [Htx _]. destruct (IH c1 Hwf Htx Ha1) as [_ IH'].
  split.
  - unfold sequence. rewrite Hl, last_snoc. cbn [as_unchecked]. rewrite Hs, length_app. cbn. f_equal. lia.
  - intros i b Hb. apply lookup_app_Some in Hb as [Hb|[Hi Hb]].
    + destruct (IH' i b Hb) as (H1 & H2 & H3). split_and!; [done|done|].
      intros j p -> Hj. apply (H3 j p eq_refl).
      apply lookup_app_Some in Hj as [Hj|[Hj _]]; [done|]. apply lookup_lt_Some in Hb. lia.
    + apply list_lookup_singleton_Some in Hb as [Hi' <-].
      assert (i = length bs) as -> by lia. split_and!; [done| |].
      * intros E. by apply nil_length_inv in E as ->.
      * intros j p Hj Hjp. rewrite lookup_app_l in Hjp by lia.
        rewrite last_lookup, Hj in Hp. cbn in Hp. by rewrite Hjp in Hp.
Qed.

Lemma same_digest_same_content (wf : State → Prop) (tx_wf : Transaction → Prop)
    `{!ChainStateLaws State wf tx_wf} b b' :
  block_ok b → block_ok b' → block_digest b = block_digest b' →
  same_content b b' ∨ ∃ m m', m ≠ m' ∧ sha512 m = sha512 m'.
Proof.
  intros Hb Hb' E. destruct (decide (block_preimage b = block_preimage b')) as [Ep|Ep].
  - left. by eapply block_preimage_inj.
  - right. by exists (block_preimage b), (block_preimage b').
Qed.

(** C3: The head of a chain commits to its whole history: if two nodes that
    started from any well-formed states have accepted histories whose last
    blocks have the same digest, the histories are the same block for block
    (up to signatures), or else a collision of SHA-512 has been found. *)
Theorem same_head_same_history (wf : State → Prop) (tx_wf : Transaction → Prop)
    `{!ChainStateLaws State wf tx_wf} s0 s0' bs bs' b b' c c' :
  wf s0 → wf s0' →
  Forall (λ b, tx_wf (block_transaction b)) (bs ++ [b]) →
  Forall (λ b, tx_wf (block_transaction b)) (bs' ++ [b']) →
  Forall block_ok (bs ++ [b]) → Forall block_ok (bs' ++ [b']) →
  Z.of_nat (length bs) + 1 < 2 ^ 64 → Z.of_nat (length bs') + 1 < 2 ^ 64 →
  accepted (initialize s0) (bs ++ [b]) c → accepted (initialize s0') (bs' ++ [b']) c' →
  block_digest b = block_digest b' →
  Forall2 same_content (bs ++ [b]) (bs' ++ [b']) ∨ ∃ m m', m ≠ m' ∧ sha512 m = sha512 m'.
Proof.
  revert b b' bs' c c'. induction bs as [|b0 bs IH] using rev_ind;
    intros b b' bs' c c' Hwf Hwf' Htx Htx' Hok Hok' Hlen Hlen' Ha Ha' E.
  all: pose proof (accepted_sequence wf tx_wf s0 _ _ _ Hwf Htx Ha) as Hs.
  all: pose proof (accepted_sequence wf tx_wf s0' _ _ _ Hwf' Htx' Ha') as Hs'.
  all: rewrite wrap_u64_small in Hs, Hs' by (unfold is_u64; lia).
  all: pose proof Hok as [Hok1 [Hokb _]%Forall_cons]%Forall_app.
  all: pose proof Hok' as [Hok1' [Hokb' _]%Forall_cons]%Forall_app.
  all: destruct (same_digest_same_content wf tx_wf b b' Hokb Hokb' E) as [Hsame|?]; [|by right].
  all: assert (block_sequence b = block_sequence b') as Hseq by apply Hsame.
  - destruct bs' as [|b1 bs']; [|cbn in *; lia]. left. constructor; [done|constructor].
  - destruct bs' as [|b0' bs' _] using rev_ind; [rewrite length_app in Hs; cbn in *; lia|].
    pose proof (accepted_link wf tx_wf s0 _ _ _ Hwf Htx Ha) as Hp.
    pose proof (accepted_link wf tx_wf s0' _ _ _ Hwf' Htx' Ha') as Hp'.
    rewrite last_snoc in Hp, Hp'. destruct Hp as [Hp _], Hp' as [Hp' _].
    destruct (accepted_prefix wf tx_wf s0 _ _ _ Hwf Htx Ha) as [c1 Ha1].
    destruct (accepted_prefix wf tx_wf s0' _ _ _ Hwf' Htx' Ha') as [c1' Ha1'].
    rewrite length_app in Hlen, Hlen'. cbn in Hlen, Hlen'.
    destruct (IH b0 b0' bs' c1 c1') as [Hall|?]; try done; [..|by right]; try lia.
    + by apply Forall_app in Htx as [? _].
    + by apply Forall_app in Htx' as [? _].
    + destruct Hsame as (_ & _ & Hprev & _). congruence.
    + left. apply Forall2_app; [done|]. constructor; [done|constructor].
Qed.
End history.

(** ** A worked example: a log of numbers as the state *)
#[local] Existing Instance toy_x509.
#[local] Existing Instance toy_crypto.
#[local] Existing Instance toy_rcgen.

Definition log_state : ChainState (list Z) := {|
  Transaction := Z;
  StateError := ();
  Exported := list Z;
  StateImportError := ();
  transaction_digest tx d := d ++ [tx];
  state_check s signer t tx := if tx <? 0 then Err () else Ok ();
  state_apply s signer t tx := Ok (tx :: s);
  state_revert s tx := drop 1 s;
  state_digest s d := d ++ s;
  state_export s := s;
  state_import s := Ok s;
|}.
#[local] Existing Instance log_state.

Lemma log_state_laws : ChainStateLaws (list Z) (λ _, True) (λ _, True).
Proof.
  split; [|done|done]. intros s signer t tx _ _ _. by exists (tx :: s).
Qed.

Definition log_signer : Credential := toy_credential.
Definition log_certificate : Certificate := credential_certificate log_signer.

(** Two blocks of the log, as the signer packages them. *)
Definition log_block (c : Chain (list Z)) (tx t : Z) : CheckedBlock Transaction :=
  match (package c (tx : @Transaction _ log_state) log_signer t).2 with
  | Ok cb => cb
  | _ => mkCheckedBlock (mkBlock 0 0 [] [] (mkSpkiHash []) (0 : @Transaction _ log_state) [])
  end.
Definition log_chain0 : Chain (list Z) := initialize ([] : list Z).
Definition log_block1 : CheckedBlock Transaction := log_block log_chain0 5 500.
Definition log_chain1 : Chain (list Z) := mkChainOf (Some log_block1) [5].

Lemma log_check1 : check log_chain0 log_block1 log_certificate 600 = (log_chain0, Ok log_block1).
Proof. vm_compute. reflexivity. Defined.
Lemma log_apply1 : apply (E := ()) log_chain0 log_block1 = Ok log_chain1.
Proof. vm_compute. reflexivity. Defined.

Lemma log_accepted : accepted log_chain0 ([] ++ [as_unchecked log_block1]) log_chain1.
Proof.
  apply (accepted_snoc _ [] log_chain0 _ log_certificate 600 log_block1); [constructor|by rewrite log_check1|].
  by rewrite log_check1, <-log_apply1.
Qed.

Lemma check_keeps_chain_witness :
  (check log_chain1 log_block1 log_certificate 600).1 = log_chain1.
Proof. apply (@check_keeps_chain _ _ _ _ _ log_state_laws); exact I. Defined.

Lemma check_then_apply_witness :
  ∃ c', apply (E := ()) log_chain0 log_block1 = Ok c' ∧ True ∧
    last_block c' = Some log_block1 ∧ as_unchecked log_block1 = as_unchecked log_block1 ∧
    state_hash (chain_state c') = resulting_state log_block1 ∧ sequence c' = block_sequence log_block1.
Proof.
  refine (@check_then_apply _ _ _ _ _ log_state_laws () log_chain0 log_block1 log_certificate 600 log_block1 I I _).
  by rewrite log_check1.
Defined.

Lemma applied_block_not_replayable_witness :
  (check log_chain1 log_block1 log_certificate 700).2 = Err SequenceMismatch.
Proof. exact (applied_block_not_replayable log_chain0 log_block1 log_chain1 log_certificate 700 log_apply1). Defined.

Lemma package_accepted_witness :
  ∃ cb, package log_chain1 (6 : @Transaction _ log_state) log_signer 700 = (log_chain1, Ok cb) ∧
    check log_chain1 cb log_certificate 800 = (log_chain1, Ok cb) ∧
    block_transaction cb = 6 ∧ block_sequence cb = wrap_u64 (sequence log_chain1 + 1).
Proof.
  refine (@package_accepted _ _ _ toy_rcgen _ _ log_state_laws toy_crypto_laws log_chain1 6 log_signer 700 800
    I I _ _ _ _).
  - reflexivity.
  - reflexivity.
  - lia.
  - intros last [= <-]. vm_compute. discriminate.
Defined.

Lemma log_tx_ok (bs : list (UncheckedBlock Transaction)) : Forall (λ _, True) bs.
Proof. induction bs; constructor; done. Defined.

Lemma accepted_history_witness :
  sequence log_chain1 = 1 ∧ block_sequence log_block1 = 1.
Proof.
  destruct (@accepted_history _ _ _ _ _ log_state_laws [] ([] ++ [as_unchecked log_block1])
    log_chain1 I (log_tx_ok _) log_accepted) as [H1 H2].
  split; [exact H1|]. exact (proj1 (H2 0%nat log_block1 eq_refl)).
Defined.

Lemma same_head_same_history_witness :
  Forall2 same_content ([] ++ [as_unchecked log_block1]) ([] ++ [as_unchecked log_block1]) ∨
  ∃ m m', m ≠ m' ∧ sha512 m = sha512 m'.
Proof.
  assert (Forall block_ok ([] ++ [as_unchecked log_block1])) as Hok.
  { constructor; [|constructor]. unfold block_ok. split_and!; vm_compute; done. }
  refine (@same_head_same_history _ _ _ _ _ log_state_laws [] [] [] [] _ _ log_chain1 log_chain1
    I I (log_tx_ok _) (log_tx_ok _) Hok Hok _ _ log_accepted log_accepted eq_refl); vm_compute; reflexivity.
Defined.
