(* ===== verification/TrustStore.v ===== *)
(** * The trust store ([svalin_pki/src/trust_store.rs])

    The replicated set of certificates below one root: an instance of
    [ChainState], and the operations of [TrustStore] over the chain of its
    blocks.  A [HashMap] is a [gmap]; where the source iterates over one, the
    order is that of [map_to_list], and the theorems do not depend on it. *)
From S2P Require Import Prelude.
From S2P Require Import External.
From S2P Require Import Spki.
From S2P Require Import Toy.
From S2P Require Import Certificate.
From S2P Require Import CertChain.
From S2P Require Import Credential.
From S2P Require Import SecureChain.
From stdpp Require Import options.

Record State := mkState {
  state_root : RootCertificate;
  state_certificates : gmap SpkiHash Certificate;
}.

Definition state_initialize (root : RootCertificate) : State :=
  mkState root {[ spki_hash root := as_certificate root ]}.

Inductive StoreTransaction :=
  | Add (certificate : UnverifiedCertificate)
  | RemoveExpired (certificate : UnverifiedCertificate).

(** The bytes of the literals [b"add"] and [b"remove_expired"]. *)
Definition store_transaction_digest (self : StoreTransaction) (digest : list Z) : list Z :=
  match self with
  | Add certificate => (digest ++ str_bytes "add") ++ der certificate
  | RemoveExpired certificate => (digest ++ str_bytes "remove_expired") ++ der certificate
  end.

Inductive StoreError :=
  | SignerNotKnown
  | IssuerIsNotSigner
  | CertificateAlreadyExists
  | CertificateInvalid (e : SignatureVerificationError)
  | CertificateNotExpired
  | CertificateNotFound
  | CertificateDoesNotMatch.

Record ExportedState := mkExportedState {
  exported_root : UnverifiedCertificate;
  exported_certificates : list UnverifiedCertificate;
}.

Inductive InnerImportErr :=
  | RootError (e : UseAsRootError)
  | MissingIssuers (missing : list SpkiHash).

(** One round of the loop of [State::import]: [seen] tells for every hash met
    so far whether its certificate was met too. *)
Definition see_certificate (seen : gmap SpkiHash bool) (cert : UnverifiedCertificate) :
    gmap SpkiHash bool :=
  let seen := <[ spki_hash cert := true ]> seen in
  match seen !! issuer cert with
  | Some _ => seen
  | None => <[ issuer cert := false ]> seen
  end.

Definition store_import (exported : ExportedState) : result InnerImportErr State :=
  root ← map_err RootError (use_as_root (exported_root exported));
  let seen := foldl see_certificate ∅ (exported_certificates exported) in
  let missing := (map_to_list (filter (λ kv : SpkiHash * bool, kv.2 = false) seen)).*1 in
  if negb (bool_decide (missing = [])) then Err (MissingIssuers missing)
  else
    Ok (mkState root
          (foldl (λ m (c : UnverifiedCertificate), <[ spki_hash c := mark_as_trusted c ]> m) ∅ (exported_certificates exported))).

Definition store_export (self : State) : ExportedState :=
  mkExportedState (state_root self)
    ((λ c : Certificate, as_unverified c) <$> (map_to_list (state_certificates self)).*2).

Definition store_revert (self : State) (transaction : StoreTransaction) : State :=
  match transaction with
  | Add certificate =>
      mkState (state_root self) (delete (spki_hash certificate) (state_certificates self))
  | RemoveExpired certificate =>
      mkState (state_root self)
        (<[ spki_hash certificate := mark_as_trusted certificate ]> (state_certificates self))
  end.

(** The keys are sorted, so the digest does not depend on the iteration
    order; looking a key up again cannot fail. *)
Definition store_digest (self : State) (digest : list Z) : list Z :=
  let keys := merge_sort spki_le (map_to_list (state_certificates self)).*1 in
  foldl (λ d key,
      match (state_certificates self !! key : option Certificate) with
      | Some certificate => d ++ der certificate
      | None => d
      end)
    (digest ++ der (state_root self)) keys.

Section store.
Context `{X509, CR : Crypto, !Rcgen}.

Definition store_check (self : State) (signer : SpkiHash) (time : Z)
    (transaction : StoreTransaction) : result StoreError () :=
  '(signer : Certificate) ← ok_or (state_certificates self !! signer) SignerNotKnown;
  match transaction with
  | Add certificate =>
      if bool_decide (is_Some (state_certificates self !! spki_hash certificate)) then
        Err CertificateAlreadyExists
      else if bool_decide (spki_hash signer ≠ issuer certificate) then Err IssuerIsNotSigner
      else
        _ ← map_err CertificateInvalid (verify_signature certificate signer time);
        Ok ()
  | RemoveExpired certificate =>
      '(found_certificate : Certificate) ←
        ok_or (state_certificates self !! spki_hash certificate) CertificateNotFound;
      if negb (cert_eqb found_certificate certificate) then Err CertificateDoesNotMatch
      else
        match check_validity_at certificate time with
        | Ok _ => Err CertificateNotExpired
        | Err _ => Ok ()
        | Panic => Panic
        end
  end.

Definition store_apply (self : State) (signer : SpkiHash) (time : Z)
    (transaction : StoreTransaction) : result Empty_set State :=
  match transaction with
  | Add unverified_certificate =>
      '(signer : Certificate) ← expect (state_certificates self !! issuer unverified_certificate);
      '(certificate : Certificate) ← unwrap (verify_signature unverified_certificate signer time);
      Ok (mkState (state_root self)
            (<[ spki_hash certificate := certificate ]> (state_certificates self)))
  | RemoveExpired certificate =>
      Ok (mkState (state_root self) (delete (spki_hash certificate) (state_certificates self)))
  end.

#[global] Instance store_chain_state : ChainState State := {|
  Transaction := StoreTransaction;
  StateError := StoreError;
  Exported := ExportedState;
  StateImportError := InnerImportErr;
  transaction_digest := store_transaction_digest;
  state_check := store_check;
  state_apply := store_apply;
  state_revert := store_revert;
  state_digest := store_digest;
  state_export := store_export;
  state_import := store_import;
|}.

(** ** The operations of [TrustStore] *)
Record TrustStore := mkTrustStore { store_chain : Chain State }.

Record ExportedStore := mkExportedStore { exported_chain : ExportedChain State }.

Inductive CompleteCertChainError :=
  | NotFound (spki : SpkiHash)
  | CompleteAddCertificateError (e : AddCertificateError).

Definition ts_initialize (root : RootCertificate) : TrustStore :=
  mkTrustStore (initialize (state_initialize root)).

Definition ts_check (self : TrustStore) (block : UncheckedBlock StoreTransaction) (now : Z) :
    TrustStore * result (CheckBlockError StoreError) (CheckedBlock StoreTransaction) :=
  match state_certificates (chain_state (store_chain self)) !! block_signer block with
  | None => (self, Err (CheckInvalidTransaction SignerNotKnown))
  | Some certificate =>
      let '(chain, r) := check (store_chain self) block certificate now in
      (mkTrustStore chain, r)
  end.

Definition ts_apply {E} (self : TrustStore) (block : CheckedBlock StoreTransaction) :
    result E TrustStore :=
  chain ← apply (store_chain self) block;
  Ok (mkTrustStore chain).

Definition ts_add (self : TrustStore) (certificate : Certificate) (credential : Credential)
    (now : Z) : TrustStore * result (CreateBlockError StoreError) (CheckedBlock StoreTransaction) :=
  let '(chain, r) := package (store_chain self) (Add certificate) credential now in
  (mkTrustStore chain, r).

Definition ts_export (self : TrustStore) : ExportedStore := mkExportedStore (export (store_chain self)).

Definition ts_import (exported : ExportedStore) : result (ImportError InnerImportErr) TrustStore :=
  chain ← import (exported_chain exported);
  Ok (mkTrustStore chain).

Definition ts_get (self : TrustStore) (spki : SpkiHash) : option Certificate :=
  state_certificates (chain_state (store_chain self)) !! spki.

Definition ts_root (self : TrustStore) : RootCertificate := state_root (chain_state (store_chain self)).

(** The [while let] loop; [None] is running out of fuel. *)
Fixpoint complete_loop (fuel : nat) (self : TrustStore) (cert_chain : CertificateChainBuilder) :
    option (result CompleteCertChainError CertificateChainBuilder) :=
  match fuel with
  | O => None
  | S fuel =>
      match requested_issuer cert_chain with
      | Ok None => Some (Ok cert_chain)
      | Ok (Some issuer_spki) =>
          match ts_get self issuer_spki with
          | None => Some (Err (NotFound issuer_spki))
          | Some issuer =>
              match push_parent cert_chain issuer with
              | Ok cert_chain => complete_loop fuel self cert_chain
              | Err e => Some (Err (CompleteAddCertificateError e))
              | Panic => Some Panic
              end
          end
      | Err e => Some (Err e)
      | Panic => Some Panic
      end
  end.

Definition complete_certificate_chain (fuel : nat) (self : TrustStore)
    (cert_chain : CertificateChainBuilder) :
    option (result CompleteCertChainError UnverifiedCertificateChain) :=
  match complete_loop fuel self cert_chain with
  | Some r => Some (cert_chain ← r; unwrap (finish cert_chain))
  | None => None
  end.

Definition ts_sequence (self : TrustStore) : Z := sequence (store_chain self).
Definition ts_digest (self : TrustStore) : ChainDigest := chain_digest (store_chain self).
End store.

(** ** The state keeps the contract of a chain state *)
Section store_lemmas.
Context `{X509, CR : Crypto, !Rcgen}.
Implicit Types s : State.

(** Every certificate is filed under its SPKI hash and was parsed. *)
Definition store_wf s : Prop :=
  map_Forall (λ k (c : Certificate), spki_hash c = k ∧ parsed c) (state_certificates s).

(** The certificate of a transaction was parsed. *)
Definition store_tx_wf (tx : StoreTransaction) : Prop :=
  match tx with Add c | RemoveExpired c => parsed c end.

Lemma store_check_Add s signer t c u :
  store_check s signer t (Add c) = Ok u →
  ∃ p : Certificate, state_certificates s !! signer = Some p ∧
    state_certificates s !! spki_hash c = None ∧ spki_hash p = issuer c ∧
    verify_signature c p t = Ok (mkCertificate c).
Proof.
  unfold store_check. intros (p & Hp%ok_or_Ok & Hc)%bind_Ok.
  case_bool_decide as Hs; [done|]. case_bool_decide as Hi; [done|].
  apply bind_Ok in Hc as (v & Hv%map_err_Ok & _). exists p.
  pose proof (verify_signature_Ok _ _ _ _ Hv) as (-> & _).
  split_and!; [done|by apply eq_None_not_Some|done|done].
Qed.

Lemma store_check_RemoveExpired s signer t c u :
  store_check s signer t (RemoveExpired c) = Ok u →
  ∃ f : Certificate, is_Some (state_certificates s !! signer) ∧
    state_certificates s !! spki_hash c = Some f ∧ der f = der c ∧
    ∃ e, check_validity_at c t = Err e.
Proof.
  unfold store_check. intros (p & Hp%ok_or_Ok & Hc)%bind_Ok.
  apply bind_Ok in Hc as (f & Hf%ok_or_Ok & Hc). unfold cert_eqb in Hc.
  case_bool_decide as Hd; cbn in Hc; [|done].
  destruct (check_validity_at c t) eqn:Hv; [done| |done]. eauto 10.
Qed.

Lemma store_wf_lookup s k (c : Certificate) :
  store_wf s → state_certificates s !! k = Some c → spki_hash c = k ∧ parsed c.
Proof. intros Hs Hk. exact (Hs k c Hk). Qed.

Lemma store_apply_checked s signer t tx :
  store_wf s → store_tx_wf tx → store_check s signer t tx = Ok () →
  ∃ s', store_apply s signer t tx = Ok s' ∧ store_wf s' ∧ store_revert s' tx = s.
Proof.
  intros Hwf Htx Hc. destruct s as [r m], tx as [c|c].
  - apply store_check_Add in Hc as (p & Hp & Hnone & Hi & Hv). cbn [state_certificates] in *.
    pose proof (store_wf_lookup _ _ _ Hwf Hp) as [Hkey _].
    unfold store_apply. cbn [state_certificates state_root]. rewrite <-Hi, Hkey, Hp. cbn [expect mbind result_bind].
    rewrite Hv. cbn [unwrap mbind result_bind]. eexists. split; [done|]. split.
    + apply map_Forall_insert_2; [done|exact Hwf].
    + cbn. by rewrite delete_insert_id.
  - apply store_check_RemoveExpired in Hc as (f & _ & Hf & Hd & _). cbn [state_certificates] in *.
    eexists. split; [done|]. split.
    + apply map_Forall_delete. exact Hwf.
    + cbn. f_equal. rewrite insert_delete_eq. apply insert_id. rewrite Hf. f_equal.
      pose proof (store_wf_lookup _ _ _ Hwf Hf) as [_ Hpf].
      destruct f as [f]. unfold mark_as_trusted. f_equal. by apply parsed_eq.
Qed.

Lemma store_digest_app s d : store_digest s d = d ++ store_digest s [].
Proof.
  unfold store_digest. rewrite app_nil_l.
  generalize (merge_sort spki_le (map_to_list (state_certificates s)).*1). intros keys.
  assert (∀ a b, foldl (λ d0 key,
     match (state_certificates s !! key : option Certificate) with
     | Some certificate => d0 ++ der certificate | None => d0 end) (a ++ b) keys =
   a ++ foldl (λ d0 key,
     match (state_certificates s !! key : option Certificate) with
     | Some certificate => d0 ++ der certificate | None => d0 end) b keys) as H'.
  { induction keys as [|k keys IH]; intros a b; cbn; [done|].
    destruct (state_certificates s !! k); [|apply IH].
    rewrite <-IH. by rewrite app_assoc. }
  apply H'.
Qed.

#[global] Instance store_chain_state_laws : ChainStateLaws State store_wf store_tx_wf.
Proof.
  split.
  - exact store_apply_checked.
  - exact store_digest_app.
  - intros [c|c] d; cbn; by rewrite <-app_assoc.
Qed.

Lemma state_initialize_wf (root : RootCertificate) : parsed root → store_wf (state_initialize root).
Proof. intros Hr. apply map_Forall_singleton. by destruct root as [[]]. Qed.

(** ** Where the trust of the store comes from *)

(** A certificate derives from the root when it is the root, or has been
    verified under a certificate that derives from it. *)
Inductive derives (root : Certificate) : Certificate → Prop :=
  | derives_root : derives root root
  | derives_signed p c t :
      derives root p → verify_signature c p t = Ok (mkCertificate c) →
      derives root (mkCertificate c).

Definition store_trusted s : Prop :=
  map_Forall (λ _ (c : Certificate), derives (state_root s) c) (state_certificates s).

Lemma state_initialize_trusted root : store_trusted (state_initialize root).
Proof. apply map_Forall_singleton. constructor. Qed.

Lemma store_apply_trusted s signer t tx s' :
  store_trusted s → state_check s signer t tx = Ok () → state_apply s signer t tx = Ok s' →
  store_trusted s' ∧ state_root s' = state_root s.
Proof.
  intros Hs Hc Ha. destruct s as [r m], tx as [c|c]; cbn in Hc, Ha.
  - unfold store_apply in Ha. cbn [state_certificates state_root] in Ha.
    apply bind_Ok in Ha as (p & Hp%expect_Ok & Ha).
    apply bind_Ok in Ha as (v & Hv%unwrap_inv & [= <-]). split; [|done].
    pose proof (verify_signature_Ok _ _ _ _ Hv) as (-> & _).
    apply map_Forall_insert_2; [|exact Hs].
    eapply derives_signed; [|exact Hv]. exact (Hs _ _ Hp).
  - injection Ha as <-. split; [|done]. apply map_Forall_delete. exact Hs.
Qed.

(** Who adds a certificate and applies the block has it. *)
Lemma added_is_found (ts before ts' : TrustStore) (c : Certificate) credential now b {E} :
  ts_add ts c credential now = (before, Ok b) → ts_apply (E := E) before b = Ok ts' →
  ts_get ts' (spki_hash c) = Some c.
Proof.
  unfold ts_add, ts_apply, package. intros Hp Ha.
  destruct (state_check _ _ _ _) as [[]|e|]; [|done|done].
  destruct (state_apply _ _ _ _) as [applied|[]|] eqn:Happ; [|done]. injection Hp as <- <-.
  apply bind_Ok in Ha as (chain & Ha & [= <-]). unfold apply in Ha.
  apply bind_Ok in Ha as (s & Hs & Ha). case_bool_decide; [done|]. injection Ha as <-.
  assert (∃ state a t, store_apply state a t (Add c) = Ok s) as (state & a & t & Hs').
  { destruct (last_block (store_chain ts)); eexists _, _, _;
      cbn [as_unchecked sign_block block_transaction state_apply store_chain_state] in Hs;
      destruct (store_apply _ _ _ _) as [x|[]|] eqn:Hx; try done; injection Hs as <-; exact Hx. }
  unfold store_apply in Hs'.
  destruct (state_certificates _ !! issuer _) as [p|]; [|done]. cbn in Hs'.
  destruct (verify_signature _ _ _) as [v|e|] eqn:Hv; [|done|done]. cbn in Hs'. injection Hs' as <-.
  apply verify_signature_Ok in Hv as (-> & _). unfold ts_get. cbn. rewrite lookup_insert_eq. by destruct c.
Qed.

Lemma derives_type root c :
  derives root c → c = root ∨ certificate_type c ≠ Root ∧ certificate_type c ≠ Temporary.
Proof.
  intros [|p c' t _ Hv]; [by left|]. right. apply verify_signature_Ok in Hv as (_ & Hp & _).
  cbn. split; intros E; rewrite E in Hp; by destruct (certificate_type p).
Qed.
End store_lemmas.

(** ** Histories of a trust store *)
Section reachable.
Context `{X509, CR : Crypto, !Rcgen}.

(** The stores a node can reach from [root]: blocks are checked, and applied
    when the check accepts them. *)
Inductive reachable (root : RootCertificate) : TrustStore → Prop :=
  | reachable_init : reachable root (ts_initialize root)
  | reachable_block ts b now ts1 cb ts' :
      reachable root ts → store_tx_wf (block_transaction b) →
      ts_check ts b now = (ts1, Ok cb) → ts_apply (E := ()) ts1 cb = Ok ts' →
      reachable root ts'.

Lemma ts_check_apply_inv ts b now ts1 cb ts' :
  store_wf (chain_state (store_chain ts)) → store_tx_wf (block_transaction b) →
  ts_check ts b now = (ts1, Ok cb) → ts_apply (E := ()) ts1 cb = Ok ts' →
  ts1 = ts ∧ cb = mkCheckedBlock b ∧
  ∃ (cert : Certificate) s',
    ts_get ts (block_signer b) = Some cert ∧
    check_header (last_block (store_chain ts)) b cert now = Ok () ∧
    state_check (chain_state (store_chain ts)) (block_signer b) (block_time b) (block_transaction b) = Ok () ∧
    state_apply (chain_state (store_chain ts)) (block_signer b) (block_time b) (block_transaction b) = Ok s' ∧
    store_wf s' ∧ resulting_state b = state_hash s' ∧
    ts' = mkTrustStore (mkChainOf (Some cb) s').
Proof.
  intros Hwf Htx Hc Ha. unfold ts_check in Hc.
  destruct (state_certificates _ !! _) as [cert|] eqn:Hcert; [|done].
  pose proof (check_inv store_wf store_tx_wf (store_chain ts) b cert now Hwf Htx) as Hi.
  destruct (check (store_chain ts) b cert now) as [c r] eqn:Hck. injection Hc as <- ->. destruct Hi as [-> Hi].
  destruct (Hi cb eq_refl) as (-> & Hh & s' & Hs & Hwf' & Hd).
  split_and!; [by destruct ts|done|]. exists cert, s'.
  unfold ts_apply in Ha. cbn [store_chain] in Ha. rewrite (apply_checked_block _ _ _ Hs Hd) in Ha.
  injection Ha as <-. split_and!; try done.
  unfold check in Hck. rewrite Hh in Hck. destruct (state_check _ _ _ _) as [[]|e|]; done.
Qed.

Lemma reachable_inv (root : RootCertificate) ts :
  parsed root → reachable root ts →
  let c := store_chain ts in
  store_wf (chain_state c) ∧ store_trusted (chain_state c) ∧ state_root (chain_state c) = root ∧
  (∀ b, last_block c = Some b → resulting_state b = state_hash (chain_state c)).
Proof.
  intros Hp. induction 1 as [|ts b now ts1 cb ts' Hr IH Htx Hc Ha]; cbn zeta in *.
  - split_and!; [by apply state_initialize_wf|apply state_initialize_trusted|done|done].
  - destruct IH as (Hwf & Ht & Hroot & _).
    destruct (ts_check_apply_inv _ _ _ _ _ _ Hwf Htx Hc Ha) as
      (-> & -> & cert & s' & _ & _ & Hck & Hs & Hwf' & Hd & ->).
    destruct (store_apply_trusted _ _ _ _ _ Ht Hck Hs) as [Ht' Hroot']. cbn.
    split_and!; [done|done|congruence|]. by intros ? [= <-].
Qed.

(** A checked transaction can be applied without unwinding, keeps every
    certificate filed under its own hash, and [revert] then restores the
    state exactly: this is what [package] and [check] rely on. *)
Theorem revert_undoes_apply (s : State) signer t tx :
  store_wf s → store_tx_wf tx → state_check s signer t tx = Ok () →
  ∃ s', state_apply s signer t tx = Ok s' ∧ store_wf s' ∧ state_revert s' tx = s.
Proof. apply store_apply_checked. Qed.

(** C13: In every store a node can reach from a root, each certificate is
    filed under its own SPKI hash, is the root or has been verified, through
    a path of verified certificates, under the root, and no second root and
    no temporary certificate ever enters. *)
Theorem reachable_store_trusted (root : RootCertificate) ts k c :
  parsed root → reachable root ts → ts_get ts k = Some c →
  spki_hash c = k ∧ derives (ts_root ts) c ∧ ts_root ts = root ∧
  (c = as_certificate root ∨ certificate_type c ≠ Root ∧ certificate_type c ≠ Temporary).
Proof.
  intros Hp Hr Hk. destruct (reachable_inv root ts Hp Hr) as (Hwf & Ht & Hroot & _).
  destruct (store_wf_lookup _ _ _ Hwf Hk) as [Hkey _]. pose proof (Ht k c Hk) as Hd.
  unfold ts_root. cbn in Hd. rewrite Hroot in *. split_and!; [done|done|done|].
  by apply derives_type.
Qed.

(** C19: Only certificates of the store change the store: a block is accepted
    only if its signer is stored, its signature verifies under the stored
    certificate's key, and, for a certificate added, that certificate was
    not stored and names the signer as its issuer. *)
Theorem accepted_block_authorised (root : RootCertificate) ts b now ts1 cb :
  parsed root → reachable root ts → store_tx_wf (block_transaction b) →
  ts_check ts b now = (ts1, Ok cb) →
  ∃ signer : Certificate,
    ts_get ts (block_signer b) = Some signer ∧ spki_hash signer = block_signer b ∧
    ed25519_verify (public_key signer) (block_digest b) (signature b) = true ∧
    block_time b ≤ now ∧
    (∀ c, block_transaction b = Add c →
      ts_get ts (spki_hash c) = None ∧ issuer c = spki_hash signer ∧
      may_be_parent_of (certificate_type signer) (certificate_type c) = true ∧
      check_validity_at c (block_time b) = Ok ()).
Proof.
  intros Hp Hr Htx Hc. destruct (reachable_inv root ts Hp Hr) as (Hwf & _).
  unfold ts_check in Hc. destruct (state_certificates _ !! _) as [signer|] eqn:Hs; [|done].
  exists signer. destruct (store_wf_lookup _ _ _ Hwf Hs) as [Hkey _].
  destruct (check (store_chain ts) b signer now) as [c r] eqn:Hck. injection Hc as <- ->.
  unfold check in Hck. destruct (check_header _ _ _ _) as [[]|e|] eqn:Hh; [|done|done].
  apply check_header_Ok in Hh as (_ & Ht & _ & Hv). split_and!; [done|done|done|done|].
  intros d Htxd. destruct (state_check _ _ _ _) as [[]|e|] eqn:Hst; [|done|done].
  change (store_check (chain_state (store_chain ts)) (block_signer b) (block_time b)
    (block_transaction b) = Ok ()) in Hst.
  rewrite Htxd in Hst. apply store_check_Add in Hst as (p & Hp' & Hnone & Hi & Hver).
  cbn in Hp'. rewrite Hs in Hp'. injection Hp' as <-.
  apply verify_signature_Ok in Hver as (_ & Hmay & Hval & _). done.
Qed.
End reachable.

(** ** Export and import *)
Lemma see_certificate_lookup seen (c : UnverifiedCertificate) k :
  see_certificate seen c !! k =
  if decide (k = spki_hash c) then Some true
  else match seen !! k with
       | Some b => Some b
       | None => if decide (k = issuer c) then Some false else None
       end.
Proof.
  unfold see_certificate. destruct (decide (k = spki_hash c)) as [->|Hk].
  - destruct (decide (issuer c = spki_hash c)) as [->|Hi].
    + by rewrite !lookup_insert_eq.
    + rewrite lookup_insert_ne by done. destruct (seen !! issuer c) eqn:Hs.
      * by rewrite lookup_insert_eq.
      * by rewrite lookup_insert_ne, lookup_insert_eq by done.
  - destruct (decide (k = issuer c)) as [->|Hi].
    + rewrite lookup_insert_ne by done. destruct (seen !! issuer c) eqn:Hs.
      * by rewrite lookup_insert_ne, Hs by done.
      * by rewrite lookup_insert_eq.
    + destruct (<[spki_hash c:=true]> seen !! issuer c) eqn:Hs.
      * rewrite lookup_insert_ne by done. by destruct (seen !! k).
      * rewrite !lookup_insert_ne by done. by destruct (seen !! k).
Qed.

Lemma foldl_see_lookup seen (l : list UnverifiedCertificate) k :
  foldl see_certificate seen l !! k =
  if decide (k ∈ (λ c : UnverifiedCertificate, spki_hash c) <$> l) then Some true
  else match seen !! k with
       | Some b => Some b
       | None => if decide (k ∈ (λ c : UnverifiedCertificate, issuer c) <$> l) then Some false else None
       end.
Proof.
  revert seen. induction l as [|c l IH]; intros seen; cbn [foldl].
  - rewrite decide_False by (intros Hk; by apply elem_of_nil in Hk). by destruct (seen !! k).
  - rewrite IH, see_certificate_lookup, !fmap_cons.
    repeat case_decide; destruct (seen !! k); try done; exfalso;
      repeat match goal with H : context [_ ∈ _ :: _] |- _ => rewrite elem_of_cons in H end; tauto.
Qed.

(** The certificates of [l] as the map [import] builds from them. *)
Lemma foldl_insert_list_to_map (l : list UnverifiedCertificate) (m : gmap SpkiHash Certificate) :
  foldl (λ m (c : UnverifiedCertificate), <[ spki_hash c := mark_as_trusted c ]> m) m l =
  list_to_map ((λ c : UnverifiedCertificate, (spki_hash c, mark_as_trusted c)) <$> reverse l) ∪ m.
Proof.
  revert m. induction l as [|c l IH]; intros m; cbn [foldl]; [cbn; by rewrite map_empty_union|].
  rewrite IH, reverse_cons, fmap_app, list_to_map_app. cbn.
  rewrite <-map_union_assoc. f_equal. by rewrite insert_empty, insert_union_singleton_l.
Qed.

Lemma import_certificates (m : gmap SpkiHash Certificate) (l : list UnverifiedCertificate) :
  map_Forall (λ k (c : Certificate), spki_hash c = k) m →
  l ≡ₚ (λ c : Certificate, as_unverified c) <$> (map_to_list m).*2 →
  foldl (λ m (c : UnverifiedCertificate), <[ spki_hash c := mark_as_trusted c ]> m) ∅ l = m.
Proof.
  intros Hm Hl. rewrite foldl_insert_list_to_map, map_union_empty.
  assert ((λ c : UnverifiedCertificate, (spki_hash c, mark_as_trusted c)) <$> reverse l ≡ₚ map_to_list m) as Hp.
  { rewrite reverse_Permutation, Hl, <-!list_fmap_compose.
    rewrite <-(list_fmap_id (map_to_list m)) at 2. apply Permutation_refl', list_fmap_ext.
    intros i [k c] Hi. apply list_elem_of_lookup_2, elem_of_map_to_list in Hi.
    cbn. rewrite (Hm k c Hi). by destruct c. }
  transitivity (list_to_map (map_to_list m) : gmap SpkiHash Certificate);
    [|apply list_to_map_to_list]. apply list_to_map_proper; [|exact Hp].
  rewrite Hp. apply NoDup_fst_map_to_list.
Qed.

(** Every issuer of a stored certificate is stored. *)
Definition store_closed (s : State) : Prop :=
  map_Forall (λ _ (c : Certificate), is_Some (state_certificates s !! issuer c)) (state_certificates s).

Lemma missing_empty s (l : list UnverifiedCertificate) :
  map_Forall (λ k (c : Certificate), spki_hash c = k) (state_certificates s) → store_closed s →
  l ≡ₚ (λ c : Certificate, as_unverified c) <$> (map_to_list (state_certificates s)).*2 →
  (map_to_list (filter (λ kv : SpkiHash * bool, kv.2 = false) (foldl see_certificate ∅ l))).*1 = [].
Proof.
  intros Hm Hcl Hl.
  assert (filter (λ kv : SpkiHash * bool, kv.2 = false) (foldl see_certificate ∅ l) = ∅) as ->;
    [|by rewrite map_to_list_empty].
  apply map_empty_filter. intros k [] Hk; cbn; [done|]. intros _.
  rewrite foldl_see_lookup in Hk. case_decide as Hne; [done|]. rewrite lookup_empty in Hk.
  case_decide as Hc; [|done]. apply list_elem_of_fmap in Hc as (c & -> & Hc).
  rewrite Hl in Hc. apply list_elem_of_fmap in Hc as (c' & -> & Hc).
  apply list_elem_of_fmap in Hc as ([k c''] & -> & Hc). apply elem_of_map_to_list in Hc.
  destruct (Hcl _ _ Hc) as [p Hp]. cbn in *. apply Hne. rewrite <-(Hm _ _ Hp).
  apply (list_elem_of_fmap_2' _ _ (as_unverified p)); [|done]. rewrite Hl.
  apply list_elem_of_fmap_2. apply (list_elem_of_fmap_2' snd _ (issuer c'', p)); [|done].
  by apply elem_of_map_to_list.
Qed.

Section export_import.
Context `{X509, CR : Crypto, !Rcgen}.

Lemma import_permuted_state s (root : RootCertificate) (l : list UnverifiedCertificate) :
  store_wf s → store_closed s → state_root s = root → certificate_type root = Root →
  l ≡ₚ (λ c : Certificate, as_unverified c) <$> (map_to_list (state_certificates s)).*2 →
  store_import (mkExportedState root l) = Ok s.
Proof.
  intros Hwf Hcl Hroot Ht Hl.
  assert (map_Forall (λ k (c : Certificate), spki_hash c = k) (state_certificates s)) as Hm.
  { intros k c Hk. by destruct (Hwf k c Hk). }
  unfold store_import. cbn [exported_root exported_certificates].
  unfold use_as_root. rewrite (bool_decide_true (certificate_type _ = Root)) by done. cbn [map_err mbind result_bind].
  rewrite (missing_empty s l Hm Hcl Hl), bool_decide_true by done. cbn [negb].
  rewrite (import_certificates _ l Hm Hl). f_equal. subst root. destruct s as [[[r]] m]. done.
Qed.

(** A store survives export and import: when every issuer of a stored
    certificate is itself stored, importing the export of any reachable
    store, its certificates listed in any order, gives the same chain, so the
    same sequence, the same last block and the same digest. *)
Theorem ts_import_export (root : RootCertificate) ts (l : list UnverifiedCertificate) :
  parsed root → certificate_type root = Root → reachable root ts →
  store_closed (chain_state (store_chain ts)) →
  l ≡ₚ exported_certificates (exported_state (exported_chain (ts_export ts))) →
  ts_import (mkExportedStore (mkExportedChain (mkExportedState (ts_root ts) l)
    (exported_last_block (exported_chain (ts_export ts))))) = Ok ts.
Proof.
  intros Hp Ht Hr Hcl Hl. destruct (reachable_inv root ts Hp Hr) as (Hwf & _ & Hroot & Hlast).
  unfold ts_import, import. cbn [exported_chain exported_state exported_last_block ts_export export store_chain].
  unfold ts_root. rewrite Hroot.
  cbn [state_import store_chain_state].
  rewrite (import_permuted_state (chain_state (store_chain ts)) root l Hwf Hcl Hroot Ht Hl).
  cbn [map_err mbind result_bind]. destruct ts as [[[lb|] s]]; cbn in *; [|done].
  rewrite (Hlast lb eq_refl), bool_decide_false by naive_solver. by destruct lb.
Qed.

(** What an export is imported as, if it is, is the store. *)
Lemma ts_import_exported (root : RootCertificate) ts ts' :
  parsed root → reachable root ts → ts_import (ts_export ts) = Ok ts' → ts' = ts.
Proof.
  intros Hp Hr. destruct (reachable_inv root ts Hp Hr) as (Hwf & _ & _ & Hlast).
  unfold ts_import. intros (chain & (s & Hs%map_err_Ok & Hc)%bind_Ok & [= <-])%bind_Ok.
  assert (s = chain_state (store_chain ts)) as ->.
  { cbn [state_import store_chain_state exported_state exported_chain ts_export export] in Hs.
    change (store_import (store_export (chain_state (store_chain ts))) = Ok s) in Hs.
    destruct (chain_state (store_chain ts)) as [[[r]] m] eqn:Hst. unfold store_import in Hs.
    apply bind_Ok in Hs as (root' & Hroot%map_err_Ok & Hs). unfold use_as_root in Hroot.
    destruct (bool_decide (certificate_type _ = Root)); [|done]. injection Hroot as <-.
    destruct (negb _); [done|]. injection Hs as <-. cbn. f_equal.
    apply (import_certificates m); [|done]. intros k c Hk. by destruct (Hwf k c Hk). }
  destruct ts as [[[lb|] st]]; cbn in *; [|by injection Hc as <-].
  destruct (bool_decide _); [done|]. injection Hc as <-. by destruct lb.
Qed.

(** Without the closedness the export is refused. *)
Lemma import_not_closed s (c : UnverifiedCertificate) :
  store_wf s → certificate_type (state_root s) = Root →
  c ∈ exported_certificates (store_export s) → state_certificates s !! issuer c = None →
  ∃ missing, store_import (store_export s) = Err (MissingIssuers missing) ∧ issuer c ∈ missing.
Proof.
  intros Hwf Ht Hc Hnone. unfold store_import. cbn [exported_root store_export].
  unfold use_as_root. rewrite (bool_decide_true (certificate_type _ = Root)) by done. cbn [map_err mbind result_bind].
  set (l := exported_certificates (store_export s)) in *.
  change (exported_certificates (mkExportedState _ _)) with l.
  assert ((issuer c, false) ∈
    map_to_list (filter (λ kv : SpkiHash * bool, kv.2 = false) (foldl see_certificate ∅ l))) as Hin.
  { apply elem_of_map_to_list, map_lookup_filter_Some. split; [|done].
    rewrite foldl_see_lookup, lookup_empty, decide_False, decide_True; [done| |].
    - by apply (list_elem_of_fmap_2' _ _ c).
    - intros Hd. apply list_elem_of_fmap in Hd as (d & Hcd & Hd). unfold l, store_export in Hd. cbn in Hd.
      apply list_elem_of_fmap in Hd as (d' & -> & Hd). apply list_elem_of_fmap in Hd as ([k d''] & -> & Hd).
      apply elem_of_map_to_list in Hd. destruct (Hwf _ _ Hd) as [Hk _]. cbn in *. congruence. }
  eexists. split; [|by apply (list_elem_of_fmap_2' fst _ _ _ Hin)].
  case_bool_decide as Hnil; [|done]. exfalso.
  apply (list_elem_of_fmap_2 fst) in Hin. rewrite Hnil in Hin. by apply elem_of_nil in Hin.
Qed.
End export_import.

(** ** Completing a certificate chain *)
Section complete.
Context `{X509, CR : Crypto, !Rcgen}.

(** The builder holds what it started from and certificates of the store. *)
Definition from_store (ts : TrustStore) (leaf : UnverifiedCertificate) (start : list UnverifiedCertificate)
    (b : CertificateChainBuilder) : Prop :=
  builder_ok leaf b ∧
  ∃ ps, certificates b = start ++ ps ∧
    Forall (λ p : UnverifiedCertificate, ts_get ts (spki_hash p) = Some (mkCertificate p)) ps.

Lemma from_store_length ts leaf start b :
  from_store ts leaf start b →
  (length (certificates b) ≤ length start + size (state_certificates (chain_state (store_chain ts))))%nat.
Proof.
  intros ((_ & _ & Hnd & _) & ps & Hc & Hps). rewrite Hc in Hnd |- *. rewrite length_app.
  apply Nat.add_le_mono_l. rewrite fmap_app in Hnd. apply NoDup_app in Hnd as (_ & _ & Hnd).
  rewrite <-length_map_to_list, <-(length_fmap fst), <-(length_fmap (λ c : UnverifiedCertificate, spki_hash c) ps).
  apply submseteq_length, NoDup_submseteq.
  - apply (NoDup_fmap_1 display_spki). by rewrite <-list_fmap_compose.
  - intros k Hk. apply list_elem_of_fmap in Hk as (p & -> & Hp).
    apply (list_elem_of_fmap_2' fst _ (spki_hash p, mkCertificate p)); [|done].
    apply elem_of_map_to_list. by apply (proj1 (Forall_forall _ _) Hps).
Qed.

Lemma from_store_start ts leaf b : builder_ok leaf b → from_store ts leaf (certificates b) b.
Proof. split; [done|]. exists []. rewrite app_nil_r. by split. Qed.

Lemma from_store_push ts leaf start b (p : Certificate) b' :
  from_store ts leaf start b → ts_get ts (spki_hash p) = Some p → push_parent b p = Ok b' →
  from_store ts leaf start b' ∧ length (certificates b') = S (length (certificates b)).
Proof.
  intros (Hb & ps & Hc & Hps) Hp Hpush. split; [split|].
  - by eapply push_parent_ok.
  - destruct (foldM_push_parent leaf [as_unverified p] b b' Hb) as [_ Hc'].
    { cbn. by rewrite Hpush. }
    exists (ps ++ [as_unverified p]). split; [by rewrite Hc', Hc, app_assoc|].
    apply Forall_app. split; [done|]. constructor; [by destruct p|constructor].
  - destruct (foldM_push_parent leaf [as_unverified p] b b' Hb) as [_ Hc'].
    { cbn. by rewrite Hpush. }
    rewrite Hc', length_app. cbn. lia.
Qed.

Lemma complete_loop_terminates ts leaf start n b :
  store_wf (chain_state (store_chain ts)) → from_store ts leaf start b →
  (length start + size (state_certificates (chain_state (store_chain ts))) < n + length (certificates b))%nat →
  ∃ r, (∀ k, complete_loop (n + k) ts b = Some r) ∧
    (∀ b', r = Ok b' → from_store ts leaf start b' ∧ requested_issuer (E := ()) b' = Ok None) ∧ r ≠ Panic.
Proof.
  intros Hwf. revert b. induction n as [|n IH]; intros b Hb Hlt.
  { apply from_store_length in Hb. lia. }
  destruct (builder_last leaf b (proj1 Hb)) as [c Hc].
  cbn [Nat.add complete_loop]. unfold requested_issuer. rewrite Hc. cbn [expect mbind result_bind].
  case_bool_decide as Ht.
  - exists (Ok b). split; [done|]. split; [|done]. intros b' [= <-]. split; [done|].
    rewrite Hc. cbn. by rewrite bool_decide_true.
  - destruct (ts_get ts (issuer c)) as [p|] eqn:Hp; [|by exists (Err (NotFound (issuer c)))].
    assert (ts_get ts (spki_hash p) = Some p) as Hp'.
    { by destruct (store_wf_lookup _ _ _ Hwf Hp) as [-> _]. }
    destruct (push_parent b p) as [b'|e|] eqn:Hpush.
    + destruct (from_store_push _ _ _ _ _ _ Hb Hp' Hpush) as [Hb' Hlen].
      apply IH; [done|lia].
    + by exists (Err (CompleteAddCertificateError e)).
    + exfalso. unfold push_parent in Hpush. rewrite Hc in Hpush. cbn in Hpush.
      by repeat case_bool_decide.
Qed.

Lemma complete_builder_spec ts leaf b :
  store_wf (chain_state (store_chain ts)) → builder_ok leaf b →
  ∃ r, (∀ k, complete_certificate_chain
               (S (size (state_certificates (chain_state (store_chain ts)))) + k) ts b = Some r) ∧
    r ≠ Panic ∧
    ∀ ch, r = Ok ch → ∃ ps, chain_certificates ch = reverse (certificates b ++ ps) ∧
      (∃ c : UnverifiedCertificate, last (certificates b ++ ps) = Some c ∧ certificate_type c = Root) ∧
      Forall (λ p : UnverifiedCertificate, ts_get ts (spki_hash p) = Some (mkCertificate p)) ps.
Proof.
  intros Hwf Hb0. generalize (from_store_start ts leaf b Hb0). generalize (certificates b) as start.
  intros start Hst.
  destruct (complete_loop_terminates ts leaf start (S (size (state_certificates (chain_state (store_chain ts)))))
    b Hwf Hst) as (r & Hr & Hok & Hpanic).
  { destruct Hst as (_ & ps & -> & _). rewrite length_app. lia. }
  destruct r as [b'|e|]; [| |done].
  - destruct (Hok b' eq_refl) as [(Hb & ps & Hc & Hps) Hreq].
    unfold requested_issuer in Hreq. apply bind_Ok in Hreq as (c & Hl%expect_Ok & Hreq).
    case_bool_decide as Ht; [|done].
    exists (Ok (mkUnverifiedChain (reverse (certificates b')))). split_and!; [|done|].
    + intros k. unfold complete_certificate_chain. rewrite Hr. cbn [mbind result_bind].
      unfold finish, is_finished. rewrite Hl. cbn [expect mbind result_bind]. by rewrite bool_decide_true.
    + intros ch [= <-]. exists ps. cbn [chain_certificates]. rewrite Hc in *. split_and!; eauto.
  - exists (Err e). split_and!; [|done|done]. intros k. unfold complete_certificate_chain. by rewrite Hr.
Qed.

Lemma complete_certificate_chain_spec ts leaf :
  store_wf (chain_state (store_chain ts)) →
  ∃ r, (∀ k, complete_certificate_chain
               (S (size (state_certificates (chain_state (store_chain ts)))) + k) ts (builder_new leaf) = Some r) ∧
    r ≠ Panic ∧
    ∀ ch, r = Ok ch → ∃ ps, chain_certificates ch = reverse (leaf :: ps) ∧
      (∃ c : UnverifiedCertificate, last (leaf :: ps) = Some c ∧ certificate_type c = Root) ∧
      Forall (λ p : UnverifiedCertificate, ts_get ts (spki_hash p) = Some (mkCertificate p)) ps.
Proof. intros Hwf. apply (complete_builder_spec ts leaf (builder_new leaf) Hwf), builder_new_ok. Qed.

(** Completing a chain always ends, after at most as many rounds as the
    store has certificates, plus one: any larger fuel gives the same outcome,
    which is never a panic. A completed chain runs from a root down to the
    leaf, and everything above the leaf is a stored certificate. *)
Theorem complete_certificate_chain_terminates ts leaf :
  store_wf (chain_state (store_chain ts)) →
  ∃ r, (∀ k, complete_certificate_chain
               (S (size (state_certificates (chain_state (store_chain ts)))) + k) ts (builder_new leaf) = Some r) ∧
    r ≠ Panic ∧
    ∀ ch, r = Ok ch → ∃ ps, chain_certificates ch = reverse (leaf :: ps) ∧
      (∃ c : UnverifiedCertificate, last (leaf :: ps) = Some c ∧ certificate_type c = Root) ∧
      Forall (λ p : UnverifiedCertificate, ts_get ts (spki_hash p) = Some (mkCertificate p)) ps.
Proof. apply complete_certificate_chain_spec. Qed.
End complete.

Section removal.
Context `{X509, CR : Crypto, !Rcgen}.

(** [RemoveExpired] is accepted from any stored signer exactly when the
    very certificate is stored and the block's time is outside its validity:
    after its end, but also before its start. *)
Theorem remove_expired_accepted s signer t c :
  store_wf s → parsed c → 0 ≤ not_before (validity c) ≤ not_after (validity c) →
  state_check s signer t (RemoveExpired c) = Ok () ↔
  is_Some (state_certificates s !! signer) ∧
  state_certificates s !! spki_hash c = Some (mkCertificate c) ∧
  (t < not_before (validity c) ∨ not_after (validity c) < t).
Proof.
  intros Hwf Hc Hv. cbn. split.
  - intros (f & Hs & Hf & Hd & e & He)%store_check_RemoveExpired. split_and!; [done| |].
    + rewrite Hf. f_equal. destruct (store_wf_lookup _ _ _ Hwf Hf) as [_ Hpf].
      destruct f as [f]. f_equal. by apply parsed_eq.
    + destruct (decide (t < not_before (validity c) ∨ not_after (validity c) < t)); [done|].
      assert (check_validity_at c t = Ok ()) by (apply check_validity_at_Ok; lia). congruence.
  - intros ([p Hp] & Hf & Ht). unfold store_check. rewrite Hp. cbn [ok_or mbind result_bind].
    rewrite Hf. cbn [ok_or mbind result_bind]. unfold cert_eqb. rewrite bool_decide_true by done. cbn [negb].
    destruct (check_validity_at c t) as [[]|e|] eqn:Hck; [|done|].
    + apply check_validity_at_Ok in Hck. lia.
    + unfold check_validity_at, timestamp_u64 in Hck.
      rewrite (proj2 (Z.ltb_ge (not_before _) 0)) in Hck by lia. cbn in Hck.
      destruct (t <? not_before (validity c)); [done|].
      rewrite (proj2 (Z.ltb_ge (not_after _) 0)) in Hck by lia. cbn in Hck. by destruct (t >? _).
Qed.
End removal.

(** ** Worked examples *)
#[local] Existing Instance toy_x509.
#[local] Existing Instance toy_crypto.
#[local] Existing Instance toy_rcgen.

Definition root_credential : Credential :=
  mkCredential (toy_keypair 1) (mkCertificate toy_root).
Definition toy_store0 : TrustStore := ts_initialize toy_root_certificate.
Definition toy_add_block : CheckedBlock StoreTransaction :=
  match (ts_add toy_store0 (mkCertificate toy_user) root_credential 500).2 with
  | Ok cb => cb
  | _ => mkCheckedBlock (mkBlock 0 0 [] [] (mkSpkiHash []) (Add toy_user) [])
  end.
Definition toy_state1 : State :=
  mkState toy_root_certificate
    (<[ spki_hash toy_user := mkCertificate toy_user ]> (state_certificates (state_initialize toy_root_certificate))).
Definition toy_store1 : TrustStore := mkTrustStore (mkChainOf (Some toy_add_block) toy_state1).

Lemma toy_root_parsed : parsed toy_root.
Proof. vm_compute. reflexivity. Qed.
Lemma toy_user_parsed : parsed toy_user.
Proof. vm_compute. reflexivity. Qed.

Lemma toy_add_checked : ts_check toy_store0 toy_add_block 600 = (toy_store0, Ok toy_add_block).
Proof. vm_compute. reflexivity. Qed.
Lemma toy_add_applied : ts_apply (E := ()) toy_store0 toy_add_block = Ok toy_store1.
Proof. vm_compute. reflexivity. Qed.

Lemma toy_store1_reachable : reachable toy_root_certificate toy_store1.
Proof.
  eapply reachable_block; [apply reachable_init| |exact toy_add_checked|exact toy_add_applied].
  exact toy_user_parsed.
Qed.

Lemma revert_undoes_apply_witness :
  ∃ s', state_apply (state_initialize toy_root_certificate) (spki_hash toy_root) 500 (Add toy_user) = Ok s' ∧
    store_wf s' ∧ state_revert s' (Add toy_user) = state_initialize toy_root_certificate.
Proof.
  apply revert_undoes_apply; [apply state_initialize_wf, toy_root_parsed|exact toy_user_parsed|].
  vm_compute. reflexivity.
Defined.

Lemma reachable_store_trusted_witness :
  spki_hash toy_user = spki_hash toy_user ∧ derives (ts_root toy_store1) (mkCertificate toy_user) ∧
  ts_root toy_store1 = toy_root_certificate ∧
  (mkCertificate toy_user = as_certificate toy_root_certificate ∨
   certificate_type toy_user ≠ Root ∧ certificate_type toy_user ≠ Temporary).
Proof.
  refine (reachable_store_trusted toy_root_certificate toy_store1 (spki_hash toy_user) (mkCertificate toy_user)
    toy_root_parsed toy_store1_reachable _). vm_compute. reflexivity.
Defined.

Lemma accepted_block_authorised_witness :
  ∃ signer : Certificate, ts_get toy_store0 (block_signer toy_add_block) = Some signer ∧
    spki_hash signer = block_signer toy_add_block.
Proof.
  destruct (accepted_block_authorised toy_root_certificate toy_store0 toy_add_block 600 toy_store0 toy_add_block
    toy_root_parsed (reachable_init _) toy_user_parsed toy_add_checked) as (signer & H1 & H2 & _).
  exists signer. split; [exact H1|exact H2].
Defined.

Lemma toy_state1_closed : store_closed toy_state1.
Proof.
  apply (bool_decide_unpack (map_Forall (λ _ (c : Certificate),
    is_Some (state_certificates toy_state1 !! issuer c)) (state_certificates toy_state1))).
  vm_compute. exact I.
Qed.

Lemma ts_import_export_witness :
  ts_import (mkExportedStore (mkExportedChain (mkExportedState (ts_root toy_store1)
      (exported_certificates (exported_state (exported_chain (ts_export toy_store1)))))
    (exported_last_block (exported_chain (ts_export toy_store1))))) = Ok toy_store1.
Proof.
  apply (ts_import_export toy_root_certificate toy_store1); [exact toy_root_parsed|reflexivity|
    exact toy_store1_reachable|exact toy_state1_closed|reflexivity].
Defined.

Lemma complete_certificate_chain_terminates_witness :
  ∃ r, (∀ k, complete_certificate_chain
          (S (size (state_certificates (chain_state (store_chain toy_store0)))) + k) toy_store0
          (builder_new toy_user) = Some r) ∧ r ≠ Panic.
Proof.
  destruct (complete_certificate_chain_terminates toy_store0 toy_user
    (state_initialize_wf toy_root_certificate toy_root_parsed)) as (r & Hr & Hp & _).
  exists r. split; [exact Hr|exact Hp].
Defined.

Lemma toy_state1_wf : store_wf toy_state1.
Proof. exact (proj1 (reachable_inv toy_root_certificate toy_store1 toy_root_parsed toy_store1_reachable)). Qed.

Lemma remove_expired_accepted_witness :
  state_check toy_state1 (spki_hash toy_root) 150 (RemoveExpired toy_user) = Ok ().
Proof.
  refine (proj2 (remove_expired_accepted toy_state1 (spki_hash toy_root) 150 toy_user toy_state1_wf
    toy_user_parsed _) _).
  - vm_compute. split; discriminate.
  - split_and!; [|vm_compute; reflexivity|left; vm_compute; reflexivity].
    apply (bool_decide_unpack (is_Some (state_certificates toy_state1 !! spki_hash toy_root))).
    vm_compute. exact I.
Defined.

(** Removing an expired user below whom an agent is still valid is accepted,
    and leaves a store whose export no node can import. *)
Definition toy_late_agent : UnverifiedCertificate := toy_certificate Agent 3 2 30000000.
Definition toy_state2 : State :=
  mkState toy_root_certificate
    (<[ spki_hash toy_late_agent := mkCertificate toy_late_agent ]> (state_certificates toy_state1)).

Lemma removal_breaks_export :
  ∃ s, state_check toy_state2 (spki_hash toy_root) 31536201 (RemoveExpired toy_user) = Ok () ∧
    state_apply toy_state2 (spki_hash toy_root) 31536201 (RemoveExpired toy_user) = Ok s ∧
    check_validity_at toy_late_agent 31536201 = Ok () ∧
    store_import (store_export s) = Err (MissingIssuers [spki_hash toy_user]).
Proof.
  eexists. split; [vm_compute; reflexivity|]. split; [vm_compute; reflexivity|].
  split; vm_compute; reflexivity.
Qed.
