(* ===== verification/TransactionStore.v ===== *)
(** * The stores of trust store blocks and their synchronisation

    [svalin_store/src/trust_store_transaction_store.rs] (clients and agents),
    [svalin_store/src/server_store/trust_store_transaction_store.rs] (the
    server, with its broadcast channel), the dispatcher and the handler of
    [svalin/src/shared/commands/update_trust_store.rs], and the loading of
    [svalin/src/util/trust_store.rs]. *)
From S2P Require Import Prelude.
From S2P Require Import External.
From S2P Require Import Spki.
From S2P Require Import Sql.
From S2P Require Import Toy.
From S2P Require Import Certificate.
From S2P Require Import Credential.
From S2P Require Import SecureChain.
From S2P Require Import TrustStore.
From stdpp Require Import options.

Abbreviation Block := (UncheckedBlock StoreTransaction).

(** ** The store of clients and agents *)
Record TxStore := mkTxStore {
  tx_rows : list (Z * list Z);
  tx_current : Z;
}.

Inductive TransactionStoreError :=
  | TxSqlxError (e : SqlxError)
  | TxSequenceMismatch
  | TxPostcardError (e : ExtError).

Definition tx_open (rows : list (Z * list Z)) : TxStore :=
  mkTxStore rows (as_u64 (default 1 (sql_max rows))).

Section client.
Context `{X509, CR : Crypto, !Rcgen, Postcard (UncheckedBlock StoreTransaction)}.

Definition tx_add (self : TxStore) (transaction : CheckedBlock StoreTransaction) :
    TxStore * result TransactionStoreError () :=
  if block_sequence transaction >? wrap_u64 (tx_current self + 1) then (self, Err TxSequenceMismatch)
  else
    let known : result TransactionStoreError bool :=
      if block_sequence transaction <=? tx_current self then
        data ← map_err TxSqlxError (sql_fetch_one (as_i64 (block_sequence transaction)) (tx_rows self));
        block ← map_err TxPostcardError (from_bytes data);
        Ok (block_eqb block transaction)
      else Ok false in
    match known with
    | Err e => (self, Err e)
    | Panic => (self, Panic)
    | Ok true => (self, Ok ())
    | Ok false =>
        match (data ← map_err TxPostcardError (to_stdvec (as_unchecked transaction));
               map_err TxSqlxError
                 (sql_insert (as_i64 (block_sequence transaction)) data (tx_rows self))) with
        | Err e => (self, Err e)
        | Panic => (self, Panic)
        | Ok rows => (mkTxStore rows (block_sequence transaction), Ok ())
        end
    end.

Definition tx_load_all_after (self : TxStore) (after : Z) : result ExtError (list Block) :=
  collectM from_bytes (sql_after (as_i64 after) (tx_rows self)).
End client.

(** ** The store of the server

    A broadcast channel is the queues of its receivers; sending appends to
    every one and fails when there is none.  The queues are not bounded: a
    receiver that lags a hundred blocks behind is not modelled. *)
Record ServerTxStore := mkServerTxStore {
  stx_rows : list (Z * list Z);
  stx_current : Z;
  stx_receivers : list (list Block);
}.

Inductive ServerTxError :=
  | StxSqlxError (e : SqlxError)
  | StxSequenceMismatch (expected actual : Z)
  | StxPostcardError (e : ExtError)
  | StxBroadcastError.

Definition stx_open (rows : list (Z * list Z)) : ServerTxStore :=
  mkServerTxStore rows (as_u64 (default 1 (sql_max rows))) [].

(** [broadcast::Sender::send]. *)
Definition broadcast_send (b : Block) (receivers : list (list Block)) : option (list (list Block)) :=
  match receivers with
  | [] => None
  | _ => Some ((λ q, q ++ [b]) <$> receivers)
  end.

Section server.
Context `{X509, CR : Crypto, !Rcgen, Postcard (UncheckedBlock StoreTransaction)}.

Definition add_and_broadcast (self : ServerTxStore) (transaction : CheckedBlock StoreTransaction) :
    ServerTxStore * result ServerTxError () :=
  let expected := wrap_u64 (stx_current self + 1) in
  if negb (block_sequence transaction =? expected) then
    (self, Err (StxSequenceMismatch expected (block_sequence transaction)))
  else
    match (data ← map_err StxPostcardError (to_stdvec (as_unchecked transaction));
           map_err StxSqlxError
             (sql_insert (as_i64 (block_sequence transaction)) data (stx_rows self))) with
    | Err e => (self, Err e)
    | Panic => (self, Panic)
    | Ok rows =>
        let stored := mkServerTxStore rows (block_sequence transaction) (stx_receivers self) in
        match broadcast_send transaction (stx_receivers self) with
        | None => (stored, Err StxBroadcastError)
        | Some receivers => (mkServerTxStore rows (block_sequence transaction) receivers, Ok ())
        end
    end.

(** The [while let] of [load_all_after]: the first queued block newer than
    the loaded ones is taken over, older ones are dropped. *)
Fixpoint take_newer (after : Z) (transactions queue : list Block) : list Block * list Block :=
  match queue with
  | [] => (transactions, [])
  | block :: queue =>
      if block_sequence block >? default after (block_sequence <$> last transactions)
      then (transactions ++ [block], queue)
      else take_newer after transactions queue
  end.

(** [queue] is what the new receiver got between the subscription and the
    end of the query. The result is the loaded blocks and the receiver. *)
Definition stx_load_all_after (rows : list (Z * list Z)) (after : Z) (queue : list Block) :
    result ExtError (list Block * list Block) :=
  transactions ← collectM from_bytes (sql_after (as_i64 after) rows);
  Ok (take_newer after transactions queue).
End server.

(** ** The messages of the protocol *)
Inductive TrustStoreUpdate :=
  | UpdateTransaction (block : Block)
  | UpToDate (digest : ChainDigest)
  | UpdateClose.

(** A node: its trust store and its store of blocks. *)
Section node.
Context `{X509, CR : Crypto, !Rcgen}.
Record Node := mkNode { node_trust : TrustStore; node_tx : TxStore }.
End node.

Inductive SyncError :=
  | CheckError (e : CheckBlockError StoreError)
  | AddError (e : TransactionStoreError)
  | WrongDigest
  | ClosedWhileCatchingUp
  | AlreadyUpToDate
  | ReadFileError
  | JsonError (e : ExtError)
  | SyncImportError (e : ImportError InnerImportErr)
  | LoadError (e : ExtError)
  | ReadError (e : ExtError).

Section sync.
Context `{X509, CR : Crypto, !Rcgen, Postcard (UncheckedBlock StoreTransaction)}.

(** [apply_block]: check, store, apply. *)
Definition apply_block (node : Node) (block : Block) (now : Z) : Node * result SyncError () :=
  match ts_check (node_trust node) block now with
  | (trust, Err e) => (mkNode trust (node_tx node), Err (CheckError e))
  | (trust, Panic) => (mkNode trust (node_tx node), Panic)
  | (trust, Ok cb) =>
      match tx_add (node_tx node) cb with
      | (tx, Err e) => (mkNode trust tx, Err (AddError e))
      | (tx, Panic) => (mkNode trust tx, Panic)
      | (tx, Ok _) =>
          match ts_apply trust cb with
          | Ok trust => (mkNode trust tx, Ok ())
          | Err e => (mkNode trust tx, Err e)
          | Panic => (mkNode trust tx, Panic)
          end
      end
  end.

(** The first loop of [UpdateTrustStore::dispatch], over the messages the
    session will read: up to the [UpToDate] message. [Ok] carries the
    messages left for the live loop. *)
Fixpoint catch_up (node : Node) (now : Z) (messages : list TrustStoreUpdate) :
    Node * result SyncError (list TrustStoreUpdate) :=
  match messages with
  | [] => (node, Err (ReadError ""%string))
  | UpdateTransaction block :: messages =>
      match apply_block node block now with
      | (node, Ok _) => catch_up node now messages
      | (node, Err e) => (node, Err e)
      | (node, Panic) => (node, Panic)
      end
  | UpToDate server_digest :: messages =>
      if bool_decide (server_digest ≠ ts_digest (node_trust node)) then (node, Err WrongDigest)
      else (node, Ok messages)
  | UpdateClose :: _ => (node, Err ClosedWhileCatchingUp)
  end.

(** The second loop; running out of messages is a failed read. *)
Fixpoint live (node : Node) (now : Z) (messages : list TrustStoreUpdate) : Node * result SyncError () :=
  match messages with
  | [] => (node, Err (ReadError ""%string))
  | UpdateTransaction block :: messages =>
      match apply_block node block now with
      | (node, Ok _) => live node now messages
      | (node, Err e) => (node, Err e)
      | (node, Panic) => (node, Panic)
      end
  | UpToDate _ :: _ => (node, Err AlreadyUpToDate)
  | UpdateClose :: _ => (node, Ok ())
  end.

Definition update_trust_store_dispatch (node : Node) (now : Z) (messages : list TrustStoreUpdate) :
    Node * result SyncError () :=
  match catch_up node now messages with
  | (node, Ok messages) => live node now messages
  | (node, Err e) => (node, Err e)
  | (node, Panic) => (node, Panic)
  end.

(** What the handler writes before its live loop: the loaded blocks, what is
    queued, and the digest of the server's own trust store. *)
Definition handler_backlog (digest : ChainDigest) (loaded queue : list Block) : list TrustStoreUpdate :=
  (UpdateTransaction <$> loaded) ++ (UpdateTransaction <$> queue) ++ [UpToDate digest].

Definition update_trust_store_handle (server : TrustStore) (rows : list (Z * list Z)) (request : Z)
    (queue : list Block) : result ExtError (list TrustStoreUpdate) :=
  '(current, receiver) ← stx_load_all_after rows request queue;
  Ok (handler_backlog (ts_digest server) current receiver).

(** [load_trust_store]: the snapshot in the file, then the stored blocks;
    the result is written back. *)
Definition replay_block (now : Z) (trust_store : TrustStore) (block : Block) :
    result SyncError TrustStore :=
  let '(trust_store, r) := ts_check trust_store block now in
  cb ← map_err CheckError r;
  ts_apply trust_store cb.

Definition load_trust_store (from_json : list Z → result ExtError ExportedStore)
    (to_json : ExportedStore → result ExtError (list Z)) (file : option (list Z)) (store : TxStore)
    (now : Z) : result SyncError (TrustStore * list Z) :=
  exported ← ok_or file ReadFileError;
  exported ← map_err JsonError (from_json exported);
  trust_store ← map_err SyncImportError (ts_import exported);
  transactions ← map_err LoadError (tx_load_all_after store (ts_sequence trust_store));
  trust_store ← foldM (replay_block now) trust_store transactions;
  exported ← map_err JsonError (to_json (ts_export trust_store));
  Ok (trust_store, exported).
End sync.

(** ** What a fresh store accepts *)
Section fresh.
Context `{X509, CR : Crypto, !Rcgen, Postcard (UncheckedBlock StoreTransaction)}.

(** A client or agent store that holds no block yet stands at sequence 1
    whatever snapshot its trust store was loaded from: it takes block 2
    only. A later block is a sequence mismatch, block 1 a missing row. *)
Theorem fresh_store_accepts (b : CheckedBlock StoreTransaction) :
  is_u64 (block_sequence b) →
  let '(store, r) := tx_add (tx_open []) b in
  (2 < block_sequence b → store = tx_open [] ∧ r = Err TxSequenceMismatch) ∧
  (block_sequence b ≤ 1 → store = tx_open [] ∧ r = Err (TxSqlxError RowNotFound)) ∧
  (∀ data, block_sequence b = 2 → to_stdvec (as_unchecked b) = Ok data →
    store = mkTxStore [(2, data)] 2 ∧ r = Ok ()).
Proof.
  intros Hb. unfold tx_add. cbn [tx_open tx_current tx_rows sql_max].
  change (as_u64 (default 1 (sql_max []))) with 1. change (wrap_u64 (1 + 1)) with 2.
  rewrite Z.gtb_ltb. destruct (2 <? block_sequence b) eqn:E1; bool_hyps; [split_and!; done || (intros; lia)|].
  destruct (block_sequence b <=? 1) eqn:E2; bool_hyps.
  - cbn. split_and!; done || (intros; lia).
  - assert (block_sequence b = 2) as E by lia. rewrite E.
    destruct (to_stdvec (as_unchecked b)) as [d|e|]; cbn;
      split_and!; try lia; intros data _ [= <-]; done.
Qed.
End fresh.

(** ** The server's store *)
Section server_lemmas.
Context `{X509, CR : Crypto, !Rcgen, Postcard (UncheckedBlock StoreTransaction)}.

(** Without a connected subscriber the server's store reports a failure
    after it has stored the block: the block stays, the sequence has moved
    on, and offering the same block again is a sequence mismatch. *)
Theorem broadcast_failure_keeps_block rows c b data :
  block_sequence (as_unchecked b) = c + 1 → 0 ≤ c < 2 ^ 63 - 1 →
  Forall (λ r, r.1 < c + 1) rows → to_stdvec (as_unchecked b) = Ok data →
  let store := mkServerTxStore (rows ++ [(c + 1, data)]) (c + 1) [] in
  add_and_broadcast (mkServerTxStore rows c []) b = (store, Err StxBroadcastError) ∧
  add_and_broadcast store b = (store, Err (StxSequenceMismatch (c + 2) (c + 1))).
Proof.
  intros Hs Hc Hrows Hdata. unfold add_and_broadcast. cbn [stx_current stx_rows stx_receivers].
  rewrite !wrap_u64_small by (unfold is_u64; lia). rewrite Hs, Z.eqb_refl. cbn [negb].
  rewrite Hdata. cbn [map_err mbind result_bind].
  assert (as_i64 (c + 1) = c + 1) as -> by (unfold as_i64; by rewrite (proj2 (Z.ltb_lt _ _)) by lia).
  rewrite sql_insert_last by done. cbn. split; [done|].
  rewrite (proj2 (Z.eqb_neq _ _)) by lia. cbn. do 3 f_equal. lia.
Qed.

(** The blocks numbered from [i], [n] of them, of a numbered family. *)
Definition numbered (blk : Z → Block) (i : Z) (n : nat) : list Block :=
  (λ k, blk (i + Z.of_nat k)) <$> seq 0 n.

Lemma numbered_S blk i n : numbered blk i (S n) = blk i :: numbered blk (i + 1) n.
Proof.
  unfold numbered. cbn. rewrite Z.add_0_r. f_equal.
  rewrite <-seq_shift, map_map. apply map_ext. intros k. f_equal. lia.
Qed.

Lemma numbered_app blk i n m : numbered blk i (n + m) = numbered blk i n ++ numbered blk (i + Z.of_nat n) m.
Proof.
  revert i. induction n as [|n IH]; intros i.
  - cbn. by rewrite Z.add_0_r.
  - rewrite Nat.add_succ_l, !numbered_S, IH. cbn. do 2 f_equal. f_equal. lia.
Qed.

Lemma last_numbered blk i n : last (numbered blk i (S n)) = Some (blk (i + Z.of_nat n)).
Proof.
  replace (S n) with (n + 1)%nat by lia. rewrite numbered_app. cbn. rewrite Z.add_0_r. apply last_snoc.
Qed.

Lemma take_newer_numbered blk after txs p q m :
  (∀ k, block_sequence (blk k) = k) →
  default after (block_sequence <$> last txs) = m → p ≤ m →
  let '(txs', rest) := take_newer after txs (numbered blk (p + 1) q) in
  txs' ++ rest = txs ++ numbered blk (m + 1) (Z.to_nat (p + Z.of_nat q - m)).
Proof.
  intros Hseq Hm. revert p. induction q as [|q IH]; intros p Hp.
  - cbn. replace (Z.to_nat _) with 0%nat by lia. done.
  - rewrite numbered_S. cbn [take_newer]. rewrite Hm, Hseq, Z.gtb_ltb.
    destruct (m <? p + 1) eqn:E; bool_hyps.
    + assert (p = m) as -> by lia. rewrite <-app_assoc. cbn [app].
      replace (Z.to_nat (m + Z.of_nat (S q) - m)) with (S q) by lia. by rewrite numbered_S.
    + specialize (IH (p + 1) ltac:(lia)).
      destruct (take_newer _ _ _) as [txs' rest]. rewrite IH. do 2 f_equal. f_equal. lia.
Qed.

(** A subscriber gets every block exactly once and in order: when the
    table holds the blocks up to number [m] and the receiver has queued the
    blocks from some number up to [m + 1] on, what is loaded followed by
    what is left in the receiver are the blocks after the requested one, up
    to the newest of both, whatever the overlap. *)
Theorem load_all_after_exactly_once (blk : Z → Block) rows after n p q :
  (∀ k, block_sequence (blk k) = k) →
  collectM from_bytes (sql_after (as_i64 after) rows) = Ok (numbered blk (after + 1) n) →
  p ≤ after + Z.of_nat n →
  ∃ txs rest,
    stx_load_all_after rows after (numbered blk (p + 1) q) = Ok (txs, rest) ∧
    txs ++ rest = numbered blk (after + 1) (Nat.max n (Z.to_nat (p + Z.of_nat q - after))).
Proof.
  intros Hseq Hrows Hp. unfold stx_load_all_after. rewrite Hrows. cbn [mbind result_bind].
  set (txs := numbered blk (after + 1) n).
  assert (default after (block_sequence <$> last txs) = after + Z.of_nat n) as Hm.
  { unfold txs. destruct n as [|n]; [cbn; lia|]. rewrite last_numbered. cbn. rewrite Hseq. lia. }
  pose proof (take_newer_numbered blk after txs p q _ Hseq Hm Hp) as Ht.
  destruct (take_newer after txs (numbered blk (p + 1) q)) as [txs' rest].
  exists txs', rest. split; [done|]. rewrite Ht. unfold txs.
  replace (after + Z.of_nat n + 1) with (after + 1 + Z.of_nat n) by lia.
  rewrite <-numbered_app. f_equal. lia.
Qed.
End server_lemmas.

(** ** Restarting a node *)
Section restart.
Context `{X509, CR : Crypto, !Rcgen, Postcard (UncheckedBlock StoreTransaction)}.

Lemma check_header_later (lb : option (CheckedBlock StoreTransaction)) (b : Block) (cert : Certificate) now now' :
  check_header lb b cert now = Ok () → block_time b ≤ now' → check_header lb b cert now' = Ok ().
Proof.
  intros Hh Ht. apply check_header_Ok in Hh as (Hl & _ & Hs & Hv).
  by apply check_header_intro.
Qed.

(** An accepted block is accepted again by the same store at any later time,
    with the same outcome. *)
Lemma ts_check_later ts b now ts1 cb :
  ts_check ts b now = (ts1, Ok cb) →
  cb = mkCheckedBlock b ∧ block_sequence b = wrap_u64 (ts_sequence ts + 1) ∧ block_time b ≤ now ∧
  ∀ now', block_time b ≤ now' → ts_check ts b now' = (ts1, Ok cb).
Proof.
  unfold ts_check. destruct (state_certificates _ !! _) as [cert|]; [|done].
  destruct (check (store_chain ts) b cert now) as [c r] eqn:Hck. intros [= <- ->].
  unfold check in Hck. destruct (check_header _ _ _ _) as [[]|e|] eqn:Hh; [|done|done].
  assert (∀ now', block_time b ≤ now' → check (store_chain ts) b cert now' = (c, Ok cb)) as Hlater.
  { intros now' Ht. unfold check. by rewrite (check_header_later _ _ _ _ now' Hh Ht). }
  apply check_header_Ok in Hh as (Hl & Ht & _).
  split_and!; [| |done|].
  - destruct (state_check _ _ _ _); [|done|done]. destruct (state_apply _ _ _ _) as [s|[]|]; [|done].
    case_bool_decide; [done|]. by injection Hck as _ <-.
  - unfold ts_sequence, sequence. destruct (last_block _); naive_solver.
  - intros now' Ht'. by rewrite (Hlater now' Ht').
Qed.

Lemma ts_apply_sequence {E} ts cb ts' :
  ts_apply (E := E) ts cb = Ok ts' → ts_sequence ts' = block_sequence cb.
Proof.
  unfold ts_apply, apply. intros (c & (s & _ & Hc)%bind_Ok & [= <-])%bind_Ok.
  case_bool_decide; [done|]. by injection Hc as <-.
Qed.

(** The store is where the trust store is, with no newer rows. *)
Definition node_in_step (node : Node) : Prop :=
  tx_current (node_tx node) = ts_sequence (node_trust node) ∧
  Forall (λ r, r.1 ≤ ts_sequence (node_trust node)) (tx_rows (node_tx node)).

(** A node that applies blocks one after the other, at the given times. *)
Inductive applied_blocks : Node → list Block → Node → Prop :=
  | applied_nil n : applied_blocks n [] n
  | applied_cons n b now n1 bs n' :
      apply_block n b now = (n1, Ok ()) → applied_blocks n1 bs n' → applied_blocks n (b :: bs) n'.

Lemma apply_block_Ok `{!PostcardLaws (UncheckedBlock StoreTransaction)} node b now node' :
  node_in_step node → 0 ≤ ts_sequence (node_trust node) < 2 ^ 63 - 1 →
  apply_block node b now = (node', Ok ()) →
  node_in_step node' ∧ block_time b ≤ now ∧
  ts_sequence (node_trust node') = ts_sequence (node_trust node) + 1 ∧
  (∃ data, from_bytes data = Ok b ∧
    tx_rows (node_tx node') = tx_rows (node_tx node) ++ [(ts_sequence (node_trust node) + 1, data)]) ∧
  ∀ now', block_time b ≤ now' → replay_block now' (node_trust node) b = Ok (node_trust node').
Proof.
  intros [Hcur Hrows] Hseq. unfold apply_block.
  destruct (ts_check (node_trust node) b now) as [ts1 [cb|e|]] eqn:Hc; [|done|done].
  destruct (ts_check_later _ _ _ _ _ Hc) as (-> & Hbs & Ht & Hlater).
  rewrite wrap_u64_small in Hbs by (unfold is_u64; lia).
  unfold tx_add. cbn [as_unchecked]. rewrite Hcur, Hbs, wrap_u64_small by (unfold is_u64; lia).
  rewrite Z.gtb_ltb, Z.ltb_irrefl. rewrite (proj2 (Z.leb_gt _ _)) by lia.
  destruct (to_stdvec b) as [data|e|] eqn:Hd; [|done|done]. cbn [map_err mbind result_bind].
  assert (as_i64 (ts_sequence (node_trust node) + 1) = ts_sequence (node_trust node) + 1) as ->
    by (unfold as_i64; by rewrite (proj2 (Z.ltb_lt _ _)) by lia).
  rewrite sql_insert_last.
  2:{ eapply Forall_impl; [exact Hrows|]. cbn. lia. }
  cbn [map_err]. destruct (ts_apply ts1 (mkCheckedBlock b)) as [ts2|e|] eqn:Ha; [|done|done].
  intros [= <-]. cbn [node_trust node_tx tx_rows tx_current].
  pose proof (ts_apply_sequence _ _ _ Ha) as Hs2. cbn [as_unchecked] in Hs2.
  split_and!; try done.
  - split; cbn [node_trust node_tx tx_rows tx_current]; [congruence|].
    rewrite Hs2, Hbs. apply Forall_app. split.
    + eapply Forall_impl; [exact Hrows|]. cbn. lia.
    + constructor; [cbn; lia|constructor].
  - congruence.
  - exists data. split; [by apply from_to_stdvec|done].
  - intros now' Ht'. unfold replay_block. rewrite (Hlater now' Ht'). cbn. exact Ha.
Qed.

Lemma sql_after_all {A} (k : Z) (rows : list (Z * A)) :
  Forall (λ r, k < r.1) rows → sql_after k rows = rows.*2.
Proof.
  intros Hall. unfold sql_after. f_equal. induction Hall as [|r rows Hr Hrows IH]; [done|].
  rewrite filter_cons_True by done. by rewrite IH.
Qed.

Lemma sql_after_none {A} (k : Z) (rows : list (Z * A)) :
  Forall (λ r, r.1 ≤ k) rows → sql_after k rows = [].
Proof.
  intros Hall. unfold sql_after. induction Hall as [|r rows Hr Hrows IH]; [done|].
  rewrite filter_cons_False by lia. by rewrite IH.
Qed.

Lemma applied_blocks_rows `{!PostcardLaws (UncheckedBlock StoreTransaction)} node bs node' now' :
  applied_blocks node bs node' → node_in_step node → 0 ≤ ts_sequence (node_trust node) →
  ts_sequence (node_trust node) + Z.of_nat (length bs) < 2 ^ 63 →
  Forall (λ b : Block, block_time b ≤ now') bs →
  ∃ new, tx_rows (node_tx node') = tx_rows (node_tx node) ++ new ∧
    Forall (λ r, ts_sequence (node_trust node) < r.1) new ∧
    collectM from_bytes new.*2 = Ok bs ∧
    foldM (replay_block now') (node_trust node) bs = Ok (node_trust node').
Proof.
  induction 1 as [n|n b now n1 bs n' Hb Hbs IH]; intros Hstep Hseq Hlen Htimes.
  - exists []. rewrite app_nil_r. repeat split; constructor.
  - cbn [length] in Hlen. apply Forall_cons in Htimes as [Htb Htimes].
    destruct (apply_block_Ok _ _ _ _ Hstep ltac:(lia) Hb) as (Hstep' & _ & Hs1 & (d & Hd & Hr) & Hrep).
    destruct (IH Hstep' ltac:(lia) ltac:(lia) Htimes) as (new & Hnew & Hall & Hcol & Hfold).
    exists ((ts_sequence (node_trust n) + 1, d) :: new). split_and!.
    + by rewrite Hnew, Hr, <-app_assoc.
    + constructor; [cbn; lia|]. eapply Forall_impl; [exact Hall|]. cbn. lia.
    + cbn. rewrite Hd. cbn. by rewrite Hcol.
    + cbn. rewrite Hrep by done. cbn. exact Hfold.
Qed.

(** A node recovers its state after a restart: whenever the file holds a
    snapshot of an earlier trust store and the node has applied blocks since,
    loading the snapshot and replaying the stored blocks gives exactly the
    trust store the node had, at any clock that is not behind the blocks. *)
Theorem restart_recovers `{!PostcardLaws (UncheckedBlock StoreTransaction)}
    from_json to_json file exported node bs node' now :
  from_json file = Ok exported → ts_import exported = Ok (node_trust node) →
  node_in_step node → 0 ≤ ts_sequence (node_trust node) →
  ts_sequence (node_trust node) + Z.of_nat (length bs) < 2 ^ 63 →
  applied_blocks node bs node' → Forall (λ b : Block, block_time b ≤ now) bs →
  is_ok (to_json (ts_export (node_trust node'))) = true →
  ∃ file', load_trust_store from_json to_json (Some file) (node_tx node') now =
             Ok (node_trust node', file') ∧ to_json (ts_export (node_trust node')) = Ok file'.
Proof.
  intros Hfile Himp Hstep Hseq Hlen Hbs Htimes Hjson.
  destruct (applied_blocks_rows _ _ _ now Hbs Hstep Hseq Hlen Htimes) as (new & Hnew & Hall & Hcol & Hfold).
  destruct (to_json (ts_export (node_trust node'))) as [file'|e|] eqn:Hj; [|done|done].
  exists file'. split; [|done]. unfold load_trust_store. cbn [ok_or mbind result_bind].
  rewrite Hfile. cbn [map_err mbind result_bind]. rewrite Himp. cbn [map_err mbind result_bind].
  unfold tx_load_all_after. rewrite Hnew.
  assert (as_i64 (ts_sequence (node_trust node)) = ts_sequence (node_trust node)) as ->
    by (unfold as_i64; by rewrite (proj2 (Z.ltb_lt _ _)) by lia).
  assert (sql_after (ts_sequence (node_trust node)) (tx_rows (node_tx node) ++ new) = new.*2) as ->.
  { unfold sql_after. rewrite filter_app, fmap_app.
    change (sql_after (ts_sequence (node_trust node)) (tx_rows (node_tx node)) ++
            sql_after (ts_sequence (node_trust node)) new = new.*2).
    destruct Hstep as [_ Hrows]. by rewrite sql_after_none, sql_after_all. }
  rewrite Hcol. cbn [map_err mbind result_bind]. rewrite Hfold. cbn [mbind result_bind]. by rewrite Hj.
Qed.
End restart.

(** ** Worked examples *)
#[local] Existing Instance toy_x509.
#[local] Existing Instance toy_crypto.
#[local] Existing Instance toy_rcgen.

#[global] Instance StoreTransaction_eq_dec : EqDecision StoreTransaction.
Proof. solve_decision. Defined.
#[global] Instance UncheckedBlock_eq_dec `{EqDecision T} : EqDecision (UncheckedBlock T).
Proof. solve_decision. Defined.

(** An encoding that knows one block. *)
Definition postcard_one (b : Block) : Postcard Block := {|
  to_stdvec x := if decide (x = b) then Ok [1] else Err "unknown block"%string;
  from_bytes d := if decide (d = [1]) then Ok b else Err "unknown bytes"%string;
|}.

Lemma postcard_one_laws b : @PostcardLaws Block (postcard_one b).
Proof. split. intros x d. cbn. case_decide; [|done]. by intros [= <-]; subst. Qed.

#[local] Instance postcard_toy : Postcard Block := postcard_one toy_add_block.

Lemma fresh_store_accepts_witness :
  tx_add (tx_open []) (mkCheckedBlock (mkBlock 7 0 [] [] (mkSpkiHash []) (Add toy_user) [])) =
  (tx_open [], Err TxSequenceMismatch).
Proof.
  assert (is_u64 7) as H7 by (unfold is_u64; lia).
  pose proof (fresh_store_accepts (mkCheckedBlock (mkBlock 7 0 [] [] (mkSpkiHash []) (Add toy_user) []))
    H7) as Hf.
  destruct (tx_add _ _) as [store r]. destruct Hf as [Hf _].
  destruct (Hf eq_refl) as [-> ->]. reflexivity.
Defined.

Lemma broadcast_failure_keeps_block_witness :
  add_and_broadcast (mkServerTxStore [] 0 []) toy_add_block =
  (mkServerTxStore [(1, [1])] 1 [], Err StxBroadcastError).
Proof.
  refine (proj1 (broadcast_failure_keeps_block [] 0 toy_add_block [1] _ _ _ _)).
  - reflexivity.
  - lia.
  - constructor.
  - vm_compute. reflexivity.
Defined.

Definition toy_numbered (k : Z) : Block := mkBlock k 0 [] [] (mkSpkiHash []) (Add toy_user) [].

Lemma load_all_after_exactly_once_witness :
  ∃ txs rest, stx_load_all_after [] 4 (numbered toy_numbered 4 3) = Ok (txs, rest) ∧
    txs ++ rest = [toy_numbered 5; toy_numbered 6].
Proof.
  exact (load_all_after_exactly_once toy_numbered [] 4 0 3 3 (λ k, eq_refl) eq_refl ltac:(lia)).
Defined.

Definition toy_node0 : Node := mkNode toy_store0 (mkTxStore [] 0).
Definition toy_node1 : Node := mkNode toy_store1 (mkTxStore [(1, [1])] 1).

Lemma restart_recovers_witness :
  ∃ file', load_trust_store (λ _, Ok (ts_export toy_store0)) (λ _, Ok [8]) (Some [9])
             (node_tx toy_node1) 700 = Ok (toy_store1, file').
Proof.
  assert (apply_block toy_node0 toy_add_block 600 = (toy_node1, Ok ())) as Hb
    by (vm_compute; reflexivity).
  assert (ts_import (ts_export toy_store0) = Ok (node_trust toy_node0)) as Hi by (vm_compute; reflexivity).
  destruct (@restart_recovers toy_x509 toy_crypto postcard_toy (postcard_one_laws _)
    (λ _, Ok (ts_export toy_store0)) (λ _, Ok [8]) [9] (ts_export toy_store0) toy_node0
    [as_unchecked toy_add_block] toy_node1 700 eq_refl Hi) as (f & Hf & _).
  - split; [reflexivity|constructor].
  - vm_compute. discriminate.
  - vm_compute. reflexivity.
  - eapply applied_cons; [exact Hb|apply applied_nil].
  - constructor; [vm_compute; discriminate|constructor].
  - reflexivity.
  - exists f. exact Hf.
Defined.
