(* ===== verification/GroupId.v ===== *)
(** * MLS group identifiers ([svalin_pki/src/mls/group_id.rs])

    The groups of the program and the byte strings that name them in MLS. *)
From S2P Require Import Prelude.
From S2P Require Import External.
From S2P Require Import Spki.
From S2P Require Import Toy.
From stdpp Require Import options.

(** [openmls]'s [GroupId]: its bytes. *)
Abbreviation GroupId := (list Z).

Inductive SvalinGroupId :=
  | GlobalGroup
  | DeviceGroup (spki_hash : SpkiHash)
  | DeviceMetaGroup (spki_hash : SpkiHash).

#[global] Instance SvalinGroupId_eq_dec : EqDecision SvalinGroupId.
Proof. solve_decision. Defined.

Inductive ParseGroupIdError :=
  | WrongSliceLength
  | UnknownGroupType
  | MissingData
  | MissingGroupType.

(** [slice::split] on one separator: never empty. *)
Fixpoint split_on (sep : Z) (l : list Z) : list (list Z) :=
  match l with
  | [] => [[]]
  | c :: l =>
      if c =? sep then [] :: split_on sep l
      else match split_on sep l with
           | p :: ps => (c :: p) :: ps
           | [] => [[c]]
           end
  end.

(** The byte [b'/']. *)
Definition slash : Z := 47.

Section group_id.
Context `{Hex}.

Definition to_hex (self : SpkiHash) : list Z := hex_encode (as_slice self).

Definition from_hex (hex : list Z) : result () SpkiHash :=
  bytes ← map_err (λ _, ()) (hex_decode hex);
  spki_from_slice bytes.

Definition to_group_id (self : SvalinGroupId) : GroupId :=
  match self with
  | DeviceGroup spki_hash => str_bytes "device/" ++ to_hex spki_hash
  | DeviceMetaGroup spki_hash => str_bytes "meta/" ++ to_hex spki_hash
  | GlobalGroup => str_bytes "global"
  end.

Definition from_group_id (group_id : GroupId) : result ParseGroupIdError SvalinGroupId :=
  match split_on slash group_id with
  | [] => Err MissingGroupType
  | first :: parts =>
      if bool_decide (first = str_bytes "device") then
        match parts with
        | [] => Err MissingData
        | spki_hash :: _ =>
            spki_hash ← map_err (λ _, WrongSliceLength) (from_hex spki_hash);
            Ok (DeviceGroup spki_hash)
        end
      else if bool_decide (first = str_bytes "meta") then
        match parts with
        | [] => Err MissingData
        | spki_hash :: _ =>
            spki_hash ← map_err (λ _, WrongSliceLength) (from_hex spki_hash);
            Ok (DeviceMetaGroup spki_hash)
        end
      else if bool_decide (first = str_bytes "global") then Ok GlobalGroup
      else Err UnknownGroupType
  end.

(** The hash a group belongs to is a value of its type. *)
Definition group_wf (g : SvalinGroupId) : Prop :=
  match g with
  | GlobalGroup => True
  | DeviceGroup h | DeviceMetaGroup h => spki_wf h
  end.

Lemma split_on_no_sep sep l : sep ∉ l → split_on sep l = [l].
Proof.
  induction l as [|c l IH]; intros Hl; cbn; [done|].
  destruct (Z.eqb_spec c sep) as [->|]; [set_solver|]. by rewrite IH by set_solver.
Qed.

Lemma split_on_app sep l r : sep ∉ l → split_on sep (l ++ sep :: r) = l :: split_on sep r.
Proof.
  induction l as [|c l IH]; intros Hl; cbn; [by rewrite Z.eqb_refl|].
  destruct (Z.eqb_spec c sep) as [->|]; [set_solver|]. by rewrite IH by set_solver.
Qed.

Lemma hex_digits_no_slash s : Forall (λ c, is_Some (hex_digit c)) s → slash ∉ s.
Proof.
  intros Hs Hin. rewrite Forall_forall in Hs. destruct (Hs _ Hin) as [? E]. by vm_compute in E.
Qed.

(** The text of a hash in capitals: what [Display] prints. *)
Lemma hex_decode_display `{!HexLaws} h :
  spki_wf h → from_hex (display_spki_bytes h) = Ok h ∧ slash ∉ display_spki_bytes h.
Proof.
  intros [Hb Hlen]. unfold display_spki_bytes, from_hex.
  set (p := (λ b, (upper_hex_digit (b `div` 16), upper_hex_digit (b `mod` 16)))).
  assert (as_slice h ≫= byte_upper_hex = (p <$> as_slice h) ≫= λ p, [p.1; p.2]) as ->.
  { generalize (as_slice h). intros l. induction l as [|b l IH]; [done|]. cbn in *. by rewrite IH. }
  assert (∀ d, 0 ≤ d < 16 → hex_digit (upper_hex_digit d) = Some d) as Hd.
  { intros d Hd. exact (proj1 (upper_hex_digit_spec d Hd)). }
  assert (Forall2 (λ p x, ∃ h l, hex_digit p.1 = Some h ∧ hex_digit p.2 = Some l ∧
    x = h * 16 + l) (p <$> as_slice h) (as_slice h)) as Hp.
  { apply Forall2_fmap_l. rewrite <-(list_fmap_id (as_slice h)) at 2. apply Forall2_fmap_r.
    apply Forall_Forall2_diag. eapply Forall_impl; [exact Hb|]. intros b Hb'. cbn.
    destruct (byte_upper_hex_digits b Hb') as [H1 H2].
    eexists _, _. split_and!; [by apply Hd|by apply Hd|]. pose proof (Z.div_mod b 16). lia. }
  split.
  - rewrite (hex_decode_pairs _ _ Hp). cbn. unfold spki_from_slice.
    rewrite bool_decide_false by (intros E; by apply E). by destruct h.
  - apply hex_digits_no_slash. rewrite Forall_forall. intros c.
    rewrite list_elem_of_bind. intros (q & Hc & (b & -> & Hbin)%list_elem_of_fmap).
    destruct (byte_upper_hex_digits b (proj1 (Forall_forall _ _) Hb _ Hbin)) as [H1 H2].
    cbn in Hc. rewrite !elem_of_cons in Hc.
    destruct Hc as [->|[->|Hc]]; [by eexists; apply Hd..|].
    by apply elem_of_nil in Hc.
Qed.

Lemma hex_decode_to_hex `{!HexLaws} h :
  spki_wf h → from_hex (to_hex h) = Ok h ∧ slash ∉ to_hex h.
Proof.
  intros [Hb Hlen]. unfold to_hex, from_hex. split.
  - rewrite hex_decode_encode by done. cbn. unfold spki_from_slice.
    rewrite bool_decide_false by (intros E; by apply E). by destruct h.
  - apply hex_digits_no_slash, hex_encode_digits.
Qed.

(** What may follow the parts that are read: nothing, or a further part. *)
Definition id_tail (tail : list Z) : Prop := tail = [] ∨ ∃ rest, tail = slash :: rest.

Lemma split_on_tail s tail :
  slash ∉ s → id_tail tail → ∃ ps, split_on slash (s ++ tail) = s :: ps.
Proof.
  intros Hs [->|[r ->]]; [|by eexists; apply split_on_app].
  rewrite app_nil_r, split_on_no_sep by done. by eexists.
Qed.

(** Parsing an identifier whose second part names a hash. *)
Lemma from_group_id_parts s tail h :
  slash ∉ s → id_tail tail → from_hex s = Ok h →
  from_group_id (str_bytes "device/" ++ s ++ tail) = Ok (DeviceGroup h) ∧
  from_group_id (str_bytes "meta/" ++ s ++ tail) = Ok (DeviceMetaGroup h).
Proof.
  intros Hs Ht Hh. destruct (split_on_tail s tail Hs Ht) as [ps Hps].
  split; unfold from_group_id;
    [change (str_bytes "device/" ++ s ++ tail) with (str_bytes "device" ++ slash :: (s ++ tail))
    |change (str_bytes "meta/" ++ s ++ tail) with (str_bytes "meta" ++ slash :: (s ++ tail))];
    (rewrite split_on_app; [rewrite Hps|by vm_compute; set_solver]);
    cbn -[str_bytes]; rewrite Hh; done.
Qed.

(** A group is recovered from its identifier, so that different groups
    never share one. *)
Theorem group_id_roundtrip `{!HexLaws} g :
  group_wf g →
  from_group_id (to_group_id g) = Ok g ∧
  ∀ g', group_wf g' → to_group_id g' = to_group_id g → g' = g.
Proof.
  assert (∀ g, group_wf g → from_group_id (to_group_id g) = Ok g) as Hround.
  { intros [|h|h] Hg; [done|..]; destruct (hex_decode_to_hex h Hg) as [Hh Hs];
      destruct (from_group_id_parts _ [] h Hs (or_introl eq_refl) Hh) as [H1 H2];
      rewrite app_nil_r in H1, H2; done. }
  intros Hg. split; [by apply Hround|]. intros g' Hg' E.
  pose proof (Hround g Hg) as H1. rewrite <-E, (Hround g' Hg') in H1. congruence.
Qed.

(** Several identifiers stand for the same group: what follows the hash
    after a further slash is ignored, and so is the case of its digits. *)
Theorem group_id_aliases `{!HexLaws} h tail :
  spki_wf h → id_tail tail →
  from_group_id (to_group_id (DeviceGroup h) ++ tail) = Ok (DeviceGroup h) ∧
  from_group_id (to_group_id (DeviceMetaGroup h) ++ tail) = Ok (DeviceMetaGroup h) ∧
  from_group_id (str_bytes "device/" ++ display_spki_bytes h) = Ok (DeviceGroup h) ∧
  from_group_id (str_bytes "meta/" ++ display_spki_bytes h) = Ok (DeviceMetaGroup h).
Proof.
  intros Hh Ht. destruct (hex_decode_to_hex h Hh) as [H1 H2], (hex_decode_display h Hh) as [H3 H4].
  destruct (from_group_id_parts _ tail h H2 Ht H1) as [Ha Hb].
  destruct (from_group_id_parts _ [] h H4 (or_introl eq_refl) H3) as [Hc Hd].
  rewrite app_nil_r in Hc, Hd. unfold to_group_id. rewrite <-!app_assoc. done.
Qed.

End group_id.

(** ** Worked examples *)
Definition toy_hex_digit (d : Z) : Z := if d <? 10 then d + 48 else d + 87.

Definition toy_hex_byte (b : Z) : list Z :=
  [toy_hex_digit (b `div` 16 `mod` 16); toy_hex_digit (b `mod` 16)].

Fixpoint toy_hex_decode (s : list Z) : result ExtError (list Z) :=
  match s with
  | [] => Ok []
  | [_] => Err "odd length"%string
  | a :: b :: s =>
      h ← ok_or (hex_digit a) "digit"%string;
      l ← ok_or (hex_digit b) "digit"%string;
      r ← toy_hex_decode s;
      Ok (h * 16 + l :: r)
  end.

Definition toy_hex : Hex := {|
  hex_encode b := b ≫= toy_hex_byte;
  hex_decode := toy_hex_decode;
|}.

Lemma toy_hex_digit_spec d : 0 ≤ d < 16 → hex_digit (toy_hex_digit d) = Some d.
Proof.
  intros H. unfold toy_hex_digit, hex_digit.
  destruct (Z.ltb_spec d 10); [|destruct (Z.leb_spec (d + 87) 57), (Z.leb_spec (d + 87) 70); try lia];
    rewrite ?(proj2 (Z.leb_le _ _)) by lia; cbn; rewrite ?andb_false_r; cbn;
    rewrite ?(proj2 (Z.leb_le _ _)) by lia; cbn; f_equal; lia.
Qed.

Lemma toy_hex_laws : @HexLaws toy_hex.
Proof.
  assert (∀ s b, Forall2 (λ p x, ∃ h l, hex_digit p.1 = Some h ∧ hex_digit p.2 = Some l ∧
    x = h * 16 + l) s b → toy_hex_decode (s ≫= λ p, [p.1; p.2]) = Ok b) as Hpairs.
  { induction 1 as [|[x y] z s b (h & l & Hh & Hl & ->) _ IH]; [done|]. cbn in *.
    by rewrite Hh, Hl, IH. }
  split; cbn.
  - intros b. induction b as [|x b IH]; cbn; [constructor|].
    constructor; [|constructor; [|exact IH]]; eexists; apply toy_hex_digit_spec; apply Z.mod_pos_bound; lia.
  - induction b as [|x b IH]; intros Hb; [done|]. apply Forall_cons in Hb as [[Hx1 Hx2] Hb].
    cbn -[Z.mul Z.add]. pose proof (Z.mod_pos_bound x 16 ltac:(lia)). pose proof (Z.mod_pos_bound (x `div` 16) 16 ltac:(lia)).
    rewrite !toy_hex_digit_spec by lia. cbn -[Z.mul Z.add]. rewrite IH by done. cbn -[Z.mul Z.add].
    do 2 f_equal. assert (x `div` 16 < 16) by (apply Z.div_lt_upper_bound; lia).
    assert (0 ≤ x `div` 16) by (apply Z.div_pos; lia).
    rewrite (Z.mod_small (x `div` 16)) by lia. pose proof (Z.div_mod x 16). lia.
  - assert (∀ n s b, (length s ≤ n)%nat → toy_hex_decode s = Ok b → is_bytes b) as H.
    { induction n as [|n IH]; intros [|x [|y s]] b Hn Hb; cbn in *; try done; try lia;
        try (injection Hb as <-; constructor).
      destruct (hex_digit x) as [h|] eqn:Hh; [|done].
      destruct (hex_digit y) as [l|] eqn:Hl; [|done]. cbn -[Z.mul Z.add] in Hb.
      apply bind_Ok in Hb as (r & Hr & [= <-]). constructor; [|eapply IH; [|done]; lia].
      unfold hex_digit in *. unfold is_u8.
      repeat (case_match; simplify_eq; bool_hyps; try lia). }
    intros s b. by apply (H (length s)).
  - done.
Qed.

#[local] Existing Instance toy_hex.
#[local] Existing Instance toy_hex_laws.

Definition toy_device : SpkiHash := mkSpkiHash (171 :: replicate 31 7).

Lemma toy_device_wf : spki_wf toy_device.
Proof.
  split; [|done]. constructor; [|apply Forall_replicate]; unfold is_u8; lia.
Qed.

Lemma group_id_roundtrip_witness :
  from_group_id (to_group_id (DeviceGroup toy_device)) = Ok (DeviceGroup toy_device).
Proof. exact (proj1 (group_id_roundtrip (DeviceGroup toy_device) toy_device_wf)). Defined.

Lemma group_id_aliases_witness :
  from_group_id (to_group_id (DeviceGroup toy_device) ++ str_bytes "/b") = Ok (DeviceGroup toy_device).
Proof.
  apply (group_id_aliases toy_device (str_bytes "/b") toy_device_wf). right. by exists (str_bytes "b").
Defined.

Example from_group_id_errors :
  from_group_id [] = Err UnknownGroupType ∧ from_group_id (str_bytes "device") = Err MissingData ∧
  from_group_id (str_bytes "device/ab") = Err WrongSliceLength.
Proof. split_and!; vm_compute; reflexivity. Qed.
