(* ===== verification/StorageTrait.v ===== *)
(** * The storage interface of the MLS library

    [openmls_traits::storage::StorageProvider], as the program implements it
    twice: over SQLite ([sqlx_storage/src/storage_provider.rs]) and by
    delegation ([svalin_pki/src/mls/provider.rs]). The methods are generic in
    the types of keys and entities, which only have to be serialisable. A
    [request] is a call of one of the methods, so that statements can
    quantify over all of them. *)
From S2P Require Import Prelude.
From S2P Require Import External.
From stdpp Require Import options.

(** A provider with state [S] and errors [E]. *)
Class StorageProvider (S E : Type) := {
  (** data of a group, one value of each kind *)
  write_mls_join_config {GroupId Data : Type} `{Postcard GroupId, Postcard Data} :
    GroupId → Data → io S E ();
  mls_group_join_config {GroupId Data : Type} `{Postcard GroupId, Postcard Data} :
    GroupId → io S E (option Data);
  delete_group_config {GroupId : Type} `{Postcard GroupId} : GroupId → io S E ();
  write_tree {GroupId Data : Type} `{Postcard GroupId, Postcard Data} :
    GroupId → Data → io S E ();
  tree {GroupId Data : Type} `{Postcard GroupId, Postcard Data} :
    GroupId → io S E (option Data);
  delete_tree {GroupId : Type} `{Postcard GroupId} : GroupId → io S E ();
  write_interim_transcript_hash {GroupId Data : Type} `{Postcard GroupId, Postcard Data} :
    GroupId → Data → io S E ();
  interim_transcript_hash {GroupId Data : Type} `{Postcard GroupId, Postcard Data} :
    GroupId → io S E (option Data);
  delete_interim_transcript_hash {GroupId : Type} `{Postcard GroupId} : GroupId → io S E ();
  write_context {GroupId Data : Type} `{Postcard GroupId, Postcard Data} :
    GroupId → Data → io S E ();
  group_context {GroupId Data : Type} `{Postcard GroupId, Postcard Data} :
    GroupId → io S E (option Data);
  delete_context {GroupId : Type} `{Postcard GroupId} : GroupId → io S E ();
  write_confirmation_tag {GroupId Data : Type} `{Postcard GroupId, Postcard Data} :
    GroupId → Data → io S E ();
  confirmation_tag {GroupId Data : Type} `{Postcard GroupId, Postcard Data} :
    GroupId → io S E (option Data);
  delete_confirmation_tag {GroupId : Type} `{Postcard GroupId} : GroupId → io S E ();
  write_group_state {GroupId Data : Type} `{Postcard GroupId, Postcard Data} :
    GroupId → Data → io S E ();
  group_state {GroupId Data : Type} `{Postcard GroupId, Postcard Data} :
    GroupId → io S E (option Data);
  delete_group_state {GroupId : Type} `{Postcard GroupId} : GroupId → io S E ();
  write_message_secrets {GroupId Data : Type} `{Postcard GroupId, Postcard Data} :
    GroupId → Data → io S E ();
  message_secrets {GroupId Data : Type} `{Postcard GroupId, Postcard Data} :
    GroupId → io S E (option Data);
  delete_message_secrets {GroupId : Type} `{Postcard GroupId} : GroupId → io S E ();
  write_resumption_psk_store {GroupId Data : Type} `{Postcard GroupId, Postcard Data} :
    GroupId → Data → io S E ();
  resumption_psk_store {GroupId Data : Type} `{Postcard GroupId, Postcard Data} :
    GroupId → io S E (option Data);
  delete_all_resumption_psk_secrets {GroupId : Type} `{Postcard GroupId} : GroupId → io S E ();
  write_own_leaf_index {GroupId Data : Type} `{Postcard GroupId, Postcard Data} :
    GroupId → Data → io S E ();
  own_leaf_index {GroupId Data : Type} `{Postcard GroupId, Postcard Data} :
    GroupId → io S E (option Data);
  delete_own_leaf_index {GroupId : Type} `{Postcard GroupId} : GroupId → io S E ();
  write_group_epoch_secrets {GroupId Data : Type} `{Postcard GroupId, Postcard Data} :
    GroupId → Data → io S E ();
  group_epoch_secrets {GroupId Data : Type} `{Postcard GroupId, Postcard Data} :
    GroupId → io S E (option Data);
  delete_group_epoch_secrets {GroupId : Type} `{Postcard GroupId} : GroupId → io S E ();
  (** own leaf nodes *)
  append_own_leaf_node {GroupId LeafNode : Type} `{Postcard GroupId, Postcard LeafNode} :
    GroupId → LeafNode → io S E ();
  own_leaf_nodes {GroupId LeafNode : Type} `{Postcard GroupId, Postcard LeafNode} :
    GroupId → io S E (list LeafNode);
  delete_own_leaf_nodes {GroupId : Type} `{Postcard GroupId} : GroupId → io S E ();
  (** queued proposals *)
  queue_proposal {GroupId ProposalRef Proposal : Type}
    `{Postcard GroupId, Postcard ProposalRef, Postcard Proposal} :
    GroupId → ProposalRef → Proposal → io S E ();
  queued_proposal_refs {GroupId ProposalRef : Type} `{Postcard GroupId, Postcard ProposalRef} :
    GroupId → io S E (list ProposalRef);
  queued_proposals {GroupId ProposalRef Proposal : Type}
    `{Postcard GroupId, Postcard ProposalRef, Postcard Proposal} :
    GroupId → io S E (list (ProposalRef * Proposal));
  remove_proposal {GroupId ProposalRef : Type} `{Postcard GroupId, Postcard ProposalRef} :
    GroupId → ProposalRef → io S E ();
  clear_proposal_queue {GroupId : Type} `{Postcard GroupId} : GroupId → io S E ();
  (** key material *)
  write_signature_key_pair {Key Pair : Type} `{Postcard Key, Postcard Pair} : Key → Pair → io S E ();
  signature_key_pair {Key Pair : Type} `{Postcard Key, Postcard Pair} : Key → io S E (option Pair);
  delete_signature_key_pair {Key : Type} `{Postcard Key} : Key → io S E ();
  write_encryption_key_pair {Key Pair : Type} `{Postcard Key, Postcard Pair} : Key → Pair → io S E ();
  encryption_key_pair {Key Pair : Type} `{Postcard Key, Postcard Pair} : Key → io S E (option Pair);
  delete_encryption_key_pair {Key : Type} `{Postcard Key} : Key → io S E ();
  write_encryption_epoch_key_pairs {GroupId Epoch Pair : Type}
    `{Postcard GroupId, Postcard Epoch, Postcard (list Pair)} :
    GroupId → Epoch → Z → list Pair → io S E ();
  encryption_epoch_key_pairs {GroupId Epoch Pair : Type}
    `{Postcard GroupId, Postcard Epoch, Postcard (list Pair)} :
    GroupId → Epoch → Z → io S E (list Pair);
  delete_encryption_epoch_key_pairs {GroupId Epoch : Type} `{Postcard GroupId, Postcard Epoch} :
    GroupId → Epoch → Z → io S E ();
  write_key_package {Hash Package : Type} `{Postcard Hash, Postcard Package} :
    Hash → Package → io S E ();
  key_package {Hash Package : Type} `{Postcard Hash, Postcard Package} : Hash → io S E (option Package);
  delete_key_package {Hash : Type} `{Postcard Hash} : Hash → io S E ();
  write_psk {PskId Bundle : Type} `{Postcard PskId, Postcard Bundle} : PskId → Bundle → io S E ();
  psk {PskId Bundle : Type} `{Postcard PskId, Postcard Bundle} : PskId → io S E (option Bundle);
  delete_psk {PskId : Type} `{Postcard PskId} : PskId → io S E ();
}.

(** ** The data of a group *)
Inductive group_item :=
  | TheJoinGroupConfig
  | TheTree
  | TheInterimTranscriptHash
  | TheContext
  | TheConfirmationTag
  | TheGroupState
  | TheMessageSecrets
  | TheResumptionPskStore
  | TheOwnLeafIndex
  | TheGroupEpochSecrets.

#[global] Instance group_item_eq_dec : EqDecision group_item.
Proof. solve_decision. Defined.

(** ** Calls

    One constructor per method; those for the data of a group are together,
    by the kind of the data. *)
Inductive request : Type → Type :=
  | WriteGroupData (t : group_item) {G D} `{Postcard G, Postcard D} (g : G) (d : D) : request ()
  | ReadGroupData (t : group_item) {G D} `{Postcard G, Postcard D} (g : G) : request (option D)
  | DeleteGroupData (t : group_item) {G} `{Postcard G} (g : G) : request ()
  | AppendLeafNode {G N} `{Postcard G, Postcard N} (g : G) (n : N) : request ()
  | ReadLeafNodes {G N} `{Postcard G, Postcard N} (g : G) : request (list N)
  | DeleteLeafNodes {G} `{Postcard G} (g : G) : request ()
  | QueueProposal {G F P} `{Postcard G, Postcard F, Postcard P} (g : G) (f : F) (p : P) : request ()
  | ReadProposalRefs {G F} `{Postcard G, Postcard F} (g : G) : request (list F)
  | ReadProposals {G F P} `{Postcard G, Postcard F, Postcard P} (g : G) : request (list (F * P))
  | RemoveProposal {G F} `{Postcard G, Postcard F} (g : G) (f : F) : request ()
  | ClearProposals {G} `{Postcard G} (g : G) : request ()
  | WriteSignatureKey {K P} `{Postcard K, Postcard P} (k : K) (p : P) : request ()
  | ReadSignatureKey {K P} `{Postcard K, Postcard P} (k : K) : request (option P)
  | DeleteSignatureKey {K} `{Postcard K} (k : K) : request ()
  | WriteEncryptionKey {K P} `{Postcard K, Postcard P} (k : K) (p : P) : request ()
  | ReadEncryptionKey {K P} `{Postcard K, Postcard P} (k : K) : request (option P)
  | DeleteEncryptionKey {K} `{Postcard K} (k : K) : request ()
  | WriteEpochKeys {G O P} `{Postcard G, Postcard O, Postcard (list P)} (g : G) (e : O) (i : Z)
      (ps : list P) : request ()
  | ReadEpochKeys {G O P} `{Postcard G, Postcard O, Postcard (list P)} (g : G) (e : O) (i : Z) :
      request (list P)
  | DeleteEpochKeys {G O} `{Postcard G, Postcard O} (g : G) (e : O) (i : Z) : request ()
  | WriteKeyPackage {K P} `{Postcard K, Postcard P} (k : K) (p : P) : request ()
  | ReadKeyPackage {K P} `{Postcard K, Postcard P} (k : K) : request (option P)
  | DeleteKeyPackage {K} `{Postcard K} (k : K) : request ()
  | WritePsk {K P} `{Postcard K, Postcard P} (k : K) (p : P) : request ()
  | ReadPsk {K P} `{Postcard K, Postcard P} (k : K) : request (option P)
  | DeletePsk {K} `{Postcard K} (k : K) : request ().

Section run.
Context {S E : Type} `{!StorageProvider S E}.

Definition run_write (t : group_item) {G D} `{Postcard G, Postcard D} (g : G) (d : D) : io S E () :=
  match t with
  | TheJoinGroupConfig => write_mls_join_config g d
  | TheTree => write_tree g d
  | TheInterimTranscriptHash => write_interim_transcript_hash g d
  | TheContext => write_context g d
  | TheConfirmationTag => write_confirmation_tag g d
  | TheGroupState => write_group_state g d
  | TheMessageSecrets => write_message_secrets g d
  | TheResumptionPskStore => write_resumption_psk_store g d
  | TheOwnLeafIndex => write_own_leaf_index g d
  | TheGroupEpochSecrets => write_group_epoch_secrets g d
  end.

Definition run_read (t : group_item) {G D} `{Postcard G, Postcard D} (g : G) : io S E (option D) :=
  match t with
  | TheJoinGroupConfig => mls_group_join_config g
  | TheTree => tree g
  | TheInterimTranscriptHash => interim_transcript_hash g
  | TheContext => group_context g
  | TheConfirmationTag => confirmation_tag g
  | TheGroupState => group_state g
  | TheMessageSecrets => message_secrets g
  | TheResumptionPskStore => resumption_psk_store g
  | TheOwnLeafIndex => own_leaf_index g
  | TheGroupEpochSecrets => group_epoch_secrets g
  end.

Definition run_delete (t : group_item) {G} `{Postcard G} (g : G) : io S E () :=
  match t with
  | TheJoinGroupConfig => delete_group_config g
  | TheTree => delete_tree g
  | TheInterimTranscriptHash => delete_interim_transcript_hash g
  | TheContext => delete_context g
  | TheConfirmationTag => delete_confirmation_tag g
  | TheGroupState => delete_group_state g
  | TheMessageSecrets => delete_message_secrets g
  | TheResumptionPskStore => delete_all_resumption_psk_secrets g
  | TheOwnLeafIndex => delete_own_leaf_index g
  | TheGroupEpochSecrets => delete_group_epoch_secrets g
  end.

(** The call of a method. *)
Definition run {R} (c : request R) : io S E R :=
  match c with
  | WriteGroupData t g d => run_write t g d
  | ReadGroupData t g => run_read t g
  | DeleteGroupData t g => run_delete t g
  | AppendLeafNode g n => append_own_leaf_node g n
  | ReadLeafNodes g => own_leaf_nodes g
  | DeleteLeafNodes g => delete_own_leaf_nodes g
  | QueueProposal g f p => queue_proposal g f p
  | ReadProposalRefs g => queued_proposal_refs g
  | ReadProposals g => queued_proposals g
  | RemoveProposal g f => remove_proposal g f
  | ClearProposals g => clear_proposal_queue g
  | WriteSignatureKey k p => write_signature_key_pair k p
  | ReadSignatureKey k => signature_key_pair k
  | DeleteSignatureKey k => delete_signature_key_pair k
  | WriteEncryptionKey k p => write_encryption_key_pair k p
  | ReadEncryptionKey k => encryption_key_pair k
  | DeleteEncryptionKey k => delete_encryption_key_pair k
  | WriteEpochKeys g e i ps => write_encryption_epoch_key_pairs g e i ps
  | ReadEpochKeys g e i => encryption_epoch_key_pairs g e i
  | DeleteEpochKeys g e i => delete_encryption_epoch_key_pairs g e i
  | WriteKeyPackage k p => write_key_package k p
  | ReadKeyPackage k => key_package k
  | DeleteKeyPackage k => delete_key_package k
  | WritePsk k p => write_psk k p
  | ReadPsk k => psk k
  | DeletePsk k => delete_psk k
  end.
End run.
