(* ===== verification/SqlxStorage.v ===== *)
(** * The SQLite storage of the MLS library ([sqlx_storage/src/])

    [SqliteStorageProvider] with its codec, over the tables its migrations
    make. Futures are run to their end in place ([block_async_in_place]). The
    feature [extensions-draft-08] is off, as in the workspace. *)
From S2P Require Import Prelude.
From S2P Require Import External.
From S2P Require Import Sql.
From S2P Require Import StorageTrait.
From stdpp Require Import options.

(** ** Group data types ([group_data.rs]) *)
Inductive GroupDataType :=
  | JoinGroupConfig
  | Tree
  | InterimTranscriptHash
  | Context
  | ConfirmationTag
  | GroupState
  | MessageSecrets
  | ResumptionPskStore
  | OwnLeafIndex
  | UseRatchetTreeExtension
  | GroupEpochSecrets.

Definition to_str (self : GroupDataType) : string :=
  match self with
  | JoinGroupConfig => "join_group_config"
  | Tree => "tree"
  | InterimTranscriptHash => "interim_transcript_hash"
  | Context => "context"
  | ConfirmationTag => "confirmation_tag"
  | GroupState => "group_state"
  | MessageSecrets => "message_secrets"
  | ResumptionPskStore => "resumption_psk_store"
  | OwnLeafIndex => "own_leaf_index"
  | UseRatchetTreeExtension => "use_ratchet_tree_extension"
  | GroupEpochSecrets => "group_epoch_secrets"
  end.

Definition from_str (s : string) : option GroupDataType :=
  if bool_decide (s = "join_group_config") then Some JoinGroupConfig
  else if bool_decide (s = "tree") then Some Tree
  else if bool_decide (s = "interim_transcript_hash") then Some InterimTranscriptHash
  else if bool_decide (s = "context") then Some Context
  else if bool_decide (s = "confirmation_tag") then Some ConfirmationTag
  else if bool_decide (s = "group_state") then Some GroupState
  else if bool_decide (s = "message_secrets") then Some MessageSecrets
  else if bool_decide (s = "resumption_psk_store") then Some ResumptionPskStore
  else if bool_decide (s = "own_leaf_index") then Some OwnLeafIndex
  else if bool_decide (s = "use_ratchet_tree_extension") then Some UseRatchetTreeExtension
  else if bool_decide (s = "group_epoch_secrets") then Some GroupEpochSecrets
  else None.

(** The check of the column [data_type] in the migrations. *)
Definition data_types : list string :=
  ["join_group_config";
   "tree";
   "interim_transcript_hash";
   "context";
   "confirmation_tag";
   "group_state";
   "message_secrets";
   "resumption_psk_store";
   "own_leaf_index";
   "use_ratchet_tree_extension";
   "group_epoch_secrets";
   "application_export_tree"].

(** ** The tables *)
Record SqliteStorageProvider := mkSqliteStorageProvider {
  group_data : gmap (list Z * string) (list Z);
  proposal : gmap (list Z * list Z) (list Z);
  own_leaf_node : gmap (list Z) (list Z);
  signature_key : gmap (list Z) (list Z);
  encryption_key : gmap (list Z) (list Z);
  epoch_key_pairs : gmap (list Z * list Z * Z) (list Z);
  key_package_table : gmap (list Z) (list Z);
  psk_table : gmap (list Z) (list Z);
}.

Definition set_group_data (t : gmap (list Z * string) (list Z)) (self : SqliteStorageProvider) : SqliteStorageProvider :=
  mkSqliteStorageProvider t (proposal self) (own_leaf_node self) (signature_key self) (encryption_key self) (epoch_key_pairs self) (key_package_table self) (psk_table self).
Definition set_proposal (t : gmap (list Z * list Z) (list Z)) (self : SqliteStorageProvider) : SqliteStorageProvider :=
  mkSqliteStorageProvider (group_data self) t (own_leaf_node self) (signature_key self) (encryption_key self) (epoch_key_pairs self) (key_package_table self) (psk_table self).
Definition set_own_leaf_node (t : gmap (list Z) (list Z)) (self : SqliteStorageProvider) : SqliteStorageProvider :=
  mkSqliteStorageProvider (group_data self) (proposal self) t (signature_key self) (encryption_key self) (epoch_key_pairs self) (key_package_table self) (psk_table self).
Definition set_signature_key (t : gmap (list Z) (list Z)) (self : SqliteStorageProvider) : SqliteStorageProvider :=
  mkSqliteStorageProvider (group_data self) (proposal self) (own_leaf_node self) t (encryption_key self) (epoch_key_pairs self) (key_package_table self) (psk_table self).
Definition set_encryption_key (t : gmap (list Z) (list Z)) (self : SqliteStorageProvider) : SqliteStorageProvider :=
  mkSqliteStorageProvider (group_data self) (proposal self) (own_leaf_node self) (signature_key self) t (epoch_key_pairs self) (key_package_table self) (psk_table self).
Definition set_epoch_key_pairs (t : gmap (list Z * list Z * Z) (list Z)) (self : SqliteStorageProvider) : SqliteStorageProvider :=
  mkSqliteStorageProvider (group_data self) (proposal self) (own_leaf_node self) (signature_key self) (encryption_key self) t (key_package_table self) (psk_table self).
Definition set_key_package_table (t : gmap (list Z) (list Z)) (self : SqliteStorageProvider) : SqliteStorageProvider :=
  mkSqliteStorageProvider (group_data self) (proposal self) (own_leaf_node self) (signature_key self) (encryption_key self) (epoch_key_pairs self) t (psk_table self).
Definition set_psk_table (t : gmap (list Z) (list Z)) (self : SqliteStorageProvider) : SqliteStorageProvider :=
  mkSqliteStorageProvider (group_data self) (proposal self) (own_leaf_node self) (signature_key self) (encryption_key self) (epoch_key_pairs self) (key_package_table self) t.

Definition empty_storage : SqliteStorageProvider :=
  mkSqliteStorageProvider ∅ ∅ ∅ ∅ ∅ ∅ ∅ ∅.

(** What a statement does to the tables; a statement that fails leaves them. *)
Definition execute (statement : SqliteStorageProvider → result SqlxError SqliteStorageProvider) :
    io SqliteStorageProvider SqlxError () := λ s,
  match statement s with
  | Ok s' => (s', Ok ())
  | Err e => (s, Err e)
  | Panic => (s, Panic)
  end.

Definition query {A} (select : SqliteStorageProvider → A) : io SqliteStorageProvider SqlxError A := λ s,
  (s, Ok (select s)).

(** ** The codec ([codec.rs], [PostcardCodec]) *)
Definition to_vec {T} `{Postcard T} (value : T) : result ExtError (list Z) := to_stdvec value.
Definition from_slice {T} `{Postcard T} (slice : list Z) : result ExtError T := from_bytes slice.

(** [CodecInternal::from_bytes]. *)
Definition codec_from_bytes {T} `{Postcard T} (data : list Z) : result SqlxError T :=
  map_err DecodeError (from_slice data).

(** [encode_by_ref] of [KeyRefWrapper], [EntityRefWrapper] and
    [EntitySliceWrapper]. *)
Definition encode_by_ref {T} `{Postcard T} (value : T) : io SqliteStorageProvider SqlxError (list Z) :=
  io_result (map_err EncodeError (to_vec value)).

(** [Option::map(C::from_bytes).transpose()]. *)
Definition from_bytes_optional {T} `{Postcard T} (data : option (list Z)) :
    io SqliteStorageProvider SqlxError (option T) :=
  match data with
  | Some data => value ← io_result (codec_from_bytes data); mret (Some value)
  | None => mret None
  end.

(** ** Statements ([storage_provider.rs]) *)
Definition store_group_data {GroupId GroupData} `{Postcard GroupId, Postcard GroupData}
    (self : GroupData) (group_id : GroupId) (data_type : GroupDataType) :
    io SqliteStorageProvider SqlxError () :=
  group_id ← encode_by_ref group_id;
  data ← encode_by_ref self;
  execute (λ s,
    if bool_decide (to_str data_type ∈ data_types) then
      Ok (set_group_data (keyed_replace (group_id, to_str data_type) data (group_data s)) s)
    else Err CheckViolation).

Definition store_signature_key {Key Value} `{Postcard Key, Postcard Value} (self : Value) (key : Key) :
    io SqliteStorageProvider SqlxError () :=
  key ← encode_by_ref key;
  value ← encode_by_ref self;
  execute (λ s, t ← keyed_insert key value (signature_key s); Ok (set_signature_key t s)).

Definition store_leaf_node {Key Value} `{Postcard Key, Postcard Value} (self : Value) (key : Key) :
    io SqliteStorageProvider SqlxError () :=
  key ← encode_by_ref key;
  value ← encode_by_ref self;
  execute (λ s, t ← keyed_insert key value (own_leaf_node s); Ok (set_own_leaf_node t s)).

Definition store_key_package {Key Value} `{Postcard Key, Postcard Value} (self : Value) (key : Key) :
    io SqliteStorageProvider SqlxError () :=
  key ← encode_by_ref key;
  value ← encode_by_ref self;
  execute (λ s, t ← keyed_insert key value (key_package_table s); Ok (set_key_package_table t s)).

Definition store_epoch_key_pairs {GroupId EpochKey Pair} `{Postcard GroupId, Postcard EpochKey, Postcard (list Pair)}
    (self : list Pair) (group_id : GroupId) (epoch_id : EpochKey) (leaf_index : Z) :
    io SqliteStorageProvider SqlxError () :=
  group_id ← encode_by_ref group_id;
  epoch_id ← encode_by_ref epoch_id;
  entity ← encode_by_ref self;
  execute (λ s,
    t ← keyed_insert (group_id, epoch_id, leaf_index) entity (epoch_key_pairs s);
    Ok (set_epoch_key_pairs t s)).

Definition store_psk_bundle {Key Value} `{Postcard Key, Postcard Value} (self : Value) (key : Key) :
    io SqliteStorageProvider SqlxError () :=
  key ← encode_by_ref key;
  value ← encode_by_ref self;
  execute (λ s, t ← keyed_insert key value (psk_table s); Ok (set_psk_table t s)).

Definition load_group_data {GroupId GroupData} `{Postcard GroupId, Postcard GroupData}
    (group_id : GroupId) (data_type : GroupDataType) :
    io SqliteStorageProvider SqlxError (option GroupData) :=
  key ← encode_by_ref group_id;
  data ← query (λ s, group_data s !! (key, to_str data_type));
  from_bytes_optional data.

Definition store_proposal {GroupId ProposalRef Proposal}
    `{Postcard GroupId, Postcard ProposalRef, Postcard Proposal}
    (proposal_ref : ProposalRef) (value : Proposal) (group_id : GroupId) :
    io SqliteStorageProvider SqlxError () :=
  group_id ← encode_by_ref group_id;
  proposal_ref ← encode_by_ref proposal_ref;
  value ← encode_by_ref value;
  execute (λ s, t ← keyed_insert (group_id, proposal_ref) value (proposal s); Ok (set_proposal t s)).

(** The rows of a group. *)
Definition group_rows (group_id : list Z) (t : gmap (list Z * list Z) (list Z)) :
    list (list Z * list Z * list Z) :=
  filter (λ r, r.1.1 = group_id) (map_to_list t).

Section select.
Context `{SqlOrder}.

Definition load_leaf_nodes {GroupId LeafNode} `{Postcard GroupId, Postcard LeafNode}
    (group_id : GroupId) : io SqliteStorageProvider SqlxError (list LeafNode) :=
  key ← encode_by_ref group_id;
  rows ← query (λ s, sql_order (filter (λ r, r.1 = key) (map_to_list (own_leaf_node s))));
  io_result (collectM (λ r, codec_from_bytes r.2) rows).

Definition decode_proposal {ProposalRef Proposal} `{Postcard ProposalRef, Postcard Proposal}
    (row : list Z * list Z * list Z) : result SqlxError (ProposalRef * Proposal) :=
  proposal_ref ← codec_from_bytes row.1.2;
  value ← codec_from_bytes row.2;
  Ok (proposal_ref, value).

Definition load_proposals {GroupId ProposalRef Proposal}
    `{Postcard GroupId, Postcard ProposalRef, Postcard Proposal}
    (group_id : GroupId) : io SqliteStorageProvider SqlxError (list (ProposalRef * Proposal)) :=
  key ← encode_by_ref group_id;
  rows ← query (λ s, sql_order (group_rows key (proposal s)));
  io_result (collectM decode_proposal rows).

Definition load_proposal_refs {GroupId ProposalRef} `{Postcard GroupId, Postcard ProposalRef}
    (group_id : GroupId) : io SqliteStorageProvider SqlxError (list ProposalRef) :=
  key ← encode_by_ref group_id;
  rows ← query (λ s, sql_order (group_rows key (proposal s)).*1.*2);
  io_result (collectM codec_from_bytes rows).
End select.

Definition load_signature_key {Key Value} `{Postcard Key, Postcard Value} (key : Key) :
    io SqliteStorageProvider SqlxError (option Value) :=
  key ← encode_by_ref key;
  value ← query (λ s, signature_key s !! key);
  from_bytes_optional value.

Definition load_encryption_key {Key Value} `{Postcard Key, Postcard Value} (key : Key) :
    io SqliteStorageProvider SqlxError (option Value) :=
  key ← encode_by_ref key;
  value ← query (λ s, encryption_key s !! key);
  from_bytes_optional value.

Definition store_encryption_key {Key Value} `{Postcard Key, Postcard Value} (self : Value) (key : Key) :
    io SqliteStorageProvider SqlxError () :=
  key ← encode_by_ref key;
  value ← encode_by_ref self;
  execute (λ s, t ← keyed_insert key value (encryption_key s); Ok (set_encryption_key t s)).

Definition load_epoch_key_pairs {GroupId EpochKey Pair}
    `{Postcard GroupId, Postcard EpochKey, Postcard (list Pair)}
    (group_id : GroupId) (epoch_id : EpochKey) (leaf_index : Z) :
    io SqliteStorageProvider SqlxError (list Pair) :=
  group_id ← encode_by_ref group_id;
  epoch_id ← encode_by_ref epoch_id;
  row ← query (λ s, epoch_key_pairs s !! (group_id, epoch_id, leaf_index));
  value ← from_bytes_optional row;
  mret (default [] value).

Definition load_key_package {Key Value} `{Postcard Key, Postcard Value} (key : Key) :
    io SqliteStorageProvider SqlxError (option Value) :=
  key ← encode_by_ref key;
  value ← query (λ s, key_package_table s !! key);
  from_bytes_optional value.

Definition load_psk_bundle {Key Value} `{Postcard Key, Postcard Value} (key : Key) :
    io SqliteStorageProvider SqlxError (option Value) :=
  key ← encode_by_ref key;
  value ← query (λ s, psk_table s !! key);
  from_bytes_optional value.

Definition delete_all_proposals {GroupId} `{Postcard GroupId} (self : GroupId) :
    io SqliteStorageProvider SqlxError () :=
  group_id ← encode_by_ref self;
  execute (λ s, Ok (set_proposal (filter (λ r, r.1.1 ≠ group_id) (proposal s)) s)).

Definition delete_proposal {GroupId ProposalRef} `{Postcard GroupId, Postcard ProposalRef}
    (self : GroupId) (proposal_ref : ProposalRef) : io SqliteStorageProvider SqlxError () :=
  group_id ← encode_by_ref self;
  proposal_ref ← encode_by_ref proposal_ref;
  execute (λ s, Ok (set_proposal (delete (group_id, proposal_ref) (proposal s)) s)).

Definition delete_group_data {GroupId} `{Postcard GroupId} (self : GroupId) (data_type : GroupDataType) :
    io SqliteStorageProvider SqlxError () :=
  group_id ← encode_by_ref self;
  execute (λ s, Ok (set_group_data (delete (group_id, to_str data_type) (group_data s)) s)).

Definition delete_epoch_key_pair {GroupId EpochKey} `{Postcard GroupId, Postcard EpochKey}
    (self : GroupId) (epoch_key : EpochKey) (leaf_index : Z) : io SqliteStorageProvider SqlxError () :=
  group_id ← encode_by_ref self;
  epoch_key ← encode_by_ref epoch_key;
  execute (λ s, Ok (set_epoch_key_pairs (delete (group_id, epoch_key, leaf_index) (epoch_key_pairs s)) s)).

Definition delete_leaf_nodes {Key} `{Postcard Key} (self : Key) : io SqliteStorageProvider SqlxError () :=
  key ← encode_by_ref self;
  execute (λ s, Ok (set_own_leaf_node (delete key (own_leaf_node s)) s)).

Definition delete_signature_key {Key} `{Postcard Key} (self : Key) : io SqliteStorageProvider SqlxError () :=
  key ← encode_by_ref self;
  execute (λ s, Ok (set_signature_key (delete key (signature_key s)) s)).

Definition delete_encryption_key {Key} `{Postcard Key} (self : Key) : io SqliteStorageProvider SqlxError () :=
  key ← encode_by_ref self;
  execute (λ s, Ok (set_encryption_key (delete key (encryption_key s)) s)).

Definition delete_key_package_row {Key} `{Postcard Key} (self : Key) : io SqliteStorageProvider SqlxError () :=
  key ← encode_by_ref self;
  execute (λ s, Ok (set_key_package_table (delete key (key_package_table s)) s)).

Definition delete_psk_row {Key} `{Postcard Key} (self : Key) : io SqliteStorageProvider SqlxError () :=
  key ← encode_by_ref self;
  execute (λ s, Ok (set_psk_table (delete key (psk_table s)) s)).

(** ** The methods *)
Definition write_mls_join_config {GroupId Data} `{Postcard GroupId, Postcard Data} (group_id : GroupId) (data : Data) :
    io SqliteStorageProvider SqlxError () :=
  store_group_data data group_id JoinGroupConfig.
Definition write_tree {GroupId Data} `{Postcard GroupId, Postcard Data} (group_id : GroupId) (data : Data) :
    io SqliteStorageProvider SqlxError () :=
  store_group_data data group_id Tree.
Definition write_interim_transcript_hash {GroupId Data} `{Postcard GroupId, Postcard Data} (group_id : GroupId) (data : Data) :
    io SqliteStorageProvider SqlxError () :=
  store_group_data data group_id InterimTranscriptHash.
Definition write_context {GroupId Data} `{Postcard GroupId, Postcard Data} (group_id : GroupId) (data : Data) :
    io SqliteStorageProvider SqlxError () :=
  store_group_data data group_id Context.
Definition write_confirmation_tag {GroupId Data} `{Postcard GroupId, Postcard Data} (group_id : GroupId) (data : Data) :
    io SqliteStorageProvider SqlxError () :=
  store_group_data data group_id ConfirmationTag.
Definition write_group_state {GroupId Data} `{Postcard GroupId, Postcard Data} (group_id : GroupId) (data : Data) :
    io SqliteStorageProvider SqlxError () :=
  store_group_data data group_id GroupState.
Definition write_message_secrets {GroupId Data} `{Postcard GroupId, Postcard Data} (group_id : GroupId) (data : Data) :
    io SqliteStorageProvider SqlxError () :=
  store_group_data data group_id MessageSecrets.
Definition write_resumption_psk_store {GroupId Data} `{Postcard GroupId, Postcard Data} (group_id : GroupId) (data : Data) :
    io SqliteStorageProvider SqlxError () :=
  store_group_data data group_id ResumptionPskStore.
Definition write_own_leaf_index {GroupId Data} `{Postcard GroupId, Postcard Data} (group_id : GroupId) (data : Data) :
    io SqliteStorageProvider SqlxError () :=
  store_group_data data group_id OwnLeafIndex.
Definition write_group_epoch_secrets {GroupId Data} `{Postcard GroupId, Postcard Data} (group_id : GroupId) (data : Data) :
    io SqliteStorageProvider SqlxError () :=
  store_group_data data group_id GroupEpochSecrets.
Definition mls_group_join_config {GroupId Data} `{Postcard GroupId, Postcard Data} (group_id : GroupId) :
    io SqliteStorageProvider SqlxError (option Data) :=
  load_group_data group_id JoinGroupConfig.
Definition tree {GroupId Data} `{Postcard GroupId, Postcard Data} (group_id : GroupId) :
    io SqliteStorageProvider SqlxError (option Data) :=
  load_group_data group_id Tree.
Definition interim_transcript_hash {GroupId Data} `{Postcard GroupId, Postcard Data} (group_id : GroupId) :
    io SqliteStorageProvider SqlxError (option Data) :=
  load_group_data group_id InterimTranscriptHash.
Definition group_context {GroupId Data} `{Postcard GroupId, Postcard Data} (group_id : GroupId) :
    io SqliteStorageProvider SqlxError (option Data) :=
  load_group_data group_id Context.
Definition confirmation_tag {GroupId Data} `{Postcard GroupId, Postcard Data} (group_id : GroupId) :
    io SqliteStorageProvider SqlxError (option Data) :=
  load_group_data group_id ConfirmationTag.
Definition group_state {GroupId Data} `{Postcard GroupId, Postcard Data} (group_id : GroupId) :
    io SqliteStorageProvider SqlxError (option Data) :=
  load_group_data group_id GroupState.
Definition message_secrets {GroupId Data} `{Postcard GroupId, Postcard Data} (group_id : GroupId) :
    io SqliteStorageProvider SqlxError (option Data) :=
  load_group_data group_id MessageSecrets.
Definition resumption_psk_store {GroupId Data} `{Postcard GroupId, Postcard Data} (group_id : GroupId) :
    io SqliteStorageProvider SqlxError (option Data) :=
  load_group_data group_id ResumptionPskStore.
Definition own_leaf_index {GroupId Data} `{Postcard GroupId, Postcard Data} (group_id : GroupId) :
    io SqliteStorageProvider SqlxError (option Data) :=
  load_group_data group_id OwnLeafIndex.
Definition group_epoch_secrets {GroupId Data} `{Postcard GroupId, Postcard Data} (group_id : GroupId) :
    io SqliteStorageProvider SqlxError (option Data) :=
  load_group_data group_id GroupEpochSecrets.
Definition delete_group_config {GroupId} `{Postcard GroupId} (group_id : GroupId) : io SqliteStorageProvider SqlxError () :=
  delete_group_data group_id JoinGroupConfig.
Definition delete_tree {GroupId} `{Postcard GroupId} (group_id : GroupId) : io SqliteStorageProvider SqlxError () :=
  delete_group_data group_id Tree.
Definition delete_interim_transcript_hash {GroupId} `{Postcard GroupId} (group_id : GroupId) : io SqliteStorageProvider SqlxError () :=
  delete_group_data group_id InterimTranscriptHash.
Definition delete_context {GroupId} `{Postcard GroupId} (group_id : GroupId) : io SqliteStorageProvider SqlxError () :=
  delete_group_data group_id Context.
Definition delete_confirmation_tag {GroupId} `{Postcard GroupId} (group_id : GroupId) : io SqliteStorageProvider SqlxError () :=
  delete_group_data group_id ConfirmationTag.
Definition delete_group_state {GroupId} `{Postcard GroupId} (group_id : GroupId) : io SqliteStorageProvider SqlxError () :=
  delete_group_data group_id GroupState.
Definition delete_message_secrets {GroupId} `{Postcard GroupId} (group_id : GroupId) : io SqliteStorageProvider SqlxError () :=
  delete_group_data group_id MessageSecrets.
Definition delete_all_resumption_psk_secrets {GroupId} `{Postcard GroupId} (group_id : GroupId) : io SqliteStorageProvider SqlxError () :=
  delete_group_data group_id ResumptionPskStore.
Definition delete_own_leaf_index {GroupId} `{Postcard GroupId} (group_id : GroupId) : io SqliteStorageProvider SqlxError () :=
  delete_group_data group_id OwnLeafIndex.
Definition delete_group_epoch_secrets {GroupId} `{Postcard GroupId} (group_id : GroupId) : io SqliteStorageProvider SqlxError () :=
  delete_group_data group_id GroupEpochSecrets.

Section methods.
Context `{SqlOrder}.

Definition append_own_leaf_node {GroupId LeafNode} `{Postcard GroupId, Postcard LeafNode}
    (group_id : GroupId) (leaf_node : LeafNode) : io SqliteStorageProvider SqlxError () :=
  store_leaf_node leaf_node group_id.
Definition own_leaf_nodes {GroupId LeafNode} `{Postcard GroupId, Postcard LeafNode}
    (group_id : GroupId) : io SqliteStorageProvider SqlxError (list LeafNode) :=
  load_leaf_nodes group_id.
Definition delete_own_leaf_nodes {GroupId} `{Postcard GroupId} (group_id : GroupId) :
    io SqliteStorageProvider SqlxError () :=
  delete_leaf_nodes group_id.

Definition queue_proposal {GroupId ProposalRef Proposal}
    `{Postcard GroupId, Postcard ProposalRef, Postcard Proposal}
    (group_id : GroupId) (proposal_ref : ProposalRef) (value : Proposal) :
    io SqliteStorageProvider SqlxError () :=
  store_proposal proposal_ref value group_id.
Definition queued_proposal_refs {GroupId ProposalRef} `{Postcard GroupId, Postcard ProposalRef}
    (group_id : GroupId) : io SqliteStorageProvider SqlxError (list ProposalRef) :=
  load_proposal_refs group_id.
Definition queued_proposals {GroupId ProposalRef Proposal}
    `{Postcard GroupId, Postcard ProposalRef, Postcard Proposal}
    (group_id : GroupId) : io SqliteStorageProvider SqlxError (list (ProposalRef * Proposal)) :=
  load_proposals group_id.
Definition remove_proposal {GroupId ProposalRef} `{Postcard GroupId, Postcard ProposalRef}
    (group_id : GroupId) (proposal_ref : ProposalRef) : io SqliteStorageProvider SqlxError () :=
  delete_proposal group_id proposal_ref.
Definition clear_proposal_queue {GroupId} `{Postcard GroupId} (group_id : GroupId) :
    io SqliteStorageProvider SqlxError () :=
  delete_all_proposals group_id.

Definition write_signature_key_pair {Key Value} `{Postcard Key, Postcard Value} (public_key : Key) (signature_key_pair : Value) :
    io SqliteStorageProvider SqlxError () :=
  store_signature_key signature_key_pair public_key.
Definition signature_key_pair {Key Value} `{Postcard Key, Postcard Value} (public_key : Key) :
    io SqliteStorageProvider SqlxError (option Value) :=
  load_signature_key public_key.
Definition delete_signature_key_pair {Key} `{Postcard Key} (public_key : Key) : io SqliteStorageProvider SqlxError () :=
  delete_signature_key public_key.

Definition write_encryption_key_pair {Key Value} `{Postcard Key, Postcard Value} (public_key : Key) (key_pair : Value) :
    io SqliteStorageProvider SqlxError () :=
  store_encryption_key key_pair public_key.
Definition encryption_key_pair {Key Value} `{Postcard Key, Postcard Value} (public_key : Key) :
    io SqliteStorageProvider SqlxError (option Value) :=
  load_encryption_key public_key.
Definition delete_encryption_key_pair {Key} `{Postcard Key} (public_key : Key) : io SqliteStorageProvider SqlxError () :=
  delete_encryption_key public_key.

Definition write_key_package {Key Value} `{Postcard Key, Postcard Value} (hash_ref : Key) (key_package : Value) :
    io SqliteStorageProvider SqlxError () :=
  store_key_package key_package hash_ref.
Definition key_package {Key Value} `{Postcard Key, Postcard Value} (hash_ref : Key) :
    io SqliteStorageProvider SqlxError (option Value) :=
  load_key_package hash_ref.
Definition delete_key_package {Key} `{Postcard Key} (hash_ref : Key) : io SqliteStorageProvider SqlxError () :=
  delete_key_package_row hash_ref.

Definition write_psk {Key Value} `{Postcard Key, Postcard Value} (psk_id : Key) (psk : Value) :
    io SqliteStorageProvider SqlxError () :=
  store_psk_bundle psk psk_id.
Definition psk {Key Value} `{Postcard Key, Postcard Value} (psk_id : Key) :
    io SqliteStorageProvider SqlxError (option Value) :=
  load_psk_bundle psk_id.
Definition delete_psk {Key} `{Postcard Key} (psk_id : Key) : io SqliteStorageProvider SqlxError () :=
  delete_psk_row psk_id.

Definition write_encryption_epoch_key_pairs {GroupId EpochKey Pair}
    `{Postcard GroupId, Postcard EpochKey, Postcard (list Pair)}
    (group_id : GroupId) (epoch : EpochKey) (leaf_index : Z) (key_pairs : list Pair) :
    io SqliteStorageProvider SqlxError () :=
  store_epoch_key_pairs key_pairs group_id epoch leaf_index.
Definition encryption_epoch_key_pairs {GroupId EpochKey Pair}
    `{Postcard GroupId, Postcard EpochKey, Postcard (list Pair)}
    (group_id : GroupId) (epoch : EpochKey) (leaf_index : Z) :
    io SqliteStorageProvider SqlxError (list Pair) :=
  load_epoch_key_pairs group_id epoch leaf_index.
Definition delete_encryption_epoch_key_pairs {GroupId EpochKey} `{Postcard GroupId, Postcard EpochKey}
    (group_id : GroupId) (epoch : EpochKey) (leaf_index : Z) : io SqliteStorageProvider SqlxError () :=
  delete_epoch_key_pair group_id epoch leaf_index.

#[global] Instance sqlite_storage : StorageProvider SqliteStorageProvider SqlxError := {|
  StorageTrait.write_mls_join_config := @write_mls_join_config;
  StorageTrait.mls_group_join_config := @mls_group_join_config;
  StorageTrait.delete_group_config := @delete_group_config;
  StorageTrait.write_tree := @write_tree;
  StorageTrait.tree := @tree;
  StorageTrait.delete_tree := @delete_tree;
  StorageTrait.write_interim_transcript_hash := @write_interim_transcript_hash;
  StorageTrait.interim_transcript_hash := @interim_transcript_hash;
  StorageTrait.delete_interim_transcript_hash := @delete_interim_transcript_hash;
  StorageTrait.write_context := @write_context;
  StorageTrait.group_context := @group_context;
  StorageTrait.delete_context := @delete_context;
  StorageTrait.write_confirmation_tag := @write_confirmation_tag;
  StorageTrait.confirmation_tag := @confirmation_tag;
  StorageTrait.delete_confirmation_tag := @delete_confirmation_tag;
  StorageTrait.write_group_state := @write_group_state;
  StorageTrait.group_state := @group_state;
  StorageTrait.delete_group_state := @delete_group_state;
  StorageTrait.write_message_secrets := @write_message_secrets;
  StorageTrait.message_secrets := @message_secrets;
  StorageTrait.delete_message_secrets := @delete_message_secrets;
  StorageTrait.write_resumption_psk_store := @write_resumption_psk_store;
  StorageTrait.resumption_psk_store := @resumption_psk_store;
  StorageTrait.delete_all_resumption_psk_secrets := @delete_all_resumption_psk_secrets;
  StorageTrait.write_own_leaf_index := @write_own_leaf_index;
  StorageTrait.own_leaf_index := @own_leaf_index;
  StorageTrait.delete_own_leaf_index := @delete_own_leaf_index;
  StorageTrait.write_group_epoch_secrets := @write_group_epoch_secrets;
  StorageTrait.group_epoch_secrets := @group_epoch_secrets;
  StorageTrait.delete_group_epoch_secrets := @delete_group_epoch_secrets;
  StorageTrait.append_own_leaf_node := @append_own_leaf_node;
  StorageTrait.own_leaf_nodes := @own_leaf_nodes;
  StorageTrait.delete_own_leaf_nodes := @delete_own_leaf_nodes;
  StorageTrait.queue_proposal := @queue_proposal;
  StorageTrait.queued_proposal_refs := @queued_proposal_refs;
  StorageTrait.queued_proposals := @queued_proposals;
  StorageTrait.remove_proposal := @remove_proposal;
  StorageTrait.clear_proposal_queue := @clear_proposal_queue;
  StorageTrait.write_signature_key_pair := @write_signature_key_pair;
  StorageTrait.signature_key_pair := @signature_key_pair;
  StorageTrait.delete_signature_key_pair := @delete_signature_key_pair;
  StorageTrait.write_encryption_key_pair := @write_encryption_key_pair;
  StorageTrait.encryption_key_pair := @encryption_key_pair;
  StorageTrait.delete_encryption_key_pair := @delete_encryption_key_pair;
  StorageTrait.write_encryption_epoch_key_pairs := @write_encryption_epoch_key_pairs;
  StorageTrait.encryption_epoch_key_pairs := @encryption_epoch_key_pairs;
  StorageTrait.delete_encryption_epoch_key_pairs := @delete_encryption_epoch_key_pairs;
  StorageTrait.write_key_package := @write_key_package;
  StorageTrait.key_package := @key_package;
  StorageTrait.delete_key_package := @delete_key_package;
  StorageTrait.write_psk := @write_psk;
  StorageTrait.psk := @psk;
  StorageTrait.delete_psk := @delete_psk
|}.
End methods.

(** ** What the tables hold

    A slot is the place of one stored value: a primary key of one of the
    tables. [contents] is the storage as a map from slots to encodings. *)
Inductive slot :=
  | GroupSlot (group_id : list Z) (t : GroupDataType)
  | ProposalSlot (group_id proposal_ref : list Z)
  | LeafSlot (group_id : list Z)
  | SignatureSlot (key : list Z)
  | EncryptionSlot (key : list Z)
  | EpochSlot (group_id epoch : list Z) (leaf_index : Z)
  | PackageSlot (hash_ref : list Z)
  | PskSlot (psk_id : list Z).

Definition contents (s : SqliteStorageProvider) (k : slot) : option (list Z) :=
  match k with
  | GroupSlot g t => group_data s !! (g, to_str t)
  | ProposalSlot g f => proposal s !! (g, f)
  | LeafSlot g => own_leaf_node s !! g
  | SignatureSlot k => signature_key s !! k
  | EncryptionSlot k => encryption_key s !! k
  | EpochSlot g e i => epoch_key_pairs s !! (g, e, i)
  | PackageSlot k => key_package_table s !! k
  | PskSlot k => psk_table s !! k
  end.

Definition item_type (i : group_item) : GroupDataType :=
  match i with
  | TheJoinGroupConfig => JoinGroupConfig
  | TheTree => Tree
  | TheInterimTranscriptHash => InterimTranscriptHash
  | TheContext => Context
  | TheConfirmationTag => ConfirmationTag
  | TheGroupState => GroupState
  | TheMessageSecrets => MessageSecrets
  | TheResumptionPskStore => ResumptionPskStore
  | TheOwnLeafIndex => OwnLeafIndex
  | TheGroupEpochSecrets => GroupEpochSecrets
  end.

(** The slots a call may change. *)
Definition at_key {T} `{Postcard T} (x : T) (f : list Z → slot) (k : slot) : Prop :=
  ∃ b, to_vec x = Ok b ∧ k = f b.
Definition at_keys {T U} `{Postcard T, Postcard U} (x : T) (y : U) (f : list Z → list Z → slot)
    (k : slot) : Prop :=
  ∃ b c, to_vec x = Ok b ∧ to_vec y = Ok c ∧ k = f b c.

Definition changes {R} (c : request R) (k : slot) : Prop :=
  match c with
  | WriteGroupData t g _ | DeleteGroupData t g => at_key g (λ g, GroupSlot g (item_type t)) k
  | AppendLeafNode g _ | DeleteLeafNodes g => at_key g LeafSlot k
  | QueueProposal g f _ | RemoveProposal g f => at_keys g f ProposalSlot k
  | ClearProposals g => ∃ f, at_key g (λ g, ProposalSlot g f) k
  | WriteSignatureKey x _ | DeleteSignatureKey x => at_key x SignatureSlot k
  | WriteEncryptionKey x _ | DeleteEncryptionKey x => at_key x EncryptionSlot k
  | WriteEpochKeys g e i _ | DeleteEpochKeys g e i => at_keys g e (λ g e, EpochSlot g e i) k
  | WriteKeyPackage x _ | DeleteKeyPackage x => at_key x PackageSlot k
  | WritePsk x _ | DeletePsk x => at_key x PskSlot k
  | _ => False
  end.

(** ** Lemmas on the statements *)
Lemma to_str_inj t t' : to_str t = to_str t' → t = t'.
Proof. by destruct t, t'. Qed.

Lemma encode_cases {T} `{Postcard T} {B} (x : T) (f : list Z → io SqliteStorageProvider SqlxError B) s s' r :
  (encode_by_ref x ≫= f) s = (s', r) → s' = s ∨ ∃ b, to_vec x = Ok b ∧ f b s = (s', r).
Proof.
  intros [(s1 & b & Hb & Hf)|(r' & [= -> _] & _)]%io_bind_cases; [|by left].
  injection Hb as <- Hb%map_err_Ok. right. eauto.
Qed.

Lemma encode_step {T} `{Postcard T} {B} (x : T) (f : list Z → io SqliteStorageProvider SqlxError B) b s :
  to_vec x = Ok b → (encode_by_ref x ≫= f) s = f b s.
Proof. intros Hb. apply io_bind_step. unfold encode_by_ref, io_result. by rewrite Hb. Qed.

Lemma encode_inv {T} `{Postcard T} {B} (x : T) (f : list Z → io SqliteStorageProvider SqlxError B) s s' a :
  (encode_by_ref x ≫= f) s = (s', Ok a) → ∃ b, to_vec x = Ok b ∧ f b s = (s', Ok a).
Proof.
  intros (s1 & b & Hb & Hf)%io_bind_inv. injection Hb as <- Hb%map_err_Ok. eauto.
Qed.

Lemma query_step {A B} (q : SqliteStorageProvider → A) (f : A → io SqliteStorageProvider SqlxError B) s :
  (query q ≫= f) s = f (q s) s.
Proof. done. Qed.

Lemma execute_cases f s s' r : execute f s = (s', r) → s' = s ∨ (f s = Ok s' ∧ r = Ok ()).
Proof. unfold execute. destruct (f s); naive_solver. Qed.

Lemma execute_Ok f s s' u : execute f s = (s', Ok u) → f s = Ok s'.
Proof. unfold execute. destruct (f s); naive_solver. Qed.

Lemma from_bytes_optional_same {T} `{Postcard T} (d : option (list Z)) s s' (r : result SqlxError (option T)) :
  from_bytes_optional d s = (s', r) → s' = s.
Proof.
  destruct d as [d|]; [|by intros [= <- _]].
  unfold from_bytes_optional, io_result, mbind, io_bind. by destruct (codec_from_bytes d); intros [= <- _].
Qed.

Lemma codec_roundtrip {T} `{Postcard T, !PostcardLaws T} (x : T) d :
  to_vec x = Ok d → codec_from_bytes d = Ok x.
Proof. intros Hx. unfold codec_from_bytes, from_slice. by rewrite (from_to_stdvec _ _ Hx). Qed.

Lemma from_bytes_optional_Some {T} `{Postcard T, !PostcardLaws T} (x : T) d s :
  to_vec x = Ok d → from_bytes_optional (Some d) s = (s, Ok (Some x)).
Proof.
  intros Hx. unfold from_bytes_optional, mbind, io_bind, io_result.
  by rewrite (codec_roundtrip _ _ Hx).
Qed.

Lemma row_of_key `{Countable K} {A} (m : gmap K A) k :
  filter (λ r, r.1 = k) (map_to_list m) ≡ₚ match m !! k with Some a => [(k, a)] | None => [] end.
Proof.
  apply NoDup_Permutation.
  - apply NoDup_filter, NoDup_map_to_list.
  - destruct (m !! k); [apply NoDup_singleton|constructor].
  - intros [k' a]. rewrite list_elem_of_filter, elem_of_map_to_list. cbn.
    destruct (m !! k) eqn:Hk; set_solver.
Qed.

(** ** Every call changes its own slots only *)
Section storage.
Context `{SqlOrder}.

Definition others_kept (P : slot → Prop) (s s' : SqliteStorageProvider) : Prop :=
  ∀ k, ¬ P k → contents s' k = contents s k.

Lemma kept_same P s : others_kept P s s.
Proof. by intros k _. Qed.

(** The effect of the three kinds of statements on one table. *)
Lemma kept_insert P f s s' r (t : SqliteStorageProvider → result SqlxError SqliteStorageProvider) :
  execute f s = (s', r) → (∀ s', f s = Ok s' → others_kept P s s') → others_kept P s s'.
Proof. intros [->|[Hf _]]%execute_cases Hk; [apply kept_same|by apply Hk]. Qed.

Ltac encodes H := repeat (apply encode_cases in H as [->|(? & ? & H)]; [apply kept_same|]).

Ltac other_slot :=
  intros [] Hk; unfold keyed_replace in *; cbn in *; try done;
  first
    [ rewrite lookup_insert_ne; [done|]
    | rewrite lookup_delete_ne; [done|]
    | rewrite map_lookup_filter ];
  try (intros [= ?]; apply Hk; subst; unfold at_key, at_keys; by eauto).

Ltac statement H :=
  apply execute_cases in H as [->|[H _]]; [apply kept_same|];
  try (apply bind_Ok in H as (? & [_ ->]%keyed_insert_Ok & H));
  try (case_bool_decide; [|done]);
  injection H as <-; other_slot.

Ltac reads H := encodes H; rewrite query_step in H; apply from_bytes_optional_same in H as ->; apply kept_same.

Lemma frame_store_group_data {G D} `{Postcard G, Postcard D} (d : D) (g : G) t s s' r :
  store_group_data d g t s = (s', r) → others_kept (at_key g (λ g, GroupSlot g t)) s s'.
Proof. unfold store_group_data. intros Hr. encodes Hr. statement Hr.
  intros [= -> ->%to_str_inj]. apply Hk. unfold at_key. by eauto.
Qed.

Lemma frame_delete_group_data {G} `{Postcard G} (g : G) t s s' r :
  delete_group_data g t s = (s', r) → others_kept (at_key g (λ g, GroupSlot g t)) s s'.
Proof. unfold delete_group_data. intros Hr. encodes Hr. statement Hr.
  intros [= -> ->%to_str_inj]. apply Hk. unfold at_key. by eauto.
Qed.

Lemma frame_load_group_data {G D} `{Postcard G, Postcard D} (g : G) t s s' (r : result _ (option D)) P :
  load_group_data g t s = (s', r) → others_kept P s s'.
Proof. unfold load_group_data. intros Hr. reads Hr. Qed.

Hint Unfold own_leaf_nodes queued_proposal_refs queued_proposals signature_key_pair
  encryption_key_pair encryption_epoch_key_pairs key_package psk load_leaf_nodes load_proposal_refs
  load_proposals load_signature_key load_encryption_key load_epoch_key_pairs load_key_package
  load_psk_bundle append_own_leaf_node store_leaf_node delete_own_leaf_nodes delete_leaf_nodes
  write_signature_key_pair store_signature_key delete_signature_key_pair delete_signature_key
  write_encryption_key_pair store_encryption_key delete_encryption_key_pair delete_encryption_key
  write_encryption_epoch_key_pairs store_epoch_key_pairs delete_encryption_epoch_key_pairs
  delete_epoch_key_pair write_key_package store_key_package delete_key_package delete_key_package_row
  write_psk store_psk_bundle delete_psk delete_psk_row queue_proposal store_proposal remove_proposal
  delete_proposal clear_proposal_queue delete_all_proposals : sqlx.

Definition reading {R} (c : request R) : Prop :=
  match c with
  | ReadGroupData _ _ | ReadLeafNodes _ | ReadProposalRefs _ | ReadProposals _ | ReadSignatureKey _
  | ReadEncryptionKey _ | ReadEpochKeys _ _ _ | ReadKeyPackage _ | ReadPsk _ => True
  | _ => False
  end.

Lemma keeps_query {A} (q : SqliteStorageProvider → A) : keeps (=) (query q).
Proof. by intros s s' r [= -> _]. Qed.

Lemma keeps_from_bytes {T} `{Postcard T} (d : option (list Z)) : keeps (=) (from_bytes_optional (T := T) d).
Proof. by intros s s' r ->%from_bytes_optional_same. Qed.

Hint Resolve keeps_query keeps_from_bytes : keeps.

(** Reading leaves the tables alone. *)
Lemma read_kept {R} (c : request R) : reading c → keeps (=) (run c).
Proof.
  intros Hc. destruct c; try done; cbn [run].
  { destruct t; unfold run_read; cbn; unfold encode_by_ref; keep. }
  all: cbn; autounfold with sqlx; unfold encode_by_ref; keep.
Qed.

Lemma run_frame {R} (c : request R) s s' r : run c s = (s', r) → others_kept (changes c) s s'.
Proof.
  destruct c;
    try (intros Hr; apply read_kept in Hr as ->; [apply kept_same|done]);
    cbn [run changes];
    try (by (destruct t; first [apply frame_store_group_data|apply frame_delete_group_data]));
    cbn; autounfold with sqlx; intros Hr; encodes Hr; statement Hr.
  destruct (proposal s !! _); cbn; [|done]. rewrite option_guard_True; [done|].
  intros ->. apply Hk. unfold at_key. by eauto.
Qed.

(** ** Reading what was changed

    [change_read c rd v k]: [c] changes the slot [k], and what [rd] returns
    after it is [v]. *)
Inductive change_read : request () → ∀ {R}, request R → R → slot → Prop :=
  | write_group t {G D} `{Postcard G, Postcard D, !PostcardLaws D} (g : G) (d : D) b :
      to_vec g = Ok b →
      change_read (WriteGroupData t g d) (ReadGroupData t g) (Some d) (GroupSlot b (item_type t))
  | delete_group t {G D} `{Postcard G, Postcard D} (g : G) b :
      to_vec g = Ok b →
      change_read (DeleteGroupData t g) (ReadGroupData (D := D) t g) None (GroupSlot b (item_type t))
  | append_leaf {G N} `{Postcard G, Postcard N, !PostcardLaws N} (g : G) (n : N) b :
      to_vec g = Ok b → change_read (AppendLeafNode g n) (ReadLeafNodes g) [n] (LeafSlot b)
  | delete_leaves {G N} `{Postcard G, Postcard N} (g : G) b :
      to_vec g = Ok b → change_read (DeleteLeafNodes g) (ReadLeafNodes (N := N) g) [] (LeafSlot b)
  | write_signature {K P} `{Postcard K, Postcard P, !PostcardLaws P} (x : K) (p : P) b :
      to_vec x = Ok b →
      change_read (WriteSignatureKey x p) (ReadSignatureKey x) (Some p) (SignatureSlot b)
  | delete_signature {K P} `{Postcard K, Postcard P} (x : K) b :
      to_vec x = Ok b →
      change_read (DeleteSignatureKey x) (ReadSignatureKey (P := P) x) None (SignatureSlot b)
  | write_encryption {K P} `{Postcard K, Postcard P, !PostcardLaws P} (x : K) (p : P) b :
      to_vec x = Ok b →
      change_read (WriteEncryptionKey x p) (ReadEncryptionKey x) (Some p) (EncryptionSlot b)
  | delete_encryption {K P} `{Postcard K, Postcard P} (x : K) b :
      to_vec x = Ok b →
      change_read (DeleteEncryptionKey x) (ReadEncryptionKey (P := P) x) None (EncryptionSlot b)
  | write_epoch {G O P} `{Postcard G, Postcard O, Postcard (list P), !PostcardLaws (list P)}
      (g : G) (e : O) i (ps : list P) b c :
      to_vec g = Ok b → to_vec e = Ok c →
      change_read (WriteEpochKeys g e i ps) (ReadEpochKeys g e i) ps (EpochSlot b c i)
  | delete_epoch {G O P} `{Postcard G, Postcard O, Postcard (list P)} (g : G) (e : O) i b c :
      to_vec g = Ok b → to_vec e = Ok c →
      change_read (DeleteEpochKeys g e i) (ReadEpochKeys (P := P) g e i) [] (EpochSlot b c i)
  | write_package {K P} `{Postcard K, Postcard P, !PostcardLaws P} (x : K) (p : P) b :
      to_vec x = Ok b →
      change_read (WriteKeyPackage x p) (ReadKeyPackage x) (Some p) (PackageSlot b)
  | delete_package {K P} `{Postcard K, Postcard P} (x : K) b :
      to_vec x = Ok b →
      change_read (DeleteKeyPackage x) (ReadKeyPackage (P := P) x) None (PackageSlot b)
  | write_shared {K P} `{Postcard K, Postcard P, !PostcardLaws P} (x : K) (p : P) b :
      to_vec x = Ok b → change_read (WritePsk x p) (ReadPsk x) (Some p) (PskSlot b)
  | delete_shared {K P} `{Postcard K, Postcard P} (x : K) b :
      to_vec x = Ok b → change_read (DeletePsk x) (ReadPsk (P := P) x) None (PskSlot b).

(** Calls that leave a slot alone. *)
Inductive undisturbed (k : slot) : SqliteStorageProvider → SqliteStorageProvider → Prop :=
  | undisturbed_refl s : undisturbed k s s
  | undisturbed_step {R} (c : request R) s s' r s'' :
      ¬ changes c k → run c s = (s', r) → undisturbed k s' s'' → undisturbed k s s''.

Lemma undisturbed_contents k s s' : undisturbed k s s' → contents s' k = contents s k.
Proof. induction 1 as [|R c s s' r s'' Hc Hr _ IH]; [done|]. rewrite IH. by eapply run_frame. Qed.

Ltac same_code :=
  repeat match goal with
  | H1 : to_vec ?x = Ok _, H2 : to_vec ?x = Ok _ |- _ => rewrite H1 in H2; injection H2 as <-
  end.

Lemma only_row `{!SqlOrderLaws} `{Countable K} {A} (m : gmap K A) k :
  sql_order (filter (λ r, r.1 = k) (map_to_list m)) =
  match m !! k with Some a => [(k, a)] | None => [] end.
Proof.
  pose proof (row_of_key m k) as Hp. rewrite <-(sql_order_perm (filter _ _)) in Hp.
  destruct (m !! k); [by apply Permutation_singleton_r|by apply Permutation_nil_r].
Qed.

(** Runs a call that ended well, and then the steps of a read. *)
Ltac changed H :=
  repeat (apply encode_inv in H as (? & ? & H)); same_code; apply execute_Ok in H;
  try (apply bind_Ok in H as (? & [_ ->]%keyed_insert_Ok & H));
  try (case_bool_decide; [|done]); injection H as <-.

Ltac read_slot Hs :=
  unfold keyed_replace in Hs; cbn in Hs; rewrite ?lookup_insert_eq, ?lookup_delete_eq in Hs;
  repeat (erewrite encode_step by eassumption); rewrite query_step; cbn beta; rewrite ?only_row, Hs.

Lemma run_write_group t {G D} `{Postcard G, Postcard D} (g : G) (d : D) :
  run_write t g d = store_group_data d g (item_type t).
Proof. by destruct t. Qed.

Lemma run_read_group t {G D} `{Postcard G, Postcard D} (g : G) :
  run_read (D := D) t g = load_group_data g (item_type t).
Proof. by destruct t. Qed.

Lemma run_delete_group t {G} `{Postcard G} (g : G) :
  run_delete t g = delete_group_data g (item_type t).
Proof. by destruct t. Qed.

Lemma change_then_read `{!SqlOrderLaws} {R} (c : request ()) (rd : request R) v k s s1 s2 :
  change_read c rd v k → run c s = (s1, Ok ()) → contents s2 k = contents s1 k → run rd s2 = (s2, Ok v).
Proof.
  intros Hw. revert s s1 s2. destruct Hw; cbn [run]; intros s s1 s2 Hr Hs;
    rewrite ?run_write_group, ?run_read_group, ?run_delete_group in *;
    cbn in Hr |- *; autounfold with sqlx in *; unfold store_group_data, load_group_data, delete_group_data in *.
  all: changed Hr; read_slot Hs.
  all: try done; try by apply from_bytes_optional_Some.
  - unfold io_result. cbn. by rewrite (codec_roundtrip _ _ H5).
  - erewrite io_bind_step by (by apply from_bytes_optional_Some). done.
Qed.

(** C17: What a read returns is what the last change left: after a value has
    been written or deleted, and whatever else is stored, deleted or read in
    between as long as it is about other slots, the read of that slot returns
    the value, or nothing after a deletion, and changes nothing. *)
Theorem last_change_is_read `{!SqlOrderLaws} {R} (c : request ()) (rd : request R) v k s s1 s2 :
  change_read c rd v k → run c s = (s1, Ok ()) → undisturbed k s1 s2 → run rd s2 = (s2, Ok v).
Proof. intros Hc Hr Hu%undisturbed_contents. by eapply change_then_read. Qed.

(** ** Writing again *)

(** Calls that insert a row: everything but the data of a group. *)
Inductive inserts : request () → slot → Prop :=
  | inserts_leaf {G N} `{Postcard G, Postcard N} (g : G) (n : N) b d :
      to_vec g = Ok b → to_vec n = Ok d → inserts (AppendLeafNode g n) (LeafSlot b)
  | inserts_proposal {G F P} `{Postcard G, Postcard F, Postcard P} (g : G) (f : F) (p : P) b c d :
      to_vec g = Ok b → to_vec f = Ok c → to_vec p = Ok d → inserts (QueueProposal g f p) (ProposalSlot b c)
  | inserts_signature {K P} `{Postcard K, Postcard P} (x : K) (p : P) b d :
      to_vec x = Ok b → to_vec p = Ok d → inserts (WriteSignatureKey x p) (SignatureSlot b)
  | inserts_encryption {K P} `{Postcard K, Postcard P} (x : K) (p : P) b d :
      to_vec x = Ok b → to_vec p = Ok d → inserts (WriteEncryptionKey x p) (EncryptionSlot b)
  | inserts_epoch {G O P} `{Postcard G, Postcard O, Postcard (list P)} (g : G) (e : O) i (ps : list P) b c d :
      to_vec g = Ok b → to_vec e = Ok c → to_vec ps = Ok d →
      inserts (WriteEpochKeys g e i ps) (EpochSlot b c i)
  | inserts_package {K P} `{Postcard K, Postcard P} (x : K) (p : P) b d :
      to_vec x = Ok b → to_vec p = Ok d → inserts (WriteKeyPackage x p) (PackageSlot b)
  | inserts_shared {K P} `{Postcard K, Postcard P} (x : K) (p : P) b d :
      to_vec x = Ok b → to_vec p = Ok d → inserts (WritePsk x p) (PskSlot b).

(** An insertion succeeds exactly on a free slot, and otherwise leaves the
    tables. *)
Lemma insert_outcome c k s :
  inserts c k →
  match contents s k with
  | Some _ => run c s = (s, Err UniqueViolation)
  | None => ∃ s', run c s = (s', Ok ()) ∧ is_Some (contents s' k)
  end.
Proof.
  destruct 1; cbn; autounfold with sqlx; repeat (erewrite encode_step by eassumption);
    unfold execute, keyed_insert; destruct (_ !! _) eqn:Hk; cbn; try done;
    (eexists; split; [done|]; cbn; rewrite lookup_insert_eq; by eexists).
Qed.

(** Group data can be written over, whatever its kind and whatever is
    stored. Everything else is written once: a second write of the same
    signature key, encryption key, epoch, key package, pre-shared key,
    proposal or of a second own leaf node of a group fails, however much else
    has happened in between, and leaves the storage as it is. *)
Theorem second_write {G D} `{Postcard G, Postcard D} t (g : G) (d : D) b e c c' k s s1 s2 :
  to_vec g = Ok b → to_vec d = Ok e →
  inserts c k → inserts c' k → run c s = (s1, Ok ()) → undisturbed k s1 s2 →
  (∃ s', run (WriteGroupData t g d) s2 = (s', Ok ()) ∧ contents s' (GroupSlot b (item_type t)) = Some e) ∧
  run c' s2 = (s2, Err UniqueViolation).
Proof.
  intros Hg Hd Hc Hc' Hr Hu. split.
  - cbn [run]. rewrite run_write_group. unfold store_group_data. do 2 (erewrite encode_step by eassumption).
    unfold execute. rewrite bool_decide_true by (destruct t; vm_compute; set_solver). eexists. split; [done|].
    cbn. apply lookup_insert_eq.
  - pose proof (insert_outcome c' k s2 Hc') as Hs. rewrite (undisturbed_contents _ _ _ Hu) in Hs.
    pose proof (insert_outcome c k s Hc) as Hins. destruct (contents s k); [congruence|].
    destruct Hins as (s' & Hr' & [x Hx]). rewrite Hr in Hr'. injection Hr' as <-. by rewrite Hx in Hs.
Qed.

(** ** The queue of proposals of a group *)
Lemma elem_of_group_rows b m r : r ∈ group_rows b m ↔ r.1.1 = b ∧ m !! r.1 = Some r.2.
Proof. unfold group_rows. rewrite list_elem_of_filter. destruct r as [k a]. by rewrite elem_of_map_to_list. Qed.

Lemma NoDup_group_rows b m : NoDup (group_rows b m).
Proof. apply NoDup_filter, NoDup_map_to_list. Qed.

Lemma group_rows_same b m m' : (∀ f, m' !! (b, f) = m !! (b, f)) → group_rows b m' ≡ₚ group_rows b m.
Proof.
  intros Hm. apply NoDup_Permutation; [apply NoDup_group_rows..|].
  intros [[b' f] a]. rewrite !elem_of_group_rows. cbn. split; intros [-> Ha]; (split; [done|]);
    [by rewrite <-Hm|by rewrite Hm].
Qed.

Lemma group_rows_insert b f a m :
  m !! (b, f) = None → group_rows b (<[(b, f) := a]> m) ≡ₚ (b, f, a) :: group_rows b m.
Proof. intros Hm. unfold group_rows. rewrite map_to_list_insert by done. by rewrite filter_cons_True. Qed.

Lemma group_rows_delete b f m :
  group_rows b (delete (b, f) m) ≡ₚ filter (λ r, r.1.2 ≠ f) (group_rows b m).
Proof.
  apply NoDup_Permutation; [apply NoDup_group_rows|apply NoDup_filter, NoDup_group_rows|].
  intros [[b' f'] a]. rewrite list_elem_of_filter, !elem_of_group_rows, lookup_delete_Some. cbn.
  split; [intros (-> & Hf & Hm)|intros (Hf & -> & Hm)]; split_and!; congruence.
Qed.

Lemma group_rows_clear b m : group_rows b (filter (λ r, r.1.1 ≠ b) m) = [].
Proof.
  apply elem_of_nil_inv. intros r (Hb & [_ Hr]%map_lookup_filter_Some)%elem_of_group_rows. done.
Qed.

Section queue.
Context {G F P : Type} `{EqDecision F} `{Postcard G, Postcard F, Postcard P}.

(** The row that stores a proposal under its reference, and the tables
    storing a queue. *)
Definition row_of (b : list Z) (r : list Z * list Z * list Z) (x : F * P) : Prop :=
  r.1.1 = b ∧ to_vec x.1 = Ok r.1.2 ∧ to_vec x.2 = Ok r.2.

Definition queue_is (s : SqliteStorageProvider) (g : G) (q : list (F * P)) : Prop :=
  ∃ b rows, to_vec g = Ok b ∧ group_rows b (proposal s) ≡ₚ rows ∧ Forall2 (row_of b) rows q.

Definition encodable {T} `{Postcard T} (x : T) : Prop := ∃ b, to_vec x = Ok b.

Lemma encoding_inj {T} `{Postcard T, !PostcardLaws T} (x y : T) b :
  to_vec x = Ok b → to_vec y = Ok b → x = y.
Proof. intros Hx%codec_roundtrip Hy%codec_roundtrip. congruence. Qed.

Lemma decode_row `{!PostcardLaws F, !PostcardLaws P} b r x : row_of b r x → decode_proposal r = Ok x.
Proof.
  intros (_ & Hx & Hp). unfold decode_proposal. rewrite (codec_roundtrip _ _ Hx). cbn.
  rewrite (codec_roundtrip _ _ Hp). by destruct x.
Qed.

Lemma row_of_decode `{!PostcardLaws F, !PostcardLaws P} b rows q :
  Forall2 (row_of b) rows q → collectM decode_proposal rows = Ok q.
Proof. induction 1 as [|r x rows q Hr _ IH]; [done|]. cbn. rewrite (decode_row _ _ _ Hr). cbn. by rewrite IH. Qed.

Lemma row_of_decode_refs `{!PostcardLaws F} b rows q :
  Forall2 (row_of b) rows q → collectM codec_from_bytes rows.*1.*2 = Ok q.*1.
Proof.
  induction 1 as [|[[b' f] a] [x p] rows q (_ & Hx & Hp) _ IH]; [done|]. cbn in *.
  rewrite (codec_roundtrip _ _ Hx). cbn. by rewrite IH.
Qed.

Lemma row_of_filter `{!PostcardLaws F} b f x rows q :
  to_vec x = Ok f → Forall2 (row_of b) rows q →
  Forall2 (row_of b) (filter (λ r, r.1.2 ≠ f) rows) (filter (λ y, y.1 ≠ x) q).
Proof.
  intros Hx. induction 1 as [|[[b' f'] a] [y p] rows q Hr _ IH]; [constructor|].
  destruct (decide (f' = f)) as [->|Hf], (decide (y = x)) as [->|Hy].
  - by rewrite !filter_cons_False by (cbn; naive_solver).
  - destruct Hy. destruct Hr as (_ & Hy & _). by eapply encoding_inj.
  - destruct Hf. destruct Hr as (_ & Hy & _). cbn in Hy. congruence.
  - rewrite !filter_cons_True by done. by constructor.
Qed.

Lemma row_of_elem `{!PostcardLaws F} b f x rows q :
  to_vec x = Ok f → Forall2 (row_of b) rows q → x ∈ q.*1 ↔ f ∈ rows.*1.*2.
Proof.
  intros Hx. induction 1 as [|[[b' f'] a] [y p] rows q (_ & Hy & _) _ IH].
  { by split; intros ?%elem_of_nil. }
  cbn in *. rewrite !elem_of_cons, IH. split; intros [->|?]; auto.
  - rewrite Hx in Hy. injection Hy as ->. by left.
  - left. by eapply encoding_inj.
Qed.

Lemma queue_read `{!SqlOrderLaws, !PostcardLaws F, !PostcardLaws P} s g (q : list (F * P)) :
  queue_is s g q → ∃ l, run (ReadProposals g) s = (s, Ok l) ∧ l ≡ₚ q.
Proof.
  intros (b & rows & Hg & Hrows & Hq).
  rewrite <-(sql_order_perm (group_rows _ _)) in Hrows. symmetry in Hrows.
  destruct (Permutation_Forall2 Hrows Hq) as (q' & Hp & Hf). exists q'. split; [|done].
  cbn. autounfold with sqlx. erewrite encode_step by done. rewrite query_step. unfold io_result.
  by rewrite (row_of_decode _ _ _ Hf).
Qed.

Lemma queue_read_refs `{!SqlOrderLaws, !PostcardLaws F} s g (q : list (F * P)) :
  queue_is s g q → ∃ l, run (ReadProposalRefs (F := F) g) s = (s, Ok l) ∧ l ≡ₚ q.*1.
Proof.
  intros (b & rows & Hg & Hrows & Hq).
  assert (sql_order (group_rows b (proposal s)).*1.*2 ≡ₚ rows.*1.*2) as Hp.
  { rewrite sql_order_perm. by rewrite Hrows. }
  pose proof (row_of_decode_refs _ _ _ Hq) as Hd. apply collectM_Ok in Hd.
  symmetry in Hp. destruct (Permutation_Forall2 Hp Hd) as (l & Hl & Hf). exists l. split; [|done].
  cbn. autounfold with sqlx. erewrite encode_step by done. rewrite query_step. unfold io_result.
  f_equal. by apply collectM_Ok.
Qed.

Lemma queue_add `{!PostcardLaws F} s g (q : list (F * P)) f p :
  queue_is s g q → encodable f → encodable p →
  (f ∈ q.*1 → run (QueueProposal g f p) s = (s, Err UniqueViolation)) ∧
  (f ∉ q.*1 → ∃ s', run (QueueProposal g f p) s = (s', Ok ()) ∧ queue_is s' g ((f, p) :: q)).
Proof.
  intros (b & rows & Hg & Hrows & Hq) [c Hf] [d Hp].
  assert (f ∈ q.*1 ↔ is_Some (proposal s !! (b, c))) as Hin.
  { rewrite (row_of_elem _ _ _ _ _ Hf Hq), <-Hrows. split.
    - intros ([k1 k2] & -> & ([[? ?] a] & [= -> ->] & [Hb Ha]%elem_of_group_rows)%list_elem_of_fmap)%list_elem_of_fmap.
      cbn in *. subst. by exists a.
    - intros [a Ha]. apply list_elem_of_fmap. exists (b, c). split; [done|].
      apply list_elem_of_fmap. exists (b, c, a). split; [done|]. by apply elem_of_group_rows. }
  cbn. autounfold with sqlx. do 3 (erewrite encode_step by done). unfold execute, keyed_insert.
  rewrite Hin. destruct (proposal s !! (b, c)) eqn:Hk; cbn; split; intros Ho; try done.
  - destruct Ho. by eexists.
  - eexists. split; [done|]. exists b, ((b, c, d) :: rows). split_and!; [done| |by constructor].
    cbn. by rewrite group_rows_insert, Hrows.
Qed.

Lemma queue_remove `{!PostcardLaws F} s g (q : list (F * P)) f :
  queue_is s g q → encodable f →
  ∃ s', run (RemoveProposal g f) s = (s', Ok ()) ∧ queue_is s' g (filter (λ x, x.1 ≠ f) q).
Proof.
  intros (b & rows & Hg & Hrows & Hq) [c Hf]. eexists. split.
  { cbn. autounfold with sqlx. do 2 (erewrite encode_step by done). done. }
  exists b, (filter (λ r, r.1.2 ≠ c) rows). split_and!; [done| |by apply row_of_filter].
  cbn. by rewrite group_rows_delete, Hrows.
Qed.

Lemma queue_clear s g (q : list (F * P)) :
  queue_is s g q → ∃ s', run (ClearProposals g) s = (s', Ok ()) ∧ queue_is s' g ([] : list (F * P)).
Proof.
  intros (b & rows & Hg & Hrows & Hq). eexists. split.
  { cbn. autounfold with sqlx. erewrite encode_step by done. done. }
  exists b, []. split_and!; [done| |constructor]. cbn. by rewrite group_rows_clear.
Qed.

Lemma queue_frame s s' g (q : list (F * P)) {R} (c : request R) r :
  queue_is s g q → (∀ b f, to_vec g = Ok b → ¬ changes c (ProposalSlot b f)) →
  run c s = (s', r) → queue_is s' g q.
Proof.
  intros (b & rows & Hg & Hrows & Hq) Hc Hr%run_frame. exists b, rows. split_and!; [done| |done].
  rewrite <-Hrows. apply group_rows_same. intros f. exact (Hr (ProposalSlot b f) (Hc b f Hg)).
Qed.

(** The proposals of a group are a queue keyed by their references: reading
    returns them, and their references, in some order; queueing adds one
    unless its reference is there already, when nothing changes; removing
    takes out the one with the reference; clearing empties the queue; and no
    call about anything else touches it. *)
Theorem proposal_queue `{!SqlOrderLaws, !PostcardLaws F, !PostcardLaws P} s g (q : list (F * P)) :
  queue_is s g q →
  (∃ l, run (ReadProposals g) s = (s, Ok l) ∧ l ≡ₚ q) ∧
  (∃ l, run (ReadProposalRefs (F := F) g) s = (s, Ok l) ∧ l ≡ₚ q.*1) ∧
  (∀ f p, encodable f → encodable p →
     (f ∈ q.*1 → run (QueueProposal g f p) s = (s, Err UniqueViolation)) ∧
     (f ∉ q.*1 → ∃ s', run (QueueProposal g f p) s = (s', Ok ()) ∧ queue_is s' g ((f, p) :: q))) ∧
  (∀ f, encodable f →
     ∃ s', run (RemoveProposal g f) s = (s', Ok ()) ∧ queue_is s' g (filter (λ x, x.1 ≠ f) q)) ∧
  (∃ s', run (ClearProposals g) s = (s', Ok ()) ∧ queue_is s' g []) ∧
  (∀ R (c : request R) s' r,
     (∀ b f, to_vec g = Ok b → ¬ changes c (ProposalSlot b f)) → run c s = (s', r) → queue_is s' g q).
Proof.
  intros Hq. split_and!.
  - by apply queue_read.
  - by apply queue_read_refs.
  - intros f p. by apply queue_add.
  - intros f. by apply queue_remove.
  - by eapply queue_clear.
  - intros R c s' r Hc Hr. by eapply queue_frame.
Qed.
End queue.
End storage.

(** ** Group data types

    Every kind is read back from its text, and is a value the column check
    admits. *)
Lemma group_data_type_roundtrip t : from_str (to_str t) = Some t ∧ to_str t ∈ data_types.
Proof. split; [by destruct t|]. destruct t; vm_compute; set_solver. Qed.

(** ** Worked examples: keys and values are numbers *)
#[local] Instance postcard_number : Postcard Z := {|
  to_stdvec z := Ok [z];
  from_bytes b := match b with [z] => Ok z | _ => Err "number"%string end;
|}.
#[local] Instance postcard_number_laws : PostcardLaws Z.
Proof. split. by intros x b [= <-]. Qed.
#[local] Instance postcard_numbers : Postcard (list Z) := {| to_stdvec := Ok; from_bytes := Ok |}.
#[local] Instance postcard_numbers_laws : PostcardLaws (list Z).
Proof. split. by intros x b [= <-]. Qed.

#[local] Instance toy_order : SqlOrder := λ A l, l.
#[local] Instance toy_order_laws : SqlOrderLaws.
Proof. split. done. Qed.

Definition write_7 : request () := WriteGroupData TheTree 7 70.
Definition write_8 : request () := WriteGroupData TheTree 8 80.
Definition leaf_7 (n : Z) : request () := AppendLeafNode 7 n.

Lemma last_change_is_read_witness :
  let s1 := (run write_7 empty_storage).1 in
  let s2 := (run write_8 s1).1 in
  run (ReadGroupData TheTree 7) s2 = (s2, Ok (Some 70)).
Proof.
  intros s1 s2.
  apply (last_change_is_read write_7 _ _ (GroupSlot [7] Tree) empty_storage s1 s2).
  - by apply (write_group TheTree).
  - reflexivity.
  - eapply (undisturbed_step _ write_8); [|reflexivity|constructor].
    intros (b & [= <-] & [=]).
Defined.

Lemma second_write_witness :
  let s1 := (run (leaf_7 1) empty_storage).1 in
  (∃ s', run write_8 s1 = (s', Ok ()) ∧ contents s' (GroupSlot [8] Tree) = Some [80]) ∧
  run (leaf_7 2) s1 = (s1, Err UniqueViolation).
Proof.
  intros s1.
  apply (second_write TheTree 8 80 [8] [80] (leaf_7 1) (leaf_7 2) (LeafSlot [7]) empty_storage s1 s1).
  - reflexivity.
  - reflexivity.
  - by eapply inserts_leaf.
  - by eapply inserts_leaf.
  - reflexivity.
  - constructor.
Defined.

Lemma proposal_queue_witness :
  ∃ s1 s2, run (QueueProposal 7 1 10) empty_storage = (s1, Ok ()) ∧ queue_is s1 7 [(1, 10)] ∧
    run (QueueProposal 7 1 11) s1 = (s1, Err UniqueViolation) ∧
    run (RemoveProposal 7 1) s1 = (s2, Ok ()) ∧ queue_is s2 7 ([] : list (Z * Z)).
Proof.
  assert (queue_is empty_storage 7 ([] : list (Z * Z))) as H0.
  { exists [7], []. split_and!; [done|reflexivity|constructor]. }
  destruct (proposal_queue empty_storage 7 [] H0) as (_ & _ & Hadd & _).
  destruct (proj2 (Hadd 1 10 ltac:(by eexists) ltac:(by eexists)) ltac:(set_solver)) as (s1 & Hr1 & H1).
  destruct (proposal_queue s1 7 _ H1) as (_ & _ & Hadd1 & Hrem & _).
  destruct (Hrem 1 ltac:(by eexists)) as (s2 & Hr2 & H2).
  exists s1, s2. split_and!; try done.
  apply (proj1 (Hadd1 1 11 ltac:(by eexists) ltac:(by eexists))). cbn. set_solver.
Defined.
