(* ===== verification/Provider.v ===== *)
(** * The storage of the program's MLS groups ([svalin_pki/src/mls/provider.rs])

    Servers and agents keep their groups in SQLite; a client keeps them in
    memory, and sends the server an encrypted export. The memory is shared
    between the storage and the handle that exports it: both hold an [Arc]
    of it, here its index among the memories of the process. The in-memory
    provider itself is the MLS library's. *)
From S2P Require Import Prelude.
From S2P Require Import External.
From S2P Require Import Encrypt.
From S2P Require Import Sql.
From S2P Require Import StorageTrait.
From S2P Require Import SqlxStorage.
From stdpp Require Import options.

(** [openmls_rust_crypto::MemoryStorage]: its public field. *)
Record MemoryStorage := mkMemoryStorage { values : gmap (list Z) (list Z) }.

Inductive SvalinStorage :=
  | Sqlite (sqlite : SqliteStorageProvider)
  | Memory (arc : nat).

Inductive SvalinStorageError (MemoryStorageError : Type) :=
  | SqliteError (e : SqlxError)
  | MemoryError (e : MemoryStorageError).
Arguments SqliteError {_} _.
Arguments MemoryError {_} _.

Record ExportHandle := mkExportHandle { handle_memory : nat }.

(** The memories of the process, and the storage in use. *)
Record Process := mkProcess { memories : list MemoryStorage; storage : SvalinStorage }.

Record ExportedMlsStore := mkExportedMlsStore {
  exported_mls : EncryptedObject (gmap (list Z) (list Z)) }.

Definition from_sqlite (sqlite : SqliteStorageProvider) : SvalinStorage := Sqlite sqlite.

Definition new_memory (arcs : list MemoryStorage) : list MemoryStorage * (SvalinStorage * ExportHandle) :=
  (arcs ++ [mkMemoryStorage ∅], (Memory (length arcs), mkExportHandle (length arcs))).

Section export.
Context `{Aead, Postcard (gmap (list Z) (list Z))}.

Definition import (map : ExportedMlsStore) (key : EncryptionKey) (arcs : list MemoryStorage) :
    result DecryptError (list MemoryStorage * (SvalinStorage * ExportHandle)) :=
  decrypted ← decrypt_object (exported_mls map) key;
  Ok (arcs ++ [mkMemoryStorage decrypted], (Memory (length arcs), mkExportHandle (length arcs))).

Definition export (self : ExportHandle) (random : list Z) (key : EncryptionKey) (arcs : list MemoryStorage) :
    result EncryptError ExportedMlsStore :=
  memory ← expect (arcs !! handle_memory self);
  encrypted ← encrypt_object random (values memory) key;
  Ok (mkExportedMlsStore encrypted).
End export.

(** ** Delegation *)
Section delegation.
Context `{SqlOrder} {MemoryStorageError : Type} `{!StorageProvider MemoryStorage MemoryStorageError}.

Abbreviation storage_io := (io Process (SvalinStorageError MemoryStorageError)).

(** [match self { Sqlite(s) => ..., Memory(m) => ... }], with the error of
    either side wrapped. *)
Definition delegate {R} (on_sqlite : io SqliteStorageProvider SqlxError R)
    (on_memory : io MemoryStorage MemoryStorageError R) : storage_io R := λ p,
  match storage p with
  | Sqlite sqlite =>
      let '(sqlite, r) := on_sqlite sqlite in
      (mkProcess (memories p) (Sqlite sqlite), map_err SqliteError r)
  | Memory arc =>
      match memories p !! arc with
      | Some memory =>
          let '(memory, r) := on_memory memory in
          (mkProcess (<[arc := memory]> (memories p)) (Memory arc), map_err MemoryError r)
      | None => (p, Panic)
      end
  end.

Definition write_mls_join_config {GroupId Data} `{Postcard GroupId, Postcard Data} (group_id : GroupId) (data : Data) : storage_io () :=
  delegate (StorageTrait.write_mls_join_config group_id data) (StorageTrait.write_mls_join_config group_id data).
Definition write_tree {GroupId Data} `{Postcard GroupId, Postcard Data} (group_id : GroupId) (data : Data) : storage_io () :=
  delegate (StorageTrait.write_tree group_id data) (StorageTrait.write_tree group_id data).
Definition write_interim_transcript_hash {GroupId Data} `{Postcard GroupId, Postcard Data} (group_id : GroupId) (data : Data) : storage_io () :=
  delegate (StorageTrait.write_interim_transcript_hash group_id data) (StorageTrait.write_interim_transcript_hash group_id data).
Definition write_context {GroupId Data} `{Postcard GroupId, Postcard Data} (group_id : GroupId) (data : Data) : storage_io () :=
  delegate (StorageTrait.write_context group_id data) (StorageTrait.write_context group_id data).
Definition write_confirmation_tag {GroupId Data} `{Postcard GroupId, Postcard Data} (group_id : GroupId) (data : Data) : storage_io () :=
  delegate (StorageTrait.write_confirmation_tag group_id data) (StorageTrait.write_confirmation_tag group_id data).
Definition write_group_state {GroupId Data} `{Postcard GroupId, Postcard Data} (group_id : GroupId) (data : Data) : storage_io () :=
  delegate (StorageTrait.write_group_state group_id data) (StorageTrait.write_group_state group_id data).
Definition write_message_secrets {GroupId Data} `{Postcard GroupId, Postcard Data} (group_id : GroupId) (data : Data) : storage_io () :=
  delegate (StorageTrait.write_message_secrets group_id data) (StorageTrait.write_message_secrets group_id data).
Definition write_resumption_psk_store {GroupId Data} `{Postcard GroupId, Postcard Data} (group_id : GroupId) (data : Data) : storage_io () :=
  delegate (StorageTrait.write_resumption_psk_store group_id data) (StorageTrait.write_resumption_psk_store group_id data).
Definition write_own_leaf_index {GroupId Data} `{Postcard GroupId, Postcard Data} (group_id : GroupId) (data : Data) : storage_io () :=
  delegate (StorageTrait.write_own_leaf_index group_id data) (StorageTrait.write_own_leaf_index group_id data).
Definition write_group_epoch_secrets {GroupId Data} `{Postcard GroupId, Postcard Data} (group_id : GroupId) (data : Data) : storage_io () :=
  delegate (StorageTrait.write_group_epoch_secrets group_id data) (StorageTrait.write_group_epoch_secrets group_id data).
Definition mls_group_join_config {GroupId Data} `{Postcard GroupId, Postcard Data} (group_id : GroupId) : storage_io (option Data) :=
  delegate (StorageTrait.mls_group_join_config group_id) (StorageTrait.mls_group_join_config group_id).
Definition tree {GroupId Data} `{Postcard GroupId, Postcard Data} (group_id : GroupId) : storage_io (option Data) :=
  delegate (StorageTrait.tree group_id) (StorageTrait.tree group_id).
Definition interim_transcript_hash {GroupId Data} `{Postcard GroupId, Postcard Data} (group_id : GroupId) : storage_io (option Data) :=
  delegate (StorageTrait.interim_transcript_hash group_id) (StorageTrait.interim_transcript_hash group_id).
Definition group_context {GroupId Data} `{Postcard GroupId, Postcard Data} (group_id : GroupId) : storage_io (option Data) :=
  delegate (StorageTrait.group_context group_id) (StorageTrait.group_context group_id).
Definition confirmation_tag {GroupId Data} `{Postcard GroupId, Postcard Data} (group_id : GroupId) : storage_io (option Data) :=
  delegate (StorageTrait.confirmation_tag group_id) (StorageTrait.confirmation_tag group_id).
Definition group_state {GroupId Data} `{Postcard GroupId, Postcard Data} (group_id : GroupId) : storage_io (option Data) :=
  delegate (StorageTrait.group_state group_id) (StorageTrait.group_state group_id).
Definition message_secrets {GroupId Data} `{Postcard GroupId, Postcard Data} (group_id : GroupId) : storage_io (option Data) :=
  delegate (StorageTrait.message_secrets group_id) (StorageTrait.message_secrets group_id).
Definition resumption_psk_store {GroupId Data} `{Postcard GroupId, Postcard Data} (group_id : GroupId) : storage_io (option Data) :=
  delegate (StorageTrait.resumption_psk_store group_id) (StorageTrait.resumption_psk_store group_id).
Definition own_leaf_index {GroupId Data} `{Postcard GroupId, Postcard Data} (group_id : GroupId) : storage_io (option Data) :=
  delegate (StorageTrait.own_leaf_index group_id) (StorageTrait.own_leaf_index group_id).
Definition group_epoch_secrets {GroupId Data} `{Postcard GroupId, Postcard Data} (group_id : GroupId) : storage_io (option Data) :=
  delegate (StorageTrait.group_epoch_secrets group_id) (StorageTrait.group_epoch_secrets group_id).
Definition delete_group_config {GroupId} `{Postcard GroupId} (group_id : GroupId) : storage_io () :=
  delegate (StorageTrait.delete_group_config group_id) (StorageTrait.delete_group_config group_id).
Definition delete_tree {GroupId} `{Postcard GroupId} (group_id : GroupId) : storage_io () :=
  delegate (StorageTrait.delete_tree group_id) (StorageTrait.delete_tree group_id).
Definition delete_interim_transcript_hash {GroupId} `{Postcard GroupId} (group_id : GroupId) : storage_io () :=
  delegate (StorageTrait.delete_interim_transcript_hash group_id) (StorageTrait.delete_interim_transcript_hash group_id).
Definition delete_context {GroupId} `{Postcard GroupId} (group_id : GroupId) : storage_io () :=
  delegate (StorageTrait.delete_context group_id) (StorageTrait.delete_context group_id).
Definition delete_confirmation_tag {GroupId} `{Postcard GroupId} (group_id : GroupId) : storage_io () :=
  delegate (StorageTrait.delete_confirmation_tag group_id) (StorageTrait.delete_confirmation_tag group_id).
Definition delete_group_state {GroupId} `{Postcard GroupId} (group_id : GroupId) : storage_io () :=
  delegate (StorageTrait.delete_group_state group_id) (StorageTrait.delete_group_state group_id).
Definition delete_message_secrets {GroupId} `{Postcard GroupId} (group_id : GroupId) : storage_io () :=
  delegate (StorageTrait.delete_message_secrets group_id) (StorageTrait.delete_message_secrets group_id).
Definition delete_all_resumption_psk_secrets {GroupId} `{Postcard GroupId} (group_id : GroupId) : storage_io () :=
  delegate (StorageTrait.delete_all_resumption_psk_secrets group_id) (StorageTrait.delete_all_resumption_psk_secrets group_id).
Definition delete_own_leaf_index {GroupId} `{Postcard GroupId} (group_id : GroupId) : storage_io () :=
  delegate (StorageTrait.delete_own_leaf_index group_id) (StorageTrait.delete_own_leaf_index group_id).
Definition delete_group_epoch_secrets {GroupId} `{Postcard GroupId} (group_id : GroupId) : storage_io () :=
  delegate (StorageTrait.delete_group_epoch_secrets group_id) (StorageTrait.delete_group_epoch_secrets group_id).
Definition append_own_leaf_node {GroupId LeafNode} `{Postcard GroupId, Postcard LeafNode} (group_id : GroupId) (leaf_node : LeafNode) : storage_io () :=
  delegate (StorageTrait.append_own_leaf_node group_id leaf_node) (StorageTrait.append_own_leaf_node group_id leaf_node).
Definition own_leaf_nodes {GroupId LeafNode} `{Postcard GroupId, Postcard LeafNode} (group_id : GroupId) : storage_io (list LeafNode) :=
  delegate (StorageTrait.own_leaf_nodes group_id) (StorageTrait.own_leaf_nodes group_id).
Definition delete_own_leaf_nodes {GroupId} `{Postcard GroupId} (group_id : GroupId) : storage_io () :=
  delegate (StorageTrait.delete_own_leaf_nodes group_id) (StorageTrait.delete_own_leaf_nodes group_id).
Definition queue_proposal {GroupId ProposalRef Proposal} `{Postcard GroupId, Postcard ProposalRef, Postcard Proposal} 
    (group_id : GroupId) (proposal_ref : ProposalRef) (proposal : Proposal) : storage_io () :=
  delegate (StorageTrait.queue_proposal group_id proposal_ref proposal) (StorageTrait.queue_proposal group_id proposal_ref proposal).
Definition queued_proposal_refs {GroupId ProposalRef} `{Postcard GroupId, Postcard ProposalRef} (group_id : GroupId) : storage_io (list ProposalRef) :=
  delegate (StorageTrait.queued_proposal_refs group_id) (StorageTrait.queued_proposal_refs group_id).
Definition queued_proposals {GroupId ProposalRef Proposal} `{Postcard GroupId, Postcard ProposalRef, Postcard Proposal} 
    (group_id : GroupId) : storage_io (list (ProposalRef * Proposal)) :=
  delegate (StorageTrait.queued_proposals group_id) (StorageTrait.queued_proposals group_id).
Definition remove_proposal {GroupId ProposalRef} `{Postcard GroupId, Postcard ProposalRef} (group_id : GroupId) (proposal_ref : ProposalRef) : storage_io () :=
  delegate (StorageTrait.remove_proposal group_id proposal_ref) (StorageTrait.remove_proposal group_id proposal_ref).
Definition clear_proposal_queue {GroupId} `{Postcard GroupId} (group_id : GroupId) : storage_io () :=
  delegate (StorageTrait.clear_proposal_queue group_id) (StorageTrait.clear_proposal_queue group_id).
Definition write_signature_key_pair {Key Value} `{Postcard Key, Postcard Value} (public_key : Key) (pair : Value) : storage_io () :=
  delegate (StorageTrait.write_signature_key_pair public_key pair) (StorageTrait.write_signature_key_pair public_key pair).
Definition signature_key_pair {Key Value} `{Postcard Key, Postcard Value} (public_key : Key) : storage_io (option Value) :=
  delegate (StorageTrait.signature_key_pair public_key) (StorageTrait.signature_key_pair public_key).
Definition delete_signature_key_pair {Key} `{Postcard Key} (public_key : Key) : storage_io () :=
  delegate (StorageTrait.delete_signature_key_pair public_key) (StorageTrait.delete_signature_key_pair public_key).
Definition write_encryption_key_pair {Key Value} `{Postcard Key, Postcard Value} (public_key : Key) (pair : Value) : storage_io () :=
  delegate (StorageTrait.write_encryption_key_pair public_key pair) (StorageTrait.write_encryption_key_pair public_key pair).
Definition encryption_key_pair {Key Value} `{Postcard Key, Postcard Value} (public_key : Key) : storage_io (option Value) :=
  delegate (StorageTrait.encryption_key_pair public_key) (StorageTrait.encryption_key_pair public_key).
Definition delete_encryption_key_pair {Key} `{Postcard Key} (public_key : Key) : storage_io () :=
  delegate (StorageTrait.delete_encryption_key_pair public_key) (StorageTrait.delete_encryption_key_pair public_key).
Definition write_key_package {Key Value} `{Postcard Key, Postcard Value} (hash_ref : Key) (package : Value) : storage_io () :=
  delegate (StorageTrait.write_key_package hash_ref package) (StorageTrait.write_key_package hash_ref package).
Definition key_package {Key Value} `{Postcard Key, Postcard Value} (hash_ref : Key) : storage_io (option Value) :=
  delegate (StorageTrait.key_package hash_ref) (StorageTrait.key_package hash_ref).
Definition delete_key_package {Key} `{Postcard Key} (hash_ref : Key) : storage_io () :=
  delegate (StorageTrait.delete_key_package hash_ref) (StorageTrait.delete_key_package hash_ref).
Definition write_psk {Key Value} `{Postcard Key, Postcard Value} (psk_id : Key) (bundle : Value) : storage_io () :=
  delegate (StorageTrait.write_psk psk_id bundle) (StorageTrait.write_psk psk_id bundle).
Definition psk {Key Value} `{Postcard Key, Postcard Value} (psk_id : Key) : storage_io (option Value) :=
  delegate (StorageTrait.psk psk_id) (StorageTrait.psk psk_id).
Definition delete_psk {Key} `{Postcard Key} (psk_id : Key) : storage_io () :=
  delegate (StorageTrait.delete_psk psk_id) (StorageTrait.delete_psk psk_id).
Definition write_encryption_epoch_key_pairs {GroupId Epoch Pair} `{Postcard GroupId, Postcard Epoch, Postcard (list Pair)} 
    (group_id : GroupId) (epoch : Epoch) (leaf_index : Z) (key_pairs : list Pair) : storage_io () :=
  delegate (StorageTrait.write_encryption_epoch_key_pairs group_id epoch leaf_index key_pairs) (StorageTrait.write_encryption_epoch_key_pairs group_id epoch leaf_index key_pairs).
Definition encryption_epoch_key_pairs {GroupId Epoch Pair} `{Postcard GroupId, Postcard Epoch, Postcard (list Pair)} 
    (group_id : GroupId) (epoch : Epoch) (leaf_index : Z) : storage_io (list Pair) :=
  delegate (StorageTrait.encryption_epoch_key_pairs group_id epoch leaf_index) (StorageTrait.encryption_epoch_key_pairs group_id epoch leaf_index).
Definition delete_encryption_epoch_key_pairs {GroupId Epoch} `{Postcard GroupId, Postcard Epoch} 
    (group_id : GroupId) (epoch : Epoch) (leaf_index : Z) : storage_io () :=
  delegate (StorageTrait.delete_encryption_epoch_key_pairs group_id epoch leaf_index) (StorageTrait.delete_encryption_epoch_key_pairs group_id epoch leaf_index).

#[global] Instance svalin_storage : StorageProvider Process (SvalinStorageError MemoryStorageError) := {|
  StorageTrait.write_mls_join_config := @write_mls_join_config;
  StorageTrait.mls_group_join_config := @mls_group_join_config;
  StorageTrait.delete_group_config := @delete_group_config;
  StorageTrait.write_tree := @write_tree;
  StorageTrait.tree := @tree;
  StorageTrait.delete_tree := @delete_tree;
  StorageTrait.write_interim_transcript_hash := @write_interim_transcript_hash;
  StorageTrait.interim_transcript_hash := @interim_transcript_hash;
  StorageTrait.delete_interim_transcript_hash := @delete_interim_transcript_hash;
  StorageTrait.write_context := @write_context;
  StorageTrait.group_context := @group_context;
  StorageTrait.delete_context := @delete_context;
  StorageTrait.write_confirmation_tag := @write_confirmation_tag;
  StorageTrait.confirmation_tag := @confirmation_tag;
  StorageTrait.delete_confirmation_tag := @delete_confirmation_tag;
  StorageTrait.write_group_state := @write_group_state;
  StorageTrait.group_state := @group_state;
  StorageTrait.delete_group_state := @delete_group_state;
  StorageTrait.write_message_secrets := @write_message_secrets;
  StorageTrait.message_secrets := @message_secrets;
  StorageTrait.delete_message_secrets := @delete_message_secrets;
  StorageTrait.write_resumption_psk_store := @write_resumption_psk_store;
  StorageTrait.resumption_psk_store := @resumption_psk_store;
  StorageTrait.delete_all_resumption_psk_secrets := @delete_all_resumption_psk_secrets;
  StorageTrait.write_own_leaf_index := @write_own_leaf_index;
  StorageTrait.own_leaf_index := @own_leaf_index;
  StorageTrait.delete_own_leaf_index := @delete_own_leaf_index;
  StorageTrait.write_group_epoch_secrets := @write_group_epoch_secrets;
  StorageTrait.group_epoch_secrets := @group_epoch_secrets;
  StorageTrait.delete_group_epoch_secrets := @delete_group_epoch_secrets;
  StorageTrait.append_own_leaf_node := @append_own_leaf_node;
  StorageTrait.own_leaf_nodes := @own_leaf_nodes;
  StorageTrait.delete_own_leaf_nodes := @delete_own_leaf_nodes;
  StorageTrait.queue_proposal := @queue_proposal;
  StorageTrait.queued_proposal_refs := @queued_proposal_refs;
  StorageTrait.queued_proposals := @queued_proposals;
  StorageTrait.remove_proposal := @remove_proposal;
  StorageTrait.clear_proposal_queue := @clear_proposal_queue;
  StorageTrait.write_signature_key_pair := @write_signature_key_pair;
  StorageTrait.signature_key_pair := @signature_key_pair;
  StorageTrait.delete_signature_key_pair := @delete_signature_key_pair;
  StorageTrait.write_encryption_key_pair := @write_encryption_key_pair;
  StorageTrait.encryption_key_pair := @encryption_key_pair;
  StorageTrait.delete_encryption_key_pair := @delete_encryption_key_pair;
  StorageTrait.write_encryption_epoch_key_pairs := @write_encryption_epoch_key_pairs;
  StorageTrait.encryption_epoch_key_pairs := @encryption_epoch_key_pairs;
  StorageTrait.delete_encryption_epoch_key_pairs := @delete_encryption_epoch_key_pairs;
  StorageTrait.write_key_package := @write_key_package;
  StorageTrait.key_package := @key_package;
  StorageTrait.delete_key_package := @delete_key_package;
  StorageTrait.write_psk := @write_psk;
  StorageTrait.psk := @psk;
  StorageTrait.delete_psk := @delete_psk
|}.

(** ** Equivalence with the provider in use *)

Lemma run_delegate {R} (c : request R) : run c = delegate (run c) (run c).
Proof. by destruct c as [[]|[]|[]| | | | | | | | | | | | | | | | | | | | | | |]. Qed.

(** C22: The storage behaves as the provider it stands for: every method called
    on it does to the SQLite tables, or to the shared memory, what the same
    method does there, returns what that returns with its error wrapped, and
    touches no other memory of the process. *)
Theorem storage_is_its_provider {R} (c : request R) arcs :
  (∀ sqlite, run c (mkProcess arcs (Sqlite sqlite)) =
     (mkProcess arcs (Sqlite (run c sqlite).1), map_err SqliteError (run c sqlite).2)) ∧
  (∀ arc memory, arcs !! arc = Some memory →
     run c (mkProcess arcs (Memory arc)) =
     (mkProcess (<[arc := (run c memory).1]> arcs) (Memory arc), map_err MemoryError (run c memory).2)).
Proof.
  rewrite run_delegate. unfold delegate. cbn. split.
  - intros sqlite. by destruct (run c sqlite).
  - intros arc memory ->. by destruct (run c memory).
Qed.

(** ** Export and import *)

(** A call with its answer, and a run of calls. *)
Definition answer := {R : Type & (request R * result (SvalinStorageError MemoryStorageError) R)%type}.

Inductive answers : Process → list answer → Process → Prop :=
  | no_answers p : answers p [] p
  | then_answers {R} (c : request R) p p' r l p'' :
      run c p = (p', r) → answers p' l p'' → answers p (existT R (c, r) :: l) p''.

(** Two processes, each with its storage in a memory of the same values. *)
Definition same_values (p q : Process) : Prop :=
  ∃ a b m, storage p = Memory a ∧ memories p !! a = Some m ∧ storage q = Memory b ∧ memories q !! b = Some m.

Lemma run_memory {R} (c : request R) p p' r a m :
  storage p = Memory a → memories p !! a = Some m → run c p = (p', r) →
  r = map_err MemoryError (run c m).2 ∧ p' = mkProcess (<[a := (run c m).1]> (memories p)) (Memory a).
Proof.
  intros Hs Hm. rewrite run_delegate. unfold delegate. rewrite Hs, Hm.
  destruct (run c m). by intros [= <- <-].
Qed.

Lemma run_same {R} (c : request R) p q p' r :
  same_values p q → run c p = (p', r) → ∃ q', run c q = (q', r) ∧ same_values p' q'.
Proof.
  intros (a & b & m & Hp & Ha & Hq & Hb) Hr. destruct (run c q) as [q' r'] eqn:Hr'.
  destruct (run_memory c p _ _ _ _ Hp Ha Hr) as [-> ->].
  destruct (run_memory c q _ _ _ _ Hq Hb Hr') as [-> ->].
  eexists. split; [done|]. exists a, b, (run c m).1.
  split_and!; [done| |done|]; cbn; apply list_lookup_insert_eq; by eapply lookup_lt_Some.
Qed.

Lemma answers_same p q l p' : same_values p q → answers p l p' → ∃ q', answers q l q' ∧ same_values p' q'.
Proof.
  intros Hs Ha. revert q Hs. induction Ha as [p|R c p p1 r l p2 Hr _ IH]; intros q Hs.
  { exists q. split; [constructor|done]. }
  destruct (run_same c p q _ _ Hs Hr) as (q1 & Hq & Hs1). destruct (IH q1 Hs1) as (q2 & Ha & Hs2).
  exists q2. split; [by econstructor|done].
Qed.

(** A storage made by [new_memory] stays in the memory of its handle. *)
Lemma answers_handle a p l p' :
  storage p = Memory a → is_Some (memories p !! a) → answers p l p' →
  storage p' = Memory a ∧ is_Some (memories p' !! a).
Proof.
  intros Hs Hm Ha. revert Hs Hm. induction Ha as [p|R c p p1 r l p2 Hr _ IH]; [done|].
  intros Hs [m Hm]. destruct (run_memory c p _ _ _ _ Hs Hm Hr) as [_ ->]. apply IH; [done|].
  cbn. rewrite list_lookup_insert_eq by (by eapply lookup_lt_Some). by eexists.
Qed.

Section reimport.
Context `{Aead, Postcard (gmap (list Z) (list Z))}.

(** A client's groups survive the way through the server. Whatever calls
    were made on a new in-memory storage, what its handle exports then can be
    imported with the same key, in any process, and the imported storage
    answers every further run of calls as the exported one does. *)
Theorem export_import_continues `{!AeadLaws, !PostcardLaws (gmap (list Z) (list Z))}
    arcs arcs0 st h p l random key blob arcs' :
  new_memory arcs = (arcs0, (st, h)) → answers (mkProcess arcs0 st) l p →
  export h random key (memories p) = Ok blob →
  ∃ arcs1 st1 h1, import blob key arcs' = Ok (arcs1, (st1, h1)) ∧
    (∀ l2 p2, answers p l2 p2 → ∃ q2, answers (mkProcess arcs1 st1) l2 q2) ∧
    export h1 random key arcs1 = Ok blob.
Proof.
  intros [= <- <- <-] Ha He.
  apply (answers_handle (length arcs)) in Ha as [Hst [m Hm]]; [|done|].
  2:{ cbn. rewrite lookup_app_r, Nat.sub_diag by done. by eexists. }
  unfold export in He. cbn in He. rewrite Hm in He. cbn in He.
  apply bind_Ok in He as (e & He & [= <-]). pose proof (decrypt_encrypt_object _ _ _ _ He) as Hd.
  unfold import. cbn. rewrite Hd. cbn. do 3 eexists. split; [done|].
  assert (∀ m', (arcs' ++ [m']) !! length arcs' = Some m') as Hl.
  { intros m'. by rewrite lookup_app_r, Nat.sub_diag by done. }
  split.
  - intros l2 p2 Hl2. destruct (answers_same p (mkProcess (arcs' ++ [m]) (Memory (length arcs'))) l2 p2)
      as (q2 & Hq & _); [|done|by exists q2; destruct m].
    exists (length arcs), (length arcs'), m. split_and!; [done|done|done|apply Hl].
  - unfold export. cbn. rewrite Hl. cbn. by rewrite He.
Qed.
End reimport.
End delegation.

(** ** Worked examples *)

(** A memory that keeps all data under the encodings of their keys. *)
Definition toy_update (f : gmap (list Z) (list Z) → gmap (list Z) (list Z)) : io MemoryStorage ExtError () :=
  λ m, (mkMemoryStorage (f (values m)), Ok ()).

Definition toy_put {K V} `{Postcard K, Postcard V} (tag : Z) (key : K) (value : V) :
    io MemoryStorage ExtError () :=
  k ← io_result (to_stdvec key);
  v ← io_result (to_stdvec value);
  toy_update (<[tag :: k := v]>).

Definition toy_get {K V} `{Postcard K, Postcard V} (tag : Z) (key : K) : io MemoryStorage ExtError (option V) :=
  k ← io_result (to_stdvec key);
  m ← io_get;
  match values m !! (tag :: k) with
  | Some v => value ← io_result (from_bytes v); mret (Some value)
  | None => mret None
  end.

Definition toy_remove {K} `{Postcard K} (tag : Z) (key : K) : io MemoryStorage ExtError () :=
  k ← io_result (to_stdvec key);
  toy_update (delete (tag :: k)).

#[local] Instance toy_memory : StorageProvider MemoryStorage ExtError := {|
  StorageTrait.write_mls_join_config _ _ _ _ := toy_put 0;
  StorageTrait.mls_group_join_config _ _ _ _ := toy_get 0;
  StorageTrait.delete_group_config _ _ := toy_remove 0;
  StorageTrait.write_tree _ _ _ _ := toy_put 1;
  StorageTrait.tree _ _ _ _ := toy_get 1;
  StorageTrait.delete_tree _ _ := toy_remove 1;
  StorageTrait.write_interim_transcript_hash _ _ _ _ := toy_put 2;
  StorageTrait.interim_transcript_hash _ _ _ _ := toy_get 2;
  StorageTrait.delete_interim_transcript_hash _ _ := toy_remove 2;
  StorageTrait.write_context _ _ _ _ := toy_put 3;
  StorageTrait.group_context _ _ _ _ := toy_get 3;
  StorageTrait.delete_context _ _ := toy_remove 3;
  StorageTrait.write_confirmation_tag _ _ _ _ := toy_put 4;
  StorageTrait.confirmation_tag _ _ _ _ := toy_get 4;
  StorageTrait.delete_confirmation_tag _ _ := toy_remove 4;
  StorageTrait.write_group_state _ _ _ _ := toy_put 5;
  StorageTrait.group_state _ _ _ _ := toy_get 5;
  StorageTrait.delete_group_state _ _ := toy_remove 5;
  StorageTrait.write_message_secrets _ _ _ _ := toy_put 6;
  StorageTrait.message_secrets _ _ _ _ := toy_get 6;
  StorageTrait.delete_message_secrets _ _ := toy_remove 6;
  StorageTrait.write_resumption_psk_store _ _ _ _ := toy_put 7;
  StorageTrait.resumption_psk_store _ _ _ _ := toy_get 7;
  StorageTrait.delete_all_resumption_psk_secrets _ _ := toy_remove 7;
  StorageTrait.write_own_leaf_index _ _ _ _ := toy_put 8;
  StorageTrait.own_leaf_index _ _ _ _ := toy_get 8;
  StorageTrait.delete_own_leaf_index _ _ := toy_remove 8;
  StorageTrait.write_group_epoch_secrets _ _ _ _ := toy_put 9;
  StorageTrait.group_epoch_secrets _ _ _ _ := toy_get 9;
  StorageTrait.delete_group_epoch_secrets _ _ := toy_remove 9;
  StorageTrait.write_signature_key_pair _ _ _ _ := toy_put 10;
  StorageTrait.signature_key_pair _ _ _ _ := toy_get 10;
  StorageTrait.delete_signature_key_pair _ _ := toy_remove 10;
  StorageTrait.write_encryption_key_pair _ _ _ _ := toy_put 11;
  StorageTrait.encryption_key_pair _ _ _ _ := toy_get 11;
  StorageTrait.delete_encryption_key_pair _ _ := toy_remove 11;
  StorageTrait.write_key_package _ _ _ _ := toy_put 12;
  StorageTrait.key_package _ _ _ _ := toy_get 12;
  StorageTrait.delete_key_package _ _ := toy_remove 12;
  StorageTrait.write_psk _ _ _ _ := toy_put 13;
  StorageTrait.psk _ _ _ _ := toy_get 13;
  StorageTrait.delete_psk _ _ := toy_remove 13;
  StorageTrait.append_own_leaf_node _ _ _ _ := toy_put 20;
  StorageTrait.own_leaf_nodes _ _ _ _ g := n ← toy_get 20 g; mret (option_list n);
  StorageTrait.delete_own_leaf_nodes _ _ := toy_remove 20;
  StorageTrait.queue_proposal _ _ _ _ _ _ g f p := toy_put 21 g p;
  StorageTrait.queued_proposal_refs _ _ _ _ g := mret [];
  StorageTrait.queued_proposals _ _ _ _ _ _ g := mret [];
  StorageTrait.remove_proposal _ _ _ _ g f := toy_remove 21 g;
  StorageTrait.clear_proposal_queue _ _ := toy_remove 21;
  StorageTrait.write_encryption_epoch_key_pairs _ _ _ _ _ _ g e i := toy_put i g;
  StorageTrait.encryption_epoch_key_pairs _ _ _ _ _ _ g e i := l ← toy_get i g; mret (default [] l);
  StorageTrait.delete_encryption_epoch_key_pairs _ _ _ _ g e i := toy_remove i g
|}.

#[local] Instance toy_sql_order : SqlOrder := λ A l, l.
#[local] Instance postcard_number : Postcard Z := {|
  to_stdvec z := Ok [z];
  from_bytes b := match b with [z] => Ok z | _ => Err "number"%string end;
|}.
#[local] Instance postcard_values : Postcard (gmap (list Z) (list Z)) := {|
  to_stdvec m := Ok [Zpos (encode m)];
  from_bytes b := match b with [Zpos p] => ok_or (decode p) "map"%string | _ => Err "map"%string end;
|}.
#[local] Instance postcard_values_laws : PostcardLaws (gmap (list Z) (list Z)).
Proof. split. intros m b [= <-]. cbn. by rewrite decode_encode. Qed.
#[local] Existing Instance toy_aead.
#[local] Existing Instance toy_aead_laws.

Definition toy_write : request () := WriteGroupData TheTree 7 70.
Definition toy_read : request (option Z) := ReadGroupData TheTree 7.

Lemma storage_is_its_provider_witness :
  run toy_write (mkProcess [mkMemoryStorage ∅] (Memory 0)) =
  (mkProcess [(run toy_write (mkMemoryStorage ∅)).1] (Memory 0), Ok ()).
Proof.
  refine (eq_trans (proj2 (storage_is_its_provider toy_write [mkMemoryStorage ∅]) 0%nat (mkMemoryStorage ∅) eq_refl) _).
  vm_compute. reflexivity.
Defined.

Lemma export_import_continues_witness :
  let p := (run toy_write (mkProcess [mkMemoryStorage ∅] (Memory 0))).1 in
  ∃ blob arcs st h, export (mkExportHandle 0) (replicate 12 9) (mkEncryptionKey (replicate 32 5)) (memories p) = Ok blob ∧
    import blob (mkEncryptionKey (replicate 32 5)) [] = Ok (arcs, (st, h)) ∧
    ∃ q, answers (mkProcess arcs st) [existT _ (toy_read, Ok (Some 70))] q.
Proof.
  intros p.
  assert (∃ blob, export (mkExportHandle 0) (replicate 12 9) (mkEncryptionKey (replicate 32 5)) (memories p) = Ok blob)
    as [blob Hb] by (eexists; reflexivity).
  destruct (export_import_continues [] _ _ _ p [existT _ (toy_write, Ok ())] (replicate 12 9)
    (mkEncryptionKey (replicate 32 5)) blob [] eq_refl) as (arcs & st & h & Hi & Ha & _).
  - econstructor; [|constructor]. reflexivity.
  - exact Hb.
  - exists blob, arcs, st, h. split_and!; [done|done|].
    eapply Ha. econstructor; [|constructor]. reflexivity.
Defined.
