(* ===== verification/ServerStore.v ===== *)
(** * The stores of the server ([svalin_store/src/server_store/])

    Sessions, key packages, MLS messages with their subscriptions, and users,
    each over its SQL tables.  Identifiers drawn at random and the clock are
    arguments; a statement fails here only by violating a constraint. A
    transaction that is not committed leaves the tables as they were. *)
From S2P Require Import Prelude.
From S2P Require Import External.
From S2P Require Import Spki.
From S2P Require Import Sql.
From S2P Require Import Toy.
From S2P Require Import Certificate.
From S2P Require Import Encrypt.
From stdpp Require Import options.

(** The errors [anyhow!] makes, and those it wraps. *)
Inductive StoreFailure :=
  | FailSqlx (e : SqlxError)
  | FailPostcard (e : ExtError)
  | FailParse (e : CertificateParseError)
  | FailMessage (s : string).

(** ** Sessions ([session_store.rs]) *)
Module Sessions.

Record Row := mkRow { row_spki_hash : list Z; row_issuer : list Z; row_certificate : list Z }.
Record SessionStore := mkSessionStore { rows : list Row }.

Inductive AddSessionError :=
  | SessionSqlxError (e : SqlxError)
  | SessionInvalidCertificateType (t : CertificateType).

Definition add_session (self : SessionStore) (certificate : Certificate) :
    result AddSessionError SessionStore :=
  if bool_decide (certificate_type certificate ≠ UserSession) then
    Err (SessionInvalidCertificateType (certificate_type certificate))
  else
    let spki := as_slice (spki_hash certificate) in
    if existsb (λ r, bool_decide (row_spki_hash r = spki)) (rows self) then
      Err (SessionSqlxError UniqueViolation)
    else
      Ok (mkSessionStore
            (rows self ++ [mkRow spki (as_slice (issuer certificate)) (der certificate)])).

Section get.
Context `{X509, CR : Crypto}.

Definition get_session (self : SessionStore) (spki : SpkiHash) :
    result StoreFailure (option UnverifiedCertificate) :=
  match list_find (λ r, row_spki_hash r = as_slice spki) (rows self) with
  | Some (_, r) =>
      session ← map_err FailParse (from_der (row_certificate r));
      Ok (Some session)
  | None => Ok None
  end.

Definition list_user_sessions (self : SessionStore) (user : SpkiHash) :
    result StoreFailure (list UnverifiedCertificate) :=
  let session_ders := row_certificate <$> filter (λ r, row_issuer r = as_slice user) (rows self) in
  map_err FailParse (collectM from_der session_ders).

(** What the rows of a store that only [add_session] wrote satisfy. *)
Definition row_ok (r : Row) : Prop :=
  ∃ c, from_der (row_certificate r) = Ok c ∧ certificate_type c = UserSession ∧
    row_spki_hash r = as_slice (spki_hash c) ∧ row_issuer r = as_slice (issuer c).
Definition store_ok (s : SessionStore) : Prop := Forall row_ok (rows s).

Lemma add_session_ok s (c : Certificate) s' : parsed c → store_ok s → add_session s c = Ok s' → store_ok s'.
Proof.
  unfold add_session. intros Hc Hs. case_bool_decide as Ht; [done|].
  destruct (existsb _ _); [done|]. intros [= <-]. apply Forall_app. split; [done|].
  constructor; [|constructor]. exists c. cbn. done.
Qed.

Lemma get_session_ok s h c :
  store_ok s → get_session s h = Ok (Some c) →
  spki_hash c = h ∧ certificate_type c = UserSession ∧ parsed c.
Proof.
  unfold get_session. intros Hs Hg.
  destruct (list_find _ _) as [[i r]|] eqn:Hf; [|done].
  apply list_find_Some in Hf as (Hi & Hr & _).
  pose proof (proj1 (Forall_lookup _ _) Hs _ _ Hi) as (c' & Hc' & Ht & Hsp & _).
  rewrite Hc' in Hg. injection Hg as <-. split_and!; [|done|by eapply from_der_parsed].
  rewrite Hr in Hsp. destruct (spki_hash c'), h; cbn in *; congruence.
Qed.

(** The session store hands back what was stored: after a session is
    added it is found under its hash, it is listed for its issuer after the
    sessions that were there, and nothing but user sessions is ever found. *)
Theorem add_session_get s (c : Certificate) s' :
  parsed c → store_ok s → add_session s c = Ok s' →
  store_ok s' ∧ get_session s' (spki_hash c) = Ok (Some (as_unverified c)) ∧
  (∀ h, h ≠ spki_hash c → get_session s' h = get_session s h) ∧
  (∀ l, list_user_sessions s (issuer c) = Ok l →
        list_user_sessions s' (issuer c) = Ok (l ++ [as_unverified c])).
Proof.
  intros Hp Hs Ha. split; [by eapply add_session_ok|].
  unfold add_session in Ha. case_bool_decide as Ht; [done|].
  destruct (existsb _ _) eqn:He; [done|]. injection Ha as <-. cbn [rows].
  assert (∀ r, r ∈ rows s → row_spki_hash r ≠ as_slice (spki_hash c)) as Hnew.
  { intros r Hr E. rewrite <-not_true_iff_false, existsb_exists in He. apply He.
    exists r. split; [by apply list_elem_of_In|by apply bool_decide_true]. }
  unfold get_session, list_user_sessions. cbn [rows]. split_and!.
  - rewrite list_find_app_r; [|by apply list_find_None, Forall_forall]. cbn.
    rewrite decide_True by done. cbn. by rewrite Hp.
  - intros h Hh. destruct (list_find (λ r, row_spki_hash r = as_slice h) (rows s)) as [[i r]|] eqn:Hf.
    + by rewrite (list_find_app_l _ _ _ _ _ Hf).
    + rewrite list_find_app_r by done. cbn. rewrite decide_False; [done|].
      cbn. intros E. apply Hh. destruct h, (spki_hash c); cbn in *; congruence.
  - intros l Hl. apply map_err_Ok in Hl. apply map_err_Ok.
    rewrite filter_app, fmap_app, filter_cons_True by done. cbn.
    apply collectM_Ok. apply collectM_Ok in Hl. apply Forall2_app; [done|]. by constructor.
Qed.
End get.
End Sessions.

(** ** Key packages ([key_package_store.rs])

    A key package is seen through the owner its credential names. *)
Module KeyPackages.

Section store.
Context {UnverifiedKeyPackage : Type} `{Postcard UnverifiedKeyPackage}.
Context (package_owner : UnverifiedKeyPackage → result ExtError SpkiHash).

Record Row := mkRow { row_id : string; row_spki_hash : list Z; row_data : list Z }.
Record KeyPackageStore := mkKeyPackageStore { rows : list Row }.

(** [add_key_package]: [owner] is the owner of the verified key package,
    [member] its unverified form and [id] the random row id. *)
Definition add_key_package (self : KeyPackageStore) (owner : SpkiHash)
    (member : UnverifiedKeyPackage) (id : string) : result StoreFailure KeyPackageStore :=
  member_owner ← map_err FailPostcard (package_owner member);
  if bool_decide (member_owner ≠ owner) then Err (FailMessage "Key package hash mismatch"%string)
  else
    data ← map_err FailPostcard (to_stdvec member);
    if existsb (λ r, bool_decide (row_id r = id)) (rows self) then Err (FailSqlx UniqueViolation)
    else Ok (mkKeyPackageStore (rows self ++ [mkRow id (as_slice owner) data])).

Definition count_key_packages (self : KeyPackageStore) (owner : SpkiHash) : nat :=
  length (filter (λ r, row_spki_hash r = as_slice owner) (rows self)).

(** One round of the loop: select one row, delete it, decode it. *)
Definition take_key_package (acc : list Row * list UnverifiedKeyPackage) (entity : SpkiHash) :
    result StoreFailure (list Row * list UnverifiedKeyPackage) :=
  let '(rows, key_packages) := acc in
  match list_find (λ r, row_spki_hash r = as_slice entity) rows with
  | None => Err (FailSqlx RowNotFound)
  | Some (_, r) =>
      let rows := filter (λ r', row_id r' ≠ row_id r) rows in
      key_package ← map_err FailPostcard (from_bytes (row_data r));
      owner ← map_err FailPostcard (package_owner key_package);
      if bool_decide (owner ≠ entity) then
        Err (FailMessage "Key package in store does not match the expected owner"%string)
      else Ok (rows, key_packages ++ [key_package])
  end.

(** An error drops the transaction: the store is unchanged. *)
Definition get_key_packages (self : KeyPackageStore) (entities : list SpkiHash) :
    KeyPackageStore * result StoreFailure (list UnverifiedKeyPackage) :=
  match foldM take_key_package (rows self, []) entities with
  | Ok (rows, key_packages) => (mkKeyPackageStore rows, Ok key_packages)
  | Err e => (self, Err e)
  | Panic => (self, Panic)
  end.

Definition ids_ok (s : list Row) : Prop := NoDup (row_id <$> s).

Lemma take_key_package_Ok acc e acc' :
  take_key_package acc e = Ok acc' →
  ∃ r kp, r ∈ acc.1 ∧ row_spki_hash r = as_slice e ∧ package_owner kp = Ok e ∧
    acc' = (filter (λ r', row_id r' ≠ row_id r) acc.1, acc.2 ++ [kp]).
Proof.
  destruct acc as [rs kps]. unfold take_key_package.
  destruct (list_find _ rs) as [[i r]|] eqn:Hf; [|done].
  apply list_find_Some in Hf as (Hi & Hr & _).
  intros (kp & _ & (o & Ho%map_err_Ok & Ha)%bind_Ok)%bind_Ok.
  case_bool_decide as E; [done|]. injection Ha as <-. exists r, kp.
  split_and!; [by eapply list_elem_of_lookup_2|done|congruence|done].
Qed.

(** Deleting a row by its id removes that row alone. *)
Lemma filter_id_count rs r (owner : SpkiHash) :
  ids_ok rs → r ∈ rs →
  length (filter (λ r', row_spki_hash r' = as_slice owner) (filter (λ r', row_id r' ≠ row_id r) rs)) =
  (length (filter (λ r', row_spki_hash r' = as_slice owner) rs) -
   (if decide (row_spki_hash r = as_slice owner) then 1 else 0))%nat.
Proof.
  intros Hids Hr. induction rs as [|x rs IH]; [by apply elem_of_nil in Hr|].
  unfold ids_ok in Hids. rewrite fmap_cons in Hids. apply NoDup_cons in Hids as [Hx Hids].
  apply elem_of_cons in Hr as [<-|Hr].
  - rewrite (filter_cons_False (λ r', row_id r' ≠ row_id r)) by auto.
    assert (filter (λ r', row_id r' ≠ row_id r) rs = rs) as ->.
    { apply filter_all. intros y Hy E. apply Hx. rewrite <-E. by apply list_elem_of_fmap_2. }
    rewrite filter_cons. case_decide; cbn; lia.
  - rewrite (filter_cons_True (λ r', row_id r' ≠ row_id r)).
    2:{ intros E. apply Hx. rewrite E. by apply list_elem_of_fmap_2. }
    specialize (IH Hids Hr). rewrite !filter_cons.
    assert (row_spki_hash r = as_slice owner →
      0 < length (filter (λ r', row_spki_hash r' = as_slice owner) rs))%nat as Hpos.
    { intros E. by apply (filter_length_pos _ _ r). }
    repeat case_decide; cbn; rewrite ?IH; try lia; specialize (Hpos ltac:(done)); lia.
Qed.

Lemma take_ids_ok acc e acc' : ids_ok acc.1 → take_key_package acc e = Ok acc' → ids_ok acc'.1.
Proof.
  intros Hids (r & kp & _ & _ & _ & ->)%take_key_package_Ok. cbn.
  eapply sublist_NoDup; [exact Hids|]. apply fmap_sublist, sublist_filter.
Qed.

Lemma packages_taken s entities s' r :
  ids_ok (rows s) → get_key_packages s entities = (s', r) →
  (∀ e, r = Err e → s' = s) ∧
  (∀ kps, r = Ok kps →
    Forall2 (λ kp e, package_owner kp = Ok e) kps entities ∧
    ∀ owner, (count_key_packages s' owner + length (filter (λ e, e = owner) entities))%nat =
             count_key_packages s owner).
Proof.
  intros Hids Hg. unfold get_key_packages in Hg.
  destruct (foldM take_key_package (rows s, []) entities) as [[rs kps]|e|] eqn:Hf;
    injection Hg as <- <-; split; try done.
  intros kps' [= <-]. unfold count_key_packages. cbn [rows].
  assert (∀ acc, ids_ok acc.1 → foldM take_key_package acc entities = Ok (rs, kps) →
    ∃ kps', kps = acc.2 ++ kps' ∧ Forall2 (λ kp e, package_owner kp = Ok e) kps' entities ∧
      ∀ owner : SpkiHash, (length (filter (λ r, row_spki_hash r = as_slice owner) rs) +
        length (filter (λ e, e = owner) entities))%nat =
        length (filter (λ r, row_spki_hash r = as_slice owner) acc.1)) as Hgen.
  2:{ destruct (Hgen (rows s, []) Hids Hf) as (kps' & -> & Hall & Hcount). done. }
  clear. induction entities as [|e es IH]; intros acc Hids Hf; cbn in Hf.
  - injection Hf as ->. exists []. rewrite app_nil_r. split_and!; [done|constructor|cbn; lia].
  - apply bind_Ok in Hf as (acc1 & Ht & Hf). pose proof (take_ids_ok _ _ _ Hids Ht) as Hids1.
    destruct (IH acc1 Hids1 Hf) as (kps' & Hk & Hall & Hcount).
    apply take_key_package_Ok in Ht as (r & kp & Hr & Hrs & Ho & ->). cbn [fst snd] in *.
    exists (kp :: kps'). split_and!; [by rewrite Hk, <-app_assoc|by constructor|].
    intros owner. specialize (Hcount owner). rewrite (filter_id_count _ r owner Hids Hr) in Hcount.
    rewrite filter_cons.
    assert (e = owner ↔ row_spki_hash r = as_slice owner) as Hiff.
    { rewrite Hrs. destruct e, owner; cbn. split; congruence. }
    assert (row_spki_hash r = as_slice owner →
      0 < length (filter (λ r', row_spki_hash r' = as_slice owner) acc.1))%nat as Hpos.
    { intros E. by apply (filter_length_pos _ _ r). }
    destruct (decide (row_spki_hash r = as_slice owner)) as [E|E].
    + specialize (Hpos E). rewrite decide_True by by apply Hiff. cbn. lia.
    + rewrite decide_False by (by rewrite Hiff). lia.
Qed.

(** Key packages are used once: a successful request returns one package
    per requested member, in the order of the request and owned by that
    member, and removes exactly as many of each member's packages from the
    store; a failed request changes nothing. *)
Theorem get_key_packages_once s entities s' r :
  ids_ok (rows s) → get_key_packages s entities = (s', r) →
  (∀ e, r = Err e → s' = s) ∧
  (∀ kps, r = Ok kps →
    Forall2 (λ kp e, package_owner kp = Ok e) kps entities ∧
    ∀ owner, (count_key_packages s' owner + length (filter (λ e, e = owner) entities))%nat =
             count_key_packages s owner).
Proof. apply packages_taken. Qed.
End store.
Arguments mkKeyPackageStore _ : assert.
End KeyPackages.

(** ** Messages ([message_store.rs]) *)
Module Messages.

Section store.
Context {Uuid : Type} `{EqDecision Uuid} {Message : Type} `{Postcard Message}.

Record MessageRow := mkMessageRow { message_uuid : Uuid; message_data : list Z; received_at : Z }.

(** A row of [mls_message_receivers]; its automatic id is its position. *)
Record ReceiverRow := mkReceiverRow { receiver_message : Uuid; receiver_spki_hash : list Z }.

(** [MessageToSend]: the message with its receivers. *)
Record MessageToSend := mkMessageToSend { receivers : list SpkiHash; message : Message }.

Record MessageStore := mkMessageStore {
  messages : list MessageRow;
  message_receivers : list ReceiverRow;
}.

Definition add_message (self : MessageStore) (message_id : Uuid) (now : Z) (msg : MessageToSend) :
    result StoreFailure MessageStore :=
  data ← map_err FailPostcard (to_stdvec (message msg));
  if existsb (λ m, bool_decide (message_uuid m = message_id)) (messages self) then
    Err (FailSqlx UniqueViolation)
  else
    Ok (mkMessageStore
          (messages self ++ [mkMessageRow message_id data (as_i64 now)])
          (message_receivers self ++
             ((λ r, mkReceiverRow message_id (as_slice r)) <$> receivers msg))).

(** The rows of the join, in the order of [received_at]. *)
Definition received_le (a b : MessageRow) : Prop := received_at a ≤ received_at b.
#[global] Instance received_le_dec : RelDecision received_le.
Proof. intros a b. unfold received_le. apply _. Defined.

Definition joined (self : MessageStore) (receiver : SpkiHash) : list MessageRow :=
  m ← messages self;
  r ← filter (λ r, receiver_message r = message_uuid m ∧ receiver_spki_hash r = as_slice receiver)
        (message_receivers self);
  [m].

Definition load_all_for (self : MessageStore) (receiver : SpkiHash) :
    result StoreFailure (list (Uuid * Message)) :=
  collectM (λ row,
      message ← map_err FailPostcard (from_bytes (message_data row));
      Ok (message_uuid row, message))
    (merge_sort received_le (joined self receiver)).

Definition aknowledge_single_message (self : MessageStore) (receiver : SpkiHash) (message : Uuid) :
    MessageStore :=
  let left := filter (λ r, ¬ (receiver_message r = message ∧ receiver_spki_hash r = as_slice receiver))
                (message_receivers self) in
  mkMessageStore
    (filter (λ m, ¬ (message_uuid m = message ∧
                     filter (λ r, receiver_message r = message) left = [])) (messages self))
    left.

Definition aknowledge_messages (self : MessageStore) (receiver : SpkiHash) (messages : list Uuid) :
    MessageStore :=
  foldl (λ s m, aknowledge_single_message s receiver m) self messages.

(** ** Subscriptions: the task of the [SubscriptionManager]

    A channel is a number; [closed] tells which channels have lost their
    receiver. A delivery is a message put into a channel. *)
Inductive SubscriptionRequest :=
  | Subscribe (spki_hash : SpkiHash) (sender : nat)
  | Distribute (uuid : Uuid) (msg : MessageToSend).

Definition deliver (closed : nat → bool) (uuid : Uuid) (package : Message)
    (acc : gmap SpkiHash nat * list (nat * (Uuid * Message))) (receiver : SpkiHash) :
    gmap SpkiHash nat * list (nat * (Uuid * Message)) :=
  let '(subscribed, sent) := acc in
  match subscribed !! receiver with
  | Some sender =>
      if closed sender then (delete receiver subscribed, sent)
      else (subscribed, sent ++ [(sender, (uuid, package))])
  | None => (subscribed, sent)
  end.

Definition handle_subscription (closed : nat → bool) (subscribed : gmap SpkiHash nat)
    (request : SubscriptionRequest) : gmap SpkiHash nat * list (nat * (Uuid * Message)) :=
  match request with
  | Subscribe spki sender => (<[ spki := sender ]> subscribed, [])
  | Distribute uuid msg => foldl (deliver closed uuid (message msg)) (subscribed, []) (receivers msg)
  end.

(** ** Properties *)

(** Every receiver row points at a message (the foreign key), and message
    ids are unique (the primary key). *)
Definition store_ok (s : MessageStore) : Prop :=
  NoDup (message_uuid <$> messages s) ∧
  Forall (λ r, receiver_message r ∈ message_uuid <$> messages s) (message_receivers s).

Definition ids_for (s : MessageStore) (receiver : SpkiHash) : list Uuid :=
  message_uuid <$> joined s receiver.

Lemma elem_of_joined s receiver m :
  m ∈ joined s receiver ↔
  m ∈ messages s ∧ mkReceiverRow (message_uuid m) (as_slice receiver) ∈ message_receivers s.
Proof.
  unfold joined. rewrite list_elem_of_bind. setoid_rewrite list_elem_of_bind.
  split.
  - intros (m' & (r & Hm & Hr) & Hin). apply list_elem_of_singleton in Hm as ->.
    apply list_elem_of_filter in Hr as [[H1 H2] Hr]. split; [done|].
    destruct r; cbn in *; by subst.
  - intros [Hm Hr]. exists m. split; [|done]. eexists. split; [by left|].
    apply list_elem_of_filter. split; [|exact Hr]. done.
Qed.

Lemma aknowledge_joined_other s receiver receiver' id m :
  receiver' ≠ receiver →
  m ∈ joined (aknowledge_single_message s receiver id) receiver' ↔ m ∈ joined s receiver'.
Proof.
  intros Hne. rewrite !elem_of_joined. unfold aknowledge_single_message. cbn [messages message_receivers].
  rewrite !list_elem_of_filter. cbn. split; [tauto|]. intros [Hm Hr].
  assert (as_slice receiver' ≠ as_slice receiver) as Hne'.
  { intros E. apply Hne. destruct receiver, receiver'; cbn in *; congruence. }
  split_and!; try tauto. intros [E Hnil].
  assert (mkReceiverRow (message_uuid m) (as_slice receiver') ∈
    filter (λ r, receiver_message r = id) (filter (λ r,
      ¬ (receiver_message r = id ∧ receiver_spki_hash r = as_slice receiver)) (message_receivers s))) as Hin.
  { apply list_elem_of_filter. split; [done|]. apply list_elem_of_filter. cbn. tauto. }
  rewrite Hnil in Hin. by apply elem_of_nil in Hin.
Qed.

Lemma aknowledge_joined_same s receiver id m :
  m ∈ joined (aknowledge_single_message s receiver id) receiver ↔
  m ∈ joined s receiver ∧ message_uuid m ≠ id.
Proof.
  rewrite !elem_of_joined. unfold aknowledge_single_message. cbn [messages message_receivers].
  rewrite !list_elem_of_filter. cbn. split; [tauto|]. intros [[Hm Hr] Hne]. split_and!; try tauto.
Qed.

Lemma add_message_ok s id now msg s' : store_ok s → add_message s id now msg = Ok s' → store_ok s'.
Proof.
  intros [Hnd Hfk] (data & _ & Ha)%bind_Ok. destruct (existsb _ _) eqn:He; [done|]. injection Ha as <-.
  unfold store_ok. cbn [messages message_receivers]. rewrite fmap_app. cbn. split.
  - apply NoDup_app. split_and!; [done| |apply NoDup_singleton].
    intros x Hx ->%list_elem_of_singleton. apply list_elem_of_fmap in Hx as (m & Hmid & Hm).
    rewrite <-not_true_iff_false, existsb_exists in He. apply He. exists m.
    split; [by apply list_elem_of_In|by apply bool_decide_true].
  - apply Forall_app. split.
    + eapply Forall_impl; [exact Hfk|]. cbn. set_solver.
    + apply Forall_forall. intros r Hr. apply list_elem_of_fmap in Hr as (h & -> & _). cbn. set_solver.
Qed.

Lemma aknowledge_ok s receiver id : store_ok s → store_ok (aknowledge_single_message s receiver id).
Proof.
  intros [Hnd Hfk]. unfold store_ok, aknowledge_single_message. cbn [messages message_receivers]. split.
  - eapply sublist_NoDup; [exact Hnd|]. apply fmap_sublist, sublist_filter.
  - apply Forall_forall. intros r Hr. pose proof Hr as [_ Hr']%list_elem_of_filter.
    pose proof (proj1 (Forall_forall _ _) Hfk _ Hr') as Hm.
    apply list_elem_of_fmap in Hm as (m & Hmid & Hm). rewrite Hmid. apply list_elem_of_fmap_2.
    apply list_elem_of_filter. split; [|done]. intros [E Hnil].
    assert (r ∈ filter (λ r, receiver_message r = id) (filter (λ r,
      ¬ (receiver_message r = id ∧ receiver_spki_hash r = as_slice receiver)) (message_receivers s))) as Hin.
    { apply list_elem_of_filter. split; [congruence|done]. }
    rewrite Hnil in Hin. by apply elem_of_nil in Hin.
Qed.

(** Adding a message makes it visible to its receivers, and changes nothing
    else. *)
Lemma add_message_ids s id now msg s' :
  store_ok s → add_message s id now msg = Ok s' →
  (∀ r, id ∉ ids_for s r) ∧
  (∀ r, id ∈ ids_for s' r ↔ r ∈ receivers msg) ∧
  (∀ r id', id' ≠ id → id' ∈ ids_for s' r ↔ id' ∈ ids_for s r).
Proof.
  intros [Hnd Hfk] Ha. unfold ids_for.
  unfold add_message in Ha. apply bind_Ok in Ha as (data & _ & Ha).
  destruct (existsb _ _) eqn:He; [done|]. injection Ha as <-.
  assert (∀ m, m ∈ messages s → message_uuid m ≠ id) as Hfresh.
  { intros m Hm E. rewrite <-not_true_iff_false, existsb_exists in He. apply He. exists m.
    split; [by apply list_elem_of_In|by apply bool_decide_true]. }
  assert (∀ r, r ∈ message_receivers s → receiver_message r ≠ id) as Hfreshr.
  { intros r Hr E. pose proof (proj1 (Forall_forall _ _) Hfk _ Hr) as Hm.
    apply list_elem_of_fmap in Hm as (m & Hmid & Hm). apply (Hfresh m Hm). congruence. }
  split_and!.
  - intros r (m & -> & [Hm _]%elem_of_joined)%list_elem_of_fmap. by apply (Hfresh m).
  - intros r. rewrite list_elem_of_fmap. setoid_rewrite elem_of_joined. cbn [messages message_receivers].
    split.
    + intros (m & -> & Hm & [Hr|Hr]%elem_of_app); [by apply Hfreshr in Hr|].
      apply list_elem_of_fmap in Hr as (h & Hh & Hin). destruct h, r. cbn in Hh. by injection Hh as ->.
    + intros Hr. eexists. split; [|split; [apply elem_of_app; right; by left|]]; [done|].
      apply elem_of_app. right. apply list_elem_of_fmap. by exists r.
  - intros r id' Hne. rewrite !list_elem_of_fmap. setoid_rewrite elem_of_joined. cbn [messages message_receivers].
    split.
    + intros (m & -> & [Hm|Hm%list_elem_of_singleton]%elem_of_app & Hr); [|by subst].
      exists m. split_and!; [done|done|]. apply elem_of_app in Hr as [Hr|Hr]; [done|].
      apply list_elem_of_fmap in Hr as (h & Hh & _). injection Hh as E _. by apply Hfresh in Hm.
    + intros (m & -> & Hm & Hr). exists m. rewrite !elem_of_app. auto.
Qed.

(** An acknowledgement removes the message for the one who acknowledged, and
    for nobody else. *)
Lemma aknowledge_ids s r id r' id' :
  id' ∈ ids_for (aknowledge_single_message s r id) r' ↔ id' ∈ ids_for s r' ∧ (r' ≠ r ∨ id' ≠ id).
Proof.
  unfold ids_for. rewrite !list_elem_of_fmap. destruct (decide (r' = r)) as [->|Hne].
  - setoid_rewrite aknowledge_joined_same. split; [naive_solver|].
    intros [(m & -> & Hm) [|Hid]]; [done|]. by exists m.
  - setoid_rewrite (aknowledge_joined_other _ _ _ _ _ Hne). naive_solver.
Qed.

Lemma aknowledge_messages_ids s r l r' id' :
  id' ∈ ids_for (aknowledge_messages s r l) r' ↔ id' ∈ ids_for s r' ∧ (r' ≠ r ∨ id' ∉ l).
Proof.
  unfold aknowledge_messages. revert s. induction l as [|id l IH]; intros s; cbn.
  - split; [intros Hid; split; [done|right; by intros ?%elem_of_nil]|by intros [Hid _]].
  - rewrite IH, aknowledge_ids, not_elem_of_cons. tauto.
Qed.

Lemma aknowledge_messages_ok s r l : store_ok s → store_ok (aknowledge_messages s r l).
Proof.
  unfold aknowledge_messages. revert s. induction l as [|id l IH]; intros s Hs; [done|].
  by apply IH, aknowledge_ok.
Qed.

(** A stored message waits for each of its receivers until that receiver
    acknowledges it: adding it makes it visible to exactly its receivers and
    changes nothing else; an acknowledgement removes it for the one who
    acknowledged and for nobody else; and the tables stay consistent, with
    every receiver row pointing at a stored message. *)
Theorem message_waits_for_receivers s id now msg s' :
  store_ok s → add_message s id now msg = Ok s' →
  store_ok s' ∧
  (∀ r, id ∈ ids_for s' r ↔ r ∈ receivers msg) ∧
  (∀ r id', id' ≠ id → id' ∈ ids_for s' r ↔ id' ∈ ids_for s r) ∧
  (∀ r, store_ok (aknowledge_single_message s' r id) ∧
    id ∉ ids_for (aknowledge_single_message s' r id) r ∧
    (∀ r' id', r' ≠ r ∨ id' ≠ id →
      id' ∈ ids_for (aknowledge_single_message s' r id) r' ↔ id' ∈ ids_for s' r')).
Proof.
  intros Hok Ha. pose proof (add_message_ok _ _ _ _ _ Hok Ha) as Hok'.
  destruct (add_message_ids _ _ _ _ _ Hok Ha) as (_ & H1 & H2).
  split_and!; [done|done|done|]. intros r. split_and!; [by apply aknowledge_ok| |].
  - rewrite aknowledge_ids. tauto.
  - intros r' id' Hor. rewrite aknowledge_ids. tauto.
Qed.

Lemma deliver_spec closed uuid package l subscribed sent subscribed' sent' :
  foldl (deliver closed uuid package) (subscribed, sent) l = (subscribed', sent') →
  (∀ x, x ∈ sent' ↔ x ∈ sent ∨
     ∃ r ch, r ∈ l ∧ subscribed !! r = Some ch ∧ closed ch = false ∧ x = (ch, (uuid, package))) ∧
  (∀ h, subscribed' !! h =
     if decide (h ∈ l) then
       match subscribed !! h with Some ch => if closed ch then None else Some ch | None => None end
     else subscribed !! h).
Proof.
  revert subscribed sent. induction l as [|r l IH]; intros subscribed sent Hf.
  - injection Hf as -> ->. split; [set_solver|done].
  - cbn [foldl] in Hf. unfold deliver at 2 in Hf.
    destruct (subscribed !! r) as [ch|] eqn:Hr; [destruct (closed ch) eqn:Hc|].
    + apply IH in Hf as [H1 H2]. split.
      * intros x. rewrite H1. split; [|intros [Hx|(r' & ch' & [->|Hr']%elem_of_cons & Hs & Hc' & ->)]].
        -- intros [Hx|(r' & ch' & Hr' & Hs & Hc' & ->)]; [by left|].
           apply lookup_delete_Some in Hs as [_ Hs]. right. exists r', ch'. set_solver.
        -- by left.
        -- congruence.
        -- right. exists r', ch'. split_and!; [done| |done|done]. apply lookup_delete_Some. split; [|done].
           intros ->. congruence.
      * intros h. rewrite H2. destruct (decide (h = r)) as [->|Hne].
        -- rewrite (decide_True (P := r ∈ r :: l)) by by left. rewrite Hr, Hc, lookup_delete_eq. by case_decide.
        -- rewrite lookup_delete_ne by done. repeat case_decide; set_solver.
    + apply IH in Hf as [H1 H2]. split.
      * intros x. rewrite H1, elem_of_app, list_elem_of_singleton. split.
        -- intros [[Hx| ->]|(r' & ch' & Hr' & Hx)]; [by left| |].
           ++ right. exists r, ch. split_and!; [by left|done..].
           ++ right. exists r', ch'. split; [by right|done].
        -- intros [Hx|(r' & ch' & [->|Hr']%elem_of_cons & Hs & Hc' & ->)]; [by do 2 left| |].
           ++ left. right. congruence.
           ++ right. by exists r', ch'.
      * intros h. rewrite H2. destruct (decide (h = r)) as [->|Hne].
        -- rewrite (decide_True (P := r ∈ r :: l)) by by left. rewrite Hr, Hc. by case_decide.
        -- repeat case_decide; set_solver.
    + apply IH in Hf as [H1 H2]. split.
      * intros x. rewrite H1. split.
        -- intros [Hx|(r' & ch' & Hr' & Hx)]; [by left|]. right. exists r', ch'. split; [by right|done].
        -- intros [Hx|(r' & ch' & [->|Hr']%elem_of_cons & Hs & Hx)]; [by left|congruence|].
           right. by exists r', ch'.
      * intros h. rewrite H2. destruct (decide (h = r)) as [->|Hne].
        -- rewrite (decide_True (P := r ∈ r :: l)) by by left. rewrite Hr. by case_decide.
        -- repeat case_decide; set_solver.
Qed.

(** A distributed message is put into exactly the channels of those
    receivers that are subscribed and still listening; the subscriptions of
    the receivers that stopped listening are dropped and no other is touched. *)
Theorem distribute_reaches_subscribers closed subscribed uuid msg subscribed' sent :
  handle_subscription closed subscribed (Distribute uuid msg) = (subscribed', sent) →
  (∀ ch package, (ch, package) ∈ sent ↔
     package = (uuid, message msg) ∧
     ∃ r, r ∈ receivers msg ∧ subscribed !! r = Some ch ∧ closed ch = false) ∧
  (∀ h, subscribed' !! h =
     if decide (h ∈ receivers msg) then
       match subscribed !! h with Some ch => if closed ch then None else Some ch | None => None end
     else subscribed !! h).
Proof.
  intros [H1 H2]%deliver_spec. split; [|done]. intros ch package. rewrite H1. split.
  - intros [Hx|(r & ch' & Hr & Hs & Hc & [= -> ->])]; [by apply elem_of_nil in Hx|]. split; [done|]. by exists r.
  - intros (-> & r & Hr & Hs & Hc). right. by exists r, ch.
Qed.

(** A reader that loads what waits and subscribes afterwards misses what is
    stored in between: it is not in what was loaded, and its distribution does
    not reach a channel that is not subscribed yet. It waits in the store. *)
Lemma missed_between_load_and_subscribe s id now msg s' r current closed subscribed ch :
  store_ok s → load_all_for s r = Ok current → add_message s id now msg = Ok s' → r ∈ receivers msg →
  (∀ h, subscribed !! h ≠ Some ch) →
  id ∉ current.*1 ∧ id ∈ ids_for s' r ∧
  ∀ package, (ch, package) ∉ (handle_subscription closed subscribed (Distribute id msg)).2.
Proof.
  intros Hok Hl Ha Hr Hch. destruct (add_message_ids _ _ _ _ _ Hok Ha) as (Hf & Hin & _).
  split_and!; [|by apply Hin|].
  - intros Hid. apply (Hf r). apply collectM_Ok in Hl.
    apply list_elem_of_fmap in Hid as ([x m] & -> & Hx). apply list_elem_of_lookup in Hx as [i Hi].
    destruct (Forall2_lookup_r _ _ _ _ _ Hl Hi) as (row & Hrow & Hm).
    apply bind_Ok in Hm as (m' & _ & [= <- _]). unfold ids_for. apply list_elem_of_fmap. exists row.
    split; [done|]. apply list_elem_of_lookup_2 in Hrow. by rewrite merge_sort_Permutation in Hrow.
  - intros package Hx. cbn in Hx. destruct (foldl _ _ _) as [sub sent] eqn:Hd. cbn in Hx.
    apply deliver_spec in Hd as [Hd _]. apply Hd in Hx as [Hx|(h & ch' & _ & Hs & _ & [= -> _])].
    + by apply elem_of_nil in Hx.
    + by apply (Hch h).
Qed.
End store.
End Messages.

(** ** Worked examples *)
#[local] Existing Instance toy_x509.
#[local] Existing Instance toy_crypto.

Definition toy_session : UnverifiedCertificate := toy_certificate UserSession 4 2 400.
Definition toy_sessions : Sessions.SessionStore :=
  Sessions.mkSessionStore
    [Sessions.mkRow (as_slice (spki_hash toy_session)) (as_slice (issuer toy_session)) (der toy_session)].

Lemma add_session_get_witness :
  Sessions.get_session toy_sessions (spki_hash toy_session) = Ok (Some toy_session).
Proof.
  refine (proj1 (proj2 (Sessions.add_session_get (Sessions.mkSessionStore [])
    (mkCertificate toy_session) toy_sessions _ _ _))).
  - vm_compute. reflexivity.
  - constructor.
  - vm_compute. reflexivity.
Defined.

(** A key package is its owner. *)
#[local] Instance postcard_owner : Postcard SpkiHash := {|
  to_stdvec h := Ok (as_slice h);
  from_bytes b := Ok (mkSpkiHash b);
|}.
Definition toy_owner : SpkiHash := mkSpkiHash [7].
Definition toy_packages : KeyPackages.KeyPackageStore :=
  KeyPackages.mkKeyPackageStore
    [KeyPackages.mkRow "a" [7] [7]; KeyPackages.mkRow "b" [7] [7]; KeyPackages.mkRow "c" [8] [8]].

Lemma get_key_packages_once_witness :
  (KeyPackages.get_key_packages Ok toy_packages [toy_owner]).2 = Ok [toy_owner] ∧
  (KeyPackages.count_key_packages
     (KeyPackages.get_key_packages Ok toy_packages [toy_owner]).1 toy_owner + 1 = 2)%nat.
Proof.
  split; [reflexivity|].
  assert (KeyPackages.ids_ok (KeyPackages.rows toy_packages)) as Hids.
  { apply (bool_decide_unpack (NoDup (KeyPackages.row_id <$> KeyPackages.rows toy_packages))).
    vm_compute. exact I. }
  exact (proj2 (proj2 (KeyPackages.get_key_packages_once Ok toy_packages [toy_owner] _ _ Hids
    (surjective_pairing _)) [toy_owner] eq_refl) toy_owner).
Defined.

#[local] Instance postcard_text : Postcard (list Z) := {| to_stdvec b := Ok b; from_bytes := Ok |}.
Definition toy_message : @Messages.MessageToSend (list Z) :=
  Messages.mkMessageToSend [toy_owner; mkSpkiHash [8]] [1; 2].
Definition toy_mailbox : @Messages.MessageStore Z :=
  Messages.mkMessageStore [Messages.mkMessageRow 5 [1; 2] 100]
    [Messages.mkReceiverRow 5 [7]; Messages.mkReceiverRow 5 [8]].

Lemma message_waits_for_receivers_witness :
  5 ∈ Messages.ids_for toy_mailbox toy_owner ∧
  5 ∉ Messages.ids_for (Messages.aknowledge_single_message toy_mailbox toy_owner 5) toy_owner ∧
  5 ∈ Messages.ids_for (Messages.aknowledge_single_message toy_mailbox toy_owner 5) (mkSpkiHash [8]).
Proof.
  destruct (Messages.message_waits_for_receivers (Messages.mkMessageStore [] []) 5 100 toy_message
    toy_mailbox) as (_ & Hin & _ & Hack).
  - split; constructor.
  - vm_compute. reflexivity.
  - destruct (Hack toy_owner) as (_ & Hgone & Hrest). split_and!.
    + apply Hin. by left.
    + exact Hgone.
    + apply Hrest; [left; discriminate|]. apply Hin. right. by left.
Defined.

Lemma distribute_reaches_subscribers_witness :
  ∀ ch package,
    (ch, package) ∈ (Messages.handle_subscription (λ _, false) {[ toy_owner := 3%nat ]}
                       (Messages.Distribute (6 : Z) toy_message)).2 ↔
    package = (6, [1; 2]) ∧
    ∃ r, r ∈ Messages.receivers toy_message ∧
      ({[ toy_owner := 3%nat ]} : gmap SpkiHash nat) !! r = Some ch ∧ false = false.
Proof.
  exact (proj1 (Messages.distribute_reaches_subscribers (λ _, false) {[ toy_owner := 3%nat ]} 6
    toy_message _ _ (surjective_pairing _))).
Defined.
