(* ===== verification/ClientStore.v ===== *)
(** * What a client remembers of its devices
    ([svalin_store/src/client_store.rs], [client_store/persistent.rs],
    the reports of [svalin_sysctl/src/sytem_report.rs])

    The in-memory state, its messages, and the two tables that keep it across
    restarts.  The maps of the program are visited in an unspecified order;
    here it is the order of [map_to_list]. *)
From S2P Require Import Prelude.
From S2P Require Import External.
From S2P Require Import Spki.
From S2P Require Import Sql.
From stdpp Require Import options.

(** [sysinfo]'s kind of a disk. *)
Class Sysinfo := { DiskKind : Type }.

Inductive OSFamily := Windows | Linux | Unknown.

Definition display_os_family (f : OSFamily) : string :=
  match f with Windows => "Windows" | Linux => "Linux" | Unknown => "Unknown" end.

Record Cpu := mkCpu {
  brand : string; model : string; cores : option Z; arch : string; threads : Z }.

Section state.
Context `{Sysinfo}.

Record Disk := mkDisk {
  disk_name : string; file_system : string; mount_point : string;
  total_space : Z; available_space : Z; kind : DiskKind }.

Record SystemReport := mkSystemReport {
  generated_at : Z;
  os_family : OSFamily;
  os : option string;
  kernel_version : string;
  hostname : option string;
  cpu : Cpu;
  total_memory : Z;
  total_swap : Z;
  disks : list Disk;
}.

Record SvalinReport := mkSvalinReport {
  current_version_identifier : string;
  system_report : SystemReport;
}.

Record SvalinMetaInfo := mkSvalinMetaInfo {
  updated_at : Z; meta_name : string; group : string; notes : string }.

Record DeviceState := mkDeviceState {
  device_spki_hash : SpkiHash;
  report : option SvalinReport;
  meta_info : option SvalinMetaInfo;
}.

Record State := mkState { devices : gmap SpkiHash DeviceState }.

Inductive Message :=
  | UpdateSystemReport (h : SpkiHash) (r : SvalinReport)
  | UpdateMetaInfo (h : SpkiHash) (m : SvalinMetaInfo)
  | UpdateFromMainState (s : State).

(** ** The state *)
Definition empty : State := mkState ∅.

(** [get_device_entry]: the entry, made when it is missing. *)
Definition get_device_entry (self : State) (h : SpkiHash) : DeviceState :=
  default (mkDeviceState h None None) (devices self !! h).

Definition set_device (self : State) (h : SpkiHash) (d : DeviceState) : State :=
  mkState (<[h := d]> (devices self)).

Definition report_time (d : DeviceState) : Z :=
  match report d with Some r => generated_at (system_report r) | None => 0 end.

Definition merge_device (self : State) (entry : SpkiHash * DeviceState) : State :=
  let '(h, other_device) := entry in
  let device := get_device_entry self h in
  set_device self h
    (if report_time device <? report_time other_device then
       mkDeviceState (device_spki_hash device) (report other_device) (meta_info device)
     else device).

Definition state_update (self : State) (msg : Message) : State :=
  match msg with
  | UpdateSystemReport h r =>
      let device := get_device_entry self h in
      set_device self h (mkDeviceState (device_spki_hash device) (Some r) (meta_info device))
  | UpdateMetaInfo h m =>
      let device := get_device_entry self h in
      set_device self h (mkDeviceState (device_spki_hash device) (report device) (Some m))
  | UpdateFromMainState state => foldl merge_device self (map_to_list (devices state))
  end.

Definition device_display_name (d : DeviceState) : string :=
  match meta_info d with
  | Some meta => if String.eqb (meta_name meta) "" then
                   match report d with
                   | Some r => default (display_spki (device_spki_hash d)) (hostname (system_report r))
                   | None => display_spki (device_spki_hash d)
                   end
                 else meta_name meta
  | None => match report d with
            | Some r => default (display_spki (device_spki_hash d)) (hostname (system_report r))
            | None => display_spki (device_spki_hash d)
            end
  end.

Definition device_os (d : DeviceState) : OSFamily :=
  match report d with Some r => os_family (system_report r) | None => Unknown end.

(** ** The tables *)
Record Row := mkRow { row_spki : list Z; row_time : Z; row_data : list Z }.

(** [INSERT ... ON CONFLICT(spki_hash) DO UPDATE SET data = ? WHERE time < ?]. *)
Fixpoint upsert (spki : list Z) (time : Z) (data : list Z) (t : list Row) : list Row :=
  match t with
  | [] => [mkRow spki time data]
  | r :: t =>
      if bool_decide (row_spki r = spki) then
        (if row_time r <? time then mkRow spki (row_time r) data else r) :: t
      else r :: upsert spki time data t
  end.

Record ClientStore := mkClientStore { system_reports : list Row; meta_infos : list Row }.

Inductive Error :=
  | ErrorPostcard (e : ExtError)
  | ErrorSqlx (e : SqlxError).

Section store.
Context `{!Postcard SvalinReport, !Postcard SvalinMetaInfo}.

Definition upsert_report (self : ClientStore) (h : SpkiHash) (r : SvalinReport) :
    result Error ClientStore :=
  data ← map_err ErrorPostcard (to_stdvec r);
  Ok (mkClientStore (upsert (as_slice h) (as_i64 (generated_at (system_report r))) data
                       (system_reports self)) (meta_infos self)).

Definition upsert_meta (self : ClientStore) (h : SpkiHash) (m : SvalinMetaInfo) :
    result Error ClientStore :=
  data ← map_err ErrorPostcard (to_stdvec m);
  Ok (mkClientStore (system_reports self)
        (upsert (as_slice h) (as_i64 (updated_at m)) data (meta_infos self))).

Definition upsert_device (self : ClientStore) (entry : SpkiHash * DeviceState) :
    result Error ClientStore :=
  let '(h, device) := entry in
  self ← match report device with Some r => upsert_report self h r | None => Ok self end;
  match meta_info device with Some m => upsert_meta self h m | None => Ok self end.

Definition client_update (self : ClientStore) (message : Message) : result Error ClientStore :=
  match message with
  | UpdateSystemReport h r => upsert_report self h r
  | UpdateMetaInfo h m => upsert_meta self h m
  | UpdateFromMainState state => foldM upsert_device self (map_to_list (devices state))
  end.

(** A row that does not decode is logged and skipped; a row whose key is not
    a hash panics. *)
Definition load_row {T} `{Postcard T} (message : SpkiHash → T → Message) (state : State) (row : Row) :
    result Error State :=
  h ← unwrap (spki_from_slice (row_spki row));
  match from_bytes (row_data row) with
  | Ok x => Ok (state_update state (message h x))
  | Err _ => Ok state
  | Panic => Panic
  end.

Definition load_persistent (self : ClientStore) : result Error State :=
  state ← foldM (load_row UpdateSystemReport) empty (system_reports self);
  foldM (load_row UpdateMetaInfo) state (meta_infos self).
End store.
End state.

(** ** The state keeps the newest report *)
Section merge.
Context `{Sysinfo}.

Definition report_at (s : State) (h : SpkiHash) : option SvalinReport := report (get_device_entry s h).
Definition meta_at (s : State) (h : SpkiHash) : option SvalinMetaInfo := meta_info (get_device_entry s h).

Lemma get_set_device s h d h' :
  get_device_entry (set_device s h d) h' = if decide (h' = h) then d else get_device_entry s h'.
Proof.
  unfold get_device_entry, set_device. cbn. case_decide as E.
  - subst. by rewrite lookup_insert_eq.
  - by rewrite lookup_insert_ne.
Qed.

Lemma merge_device_at s h d h' :
  get_device_entry (merge_device s (h, d)) h' =
  if decide (h' = h ∧ report_time (get_device_entry s h) < report_time d) then
    mkDeviceState (device_spki_hash (get_device_entry s h)) (report d) (meta_info (get_device_entry s h))
  else get_device_entry s h'.
Proof.
  unfold merge_device. rewrite get_set_device.
  destruct (Z.ltb_spec (report_time (get_device_entry s h)) (report_time d));
    repeat case_decide; naive_solver lia.
Qed.

Lemma foldl_merge_skip l s h :
  h ∉ l.*1 → get_device_entry (foldl merge_device s l) h = get_device_entry s h.
Proof.
  revert s. induction l as [|[h' d] l IH]; intros s Hn; [done|]. cbn in Hn. cbn [foldl].
  apply not_elem_of_cons in Hn as [Hne Hn]. rewrite IH, merge_device_at by done.
  by rewrite decide_False by naive_solver.
Qed.

Lemma foldl_merge_at l s h d :
  NoDup l.*1 → (h, d) ∈ l →
  get_device_entry (foldl merge_device s l) h = get_device_entry (merge_device s (h, d)) h.
Proof.
  revert s. induction l as [|[h' d'] l IH]; intros s Hnd Hin; [by apply elem_of_nil in Hin|].
  cbn in Hnd. apply NoDup_cons in Hnd as [Hh' Hnd]. cbn [foldl].
  apply elem_of_cons in Hin as [[= -> ->]|Hin]; [by apply foldl_merge_skip|].
  rewrite IH by done.
  assert (h ≠ h') as Hne. { intros ->. apply Hh'. by apply (list_elem_of_fmap_2 fst _ (h', d)). }
  rewrite !merge_device_at. rewrite (decide_False (P := h = h' ∧ _)) by naive_solver. done.
Qed.

(** A state received from the main state changes a device exactly when it
    carries a report of that device which is newer than the known one, and
    then it changes the report only: no report is ever replaced by an older
    one, and the name, group and notes are never taken over. *)
Theorem main_state_keeps_newest s main h :
  let s' := state_update s (UpdateFromMainState main) in
  meta_at s' h = meta_at s h ∧
  report_at s' h =
    match devices main !! h with
    | Some other =>
        if decide (report_time (get_device_entry s h) < report_time other)
        then report other else report_at s h
    | None => report_at s h
    end ∧
  report_time (get_device_entry s' h) =
    Z.max (report_time (get_device_entry s h))
      (match devices main !! h with Some other => report_time other
       | None => report_time (get_device_entry s h) end).
Proof.
  cbn zeta. cbn [state_update]. unfold report_at, meta_at. destruct (devices main !! h) as [other|] eqn:Hl.
  - rewrite (foldl_merge_at _ s h other) by (apply NoDup_fst_map_to_list || by apply elem_of_map_to_list).
    rewrite merge_device_at. case_decide as E1; case_decide as E2; cbn; try naive_solver.
    + split_and!; [done|done|]. unfold report_time at 1. cbn. fold (report_time other). lia.
    + split_and!; [done|done|]. lia.
  - rewrite foldl_merge_skip; [split_and!; [done|done|lia]|].
    intros ([h' d] & -> & Hin)%list_elem_of_fmap. apply elem_of_map_to_list in Hin. cbn in Hl. congruence.
Qed.
End merge.

(** ** What a restarted client finds *)
Section reload.
Context `{Sysinfo, !Postcard SvalinReport, !Postcard SvalinMetaInfo}.

Definition find_row (spki : list Z) (t : list Row) : option Row :=
  snd <$> list_find (λ r, row_spki r = spki) t.

Lemma find_row_cons spki r t :
  find_row spki (r :: t) = if decide (row_spki r = spki) then Some r else find_row spki t.
Proof.
  unfold find_row. cbn. case_decide; [done|]. by destruct (list_find _ t) as [[i r']|].
Qed.

Lemma find_row_upsert spki time data t spki' :
  find_row spki' (upsert spki time data t) =
  if decide (spki' = spki) then
    Some (match find_row spki t with
          | Some r => if row_time r <? time then mkRow spki (row_time r) data else r
          | None => mkRow spki time data
          end)
  else find_row spki' t.
Proof.
  induction t as [|r t IH]; cbn [upsert].
  - rewrite find_row_cons. cbn. by repeat case_decide.
  - case_bool_decide as E; rewrite !find_row_cons.
    + rewrite (decide_True (P := row_spki r = spki)) by done.
      destruct (_ <? _); cbn; repeat case_decide; naive_solver.
    + rewrite IH. repeat case_decide; naive_solver.
Qed.

Lemma row_spki_upsert spki time data t x :
  x ∈ row_spki <$> upsert spki time data t ↔ x = spki ∨ x ∈ row_spki <$> t.
Proof.
  induction t as [|r t IH]; cbn [upsert]; [cbn; set_solver|].
  case_bool_decide as E; cbn; [destruct (_ <? _); cbn; set_solver|set_solver].
Qed.

Definition table_ok (t : list Row) : Prop :=
  NoDup (row_spki <$> t) ∧ Forall (λ r, length (row_spki r) = 32%nat) t.

Lemma upsert_ok h time data t : spki_wf h → table_ok t → table_ok (upsert (as_slice h) time data t).
Proof.
  intros [_ Hlen] [Hnd Hall]. split.
  - clear Hall. induction t as [|r t IH]; cbn [upsert]; [apply NoDup_singleton|].
    cbn in Hnd. apply NoDup_cons in Hnd as [Hr Hnd].
    case_bool_decide as E; [destruct (_ <? _); cbn; rewrite <-?E; by apply NoDup_cons|].
    cbn. apply NoDup_cons. split; [|by apply IH]. rewrite row_spki_upsert. naive_solver.
  - clear Hnd. induction Hall as [|r t Hr Hall IH]; cbn [upsert]; [by repeat constructor|].
    case_bool_decide as E; [destruct (_ <? _)|]; by constructor.
Qed.

(** [pick time xs]: what the table keeps of the values written for one key,
    oldest first: the first one, or the last of those newer than the first. *)
Definition pick {A} (time : A → Z) (xs : list A) : option A :=
  match xs with
  | [] => None
  | x :: xs => last (x :: filter (λ y, time x < time y) xs)
  end.

Lemma pick_snoc {A} (time : A → Z) x xs y :
  pick time ((x :: xs) ++ [y]) = if decide (time x < time y) then Some y else pick time (x :: xs).
Proof.
  cbn [pick app]. rewrite filter_app, filter_cons. cbn. case_decide.
  - by rewrite app_comm_cons, last_snoc.
  - by rewrite app_nil_r.
Qed.

Definition reports_for (h : SpkiHash) (ms : list Message) : list SvalinReport :=
  omap (λ m, match m with UpdateSystemReport h' r => if decide (h' = h) then Some r else None
             | _ => None end) ms.

Definition report_stamp (r : SvalinReport) : Z := as_i64 (generated_at (system_report r)).

(** The messages an agent's own data makes: no other state is merged in. *)
Definition direct (m : Message) : Prop :=
  match m with
  | UpdateSystemReport h _ | UpdateMetaInfo h _ => spki_wf h
  | UpdateFromMainState _ => False
  end.

Definition row_is (h : SpkiHash) (rs : list SvalinReport) (row : option Row) : Prop :=
  match row, rs with
  | None, [] => True
  | Some row, r :: _ =>
      row_time row = report_stamp r ∧
      ∃ r', pick report_stamp rs = Some r' ∧ to_stdvec r' = Ok (row_data row)
  | _, _ => False
  end.

Lemma client_update_rows s m s' ms :
  direct m → table_ok (system_reports s) → table_ok (meta_infos s) →
  (∀ h, row_is h (reports_for h ms) (find_row (as_slice h) (system_reports s))) →
  client_update s m = Ok s' →
  table_ok (system_reports s') ∧ table_ok (meta_infos s') ∧
  (∀ h, row_is h (reports_for h (ms ++ [m])) (find_row (as_slice h) (system_reports s'))).
Proof.
  intros Hm Ht1 Ht2 Hrows Hu. destruct m as [h r|h i|]; cbn in Hm; [| |done]; cbn in Hu;
    apply bind_Ok in Hu as (data & Hd%map_err_Ok & [= <-]); cbn [system_reports meta_infos].
  - split_and!; [by apply upsert_ok|done|]. intros h'. rewrite find_row_upsert.
    unfold reports_for. rewrite omap_app. cbn. fold (reports_for h' ms).
    specialize (Hrows h'). destruct (decide (h = h')) as [->|Hne].
    + rewrite decide_True by done. destruct (find_row _ _) as [row|], (reports_for h' ms) as [|r0 rs];
        cbn [row_is] in Hrows; try done; cycle 1.
      { split; [done|]. by exists r. }
      destruct Hrows as [Htime (r' & Hp & Hd')]. unfold row_is. rewrite pick_snoc. cbn [app].
      destruct (Z.ltb_spec (row_time row) (report_stamp r)) as [Hlt|Hge];
        fold (report_stamp r); rewrite Htime in *.
      * rewrite (proj2 (Z.ltb_lt _ _) Hlt). rewrite decide_True by lia. split; [done|]. by exists r.
      * rewrite (proj2 (Z.ltb_ge _ _) Hge). rewrite decide_False by lia. split; [done|]. by exists r'.
    + rewrite decide_False by (destruct h, h'; cbn; congruence). by rewrite app_nil_r.
  - split_and!; [done|by apply upsert_ok|]. intros h'. unfold reports_for. rewrite omap_app. cbn.
    rewrite app_nil_r. apply Hrows.
Qed.

Lemma client_updates_rows ms s :
  Forall direct ms → foldM client_update (mkClientStore [] []) ms = Ok s →
  table_ok (system_reports s) ∧ table_ok (meta_infos s) ∧
  (∀ h, row_is h (reports_for h ms) (find_row (as_slice h) (system_reports s))).
Proof.
  revert s. induction ms as [|m ms IH] using rev_ind; intros s Hd Hf.
  - injection Hf as <-. split_and!; [split; constructor|split; constructor|done].
  - rewrite foldM_app in Hf. apply bind_Ok in Hf as (s1 & Hf & Hu%bind_Ok).
    destruct Hu as (s2 & Hu & [= <-]). apply Forall_app in Hd as [Hd Hm].
    destruct (IH s1 Hd Hf) as (H1 & H2 & H3).
    eapply client_update_rows; [by inversion Hm|done..].
Qed.

(** Loading the rows of one table. *)
Lemma load_reports_at t s s' h :
  table_ok t → foldM (load_row UpdateSystemReport) s t = Ok s' →
  report_at s' h = match find_row (as_slice h) t with
                   | Some row => match from_bytes (row_data row) with
                                 | Ok r => Some r | _ => report_at s h end
                   | None => report_at s h end.
Proof.
  intros [Hnd Hlen]. revert s. induction t as [|row t IH]; intros s Hf; [by injection Hf as ->|].
  cbn in Hnd. apply NoDup_cons in Hnd as [Hrow Hnd]. apply Forall_cons in Hlen as [Hl Hlen].
  cbn in Hf. apply bind_Ok in Hf as (s1 & Hs1 & Hf). rewrite (IH Hnd Hlen s1 Hf), find_row_cons.
  unfold load_row, spki_from_slice in Hs1. rewrite bool_decide_false in Hs1 by naive_solver. cbn in Hs1.
  assert (row_spki row = as_slice h → find_row (as_slice h) t = None) as Hnone.
  { intros E. unfold find_row. rewrite (proj2 (list_find_None _ _)); [done|].
    apply Forall_forall. intros r Hr E'. apply Hrow. rewrite E, <-E'. by apply list_elem_of_fmap_2. }
  case_decide as E.
  - rewrite Hnone by done. destruct (from_bytes _) as [r| |]; [|by injection Hs1 as ->|done].
    injection Hs1 as <-. unfold report_at. rewrite get_set_device, decide_True; [done|].
    destruct h. cbn in *. by subst.
  - assert (report_at s1 h = report_at s h) as ->; [|done].
    destruct (from_bytes _) as [r| |]; [|by injection Hs1 as ->|done].
    injection Hs1 as <-. unfold report_at. rewrite get_set_device, decide_False; [done|].
    intros ->. done.
Qed.

Lemma load_meta_report t s s' h :
  foldM (load_row UpdateMetaInfo) s t = Ok s' → report_at s' h = report_at s h.
Proof.
  intros Hf. eapply (foldM_invariant (λ s', report_at s' h = report_at s h)); [|done|exact Hf].
  cbn. intros s1 row s2 _ Hs1 Hr. unfold load_row in Hr. apply bind_Ok in Hr as (h' & _ & Hr).
  destruct (from_bytes _) as [m| |]; [|by injection Hr as <-|done]. injection Hr as <-.
  rewrite <-Hs1. unfold report_at. cbn [state_update]. rewrite get_set_device. case_decide; [by subst|done].
Qed.

Lemma load_row_total {T} `{!Postcard T} (msg : SpkiHash → T → Message) t s :
  (∀ b, @from_bytes T _ b ≠ Panic) → Forall (λ r, length (row_spki r) = 32%nat) t →
  ∃ s', foldM (load_row msg) s t = Ok s'.
Proof.
  intros Hp Hlen. revert s. induction Hlen as [|row t Hl Hlen IH]; intros s; [by eexists|].
  assert (∃ s1, load_row msg s row = Ok s1) as [s1 Hs1].
  { unfold load_row, spki_from_slice. rewrite bool_decide_false by naive_solver. cbn.
    specialize (Hp (row_data row)). destruct (from_bytes _); [by eexists..|done]. }
  cbn [foldM]. rewrite Hs1. apply IH.
Qed.

(** What a client finds after a restart: the stored reports always load,
    and of each device it finds the first report that was stored, or the last
    of the stored ones that is newer than the first one. *)
Theorem reload_finds_last_newer `{!PostcardLaws SvalinReport} ms s h :
  (∀ b, @from_bytes SvalinReport _ b ≠ Panic) → (∀ b, @from_bytes SvalinMetaInfo _ b ≠ Panic) →
  Forall direct ms → foldM client_update (mkClientStore [] []) ms = Ok s →
  ∃ state, load_persistent s = Ok state ∧
    report_at state h = pick report_stamp (reports_for h ms).
Proof.
  intros Hp1 Hp2 Hd Hf. destruct (client_updates_rows ms s Hd Hf) as (Ht1 & Ht2 & Hrows).
  unfold load_persistent.
  destruct (load_row_total UpdateSystemReport _ empty Hp1 (proj2 Ht1)) as [s1 Hs1].
  destruct (load_row_total UpdateMetaInfo _ s1 Hp2 (proj2 Ht2)) as [s2 Hs2].
  rewrite Hs1. cbn. exists s2. split; [done|].
  rewrite (load_meta_report _ _ _ _ Hs2), (load_reports_at _ _ _ _ Ht1 Hs1).
  specialize (Hrows h). destruct (find_row _ _) as [row|], (reports_for h ms) as [|r rs]; try done.
  destruct Hrows as (_ & r' & -> & Hr'). by rewrite (from_to_stdvec _ _ Hr').
Qed.
End reload.

(** ** Worked examples *)
Section examples.
Definition no_disks : Sysinfo := {| DiskKind := Empty_set |}.
#[local] Existing Instance no_disks.

(** A report of which only the time is known. *)
Definition toy_report (t : Z) : SvalinReport :=
  mkSvalinReport "" (mkSystemReport t Linux None "" None (mkCpu "" "" None "" 0) 0 0 []).

Definition postcard_report : Postcard SvalinReport := {|
  to_stdvec r := match r with
    | mkSvalinReport "" (mkSystemReport t Linux None "" None (mkCpu "" "" None "" 0) 0 0 []) => Ok [t]
    | _ => Err "unsupported"%string
    end;
  from_bytes b := match b with [t] => Ok (toy_report t) | _ => Err "length"%string end;
|}.
#[local] Existing Instance postcard_report.

Lemma postcard_report_laws : PostcardLaws SvalinReport.
Proof.
  split. intros x b. cbn. unfold toy_report.
  repeat case_match; try discriminate. intros [= <-]. done.
Qed.

Definition postcard_meta : Postcard SvalinMetaInfo := {|
  to_stdvec m := Err "unsupported"%string;
  from_bytes b := Err "unsupported"%string;
|}.
#[local] Existing Instance postcard_meta.

Definition toy_device : SpkiHash := mkSpkiHash (replicate 32 1).

(** The time column is never updated: a report stored for a second time is
    replaced by any report newer than the first one, even an older one. *)
Example reload_finds_older_report :
  ∃ s state,
    foldM client_update (mkClientStore [] [])
      [UpdateSystemReport toy_device (toy_report 10); UpdateSystemReport toy_device (toy_report 30);
       UpdateSystemReport toy_device (toy_report 20)] = Ok s ∧
    load_persistent s = Ok state ∧ report_at state toy_device = Some (toy_report 20).
Proof. eexists _, _. split_and!; vm_compute; reflexivity. Qed.

Definition toy_messages : list Message :=
  [UpdateSystemReport toy_device (toy_report 10); UpdateSystemReport toy_device (toy_report 5);
   UpdateSystemReport toy_device (toy_report 30)].

Lemma reload_finds_last_newer_witness :
  ∃ s state, foldM client_update (mkClientStore [] []) toy_messages = Ok s ∧
    load_persistent s = Ok state ∧ report_at state toy_device = Some (toy_report 30).
Proof.
  eexists. assert (∀ b, @from_bytes SvalinReport _ b ≠ Panic) as Hp.
  { intros [|? [|]]; cbn; discriminate. }
  assert (∀ b, @from_bytes SvalinMetaInfo _ b ≠ Panic) as Hp' by (intros b; cbn; discriminate).
  assert (spki_wf toy_device) as Hwf.
  { split; [|reflexivity]. apply Forall_replicate. unfold is_u8. lia. }
  assert (Forall direct toy_messages) as Hd.
  { unfold toy_messages. rewrite !Forall_cons. split_and!; [exact Hwf..|constructor]. }
  destruct (reload_finds_last_newer (PostcardLaws0 := postcard_report_laws) toy_messages _ toy_device
    Hp Hp' Hd eq_refl) as (state & Hl & Hr).
  exists state. split_and!; [vm_compute; reflexivity|exact Hl|].
  rewrite Hr. vm_compute. reflexivity.
Defined.
End examples.
