(* ===== verification/UserStore.v ===== *)
(** * The users of the server ([server_store/user_store.rs])

    The single root user with everything its client needs to log in from a new
    machine, and the lookups the login and the verifiers use.  The types of
    the login protocol's crates are parameters. *)
From S2P Require Import Prelude.
From S2P Require Import External.
From S2P Require Import Provider.
From S2P Require Import Spki.
From S2P Require Import Sql.
From S2P Require Import Toy.
From S2P Require Import Certificate.
From S2P Require Import Encrypt.
From S2P Require Import Credential.
From S2P Require Import SecureChain.
From S2P Require Import TrustStore.
From S2P Require Import ClientStore.
From stdpp Require Import options.

(** [totp_rs], [curve25519_dalek] and [password_hash]: types the store only
    passes on. *)
Class LoginTypes := {
  Totp : Type;
  Scalar : Type;
  RistrettoPoint : Type;
  ParamsString : Type;
}.

Section users.
Context `{X509, CR : Crypto, LoginTypes, Sysinfo}.

Record StoredUser := mkStoredUser {
  encrypted_credential : EncryptedCredential;
  credential_key_params : ArgonParams;
  totp_secret : Totp;
  username : list Z;
  secret_exponent : Scalar;
  user_params : ParamsString;
  verifier : RistrettoPoint;
  mls_store : ExportedMlsStore;
  persistent_data : EncryptedObject ClientStore.State;
  trust_store : ExportedStore;
  trust_store_digest : EncryptedObject ChainDigest;
}.

Definition user_certificate (u : StoredUser) : UnverifiedCertificate :=
  encrypted_certificate (encrypted_credential u).

Record UserRow := mkUserRow { user_spki : list Z; user_name : list Z; user_data : list Z }.
Record UserStore := mkUserStore { users : list UserRow }.

Inductive UserStoreError :=
  | RootUserAlreadyExists
  | WrongCertificateTypeForRoot
  | UserPostcard (e : ExtError)
  | UserSqlx (e : SqlxError)
  | UnknownUser (h : SpkiHash).

Section operations.
Context `{!Postcard StoredUser}.

Definition add_root_user (self : UserStore) (user : StoredUser) : result UserStoreError UserStore :=
  if Z.of_nat (length (users self)) >? 0 then Err RootUserAlreadyExists
  else if bool_decide (certificate_type (user_certificate user) ≠ Root) then
    Err WrongCertificateTypeForRoot
  else
    data ← map_err UserPostcard (to_stdvec user);
    let spki := as_slice (spki_hash (user_certificate user)) in
    if existsb (λ r, bool_decide (user_spki r = spki) || bool_decide (user_name r = username user))
         (users self)
    then Err (UserSqlx UniqueViolation)
    else Ok (mkUserStore (users self ++ [mkUserRow spki (username user) data])).

Definition find_user (key : UserRow → list Z) (value : list Z) (self : UserStore) :
    result UserStoreError (option StoredUser) :=
  match list_find (λ r, key r = value) (users self) with
  | None => Ok None
  | Some (_, row) => user ← map_err UserPostcard (from_bytes (user_data row)); Ok (Some user)
  end.

Definition get_user (self : UserStore) (h : SpkiHash) : result UserStoreError (option StoredUser) :=
  find_user user_spki (as_slice h) self.

Definition get_user_by_username (self : UserStore) (name : list Z) :
    result UserStoreError (option StoredUser) :=
  find_user user_name name self.

Definition get_cert_by_spki_hash (self : UserStore) (h : SpkiHash) :
    result UserStoreError (option UnverifiedCertificate) :=
  user ← find_user user_spki (as_slice h) self;
  Ok (option_map user_certificate user).

(** [lookup_verifier_strong]: an error is logged and is a missing user. *)
Definition lookup_verifier_strong (self : UserStore) (name : list Z) :
    result UserStoreError (option (RistrettoPoint * Scalar * ParamsString)) :=
  match get_user_by_username self name with
  | Ok (Some user) => Ok (Some (verifier user, secret_exponent user, user_params user))
  | Ok None | Err _ => Ok None
  | Panic => Panic
  end.

Definition with_mls_data (user : StoredUser) (mls : ExportedMlsStore)
    (persistent : EncryptedObject ClientStore.State) : StoredUser :=
  mkStoredUser (encrypted_credential user) (credential_key_params user) (totp_secret user)
    (username user) (secret_exponent user) (user_params user) (verifier user) mls persistent
    (trust_store user) (trust_store_digest user).

Definition update_mls_data (self : UserStore) (h : SpkiHash) (mls : ExportedMlsStore)
    (persistent : EncryptedObject ClientStore.State) : result UserStoreError UserStore :=
  user ← find_user user_spki (as_slice h) self;
  user ← ok_or user (UnknownUser h);
  data ← map_err UserPostcard (to_stdvec (with_mls_data user mls persistent));
  Ok (mkUserStore ((λ r, if bool_decide (user_spki r = as_slice h)
                         then mkUserRow (user_spki r) (user_name r) data else r) <$> users self)).

(** ** Properties *)

Inductive users_reachable : UserStore → Prop :=
  | users_empty : users_reachable (mkUserStore [])
  | users_add s user s' : users_reachable s → add_root_user s user = Ok s' → users_reachable s'
  | users_update s h mls persistent s' :
      users_reachable s → update_mls_data s h mls persistent = Ok s' → users_reachable s'.

(** A row holds a user of type root under its hash and name. *)
Definition row_holds (r : UserRow) (u : StoredUser) : Prop :=
  to_stdvec u = Ok (user_data r) ∧ user_spki r = as_slice (spki_hash (user_certificate u)) ∧
  user_name r = username u ∧ certificate_type (user_certificate u) = Root.

Lemma find_user_single `{!PostcardLaws StoredUser} key r u value :
  row_holds r u →
  find_user key value (mkUserStore [r]) = Ok (if decide (key r = value) then Some u else None).
Proof.
  intros (Hd & _). unfold find_user. cbn. case_decide; [|done]. cbn. by rewrite (from_to_stdvec _ _ Hd).
Qed.

Lemma users_shape `{!PostcardLaws StoredUser} s :
  users_reachable s → users s = [] ∨ ∃ r u, users s = [r] ∧ row_holds r u.
Proof.
  induction 1 as [|s user s' Hr IH Ha|s h mls persistent s' Hr IH Hu]; [by left| |].
  - unfold add_root_user in Ha. destruct (_ >? 0) eqn:Hc; [done|].
    case_bool_decide as Ht; [done|]. apply bind_Ok in Ha as (data & Hd%map_err_Ok & Ha).
    destruct (existsb _ _); [done|]. injection Ha as <-. right. cbn.
    destruct s as [[|]]; cbn in Hc; [|done]. eexists _, user. split; [done|].
    unfold row_holds. by split_and!.
  - right. unfold update_mls_data in Hu. apply bind_Ok in Hu as (o & Hf & Hu).
    apply bind_Ok in Hu as (u & ->%ok_or_Ok & Hu). apply bind_Ok in Hu as (data & Hd%map_err_Ok & [= <-]).
    destruct s as [rs]. cbn in IH. destruct IH as [->|(r & u' & -> & Hru)]; [done|].
    rewrite (find_user_single _ _ _ _ Hru) in Hf. cbn.
    case_decide as Eh; [|done]. injection Hf as ->. rewrite bool_decide_true by done.
    destruct Hru as (_ & H2 & H3 & H4). eexists _, _. split; [done|]. by split_and!.
Qed.

(** The server has at most one user, and it is a root user: every
    reachable user table is empty or holds one root certificate's user, that
    user is found under its hash and under its name and nobody else is, and a
    second root user is refused. *)
Theorem one_root_user `{!PostcardLaws StoredUser} s :
  users_reachable s →
  (users s = [] ∧ (∀ h, get_user s h = Ok None) ∧ (∀ name, get_user_by_username s name = Ok None)) ∨
  ∃ u, certificate_type (user_certificate u) = Root ∧
    (∀ h, get_user s h = Ok (if decide (h = spki_hash (user_certificate u)) then Some u else None)) ∧
    (∀ name, get_user_by_username s name = Ok (if decide (name = username u) then Some u else None)) ∧
    (∀ u', add_root_user s u' = Err RootUserAlreadyExists).
Proof.
  intros Hr. apply users_shape in Hr. destruct s as [rs]. cbn in Hr.
  destruct Hr as [->|(r & u & -> & Hru)]; [by left|]. right. exists u. pose proof Hru as (Hd & H2 & H3 & H4).
  split_and!; [done| | |done].
  - intros h. unfold get_user. rewrite (find_user_single _ _ _ _ Hru). do 2 f_equal.
    rewrite H2. destruct h, (spki_hash _); cbn in *. repeat case_decide; naive_solver congruence.
  - intros name. unfold get_user_by_username. rewrite (find_user_single _ _ _ _ Hru).
    rewrite H3. do 2 f_equal. repeat case_decide; naive_solver congruence.
Qed.

(** Updating the MLS data of a user replaces that data and nothing else,
    under the user's hash and its name; it succeeds whenever the new row can
    be encoded, and a user that is not stored is an error. *)
Theorem update_mls_data_only `{!PostcardLaws StoredUser} s h mls persistent :
  users_reachable s →
  (∀ u, get_user s h = Ok (Some u) →
    match to_stdvec (with_mls_data u mls persistent) with
    | Ok _ => ∃ s', update_mls_data s h mls persistent = Ok s' ∧
        get_user s' h = Ok (Some (with_mls_data u mls persistent)) ∧
        get_user_by_username s' (username u) = Ok (Some (with_mls_data u mls persistent))
    | Err e => update_mls_data s h mls persistent = Err (UserPostcard e)
    | Panic => update_mls_data s h mls persistent = Panic
    end) ∧
  (get_user s h = Ok None → update_mls_data s h mls persistent = Err (UnknownUser h)).
Proof.
  intros Hr. apply users_shape in Hr. destruct s as [rs]. cbn in Hr.
  unfold get_user, get_user_by_username, update_mls_data. split; [intros u Hf|intros ->; done].
  rewrite Hf. cbn [mbind result_bind ok_or].
  destruct Hr as [->|(r & u' & -> & Hru)]; [done|]. rewrite (find_user_single _ _ _ _ Hru) in Hf.
  case_decide as Eh; [|done]. injection Hf as ->.
  destruct (to_stdvec (with_mls_data u mls persistent)) as [data|e|] eqn:Hd; [|done|done].
  eexists. split; [done|]. cbn. rewrite bool_decide_true by done.
  destruct Hru as (_ & H2 & H3 & H4).
  assert (row_holds (mkUserRow (user_spki r) (user_name r) data) (with_mls_data u mls persistent)) as Hru'
    by by split_and!.
  rewrite !(find_user_single _ _ _ _ Hru'). cbn. by rewrite !decide_True by done.
Qed.
End operations.
End users.

(** ** Worked examples *)
#[local] Existing Instance toy_x509.
#[local] Existing Instance toy_crypto.
#[local] Existing Instance toy_rcgen.

#[local] Instance unit_login_types : LoginTypes := {|
  Totp := (); Scalar := (); RistrettoPoint := (); ParamsString := () |}.
#[local] Instance no_disks : Sysinfo := {| DiskKind := Empty_set |}.

#[global] Instance EncryptionAlgorithm_eq_dec : EqDecision EncryptionAlgorithm.
Proof. solve_decision. Defined.
#[global] Instance EncryptedData_eq_dec : EqDecision EncryptedData.
Proof. solve_decision. Defined.
#[global] Instance EncryptedObject_eq_dec T : EqDecision (EncryptedObject T).
Proof. solve_decision. Defined.
#[global] Instance EncryptedCredential_eq_dec : EqDecision EncryptedCredential.
Proof. solve_decision. Defined.
#[global] Instance ArgonCost_eq_dec : EqDecision ArgonCost.
Proof. solve_decision. Defined.
#[global] Instance ArgonParams_eq_dec : EqDecision ArgonParams.
Proof. solve_decision. Defined.
#[global] Instance ExportedMlsStore_eq_dec : EqDecision ExportedMlsStore.
Proof. solve_decision. Defined.
#[global] Instance StoreTransaction_eq_dec' : EqDecision StoreTransaction.
Proof. solve_decision. Defined.
#[global] Instance UncheckedBlock_eq_dec' : EqDecision (UncheckedBlock StoreTransaction).
Proof. solve_decision. Defined.
#[global] Instance ExportedState_eq_dec : EqDecision ExportedState.
Proof. solve_decision. Defined.
#[global] Instance ExportedStore_eq_dec : EqDecision ExportedStore.
Proof.
  intros [[s1 b1]] [[s2 b2]]. destruct (decide (s1 = s2)), (decide (b1 = b2));
    solve [left; congruence|right; congruence].
Defined.
#[local] Instance StoredUser_eq_dec : EqDecision StoredUser.
Proof.
  assert (EqDecision Totp * EqDecision Scalar * EqDecision RistrettoPoint * EqDecision ParamsString)%type
    as [[[? ?] ?] ?] by (cbn; repeat split; apply _).
  solve_decision.
Defined.

Definition no_data {T} : EncryptedObject T := mkEncryptedObject (mkEncryptedData [] Chacha20Poly1305 []).

Definition toy_stored (mls : list Z) : StoredUser :=
  mkStoredUser (mkEncryptedCredential no_data toy_root) (mkArgonParams cost_basic []) () [65] () () ()
    (mkExportedMlsStore (mkEncryptedObject (mkEncryptedData mls Chacha20Poly1305 []))) no_data
    (mkExportedStore (mkExportedChain (mkExportedState toy_root []) None)) no_data.

(** A user with some MLS data is that data. *)
#[local] Instance postcard_user : Postcard StoredUser := {|
  to_stdvec u :=
    let mls := ciphertext (object_ciphertext (exported_mls (mls_store u))) in
    if bool_decide (u = toy_stored mls) then Ok mls else Err "unsupported"%string;
  from_bytes b := Ok (toy_stored b);
|}.

Lemma postcard_user_laws : PostcardLaws StoredUser.
Proof. split. intros u b. cbn. case_bool_decide as E; [|done]. intros [= <-]. by rewrite <-E. Qed.

Definition toy_users (mls : list Z) : UserStore :=
  mkUserStore [mkUserRow (as_slice (spki_hash toy_root)) [65] mls].

Lemma toy_users_reachable : users_reachable (toy_users [1]).
Proof. eapply (users_add _ (toy_stored [1])); [apply users_empty|]. vm_compute. reflexivity. Qed.

Lemma one_root_user_witness :
  get_user (toy_users [1]) (spki_hash toy_root) = Ok (Some (toy_stored [1])) ∧
  add_root_user (toy_users [1]) (toy_stored [2]) = Err RootUserAlreadyExists.
Proof.
  destruct (one_root_user (PostcardLaws0 := postcard_user_laws) _ toy_users_reachable)
    as [(H & _)|(u & _ & _ & _ & H)]; [discriminate H|].
  split; [reflexivity|apply H].
Defined.

Lemma update_mls_data_only_witness :
  ∃ s', update_mls_data (toy_users [1]) (spki_hash toy_root)
          (mkExportedMlsStore (mkEncryptedObject (mkEncryptedData [2] Chacha20Poly1305 []))) no_data = Ok s' ∧
    get_user s' (spki_hash toy_root) = Ok (Some (toy_stored [2])) ∧
    get_user_by_username s' [65] = Ok (Some (toy_stored [2])).
Proof.
  pose proof (proj1 (update_mls_data_only (PostcardLaws0 := postcard_user_laws) (toy_users [1])
    (spki_hash toy_root) (mkExportedMlsStore (mkEncryptedObject (mkEncryptedData [2] Chacha20Poly1305 [])))
    no_data toy_users_reachable) (toy_stored [1]) eq_refl) as H.
  assert (to_stdvec (with_mls_data (toy_stored [1])
    (mkExportedMlsStore (mkEncryptedObject (mkEncryptedData [2] Chacha20Poly1305 []))) no_data) = Ok [2]) as E
    by (vm_compute; reflexivity).
  rewrite E in H. exact H.
Defined.
