(* ===== verification/Verifiers.v ===== *)
(** * Verifiers ([svalin_pki/src/verifier.rs], [verifier/], [svalin/src/verifier/],
    [svalin/src/server/chain_loader.rs], [svalin_rpc/src/rpc/peer.rs],
    [svalin_rpc/src/rpc/connection/direct_connection.rs])

    A verifier turns an SPKI hash, or a certificate a peer presents, into a
    trusted certificate.  The class [Verifier] is the trait; the TLS layer is
    proved against it and its laws, and every verifier of the program
    discharges them. *)
From S2P Require Import Prelude.
From S2P Require Import External.
From S2P Require Import Spki.
From S2P Require Import Sql.
From S2P Require Import Toy.
From S2P Require Import Certificate.
From S2P Require Import CertChain.
From S2P Require Import SecureChain.
From S2P Require Import TrustStore.
From S2P Require Import ServerStore.
From stdpp Require Import options.

(** What [load_certificate_chain] can fail with, through [anyhow]. *)
Inductive LoadChainError :=
  | LoadSessionError (e : StoreFailure)
  | LoadCompleteError (e : CompleteCertChainError).

Inductive InternalFailure :=
  | InternalLoad (e : LoadChainError)
  | GotWrongCertificate.

Inductive VerifyError :=
  | ChainError (e : VerifyChainError)
  | NotYetImplemented
  | CertificateRevoked
  | CertificateInvalid
  | UnknownCertificate
  | CertificateMismatch
  | TimerangeError (e : ValidityError)
  | ChainTimerangeError (e : ValidityError) (h : SpkiHash)
  | SignatureError (e : SignatureVerificationError)
  | SpkiHashCollission (h : SpkiHash) (given_cert : UnverifiedCertificate) (loaded_cert : Certificate)
  | IncorrectCertificateType
  | InternalError (e : InternalFailure).

(** The trait; [verify_known_certificate] may be overridden. *)
Class Verifier (V : Type) := {
  verify_spki_hash : V → SpkiHash → Z → result VerifyError Certificate;
  verify_known_certificate : V → UnverifiedCertificate → Z → result VerifyError Certificate;
}.

(** The provided method. *)
Definition default_verify_known_certificate
    (verify_hash : SpkiHash → Z → result VerifyError Certificate)
    (cert : UnverifiedCertificate) (time : Z) : result VerifyError Certificate :=
  let fingerprint := spki_hash cert in
  '(loaded_cert : Certificate) ← verify_hash fingerprint time;
  if negb (cert_eqb cert loaded_cert) then Err (SpkiHashCollission fingerprint cert loaded_cert)
  else Ok loaded_cert.

(** What the users of a verifier rely on, for the verifiers in a good state:
    the certificate it returns has the hash, or the encoding, it was asked
    about. *)
Class VerifierLaws (V : Type) `{Verifier V} := {
  verifier_ok : V → Prop;
  verified_hash v h t c : verifier_ok v → verify_spki_hash v h t = Ok c → spki_hash c = h;
  verified_known v c t c' : verifier_ok v → verify_known_certificate v c t = Ok c' → der c' = der c;
}.

Lemma default_known_der f c t c' :
  default_verify_known_certificate f c t = Ok c' → f (spki_hash c) t = Ok c' ∧ der c' = der c.
Proof.
  unfold default_verify_known_certificate. intros (l & Hl & H)%bind_Ok.
  unfold cert_eqb in H. case_bool_decide as E; [|done]. injection H as ->. done.
Qed.

(** ** [ExactVerififier] *)
Record ExactVerififier := mkExact { exact_expected : Certificate }.

Definition exact_verify (self : ExactVerififier) (h : SpkiHash) (time : Z) :
    result VerifyError Certificate :=
  if bool_decide (h = spki_hash (exact_expected self)) then
    _ ← map_err TimerangeError (check_validity_at (exact_expected self) time);
    Ok (exact_expected self)
  else Err CertificateMismatch.

#[global] Instance exact_verifier : Verifier ExactVerififier := {|
  verify_spki_hash := exact_verify;
  verify_known_certificate v := default_verify_known_certificate (exact_verify v);
|}.

#[global] Program Instance exact_verifier_laws : VerifierLaws ExactVerififier := {|
  verifier_ok _ := True;
|}.
Next Obligation.
  cbn. unfold exact_verify. intros v h t c _ H. case_bool_decide as E; [|done].
  apply bind_Ok in H as (_ & _ & [= <-]). done.
Qed.
Next Obligation. cbn. by intros v c t c' _ [_ H]%default_known_der. Qed.

(** ** [OneOfVerififier] *)
Record OneOfVerififier := mkOneOf { one_of_expected : gmap SpkiHash Certificate }.

(** [collect] into a map: a later certificate replaces an earlier one. *)
Definition one_of_new (expected : list Certificate) : OneOfVerififier :=
  mkOneOf (foldl (λ m (c : Certificate), <[ spki_hash c := c ]> m) ∅ expected).

Definition one_of_verify (self : OneOfVerififier) (h : SpkiHash) (time : Z) :
    result VerifyError Certificate :=
  match (one_of_expected self !! h : option Certificate) with
  | Some cert => _ ← map_err TimerangeError (check_validity_at cert time); Ok cert
  | None => Err CertificateMismatch
  end.

#[global] Instance one_of_verifier : Verifier OneOfVerififier := {|
  verify_spki_hash := one_of_verify;
  verify_known_certificate v := default_verify_known_certificate (one_of_verify v);
|}.

#[global] Program Instance one_of_verifier_laws : VerifierLaws OneOfVerififier := {|
  verifier_ok v := map_Forall (λ h (c : Certificate), spki_hash c = h) (one_of_expected v);
|}.
Next Obligation.
  cbn. unfold one_of_verify. intros v h t c Hv H. destruct (_ !! h) as [cert|] eqn:Hl; [|done].
  apply bind_Ok in H as (_ & _ & [= <-]). exact (Hv h cert Hl).
Qed.
Next Obligation. cbn. by intros v c t c' _ [_ H]%default_known_der. Qed.

Lemma one_of_new_ok l : verifier_ok (one_of_new l).
Proof.
  cbn. unfold one_of_new. cbn.
  assert (∀ m : gmap SpkiHash Certificate, map_Forall (λ h (c : Certificate), spki_hash c = h) m →
    map_Forall (λ h (c : Certificate), spki_hash c = h)
      (foldl (λ m (c : Certificate), <[ spki_hash c := c ]> m) m l)) as H.
  { induction l as [|c l IH]; intros m Hm; [done|]. cbn. apply IH. by apply map_Forall_insert_2. }
  apply H, map_Forall_empty.
Qed.

(** ** [TypeLimitedVerifier] *)
Record TypeLimitedVerifier (V : Type) := mkTypeLimited {
  limited_inner : V;
  limited_check : CertificateType → bool;
}.
Arguments mkTypeLimited {V} _ _.
Arguments limited_inner {V} _.
Arguments limited_check {V} _ _.

Definition server_only {V} (self : V) : TypeLimitedVerifier V :=
  mkTypeLimited self (λ t, match t with Server => true | _ => false end).

Section limited.
Context `{Verifier V}.

Definition limited_verify (self : TypeLimitedVerifier V) (h : SpkiHash) (time : Z) :
    result VerifyError Certificate :=
  '(cert : Certificate) ← verify_spki_hash (limited_inner self) h time;
  if limited_check self (certificate_type cert) then Ok cert else Err IncorrectCertificateType.

#[global] Instance limited_verifier : Verifier (TypeLimitedVerifier V) := {|
  verify_spki_hash := limited_verify;
  verify_known_certificate v := default_verify_known_certificate (limited_verify v);
|}.

#[global] Program Instance limited_verifier_laws `{!VerifierLaws V} :
    VerifierLaws (TypeLimitedVerifier V) := {|
  verifier_ok v := verifier_ok (limited_inner v);
|}.
Next Obligation.
  cbn. unfold limited_verify. intros L v h t c Hv (cert & Hc & Hcheck)%bind_Ok.
  destruct (limited_check v _); [|done]. injection Hcheck as ->. by eapply verified_hash.
Qed.
Next Obligation. cbn. by intros L v c t c' _ [_ H']%default_known_der. Qed.
End limited.

(** ** [TrustStoreVerifier] *)
Section trust_store_verifier.
Context `{X509, CR : Crypto, !Rcgen}.

Record TrustStoreVerifier := mkTrustStoreVerifier { verifier_store : TrustStore }.

Definition trust_store_verify (self : TrustStoreVerifier) (h : SpkiHash) (time : Z) :
    result VerifyError Certificate :=
  match ts_get (verifier_store self) h with
  | None => Err UnknownCertificate
  | Some cert => _ ← map_err TimerangeError (check_validity_at cert time); Ok cert
  end.

Definition trust_store_verify_known (self : TrustStoreVerifier) (cert : UnverifiedCertificate)
    (time : Z) : result VerifyError Certificate :=
  match certificate_type cert with
  | Temporary => Err IncorrectCertificateType
  | Root | Agent | Server | User =>
      '(correct_cert : Certificate) ← trust_store_verify self (spki_hash cert) time;
      if cert_eqb correct_cert cert then Ok correct_cert else Err IncorrectCertificateType
  | UserSession =>
      '(issuer : Certificate) ← trust_store_verify self (issuer cert) time;
      map_err SignatureError (verify_signature cert issuer time)
  end.

#[global] Instance trust_store_verifier : Verifier TrustStoreVerifier := {|
  verify_spki_hash := trust_store_verify;
  verify_known_certificate := trust_store_verify_known;
|}.

Lemma trust_store_verify_Ok v h t c :
  trust_store_verify v h t = Ok c ↔ ts_get (verifier_store v) h = Some c ∧ check_validity_at c t = Ok ().
Proof.
  unfold trust_store_verify. destruct (ts_get _ h) as [cert|]; [|split; [done|by intros []]].
  destruct (check_validity_at cert t) as [[]|e|] eqn:Hv; cbn; split;
    (intros [= <-] || intros [[= <-] Hc]); by rewrite ?Hv in *.
Qed.

#[global] Program Instance trust_store_verifier_laws : VerifierLaws TrustStoreVerifier := {|
  verifier_ok v := store_wf (chain_state (store_chain (verifier_store v)));
|}.
Next Obligation.
  cbn. intros v h t c Hv [Hg _]%trust_store_verify_Ok. by destruct (store_wf_lookup _ _ _ Hv Hg).
Qed.
Next Obligation.
  cbn. unfold trust_store_verify_known. intros v c t c' Hv Hk.
  destruct (certificate_type c); try done; apply bind_Ok in Hk as (l & _ & Hk);
    first [ apply map_err_Ok in Hk; by apply verify_signature_Ok in Hk as [-> _]
          | unfold cert_eqb in Hk; case_bool_decide; [|done]; by injection Hk as -> ].
Qed.
End trust_store_verifier.

(** ** [ChainLoader] and [LocalVerifier] *)
Section local.
Context `{X509, CR : Crypto, !Rcgen}.

Record ChainLoader := mkChainLoader {
  loader_trust_store : TrustStore;
  loader_session_store : Sessions.SessionStore;
}.

(** The loop of [complete_certificate_chain] with the fuel that is enough for
    every chain that was started. *)
Definition complete_started_chain (self : TrustStore) (cert_chain : CertificateChainBuilder) :
    result CompleteCertChainError UnverifiedCertificateChain :=
  default Panic
    (complete_certificate_chain (S (size (state_certificates (chain_state (store_chain self)))))
       self cert_chain).

Definition complete_leaf_chain (self : TrustStore) (leaf : UnverifiedCertificate) :
    result CompleteCertChainError UnverifiedCertificateChain :=
  complete_started_chain self (builder_new leaf).

Definition load_certificate_chain (self : ChainLoader) (request : SpkiHash) :
    result LoadChainError (option UnverifiedCertificateChain) :=
  session ← map_err LoadSessionError (Sessions.get_session (loader_session_store self) request);
  let certificate :=
    match session with
    | Some session => Some session
    | None => match ts_get (loader_trust_store self) request with
              | Some cert => Some (as_unverified cert)
              | None => None
              end
    end in
  match certificate with
  | None => Ok None
  | Some certificate =>
      cert_chain ← map_err LoadCompleteError (complete_leaf_chain (loader_trust_store self) certificate);
      Ok (Some cert_chain)
  end.

Record LocalVerifier := mkLocalVerifier { local_root : RootCertificate; local_loader : ChainLoader }.

Definition local_verify (self : LocalVerifier) (h : SpkiHash) (time : Z) :
    result VerifyError Certificate :=
  loaded ← map_err (λ e, InternalError (InternalLoad e)) (load_certificate_chain (local_loader self) h);
  match loaded with
  | None => Err UnknownCertificate
  | Some cert_chain =>
      cert_chain ← map_err ChainError (verify cert_chain (local_root self) time);
      '(cert : Certificate) ← take_leaf cert_chain;
      if bool_decide (spki_hash cert ≠ h) then Err (InternalError GotWrongCertificate)
      else Ok cert
  end.

#[global] Instance local_verifier : Verifier LocalVerifier := {|
  verify_spki_hash := local_verify;
  verify_known_certificate v := default_verify_known_certificate (local_verify v);
|}.

#[global] Program Instance local_verifier_laws : VerifierLaws LocalVerifier := {|
  verifier_ok _ := True;
|}.
Next Obligation.
  cbn. unfold local_verify. intros v h t c _ (loaded & _ & Hv)%bind_Ok.
  destruct loaded as [ch|]; [|done]. apply bind_Ok in Hv as (ch' & _ & Hv).
  apply bind_Ok in Hv as (cert & _ & Hv). case_bool_decide as E; [done|]. injection Hv as ->.
  done.
Qed.
Next Obligation. cbn. by intros v c t c' _ [_ H']%default_known_der. Qed.

Lemma complete_started_chain_spec ts leaf b :
  store_wf (chain_state (store_chain ts)) → builder_ok leaf b →
  complete_started_chain ts b ≠ Panic ∧
  ∀ ch, complete_started_chain ts b = Ok ch → ∃ ps, chain_certificates ch = reverse (certificates b ++ ps) ∧
    (∃ c : UnverifiedCertificate, last (certificates b ++ ps) = Some c ∧ certificate_type c = Root) ∧
    Forall (λ p : UnverifiedCertificate, ts_get ts (spki_hash p) = Some (mkCertificate p)) ps.
Proof.
  intros Hwf Hb. destruct (complete_builder_spec ts leaf b Hwf Hb) as (r & Hr & Hp & Hok).
  unfold complete_started_chain. specialize (Hr 0%nat). rewrite Nat.add_0_r in Hr. by rewrite Hr.
Qed.

Lemma complete_leaf_chain_spec ts leaf :
  store_wf (chain_state (store_chain ts)) →
  complete_leaf_chain ts leaf ≠ Panic ∧
  ∀ ch, complete_leaf_chain ts leaf = Ok ch → ∃ ps, chain_certificates ch = reverse (leaf :: ps) ∧
    (∃ c : UnverifiedCertificate, last (leaf :: ps) = Some c ∧ certificate_type c = Root) ∧
    Forall (λ p : UnverifiedCertificate, ts_get ts (spki_hash p) = Some (mkCertificate p)) ps.
Proof.
  intros Hwf. apply (complete_started_chain_spec ts leaf (builder_new leaf) Hwf), builder_new_ok.
Qed.

(** What the local verifier accepts is the root, or a certificate at the
    end of a path of signatures from the root in which every certificate is
    valid at the given time; it is the stored session, or the stored
    certificate, of the requested hash. *)
Theorem local_verifier_sound v h t c :
  store_wf (chain_state (store_chain (loader_trust_store (local_loader v)))) →
  Sessions.store_ok (loader_session_store (local_loader v)) →
  local_verify v h t = Ok c →
  spki_hash c = h ∧
  (c = as_certificate (local_root v) ∨
   ∃ l, signed_path t (local_root v) l ∧ last l = Some c ∧
     (certificate_type c = UserSession ∨ ts_get (loader_trust_store (local_loader v)) h = Some c)).
Proof.
  intros Hwf Hs Hv. split; [exact (verified_hash (V := LocalVerifier) v h t c I Hv)|].
  unfold local_verify, load_certificate_chain in Hv.
  apply bind_Ok in Hv as (loaded & Hl%map_err_Ok & Hv).
  apply bind_Ok in Hl as (session & Hsess%map_err_Ok & Hl).
  assert (∀ (leaf : UnverifiedCertificate) ch, (certificate_type leaf = UserSession ∨
      ts_get (loader_trust_store (local_loader v)) h = Some (mkCertificate leaf)) →
    complete_leaf_chain (loader_trust_store (local_loader v)) leaf = Ok ch → loaded = Some ch →
    c = as_certificate (local_root v) ∨ ∃ l, signed_path t (local_root v) l ∧ last l = Some c ∧
     (certificate_type c = UserSession ∨ ts_get (loader_trust_store (local_loader v)) h = Some c)) as Hgen.
  { intros leaf ch Hleaf Hch ->. apply bind_Ok in Hv as (vch & Hver%map_err_Ok & Hv).
    apply bind_Ok in Hv as (cert & Hcert & Hv). case_bool_decide; [done|]. injection Hv as ->.
    apply verify_Ok in Hver as (c0 & l & Hcs & _ & -> & Hpath).
    unfold take_leaf in Hcert. cbn in Hcert. apply expect_Ok in Hcert.
    destruct (last (mkCertificate <$> l)) as [x|] eqn:Hlast.
    - right. exists (mkCertificate <$> l). split; [done|]. rewrite last_cons, Hlast in Hcert.
      injection Hcert as ->. split; [done|].
      destruct (complete_leaf_chain_spec _ leaf Hwf) as [_ Hspec].
      destruct (Hspec ch Hch) as (ps & Hrev & _).
      assert (last (chain_certificates ch) = Some leaf) as Hlc.
      { rewrite Hrev. rewrite reverse_cons. by rewrite last_snoc. }
      rewrite Hcs, last_cons in Hlc. rewrite fmap_last in Hlast.
      destruct (last l) as [y|]; [|done]. cbn in Hlast. injection Hlast as <-. injection Hlc as ->. done.
    - left. rewrite last_cons, Hlast in Hcert. by injection Hcert as <-. }
  destruct session as [s|].
  - apply bind_Ok in Hl as (ch & Hch%map_err_Ok & [= <-]). eapply (Hgen s ch); [|done..].
    left. by destruct (Sessions.get_session_ok _ _ _ Hs Hsess) as (_ & ? & _).
  - destruct (ts_get _ h) as [cert|] eqn:Hg; [|by injection Hl as <-].
    apply bind_Ok in Hl as (ch & Hch%map_err_Ok & [= <-]). eapply (Hgen cert ch); [|done..].
    right. by destruct cert.
Qed.
End local.

Lemma from_der_parsed_der `{X509, CR : Crypto} d c : from_der d = Ok c → der c = d.
Proof. intros Hc. apply from_der_Ok in Hc as (?&?&?&?&?&_&->&_). done. Qed.

Lemma default_known_iff f c t c' :
  default_verify_known_certificate f c t = Ok c' ↔ f (spki_hash c) t = Ok c' ∧ der c = der c'.
Proof.
  split; [intros [? ?]%default_known_der; by split|]. intros [Hf Hd].
  unfold default_verify_known_certificate. rewrite Hf. cbn. unfold cert_eqb. by rewrite bool_decide_true.
Qed.

(** ** The TLS layer *)
Inductive RustlsError :=
  | BadEncoding
  | Revoked
  | OtherVerifyError (e : VerifyError)
  | OtherRecvError
  | ServerTlsVersionIsDisabledByOurConfig.

(** What a TLS verifier answers with; the 1.3 signature check is [rustls]'s. *)
Class ClientCertVerifier (V : Type) := {
  client_auth_mandatory : V → bool;
  verify_client_cert : V → list Z → Z → result RustlsError ();
  verify_tls12_signature : V → list Z → list Z → result RustlsError ();
}.

Inductive Peer :=
  | Anonymous
  | PeerCertificate (certificate : Certificate).

Definition peer_certificate (self : Peer) : result () Certificate :=
  match self with
  | Anonymous => Err ()
  | PeerCertificate cert => Ok cert
  end.

Section tls.
Context `{X509, CR : Crypto}.

Record RustlsVerifier (V : Type) := mkRustls { rustls_verifier : V }.
Arguments mkRustls {V} _.
Arguments rustls_verifier {V} _.

Definition to_tls_verifier {V} (self : V) : RustlsVerifier V := mkRustls self.

(** The verification runs in its own task: when it unwinds, its channel is
    dropped and receiving fails. *)
Definition verify_cert `{Verifier V} (self : RustlsVerifier V) (end_entity : list Z) (now : Z) :
    result RustlsError () :=
  cert ← map_err (λ _, BadEncoding) (from_der end_entity);
  match verify_known_certificate (rustls_verifier self) cert now with
  | Ok _ => Ok ()
  | Err CertificateInvalid => Err BadEncoding
  | Err CertificateRevoked => Err Revoked
  | Err e => Err (OtherVerifyError e)
  | Panic => Err OtherRecvError
  end.

(** Both roles; [rustls] makes client authentication mandatory by default. *)
Definition verify_server_cert `{Verifier V} (self : RustlsVerifier V) (end_entity : list Z) (now : Z) :
    result RustlsError () := verify_cert self end_entity now.

#[global] Instance rustls_client_cert_verifier `{Verifier V} : ClientCertVerifier (RustlsVerifier V) := {|
  client_auth_mandatory _ := true;
  verify_client_cert := verify_cert;
  verify_tls12_signature _ _ _ := Err ServerTlsVersionIsDisabledByOurConfig;
|}.

(** [TlsOptionalWrapper]: a client may stay anonymous. *)
Record TlsOptionalWrapper (T : Type) := mkTlsOptional { optional_inner : T }.
Arguments mkTlsOptional {T} _.
Arguments optional_inner {T} _.

#[global] Instance optional_client_cert_verifier `{ClientCertVerifier T} :
    ClientCertVerifier (TlsOptionalWrapper T) := {|
  client_auth_mandatory _ := false;
  verify_client_cert self := verify_client_cert (optional_inner self);
  verify_tls12_signature self := verify_tls12_signature (optional_inner self);
|}.

(** [SkipClientVerification], for a server that is not initialised yet. *)
#[global] Instance skip_client_verification : ClientCertVerifier () := {|
  client_auth_mandatory _ := false;
  verify_client_cert _ _ _ := Ok ();
  verify_tls12_signature _ _ _ := Err ServerTlsVersionIsDisabledByOurConfig;
|}.

Inductive ConnectionError :=
  | EmptyIdentity
  | ConnectionParse (e : CertificateParseError).

(** [DirectConnection::new]: the peer of a connection whose handshake is
    done, from the certificates it presented. *)
Definition connection_peer (identity : option (list (list Z))) : result ConnectionError Peer :=
  match identity with
  | None => Ok Anonymous
  | Some der_list =>
      d ← ok_or (head der_list) EmptyIdentity;
      cert ← map_err ConnectionParse (dangerous_from_already_verified_der d);
      Ok (PeerCertificate cert)
  end.

(** ** Properties *)

(** Every lawful verifier behind the TLS layer lets a peer in only with a
    certificate that parses and that the verifier itself vouches for, byte
    for byte; the peer of the connection is then that certificate. *)
Theorem tls_peer_is_verified `{VerifierLaws V} (v : V) d rest now peer :
  verifier_ok v →
  verify_server_cert (to_tls_verifier v) d now = Ok () →
  connection_peer (Some (d :: rest)) = Ok peer →
  ∃ c c' : Certificate, peer = PeerCertificate c ∧ from_der d = Ok (as_unverified c) ∧
    verify_known_certificate v c now = Ok c' ∧ der c' = d.
Proof.
  intros Hv Ht Hp. unfold verify_server_cert, verify_cert in Ht.
  apply bind_Ok in Ht as (c & Hc%map_err_Ok & Ht).
  destruct (verify_known_certificate _ c now) as [c'|e|] eqn:Hk; [|by destruct e|done].
  cbn in Hp. unfold dangerous_from_already_verified_der in Hp. rewrite Hc in Hp. cbn in Hp.
  injection Hp as <-. eexists _, c'. split_and!; [done|done|done|].
  cbn in Hk. rewrite (verified_known v _ _ _ Hv Hk). by apply from_der_parsed_der.
Qed.

Lemma verify_cert_Ok `{Verifier V} (v : V) d now :
  verify_cert (to_tls_verifier v) d now = Ok () ↔
  ∃ c c', from_der d = Ok c ∧ verify_known_certificate v c now = Ok c'.
Proof.
  unfold verify_cert. split.
  - intros (c & Hc%map_err_Ok & Ht)%bind_Ok. exists c. cbn in Ht.
    destruct (verify_known_certificate v c now) as [c'|e|] eqn:Hk; [by exists c'|by destruct e|done].
  - intros (c & c' & -> & Hk). cbn. by rewrite Hk.
Qed.

(** A connection pinned to one certificate, as every connection to the
    server and through it is, accepts exactly that certificate, while it is
    valid. *)
Theorem exact_tls_accepts (expected : Certificate) d now :
  parsed expected →
  verify_server_cert (to_tls_verifier (mkExact expected)) d now = Ok () ↔
  d = der expected ∧ check_validity_at expected now = Ok ().
Proof.
  intros Hp. unfold verify_server_cert. rewrite verify_cert_Ok. cbn.
  setoid_rewrite default_known_iff. unfold exact_verify. split.
  - intros (c & c' & Hc & Hv & Hd). case_bool_decide; [|done].
    apply bind_Ok in Hv as ([] & Hv%map_err_Ok & [= <-]). split; [|done].
    rewrite <-Hd. symmetry. by apply from_der_parsed_der.
  - intros [-> Hv]. exists expected, expected. split; [done|].
    cbn [exact_expected]. by rewrite bool_decide_true, Hv by done.
Qed.

(** Behind a server-only verifier, TLS accepts only certificates of type
    server that the inner verifier finds under their hash, byte for byte. *)
Theorem server_only_tls `{Verifier V} (v : V) d now :
  verify_server_cert (to_tls_verifier (server_only v)) d now = Ok () ↔
  ∃ (c : UnverifiedCertificate) (c' : Certificate), from_der d = Ok c ∧ certificate_type c' = Server ∧
    verify_spki_hash v (spki_hash c) now = Ok c' ∧ der c' = d.
Proof.
  unfold verify_server_cert. rewrite verify_cert_Ok. cbn. setoid_rewrite default_known_iff.
  unfold limited_verify. split.
  - intros (c & c' & Hc & Hv & Hd). apply bind_Ok in Hv as (cert & Hcert & Hv). cbn in Hcert, Hv.
    destruct (certificate_type cert) eqn:Ht; try done. injection Hv as ->.
    exists c, c'. split_and!; [done|done|done|]. rewrite <-Hd. by apply from_der_parsed_der.
  - intros (c & c' & Hc & Ht & Hv & Hd). exists c, c'. split; [done|]. cbn. rewrite Hv. cbn. rewrite Ht.
    split; [done|]. rewrite Hd. by apply from_der_parsed_der.
Qed.

Context `{!Rcgen}.

(** A certificate the nodes trust at a time: one of the store, or a session
    signed by a certificate of the store, where both are valid. *)
Definition tls_trusted (ts : TrustStore) (c : UnverifiedCertificate) (now : Z) : Prop :=
  check_validity_at c now = Ok () ∧
  match certificate_type c with
  | Temporary => False
  | UserSession => ∃ i : Certificate, ts_get ts (issuer c) = Some i ∧
      check_validity_at i now = Ok () ∧ verify_signature c i now = Ok (mkCertificate c)
  | _ => ts_get ts (spki_hash c) = Some (mkCertificate c)
  end.

Lemma trust_store_known_Ok ts c now c' :
  store_wf (chain_state (store_chain ts)) → parsed c →
  trust_store_verify_known (mkTrustStoreVerifier ts) c now = Ok c' ↔
  c' = mkCertificate c ∧ tls_trusted ts c now.
Proof.
  intros Hwf Hp. unfold trust_store_verify_known, tls_trusted.
  assert ((trust_store_verify (mkTrustStoreVerifier ts) (spki_hash c) now ≫= λ correct_cert : Certificate,
           if cert_eqb correct_cert c then Ok correct_cert else Err IncorrectCertificateType) = Ok c' ↔
          c' = mkCertificate c ∧ check_validity_at c now = Ok () ∧
          ts_get ts (spki_hash c) = Some (mkCertificate c)) as Hstored.
  { split.
    - intros (l & [Hg Hv]%trust_store_verify_Ok & Hk)%bind_Ok. unfold cert_eqb in Hk.
      case_bool_decide as E; [|done]. injection Hk as ->. cbn in Hg.
      destruct (store_wf_lookup _ _ _ Hwf Hg) as [_ Hpc]. pose proof (parsed_eq _ _ Hpc Hp E) as Ec.
      destruct c' as [c']. cbn in Ec. subst c'. done.
    - intros (-> & Hv & Hg). apply bind_Ok. exists (mkCertificate c). split; [by apply trust_store_verify_Ok|].
      unfold cert_eqb. by rewrite bool_decide_true. }
  destruct (certificate_type c) eqn:Ht;
    try exact Hstored; try (split; [done|by intros (_ & _ & [])]).
  split.
  - intros (i & [Hg Hv]%trust_store_verify_Ok & Hk%map_err_Ok)%bind_Ok.
    pose proof (verify_signature_Ok _ _ _ _ Hk) as (-> & _ & Hvc & _). split_and!; [done|done|]. by exists i.
  - intros (-> & _ & i & Hg & Hv & Hk). apply bind_Ok. exists i.
    split; [by apply trust_store_verify_Ok|]. by rewrite Hk.
Qed.

(** C18: A node lets a peer in exactly when it presents a trusted certificate:
    one of its trust store, or a session signed by a user of that store, valid
    at that time; it derives from the root the store was made from, and is
    never a temporary one. This does not depend on whether clients may also
    stay anonymous. *)
Theorem tls_accepts_exactly (root : RootCertificate) ts d now :
  parsed root → reachable root ts →
  (verify_client_cert (mkTlsOptional (to_tls_verifier (mkTrustStoreVerifier ts))) d now = Ok () ↔
   ∃ c, from_der d = Ok c ∧ tls_trusted ts c now) ∧
  (∀ c, tls_trusted ts c now → derives root (mkCertificate c) ∧ certificate_type c ≠ Temporary).
Proof.
  intros Hp Hr. destruct (reachable_inv root ts Hp Hr) as (Hwf & Ht & Hroot & _).
  split; [|intros c [Hv Hc]; split; [|by intros E; rewrite E in Hc]].
  - cbn. rewrite verify_cert_Ok. cbn. split.
    + intros (c & c' & Hc & Hk). exists c. split; [done|]. apply from_der_parsed in Hc.
      unfold tls_trusted. by apply (trust_store_known_Ok ts c now c' Hwf Hc).
    + intros (c & Hc & Htr). exists c, (mkCertificate c). split; [done|]. pose proof (from_der_parsed _ _ Hc).
      by apply trust_store_known_Ok.
  - assert (∀ k c', ts_get ts k = Some c' → derives root c') as Hd.
    { intros k c' Hk. pose proof (Ht k c' Hk) as Hd. cbn in Hd. by rewrite Hroot in Hd. }
    destruct (certificate_type c); try done; try by eapply Hd.
    destruct Hc as (i & Hi & _ & Hs). eapply derives_signed; [by eapply Hd|done].
Qed.
End tls.
Arguments mkRustls {V} _.
Arguments mkTlsOptional {T} _.

(** ** Worked examples *)
#[local] Existing Instance toy_x509.
#[local] Existing Instance toy_crypto.
#[local] Existing Instance toy_rcgen.

Definition toy_loader : ChainLoader := mkChainLoader toy_store1 toy_sessions.

Lemma toy_store1_wf : store_wf (chain_state (store_chain toy_store1)).
Proof. exact (proj1 (reachable_inv toy_root_certificate toy_store1 toy_root_parsed toy_store1_reachable)). Qed.

Lemma toy_sessions_ok : Sessions.store_ok toy_sessions.
Proof. repeat constructor. exists toy_session. split_and!; vm_compute; reflexivity. Qed.

Lemma local_verifier_sound_witness :
  local_verify (mkLocalVerifier toy_root_certificate toy_loader) (spki_hash toy_session) 500 =
    Ok (mkCertificate toy_session) ∧
  ∃ l, signed_path 500 toy_root_certificate l ∧ last l = Some (mkCertificate toy_session).
Proof.
  assert (local_verify (mkLocalVerifier toy_root_certificate toy_loader) (spki_hash toy_session) 500 =
    Ok (mkCertificate toy_session)) as Hv by (vm_compute; reflexivity).
  split; [exact Hv|].
  destruct (local_verifier_sound (mkLocalVerifier toy_root_certificate toy_loader) _ _ _
    toy_store1_wf toy_sessions_ok Hv) as (_ & [E|(l & Hp & Hl & _)]); [discriminate E|].
  exists l. split; [exact Hp|exact Hl].
Defined.

Lemma tls_peer_is_verified_witness :
  ∃ c c' : Certificate, PeerCertificate (mkCertificate toy_user) = PeerCertificate c ∧
    from_der (der toy_user) = Ok (as_unverified c) ∧
    verify_known_certificate (mkTrustStoreVerifier toy_store1) c 500 = Ok c' ∧ der c' = der toy_user.
Proof.
  apply (tls_peer_is_verified (mkTrustStoreVerifier toy_store1) (der toy_user) [] 500).
  - exact toy_store1_wf.
  - vm_compute. reflexivity.
  - vm_compute. reflexivity.
Defined.

Lemma exact_tls_accepts_witness :
  verify_server_cert (to_tls_verifier (mkExact (mkCertificate toy_user))) (der toy_user) 500 = Ok ().
Proof.
  apply (exact_tls_accepts (mkCertificate toy_user)); [exact toy_user_parsed|].
  split; [reflexivity|vm_compute; reflexivity].
Defined.

Lemma tls_accepts_exactly_witness :
  verify_client_cert (mkTlsOptional (to_tls_verifier (mkTrustStoreVerifier toy_store1)))
    (der toy_session) 500 = Ok () ∧
  derives toy_root_certificate (mkCertificate toy_session).
Proof.
  destruct (tls_accepts_exactly toy_root_certificate toy_store1 (der toy_session) 500
    toy_root_parsed toy_store1_reachable) as [Hiff Hd].
  assert (tls_trusted toy_store1 toy_session 500) as Ht.
  { split; [vm_compute; reflexivity|]. exists (mkCertificate toy_user).
    split_and!; vm_compute; reflexivity. }
  split.
  - apply Hiff. exists toy_session. split; [vm_compute; reflexivity|exact Ht].
  - exact (proj1 (Hd _ Ht)).
Defined.
