(* ===== verification/Mls.v ===== *)
(** * Messaging groups: key packages, key retrieval and the checks of commits
    ([svalin_pki/src/mls/key_package.rs], [key_retriever.rs], [harness.rs])

    The MLS protocol itself is the [openmls] crate, a class of operations.
    What the program adds is here: a key package is tied to a certificate, a
    commit is checked against the certificates of those it adds, removes and
    was proposed by. The retriever and the processor of a harness are classes,
    which the server and the members implement. *)
From S2P Require Import Prelude.
From S2P Require Import External.
From S2P Require Import Spki.
From S2P Require Import Certificate.
From S2P Require Import CertChain.
From S2P Require Import TrustStore.
From S2P Require Import GroupId.
From S2P Require Import ServerStore.
From S2P Require Import Verifiers.
From stdpp Require Import options.

(** ** [openmls] *)
Abbreviation LeafNodeIndex := Z.

(** [Sender]: a member of the group or somebody outside of it. *)
Inductive Sender := Member (index : LeafNodeIndex) | SenderExternal | NewMemberProposal | NewMemberCommit.

(** Credentials, key packages and staged commits. A credential of this
    program holds an SPKI hash; [deserialized] reads it. A staged commit is
    seen through the credentials it brings and its proposals with their
    senders. Cryptography and protocol version are fixed. *)
Class Mls := {
  MlsCredential : Type;
  deserialized : MlsCredential → result ExtError SpkiHash;
  MlsKeyPackage : Type;
  KeyPackageIn : Type;
  key_package_in : MlsKeyPackage → KeyPackageIn;
  validate : KeyPackageIn → result ExtError MlsKeyPackage;
  unverified_credential : KeyPackageIn → MlsCredential;
  leaf_credential : MlsKeyPackage → MlsCredential;
  leaf_signature_key : MlsKeyPackage → list Z;
  StagedCommit : Type;
  commit_group_id : StagedCommit → GroupId;
  credentials_to_verify : StagedCommit → list MlsCredential;
  remove_proposals : StagedCommit → list (Sender * LeafNodeIndex);
  add_proposals : StagedCommit → list (Sender * MlsKeyPackage);
}.

(** ** Errors *)
Inductive KeyPackageError :=
  | KeyPackageVerify (e : ExtError)
  | DeserializeCertError (e : ExtError)
  | SignatureKeyMismatch
  | CertificateVerificationError (e : VerifyError)
  | SpkiHashMismatch.

(** The errors of the two key retrievers, through [anyhow]. *)
Inductive RetrieverError :=
  | AgentNotFound
  | RetrieverComplete (e : CompleteCertChainError)
  | RetrieverVerify (e : VerifyChainError)
  | RetrieverStore (e : StoreFailure)
  | RetrieverDispatch (e : ExtError).

(** What [anyhow] collects in this part of the program; [Bail] is a message
    of the program's own. *)
Inductive MlsFailure :=
  | FailCodec (e : ExtError)
  | FailMls (e : ExtError)
  | FailStorage (e : ExtError)
  | FailUnknownGroup
  | FailRecv
  | FailGroupId (e : ParseGroupIdError)
  | FailVerify (e : VerifyError)
  | FailRetriever (e : RetrieverError)
  | FailKeyPackage (e : KeyPackageError)
  | Bail (message : string).

(** ** Key packages *)
Section key_package.
Context `{Mls}.

Record UnverifiedKeyPackage := mkUnverifiedKeyPackage { package_in : KeyPackageIn }.

Record KeyPackage := mkKeyPackage {
  key_package : MlsKeyPackage;
  key_package_certificate : Certificate;
}.

(** [KeyPackage::new]. *)
Definition key_package_new (certificate : Certificate) (key_package : MlsKeyPackage) :
    result KeyPackageError KeyPackage :=
  owner ← map_err DeserializeCertError (deserialized (leaf_credential key_package));
  if bool_decide (owner ≠ spki_hash certificate) then Err SpkiHashMismatch
  else Ok (mkKeyPackage key_package certificate).

Definition to_unverified (self : KeyPackage) : UnverifiedKeyPackage :=
  mkUnverifiedKeyPackage (key_package_in (key_package self)).

(** [UnverifiedKeyPackage::spki_hash]. *)
Definition unverified_owner (self : UnverifiedKeyPackage) : result KeyPackageError SpkiHash :=
  map_err DeserializeCertError (deserialized (unverified_credential (package_in self))).

(** [KeyPackage::spki_hash]. *)
Definition package_owner (self : KeyPackage) : SpkiHash := spki_hash (key_package_certificate self).

(** [UnverifiedKeyPackage::verify], the clock read at [now]. *)
Definition key_package_verify `{Verifier V} (self : UnverifiedKeyPackage) (verifier : V) (now : Z) :
    result KeyPackageError KeyPackage :=
  key_package ← map_err KeyPackageVerify (validate (package_in self));
  spki_hash ← map_err DeserializeCertError (deserialized (leaf_credential key_package));
  '(certificate : Certificate) ←
    map_err CertificateVerificationError (verify_spki_hash verifier spki_hash now);
  if bool_decide (leaf_signature_key key_package ≠ public_key certificate) then
    Err SignatureKeyMismatch
  else Ok (mkKeyPackage key_package certificate).

(** A key package whose credential names the certificate it is paired with,
    and whose signature key is that certificate's. *)
Definition package_ok (self : KeyPackage) : Prop :=
  deserialized (leaf_credential (key_package self)) = Ok (package_owner self) ∧
  leaf_signature_key (key_package self) = public_key (key_package_certificate self).

Lemma key_package_verify_Ok `{VL : VerifierLaws V} u (v : V) now kp :
  verifier_ok v → key_package_verify u v now = Ok kp →
  validate (package_in u) = Ok (key_package kp) ∧ package_ok kp ∧
  verify_spki_hash v (package_owner kp) now = Ok (key_package_certificate kp).
Proof.
  intros Hv (m & Hm%map_err_Ok & (o & Ho%map_err_Ok & (c & Hc%map_err_Ok & Hk)%bind_Ok)%bind_Ok)%bind_Ok.
  case_bool_decide as Hkey; [done|]. injection Hk as <-.
  unfold package_ok, package_owner. cbn.
  rewrite (verified_hash (V := V) v o now c Hv Hc). done.
Qed.
End key_package.

(** ** The interfaces of the harness *)
Class KeyRetriever `{Mls} (K : Type) := {
  get_required_group_members : SvalinGroupId → Z → io K RetrieverError (list SpkiHash);
  get_key_packages : list SpkiHash → io K RetrieverError (list UnverifiedKeyPackage);
}.

(** [AnyMlsProcessor]: who sits at a leaf of a group. *)
Class AnyMlsProcessor (P : Type) := {
  get_member : GroupId → LeafNodeIndex → io P MlsFailure SpkiHash;
}.

(** What the checks rely on: asking for a member does not change the groups,
    and the answer is one the groups determine. *)
Class AnyMlsProcessorLaws (P : Type) `{AnyMlsProcessor P} := {
  same_groups : relation P;
  same_groups_equiv :: Equivalence same_groups;
  member_at : P → GroupId → LeafNodeIndex → SpkiHash → Prop;
  member_at_proper :: Proper (same_groups ==> eq ==> eq ==> eq ==> iff) member_at;
  get_member_keeps g i : keeps same_groups (get_member g i);
  get_member_spec g i p p' h : get_member g i p = (p', Ok h) → member_at p g i h;
}.

(** ** The harness ([harness.rs])

    [readings] counts the readings of the clock, which is a function of it. *)
Record MlsHarness (K V P : Type) := mkHarness {
  key_retriever : K;
  verifier : V;
  processor : P;
  readings : nat;
}.
Arguments mkHarness {K V P} _ _ _ _.
Arguments key_retriever {K V P} _.
Arguments verifier {K V P} _.
Arguments processor {K V P} _.
Arguments readings {K V P} _.

(** Who may add and remove members. *)
Definition check_edit_allowed (certificate_type : CertificateType) : result MlsFailure () :=
  match certificate_type with
  | Root => Ok ()
  | User => Ok ()
  | UserSession => Ok ()
  | _ => Err (Bail "Cannot edit group with certificate type")
  end.

Section harness.
Context `{Mls} `{Hex} {K : Type} `{!KeyRetriever K} `{Verifier V} {P : Type}.
Context (clock : nat → Z).

Local Abbreviation Harness := (MlsHarness K V P).

Definition get_current_timestamp {E} : io Harness E Z := λ h,
  (mkHarness (key_retriever h) (verifier h) (processor h) (S (readings h)), Ok (clock (readings h))).

Definition on_retriever {E A} (m : io K E A) : io Harness E A := λ h,
  let '(k, r) := m (key_retriever h) in (mkHarness k (verifier h) (processor h) (readings h), r).

Definition on_processor {E A} (m : io P E A) : io Harness E A := λ h,
  let '(p, r) := m (processor h) in (mkHarness (key_retriever h) (verifier h) p (readings h), r).

(** [verifier().verify_spki_hash(.., get_current_timestamp())]. *)
Definition harness_verify (spki_hash : SpkiHash) : io Harness VerifyError Certificate :=
  now ← get_current_timestamp;
  h ← io_get;
  io_result (verify_spki_hash (verifier h) spki_hash now).

Definition harness_required_members (id : SvalinGroupId) : io Harness RetrieverError (list SpkiHash) :=
  now ← get_current_timestamp;
  on_retriever (get_required_group_members id now).

Definition verify_key_package (key_package : UnverifiedKeyPackage) :
    io Harness KeyPackageError KeyPackage :=
  now ← get_current_timestamp;
  h ← io_get;
  io_result (key_package_verify key_package (verifier h) now).

(** The errors of [CreateSvalinGroupError] this part can meet. *)
Inductive RequiredPackagesError :=
  | PackagesRetriever (e : RetrieverError)
  | PackagesKeyPackage (e : KeyPackageError).

(** The key packages of everybody required in a group besides [me]. *)
Definition get_required_key_packages (group_id : SvalinGroupId) (me : SpkiHash) :
    io Harness RequiredPackagesError (list KeyPackage) :=
  required_members ← io_map_err PackagesRetriever (harness_required_members group_id);
  let required_members := filter (λ spki_hash, spki_hash ≠ me) required_members in
  if bool_decide (required_members = []) then mret []
  else
    unverified ← io_map_err PackagesRetriever (on_retriever (get_key_packages required_members));
    io_collect (λ member, io_map_err PackagesKeyPackage (verify_key_package member)) unverified.

(** *** [check_commit], a loop body each *)
Section check.
Context `{AnyMlsProcessor P}.

Definition check_credential (to_verify : MlsCredential) : io Harness MlsFailure () :=
  spki_hash ← io_result (map_err FailCodec (deserialized to_verify));
  _ ← io_map_err FailVerify (harness_verify spki_hash);
  mret ().

(** The sender of a proposal: a member whose certificate may edit groups. *)
Definition check_proposer (group_id : SvalinGroupId) (sender : Sender) : io Harness MlsFailure () :=
  match sender with
  | Member sender =>
      sender ← on_processor (get_member (to_group_id group_id) sender);
      '(sender : Certificate) ← io_map_err FailVerify (harness_verify sender);
      io_result (check_edit_allowed (certificate_type sender))
  | _ => io_err (Bail "Only members can remove members")
  end.

Definition check_remove (group_id : SvalinGroupId) (required_members : list SpkiHash)
    (proposal : Sender * LeafNodeIndex) : io Harness MlsFailure () :=
  _ ← check_proposer group_id (fst proposal);
  spki_hash ← on_processor (get_member (to_group_id group_id) (snd proposal));
  if bool_decide (spki_hash ∈ required_members) then io_err (Bail "Cannot remove required member")
  else mret ().

Definition check_add (group_id : SvalinGroupId) (proposal : Sender * MlsKeyPackage) :
    io Harness MlsFailure () :=
  _ ← check_proposer group_id (fst proposal);
  key_package ← io_map_err FailKeyPackage
    (verify_key_package (mkUnverifiedKeyPackage (key_package_in (snd proposal))));
  match certificate_type (key_package_certificate key_package) with
  | User => mret ()
  | UserSession => mret ()
  | _ => io_err (Bail "Unexpected certificate type in key package")
  end.

Definition check_commit (group_id : SvalinGroupId) (commit : StagedCommit) :
    io Harness MlsFailure () :=
  _ ← io_iter check_credential (credentials_to_verify commit);
  required_members ← io_map_err FailRetriever (harness_required_members group_id);
  _ ← io_iter (check_remove group_id required_members) (remove_proposals commit);
  io_iter (check_add group_id) (add_proposals commit).

(** *** What a checked commit satisfies *)

(** The verifier accepts the hash at some reading of the clock. *)
Definition accepted (v : V) (spki_hash : SpkiHash) (c : Certificate) : Prop :=
  ∃ n, verify_spki_hash v spki_hash (clock n) = Ok c.

Definition may_edit (t : CertificateType) : Prop := t = Root ∨ t = User ∨ t = UserSession.

Definition proposed_by_editor `{!AnyMlsProcessorLaws P} (v : V) (p : P) (group_id : SvalinGroupId)
    (sender : Sender) : Prop :=
  ∃ i h c, sender = Member i ∧ member_at p (to_group_id group_id) i h ∧ accepted v h c ∧
    may_edit (certificate_type c).

Definition remove_allowed `{!AnyMlsProcessorLaws P} (v : V) (p : P) (group_id : SvalinGroupId)
    (required : list SpkiHash) (proposal : Sender * LeafNodeIndex) : Prop :=
  proposed_by_editor v p group_id proposal.1 ∧
  ∃ h, member_at p (to_group_id group_id) proposal.2 h ∧ h ∉ required.

Definition add_allowed `{!AnyMlsProcessorLaws P} (v : V) (p : P) (group_id : SvalinGroupId)
    (proposal : Sender * MlsKeyPackage) : Prop :=
  proposed_by_editor v p group_id proposal.1 ∧
  ∃ kp n, key_package_verify (mkUnverifiedKeyPackage (key_package_in proposal.2)) v (clock n) = Ok kp ∧
    (certificate_type (key_package_certificate kp) = User ∨
     certificate_type (key_package_certificate kp) = UserSession).

Record commit_approved `{!AnyMlsProcessorLaws P} (v : V) (p : P) (group_id : SvalinGroupId)
    (required : list SpkiHash) (commit : StagedCommit) : Prop := {
  approved_credentials : Forall (λ cred, ∃ h c, deserialized cred = Ok h ∧ accepted v h c)
    (credentials_to_verify commit);
  approved_removes : Forall (remove_allowed v p group_id required) (remove_proposals commit);
  approved_adds : Forall (add_allowed v p group_id) (add_proposals commit);
}.

(** *** Lemmas *)
Definition same_harness `{!AnyMlsProcessorLaws P} (h h' : Harness) : Prop :=
  verifier h = verifier h' ∧ same_groups (processor h) (processor h').

#[global] Instance same_harness_preorder `{!AnyMlsProcessorLaws P} : PreOrder same_harness.
Proof.
  split; [done|]. intros h1 h2 h3 [E1 G1] [E2 G2]. split; [by rewrite E1|by rewrite G1].
Qed.

Section lemmas.
Context `{!AnyMlsProcessorLaws P}.
Implicit Types h : Harness.

Lemma keeps_timestamp {E} : keeps (E := E) same_harness get_current_timestamp.
Proof. by intros h h' r [= <- _]. Qed.

Lemma keeps_on_retriever {E A} (m : io K E A) : keeps same_harness (on_retriever m).
Proof. intros h h' r. unfold on_retriever. destruct (m _). by intros [= <- _]. Qed.

Lemma keeps_on_processor {E A} (m : io P E A) :
  keeps same_groups m → keeps same_harness (on_processor m).
Proof.
  intros Hm h h' r. unfold on_processor. destruct (m (processor h)) as [p r'] eqn:Hp.
  intros [= <- _]. split; [done|]. by eapply Hm.
Qed.

#[local] Hint Resolve keeps_timestamp keeps_on_retriever keeps_on_processor get_member_keeps : keeps.

Lemma keeps_harness_verify s : keeps same_harness (harness_verify s).
Proof. unfold harness_verify. keep. Qed.

Lemma keeps_required g : keeps same_harness (harness_required_members g).
Proof. unfold harness_required_members. keep. Qed.

Lemma keeps_verify_key_package u : keeps same_harness (verify_key_package u).
Proof. unfold verify_key_package. keep. Qed.

#[local] Hint Resolve keeps_harness_verify keeps_required keeps_verify_key_package : keeps.

Lemma keeps_check_proposer g s : keeps same_harness (check_proposer g s).
Proof. unfold check_proposer, io_err. keep. Qed.

#[local] Hint Resolve keeps_check_proposer : keeps.

Lemma keeps_check_credential c : keeps same_harness (check_credential c).
Proof. unfold check_credential. keep. Qed.
Lemma keeps_check_remove g req pr : keeps same_harness (check_remove g req pr).
Proof. unfold check_remove, io_err. keep. Qed.
Lemma keeps_check_add g pr : keeps same_harness (check_add g pr).
Proof. unfold check_add, io_err. keep. Qed.

#[local] Hint Resolve keeps_check_credential keeps_check_remove keeps_check_add : keeps.

Lemma keeps_check_commit g c : keeps same_harness (check_commit g c).
Proof. unfold check_commit. keep. Qed.

Lemma harness_verify_inv s h h' c :
  harness_verify s h = (h', Ok c) → accepted (verifier h) s c.
Proof. intros (h1 & now & [= <- <-] & Hv)%io_bind_inv. injection Hv as _ Hv. by eexists. Qed.

Lemma verify_key_package_inv u h h' kp :
  verify_key_package u h = (h', Ok kp) →
  ∃ n, key_package_verify u (verifier h) (clock n) = Ok kp.
Proof. intros (h1 & now & [= <- <-] & Hv)%io_bind_inv. injection Hv as _ Hv. by eexists. Qed.

Lemma on_processor_inv {E A} (m : io P E A) h h' a :
  on_processor m h = (h', Ok a) → ∃ p, m (processor h) = (p, Ok a) ∧ verifier h' = verifier h.
Proof. unfold on_processor. destruct (m _) as [p r]. intros [= <- ->]. eauto. Qed.

Lemma check_edit_allowed_Ok t u : check_edit_allowed t = Ok u ↔ may_edit t.
Proof. unfold may_edit. destruct t, u; cbn; naive_solver. Qed.

Lemma check_proposer_inv g s h h' u :
  check_proposer g s h = (h', Ok u) → proposed_by_editor (verifier h) (processor h) g s.
Proof.
  unfold check_proposer. destruct s as [i| | |]; try by intros [=].
  intros (h1 & m & (p & Hm & Hv1)%on_processor_inv & Hk)%io_bind_inv.
  apply io_bind_inv in Hk as (h2 & c & Hc%io_map_err_inv%harness_verify_inv & Hk).
  injection Hk as _ Hk. apply check_edit_allowed_Ok in Hk. rewrite Hv1 in Hc.
  exists i, m, c. split_and!; try done. by eapply get_member_spec.
Qed.

Lemma proposed_same g s h1 h2 :
  same_harness h1 h2 →
  proposed_by_editor (verifier h2) (processor h2) g s →
  proposed_by_editor (verifier h1) (processor h1) g s.
Proof.
  intros [Hv Hp] (i & m & c & -> & Hm & Hc & Ht). rewrite <-Hv in Hc.
  exists i, m, c. split_and!; try done. by rewrite Hp.
Qed.

Lemma check_remove_inv g req pr h h' u :
  check_remove g req pr h = (h', Ok u) → remove_allowed (verifier h) (processor h) g req pr.
Proof.
  intros (h1 & v & Hp & Hk)%io_bind_inv. pose proof (keeps_check_proposer _ _ _ _ _ Hp) as [Hv Hs].
  apply check_proposer_inv in Hp.
  apply io_bind_inv in Hk as (h2 & m & (p & Hm & _)%on_processor_inv & Hk).
  split; [done|]. exists m. split; [|by case_bool_decide].
  rewrite Hs. by eapply get_member_spec.
Qed.

Lemma check_add_inv g pr h h' u :
  check_add g pr h = (h', Ok u) → add_allowed (verifier h) (processor h) g pr.
Proof.
  intros (h1 & v & Hp & Hk)%io_bind_inv. pose proof (keeps_check_proposer _ _ _ _ _ Hp) as [Hv Hs].
  apply check_proposer_inv in Hp.
  apply io_bind_inv in Hk as (h2 & kp & (n & Hkp)%io_map_err_inv%verify_key_package_inv & Hk).
  split; [done|]. exists kp, n. rewrite Hv. split; [done|].
  destruct (certificate_type _); try done; [by left|by right].
Qed.

Lemma remove_same g req pr h1 h2 :
  same_harness h1 h2 → remove_allowed (verifier h2) (processor h2) g req pr →
  remove_allowed (verifier h1) (processor h1) g req pr.
Proof.
  intros Hs [Hp (m & Hm & Hr)]. split; [by eapply proposed_same|].
  exists m. split; [|done]. destruct Hs as [_ Hs]. by rewrite Hs.
Qed.

Lemma add_same g pr h1 h2 :
  same_harness h1 h2 → add_allowed (verifier h2) (processor h2) g pr →
  add_allowed (verifier h1) (processor h1) g pr.
Proof.
  intros Hs [Hp Hk]. split; [by eapply proposed_same|]. destruct Hs as [-> _]. done.
Qed.

(** The required members the harness works with are an answer of its
    retriever. *)
Definition retrieved (g : SvalinGroupId) (required : list SpkiHash) : Prop :=
  ∃ k k' now, get_required_group_members (K := K) g now k = (k', Ok required).

Lemma required_inv g h h' req : harness_required_members g h = (h', Ok req) → retrieved g req.
Proof.
  intros (h1 & now & [= <- <-] & Hk)%io_bind_inv. unfold on_retriever in Hk.
  destruct (get_required_group_members _ _ _) as [k r] eqn:Hr. injection Hk as <- ->. by eexists _, _, _.
Qed.

Lemma check_commit_approved g commit h h' u :
  check_commit g commit h = (h', Ok u) →
  same_harness h h' ∧ ∃ required, retrieved g required ∧
    commit_approved (verifier h) (processor h) g required commit.
Proof.
  intros Hc. split; [by eapply keeps_check_commit|].
  apply io_bind_inv in Hc as (h1 & [] & Hcred & Hc).
  apply io_bind_inv in Hc as (h2 & req & Hreq%io_map_err_inv & Hc).
  apply io_bind_inv in Hc as (h3 & [] & Hrem & Hadd). exists req. split; [by eapply required_inv|].
  eapply (io_iter_Forall same_harness (λ cred, ∃ s c, deserialized cred = Ok s ∧ accepted (verifier h) s c))
    in Hcred as [Hs1 Hcred].
  2:{ intros cred s1 s2 u' [Hv Hs] Hb. split; [eapply (keeps_check_credential cred); exact Hb|].
      apply io_bind_inv in Hb as (s3 & sp & [= <- Hd%map_err_Ok] & Hb).
      apply io_bind_inv in Hb as (s4 & c & Hv'%io_map_err_inv%harness_verify_inv & _).
      exists sp, c. by rewrite Hv. }
  pose proof (keeps_required _ _ _ _ Hreq) as Hs2.
  assert (same_harness h h2) as Hs by by etransitivity.
  eapply (io_iter_Forall same_harness (remove_allowed (verifier h2) (processor h2) g req))
    in Hrem as [Hs3 Hrem].
  2:{ intros pr s1 s2 u' Hs' Hb. split; [eapply (keeps_check_remove g req pr); exact Hb|].
      by eapply remove_same, check_remove_inv. }
  eapply (io_iter_Forall same_harness (add_allowed (verifier h3) (processor h3) g)) in Hadd as [_ Hadd].
  2:{ intros pr s1 s2 u' Hs' Hb. split; [eapply (keeps_check_add g pr); exact Hb|].
      by eapply add_same, check_add_inv. }
  assert (same_harness h h3) as Hs' by by etransitivity.
  split; [done|eapply Forall_impl; [exact Hrem|]; intros pr; exact (remove_same g req pr h h2 Hs)
         |eapply Forall_impl; [exact Hadd|]; intros pr; exact (add_same g pr h h3 Hs')].
Qed.

(** C16: A commit is approved only when each removal and each addition was
    proposed by a member whose certificate is a root, user or user session,
    no required member is removed, and whoever is added has a verified user
    or session certificate that the key package names and whose key it
    carries. Checking does not change the groups. *)
Theorem check_commit_sound `{!VerifierLaws V} g commit h h' :
  verifier_ok (verifier h) →
  check_commit g commit h = (h', Ok ()) →
  same_harness h h' ∧
  ∃ required, retrieved g required ∧
    (∀ s i, (s, i) ∈ remove_proposals commit →
      proposed_by_editor (verifier h) (processor h) g s ∧
      ∃ m, member_at (processor h) (to_group_id g) i m ∧ m ∉ required) ∧
    (∀ s m, (s, m) ∈ add_proposals commit →
      proposed_by_editor (verifier h) (processor h) g s ∧
      ∃ kp, validate (key_package_in m) = Ok (key_package kp) ∧ package_ok kp ∧
        accepted (verifier h) (package_owner kp) (key_package_certificate kp) ∧
        (certificate_type (key_package_certificate kp) = User ∨
         certificate_type (key_package_certificate kp) = UserSession)).
Proof.
  intros Hv (Hs & req & Hreq & [_ Hrem Hadd])%check_commit_approved. split; [done|].
  exists req. split; [done|]. rewrite Forall_forall in Hrem. rewrite Forall_forall in Hadd. split.
  - intros s i Hi. exact (Hrem _ Hi).
  - intros s m Hm. destruct (Hadd _ Hm) as (Hp & kp & n & Hk & Ht). split; [done|].
    destruct (key_package_verify_Ok _ _ _ _ Hv Hk) as (Hm1 & Hm2 & Hm3).
    exists kp. split_and!; try done. by exists n.
Qed.

End lemmas.
End check.

(** Every key package a new group starts with has been verified. *)
Lemma required_packages_verified `{!AnyMlsProcessor P, !AnyMlsProcessorLaws P, !VerifierLaws V} g me h h' kps :
  verifier_ok (verifier h) → get_required_key_packages g me h = (h', Ok kps) →
  verifier h' = verifier h ∧ same_groups (processor h) (processor h') ∧
  Forall (λ kp, package_ok kp ∧ accepted (verifier h) (package_owner kp) (key_package_certificate kp)) kps.
Proof.
  intros Hv Hk. unfold get_required_key_packages in Hk.
  assert (keeps same_harness (get_required_key_packages g me)) as Hkeep.
  { pose proof keeps_required. pose proof keeps_verify_key_package. unfold get_required_key_packages.
    keep. apply keeps_on_retriever. }
  destruct (Hkeep _ _ _ Hk) as [Hv' Hg]. split; [done|]. split; [done|].
  apply io_bind_inv in Hk as (h1 & req & Hreq%io_map_err_inv & Hk). cbn zeta in Hk.
  case_bool_decide; [by injection Hk as _ <-|].
  apply io_bind_inv in Hk as (h2 & us & Hus%io_map_err_inv & Hk).
  assert (same_harness h h2) as Hs.
  { etransitivity; [eapply keeps_required, Hreq|eapply keeps_on_retriever, Hus]. }
  eapply (io_collect_Forall2 same_harness (λ _ kp, package_ok kp ∧
    accepted (verifier h) (package_owner kp) (key_package_certificate kp))) in Hk.
  - clear -Hk. induction Hk; by constructor.
  - intros u s1 s2 kp Hs' Hb%io_map_err_inv. split; [by eapply keeps_verify_key_package|].
    apply verify_key_package_inv in Hb as (n & Hb).
    assert (verifier s1 = verifier h) as E.
    { destruct Hs as [E1 _], Hs' as [E2 _]. congruence. }
    rewrite E in Hb. destruct (key_package_verify_Ok _ _ _ _ Hv Hb) as (_ & Hok & Hacc).
    split; [done|by exists n].
Qed.

Lemma verify_key_packages_total us kps h n0 :
  (n0 ≤ readings h)%nat →
  (∀ n, (n0 ≤ n)%nat → Forall2 (λ u kp, key_package_verify u (verifier h) (clock n) = Ok kp) us kps) →
  ∃ h', io_collect (λ member, io_map_err PackagesKeyPackage (verify_key_package member)) us h = (h', Ok kps).
Proof.
  revert kps h. induction us as [|u us IH]; intros kps h Hn Hus.
  - specialize (Hus _ Hn). inversion Hus. by eexists.
  - pose proof (Hus _ Hn) as H'. inversion H' as [|? kp ? kps' Hk _]; subst. clear H'.
    destruct (IH kps' (mkHarness (key_retriever h) (verifier h) (processor h) (S (readings h))))
      as [h' Hh'].
    { cbn. lia. }
    { cbn. intros n Hn'. specialize (Hus n Hn'). by inversion Hus. }
    exists h'. cbn [io_collect].
    rewrite (io_bind_step _ _ h (mkHarness (key_retriever h) (verifier h) (processor h) (S (readings h))) kp).
    { by rewrite (io_bind_step _ _ _ _ _ Hh'). }
    apply io_map_err_step. unfold verify_key_package, mbind, io_bind, get_current_timestamp, io_get, io_result.
    cbn. by rewrite Hk.
Qed.

(** Whoever is required in a new group besides its creator is asked for;
    what the retriever delivers is verified package by package, but the
    owners of the packages are not compared with the members asked for: any
    packages that verify are taken as delivered. *)
Theorem required_packages_as_delivered g me h h1 h2 required us kps :
  harness_required_members g h = (h1, Ok required) →
  filter (λ s, s ≠ me) required ≠ [] →
  on_retriever (get_key_packages (filter (λ s, s ≠ me) required)) h1 = (h2, Ok us) →
  (∀ n, (readings h1 ≤ n)%nat →
    Forall2 (λ u kp, key_package_verify u (verifier h) (clock n) = Ok kp) us kps) →
  ∃ h3, get_required_key_packages g me h = (h3, Ok kps).
Proof.
  intros Hreq Hne Hget Hus. unfold get_required_key_packages.
  assert (verifier h1 = verifier h) as Hv1.
  { unfold harness_required_members, on_retriever in Hreq. unfold mbind, io_bind in Hreq. cbn in Hreq.
    destruct (get_required_group_members _ _ _) as [k r]. by injection Hreq as <- _. }
  assert (verifier h2 = verifier h1 ∧ readings h2 = readings h1) as [Hv2 Hr2].
  { unfold on_retriever in Hget. destruct (get_key_packages _ _) as [k r]. by injection Hget as <- _. }
  rewrite (io_bind_step _ _ h h1 required) by (by apply io_map_err_step). cbn zeta.
  rewrite bool_decide_false by done.
  rewrite (io_bind_step _ _ h1 h2 us) by (by apply io_map_err_step).
  eapply verify_key_packages_total; [by rewrite Hr2|]. by rewrite Hv2, Hv1.
Qed.
End harness.

(** ** Worked examples

    A toy protocol: a credential is its hash, a key package its hash and key,
    a staged commit its parts. *)
Record toy_commit := mkToyCommit {
  toy_commit_group : GroupId;
  toy_removes : list (Sender * LeafNodeIndex);
  toy_adds : list (Sender * (SpkiHash * list Z));
}.

Definition toy_mls : Mls := {|
  MlsCredential := SpkiHash;
  deserialized := Ok;
  MlsKeyPackage := SpkiHash * list Z;
  KeyPackageIn := SpkiHash * list Z;
  key_package_in := id;
  validate := Ok;
  unverified_credential := fst;
  leaf_credential := fst;
  leaf_signature_key := snd;
  StagedCommit := toy_commit;
  commit_group_id := toy_commit_group;
  credentials_to_verify c := (λ a, fst (snd a)) <$> toy_adds c;
  remove_proposals := toy_removes;
  add_proposals := toy_adds;
|}.

#[local] Existing Instance toy_mls.
#[local] Existing Instance toy_hex.

Definition toy_package (c : Certificate) : UnverifiedKeyPackage :=
  mkUnverifiedKeyPackage (spki_hash c, public_key c).

(** A retriever that always gives the same answers. *)
Record ToyRetriever := mkToyRetriever {
  toy_required : list SpkiHash;
  toy_delivered : list UnverifiedKeyPackage;
}.

#[local] Instance toy_retriever : KeyRetriever ToyRetriever := {|
  get_required_group_members _ _ := λ k, (k, Ok (toy_required k));
  get_key_packages _ := λ k, (k, Ok (toy_delivered k));
|}.

(** A processor that knows one group: its members in the order of the leaves. *)
#[local] Instance toy_processor : AnyMlsProcessor (list SpkiHash) := {|
  get_member _ i := λ p, (p, ok_or (p !! Z.to_nat i) (Bail "member is not in group"));
|}.

#[local] Program Instance toy_processor_laws : AnyMlsProcessorLaws (list SpkiHash) := {|
  same_groups := eq;
  member_at p _ i h := p !! Z.to_nat i = Some h;
|}.
Next Obligation. by intros g i p p' r [= <- _]. Qed.
Next Obligation. cbn. intros g i p p' h [= _ H]. by apply ok_or_Ok in H. Qed.

Definition toy_clock (n : nat) : Z := 500.

Definition toy_verifier : OneOfVerififier :=
  one_of_new [mkCertificate toy_root; mkCertificate toy_user; mkCertificate toy_agent].

Definition toy_harness : MlsHarness ToyRetriever OneOfVerififier (list SpkiHash) :=
  mkHarness (mkToyRetriever [spki_hash toy_root] [toy_package (mkCertificate toy_user)]) toy_verifier
    [spki_hash toy_root; spki_hash toy_agent] 0.

(** The root removes the agent, whom nobody requires, and adds the user. *)
Definition toy_user_package : MlsKeyPackage := (spki_hash toy_user, public_key toy_user).

Definition toy_edit : StagedCommit :=
  mkToyCommit (to_group_id GlobalGroup) [(Member 0, 1)]
    [(Member 0, toy_user_package)].

Lemma check_commit_sound_witness :
  ∃ kp, validate (key_package_in toy_user_package) = Ok (key_package kp) ∧ package_ok kp.
Proof.
  destruct (check_commit_sound toy_clock GlobalGroup toy_edit toy_harness
    (check_commit toy_clock GlobalGroup toy_edit toy_harness).1) as (_ & req & _ & _ & Hadd).
  - apply one_of_new_ok.
  - vm_compute. reflexivity.
  - destruct (Hadd (Member 0) toy_user_package) as (_ & kp & H1 & H2 & _).
    + by left.
    + exists kp. split; [exact H1|exact H2].
Defined.

(** The root is asked for, the user's package comes back and is taken. *)
Lemma required_packages_as_delivered_witness :
  ∃ h, get_required_key_packages toy_clock GlobalGroup (spki_hash toy_agent) toy_harness =
    (h, Ok [mkKeyPackage toy_user_package (mkCertificate toy_user)]).
Proof.
  eapply (required_packages_as_delivered toy_clock GlobalGroup (spki_hash toy_agent) toy_harness).
  - vm_compute. reflexivity.
  - vm_compute. discriminate.
  - vm_compute. reflexivity.
  - intros n _. constructor; [vm_compute; reflexivity|constructor].
Defined.
