(* ===== verification/KeyRetrievers.v ===== *)
(** * Key retrievers ([svalin/src/server/local_key_retriever.rs],
    [svalin/src/remote_key_retriever.rs],
    [svalin/src/shared/commands/load_certificate_chain.rs])

    Who has to be in a group: everybody who vouches for the device, from the
    root down. The server reads this off its trust store, a member asks the
    server for the chain and verifies it. *)
From S2P Require Import Prelude.
From S2P Require Import External.
From S2P Require Import Spki.
From S2P Require Import Toy.
From S2P Require Import Certificate.
From S2P Require Import CertChain.
From S2P Require Import SecureChain.
From S2P Require Import TrustStore.
From S2P Require Import GroupId.
From S2P Require Import ServerStore.
From S2P Require Import Verifiers.
From S2P Require Import Mls.
From stdpp Require Import options.

(** The hashes of a verified chain; for the meta group without the device
    itself. [chain.iter().len() - 1] does not wrap, a verified chain has a
    root. *)
Definition device_members (chain : CertificateChain) : list SpkiHash :=
  (λ cert : Certificate, spki_hash cert) <$> verified_certificates chain.

Definition meta_members (chain : CertificateChain) : list SpkiHash :=
  (λ cert : Certificate, spki_hash cert) <$>
    take (length (verified_certificates chain) - 1) (verified_certificates chain).

Section retrievers.
Context `{X509, CR : Crypto, !Rcgen} `{Mls}.

(** ** The server's retriever *)
Record LocalKeyRetriever := mkLocalKeyRetriever {
  retriever_root : RootCertificate;
  retriever_trust_store : TrustStore;
  key_package_store : KeyPackages.KeyPackageStore;
}.

(** The chain of a stored agent, verified. *)
Definition local_chain (self : LocalKeyRetriever) (h : SpkiHash) (timestamp : Z) :
    result RetrieverError CertificateChain :=
  '(agent : Certificate) ← ok_or (ts_get (retriever_trust_store self) h) AgentNotFound;
  chain ← map_err RetrieverComplete
    (complete_leaf_chain (retriever_trust_store self) (as_unverified agent));
  map_err RetrieverVerify (verify chain (retriever_root self) timestamp).

Definition local_required_members (self : LocalKeyRetriever) (id : SvalinGroupId) (timestamp : Z) :
    result RetrieverError (list SpkiHash) :=
  match id with
  | DeviceGroup spki_hash => chain ← local_chain self spki_hash timestamp; Ok (device_members chain)
  | DeviceMetaGroup spki_hash => chain ← local_chain self spki_hash timestamp; Ok (meta_members chain)
  | GlobalGroup => Ok [spki_hash (retriever_root self)]
  end.

(** The store reads the owner of a package through its error's text. *)
Definition stored_owner (describe : KeyPackageError → ExtError) (p : UnverifiedKeyPackage) :
    result ExtError SpkiHash := map_err describe (unverified_owner p).

Definition local_get_key_packages `{Postcard UnverifiedKeyPackage} (describe : KeyPackageError → ExtError)
    (entities : list SpkiHash) : io LocalKeyRetriever RetrieverError (list UnverifiedKeyPackage) := λ self,
  let '(store, r) :=
    KeyPackages.get_key_packages (stored_owner describe) (key_package_store self) entities in
  (mkLocalKeyRetriever (retriever_root self) (retriever_trust_store self) store,
   map_err RetrieverStore r).

Definition local_key_retriever `{Postcard UnverifiedKeyPackage} (describe : KeyPackageError → ExtError) :
    KeyRetriever LocalKeyRetriever := {|
  get_required_group_members id now := λ self, (self, local_required_members self id now);
  get_key_packages := local_get_key_packages describe;
|}.

(** ** The retriever of clients and agents

    [read_chain] and [read_packages] are the exchanges with the server; a
    chain is its answer to a [ChainRequest]. *)
Class ServerConnection (Conn : Type) := {
  read_chain : SpkiHash → io Conn ExtError (result () UnverifiedCertificateChain);
  read_packages : list SpkiHash → io Conn ExtError (list UnverifiedKeyPackage);
}.

Inductive LoadSessionChainError :=
  | SessionReadError (e : ExtError)
  | IncorrectChain
  | ServerError.

(** [ChainRequest::dispatch]. *)
Definition chain_request_dispatch `{ServerConnection Conn} (h : SpkiHash) :
    io Conn LoadSessionChainError UnverifiedCertificateChain :=
  chain_result ← io_map_err SessionReadError (read_chain h);
  '(chain : UnverifiedCertificateChain) ← io_result (map_err (λ _, ServerError) chain_result);
  if bool_decide (option_map (λ cert : UnverifiedCertificate, spki_hash cert) (unverified_leaf chain) = Some h)
  then mret chain else io_err IncorrectChain.

Record RemoteKeyRetriever (Conn : Type) := mkRemote { connection : Conn; remote_root : RootCertificate }.
Arguments mkRemote {Conn} _ _.
Arguments connection {Conn} _.
Arguments remote_root {Conn} _.

Definition on_connection {Conn E A} (m : io Conn E A) : io (RemoteKeyRetriever Conn) E A := λ self,
  let '(c, r) := m (connection self) in (mkRemote c (remote_root self), r).

Definition remote_chain `{ServerConnection Conn} (describe : LoadSessionChainError → ExtError)
    (h : SpkiHash) (timestamp : Z) : io (RemoteKeyRetriever Conn) RetrieverError CertificateChain :=
  chain ← io_map_err (λ e, RetrieverDispatch (describe e)) (on_connection (chain_request_dispatch h));
  self ← io_get;
  io_result (map_err RetrieverVerify (verify chain (remote_root self) timestamp)).

Definition remote_required_members `{ServerConnection Conn} (describe : LoadSessionChainError → ExtError)
    (id : SvalinGroupId) (timestamp : Z) : io (RemoteKeyRetriever Conn) RetrieverError (list SpkiHash) :=
  match id with
  | DeviceGroup spki_hash =>
      chain ← remote_chain describe spki_hash timestamp; mret (device_members chain)
  | DeviceMetaGroup spki_hash =>
      chain ← remote_chain describe spki_hash timestamp; mret (meta_members chain)
  | GlobalGroup => self ← io_get; mret [spki_hash (remote_root self)]
  end.

Definition remote_key_retriever `{ServerConnection Conn} (describe : LoadSessionChainError → ExtError) :
    KeyRetriever (RemoteKeyRetriever Conn) := {|
  get_required_group_members := remote_required_members describe;
  get_key_packages entities := io_map_err RetrieverDispatch (on_connection (read_packages entities));
|}.

(** ** Who is required *)

(** The hashes along a path of signatures from the root that ends at [h]. *)
Definition vouching_path (root : RootCertificate) (t : Z) (h : SpkiHash) (path : list Certificate) : Prop :=
  signed_path t root path ∧ (path = [] ∨ (λ c : Certificate, spki_hash c) <$> last path = Some h).

Definition members_required (root : RootCertificate) (t : Z) (id : SvalinGroupId)
    (members : list SpkiHash) : Prop :=
  match id with
  | GlobalGroup => members = [spki_hash root]
  | DeviceGroup h => ∃ path, vouching_path root t h path ∧
      members = (λ c : Certificate, spki_hash c) <$> (as_certificate root :: path)
  | DeviceMetaGroup h => ∃ path, vouching_path root t h path ∧
      members = (λ c : Certificate, spki_hash c) <$> removelast (as_certificate root :: path)
  end.

Lemma meta_members_removelast ch : meta_members ch =
  (λ c : Certificate, spki_hash c) <$> removelast (verified_certificates ch).
Proof. unfold meta_members. by rewrite removelast_firstn_len, Nat.sub_1_r. Qed.

Lemma verified_members ch root t v (leaf : UnverifiedCertificate) :
  verify ch root t = Ok v → unverified_leaf ch = Some leaf →
  ∃ path, vouching_path root t (spki_hash leaf) path ∧
    verified_certificates v = as_certificate root :: path.
Proof.
  intros (c0 & l & Hch & _ & -> & Hs)%verify_Ok Hl. exists (mkCertificate <$> l).
  split; [|done]. split; [done|]. unfold unverified_leaf in Hl. rewrite Hch in Hl.
  destruct l as [|x l _] using rev_ind; [by left|right].
  rewrite fmap_app. change (mkCertificate <$> [x]) with [mkCertificate x]. rewrite last_snoc. cbn.
  rewrite app_comm_cons, last_snoc in Hl. by injection Hl as ->.
Qed.

Lemma local_chain_spec self h now ch :
  store_wf (chain_state (store_chain (retriever_trust_store self))) →
  local_chain self h now = Ok ch →
  ∃ path, vouching_path (retriever_root self) now h path ∧
    verified_certificates ch = as_certificate (retriever_root self) :: path.
Proof.
  intros Hwf (agent & Hg%ok_or_Ok & (c & Hc%map_err_Ok & Hv%map_err_Ok)%bind_Ok)%bind_Ok.
  destruct (complete_leaf_chain_spec _ (as_unverified agent) Hwf) as [_ Hspec].
  destruct (Hspec c Hc) as (ps & Hps & _ & _).
  destruct (store_wf_lookup _ _ _ Hwf Hg) as [Hh _]. rewrite <-Hh.
  eapply (verified_members c); [exact Hv|]. unfold unverified_leaf. rewrite Hps.
  rewrite reverse_cons, last_snoc. done.
Qed.

(** On the server the members required in the group of a device are the
    device and everybody on a path of valid signatures from the root to it,
    in its meta group the same without the device, and in the global group
    the root alone; asking changes nothing. *)
Theorem local_members_required `{Postcard UnverifiedKeyPackage} describe self id now self' members :
  store_wf (chain_state (store_chain (retriever_trust_store self))) →
  get_required_group_members (KeyRetriever := local_key_retriever describe) id now self =
    (self', Ok members) →
  self' = self ∧ members_required (retriever_root self) now id members.
Proof.
  intros Hwf. cbn. intros [= <- Hm]. split; [done|]. destruct id as [|h|h]; cbn in Hm.
  - by injection Hm as <-.
  - apply bind_Ok in Hm as (ch & Hch & [= <-]).
    destruct (local_chain_spec _ _ _ _ Hwf Hch) as (path & Hp & Hc).
    exists path. split; [done|]. unfold device_members. by rewrite Hc.
  - apply bind_Ok in Hm as (ch & Hch & [= <-]).
    destruct (local_chain_spec _ _ _ _ Hwf Hch) as (path & Hp & Hc).
    exists path. split; [done|]. by rewrite meta_members_removelast, Hc.
Qed.

Lemma remote_chain_spec `{ServerConnection Conn} describe h now (self self' : RemoteKeyRetriever Conn) ch :
  remote_chain describe h now self = (self', Ok ch) →
  ∃ path, vouching_path (remote_root self) now h path ∧
    verified_certificates ch = as_certificate (remote_root self) :: path.
Proof.
  intros (s1 & c & Hc%io_map_err_inv & Hk)%io_bind_inv.
  unfold on_connection in Hc. destruct (chain_request_dispatch h (connection self)) as [conn r] eqn:Hd.
  injection Hc as <- ->. cbn in Hk. unfold mbind, io_bind in Hk. cbn in Hk.
  injection Hk as _ Hv. apply map_err_Ok in Hv.
  apply io_bind_inv in Hd as (s2 & cr & _ & Hd). apply io_bind_inv in Hd as (s3 & c' & _ & Hd).
  case_bool_decide as Hl; [|done]. injection Hd as _ ->.
  destruct (unverified_leaf c) as [leaf|] eqn:Hleaf; [|done]. injection Hl as <-.
  by eapply verified_members.
Qed.

(** A client or an agent takes the same members to be required, whatever
    the server answers: only a chain that verifies against the root and ends
    at the device counts. *)
Theorem remote_members_required `{ServerConnection Conn} describe id now
    (self self' : RemoteKeyRetriever Conn) members :
  get_required_group_members (KeyRetriever := remote_key_retriever describe) id now self =
    (self', Ok members) →
  members_required (remote_root self) now id members.
Proof.
  cbn. destruct id as [|h|h]; cbn; intros Hm.
  - by injection Hm as _ <-.
  - apply io_bind_inv in Hm as (s1 & ch & Hch & [= _ <-]).
    destruct (remote_chain_spec _ _ _ _ _ _ Hch) as (path & Hp & Hc).
    exists path. split; [done|]. unfold device_members. by rewrite Hc.
  - apply io_bind_inv in Hm as (s1 & ch & Hch & [= _ <-]).
    destruct (remote_chain_spec _ _ _ _ _ _ Hch) as (path & Hp & Hc).
    exists path. split; [done|]. by rewrite meta_members_removelast, Hc.
Qed.
End retrievers.
Arguments mkRemote {Conn} _ _.

(** ** Worked examples *)
#[local] Existing Instance toy_x509.
#[local] Existing Instance toy_crypto.
#[local] Existing Instance toy_rcgen.
#[local] Existing Instance toy_mls.

#[local] Instance toy_package_postcard : Postcard UnverifiedKeyPackage := {|
  to_stdvec p := Ok (as_slice (fst (package_in p)));
  from_bytes b := Ok (mkUnverifiedKeyPackage (mkSpkiHash b, []));
|}.

Definition toy_describe {A} (e : A) : ExtError := "error".

Definition toy_local : LocalKeyRetriever :=
  mkLocalKeyRetriever toy_root_certificate toy_store1 (KeyPackages.mkKeyPackageStore []).

Lemma local_members_required_witness :
  ∃ members, local_required_members toy_local (DeviceGroup (spki_hash toy_user)) 500 = Ok members ∧
    members_required toy_root_certificate 500 (DeviceGroup (spki_hash toy_user)) members.
Proof.
  exists [spki_hash toy_root; spki_hash toy_user]. split; [vm_compute; reflexivity|].
  eapply (local_members_required toy_describe toy_local).
  - exact toy_store1_wf.
  - vm_compute. reflexivity.
Defined.

(** A server that answers every request with the same chain. *)
#[local] Instance toy_connection : ServerConnection UnverifiedCertificateChain := {|
  read_chain _ := λ c, (c, Ok (Ok c));
  read_packages _ := λ c, (c, Ok []);
|}.

Definition toy_remote : RemoteKeyRetriever UnverifiedCertificateChain :=
  mkRemote (mkUnverifiedChain [toy_root; toy_user]) toy_root_certificate.

Lemma remote_members_required_witness :
  members_required toy_root_certificate 500 (DeviceMetaGroup (spki_hash toy_user)) [spki_hash toy_root].
Proof.
  eapply (remote_members_required toy_describe _ _ toy_remote toy_remote).
  vm_compute. reflexivity.
Defined.

(** A chain of another device is refused. *)
Example remote_wrong_chain :
  (remote_required_members toy_describe (DeviceGroup (spki_hash toy_agent)) 500 toy_remote).2 =
  Err (RetrieverDispatch "error").
Proof. vm_compute. reflexivity. Qed.
