(* ===== verification/MlsServer.v ===== *)
(** * The server's side of the messaging groups
    ([svalin_pki/src/mls/transport_types.rs], [public_processor.rs],
    [server.rs], [svalin/src/message_streaming/server.rs])

    The server keeps the public half of every group: who is in it. It accepts
    new groups and commits, and tells to whom each message goes. *)
From S2P Require Import Prelude.
From S2P Require Import External.
From S2P Require Import Spki.
From S2P Require Import Toy.
From S2P Require Import Certificate.
From S2P Require Import GroupId.
From S2P Require Import ServerStore.
From S2P Require Import Verifiers.
From S2P Require Import Mls.
From stdpp Require Import options.

(** ** Messages on the wire ([transport_types.rs])

    The message formats are [openmls]'s; [MlsMessageBodyIn] and
    [ProtocolMessage] are its enums, of whose variants the program looks at
    these. *)
Inductive MlsMessageBodyIn (Pub Priv : Type) :=
  | BodyPublicMessage (m : Pub)
  | BodyPrivateMessage (m : Priv)
  | BodyOther.
Arguments BodyPublicMessage {Pub Priv} m.
Arguments BodyPrivateMessage {Pub Priv} m.
Arguments BodyOther {Pub Priv}.

Inductive ProtocolMessage (Pub Priv : Type) :=
  | PublicMessage (m : Pub)
  | PrivateMessage (m : Priv).
Arguments PublicMessage {Pub Priv} m.
Arguments PrivateMessage {Pub Priv} m.

Class MlsWire := {
  PublicMessageIn : Type;
  PrivateMessageIn : Type;
  WelcomeIn : Type;
  VerifiableGroupInfo : Type;
  MlsMessageIn : Type;
  deserialize_message : list Z → result ExtError MlsMessageIn;
  deserialize_welcome : list Z → result ExtError WelcomeIn;
  deserialize_group_info : list Z → result ExtError VerifiableGroupInfo;
  group_info_group : VerifiableGroupInfo → GroupId;
  extract : MlsMessageIn → MlsMessageBodyIn PublicMessageIn PrivateMessageIn;
  try_into_protocol_message :
    MlsMessageIn → result ExtError (ProtocolMessage PublicMessageIn PrivateMessageIn);
  message_group : ProtocolMessage PublicMessageIn PrivateMessageIn → GroupId;
}.

(** A public message as a protocol message is the body of its message. *)
Class MlsWireLaws `{MlsWire} := {
  public_protocol_message m p :
    try_into_protocol_message m = Ok (PublicMessage p) → extract m = BodyPublicMessage p;
}.

Section wire.
Context `{MlsWire}.

Abbreviation ProtocolMessageIn := (ProtocolMessage PublicMessageIn PrivateMessageIn).

Record NewGroupTransport := mkNewGroupTransport {
  transport_group_info : list Z;
  transport_welcome : option (list Z);
}.
Record NewGroup := mkNewGroup { group_info : VerifiableGroupInfo; new_group_welcome : option (list Z) }.

Record AddToGroupTransport := mkAddToGroupTransport { transport_commit : list Z; add_welcome : list Z }.
Record AddToGroup := mkAddToGroup {
  add_commit : PublicMessageIn;
  commit_bytes : list Z;
  add_to_group_welcome : list Z;
}.

Inductive MessageToServerTransport :=
  | GroupMessageToServer (m : list Z)
  | NewDeviceGroupToServer (g : NewGroupTransport)
  | AddToGroupToServer (a : AddToGroupTransport).

Inductive MessageToServer :=
  | GroupMessage (raw : list Z) (message : ProtocolMessageIn)
  | NewDeviceGroup (g : NewGroup)
  | AddToGroupMessage (a : AddToGroup).

Definition new_group_unpack (self : NewGroupTransport) : result ExtError NewGroup :=
  group_info ← deserialize_group_info (transport_group_info self);
  Ok (mkNewGroup group_info (transport_welcome self)).

Definition expected_private : ExtError := "Expected a Private MLS message, but got something else".

Definition add_to_group_unpack (self : AddToGroupTransport) : result ExtError AddToGroup :=
  commit ← deserialize_message (transport_commit self);
  match extract commit with
  | BodyPublicMessage commit => Ok (mkAddToGroup commit (transport_commit self) (add_welcome self))
  | _ => Err expected_private
  end.

Definition to_server_unpack (self : MessageToServerTransport) : result ExtError MessageToServer :=
  match self with
  | GroupMessageToServer raw =>
      m ← deserialize_message raw;
      message ← try_into_protocol_message m;
      Ok (GroupMessage raw message)
  | NewDeviceGroupToServer device_group => g ← new_group_unpack device_group; Ok (NewDeviceGroup g)
  | AddToGroupToServer add_to_group => a ← add_to_group_unpack add_to_group; Ok (AddToGroupMessage a)
  end.

Inductive MessageToMemberTransport :=
  | WelcomeTransport (m : list Z)
  | GroupMessageTransport (m : list Z)
  | AddToGroupTransportMember (m : list Z).

Inductive MessageToMember :=
  | MemberWelcome (w : WelcomeIn)
  | MemberGroupMessage (m : PrivateMessageIn)
  | MemberAddToGroup (m : PublicMessageIn).

Definition to_member_unpack (self : MessageToMemberTransport) : result ExtError MessageToMember :=
  match self with
  | WelcomeTransport welcome => w ← deserialize_welcome welcome; Ok (MemberWelcome w)
  | GroupMessageTransport message =>
      message ← deserialize_message message;
      match extract message with
      | BodyPrivateMessage private_message => Ok (MemberGroupMessage private_message)
      | _ => Err expected_private
      end
  | AddToGroupTransportMember commit =>
      commit ← deserialize_message commit;
      match extract commit with
      | BodyPublicMessage commit => Ok (MemberAddToGroup commit)
      | _ => Err expected_private
      end
  end.

Abbreviation MessageToSend := (Messages.MessageToSend (Message := MessageToMemberTransport)).

Definition remove_receiver (self : MessageToSend) (receiver : SpkiHash) : MessageToSend :=
  Messages.mkMessageToSend (filter (λ r, r ≠ receiver) (Messages.receivers self)) (Messages.message self).

Lemma to_server_group_message raw t m :
  to_server_unpack t = Ok (GroupMessage raw m) →
  t = GroupMessageToServer raw ∧ ∃ i, deserialize_message raw = Ok i ∧ try_into_protocol_message i = Ok m.
Proof.
  destruct t as [r|g|a]; cbn; intros Hu.
  - apply bind_Ok in Hu as (i & Hi & (x & Hx & [= -> ->])%bind_Ok). eauto.
  - by apply bind_Ok in Hu as (g' & _ & [=]).
  - by apply bind_Ok in Hu as (a' & _ & [=]).
Qed.
End wire.
Abbreviation ProtocolMessageIn := (ProtocolMessage PublicMessageIn PrivateMessageIn).
Abbreviation MessageToSend := (Messages.MessageToSend (Message := MessageToMemberTransport)).

(** ** Public groups of [openmls]

    A public group knows its members; the provider keeps groups on disk, and
    [from_external] makes one from what its creator published, on a storage
    or ([from_external_in_memory]) on a temporary one. [merge_commit] may
    leave group and storage changed when it fails. *)
Inductive ProcessedMessageContent (StagedCommit : Type) :=
  | ApplicationMessage (m : list Z)
  | ProposalMessage
  | ExternalJoinProposalMessage
  | StagedCommitMessage (commit : StagedCommit).
Arguments ApplicationMessage {StagedCommit} m.
Arguments ProposalMessage {StagedCommit}.
Arguments ExternalJoinProposalMessage {StagedCommit}.
Arguments StagedCommitMessage {StagedCommit} commit.

Class MlsPublic `{Mls, MlsWire} := {
  PublicGroup : Type;
  PublicStorage : Type;
  RatchetTree : Type;
  info_ratchet_tree : VerifiableGroupInfo → option RatchetTree;
  public_load : PublicStorage → GroupId → result ExtError (option PublicGroup);
  public_group_id : PublicGroup → GroupId;
  public_members : PublicGroup → list MlsCredential;
  public_leaf : PublicGroup → LeafNodeIndex → option MlsCredential;
  from_external_in_memory : RatchetTree → VerifiableGroupInfo → result ExtError PublicGroup;
  from_external : RatchetTree → VerifiableGroupInfo → io PublicStorage ExtError PublicGroup;
  public_process_message : PublicGroup → ProtocolMessageIn →
    result ExtError (ProcessedMessageContent StagedCommit);
  public_merge_commit : StagedCommit → io (PublicGroup * PublicStorage) ExtError ();
}.

(** The group made does not depend on where it is kept, and has the
    identifier that was published. *)
Class MlsPublicLaws `{MlsPublic} := {
  from_external_id tree info g :
    from_external_in_memory tree info = Ok g → public_group_id g = group_info_group info;
  from_external_group tree info s s' g g' :
    from_external tree info s = (s', Ok g) → from_external_in_memory tree info = Ok g' → g = g';
}.

(** ** The public processor ([public_processor.rs])

    It runs in a task of its own and answers requests in turn. When a request
    unwinds the task is gone: the caller and everyone after it get the error
    [recv] of the closed channel. *)
Inductive ProcessedContent (StagedCommit : Type) :=
  | Unknown
  | Commit (commit : StagedCommit).
Arguments Unknown {StagedCommit}.
Arguments Commit {StagedCommit} commit.

Inductive AddGroupError :=
  | MissingRatchetTree
  | TempCreationFromExternalError (e : ExtError)
  | CreationFromExternalError (e : ExtError)
  | AddGroupCodec (e : ExtError)
  | AddGroupRecv.

Section processor.
Context `{MlsPublic}.

Record ProcessedMessage := mkProcessedMessage {
  processed_group_id : GroupId;
  processed_receivers : list SpkiHash;
  processed_content : ProcessedContent StagedCommit;
}.

Record PublicProcessor := mkPublicProcessor {
  group_cache : gmap GroupId PublicGroup;
  storage : PublicStorage;
  running : bool;
}.

(** Sending a request to the task and waiting for its answer. *)
Definition call {E A} (recv : E) (m : io PublicProcessor E A) : io PublicProcessor E A := λ p,
  if running p then
    match m p with
    | (p, Panic) => (mkPublicProcessor (group_cache p) (storage p) false, Err recv)
    | r => r
    end
  else (p, Err recv).

Definition get_group (group_id : GroupId) : io PublicProcessor MlsFailure PublicGroup := λ p,
  match group_cache p !! group_id with
  | Some group => (p, Ok group)
  | None =>
      match public_load (storage p) group_id with
      | Ok (Some mls_group) =>
          (mkPublicProcessor (<[ group_id := mls_group ]> (group_cache p)) (storage p) (running p),
           Ok mls_group)
      | Ok None => (p, Err FailUnknownGroup)
      | Err e => (p, Err (FailStorage e))
      | Panic => (p, Panic)
      end
  end.

Definition members_of (group : PublicGroup) : result ExtError (list SpkiHash) :=
  collectM deserialized (public_members group).

Definition processor_process_message (message : ProtocolMessageIn) :
    io PublicProcessor MlsFailure ProcessedMessage :=
  let group_id := message_group message in
  group ← get_group group_id;
  current_members ← io_result (map_err FailCodec (members_of group));
  match message with
  | PrivateMessage _ => mret (mkProcessedMessage group_id current_members Unknown)
  | PublicMessage _ =>
      processed ← io_result (map_err FailMls (public_process_message group message));
      match processed with
      | ApplicationMessage _ => io_result Panic
      | ProposalMessage => io_err (Bail "message type not allowed")
      | ExternalJoinProposalMessage => io_err (Bail "message type not allowed")
      | StagedCommitMessage commit => mret (mkProcessedMessage group_id current_members (Commit commit))
      end
  end.

Definition check_group (new_group : NewGroup) : io PublicProcessor AddGroupError PublicGroup :=
  io_result (
    ratchet_tree ← ok_or (info_ratchet_tree (group_info new_group)) MissingRatchetTree;
    map_err TempCreationFromExternalError
      (from_external_in_memory ratchet_tree (group_info new_group))).

Definition on_storage {E A} (m : io PublicStorage E A) : io PublicProcessor E A := λ p,
  let '(s, r) := m (storage p) in (mkPublicProcessor (group_cache p) s (running p), r).

Definition add_group (new_group : NewGroup) : io PublicProcessor AddGroupError (option MessageToSend) :=
  ratchet_tree ← io_result (ok_or (info_ratchet_tree (group_info new_group)) MissingRatchetTree);
  group ← io_map_err CreationFromExternalError
    (on_storage (from_external ratchet_tree (group_info new_group)));
  members ← io_result (map_err AddGroupCodec (members_of group));
  mret (match new_group_welcome new_group with
        | Some welcome => Some (Messages.mkMessageToSend members (WelcomeTransport welcome))
        | None => None
        end).

Definition processor_get_member (group_id : GroupId) (index : LeafNodeIndex) :
    io PublicProcessor MlsFailure SpkiHash :=
  group ← get_group group_id;
  leaf ← io_result (ok_or (public_leaf group index) (Bail "member is not in group"));
  io_result (map_err FailCodec (deserialized leaf)).

(** [group.merge_commit]: the group is the entry of the cache. *)
Definition merge_commit (group_id : GroupId) (commit : StagedCommit) (group : PublicGroup) :
    io PublicProcessor MlsFailure () := λ p,
  let '((group, s), r) := public_merge_commit commit (group, storage p) in
  (mkPublicProcessor (<[ group_id := group ]> (group_cache p)) s (running p), map_err FailMls r).

Definition processor_commit (group_id : GroupId) (commit : StagedCommit) :
    io PublicProcessor MlsFailure () :=
  group ← get_group group_id;
  merge_commit group_id commit group.

#[global] Instance public_processor : AnyMlsProcessor PublicProcessor := {|
  get_member group_id index := call FailRecv (processor_get_member group_id index);
|}.

(** The group the processor works with. *)
Definition lookup_group (p : PublicProcessor) (group_id : GroupId) : result ExtError (option PublicGroup) :=
  match group_cache p !! group_id with
  | Some group => Ok (Some group)
  | None => public_load (storage p) group_id
  end.

Definition same_public_groups (p p' : PublicProcessor) : Prop :=
  storage p = storage p' ∧ ∀ g, lookup_group p g = lookup_group p' g.

Definition public_member_at (p : PublicProcessor) (group_id : GroupId) (index : LeafNodeIndex)
    (h : SpkiHash) : Prop :=
  ∃ group leaf, lookup_group p group_id = Ok (Some group) ∧ public_leaf group index = Some leaf ∧
    deserialized leaf = Ok h.

#[global] Instance same_public_groups_equiv : Equivalence same_public_groups.
Proof.
  split; [done| |].
  - intros p p' [E Hg]. split; [done|]. intros g. by rewrite Hg.
  - intros p1 p2 p3 [E1 H1'] [E2 H2']. split; [congruence|]. intros g. by rewrite H1', H2'.
Qed.

Lemma get_group_keeps g : keeps same_public_groups (get_group g).
Proof.
  intros p p' r. unfold get_group. destruct (group_cache p !! g) as [x|] eqn:Hc; [by intros [= -> _]|].
  destruct (public_load (storage p) g) as [[x|]|e|] eqn:Hl; intros [= <- _]; try done.
  split; [done|]. intros g'. unfold lookup_group. cbn. destruct (decide (g = g')) as [<-|].
  - by rewrite lookup_insert_eq, Hc, Hl.
  - by rewrite lookup_insert_ne.
Qed.

Lemma get_group_inv g p p' group :
  get_group g p = (p', Ok group) → lookup_group p g = Ok (Some group).
Proof.
  unfold get_group, lookup_group. destruct (group_cache p !! g); [by intros [= _ ->]|].
  destruct (public_load _ _) as [[x|]|e|]; intros [=]. by subst.
Qed.

Lemma call_keeps {E A} recv (m : io PublicProcessor E A) :
  keeps same_public_groups m → keeps same_public_groups (call recv m).
Proof.
  intros Hm p p' r. unfold call. destruct (running p); [|by intros [= -> _]].
  destruct (m p) as [p1 [a|e|]] eqn:Hp; intros [= <- _]; apply Hm in Hp; [done|done|].
  destruct Hp as [Hs Hg]. split; [done|]. intros g. rewrite Hg. done.
Qed.

Lemma call_inv {E A} recv (m : io PublicProcessor E A) p p' a :
  call recv m p = (p', Ok a) → m p = (p', Ok a).
Proof. unfold call. destruct (running p); [|done]. by destruct (m p) as [p1 [x|e|]]. Qed.

#[local] Hint Resolve get_group_keeps call_keeps : keeps.

Lemma processor_get_member_keeps g i : keeps same_public_groups (processor_get_member g i).
Proof. unfold processor_get_member. keep. Qed.

Lemma processor_process_message_keeps m : keeps same_public_groups (processor_process_message m).
Proof. unfold processor_process_message, io_err. keep. Qed.

Lemma check_group_keeps g : keeps same_public_groups (check_group g).
Proof. unfold check_group. keep. Qed.

#[global] Program Instance public_processor_laws : AnyMlsProcessorLaws PublicProcessor := {|
  same_groups := same_public_groups;
  member_at := public_member_at;
|}.
Next Obligation.
  intros p p' [_ E] g ? <- i ? <- h ? <-. unfold public_member_at. by setoid_rewrite E.
Qed.
Next Obligation. intros g i. apply call_keeps, processor_get_member_keeps. Qed.
Next Obligation.
  intros g i p p' h (p1 & group & Hg & Hk)%call_inv%io_bind_inv.
  apply io_bind_inv in Hk as (p2 & leaf & [= <- Hl%ok_or_Ok] & [= _ Hd%map_err_Ok]).
  exists group, leaf. split_and!; try done. by eapply get_group_inv.
Qed.
End processor.

(** ** The server ([server.rs]) *)
Inductive AddDeviceGroupError :=
  | DeviceGroupCodec (e : ExtError)
  | DeviceGroupAdd (e : AddGroupError)
  | DeviceGroupParse (e : ParseGroupIdError)
  | DeviceGroupRetriever (e : RetrieverError)
  | DeviceGroupVerifier (e : VerifyError)
  | UnexpectedGroup
  | InvalidGroupId
  | WrongMembers.

Inductive ServerFailure :=
  | ServerMls (e : MlsFailure)
  | ServerAddDeviceGroup (e : AddDeviceGroupError).

(** Matching on a result: errors are handled, unwinding goes on. *)
Definition io_try {S E F A} (m : io S E A) : io S F (result E A) := λ s,
  match m s with
  | (s, Panic) => (s, Panic)
  | (s, r) => (s, Ok r)
  end.

Section server.
Context `{MlsPublic} `{Hex} {K : Type} `{!KeyRetriever K} `{Verifier V}.
Context (clock : nat → Z).

Definition MlsServer : Type := MlsHarness K V PublicProcessor.

(** [MlsServer::verify_key_package]: the package of the expected owner. *)
Definition server_verify_key_package (key_package : UnverifiedKeyPackage) (expected : SpkiHash) :
    io MlsServer KeyPackageError KeyPackage :=
  verified ← verify_key_package clock key_package;
  if bool_decide (package_owner verified ≠ expected) then io_err SpkiHashMismatch
  else mret verified.

(** The device a group is for is an agent. *)
Definition check_device (spki_hash : SpkiHash) : io MlsServer AddDeviceGroupError () :=
  '(certificate : Certificate) ← io_map_err DeviceGroupVerifier (harness_verify clock spki_hash);
  if bool_decide (certificate_type certificate ≠ Agent) then io_err InvalidGroupId else mret ().

(** The checks on a group made in memory. *)
Definition check_svalin_group (new_group : NewGroup) : io MlsServer AddDeviceGroupError () :=
  temp_group ← io_map_err DeviceGroupAdd (on_processor (call AddGroupRecv (check_group new_group)));
  members ← io_result (map_err DeviceGroupCodec (members_of temp_group));
  id ← io_result (map_err DeviceGroupParse (from_group_id (public_group_id temp_group)));
  _ ← match id with
      | DeviceGroup spki_hash => check_device spki_hash
      | DeviceMetaGroup spki_hash => check_device spki_hash
      | GlobalGroup => mret ()
      end;
  required_members ← io_map_err DeviceGroupRetriever (harness_required_members clock id);
  if bool_decide ((list_to_set required_members : gset SpkiHash) ≠ list_to_set members) then
    io_err WrongMembers
  else mret ().

Definition add_svalin_group (new_group : NewGroup) :
    io MlsServer AddDeviceGroupError (option MessageToSend) :=
  _ ← check_svalin_group new_group;
  io_map_err DeviceGroupAdd (on_processor (call AddGroupRecv (add_group new_group))).

Definition add_device_group (new_group : NewGroup) :
    io MlsServer AddDeviceGroupError (option MessageToSend) :=
  svalin_id ← io_result (map_err DeviceGroupParse (from_group_id (group_info_group (group_info new_group))));
  match svalin_id with
  | DeviceGroup _ => add_svalin_group new_group
  | DeviceMetaGroup _ => add_svalin_group new_group
  | _ => io_err UnexpectedGroup
  end.

Definition server_commit (group_id : SvalinGroupId) (commit : StagedCommit) :
    io MlsServer ServerFailure () :=
  io_map_err ServerMls (on_processor (call FailRecv (processor_commit (to_group_id group_id) commit))).

Definition server_process (message : ProtocolMessageIn) : io MlsServer ServerFailure ProcessedMessage :=
  io_map_err ServerMls (on_processor (call FailRecv (processor_process_message message))).

Definition processed_svalin_id (processed : ProcessedMessage) : io MlsServer ServerFailure SvalinGroupId :=
  io_result (map_err (λ e, ServerMls (FailGroupId e)) (from_group_id (processed_group_id processed))).

(** A commit in a group message: without additions, and only if it passes. *)
Definition commit_group_message (group_id : SvalinGroupId) (commit : StagedCommit) :
    io MlsServer ServerFailure () :=
  if bool_decide (length (add_proposals commit) = 0%nat) then
    checked ← io_try (check_commit clock group_id commit);
    match checked with
    | Err _ | Panic => mret ()
    | Ok _ => server_commit group_id commit
    end
  else mret ().

Definition handle_group_message (raw : list Z) (message : ProtocolMessageIn) :
    io MlsServer ServerFailure (list MessageToSend) :=
  processed ← server_process message;
  group_id ← processed_svalin_id processed;
  _ ← match processed_content processed with
      | Unknown => mret ()
      | Commit commit => commit_group_message group_id commit
      end;
  mret [Messages.mkMessageToSend (processed_receivers processed) (GroupMessageTransport raw)].

(** The owners of the added packages; the commit has been checked. *)
Definition new_members_of (commit : StagedCommit) : result ServerFailure (list SpkiHash) :=
  unwrap (collectM (λ add, deserialized (leaf_credential (snd add))) (add_proposals commit)).

Definition handle_add_to_group (add_to_group : AddToGroup) :
    io MlsServer ServerFailure (list MessageToSend) :=
  processed ← server_process (PublicMessage (add_commit add_to_group));
  group_id ← processed_svalin_id processed;
  let to_members := Messages.mkMessageToSend (processed_receivers processed)
                      (AddToGroupTransportMember (commit_bytes add_to_group)) in
  match processed_content processed with
  | Unknown => mret [to_members]
  | Commit commit =>
      checked ← io_try (check_commit clock group_id commit);
      match checked with
      | Err _ | Panic => mret [to_members]
      | Ok _ =>
          new_members ← io_result (new_members_of commit);
          _ ← server_commit group_id commit;
          mret [to_members;
                Messages.mkMessageToSend new_members (WelcomeTransport (add_to_group_welcome add_to_group))]
      end
  end.

Definition process_message (message : MessageToServerTransport) :
    io MlsServer ServerFailure (list MessageToSend) :=
  message ← io_result (map_err (λ e, ServerMls (FailCodec e)) (to_server_unpack message));
  match message with
  | GroupMessage raw message => handle_group_message raw message
  | NewDeviceGroup device_group =>
      to_send ← io_map_err ServerAddDeviceGroup (add_device_group device_group);
      mret (match to_send with Some to_send => [to_send] | None => [] end)
  | AddToGroupMessage add_to_group => handle_add_to_group add_to_group
  end.

(** *** What changes the groups of the server *)
Implicit Types h : MlsServer.

(** A new group is for an agent the verifier accepts, and exactly the
    required members are in it. *)
Definition group_accepted (v : V) (group : PublicGroup) (id : SvalinGroupId) : Prop :=
  from_group_id (public_group_id group) = Ok id ∧
  (∃ device c, (id = DeviceGroup device ∨ id = DeviceMetaGroup device) ∧
     accepted clock v device c ∧ certificate_type c = Agent) ∧
  ∃ members required, members_of group = Ok members ∧ retrieved (K := K) id required ∧
    ∀ m, m ∈ required ↔ m ∈ members.

Lemma io_try_cases {S E F A} (m : io S E A) s s' r :
  io_try (F := F) m s = (s', r) →
  (r = Panic ∧ m s = (s', Panic)) ∨ ∃ r', r = Ok r' ∧ m s = (s', r') ∧ r' ≠ Panic.
Proof. unfold io_try. destruct (m s) as [s1 [a|e|]]; intros [= <- <-]; eauto 10. Qed.

Lemma io_result_bind {S E A B} (r : result E A) (f : A → io S E B) s s' b :
  (io_result r ≫= f) s = (s', b) →
  (∃ a, r = Ok a ∧ f a s = (s', b)) ∨ (s' = s ∧ is_ok r = false ∧ is_ok b = false).
Proof. unfold mbind, io_bind, io_result. destruct r; naive_solver. Qed.

Lemma on_processor_cases {E A} (m : io PublicProcessor E A) h h' r :
  on_processor m h = (h', r) →
  verifier h' = verifier h ∧ m (processor h) = (processor h', r).
Proof. unfold on_processor. destruct (m _) as [p r']. by intros [= <- <-]. Qed.

#[local] Hint Resolve keeps_harness_verify keeps_required keeps_on_processor call_keeps
  check_group_keeps processor_process_message_keeps keeps_check_commit : keeps.

Lemma keeps_server_process m : keeps same_harness (server_process m).
Proof. unfold server_process. keep. Qed.

Lemma keeps_try {S E F A} (R : relation S) (m : io S E A) : keeps R m → keeps R (io_try (F := F) m).
Proof. intros Hm s s' r. unfold io_try. destruct (m s) as [s1 [a|e|]] eqn:E'; intros [= <- _]; by eapply Hm. Qed.

Lemma keeps_processed_id p : keeps (S := MlsServer) same_harness (processed_svalin_id p).
Proof. unfold processed_svalin_id. keep. Qed.

Lemma keeps_check_device d : keeps same_harness (check_device d).
Proof. unfold check_device, io_err. keep. Qed.

#[local] Hint Resolve keeps_check_device : keeps.

Lemma keeps_check_svalin_group ng : keeps same_harness (check_svalin_group ng).
Proof. unfold check_svalin_group, io_err. keep. Qed.

Lemma check_device_inv d h h' u :
  check_device d h = (h', Ok u) → ∃ c, accepted clock (verifier h) d c ∧ certificate_type c = Agent.
Proof.
  intros (h1 & c & Hc%io_map_err_inv%harness_verify_inv & Hk)%io_bind_inv.
  case_bool_decide as Ht; [done|]. by exists c.
Qed.

(** A group that passes is accepted, if the device of its identifier is the
    one its creator published. *)
Lemma check_svalin_group_inv ng id h h' u :
  from_group_id (group_info_group (group_info ng)) = Ok id → id ≠ GlobalGroup →
  check_svalin_group ng h = (h', Ok u) →
  ∃ tree group, info_ratchet_tree (group_info ng) = Some tree ∧
    from_external_in_memory tree (group_info ng) = Ok group ∧
    (public_group_id group = group_info_group (group_info ng) → group_accepted (verifier h) group id).
Proof.
  intros Hid Hglob (h1 & group & Hg%io_map_err_inv & Ha)%io_bind_inv.
  apply on_processor_cases in Hg as [Hv1 Hg%call_inv].
  unfold check_group, io_result in Hg. injection Hg as _ Hg.
  apply bind_Ok in Hg as (tree & Htree%ok_or_Ok & Hg%map_err_Ok).
  exists tree, group. split_and!; [done|done|]. intros Hpid.
  apply io_bind_inv in Ha as (h2 & members & [= <- Hm%map_err_Ok] & Ha).
  apply io_bind_inv in Ha as (h3 & id' & [= <- Hid'%map_err_Ok] & Ha).
  rewrite Hpid, Hid in Hid'. injection Hid' as <-.
  apply io_bind_inv in Ha as (h4 & [] & Hdev & Ha).
  apply io_bind_inv in Ha as (h5 & req & Hreq%io_map_err_inv & Ha).
  case_bool_decide as Hset; [done|].
  split; [by rewrite Hpid|]. split.
  - destruct id as [|d|d]; [done|..];
      (apply check_device_inv in Hdev as (c & Hc & Ht); rewrite Hv1 in Hc; exists d, c; eauto).
  - exists members, req. split_and!; [done|by eapply required_inv|].
    intros m. rewrite <-!(elem_of_list_to_set (C := gset SpkiHash)). by rewrite Hset.
Qed.

(** A message of the server's copy of a group is a commit. *)
Definition stages (p : PublicProcessor) (msg : ProtocolMessageIn) (commit : StagedCommit) : Prop :=
  ∃ group, lookup_group p (message_group msg) = Ok (Some group) ∧
    public_process_message group msg = Ok (StagedCommitMessage commit).

Lemma server_process_inv msg h h' processed :
  server_process msg h = (h', Ok processed) →
  processed_group_id processed = message_group msg ∧
  (∃ group, lookup_group (processor h) (message_group msg) = Ok (Some group) ∧
     members_of group = Ok (processed_receivers processed)) ∧
  (processed_content processed = Unknown ∧ (∃ m, msg = PrivateMessage m) ∨
   ∃ commit m, processed_content processed = Commit commit ∧ msg = PublicMessage m ∧
     stages (processor h) msg commit).
Proof.
  intros Hp%io_map_err_inv. apply on_processor_cases in Hp as [_ Hp%call_inv].
  apply io_bind_inv in Hp as (p1 & group & Hg%get_group_inv & Hp).
  apply io_bind_inv in Hp as (p2 & ms & [= <- Hms%map_err_Ok] & Hp). destruct msg as [m|m].
  - apply io_bind_inv in Hp as (p3 & content & [= <- Hc%map_err_Ok] & Hp).
    destruct content as [a| | |commit]; try done. injection Hp as _ <-. cbn.
    split_and!; [done|by exists group|right]. exists commit, m. split_and!; try done. by exists group.
  - injection Hp as _ <-. cbn. split_and!; [done|by exists group|left]. split; [done|by exists m].
Qed.

Definition commit_change h (msg : ProtocolMessageIn) (commit : StagedCommit) : Prop :=
  stages (processor h) msg commit ∧
  ∃ g required, from_group_id (message_group msg) = Ok g ∧ retrieved (K := K) g required ∧
    commit_approved clock (verifier h) (processor h) g required commit.

(** A checked commit: refused with nothing changed, or approved. *)
Lemma checked_commit_cases g commit {B} (f : result MlsFailure () → io MlsServer ServerFailure B) h h' r :
  (io_try (check_commit clock g commit) ≫= f) h = (h', r) →
  (same_harness h h' ∧ r = Panic) ∨
  ∃ h1 c, same_harness h h1 ∧ f c h1 = (h', r) ∧
    ((∃ e, c = Err e) ∨
     c = Ok () ∧ ∃ required, retrieved (K := K) g required ∧
       commit_approved clock (verifier h) (processor h) g required commit).
Proof.
  unfold mbind, io_bind. destruct (io_try (F := ServerFailure) (check_commit clock g commit) h) as [h1 r1] eqn:Ht.
  apply io_try_cases in Ht as [[-> Hc]|(r' & -> & Hc & Hne)]; pose proof (keeps_check_commit _ _ _ _ _ _ Hc) as Hs.
  - intros [= <- <-]. by left.
  - intros Hf. right. exists h1, r'. split_and!; [done|done|].
    destruct r' as [[]|e|]; [right|by left; eexists|done]. split; [done|].
    exact (proj2 (check_commit_approved _ _ _ _ _ _ Hc)).
Qed.

(** The commit of a message read in [h] and checked in [h1]. *)
Lemma commit_change_same h h1 msg g required commit :
  same_harness h h1 → stages (processor h) msg commit → from_group_id (message_group msg) = Ok g →
  retrieved (K := K) g required →
  commit_approved clock (verifier h1) (processor h1) g required commit →
  commit_change h msg commit.
Proof.
  intros Hs Hst Hg Hr [Ha1 Ha2 Ha3]. split; [done|]. exists g, required. split_and!; try done. split.
  - by destruct Hs as [-> _].
  - eapply Forall_impl; [exact Ha2|]. intros pr. exact (remove_same clock g required pr h h1 Hs).
  - eapply Forall_impl; [exact Ha3|]. intros pr. exact (add_same clock g pr h h1 Hs).
Qed.

Lemma keeps_processed_svalin_id p : keeps same_harness (processed_svalin_id p).
Proof. unfold processed_svalin_id. keep. Qed.

#[local] Hint Resolve keeps_server_process keeps_processed_svalin_id : keeps.

(** The steps the two kinds of group messages share: after them the groups
    are as before, and the message's content is known. *)
Lemma read_message_cases {B} msg
    (f : ProcessedMessage → SvalinGroupId → io MlsServer ServerFailure B) h h' r :
  (processed ← server_process msg; g ← processed_svalin_id processed; f processed g) h = (h', r) →
  (same_harness h h' ∧ is_ok r = false) ∨
  ∃ h1 processed g, same_harness h h1 ∧ f processed g h1 = (h', r) ∧
    server_process msg h = (h1, Ok processed) ∧ from_group_id (message_group msg) = Ok g.
Proof.
  intros Hk. apply io_bind_cases in Hk as [(h1 & p & Hp & Hk)|(r' & Hp & _ & Hr)].
  2:{ left. split; [by eapply keeps_server_process|done]. }
  pose proof (keeps_server_process _ _ _ _ Hp) as Hs1.
  apply io_result_bind in Hk as [(g & Hg%map_err_Ok & Hk)|(-> & _ & Hr)]; [|by left].
  right. exists h1, p, g. split_and!; try done.
  apply server_process_inv in Hp as (Hid & _). by rewrite Hid in Hg.
Qed.

Lemma commit_group_message_cases g commit h h' r :
  commit_group_message g commit h = (h', r) →
  same_harness h h' ∨
  add_proposals commit = [] ∧ ∃ required, retrieved (K := K) g required ∧
    commit_approved clock (verifier h) (processor h) g required commit.
Proof.
  unfold commit_group_message. case_bool_decide as Hadds; [|by intros [= <- _]; left].
  intros Hk. apply checked_commit_cases in Hk as [[Hs _]|(h1 & c & Hs & Hk & Hc)]; [by left|].
  destruct Hc as [[e ->]|[-> Hc]]; [by injection Hk as <- _; left|].
  right. split; [|done]. by apply nil_length_inv.
Qed.

(** What a new group that was let in satisfied. *)
Definition new_group_let_in (v : V) (ng : NewGroup) : Prop :=
  ∃ tree group id, info_ratchet_tree (group_info ng) = Some tree ∧
    from_external_in_memory tree (group_info ng) = Ok group ∧ group_accepted v group id.

Lemma add_device_group_cases `{!MlsPublicLaws} ng h h' r :
  add_device_group ng h = (h', r) → same_harness h h' ∨ new_group_let_in (verifier h) ng.
Proof.
  unfold add_device_group. intros Ha.
  apply io_result_bind in Ha as [(id & Hid%map_err_Ok & Ha)|(-> & _)]; [|by left].
  assert (id ≠ GlobalGroup → add_svalin_group ng h = (h', r) →
    same_harness h h' ∨ new_group_let_in (verifier h) ng) as Hgen.
  { intros Hne Hadd. apply io_bind_cases in Hadd as [(h1 & [] & Hch & _)|(r1 & Hch & _)].
    - right. destruct (check_svalin_group_inv _ _ _ _ _ Hid Hne Hch) as (tree & group & Ht & Hg & Hacc).
      exists tree, group, id. split_and!; [done|done|]. eapply Hacc, from_external_id, Hg.
    - left. by eapply keeps_check_svalin_group. }
  destruct id; [injection Ha as <- _; by left|by apply Hgen..].
Qed.

(** C12: The server's copy of the groups changes only by what was approved:
    whatever message is processed, and however that ends, the groups are as
    before, or the message announced a group that is for an accepted agent
    and has exactly the required members, or it carried a commit that the
    checks approved (in a plain group message, one that adds nobody). *)
Theorem server_groups_change `{!MlsPublicLaws} m h h' r :
  process_message m h = (h', r) →
  same_harness h h' ∨
  (∃ ng, to_server_unpack m = Ok (NewDeviceGroup ng) ∧ new_group_let_in (verifier h) ng) ∨
  (∃ raw msg commit, to_server_unpack m = Ok (GroupMessage raw msg) ∧
     add_proposals commit = [] ∧ commit_change h msg commit) ∨
  (∃ a commit, to_server_unpack m = Ok (AddToGroupMessage a) ∧
     commit_change h (PublicMessage (add_commit a)) commit).
Proof.
  intros Hp. unfold process_message in Hp.
  apply io_result_bind in Hp as [(ms & Hu%map_err_Ok & Hp)|(-> & _ & _)]; [|by left].
  destruct ms as [raw msg|ng|a].
  - apply read_message_cases in Hp as [[Hs _]|(h1 & p & g & Hs & Hp & Hpr & Hg)]; [by left|].
    assert (∃ r', (match processed_content p with
        | Unknown => mret () | Commit commit => commit_group_message g commit end) h1 = (h', r')) as [r' Hc].
    { apply io_bind_cases in Hp as [(h2 & [] & Hc & [= <- _])|(r' & Hc & _)]; eauto. }
    apply server_process_inv in Hpr as (_ & _ & [[Hcc _]|(commit & pm & Hcc & -> & Hst)]); rewrite Hcc in Hc.
    { injection Hc as <- _. by left. }
    apply commit_group_message_cases in Hc as [Hs'|(Hadd & req & Hreq & Hap)]; [left; by etransitivity|].
    right; right; left. exists raw, (PublicMessage pm), commit. split_and!; [done|done|].
    by eapply commit_change_same.
  - assert (∃ r', add_device_group ng h = (h', r')) as [r' Ha].
    { apply io_bind_cases in Hp as [(h2 & ts & Hc%io_map_err_inv & [= <- _])|(r' & Hc & _)]; [eauto|].
      unfold io_map_err in Hc. destruct (add_device_group ng h) as [h2 r2]. injection Hc as <- _. eauto. }
    apply add_device_group_cases in Ha as [Hs|Hn]; [by left|right; left; eauto].
  - apply read_message_cases in Hp as [[Hs _]|(h1 & p & g & Hs & Hp & Hpr & Hg)]; [by left|].
    apply server_process_inv in Hpr as (_ & _ & [[_ [? [=]]]|(commit & pm & Hcc & _ & Hst)]).
    cbn zeta in Hp. rewrite Hcc in Hp.
    apply checked_commit_cases in Hp as [[Hs' _]|(h2 & c & Hs' & Hp & Hc)]; [left; by etransitivity|].
    destruct Hc as [[e ->]|[-> (req & Hreq & Hap)]].
    { injection Hp as <- _. left. by etransitivity. }
    right; right; right. exists a, commit. split; [done|]. by eapply commit_change_same.
Qed.

(** *** New groups *)
Definition same_books h h' : Prop :=
  verifier h = verifier h' ∧ group_cache (processor h) = group_cache (processor h') ∧
  storage (processor h) = storage (processor h').

#[local] Instance same_books_preorder : PreOrder same_books.
Proof. split; [done|]. intros h1 h2 h3 (?&?&?) (?&?&?). split_and!; congruence. Qed.

Lemma books_timestamp {E} : keeps (E := E) same_books (get_current_timestamp clock).
Proof. by intros h h' r [= <- _]. Qed.

Lemma books_on_retriever {E A} (m : io K E A) : keeps same_books (on_retriever m).
Proof. intros h h' r. unfold on_retriever. destruct (m _). by intros [= <- _]. Qed.

Lemma books_check_group ng : keeps same_books (on_processor (call AddGroupRecv (check_group ng))).
Proof.
  intros h h' r. unfold on_processor, call, check_group, io_result.
  destruct (running (processor h)); [|by intros [= <- _]].
  destruct (_ ≫= _); by intros [= <- _].
Qed.

#[local] Hint Resolve books_timestamp books_on_retriever books_check_group : keeps.

Lemma books_check_svalin_group ng : keeps same_books (check_svalin_group ng).
Proof. unfold check_svalin_group, check_device, harness_verify, harness_required_members, io_err. keep. Qed.

Lemma call_add_group_inv ng p p' r :
  call AddGroupRecv (add_group ng) p = (p', Ok r) →
  ∃ tree group members, info_ratchet_tree (group_info ng) = Some tree ∧
    from_external tree (group_info ng) (storage p) = (storage p', Ok group) ∧
    group_cache p' = group_cache p ∧ members_of group = Ok members ∧
    r = option_map (λ w, Messages.mkMessageToSend members (WelcomeTransport w)) (new_group_welcome ng).
Proof.
  intros (p1 & tree & [= <- Ht%ok_or_Ok] & Hk)%call_inv%io_bind_inv.
  apply io_bind_inv in Hk as (p2 & group & Hg%io_map_err_inv & Hk).
  apply io_bind_inv in Hk as (p3 & ms & [= <- Hms%map_err_Ok] & [= <- <-]).
  unfold on_storage in Hg. destruct (from_external _ _ _) as [s r'] eqn:Hfe.
  injection Hg as <- ->. exists tree, group, ms. split_and!; try done.
Qed.

(** A new group that is let in is for an agent the verifier accepts, has
    exactly the required members, is stored, and its welcome, if there is one,
    goes to all its members; a group of the same identifier that the server
    has in use stays in use instead. *)
Theorem new_group_created `{!MlsPublicLaws} t h h' msgs :
  process_message (NewDeviceGroupToServer t) h = (h', Ok msgs) →
  ∃ ng tree group id members,
    new_group_unpack t = Ok ng ∧ info_ratchet_tree (group_info ng) = Some tree ∧
    group_accepted (verifier h) group id ∧ members_of group = Ok members ∧
    from_external tree (group_info ng) (storage (processor h)) = (storage (processor h'), Ok group) ∧
    msgs = match new_group_welcome ng with
           | Some w => [Messages.mkMessageToSend members (WelcomeTransport w)] | None => [] end ∧
    ∀ g old, group_cache (processor h) !! g = Some old → lookup_group (processor h') g = Ok (Some old).
Proof.
  intros (h1 & m & [= <- Hu%map_err_Ok] & Hp)%io_bind_inv.
  cbn in Hu. apply bind_Ok in Hu as (ng & Hng & [= <-]).
  apply io_bind_inv in Hp as (h2 & ts & Hadd%io_map_err_inv & [= <- <-]).
  apply io_bind_inv in Hadd as (h3 & id & [= <- Hid%map_err_Ok] & Hadd).
  assert (id ≠ GlobalGroup ∧ add_svalin_group ng h = (h2, Ok ts)) as [Hne Hsv] by (destruct id; done).
  apply io_bind_inv in Hsv as (h4 & [] & Hch & Hsv%io_map_err_inv).
  destruct (check_svalin_group_inv _ _ _ _ _ Hid Hne Hch) as (tree & group & Ht & Hg & Hacc).
  destruct (books_check_svalin_group _ _ _ _ Hch) as (_ & Hcache & Hstore).
  apply on_processor_cases in Hsv as [_ Hsv].
  apply call_add_group_inv in Hsv as (tree' & group' & ms & Ht' & Hfe & Hcache' & Hms & ->).
  rewrite Ht in Ht'. injection Ht' as <-. rewrite <-Hstore in Hfe.
  assert (group' = group) as -> by exact (from_external_group _ _ _ _ _ _ Hfe Hg).
  exists ng, tree, group, id, ms. split_and!; try done.
  - eapply Hacc, from_external_id, Hg.
  - by destruct (new_group_welcome ng).
  - intros g old Ho. unfold lookup_group. by rewrite Hcache', <-Hcache, Ho.
Qed.

(** *** Messages to groups *)

(** A commit that comes as a plain group message is lost on the members:
    when such a message changes the server's copy of a group, what the
    members are sent is a message that their unpacking refuses. *)
Theorem group_commit_unreadable `{!MlsPublicLaws, !MlsWireLaws} raw h h' msgs :
  process_message (GroupMessageToServer raw) h = (h', Ok msgs) → ¬ same_harness h h' →
  ∃ receivers, msgs = [Messages.mkMessageToSend receivers (GroupMessageTransport raw)] ∧
    to_member_unpack (GroupMessageTransport raw) = Err expected_private.
Proof.
  intros (h0 & m & [= <- Hu%map_err_Ok] & Hp)%io_bind_inv Hns.
  cbn in Hu. apply bind_Ok in Hu as (i & Hi & (msg & Hm & [= <-])%bind_Ok).
  pose proof Hp as Hmsgs. apply io_bind_inv in Hmsgs as (h1 & p & Hpr & Hmsgs).
  apply io_bind_inv in Hmsgs as (h2 & g & _ & Hmsgs).
  apply io_bind_inv in Hmsgs as (h3 & [] & Hc & [= -> <-]).
  eexists. split; [done|]. destruct msg as [pm|pm].
  - cbn. rewrite Hi. cbn. by rewrite (public_protocol_message _ _ Hm).
  - exfalso. apply Hns. apply read_message_cases in Hp as [[Hs _]|(k1 & q & g' & Hs & Hp & Hq & _)]; [done|].
    destruct (server_process_inv _ _ _ _ Hq) as (_ & _ & [[Hcc _]|(c & x & _ & [=] & _)]).
    rewrite Hcc in Hp. by injection Hp as <- _.
Qed.

(** Who hears of an addition: the members the group had are sent the
    commit in any case; only when the checks approve it are the owners of
    the added key packages sent the welcome. *)
Theorem add_to_group_delivery t h h' msgs :
  process_message (AddToGroupToServer t) h = (h', Ok msgs) →
  ∃ a group members, add_to_group_unpack t = Ok a ∧
    lookup_group (processor h) (message_group (PublicMessage (add_commit a))) = Ok (Some group) ∧
    members_of group = Ok members ∧
    let notice := Messages.mkMessageToSend members (AddToGroupTransportMember (commit_bytes a)) in
    (same_harness h h' ∧ msgs = [notice] ∨
     ∃ commit added, commit_change h (PublicMessage (add_commit a)) commit ∧
       collectM (λ add, deserialized (leaf_credential (snd add))) (add_proposals commit) = Ok added ∧
       msgs = [notice; Messages.mkMessageToSend added (WelcomeTransport (add_to_group_welcome a))]).
Proof.
  intros (h0 & m & [= <- Hu%map_err_Ok] & Hp)%io_bind_inv.
  cbn in Hu. apply bind_Ok in Hu as (a & Ha & [= <-]).
  apply read_message_cases in Hp as [[_ [=]]|(h1 & p & g & Hs & Hp & Hpr & Hg)].
  apply server_process_inv in Hpr as (_ & (group & Hl & Hms) & Hc).
  exists a, group, (processed_receivers p). split_and!; try done. intros notice.
  destruct Hc as [[_ [? [=]]]|(commit & pm & Hcc & _ & Hst)].
  cbn zeta in Hp. rewrite Hcc in Hp.
  apply checked_commit_cases in Hp as [[_ [=]]|(h2 & c & Hs' & Hp & Hc)].
  destruct Hc as [[e ->]|[-> (req & Hreq & Hap)]].
  - injection Hp as <- <-. left. split; [by etransitivity|done].
  - right. apply io_bind_inv in Hp as (h3 & added & [= <- Hadded%unwrap_inv] & Hp).
    apply io_bind_inv in Hp as (h4 & [] & _ & [= _ <-]).
    exists commit, added. split_and!; [by eapply commit_change_same|done|done].
Qed.
End server.

(** ** Handing the messages on ([message_streaming/server.rs]) *)
Section handler.
Context `{MlsPublic} `{Hex} {K : Type} `{!KeyRetriever K} `{Verifier V}.
Context {Uuid : Type} `{EqDecision Uuid} `{Postcard MessageToMemberTransport}.
Context (clock : nat → Z) (new_uuid : nat → Uuid).

(** [uuids] counts the identifiers drawn; [received] is the clock the message
    store reads. *)
Record MlsMessageHandler := mkMlsMessageHandler {
  mls_server : MlsServer (K := K) (V := V);
  message_store : Messages.MessageStore (Uuid := Uuid);
  uuids : nat;
}.

Inductive HandleFailure := HandleServer (e : ServerFailure) | HandleStore (e : StoreFailure).

Definition store_message (sender : Certificate) (received : Z) (to_send : MessageToSend) :
    io MlsMessageHandler HandleFailure () := λ h,
  match Messages.add_message (message_store h) (new_uuid (uuids h)) received
          (remove_receiver to_send (spki_hash sender)) with
  | Ok s => (mkMlsMessageHandler (mls_server h) s (S (uuids h)), Ok ())
  | Err e => (mkMlsMessageHandler (mls_server h) (message_store h) (S (uuids h)), Err (HandleStore e))
  | Panic => (mkMlsMessageHandler (mls_server h) (message_store h) (S (uuids h)), Panic)
  end.

(** The call of [process_message]. *)
Definition call_server (message : MessageToServerTransport) :
    io MlsMessageHandler HandleFailure (list MessageToSend) := λ h,
  let '(s, r) := process_message clock message (mls_server h) in
  (mkMlsMessageHandler s (message_store h) (uuids h), map_err HandleServer r).

Definition handler_handle (sender : Certificate) (received : Z) (message : MessageToServerTransport) :
    io MlsMessageHandler HandleFailure () :=
  messages_to_send ← call_server message;
  io_iter (store_message sender received) messages_to_send.

(** The receivers recorded for a message whose identifier is [uuid]. *)
Definition recorded (sender : Certificate) (uuid : Uuid) (to_send : MessageToSend) :
    list (Messages.ReceiverRow (Uuid := Uuid)) :=
  (λ r, Messages.mkReceiverRow uuid (as_slice r)) <$>
    filter (λ r, r ≠ spki_hash sender) (Messages.receivers to_send).

Lemma store_message_inv sender received to_send h h' u :
  store_message sender received to_send h = (h', Ok u) →
  mls_server h' = mls_server h ∧ uuids h' = S (uuids h) ∧
  Messages.message_receivers (message_store h') =
    Messages.message_receivers (message_store h) ++ recorded sender (new_uuid (uuids h)) to_send.
Proof.
  unfold store_message, Messages.add_message. destruct (to_stdvec _) as [d|e|]; cbn; [|done|done].
  destruct (existsb _ _); [done|]. by intros [= <- _].
Qed.

(** What the server's processing sends is put into the mailboxes of all
    receivers but the sender, each message under an identifier of its own. *)
Theorem handle_skips_sender sender received m h h' :
  handler_handle sender received m h = (h', Ok ()) →
  ∃ msgs, process_message clock m (mls_server h) = (mls_server h', Ok msgs) ∧
    Messages.message_receivers (message_store h') =
      Messages.message_receivers (message_store h) ++
      mjoin (imap (λ i, recorded sender (new_uuid (uuids h + i))) msgs).
Proof.
  intros (h1 & msgs & Hp & Hk)%io_bind_inv.
  unfold call_server in Hp. destruct (process_message clock m (mls_server h)) as [s r] eqn:Hs.
  injection Hp as <- Hr. apply map_err_Ok in Hr as ->. exists msgs.
  assert (∀ h1, io_iter (store_message sender received) msgs h1 = (h', Ok ()) →
    mls_server h' = mls_server h1 ∧
    Messages.message_receivers (message_store h') = Messages.message_receivers (message_store h1) ++
      mjoin (imap (λ i, recorded sender (new_uuid (uuids h1 + i))) msgs)) as Hgen.
  2:{ destruct (Hgen _ Hk) as [E1 E2]. by rewrite E1, E2. }
  clear. induction msgs as [|x msgs IH]; intros h1 Hk.
  - injection Hk as ->. cbn. by rewrite app_nil_r.
  - apply io_bind_inv in Hk as (h2 & u & (E1 & E2 & E3)%store_message_inv & Hk).
    destruct (IH _ Hk) as [I1 I2]. rewrite I1, I2, E1, E3. split; [done|].
    rewrite imap_cons. cbn [mjoin list_join]. rewrite Nat.add_0_r, <-app_assoc.
    assert (imap (λ i, recorded sender (new_uuid (uuids h2 + i))) msgs =
      imap ((λ i, recorded sender (new_uuid (uuids h1 + i))) ∘ S) msgs) as ->; [|done].
    apply imap_ext. intros i y _. cbn. by rewrite E2, Nat.add_succ_r.
Qed.
End handler.

(** ** Worked examples

    Toy messages: a message of one byte stands for a fixed content; a group is
    its identifier and its members. *)
#[local] Existing Instance toy_mls.
#[local] Existing Instance toy_hex.
#[local] Existing Instance toy_retriever.

Definition toy_removal : StagedCommit := mkToyCommit (to_group_id GlobalGroup) [(Member 0, 1)] [].

Definition toy_wire : MlsWire := {|
  PublicMessageIn := StagedCommit;
  PrivateMessageIn := GroupId;
  WelcomeIn := ();
  VerifiableGroupInfo := GroupId * list SpkiHash;
  MlsMessageIn := StagedCommit + GroupId;
  deserialize_message b :=
    match b with
    | [1] => Ok (inl toy_removal)
    | [2] => Ok (inl toy_edit)
    | [3] => Ok (inr (to_group_id GlobalGroup))
    | [4] => Ok (inr (to_group_id (DeviceGroup (spki_hash toy_agent))))
    | _ => Err "message"%string
    end;
  deserialize_welcome _ := Ok ();
  deserialize_group_info _ :=
    Ok (to_group_id (DeviceGroup (spki_hash toy_agent)), [spki_hash toy_root; spki_hash toy_agent]);
  group_info_group := fst;
  extract m := match m with inl c => BodyPublicMessage c | inr g => BodyPrivateMessage g end;
  try_into_protocol_message m :=
    match m with inl c => Ok (PublicMessage c) | inr g => Ok (PrivateMessage g) end;
  message_group m := match m with PublicMessage c => commit_group_id c | PrivateMessage g => g end;
|}.

Lemma toy_wire_laws : @MlsWireLaws toy_wire.
Proof. split. intros [c|g] p; cbn; [by intros [= ->]|by intros [=]]. Qed.

#[local] Existing Instance toy_wire.

(** Merging drops the removed leaves and appends the added owners. *)
Definition toy_merge (commit : toy_commit) (members : list SpkiHash) : list SpkiHash :=
  foldr (λ r, delete (Z.to_nat (snd r))) members (toy_removes commit) ++
  ((λ a, fst (snd a)) <$> toy_adds commit).

Definition toy_public : @MlsPublic toy_mls toy_wire := {|
  PublicGroup := GroupId * list SpkiHash;
  PublicStorage := gmap GroupId (list SpkiHash);
  RatchetTree := list SpkiHash;
  info_ratchet_tree info := Some (snd info);
  public_load s g := Ok (option_map (pair g) (s !! g));
  public_group_id := fst;
  public_members := snd;
  public_leaf g i := snd g !! Z.to_nat i;
  from_external_in_memory tree info := Ok (fst info, tree);
  from_external tree info := λ s, (<[ fst info := tree ]> s, Ok (fst info, tree));
  public_process_message g m :=
    match m with PublicMessage c => Ok (StagedCommitMessage c) | PrivateMessage _ => Ok (ApplicationMessage []) end;
  public_merge_commit c := λ gs,
    let '((g, members), s) := gs in
    (((g, toy_merge c members), <[ g := toy_merge c members ]> s), Ok ());
|}.

#[local] Existing Instance toy_public.

Lemma toy_public_laws : MlsPublicLaws.
Proof. split; cbn; [by intros tree info g [= <-]|by intros tree info s s' g g' [= _ <-] [= <-]]. Qed.

#[local] Existing Instance toy_wire_laws.
#[local] Existing Instance toy_public_laws.

Definition toy_mls_server (required : list SpkiHash) : MlsServer (K := ToyRetriever) (V := OneOfVerififier) :=
  mkHarness (mkToyRetriever required []) toy_verifier
    (mkPublicProcessor ∅ {[ to_group_id GlobalGroup := [spki_hash toy_root; spki_hash toy_agent] ]} true) 0.

Definition toy_new_group : NewGroupTransport := mkNewGroupTransport [] (Some [9]).

Definition toy_root_agent : MlsServer (K := ToyRetriever) (V := OneOfVerififier) :=
  toy_mls_server [spki_hash toy_agent; spki_hash toy_root].

Definition toy_only_root : MlsServer (K := ToyRetriever) (V := OneOfVerififier) :=
  toy_mls_server [spki_hash toy_root].

Lemma toy_new_group_processed :
  (process_message toy_clock (NewDeviceGroupToServer toy_new_group) toy_root_agent).2 =
    Ok [Messages.mkMessageToSend [spki_hash toy_root; spki_hash toy_agent] (WelcomeTransport [9])].
Proof. vm_compute. reflexivity. Qed.

Lemma new_group_created_witness :
  ∃ ng tree group id members, new_group_unpack toy_new_group = Ok ng ∧
    info_ratchet_tree (group_info ng) = Some tree ∧
    group_accepted toy_clock (K := ToyRetriever) toy_verifier group id ∧ members_of group = Ok members.
Proof.
  destruct (new_group_created toy_clock toy_new_group toy_root_agent _ _ (io_run _ _ _ toy_new_group_processed))
    as (ng & tree & group & id & members & H1 & H2 & H3 & H4 & _).
  exists ng, tree, group, id, members. split; [exact H1|]. split; [exact H2|]. split; [exact H3|exact H4].
Defined.

Definition toy_after (b : list Z) : MlsServer (K := ToyRetriever) (V := OneOfVerififier) :=
  (process_message toy_clock (GroupMessageToServer b) toy_only_root).1.

Lemma toy_removal_changes : ¬ same_harness toy_only_root (toy_after [1]).
Proof.
  intros [_ [_ Hg]]. specialize (Hg (to_group_id GlobalGroup)). revert Hg. vm_compute. discriminate.
Qed.

Lemma toy_removal_processed :
  (process_message toy_clock (GroupMessageToServer [1]) toy_only_root).2 =
    Ok [Messages.mkMessageToSend [spki_hash toy_root; spki_hash toy_agent] (GroupMessageTransport [1])].
Proof. vm_compute. reflexivity. Qed.

Lemma server_groups_change_witness :
  ∃ msg commit, add_proposals commit = [] ∧ commit_change toy_clock toy_only_root msg commit.
Proof.
  destruct (server_groups_change toy_clock (GroupMessageToServer [1]) toy_only_root _ _
    (io_run _ _ _ toy_removal_processed))
    as [H|[(ng & H & _)|[(raw & msg & commit & _ & Ha & Hc)|(a & commit & H & _)]]].
  - destruct (toy_removal_changes H).
  - discriminate H.
  - exists msg, commit. split; [exact Ha|exact Hc].
  - discriminate H.
Defined.

Lemma group_commit_unreadable_witness :
  to_member_unpack (GroupMessageTransport [1]) = Err expected_private.
Proof.
  destruct (group_commit_unreadable toy_clock [1] toy_only_root _ _ (io_run _ _ _ toy_removal_processed)
    toy_removal_changes) as (rs & _ & H).
  exact H.
Defined.

Definition toy_addition : AddToGroupTransport := mkAddToGroupTransport [2] [8].

Lemma toy_addition_processed :
  (process_message toy_clock (AddToGroupToServer toy_addition) toy_only_root).2 =
    Ok [Messages.mkMessageToSend [spki_hash toy_root; spki_hash toy_agent] (AddToGroupTransportMember [2]);
        Messages.mkMessageToSend [spki_hash toy_user] (WelcomeTransport [8])].
Proof. vm_compute. reflexivity. Qed.

Lemma add_to_group_delivery_witness :
  ∃ a group members, add_to_group_unpack toy_addition = Ok a ∧
    lookup_group (processor toy_only_root) (message_group (PublicMessage (add_commit a))) =
      Ok (Some group) ∧ members_of group = Ok members.
Proof.
  destruct (add_to_group_delivery toy_clock toy_addition toy_only_root _ _ (io_run _ _ _ toy_addition_processed))
    as (a & group & members & H1 & H2 & H3 & _).
  exists a, group, members. split; [exact H1|]. split; [exact H2|exact H3].
Defined.

#[local] Instance toy_member_postcard : Postcard MessageToMemberTransport := {|
  to_stdvec m := match m with
    | WelcomeTransport b => Ok (0 :: b) | GroupMessageTransport b => Ok (1 :: b)
    | AddToGroupTransportMember b => Ok (2 :: b) end;
  from_bytes b := match b with
    | 0 :: b => Ok (WelcomeTransport b) | 1 :: b => Ok (GroupMessageTransport b)
    | 2 :: b => Ok (AddToGroupTransportMember b) | _ => Err "message"%string end;
|}.

Definition toy_handler : MlsMessageHandler (K := ToyRetriever) (V := OneOfVerififier) (Uuid := nat) :=
  mkMlsMessageHandler toy_only_root (Messages.mkMessageStore [] []) 0.

Definition toy_handle : io (MlsMessageHandler (K := ToyRetriever) (V := OneOfVerififier) (Uuid := nat))
    HandleFailure () :=
  handler_handle toy_clock id (mkCertificate toy_root) 7 (AddToGroupToServer toy_addition).

Lemma toy_handled : (toy_handle toy_handler).2 = Ok ().
Proof. vm_compute. reflexivity. Qed.

Lemma handle_skips_sender_witness :
  ∃ msgs, Messages.message_receivers (message_store (toy_handle toy_handler).1) =
    mjoin (imap (λ i, recorded (mkCertificate toy_root) i) msgs).
Proof.
  destruct (handle_skips_sender toy_clock id (mkCertificate toy_root) 7 (AddToGroupToServer toy_addition)
    toy_handler (toy_handle toy_handler).1 (io_run _ _ _ toy_handled)) as (msgs & _ & H).
  exists msgs. exact H.
Defined.
