(* ===== verification/MlsMember.v ===== *)
(** * The members' side of the messaging groups
    ([svalin_pki/src/mls/transport_types.rs], [processor.rs], [harness.rs],
    [client.rs], [agent.rs])

    Clients and agents hold the private half of their groups: they create and
    join groups, send and read messages, and follow the commits they have
    checked. *)
From S2P Require Import Prelude.
From S2P Require Import External.
From S2P Require Import Spki.
From S2P Require Import Certificate.
From S2P Require Import GroupId.
From S2P Require Import Verifiers.
From S2P Require Import Mls.
From S2P Require Import MlsServer.
From stdpp Require Import options.

(** ** [openmls] groups of a member

    A call on a group may change the group and what the provider stores,
    whether it succeeds or not. *)
Inductive MlsMessageBodyOut (Welcome GroupInfo : Type) :=
  | OutPublicMessage
  | OutPrivateMessage
  | OutWelcome (w : Welcome)
  | OutGroupInfo (g : GroupInfo)
  | OutOther.
Arguments OutPublicMessage {Welcome GroupInfo}.
Arguments OutPrivateMessage {Welcome GroupInfo}.
Arguments OutWelcome {Welcome GroupInfo} w.
Arguments OutGroupInfo {Welcome GroupInfo} g.
Arguments OutOther {Welcome GroupInfo}.

Class MlsPrivate `{Mls, MlsWire} := {
  MlsGroup : Type;
  MemberStorage : Type;
  StagedWelcome : Type;
  Welcome : Type;
  GroupInfo : Type;
  MlsMessageOut : Type;
  body : MlsMessageOut → MlsMessageBodyOut Welcome GroupInfo;
  serialize_message : MlsMessageOut → result ExtError (list Z);
  serialize_welcome : Welcome → result ExtError (list Z);
  serialize_group_info : GroupInfo → result ExtError (list Z);
  serialize_spki_hash : SpkiHash → result ExtError (list Z);
  credential_content : MlsCredential → list Z;
  group_load : MemberStorage → GroupId → result ExtError (option MlsGroup);
  group_id_of : MlsGroup → GroupId;
  group_members : MlsGroup → list MlsCredential;
  (** [member_at] and [member]. *)
  group_member : MlsGroup → LeafNodeIndex → option MlsCredential;
  build_key_package : io MemberStorage ExtError MlsKeyPackage;
  build_group : GroupId → io MemberStorage ExtError MlsGroup;
  export_group_info : MlsGroup → result ExtError MlsMessageOut;
  (** The commit builder up to [stage_commit]: the welcome and group info. *)
  stage_adds : list MlsKeyPackage →
    io (MlsGroup * MemberStorage) ExtError (option Welcome * option GroupInfo);
  add_members : list MlsKeyPackage →
    io (MlsGroup * MemberStorage) ExtError (MlsMessageOut * MlsMessageOut);
  merge_pending_commit : io (MlsGroup * MemberStorage) ExtError ();
  merge_staged_commit : StagedCommit → io (MlsGroup * MemberStorage) ExtError ();
  stage_welcome : WelcomeIn → io MemberStorage ExtError StagedWelcome;
  staged_group_id : StagedWelcome → GroupId;
  staged_members : StagedWelcome → list MlsCredential;
  into_group : StagedWelcome → io MemberStorage ExtError MlsGroup;
  group_create_message : list Z → io (MlsGroup * MemberStorage) ExtError MlsMessageOut;
  group_process_message : ProtocolMessageIn →
    io (MlsGroup * MemberStorage) ExtError (Sender * ProcessedMessageContent StagedCommit);
}.

(** ** What is sent to the server *)
Section transport.
Context `{MlsPrivate}.

Definition transport_message (mls_message : MlsMessageOut) : result ExtError MessageToServerTransport :=
  match body mls_message with
  | OutPrivateMessage => b ← serialize_message mls_message; Ok (GroupMessageToServer b)
  | _ => Err expected_private
  end.

Definition transport_new_device_group (group_info : GroupInfo) (welcome : option Welcome) :
    result ExtError MessageToServerTransport :=
  welcome ← match welcome with
            | Some welcome => w ← serialize_welcome welcome; Ok (Some w)
            | None => Ok None
            end;
  info ← serialize_group_info group_info;
  Ok (NewDeviceGroupToServer (mkNewGroupTransport info welcome)).

Definition expected_public : ExtError := "Expected a Public MLS message, but got something else".
Definition expected_welcome : ExtError := "Expected a Welcome message, but got something else".

Definition transport_add_to_group (commit welcome : MlsMessageOut) :
    result ExtError MessageToServerTransport :=
  match body commit with
  | OutPublicMessage =>
      match body welcome with
      | OutWelcome welcome =>
          c ← serialize_message commit;
          w ← serialize_welcome welcome;
          Ok (AddToGroupToServer (mkAddToGroupTransport c w))
      | _ => Err expected_welcome
      end
  | _ => Err expected_public
  end.

(** ** The processor ([processor.rs])

    Like the server's it runs in a task of its own, which is gone once a
    request unwinds. *)
Record MlsProcessor := mkMlsProcessor {
  member_cache : gmap GroupId MlsGroup;
  member_storage : MemberStorage;
  member_certificate : Certificate;
  member_running : bool;
}.

Inductive MemberContent :=
  | MemberMessage (m : list Z)
  | MemberCommit (commit : StagedCommit).

Record MemberProcessed := mkMemberProcessed {
  member_group_id : GroupId;
  member_sender : SpkiHash;
  member_content : MemberContent;
}.

Definition member_call {A} (m : io MlsProcessor MlsFailure A) : io MlsProcessor MlsFailure A := λ p,
  if member_running p then
    match m p with
    | (p, Panic) =>
        (mkMlsProcessor (member_cache p) (member_storage p) (member_certificate p) false, Err FailRecv)
    | r => r
    end
  else (p, Err FailRecv).

Definition on_member_storage {A} (m : io MemberStorage ExtError A) : io MlsProcessor MlsFailure A := λ p,
  let '(s, r) := m (member_storage p) in
  (mkMlsProcessor (member_cache p) s (member_certificate p) (member_running p), map_err FailMls r).

Definition cache_group (group_id : GroupId) (group : MlsGroup) : io MlsProcessor MlsFailure () := λ p,
  (mkMlsProcessor (<[ group_id := group ]> (member_cache p)) (member_storage p)
     (member_certificate p) (member_running p), Ok ()).

(** A call on a group that is an entry of the cache. *)
Definition on_cached {A} (group_id : GroupId) (group : MlsGroup)
    (m : io (MlsGroup * MemberStorage) ExtError A) : io MlsProcessor MlsFailure (MlsGroup * A) := λ p,
  let '((group, s), r) := m (group, member_storage p) in
  (mkMlsProcessor (<[ group_id := group ]> (member_cache p)) s (member_certificate p) (member_running p),
   pair group <$> map_err FailMls r).

Definition member_get_group (group_id : GroupId) : io MlsProcessor MlsFailure MlsGroup := λ p,
  match member_cache p !! group_id with
  | Some group => (p, Ok group)
  | None =>
      match group_load (member_storage p) group_id with
      | Ok (Some mls_group) =>
          (mkMlsProcessor (<[ group_id := mls_group ]> (member_cache p)) (member_storage p)
             (member_certificate p) (member_running p), Ok mls_group)
      | Ok None => (p, Err FailUnknownGroup)
      | Err e => (p, Err (FailStorage e))
      | Panic => (p, Panic)
      end
  end.

Definition create_key_package : io MlsProcessor MlsFailure KeyPackage :=
  mls_key_package ← on_member_storage build_key_package;
  p ← io_get;
  io_result (map_err FailKeyPackage (key_package_new (member_certificate p) mls_key_package)).

Definition create_group (members : list KeyPackage) (group_id : GroupId) :
    io MlsProcessor MlsFailure MessageToServerTransport :=
  group ← on_member_storage (build_group group_id);
  _ ← cache_group group_id group;
  match members with
  | [] =>
      group_info ← io_result (map_err FailMls (export_group_info group));
      match body group_info with
      | OutGroupInfo group_info => io_result (map_err FailCodec (transport_new_device_group group_info None))
      | _ => io_result Panic
      end
  | _ :: _ =>
      '(group, (welcome, group_info)) ← on_cached group_id group (stage_adds (key_package <$> members));
      group_info ← io_result (expect group_info);
      welcome ← io_result (expect welcome);
      _ ← on_cached group_id group merge_pending_commit;
      io_result (map_err FailCodec (transport_new_device_group group_info (Some welcome)))
  end.

Definition stage_join (welcome : WelcomeIn) : io MlsProcessor MlsFailure StagedWelcome :=
  on_member_storage (stage_welcome welcome).

Definition join_group (welcome : StagedWelcome) : io MlsProcessor MlsFailure () :=
  group ← on_member_storage (into_group welcome);
  cache_group (group_id_of group) group.

Definition create_message (group_id : GroupId) (message : list Z) :
    io MlsProcessor MlsFailure MessageToServerTransport :=
  group ← member_get_group group_id;
  '(_, message) ← on_cached group_id group (group_create_message message);
  match body message with
  | OutPrivateMessage => io_result (map_err FailCodec (transport_message message))
  | _ => io_result Panic
  end.

Definition member_process_message (message : ProtocolMessageIn) :
    io MlsProcessor MlsFailure MemberProcessed :=
  let group_id := message_group message in
  group ← member_get_group group_id;
  '(group, (sender, content)) ← on_cached group_id group (group_process_message message);
  match sender with
  | Member sender =>
      member ← io_result (expect (group_member group sender));
      sender ← io_result (map_err FailCodec (deserialized member));
      match content with
      | ApplicationMessage m => mret (mkMemberProcessed group_id sender (MemberMessage m))
      | ProposalMessage => io_err (Bail "group message contained forbidden message type")
      | ExternalJoinProposalMessage => io_err (Bail "group message contained forbidden message type")
      | StagedCommitMessage commit => mret (mkMemberProcessed group_id sender (MemberCommit commit))
      end
  | _ => io_err (Bail "invalid sender")
  end.

Definition group_exists (group_id : GroupId) : io MlsProcessor MlsFailure bool := λ p,
  match member_get_group group_id p with
  | (p, Ok _) => (p, Ok true)
  | (p, Err FailUnknownGroup) => (p, Ok false)
  | (p, Err e) => (p, Err e)
  | (p, Panic) => (p, Panic)
  end.

Definition is_member (group_id : GroupId) (spki_hash : SpkiHash) : io MlsProcessor MlsFailure bool :=
  group ← member_get_group group_id;
  serialized ← io_result (map_err FailCodec (serialize_spki_hash spki_hash));
  mret (existsb (λ member, bool_decide (credential_content member = serialized)) (group_members group)).

Definition add_member (group_id : GroupId) (key_package : KeyPackage) :
    io MlsProcessor MlsFailure MessageToServerTransport :=
  group ← member_get_group group_id;
  '(group, (commit, welcome)) ← on_cached group_id group (add_members [Mls.key_package key_package]);
  _ ← on_cached group_id group merge_pending_commit;
  io_result (map_err FailCodec (transport_add_to_group commit welcome)).

Definition member_get_member (group_id : GroupId) (index : LeafNodeIndex) :
    io MlsProcessor MlsFailure SpkiHash :=
  group ← member_get_group group_id;
  member ← io_result (ok_or (group_member group index) (Bail "group member not found"));
  io_result (map_err FailCodec (deserialized member)).

Definition member_commit (commit : StagedCommit) : io MlsProcessor MlsFailure () :=
  group ← member_get_group (commit_group_id commit);
  _ ← on_cached (commit_group_id commit) group (merge_staged_commit commit);
  mret ().

#[global] Instance member_processor : AnyMlsProcessor MlsProcessor := {|
  get_member group_id index := member_call (member_get_member group_id index);
|}.

(** The group the processor works with. *)
Definition member_lookup (p : MlsProcessor) (group_id : GroupId) : result ExtError (option MlsGroup) :=
  match member_cache p !! group_id with
  | Some group => Ok (Some group)
  | None => group_load (member_storage p) group_id
  end.

Definition same_member_groups (p p' : MlsProcessor) : Prop :=
  member_storage p = member_storage p' ∧ ∀ g, member_lookup p g = member_lookup p' g.

Definition group_member_at (p : MlsProcessor) (group_id : GroupId) (index : LeafNodeIndex)
    (h : SpkiHash) : Prop :=
  ∃ group member, member_lookup p group_id = Ok (Some group) ∧ group_member group index = Some member ∧
    deserialized member = Ok h.

#[global] Instance same_member_groups_equiv : Equivalence same_member_groups.
Proof.
  split; [done| |].
  - intros p p' [E Hg]. split; [done|]. intros g. by rewrite Hg.
  - intros p1 p2 p3 [E1 H1'] [E2 H2']. split; [congruence|]. intros g. by rewrite H1', H2'.
Qed.

Lemma member_get_group_keeps g : keeps same_member_groups (member_get_group g).
Proof.
  intros p p' r. unfold member_get_group. destruct (member_cache p !! g) as [x|] eqn:Hc; [by intros [= -> _]|].
  destruct (group_load (member_storage p) g) as [[x|]|e|] eqn:Hl; intros [= <- _]; try done.
  split; [done|]. intros g'. unfold member_lookup. cbn. destruct (decide (g = g')) as [<-|].
  - by rewrite lookup_insert_eq, Hc, Hl.
  - by rewrite lookup_insert_ne.
Qed.

Lemma member_get_group_inv g p p' group :
  member_get_group g p = (p', Ok group) →
  member_lookup p g = Ok (Some group) ∧ member_storage p' = member_storage p.
Proof.
  unfold member_get_group, member_lookup. destruct (member_cache p !! g); [by intros [= -> ->]|].
  destruct (group_load _ _) as [[x|]|e|]; intros [=]. by subst.
Qed.

Lemma member_call_keeps {A} (m : io MlsProcessor MlsFailure A) :
  keeps same_member_groups m → keeps same_member_groups (member_call m).
Proof.
  intros Hm p p' r. unfold member_call. destruct (member_running p); [|by intros [= -> _]].
  destruct (m p) as [p1 [a|e|]] eqn:Hp; intros [= <- _]; apply Hm in Hp; done.
Qed.

Lemma member_call_inv {A} (m : io MlsProcessor MlsFailure A) p p' a :
  member_call m p = (p', Ok a) → m p = (p', Ok a).
Proof. unfold member_call. destruct (member_running p); [|done]. by destruct (m p) as [p1 [x|e|]]. Qed.

#[local] Hint Resolve member_get_group_keeps member_call_keeps : keeps.

#[global] Program Instance member_processor_laws : AnyMlsProcessorLaws MlsProcessor := {|
  same_groups := same_member_groups;
  member_at := group_member_at;
|}.
Next Obligation.
  intros p p' [_ E] g ? <- i ? <- h ? <-. unfold group_member_at. by setoid_rewrite E.
Qed.
Next Obligation. intros g i. apply member_call_keeps. unfold member_get_member. keep. Qed.
Next Obligation.
  intros g i p p' h (p1 & group & Hg & Hk)%member_call_inv%io_bind_inv.
  apply io_bind_inv in Hk as (p2 & leaf & [= <- Hl%ok_or_Ok] & [= _ Hd%map_err_Ok]).
  exists group, leaf. split_and!; try done. by eapply member_get_group_inv.
Qed.
End transport.

(** ** Clients ([client.rs]) and agents ([agent.rs]) *)
Inductive SvalinMessage (Report MetaInfo : Type) :=
  | ReportMessage (report : Report)
  | MetaInfoMessage (meta_info : MetaInfo).
Arguments ReportMessage {Report MetaInfo} report.
Arguments MetaInfoMessage {Report MetaInfo} meta_info.

Inductive MessageDataContent (Report MetaInfo : Type) :=
  | DataReport (device : SpkiHash) (report : Report)
  | DataMetaInfo (device : SpkiHash) (meta_info : MetaInfo)
  | Internal.
Arguments DataReport {Report MetaInfo} device report.
Arguments DataMetaInfo {Report MetaInfo} device meta_info.
Arguments Internal {Report MetaInfo}.

Record MessageData (Report MetaInfo : Type) := mkMessageData {
  data_group : SvalinGroupId;
  data_content : MessageDataContent Report MetaInfo;
}.
Arguments mkMessageData {Report MetaInfo} _ _.
Arguments data_group {Report MetaInfo} _.
Arguments data_content {Report MetaInfo} _.

Inductive HandleWelcomeError :=
  | WelcomeJoinGroup (e : MlsFailure)
  | WelcomeParse (e : ParseGroupIdError)
  | WelcomeRetriever (e : RetrieverError)
  | WelcomeCodec (e : ExtError)
  | IncorrectMembers
  | WelcomeVerify (e : VerifyError)
  | WelcomeCertificateType.

Inductive ClientFailure :=
  | ClientMls (e : MlsFailure)
  | ClientWelcome (e : HandleWelcomeError)
  | ClientCreateGroup (e : RequiredPackagesError)
  | ClientPostcard (e : ExtError).

(** [MlsClient::new] and [MlsAgent::new] take these certificates. *)
Definition client_certificate_ok (t : CertificateType) : bool :=
  match t with Root | User | UserSession => true | _ => false end.
Definition agent_certificate_ok (t : CertificateType) : bool :=
  bool_decide (t = Agent).

Section member.
Context `{MlsPrivate} `{Hex} {K : Type} `{!KeyRetriever K} `{Verifier V}.
Context {Report MetaInfo : Type} `{!Postcard (SvalinMessage Report MetaInfo)}.
Context (clock : nat → Z).

(** A client or agent: its harness; [me] is the hash of its certificate. *)
Definition MlsNode : Type := MlsHarness K V MlsProcessor.

Definition on_member {A} (m : io MlsProcessor MlsFailure A) : io MlsNode MlsFailure A :=
  on_processor (member_call m).

(** *** Creating groups ([harness.rs]) *)
Definition create_group_if_not_exists (group_id : SvalinGroupId) (me : SpkiHash) :
    io MlsNode ClientFailure (option MessageToServerTransport) :=
  exists_ ← io_map_err ClientMls (on_member (group_exists (to_group_id group_id)));
  if exists_ : bool then mret None
  else
    members ← io_map_err ClientCreateGroup (get_required_key_packages clock group_id me);
    new_group ← io_map_err ClientMls (on_member (create_group members (to_group_id group_id)));
    mret (Some new_group).

Definition create_meta_group_if_missing (me spki_hash : SpkiHash) :
    io MlsNode ClientFailure (option MessageToServerTransport) :=
  '(certificate : Certificate) ←
    io_map_err (λ e, ClientMls (FailVerify e)) (harness_verify clock spki_hash);
  if bool_decide (certificate_type certificate ≠ Agent) then
    io_err (ClientMls (Bail "wrong spki hash type"))
  else create_group_if_not_exists (DeviceMetaGroup spki_hash) me.

Definition create_device_group_if_missing (me : SpkiHash) :
    io MlsNode ClientFailure (option MessageToServerTransport) :=
  create_group_if_not_exists (DeviceGroup me) me.

(** *** Sending *)
Definition send_meta_info (spki_hash : SpkiHash) (metainfo : MetaInfo) :
    io MlsNode ClientFailure MessageToServerTransport :=
  encoded ← io_result (map_err ClientPostcard
    (to_stdvec (MetaInfoMessage metainfo : SvalinMessage Report MetaInfo)));
  io_map_err ClientMls (on_member (create_message (to_group_id (DeviceMetaGroup spki_hash)) encoded)).

Definition send_report (me : SpkiHash) (report : Report) :
    io MlsNode ClientFailure MessageToServerTransport :=
  encoded ← io_result (map_err ClientPostcard
    (to_stdvec (ReportMessage report : SvalinMessage Report MetaInfo)));
  io_map_err ClientMls (on_member (create_message (to_group_id (DeviceGroup me)) encoded)).

(** *** Receiving *)
Definition check_welcome_device (spki_hash : SpkiHash) : io MlsNode HandleWelcomeError () :=
  '(certificate : Certificate) ← io_map_err WelcomeVerify (harness_verify clock spki_hash);
  if bool_decide (certificate_type certificate ≠ Agent) then io_err WelcomeCertificateType else mret ().

(** [MlsClient::handle_welcome]. *)
Definition handle_welcome (welcome : WelcomeIn) : io MlsNode HandleWelcomeError SvalinGroupId :=
  staged ← io_map_err WelcomeJoinGroup (on_member (stage_join welcome));
  id ← io_result (map_err WelcomeParse (from_group_id (staged_group_id staged)));
  _ ← match id with
      | DeviceGroup spki_hash => check_welcome_device spki_hash
      | DeviceMetaGroup spki_hash => check_welcome_device spki_hash
      | GlobalGroup => mret ()
      end;
  required_members ← io_map_err WelcomeRetriever (harness_required_members clock id);
  members ← io_result (map_err WelcomeCodec (collectM deserialized (staged_members staged)));
  _ ← io_iter (λ required, io_result (ensure (bool_decide (required ∈ members)) IncorrectMembers))
        required_members;
  _ ← io_map_err WelcomeJoinGroup (on_member (join_group staged));
  mret id.

Definition member_svalin_id (processed : MemberProcessed) : io MlsNode MlsFailure SvalinGroupId :=
  io_result (map_err FailGroupId (from_group_id (member_group_id processed))).

(** The reading of a data message in [MlsClient::handle_message]. *)
Definition read_data (group_id : SvalinGroupId) (sender : SpkiHash)
    (decoded : SvalinMessage Report MetaInfo) : result MlsFailure (MessageData Report MetaInfo) :=
  match decoded with
  | ReportMessage report =>
      match group_id with
      | DeviceGroup device =>
          if bool_decide (device ≠ sender) then
            Err (Bail "only the device itself can send reports to its group")
          else Ok (mkMessageData group_id (DataReport device report))
      | _ => Err (Bail "unallowed message type")
      end
  | MetaInfoMessage meta_info =>
      match group_id with
      | DeviceMetaGroup device => Ok (mkMessageData group_id (DataMetaInfo device meta_info))
      | _ => Err (Bail "unallowed message type")
      end
  end.

Definition client_handle_group_message (message : PrivateMessageIn) :
    io MlsNode MlsFailure (MessageData Report MetaInfo) :=
  processed ← on_member (member_process_message (PrivateMessage message));
  group_id ← member_svalin_id processed;
  match member_content processed with
  | MemberMessage decrypted =>
      decoded ← io_result (map_err FailCodec (from_bytes decrypted));
      io_result (read_data group_id (member_sender processed) decoded)
  | MemberCommit _ => io_err (Bail "expected data message, got something else instead.")
  end.

(** What clients and agents do with an addition; an agent's group is its own. *)
Definition member_handle_add_to_group (expected : option SvalinGroupId) (message : PublicMessageIn) :
    io MlsNode MlsFailure SvalinGroupId :=
  processed ← on_member (member_process_message (PublicMessage message));
  group_id ← member_svalin_id processed;
  match member_content processed with
  | MemberCommit commit =>
      _ ← io_result (ensure (match expected with
                             | Some my_device_group => bool_decide (group_id = my_device_group)
                             | None => true
                             end) (Bail "received message for unexpected group"));
      _ ← check_commit clock group_id commit;
      _ ← on_member (member_commit commit);
      mret group_id
  | MemberMessage _ => io_err (Bail "Expected a commit message")
  end.

Definition client_handle_add_to_group (message : PublicMessageIn) :
    io MlsNode MlsFailure (MessageData Report MetaInfo) :=
  group_id ← member_handle_add_to_group None message;
  mret (mkMessageData group_id Internal).

(** [MlsClient::handle_message]. *)
Definition client_handle_message (message : MessageToMemberTransport) :
    io MlsNode ClientFailure (MessageData Report MetaInfo) :=
  message ← io_result (map_err (λ e, ClientMls (FailCodec e)) (to_member_unpack message));
  match message with
  | MemberWelcome welcome =>
      group ← io_map_err ClientWelcome (handle_welcome welcome);
      mret (mkMessageData group Internal)
  | MemberGroupMessage message => io_map_err ClientMls (client_handle_group_message message)
  | MemberAddToGroup message => io_map_err ClientMls (client_handle_add_to_group message)
  end.

(** [MlsAgent::handle_message]: two of the cases are [todo!]. *)
Definition agent_handle_message (me : SpkiHash) (message : MessageToMemberTransport) :
    io MlsNode ClientFailure () :=
  message ← io_result (map_err (λ e, ClientMls (FailCodec e)) (to_member_unpack message));
  match message with
  | MemberWelcome _ => io_result Panic
  | MemberGroupMessage _ => io_result Panic
  | MemberAddToGroup message =>
      _ ← io_map_err ClientMls (member_handle_add_to_group (Some (DeviceGroup me)) message);
      mret ()
  end.

(** *** Lemmas *)
Implicit Types h : MlsNode.

Lemma on_member_inv {A} (m : io MlsProcessor MlsFailure A) h h' a :
  on_member m h = (h', Ok a) → verifier h' = verifier h ∧ m (processor h) = (processor h', Ok a).
Proof.
  unfold on_member, on_processor. destruct (member_call m (processor h)) as [p r] eqn:Hp.
  intros [= <- ->]. split; [done|]. by apply member_call_inv.
Qed.

(** MLS attributes the message to a leaf of its group whose credential names
    [sender]. *)
Definition sent_by (p : MlsProcessor) (msg : ProtocolMessageIn) (sender : SpkiHash) : Prop :=
  ∃ group group' s index content member,
    member_lookup p (message_group msg) = Ok (Some group) ∧
    group_process_message msg (group, member_storage p) = ((group', s), Ok (Member index, content)) ∧
    group_member group' index = Some member ∧ deserialized member = Ok sender.

Lemma on_cached_inv {A} g group (m : io (MlsGroup * MemberStorage) ExtError A) p p' group' a :
  on_cached g group m p = (p', Ok (group', a)) →
  m (group, member_storage p) = ((group', member_storage p'), Ok a) ∧
  member_cache p' = <[ g := group' ]> (member_cache p).
Proof.
  unfold on_cached. destruct (m _) as [[group1 s] [b|e|]]; cbn; by intros [= <- -> ->] || intros [=].
Qed.

Lemma member_process_inv msg p p' processed :
  member_process_message msg p = (p', Ok processed) →
  member_group_id processed = message_group msg ∧ sent_by p msg (member_sender processed).
Proof.
  intros (p1 & group & [Hl Hs]%member_get_group_inv & Hk)%io_bind_inv.
  apply io_bind_inv in Hk as (p2 & [group' [sender content]] & Hg%on_cached_inv & Hk).
  destruct sender as [index| | |]; try done. destruct Hg as [Hg _]. rewrite Hs in Hg.
  apply io_bind_inv in Hk as (p3 & member & [= <- Hm%expect_Ok] & Hk).
  apply io_bind_inv in Hk as (p4 & h & [= <- Hd%map_err_Ok] & Hk).
  assert (member_group_id processed = message_group msg ∧ member_sender processed = h) as [Hid ->].
  { destruct content; try done; by injection Hk as _ <-. }
  split; [done|]. by exists group, group', (member_storage p2), index, content, member.
Qed.

Lemma client_data_source m h h' d :
  client_handle_message m h = (h', Ok d) →
  (∀ device report, data_content d = DataReport device report →
     data_group d = DeviceGroup device ∧
     ∃ pm, to_member_unpack m = Ok (MemberGroupMessage pm) ∧
       from_group_id (message_group (PrivateMessage pm)) = Ok (DeviceGroup device) ∧
       sent_by (processor h) (PrivateMessage pm) device) ∧
  (∀ device meta_info, data_content d = DataMetaInfo device meta_info →
     data_group d = DeviceMetaGroup device ∧
     ∃ pm sender, to_member_unpack m = Ok (MemberGroupMessage pm) ∧
       from_group_id (message_group (PrivateMessage pm)) = Ok (DeviceMetaGroup device) ∧
       sent_by (processor h) (PrivateMessage pm) sender).
Proof.
  intros (h0 & x & [= <- Hu%map_err_Ok] & Hp)%io_bind_inv. destruct x as [w|pm|pm].
  - apply io_bind_inv in Hp as (h1 & g & _ & [= _ <-]). split; by intros ?? [=].
  - apply io_map_err_inv in Hp. apply io_bind_inv in Hp as (h1 & p & Hpr & Hp).
    apply on_member_inv in Hpr as [_ [Hid Hsent]%member_process_inv].
    apply io_bind_inv in Hp as (h2 & g & [= <- Hg%map_err_Ok] & Hp). rewrite Hid in Hg.
    destruct (member_content p) as [dec|c]; [|done].
    apply io_bind_inv in Hp as (h3 & decoded & [= <- _] & [= _ Hr]).
    unfold read_data in Hr. destruct decoded as [report|info], g as [|dev|dev]; try done.
    + case_bool_decide as Hdev; [done|]. injection Hr as <-. cbn. split; [|by intros ?? [=]].
      intros ?? [= <- <-]. split; [done|]. exists pm. rewrite Hdev at 2. done.
    + injection Hr as <-. cbn. split; [by intros ?? [=]|].
      intros ?? [= <- <-]. split; [done|]. by exists pm, (member_sender p).
  - apply io_map_err_inv in Hp. apply io_bind_inv in Hp as (h1 & g & _ & [= _ <-]).
    split; by intros ?? [=].
Qed.

(** C20: A client believes a report only from the device itself, in the
    device's own group, and meta information only in a meta group: the sender
    is the member whose leaf MLS attributes the message to. *)
Theorem client_data_attributed m h h' d :
  client_handle_message m h = (h', Ok d) →
  (∀ device report, data_content d = DataReport device report →
     data_group d = DeviceGroup device ∧
     ∃ pm, to_member_unpack m = Ok (MemberGroupMessage pm) ∧
       from_group_id (message_group (PrivateMessage pm)) = Ok (DeviceGroup device) ∧
       sent_by (processor h) (PrivateMessage pm) device) ∧
  (∀ device meta_info, data_content d = DataMetaInfo device meta_info →
     data_group d = DeviceMetaGroup device ∧
     ∃ pm sender, to_member_unpack m = Ok (MemberGroupMessage pm) ∧
       from_group_id (message_group (PrivateMessage pm)) = Ok (DeviceMetaGroup device) ∧
       sent_by (processor h) (PrivateMessage pm) sender).
Proof. apply client_data_source. Qed.

(** After processing a message, an approved commit of the expected group was
    merged. *)
Definition followed (expected : option SvalinGroupId) (pm : PublicMessageIn) (h : MlsNode)
    (id : SvalinGroupId) : Prop :=
  (∀ g, expected = Some g → id = g) ∧
  from_group_id (message_group (PublicMessage pm)) = Ok id ∧
  ∃ p processed commit required,
    member_process_message (PublicMessage pm) (processor h) = (p, Ok processed) ∧
    member_content processed = MemberCommit commit ∧ retrieved (K := K) id required ∧
    commit_approved clock (verifier h) p id required commit.

Lemma member_handle_add_inv expected pm h h' id :
  member_handle_add_to_group expected pm h = (h', Ok id) → followed expected pm h id.
Proof.
  intros (h1 & p & Hpr & Hp)%io_bind_inv.
  apply on_member_inv in Hpr as [Hv1 Hpr]. pose proof (member_process_inv _ _ _ _ Hpr) as [Hid _].
  apply io_bind_inv in Hp as (h2 & g & [= <- Hg%map_err_Ok] & Hp). rewrite Hid in Hg.
  destruct (member_content p) as [dec|commit] eqn:Hc; [done|].
  apply io_bind_inv in Hp as (h3 & [] & [= <- Hexp%ensure_Ok] & Hp).
  apply io_bind_inv in Hp as (h4 & [] & Hck & Hp).
  apply io_bind_inv in Hp as (h5 & [] & _ & [= _ <-]).
  destruct (check_commit_approved _ _ _ _ _ _ Hck) as (_ & req & Hreq & Hap).
  split; [|split; [done|]].
  - intros g' ->. by apply bool_decide_eq_true in Hexp.
  - exists (processor h1), p, commit, req. split_and!; try done. by rewrite <-Hv1.
Qed.

(** An agent answers only additions: it follows a commit when that is for
    its own group and the checks approve it, and any other kind of message
    that it can unpack makes it unwind. *)
Theorem agent_handles_additions_only me m h h' r :
  agent_handle_message me m h = (h', r) →
  (r = Ok () → ∃ pm, to_member_unpack m = Ok (MemberAddToGroup pm) ∧
     followed (Some (DeviceGroup me)) pm h (DeviceGroup me)) ∧
  (∀ w, to_member_unpack m = Ok (MemberWelcome w) → r = Panic) ∧
  (∀ pm, to_member_unpack m = Ok (MemberGroupMessage pm) → r = Panic).
Proof.
  intros Ha. split_and!.
  - intros ->. apply io_bind_inv in Ha as (h0 & x & [= <- Hu%map_err_Ok] & Ha).
    destruct x as [w|pm|pm]; try done. exists pm. split; [done|].
    apply io_bind_inv in Ha as (h1 & g & Hg%io_map_err_inv%member_handle_add_inv & _).
    pose proof (proj1 Hg _ eq_refl) as ->. done.
  - intros w Hw. unfold agent_handle_message in Ha. rewrite Hw in Ha. by injection Ha as _ <-.
  - intros pm Hpm. unfold agent_handle_message in Ha. rewrite Hpm in Ha. by injection Ha as _ <-.
Qed.

Lemma check_welcome_device_inv d h h' u :
  check_welcome_device d h = (h', Ok u) →
  ∃ c, accepted clock (verifier h) d c ∧ certificate_type c = Agent.
Proof.
  intros (h1 & c & Hc%io_map_err_inv%harness_verify_inv & Hk)%io_bind_inv.
  case_bool_decide as Ht; [done|]. by exists c.
Qed.

Lemma iter_ensure {S E A} (P : A → bool) (e : E) l (s s' : S) u :
  io_iter (λ a, io_result (ensure (P a) e)) l s = (s', Ok u) → s' = s ∧ Forall (λ a, P a = true) l.
Proof.
  intros Hi. apply (io_iter_Forall eq (λ a, P a = true)) in Hi as [-> Hf]; [done|].
  intros a s1 s2 v -> [= -> He%ensure_Ok]. done.
Qed.

(** C21: A client joins a group only if it is the group of an agent it
    accepts, or the global one, and everybody required is a member; the group
    it joins is the one it then works with. *)
Theorem join_requires_members w h h' id :
  handle_welcome w h = (h', Ok id) →
  ∃ staged members required,
    from_group_id (staged_group_id staged) = Ok id ∧
    collectM deserialized (staged_members staged) = Ok members ∧
    retrieved (K := K) id required ∧ (∀ m, m ∈ required → m ∈ members) ∧
    (∀ device, id = DeviceGroup device ∨ id = DeviceMetaGroup device →
       ∃ c, accepted clock (verifier h) device c ∧ certificate_type c = Agent) ∧
    ∃ s s' group, into_group staged s = (s', Ok group) ∧
      member_lookup (processor h') (group_id_of group) = Ok (Some group).
Proof.
  intros (h1 & staged & Hst%io_map_err_inv & Hp)%io_bind_inv.
  apply on_member_inv in Hst as [Hv1 _].
  apply io_bind_inv in Hp as (h2 & g & [= <- Hg%map_err_Ok] & Hp).
  apply io_bind_inv in Hp as (h3 & [] & Hdev & Hp).
  apply io_bind_inv in Hp as (h4 & req & Hreq%io_map_err_inv & Hp).
  apply io_bind_inv in Hp as (h5 & members & [= <- Hms%map_err_Ok] & Hp).
  apply io_bind_inv in Hp as (h6 & [] & [-> Hall]%iter_ensure & Hp).
  apply io_bind_inv in Hp as (h7 & [] & Hj%io_map_err_inv & [= <- <-]).
  exists staged, members, req. split_and!; [done|done|by eapply required_inv| | |].
  - intros m Hm. rewrite Forall_forall in Hall. apply Hall in Hm. by apply bool_decide_eq_true in Hm.
  - rewrite <-Hv1. intros d [-> | ->]; by eapply check_welcome_device_inv.
  - apply on_member_inv in Hj as [_ Hj]. apply io_bind_inv in Hj as (p1 & group & Hin & [= Hp]).
    unfold on_member_storage in Hin. destruct (into_group staged _) as [s' r] eqn:Hi.
    injection Hin as <- Hr%map_err_Ok. subst r. eexists _, s', group. split; [exact Hi|].
    rewrite <-Hp. unfold member_lookup. cbn. by rewrite lookup_insert_eq.
Qed.

Lemma group_exists_inv g p p' b :
  group_exists g p = (p', Ok b) →
  if b then is_Some (member_cache p' !! g) else member_lookup p g = Ok None.
Proof.
  unfold group_exists, member_get_group, member_lookup.
  destruct (member_cache p !! g) as [x|] eqn:Hc; [intros [= <- <-]; by rewrite Hc|].
  destruct (group_load _ _) as [[x|]|e|]; try by intros [= <- <-].
  - intros [= <- <-]. cbn. rewrite lookup_insert_eq. by eexists.
Qed.

Lemma transport_new_device_group_inv info w t :
  transport_new_device_group info w = Ok t →
  ∃ ng, t = NewDeviceGroupToServer ng ∧ (transport_welcome ng = None ↔ w = None).
Proof.
  intros (w' & Hw & (i & _ & [= <-])%bind_Ok)%bind_Ok. eexists. split; [done|]. cbn.
  destruct w; [by apply bind_Ok in Hw as (x & _ & [= <-])|by injection Hw as <-].
Qed.

Lemma create_group_inv kps g p p' t :
  create_group kps g p = (p', Ok t) →
  is_Some (member_cache p' !! g) ∧
  ∃ ng, t = NewDeviceGroupToServer ng ∧ (transport_welcome ng = None ↔ kps = []).
Proof.
  intros (p1 & group & _ & Hk)%io_bind_inv.
  apply io_bind_inv in Hk as (p2 & [] & [= <-] & Hk). destruct kps as [|kp kps].
  - apply io_bind_inv in Hk as (p3 & info & [= <- _] & Hk). cbn.
    destruct (body info) as [| |x|gi|]; try by injection Hk. injection Hk as <- Ht.
    apply map_err_Ok, transport_new_device_group_inv in Ht as (ng & -> & Hw). cbn.
    rewrite lookup_insert_eq. split; [by eexists|]. exists ng. split; [done|]. by rewrite Hw.
  - apply io_bind_inv in Hk as (p3 & [group' [w gi]] & [_ Hc3]%on_cached_inv & Hk).
    apply io_bind_inv in Hk as (p4 & gi' & [= <- _] & Hk).
    apply io_bind_inv in Hk as (p5 & w' & [= <- _] & Hk).
    apply io_bind_inv in Hk as (p6 & [group'' u] & [_ Hc6]%on_cached_inv & [= <- Ht]).
    apply map_err_Ok, transport_new_device_group_inv in Ht as (ng & -> & Hw).
    rewrite Hc6, lookup_insert_eq. split; [by eexists|]. exists ng. split; [done|]. by rewrite Hw.
Qed.

(** A group is created at most once and starts with verified members: if
    it exists nothing is sent and the member works with it; otherwise it was
    unknown, it is in use from then on, all key packages in it passed
    verification, and a welcome is sent exactly if there are any. *)
Theorem group_created_once `{!VerifierLaws V} g me h h' r :
  verifier_ok (verifier h) →
  create_group_if_not_exists g me h = (h', Ok r) →
  is_Some (member_cache (processor h') !! to_group_id g) ∧
  ∀ t, r = Some t →
    member_lookup (processor h) (to_group_id g) = Ok None ∧
    ∃ kps ng, t = NewDeviceGroupToServer ng ∧ (transport_welcome ng = None ↔ kps = []) ∧
      Forall (λ kp, package_ok kp ∧
        accepted clock (verifier h) (package_owner kp) (key_package_certificate kp)) kps.
Proof.
  intros Hv (h1 & b & Hb%io_map_err_inv & Hk)%io_bind_inv.
  apply on_member_inv in Hb as [Hv1 Hb%group_exists_inv]. destruct b.
  - injection Hk as <- <-. split; [done|]. by intros t [=].
  - apply io_bind_inv in Hk as (h2 & kps & Hkps%io_map_err_inv & Hk).
    apply io_bind_inv in Hk as (h3 & ng & Hng%io_map_err_inv & [= <- <-]).
    rewrite <-Hv1 in Hv.
    destruct (required_packages_verified clock _ _ _ _ _ Hv Hkps) as (_ & _ & Hall).
    apply on_member_inv in Hng as [_ (Hc & ng' & -> & Hw)%create_group_inv].
    split; [done|]. intros t [= <-]. split; [done|]. exists kps, ng'. by rewrite <-Hv1.
Qed.
End member.

(** ** Worked examples

    A toy group is its identifier and its members; public messages come from
    the first leaf, private ones from the second. *)
#[local] Existing Instance toy_mls.
#[local] Existing Instance toy_hex.
#[local] Existing Instance toy_retriever.
#[local] Existing Instance toy_wire.

Definition toy_private : @MlsPrivate toy_mls toy_wire := {|
  MlsGroup := GroupId * list SpkiHash;
  MemberStorage := gmap GroupId (list SpkiHash);
  StagedWelcome := GroupId * list SpkiHash;
  Welcome := ();
  GroupInfo := ();
  MlsMessageOut := MlsMessageBodyOut () ();
  body := id;
  serialize_message _ := Ok [1];
  serialize_welcome _ := Ok [2];
  serialize_group_info _ := Ok [3];
  serialize_spki_hash h := Ok (as_slice h);
  credential_content := as_slice;
  group_load s g := Ok (option_map (pair g) (s !! g));
  group_id_of := fst;
  group_members := snd;
  group_member g i := snd g !! Z.to_nat i;
  build_key_package := λ s, (s, Ok (spki_hash toy_agent, public_key toy_agent));
  build_group g := λ s, (<[ g := [spki_hash toy_agent] ]> s, Ok (g, [spki_hash toy_agent]));
  export_group_info _ := Ok (OutGroupInfo ());
  stage_adds kps := λ gs, (((gs.1.1, gs.1.2 ++ (fst <$> kps)), gs.2), Ok (Some (), Some ()));
  add_members kps := λ gs,
    (((gs.1.1, gs.1.2 ++ (fst <$> kps)), gs.2), Ok (OutPublicMessage, OutWelcome ()));
  merge_pending_commit := λ gs, ((gs.1, <[ gs.1.1 := gs.1.2 ]> gs.2), Ok ());
  merge_staged_commit c := λ gs,
    (((gs.1.1, toy_merge c gs.1.2), <[ gs.1.1 := toy_merge c gs.1.2 ]> gs.2), Ok ());
  stage_welcome _ := λ s,
    (s, Ok (to_group_id (DeviceGroup (spki_hash toy_agent)), [spki_hash toy_root; spki_hash toy_agent]));
  staged_group_id := fst;
  staged_members := snd;
  into_group w := λ s, (<[ w.1 := w.2 ]> s, Ok w);
  group_create_message _ := λ gs, (gs, Ok OutPrivateMessage);
  group_process_message m := λ gs,
    match m with
    | PublicMessage c => (gs, Ok (Member 0, StagedCommitMessage c))
    | PrivateMessage _ => (gs, Ok (Member 1, ApplicationMessage [0; 42]))
    end;
|}.

#[local] Existing Instance toy_private.

#[local] Instance toy_message_postcard : Postcard (SvalinMessage Z Z) := {|
  to_stdvec m := match m with ReportMessage r => Ok [0; r] | MetaInfoMessage i => Ok [1; i] end;
  from_bytes b := match b with
    | [0; r] => Ok (ReportMessage r) | [1; i] => Ok (MetaInfoMessage i) | _ => Err "message"%string end;
|}.

Definition toy_node (c : UnverifiedCertificate) (groups : gmap GroupId (list SpkiHash)) :
    MlsNode (K := ToyRetriever) (V := OneOfVerififier) :=
  mkHarness (mkToyRetriever [spki_hash toy_root] [toy_package (mkCertificate toy_root)]) toy_verifier
    (mkMlsProcessor ∅ groups (mkCertificate c) true) 0.

Definition toy_agent_group : GroupId := to_group_id (DeviceGroup (spki_hash toy_agent)).

Definition toy_client : MlsNode (K := ToyRetriever) (V := OneOfVerififier) :=
  toy_node toy_root {[ toy_agent_group := [spki_hash toy_root; spki_hash toy_agent] ]}.

Definition toy_report : MessageData Z Z :=
  mkMessageData (DeviceGroup (spki_hash toy_agent)) (DataReport (spki_hash toy_agent) 42).

Lemma toy_report_read :
  (client_handle_message toy_clock (GroupMessageTransport [4]) toy_client).2 = Ok toy_report.
Proof. vm_compute. reflexivity. Qed.

Lemma client_data_attributed_witness :
  sent_by (processor toy_client) (PrivateMessage toy_agent_group) (spki_hash toy_agent).
Proof.
  destruct (client_data_attributed toy_clock (GroupMessageTransport [4]) toy_client _ toy_report
    (io_run _ _ _ toy_report_read)) as [H _].
  destruct (H (spki_hash toy_agent) 42 eq_refl) as (_ & pm & Hu & _ & Hs).
  injection Hu as <-. exact Hs.
Defined.

Definition toy_joiner : MlsNode (K := ToyRetriever) (V := OneOfVerififier) := toy_node toy_root ∅.
Definition toy_welcome : WelcomeIn := ().

Lemma toy_joined :
  (handle_welcome toy_clock toy_welcome toy_joiner).2 = Ok (DeviceGroup (spki_hash toy_agent)).
Proof. vm_compute. reflexivity. Qed.

Lemma join_requires_members_witness :
  ∃ staged members required, from_group_id (staged_group_id staged) = Ok (DeviceGroup (spki_hash toy_agent)) ∧
    collectM deserialized (staged_members staged) = Ok members ∧
    retrieved (K := ToyRetriever) (DeviceGroup (spki_hash toy_agent)) required ∧
    (∀ m, m ∈ required → m ∈ members).
Proof.
  destruct (join_requires_members toy_clock toy_welcome toy_joiner _ _ (io_run _ _ _ toy_joined))
    as (staged & members & required & H1 & H2 & H3 & H4 & _).
  exists staged, members, required. split; [exact H1|]. split; [exact H2|]. split; [exact H3|exact H4].
Defined.

Definition toy_agent_node : MlsNode (K := ToyRetriever) (V := OneOfVerififier) := toy_node toy_agent ∅.

Lemma agent_handles_additions_only_witness :
  (agent_handle_message toy_clock (spki_hash toy_agent) (GroupMessageTransport [4]) toy_agent_node).2 = Panic.
Proof.
  destruct (agent_handle_message toy_clock (spki_hash toy_agent) (GroupMessageTransport [4]) toy_agent_node)
    as [h r] eqn:E.
  destruct (agent_handles_additions_only toy_clock (spki_hash toy_agent) (GroupMessageTransport [4])
    toy_agent_node h r E) as (_ & _ & H).
  exact (H toy_agent_group eq_refl).
Defined.

Definition toy_create : io (MlsNode (K := ToyRetriever) (V := OneOfVerififier)) ClientFailure
    (option MessageToServerTransport) :=
  create_group_if_not_exists toy_clock (DeviceGroup (spki_hash toy_agent)) (spki_hash toy_agent).

Lemma toy_created :
  (toy_create toy_agent_node).2 =
    Ok (Some (NewDeviceGroupToServer (mkNewGroupTransport [3] (Some [2])))).
Proof. vm_compute. reflexivity. Qed.

Lemma toy_verifier_ok : verifier_ok (verifier toy_agent_node).
Proof. apply one_of_new_ok. Qed.

Lemma group_created_once_witness :
  is_Some (member_cache (processor (toy_create toy_agent_node).1) !!
    to_group_id (DeviceGroup (spki_hash toy_agent))) ∧
  member_lookup (processor toy_agent_node) (to_group_id (DeviceGroup (spki_hash toy_agent))) = Ok None.
Proof.
  destruct (group_created_once toy_clock (DeviceGroup (spki_hash toy_agent)) (spki_hash toy_agent)
    toy_agent_node (toy_create toy_agent_node).1 _ toy_verifier_ok (io_run _ _ _ toy_created)) as [H1 H2].
  split; [exact H1|]. exact (proj1 (H2 _ eq_refl)).
Defined.
