(* ===== verification/Actors.v ===== *)
(** * The tasks of the processors ([mls/processor.rs], [mls/public_processor.rs])

    A processor is owned by a task. Handles send it requests over a channel
    that holds ten, each with a channel for the answer, and wait for that;
    whoever waits can be dropped. When a request unwinds the task is gone with
    all that is still queued, and whoever waits gets an error. The other files
    take a call for one step of its caller. *)
From S2P Require Import Prelude.
From S2P Require Import External.
From S2P Require Import Spki.
From S2P Require Import Certificate.
From S2P Require Import GroupId.
From S2P Require Import Verifiers.
From S2P Require Import Mls.
From S2P Require Import MlsServer.
From S2P Require Import MlsMember.
From stdpp Require Import options.

(** ** A task that serves requests *)
Section task.
Context {State Request Response : Type}.
(** [None] as an answer: the channel for it was closed. *)
Inductive Call :=
  | Sending (r : Request)
  | Queued (r : Request)
  | Answered (r : Request) (a : option Response)
  | Returned (r : Request) (a : option Response)
  | Cancelled.

(** [served] is ghost state: the calls in the order in which they took
    effect. *)
Record RequestTask := mkTask {
  task_state : State;
  alive : bool;
  queue : list (nat * Request);
  calls : list Call;
  served : list (nat * Request * option Response);
}.

Definition capacity : nat := 10.

Inductive TaskEvent :=
  | Invokes (r : Request)
  | Sends (i : nat)
  | Serves
  | Receives (i : nat)
  | Cancels (i : nat).

Definition task_new (s : State) : RequestTask := mkTask s true [] [] [].

Definition with_call (w : RequestTask) (i : nat) (c : Call) : list Call := <[i := c]> (calls w).

(** The answer to a call that nobody waits for is dropped. *)
Definition answer (cs : list Call) (i : nat) (a : option Response) : list Call :=
  match cs !! i with
  | Some (Queued r) => <[i := Answered r a]> cs
  | _ => cs
  end.

Definition drop_queue (cs : list Call) (q : list (nat * Request)) : list Call :=
  foldl (λ cs ir, answer cs ir.1 None) cs q.

Definition unserved (q : list (nat * Request)) : list (nat * Request * option Response) :=
  (λ ir, (ir, None)) <$> q.

Definition sends (w : RequestTask) (i : nat) : option RequestTask :=
  match calls w !! i with
  | Some (Sending r) =>
      if alive w then
        if (length (queue w) <? capacity)%nat
        then Some (mkTask (task_state w) true (queue w ++ [(i, r)]) (with_call w i (Queued r)) (served w))
        else None
      else Some (mkTask (task_state w) false (queue w) (with_call w i (Answered r None)) (served w ++ [(i, r, None)]))
  | _ => None
  end.

Definition requests_of (l : list (nat * Request * option Response)) : list Request := (λ x, x.1.2) <$> l.
Definition answers_of (l : list (nat * Request * option Response)) : list (option Response) := (λ x, x.2) <$> l.
Definition callers_of (l : list (nat * Request * option Response)) : list nat := (λ x, x.1.1) <$> l.

(** [j] took effect behind [i]. *)
Definition precedes (l : list (nat * Request * option Response)) (i j : nat) : Prop :=
  ∀ ki kj, callers_of l !! ki = Some i → callers_of l !! kj = Some j → (ki < kj)%nat.

(** ** What holds of every state *)
Definition ids (q : list (nat * Request)) : list nat := q.*1.

Record task_ok (w : RequestTask) : Prop := {
  ok_dead : alive w = false → queue w = [];
  ok_once : NoDup (ids (queue w) ++ callers_of (served w));
  ok_calls i : i ∈ ids (queue w) ++ callers_of (served w) →
    ∃ c, calls w !! i = Some c ∧ ∀ r, c ≠ Sending r;
  ok_queued i r : calls w !! i = Some (Queued r) → (i, r) ∈ queue w;
  ok_in_queue i r : (i, r) ∈ queue w → calls w !! i = Some (Queued r) ∨ calls w !! i = Some Cancelled;
  ok_answered i r a : calls w !! i = Some (Answered r a) ∨ calls w !! i = Some (Returned r a) → (i, r, a) ∈ served w;
}.

Lemma callers_app l l' : callers_of (l ++ l') = callers_of l ++ callers_of l'.
Proof. apply fmap_app. Qed.

Lemma callers_unserved q : callers_of (unserved q) = ids q.
Proof. unfold callers_of, unserved, ids. by rewrite <-list_fmap_compose. Qed.

Lemma elem_callers i r a l : (i, r, a) ∈ l → i ∈ callers_of l.
Proof. intros Hi. apply list_elem_of_fmap. by exists (i, r, a). Qed.

Lemma elem_ids i r q : (i, r) ∈ q → i ∈ ids q.
Proof. intros Hi. apply list_elem_of_fmap. by exists (i, r). Qed.

(** What an answer does to the calls. *)
Lemma answer_lookup cs i a j :
  answer cs i a !! j =
  match cs !! j with
  | Some (Queued r) => if decide (i = j) then Some (Answered r a) else Some (Queued r)
  | c => c
  end.
Proof.
  unfold answer. destruct (cs !! i) as [c|] eqn:Hi; [|by repeat case_match; simplify_eq].
  destruct (decide (i = j)) as [<-|Hne].
  - rewrite Hi. destruct c; try done. apply list_lookup_insert_eq. by eapply lookup_lt_Some.
  - destruct c; by rewrite ?list_lookup_insert_ne by done; repeat case_match.
Qed.

Lemma drop_queue_lookup q cs j :
  drop_queue cs q !! j =
  match cs !! j with
  | Some (Queued r) => if decide (j ∈ ids q) then Some (Answered r None) else Some (Queued r)
  | c => c
  end.
Proof.
  unfold drop_queue. revert cs. induction q as [|[i r] q IH]; intros cs; cbn.
  - by destruct (cs !! j) as [[]|].
  - rewrite IH, answer_lookup. destruct (cs !! j) as [[]|]; try done.
    destruct (decide (i = j)) as [->|Hne].
    + rewrite decide_True; [done|]. by left.
    + destruct (decide (j ∈ ids q)) as [Hq|Hq].
      * rewrite decide_True; [done|]. by right.
      * rewrite decide_False; [done|]. by intros [?|?]%elem_of_cons.
Qed.

Lemma task_new_ok s : task_ok (task_new s).
Proof. constructor; cbn; try done; [constructor|..]; intros; set_solver. Qed.

(** A call that moves on while queue and history stay. *)
Lemma with_call_ok w i c c' :
  task_ok w → calls w !! i = Some c →
  (∀ r, c' ≠ Sending r) → (∀ r, c' ≠ Queued r) →
  (∀ r a, c' = Answered r a ∨ c' = Returned r a → (i, r, a) ∈ served w) →
  (∀ r, (i, r) ∈ queue w → c' = Cancelled) →
  task_ok (mkTask (task_state w) (alive w) (queue w) (with_call w i c') (served w)).
Proof.
  intros [] Hi Hsend Hqueue Hans Hin. unfold with_call. pose proof (lookup_lt_Some _ _ _ Hi) as Hlt.
  constructor; cbn; try done.
  - intros j Hj. destruct (decide (i = j)) as [<-|Hne].
    + rewrite list_lookup_insert_eq by done. naive_solver.
    + rewrite list_lookup_insert_ne by done. naive_solver.
  - intros j r. destruct (decide (i = j)) as [<-|Hne]; [|rewrite list_lookup_insert_ne by done; naive_solver].
    rewrite list_lookup_insert_eq by done. naive_solver.
  - intros j r Hj. destruct (decide (i = j)) as [<-|Hne]; [|rewrite list_lookup_insert_ne by done; naive_solver].
    rewrite list_lookup_insert_eq by done. right. f_equal. by eapply Hin.
  - intros j r a. destruct (decide (i = j)) as [<-|Hne]; [|rewrite list_lookup_insert_ne by done; naive_solver].
    rewrite list_lookup_insert_eq by done. intros [[= ->]|[= ->]]; eauto.
Qed.

(** A waiting call is in the queue, or was when it was cancelled. *)
Lemma sending_fresh w i r : task_ok w → calls w !! i = Some (Sending r) → i ∉ ids (queue w) ++ callers_of (served w).
Proof. intros [] Hi Hin. destruct (ok_calls0 _ Hin) as (c & Hc & Hne). rewrite Hi in Hc. injection Hc as <-. by eapply Hne. Qed.

Lemma sends_ok w i w' : sends w i = Some w' → task_ok w → task_ok w'.
Proof.
  unfold sends. intros E Hw. destruct (calls w !! i) as [[r| | | |]|] eqn:Hi; try done.
  pose proof (sending_fresh _ _ _ Hw Hi) as Hfresh. pose proof (lookup_lt_Some _ _ _ Hi) as Hlt.
  rewrite elem_of_app in Hfresh. destruct Hw. destruct (alive w) eqn:Halive.
  - case_match; [|done]. injection E as <-. unfold with_call. constructor; cbn; try done.
    + unfold ids. rewrite fmap_app, <-app_assoc. cbn. apply NoDup_app. rewrite NoDup_app in ok_once0.
      destruct ok_once0 as (Hq & Hd & Hs). split; [done|]. split; [|constructor; [|done]; tauto].
      intros j Hj. rewrite not_elem_of_cons. split; [|by apply Hd]. intros ->. tauto.
    + intros j. unfold ids. rewrite fmap_app. cbn. intros Hj. destruct (decide (i = j)) as [<-|Hne].
      * rewrite list_lookup_insert_eq by done. eauto.
      * rewrite list_lookup_insert_ne by done. apply ok_calls0. unfold ids. set_solver.
    + intros j r'. rewrite elem_of_app, list_elem_of_singleton. destruct (decide (i = j)) as [<-|Hne].
      * rewrite list_lookup_insert_eq by done. intros [= ->]. by right.
      * rewrite list_lookup_insert_ne by done. left. by apply ok_queued0.
    + intros j r'. rewrite elem_of_app, list_elem_of_singleton. destruct (decide (i = j)) as [<-|Hne].
      * rewrite list_lookup_insert_eq by done. intros [Hin|[= ->]]; [|by left].
        apply elem_ids in Hin. tauto.
      * rewrite list_lookup_insert_ne by done. intros [?|[=]]; [auto|congruence].
    + intros j r' a. destruct (decide (i = j)) as [<-|Hne]; [|rewrite list_lookup_insert_ne by done; auto].
      rewrite list_lookup_insert_eq by done. naive_solver.
  - injection E as <-. unfold with_call. constructor; cbn; try done.
    + rewrite callers_app. cbn. rewrite app_assoc. apply NoDup_app. split; [done|].
      split; [|repeat constructor; by intros []%elem_of_nil]. intros j Hj. rewrite list_elem_of_singleton. intros ->.
      rewrite elem_of_app in Hj. tauto.
    + intros j Hj. destruct (decide (i = j)) as [<-|Hne].
      * rewrite list_lookup_insert_eq by done. eauto.
      * rewrite list_lookup_insert_ne by done. apply ok_calls0. rewrite callers_app in Hj. cbn in Hj. set_solver.
    + intros j r'. destruct (decide (i = j)) as [<-|Hne]; [|rewrite list_lookup_insert_ne by done; auto].
      by rewrite list_lookup_insert_eq.
    + intros j r'. by rewrite ok_dead0; [intros ?%elem_of_nil|].
    + intros j r' a. rewrite elem_of_app. destruct (decide (i = j)) as [<-|Hne]; [|rewrite list_lookup_insert_ne by done; auto].
      rewrite list_lookup_insert_eq by done. right. rewrite list_elem_of_singleton. naive_solver.
Qed.
End task.

Section serving.
Context {State Request Response : Type}.
(** [None]: the task unwinds. *)
Context (serve : Request → State → State * option Response).
#[local] Abbreviation TheTask := (@RequestTask State Request Response).
#[local] Abbreviation TheEvent := (@TaskEvent Request).
#[local] Abbreviation TheCall := (@Call Request Response).

Definition serve_next (w : TheTask) : option TheTask :=
  match alive w, queue w with
  | true, (i, r) :: q =>
      match serve r (task_state w) with
      | (s, Some a) => Some (mkTask s true q (answer (calls w) i (Some a)) (served w ++ [(i, r, Some a)]))
      | (s, None) =>
          Some (mkTask s false [] (drop_queue (calls w) ((i, r) :: q)) (served w ++ unserved ((i, r) :: q)))
      end
  | _, _ => None
  end.

Definition request_event (w : TheTask) (e : TheEvent) : option TheTask :=
  match e with
  | Invokes r => Some (mkTask (task_state w) (alive w) (queue w) (calls w ++ [Sending r]) (served w))
  | Sends i => sends w i
  | Serves => serve_next w
  | Receives i =>
      match calls w !! i with
      | Some (Answered r a) =>
          Some (mkTask (task_state w) (alive w) (queue w) (with_call w i (Returned r a)) (served w))
      | _ => None
      end
  | Cancels i =>
      match calls w !! i with
      | Some (Sending _ | Queued _ | Answered _ _) =>
          Some (mkTask (task_state w) (alive w) (queue w) (with_call w i Cancelled) (served w))
      | _ => None
      end
  end.

Fixpoint task_run (w : TheTask) (es : list TheEvent) : option TheTask :=
  match es with
  | [] => Some w
  | e :: es => w' ← request_event w e; task_run w' es
  end.

(** ** One call at a time *)

(** A call that is one step. *)
Definition atomic_call (r : Request) (s : State * bool) : (State * bool) * option Response :=
  if s.2 then
    match serve r s.1 with
    | (s', Some a) => ((s', true), Some a)
    | (s', None) => ((s', false), None)
    end
  else (s, None).

Fixpoint atomic_calls (rs : list Request) (s : State * bool) : (State * bool) * list (option Response) :=
  match rs with
  | [] => (s, [])
  | r :: rs =>
      let '(s, a) := atomic_call r s in
      let '(s, l) := atomic_calls rs s in (s, a :: l)
  end.

Definition explains (start : State) (w : TheTask) : Prop :=
  atomic_calls (requests_of (served w)) (start, true) = ((task_state w, alive w), answers_of (served w)).

Lemma atomic_calls_app rs rs' s :
  atomic_calls (rs ++ rs') s =
  let '(s1, l) := atomic_calls rs s in let '(s2, l') := atomic_calls rs' s1 in (s2, l ++ l').
Proof.
  revert s. induction rs as [|r rs IH]; intros s; cbn.
  - by destruct (atomic_calls rs' s).
  - destruct (atomic_call r s) as [s1 a]. rewrite IH. destruct (atomic_calls rs s1) as [s2 l].
    by destruct (atomic_calls rs' s2).
Qed.

(** Nothing is served by a task that is gone. *)
Lemma atomic_calls_dead s q :
  atomic_calls (requests_of (Response := Response) (unserved q)) (s, false) = ((s, false), answers_of (unserved q)).
Proof. induction q as [|[i r] q IH]; [done|]. unfold requests_of, answers_of, unserved in *. csimpl. by rewrite IH. Qed.

Lemma explains_step start w w' l :
  explains start w → served w' = served w ++ l →
  atomic_calls (requests_of l) (task_state w, alive w) = ((task_state w', alive w'), answers_of l) →
  explains start w'.
Proof.
  unfold explains, requests_of, answers_of. intros Hw Hs Hl. rewrite Hs, !fmap_app, atomic_calls_app.
  unfold requests_of, answers_of in *. by rewrite Hw, Hl.
Qed.


Lemma serve_next_ok w w' : serve_next w = Some w' → task_ok w → task_ok w'.
Proof.
  unfold serve_next. intros E Hw. destruct (alive w) eqn:Halive; [|done].
  destruct (queue w) as [|[i r] q] eqn:Hq; [done|]. destruct Hw. rewrite Hq in *.
  change (ids ((i, r) :: q)) with (i :: ids q) in *. cbn [app] in *.
  destruct (serve r (task_state w)) as [s [a|]]; injection E as <-.
  - constructor; cbn [alive queue calls served task_state].
    + done.
    + rewrite callers_app, app_assoc. apply NoDup_cons in ok_once0 as [Hi Hd].
      rewrite (Permutation_app_comm _ (callers_of [_])). by constructor.
    + intros j Hj. destruct (ok_calls0 j) as (c & Hc & Hne); [rewrite callers_app, app_assoc, elem_of_app in Hj; rewrite elem_of_cons;
        destruct Hj as [?|Hj%list_elem_of_singleton]; [by right|by left]|].
      rewrite answer_lookup, Hc. destruct c; try case_decide; eauto.
    + intros j r'. rewrite answer_lookup. destruct (calls w !! j) as [[]|] eqn:Hj; try done.
      case_decide; intros [= ->]. apply ok_queued0 in Hj. set_solver.
    + intros j r' Hj. rewrite answer_lookup. destruct (ok_in_queue0 j r') as [->| ->]; [by right| |by right].
      rewrite decide_False; [by left|]. intros ->. apply NoDup_cons in ok_once0 as [Hi _].
      apply elem_ids in Hj. set_solver.
    + intros j r' a'. rewrite answer_lookup, elem_of_app, list_elem_of_singleton.
      destruct (calls w !! j) as [[]|] eqn:Hj; try by intros [[=]|[=]]; left; apply ok_answered0; rewrite Hj; subst; auto.
      case_decide as Hij; [|by intros [[=]|[=]]]. subst j. intros [[= -> ->]|[=]]. right. destruct (ok_in_queue0 i r) as [Hx|Hx]; [by left| |]; rewrite Hj in Hx; by simplify_eq.
  - change ((i, r, None) :: unserved q) with (unserved (Response := Response) ((i, r) :: q)).
    change (drop_queue (answer (calls w) i None) q) with (drop_queue (calls w) ((i, r) :: q)).
    change (i :: ids q) with (ids ((i, r) :: q)) in *.
    constructor; cbn [alive queue calls served task_state].
    + done.
    + rewrite callers_app, callers_unserved.
      change (NoDup (callers_of (served w) ++ ids ((i, r) :: q))). by rewrite Permutation_app_comm.
    + intros j Hj. rewrite callers_app, callers_unserved in Hj.
      destruct (ok_calls0 j) as (c & Hc & Hne); [set_solver|].
      rewrite drop_queue_lookup, Hc. destruct c; try case_decide; eauto.
    + intros j r'. rewrite drop_queue_lookup. destruct (calls w !! j) as [[]|] eqn:Hj; try done.
      case_decide as Hin; intros [= ->]. apply ok_queued0, elem_ids in Hj. done.
    + by intros j r' ?%elem_of_nil.
    + intros j r' a. rewrite drop_queue_lookup, elem_of_app.
      destruct (calls w !! j) as [[]|] eqn:Hj; try by intros [[=]|[=]]; left; apply ok_answered0; rewrite Hj; subst; auto.
      case_decide as Hin; [|by intros [[=]|[=]]]. intros [[= -> <-]|[=]]. right. apply ok_queued0 in Hj.
      apply list_elem_of_fmap. by exists (j, r').
Qed.

Lemma request_event_ok w e w' : request_event w e = Some w' → task_ok w → task_ok w'.
Proof.
  intros E Hw. destruct e as [r|i| |i|i]; cbn in E.
  - injection E as <-. destruct Hw. constructor; cbn; try done.
    + intros j Hj. destruct (ok_calls0 j Hj) as (c & Hc & Hne). exists c. split; [by apply lookup_app_l_Some|done].
    + intros j r'. rewrite lookup_app_Some. intros [?|[_ Hx]]; [auto|]. destruct (_ - _)%nat; cbn in Hx; try done.
    + intros j r' Hj. destruct (ok_in_queue0 j r' Hj); [left|right]; by apply lookup_app_l_Some.
    + intros j r' a. rewrite !lookup_app_Some. intros [[?|[_ Hx]]|[?|[_ Hx]]]; auto; destruct (_ - _)%nat; cbn in Hx; try done.
  - by eapply sends_ok.
  - by eapply serve_next_ok.
  - case_match eqn:Hi; [|done]. case_match; try done. injection E as <-. eapply with_call_ok; try done.
    + intros r' a' [[=]|[= -> ->]]. eapply ok_answered; [done|]. by left.
    + intros r' Hin. destruct (ok_in_queue _ Hw _ _ Hin) as [Hx|Hx]; by rewrite Hi in Hx.
  - case_match eqn:Hi; [|done]. case_match; try done; injection E as <-; eapply with_call_ok; try done; naive_solver.
Qed.

(** What an event adds to the history explains what it does. *)
Lemma request_event_served w e w' :
  request_event w e = Some w' → task_ok w →
  (length (calls w) <= length (calls w'))%nat ∧
  ∃ l, served w' = served w ++ l ∧
    atomic_calls (requests_of l) (task_state w, alive w) = ((task_state w', alive w'), answers_of l).
Proof.
  intros E Hw.
  assert (∀ i (c : TheCall), length (with_call w i c) = length (calls w)) as Hlen by (intros; apply length_insert).
  assert (∀ (cs : list TheCall) i a, length (answer cs i a) = length cs) as Hans.
  { intros. unfold answer. repeat case_match; by rewrite ?length_insert. }
  destruct e as [r|i| |i|i]; cbn in E.
  - injection E as <-. cbn. rewrite length_app. split; [lia|]. exists []. by rewrite app_nil_r.
  - unfold sends in E. destruct (calls w !! i) as [[]|] eqn:Hi; try done. destruct (alive w) eqn:Halive.
    + case_match; [|done]. injection E as <-. cbn. rewrite Hlen. split; [done|]. exists []. by rewrite app_nil_r.
    + injection E as <-. cbn. rewrite Hlen. split; [done|]. by eexists.
  - unfold serve_next in E. destruct (alive w) eqn:Halive; [|done]. destruct (queue w) as [|[i r] q] eqn:Hq; [done|].
    destruct (serve r (task_state w)) as [s [a|]] eqn:Es; injection E as <-.
    + cbn. rewrite Hans. split; [done|]. eexists. split; [done|]. cbn. by rewrite Es.
    + split.
      * cbn. unfold drop_queue. generalize (answer (calls w) i None), (Hans (calls w) i None). clear -Hans.
        induction q as [|[j r'] q IH]; cbn; intros cs Hcs; [lia|]. apply IH. by rewrite Hans.
      * eexists. split; [done|]. cbn. rewrite Es. pose proof (atomic_calls_dead s q) as Hd.
        unfold requests_of, answers_of in *. by rewrite Hd.
  - case_match eqn:Hi; [|done]. case_match; try done. injection E as <-. cbn. rewrite Hlen.
    split; [done|]. exists []. by rewrite app_nil_r.
  - case_match eqn:Hi; [|done]. case_match; try done; injection E as <-; cbn; rewrite Hlen;
      (split; [done|]); exists []; by rewrite app_nil_r.
Qed.

Lemma task_run_served w es w' :
  task_run w es = Some w' → task_ok w →
  task_ok w' ∧ (length (calls w) <= length (calls w'))%nat ∧
  ∃ l, served w' = served w ++ l ∧
    atomic_calls (requests_of l) (task_state w, alive w) = ((task_state w', alive w'), answers_of l).
Proof.
  revert w. induction es as [|e es IH]; intros w E Hw; cbn in E.
  - injection E as <-. split; [done|split; [lia|]]. exists []. by rewrite app_nil_r.
  - apply bind_Some in E as (w1 & E1 & E). pose proof (request_event_ok _ _ _ E1 Hw) as Hw1.
    destruct (request_event_served _ _ _ E1 Hw) as (Hl1 & l1 & Hs1 & Ha1).
    destruct (IH w1 E Hw1) as (Hw' & Hlen & l & Hs & Ha). split; [done|split; [lia|]].
    exists (l1 ++ l). rewrite Hs, Hs1, app_assoc. split; [done|].
    unfold requests_of, answers_of in *. by rewrite !fmap_app, atomic_calls_app, Ha1, Ha.
Qed.

(** C2: Calls of any number of callers in any interleaving, some of them
    dropped while they wait, have the effect of calls that are one step each:
    in the order [served] every call that took effect is in once, the state of
    the task is what they leave one after the other, and who has an answer has
    the one of its place; the order respects time: what had returned before a
    call was made comes before it. *)
Theorem calls_linearize start es1 w1 es2 w2 :
  task_run (task_new start) es1 = Some w1 → task_run w1 es2 = Some w2 →
  explains start w2 ∧ NoDup (callers_of (served w2)) ∧
  (∀ i r a, calls w2 !! i = Some (Returned r a) → (i, r, a) ∈ served w2) ∧
  (∀ i j r a, calls w1 !! i = Some (Returned r a) → (length (calls w1) <= j)%nat → precedes (served w2) i j).
Proof.
  intros E1 E2. destruct (task_run_served _ _ _ E1 (task_new_ok start)) as (Hw1 & _ & l1 & Hs1 & Ha1).
  destruct (task_run_served _ _ _ E2 Hw1) as (Hw2 & _ & l2 & Hs2 & Ha2). cbn in *.
  assert (NoDup (callers_of (served w2))) as Hnd by (pose proof (ok_once _ Hw2) as Hx; by apply NoDup_app in Hx as (_ & _ & Hx)).
  split; [|split; [done|split]].
  - unfold explains. rewrite Hs2, Hs1. unfold requests_of, answers_of in *.
    by rewrite !fmap_app, atomic_calls_app, Ha1, Ha2.
  - intros i r a Hi. eapply ok_answered; [done|by right].
  - intros i j r a Hi Hj ki kj Hki Hkj. assert (i ∈ callers_of (served w1)) as Hin.
    { eapply elem_callers, ok_answered; [done|by right]. }
    apply list_elem_of_lookup in Hin as (k & Hk). rewrite Hs2, callers_app in *.
    assert (k = ki) as <- by (eapply (NoDup_lookup _ _ _ _ Hnd); [by apply lookup_app_l_Some|done]).
    apply lookup_lt_Some in Hk. destruct (decide (kj < length (callers_of (served w1)))%nat) as [Hlt|]; [|lia].
    rewrite lookup_app_l in Hkj by done. apply list_elem_of_lookup_2 in Hkj.
    destruct (ok_calls _ Hw1 j) as (c & Hc & _); [by apply elem_of_app; right|]. apply lookup_lt_Some in Hc. lia.
Qed.

(** ** Every call is answered *)
Definition own_event (e : TheEvent) : bool :=
  match e with Sends _ | Serves | Receives _ => true | _ => false end.

Definition call_work (c : TheCall) : nat :=
  match c with Sending _ => 3 | Queued _ | Answered _ _ => 1 | _ => 0 end.

(** A bound on the steps that are left when nobody calls any more. *)
Definition task_work (w : TheTask) : nat := sum_list (call_work <$> calls w) + length (queue w).

Lemma sum_list_insert (cs : list TheCall) i c c' :
  cs !! i = Some c →
  (sum_list (call_work <$> <[i := c']> cs) + call_work c = sum_list (call_work <$> cs) + call_work c')%nat.
Proof.
  revert i. induction cs as [|x cs IH]; intros [|i] Hi; try done; csimpl.
  - cbn in Hi. injection Hi as ->. lia.
  - cbn in Hi. specialize (IH i Hi). lia.
Qed.

Lemma answer_work cs i a : sum_list (call_work <$> answer cs i a) = sum_list (call_work <$> cs).
Proof.
  unfold answer. destruct (cs !! i) as [[]|] eqn:Hi; try done.
  pose proof (sum_list_insert _ _ _ (Answered r a) Hi). cbn in *. lia.
Qed.

Lemma drop_queue_work cs q : sum_list (call_work <$> drop_queue cs q) = sum_list (call_work <$> cs).
Proof.
  unfold drop_queue. revert cs. induction q as [|ir q IH]; intros cs; cbn; [done|]. by rewrite IH, answer_work.
Qed.

Lemma own_event_work w e w' : request_event w e = Some w' → own_event e = true → (task_work w' < task_work w)%nat.
Proof.
  intros E He. unfold task_work. destruct e as [|i| |i|]; try done; cbn in E.
  - unfold sends in E. destruct (calls w !! i) as [[]|] eqn:Hi; try done. destruct (alive w).
    + case_match; [|done]. injection E as <-. cbn. rewrite length_app. cbn.
      pose proof (sum_list_insert _ _ _ (Queued r) Hi). unfold with_call. cbn in *. lia.
    + injection E as <-. cbn. pose proof (sum_list_insert _ _ _ (Answered r None) Hi). unfold with_call. cbn in *. lia.
  - unfold serve_next in E. destruct (alive w); [|done]. destruct (queue w) as [|[i r] q] eqn:Hq; [done|].
    destruct (serve r (task_state w)) as [s [a|]]; injection E as <-; cbn.
    + rewrite answer_work. lia.
    + rewrite (drop_queue_work (answer (calls w) i None) q), answer_work. lia.
  - destruct (calls w !! i) as [[]|] eqn:Hi; try done. injection E as <-. cbn.
    pose proof (sum_list_insert _ _ _ (Returned r a) Hi). unfold with_call. cbn in *. lia.
Qed.

Definition settled (w : TheTask) : Prop :=
  queue w = [] ∧ ∀ i c, calls w !! i = Some c → c = Cancelled ∨ ∃ r a, c = Returned r a.

Lemma own_event_possible w :
  task_ok w → settled w ∨ ∃ e, own_event e = true ∧ is_Some (request_event w e).
Proof.
  intros Hw. destruct (queue w) as [|[i r] q] eqn:Hq.
  - destruct (decide (Forall (λ c, call_work c = 0%nat) (calls w))) as [Hall|Hex].
    + left. split; [done|]. intros i c Hi. rewrite Forall_lookup in Hall. apply Hall in Hi. destruct c; naive_solver.
    + right. apply not_Forall_Exists in Hex; [|intros c; apply _]. apply Exists_exists in Hex as (c & Hc & Hw0).
      apply list_elem_of_lookup in Hc as (i & Hi). destruct c as [r|r|r a|r a|]; try by destruct Hw0.
      * exists (Sends i). split; [done|]. cbn. unfold sends. rewrite Hi, Hq. destruct (alive w); cbn; eauto.
      * apply (ok_queued _ Hw) in Hi. rewrite Hq in Hi. by apply elem_of_nil in Hi.
      * exists (Receives i). split; [done|]. cbn. rewrite Hi. eauto.
  - right. exists Serves. split; [done|]. cbn. unfold serve_next. destruct (alive w) eqn:Halive.
    + rewrite Hq. destruct (serve r (task_state w)) as [s []]; eauto.
    + by rewrite (ok_dead _ Hw Halive) in Hq.
Qed.

(** C32: No caller waits for ever, whatever the requests do, one that unwinds
    included: the callers and the task take at most [task_work] steps in any
    order, and while a call that was not dropped has not returned one of them
    can take a step. *)
Theorem calls_return start es w own w' :
  task_run (task_new start) es = Some w → task_run w own = Some w' → Forall (λ e, own_event e = true) own →
  (length own <= task_work w)%nat ∧ (settled w' ∨ ∃ e, own_event e = true ∧ is_Some (request_event w' e)).
Proof.
  intros E Hown Hall. destruct (task_run_served _ _ _ E (task_new_ok start)) as (Hw & _).
  destruct (task_run_served _ _ _ Hown Hw) as (Hw' & _). split; [|by apply own_event_possible].
  clear -Hown Hall. revert w Hown. induction Hall as [|e own He Hall IH]; intros w Hown; cbn in *; [lia|].
  apply bind_Some in Hown as (w1 & E1 & E). apply IH in E. apply own_event_work in E1; [lia|done].
Qed.
End serving.

(** ** The processors' tasks *)

(** The task unwinds with the request; otherwise the answer is sent. *)
Definition respond {P E A Response} (f : result E A → Response) (m : io P E A) (p : P) : P * option Response :=
  match m p with
  | (p, Panic) => (p, None)
  | (p, r) => (p, Some (f r))
  end.

(** A call by the rules of a task, for a processor whose record says whether
    its task is there. *)
Section handle.
Context {P Request Response : Type}.
Context (alive_of : P → bool) (with_alive : bool → P → P) (serve : Request → P → P * option Response).

Definition handle_call {E A} (recv : E) (take : Response → option (result E A)) (request : Request) : io P E A := λ p,
  let '((p', b), a) := atomic_call serve request (p, alive_of p) in
  (with_alive b p', default (Err recv) (a ≫= take)).

Definition same_alive (p p' : P) : Prop := alive_of p = alive_of p'.

#[global] Instance same_alive_preorder : PreOrder same_alive.
Proof. split; [done|]. intros p1 p2 p3 E1 E2. unfold same_alive in *. congruence. Qed.

(** The calls of the other files. *)
Definition call_of {E A} (recv : E) (m : io P E A) : io P E A := λ p,
  if alive_of p then
    match m p with
    | (p, Panic) => (with_alive false p, Err recv)
    | r => r
    end
  else (p, Err recv).

Lemma call_of_handle {E A} (recv : E) (f : result E A → Response) take request (m : io P E A) p :
  (∀ p, with_alive (alive_of p) p = p) →
  serve request = respond f m → keeps same_alive m → (∀ r, take (f r) = Some r) →
  call_of recv m p = handle_call recv take request p.
Proof.
  intros Hset Hserve Hm Ht. unfold call_of, handle_call, atomic_call. rewrite Hserve. unfold respond.
  cbn [fst snd]. destruct (alive_of p) eqn:Hr.
  - destruct (m p) as [p' r] eqn:Hp. apply Hm in Hp. unfold same_alive in Hp. rewrite Hr in Hp.
    pose proof (Hset p') as Hset'. rewrite <-Hp in Hset'. destruct r; cbn; by rewrite ?Ht, ?Hset'.
  - cbn. by rewrite <-Hr, Hset.
Qed.
End handle.

Section public.
Context `{MlsPublic}.

Inductive PublicProcessorRequest :=
  | ProcessMessage (message : ProtocolMessageIn)
  | AddGroup (new_group : NewGroup)
  | CheckGroup (new_group : NewGroup)
  | GetMember (group_id : GroupId) (index : LeafNodeIndex)
  | CommitRequest (group_id : GroupId) (commit : StagedCommit).

(** What goes through the channels for the answers. *)
Inductive PublicResponse :=
  | MessageProcessed (r : result MlsFailure ProcessedMessage)
  | GroupAdded (r : result AddGroupError (option MessageToSend))
  | GroupChecked (r : result AddGroupError PublicGroup)
  | MemberFound (r : result MlsFailure SpkiHash)
  | Committed (r : result MlsFailure ()).

Definition public_serve (request : PublicProcessorRequest) :
    PublicProcessor → PublicProcessor * option PublicResponse :=
  match request with
  | ProcessMessage message => respond MessageProcessed (processor_process_message message)
  | CheckGroup new_group => respond GroupChecked (check_group new_group)
  | AddGroup new_group => respond GroupAdded (add_group new_group)
  | GetMember group_id index => respond MemberFound (processor_get_member group_id index)
  | CommitRequest group_id commit => respond Committed (processor_commit group_id commit)
  end.

Definition with_running (b : bool) (p : PublicProcessor) : PublicProcessor :=
  mkPublicProcessor (group_cache p) (storage p) b.

#[local] Abbreviation same_running := (same_alive (P := PublicProcessor) running).
#[local] Abbreviation public_call := (handle_call running with_running public_serve).

Lemma running_get_group g : keeps same_running (get_group g).
Proof. intros p p' r. unfold get_group. repeat case_match; by intros [= <- _]. Qed.

Lemma running_on_storage {E A} (m : io PublicStorage E A) : keeps same_running (on_storage m).
Proof. intros p p' r. unfold on_storage. case_match. by intros [= <- _]. Qed.

Lemma running_merge g c x : keeps same_running (merge_commit g c x).
Proof. intros p p' r. unfold merge_commit. repeat case_match. by intros [= <- _]. Qed.

#[local] Hint Resolve running_get_group running_on_storage running_merge : keeps.

Lemma running_public :
  (∀ m, keeps same_running (processor_process_message m)) ∧ (∀ g, keeps same_running (check_group g)) ∧
  (∀ g, keeps same_running (add_group g)) ∧ (∀ g i, keeps same_running (processor_get_member g i)) ∧
  (∀ g c, keeps same_running (processor_commit g c)).
Proof.
  unfold processor_process_message, check_group, add_group, processor_get_member, processor_commit, io_err.
  split_and!; intros; keep.
Qed.

Definition take_processed (r : PublicResponse) := match r with MessageProcessed r => Some r | _ => None end.
Definition take_added (r : PublicResponse) := match r with GroupAdded r => Some r | _ => None end.
Definition take_checked (r : PublicResponse) := match r with GroupChecked r => Some r | _ => None end.
Definition take_member (r : PublicResponse) := match r with MemberFound r => Some r | _ => None end.
Definition take_committed (r : PublicResponse) := match r with Committed r => Some r | _ => None end.

(** The five methods of [PublicProcessorHandle], as the server uses them, are
    the single steps that calls over the channel amount to. *)
Lemma public_calls_are_steps p :
  (∀ m, call FailRecv (processor_process_message m) p = public_call FailRecv take_processed (ProcessMessage m) p) ∧
  (∀ g, call AddGroupRecv (check_group g) p = public_call AddGroupRecv take_checked (CheckGroup g) p) ∧
  (∀ g, call AddGroupRecv (add_group g) p = public_call AddGroupRecv take_added (AddGroup g) p) ∧
  (∀ g i, call FailRecv (processor_get_member g i) p = public_call FailRecv take_member (GetMember g i) p) ∧
  (∀ g c, call FailRecv (processor_commit g c) p = public_call FailRecv take_committed (CommitRequest g c) p).
Proof.
  destruct running_public as (H1' & H2' & H3' & H4' & H5').
  assert (∀ p, with_running (running p) p = p) as Hset by (by intros []).
  split_and!; intros; (etransitivity; [|by eapply call_of_handle]); reflexivity.
Qed.

(** Processing a commit and merging it are two calls, and nothing compares the
    epochs in between: of two commits for the same state of a group, processed
    before either is merged, both are merged, the second on top of the
    first. *)
Lemma stale_commit_merged p m1 m2 g grp members c1 c2 g1 s1 g2 s2 :
  lookup_group p g = Ok (Some grp) → members_of grp = Ok members →
  message_group (PublicMessage m1) = g → message_group (PublicMessage m2) = g →
  public_process_message grp (PublicMessage m1) = Ok (StagedCommitMessage c1) →
  public_process_message grp (PublicMessage m2) = Ok (StagedCommitMessage c2) →
  public_merge_commit c1 (grp, storage p) = ((g1, s1), Ok ()) →
  public_merge_commit c2 (g1, s1) = ((g2, s2), Ok ()) →
  ∃ p', atomic_calls public_serve
      [ProcessMessage (PublicMessage m1); ProcessMessage (PublicMessage m2); CommitRequest g c1; CommitRequest g c2] (p, true) =
    ((p', true), [Some (MessageProcessed (Ok (mkProcessedMessage g members (Commit c1))));
                  Some (MessageProcessed (Ok (mkProcessedMessage g members (Commit c2))));
                  Some (Committed (Ok ())); Some (Committed (Ok ()))]) ∧
    lookup_group p' g = Ok (Some g2).
Proof.
  intros Hg Hms Hm1 Hm2 Hp1 Hp2 Hc1 Hc2.
  set (q := mkPublicProcessor (<[g := grp]> (group_cache p)) (storage p) (running p)).
  assert (get_group g p = (q, Ok grp)) as Hget.
  { unfold get_group. unfold lookup_group in Hg. destruct (group_cache p !! g) as [x|] eqn:Hc.
    - injection Hg as ->. unfold q. rewrite insert_id by done. by destruct p.
    - by rewrite Hg. }
  assert (∀ x p, get_group g (mkPublicProcessor (<[g := x]> (group_cache p)) (storage p) (running p)) =
    (mkPublicProcessor (<[g := x]> (group_cache p)) (storage p) (running p), Ok x)) as Hcached.
  { intros x p'. unfold get_group. cbn. by rewrite lookup_insert_eq. }
  assert (∀ m c p, message_group (PublicMessage m) = g → get_group g p = (q, Ok grp) →
    public_process_message grp (PublicMessage m) = Ok (StagedCommitMessage c) →
    processor_process_message (PublicMessage m) p = (q, Ok (mkProcessedMessage g members (Commit c)))) as Hproc.
  { intros m c p' Hm Hget' Hp. unfold processor_process_message. rewrite Hm.
    rewrite (io_bind_step _ _ _ _ _ Hget'). unfold mbind, io_bind, io_result. by rewrite Hms; cbn; rewrite Hp. }
  set (q1 := mkPublicProcessor (<[g := g1]> (group_cache q)) s1 (running q)).
  set (q2 := mkPublicProcessor (<[g := g2]> (group_cache q1)) s2 (running q1)).
  exists q2. split; [|by unfold lookup_group; cbn; rewrite lookup_insert_eq].
  assert (∀ m c p, message_group (PublicMessage m) = g → get_group g p = (q, Ok grp) →
    public_process_message grp (PublicMessage m) = Ok (StagedCommitMessage c) →
    atomic_call public_serve (ProcessMessage (PublicMessage m)) (p, true) =
      ((q, true), Some (MessageProcessed (Ok (mkProcessedMessage g members (Commit c)))))) as Hstep1.
  { intros m c p' Hm Hget' Hp. unfold atomic_call, public_serve, respond. cbn [fst snd]. by rewrite (Hproc _ _ _ Hm Hget' Hp). }
  assert (∀ c x p x' s', public_merge_commit c (x, storage p) = ((x', s'), Ok ()) →
    atomic_call public_serve (CommitRequest g c) (mkPublicProcessor (<[g := x]> (group_cache p)) (storage p) (running p), true) =
      ((mkPublicProcessor (<[g := x']> (<[g := x]> (group_cache p))) s' (running p), true), Some (Committed (Ok ())))) as Hstep2.
  { intros c x p' x' s' Hc. unfold atomic_call, public_serve, respond. cbn [fst snd]. unfold processor_commit.
    rewrite (io_bind_step _ _ _ _ _ (Hcached x p')). unfold merge_commit. cbn. by rewrite Hc. }
  cbn [atomic_calls]. rewrite (Hstep1 m1 c1 p Hm1 Hget Hp1), (Hstep1 m2 c2 q Hm2 (Hcached grp p) Hp2).
  unfold q. rewrite (Hstep2 c1 grp p g1 s1 Hc1).
  pose proof (Hstep2 c2 g1 (mkPublicProcessor (<[g := grp]> (group_cache p)) s1 (running p)) g2 s2 Hc2) as Hlast.
  cbn [group_cache storage running] in Hlast. rewrite Hlast. done.
Qed.
End public.

Section member.
Context `{MlsPrivate}.

Inductive MlsProcessorRequest :=
  | CreateKeyPackage
  | CreateGroup (members : list KeyPackage) (group_id : GroupId)
  | CreateMessage (group_id : GroupId) (message : list Z)
  | StageJoin (welcome : WelcomeIn)
  | JoinGroup (welcome : StagedWelcome)
  | MemberProcess (message : ProtocolMessageIn)
  | GroupExists (group_id : GroupId)
  | IsMember (group_id : GroupId) (spki_hash : SpkiHash)
  | AddMember (group_id : GroupId) (key_package : KeyPackage)
  | MemberAt (group_id : GroupId) (index : LeafNodeIndex)
  | CommitStaged (commit : StagedCommit).

Inductive MlsProcessorResponse :=
  | KeyPackageCreated (r : result MlsFailure KeyPackage)
  | ToServer (r : result MlsFailure MessageToServerTransport)
  | WelcomeStaged (r : result MlsFailure StagedWelcome)
  | Processed (r : result MlsFailure MemberProcessed)
  | Told (r : result MlsFailure bool)
  | FoundMember (r : result MlsFailure SpkiHash)
  | Done (r : result MlsFailure ()).

Definition member_serve (request : MlsProcessorRequest) :
    MlsProcessor → MlsProcessor * option MlsProcessorResponse :=
  match request with
  | CreateKeyPackage => respond KeyPackageCreated create_key_package
  | CreateGroup members group_id => respond ToServer (create_group members group_id)
  | StageJoin welcome => respond WelcomeStaged (stage_join welcome)
  | JoinGroup welcome => respond Done (join_group welcome)
  | CreateMessage group_id message => respond ToServer (create_message group_id message)
  | MemberProcess message => respond Processed (member_process_message message)
  | GroupExists group_id => respond Told (group_exists group_id)
  | IsMember group_id spki_hash => respond Told (is_member group_id spki_hash)
  | MemberAt group_id index => respond FoundMember (member_get_member group_id index)
  | AddMember group_id key_package => respond ToServer (add_member group_id key_package)
  | CommitStaged commit => respond Done (member_commit commit)
  end.

Definition with_member_running (b : bool) (p : MlsProcessor) : MlsProcessor :=
  mkMlsProcessor (member_cache p) (member_storage p) (member_certificate p) b.

#[local] Abbreviation same_running := (same_alive (P := MlsProcessor) member_running).
#[local] Abbreviation member_handle := (handle_call member_running with_member_running member_serve FailRecv).

Lemma running_on_member_storage {A} (m : io MemberStorage ExtError A) : keeps same_running (on_member_storage m).
Proof. intros p p' r. unfold on_member_storage. case_match. by intros [= <- _]. Qed.

Lemma running_cache_group g x : keeps same_running (cache_group g x).
Proof. intros p p' r. by intros [= <- _]. Qed.

Lemma running_on_cached {A} g x (m : io (MlsGroup * MemberStorage) ExtError A) : keeps same_running (on_cached g x m).
Proof. intros p p' r. unfold on_cached. repeat case_match. by intros [= <- _]. Qed.

Lemma running_member_get_group g : keeps same_running (member_get_group g).
Proof. intros p p' r. unfold member_get_group. repeat case_match; by intros [= <- _]. Qed.

#[local] Hint Resolve running_on_member_storage running_cache_group running_on_cached running_member_get_group : keeps.

Lemma running_group_exists g : keeps same_running (group_exists g).
Proof.
  intros p p' r. unfold group_exists. destruct (member_get_group g p) as [p1 r1] eqn:E.
  apply running_member_get_group in E. repeat case_match; by intros [= <- _].
Qed.

Lemma running_member :
  keeps same_running create_key_package ∧ (∀ ms g, keeps same_running (create_group ms g)) ∧
  (∀ g m, keeps same_running (create_message g m)) ∧ (∀ w, keeps same_running (stage_join w)) ∧
  (∀ w, keeps same_running (join_group w)) ∧ (∀ m, keeps same_running (member_process_message m)) ∧
  (∀ g h, keeps same_running (is_member g h)) ∧ (∀ g k, keeps same_running (add_member g k)) ∧
  (∀ g i, keeps same_running (member_get_member g i)) ∧ (∀ c, keeps same_running (member_commit c)).
Proof.
  unfold create_key_package, create_group, create_message, stage_join, join_group, member_process_message,
    is_member, add_member, member_get_member, member_commit, io_err.
  split_and!; intros; keep.
Qed.

Definition take_package (r : MlsProcessorResponse) := match r with KeyPackageCreated r => Some r | _ => None end.
Definition take_to_server (r : MlsProcessorResponse) := match r with ToServer r => Some r | _ => None end.
Definition take_staged (r : MlsProcessorResponse) := match r with WelcomeStaged r => Some r | _ => None end.
Definition take_message (r : MlsProcessorResponse) := match r with Processed r => Some r | _ => None end.
Definition take_told (r : MlsProcessorResponse) := match r with Told r => Some r | _ => None end.
Definition take_found (r : MlsProcessorResponse) := match r with FoundMember r => Some r | _ => None end.
Definition take_done (r : MlsProcessorResponse) := match r with Done r => Some r | _ => None end.

(** The methods of [MlsProcessorHandle], as clients and agents use them,
    are the single steps that calls over the channel amount to. *)
Lemma member_calls_are_steps p :
  member_call create_key_package p = member_handle take_package CreateKeyPackage p ∧
  (∀ ms g, member_call (create_group ms g) p = member_handle take_to_server (CreateGroup ms g) p) ∧
  (∀ g m, member_call (create_message g m) p = member_handle take_to_server (CreateMessage g m) p) ∧
  (∀ w, member_call (stage_join w) p = member_handle take_staged (StageJoin w) p) ∧
  (∀ w, member_call (join_group w) p = member_handle take_done (JoinGroup w) p) ∧
  (∀ m, member_call (member_process_message m) p = member_handle take_message (MemberProcess m) p) ∧
  (∀ g, member_call (group_exists g) p = member_handle take_told (GroupExists g) p) ∧
  (∀ g h, member_call (is_member g h) p = member_handle take_told (IsMember g h) p) ∧
  (∀ g k, member_call (add_member g k) p = member_handle take_to_server (AddMember g k) p) ∧
  (∀ g i, member_call (member_get_member g i) p = member_handle take_found (MemberAt g i) p) ∧
  (∀ c, member_call (member_commit c) p = member_handle take_done (CommitStaged c) p).
Proof.
  destruct running_member as (H1' & H2' & H3' & H4' & H5' & H6' & H7' & H8' & H9' & H10').
  assert (∀ p, with_member_running (member_running p) p = p) as Hset by (by intros []).
  pose proof running_group_exists.
  split_and!; intros; (etransitivity; [|by eapply call_of_handle]); reflexivity.
Qed.
End member.

(** ** Two commits at once *)
#[local] Existing Instance toy_mls.
#[local] Existing Instance toy_hex.
#[local] Existing Instance toy_wire.
#[local] Existing Instance toy_public.

(** Two handlers of the server, one with the removal of the agent, the other
    with a commit that removes it, too, and adds a user; a third call is
    dropped. *)
Definition toy_processor : PublicProcessor :=
  mkPublicProcessor ∅ {[ to_group_id GlobalGroup := [spki_hash toy_root; spki_hash toy_agent] ]} true.
Definition toy_commits_open : list (TaskEvent (Request := PublicProcessorRequest)) :=
  [Invokes (ProcessMessage (PublicMessage toy_removal)); Invokes (ProcessMessage (PublicMessage toy_edit));
   Sends 0; Sends 1; Serves; Receives 0].
Definition toy_commits_close : list (TaskEvent (Request := PublicProcessorRequest)) :=
  [Serves; Receives 1; Invokes (CommitRequest (to_group_id GlobalGroup) toy_removal);
   Invokes (CommitRequest (to_group_id GlobalGroup) toy_edit); Invokes (GetMember (to_group_id GlobalGroup) 0);
   Sends 3; Sends 2; Sends 4; Cancels 4].
Definition toy_commits_rest : list (TaskEvent (Request := PublicProcessorRequest)) := [Serves; Serves; Receives 2; Serves; Receives 3].

Definition toy_commits (es : list (TaskEvent (Request := PublicProcessorRequest))) : RequestTask (State := PublicProcessor) (Response := PublicResponse) :=
  default (task_new toy_processor) (task_run public_serve (task_new toy_processor) es).
Definition toy_opened : RequestTask (State := PublicProcessor) (Response := PublicResponse) := Eval vm_compute in toy_commits toy_commits_open.
Definition toy_waiting : RequestTask (State := PublicProcessor) (Response := PublicResponse) := Eval vm_compute in toy_commits (toy_commits_open ++ toy_commits_close).
Definition toy_over : RequestTask (State := PublicProcessor) (Response := PublicResponse) := Eval vm_compute in toy_commits (toy_commits_open ++ toy_commits_close ++ toy_commits_rest).

(** In the toy groups, where members are removed by their place, the removal
    of the agent hits the user that was added before it. *)
Example both_commits_merged :
  lookup_group (task_state toy_over) (to_group_id GlobalGroup) =
    Ok (Some (to_group_id GlobalGroup, [spki_hash toy_root])) ∧
  calls toy_over !! 4%nat = Some Cancelled ∧ callers_of (served toy_over) = [0; 1; 3; 2; 4]%nat.
Proof. split_and!; reflexivity. Qed.

Lemma calls_linearize_witness :
  explains public_serve toy_processor toy_over ∧ NoDup (callers_of (served toy_over)) ∧
  precedes (served toy_over) 0 2.
Proof.
  assert (task_run public_serve (task_new toy_processor) toy_commits_open = Some toy_opened) as E1 by reflexivity.
  assert (task_run public_serve toy_opened (toy_commits_close ++ toy_commits_rest) = Some toy_over) as E2 by reflexivity.
  destruct (calls_linearize public_serve toy_processor toy_commits_open toy_opened
    (toy_commits_close ++ toy_commits_rest) toy_over E1 E2) as (Hex & Hnd & _ & Hord).
  split; [exact Hex|split; [exact Hnd|]].
  eapply (Hord 0%nat 2%nat); [reflexivity|]. cbn. lia.
Defined.

Lemma calls_return_witness :
  (length toy_commits_rest <= task_work toy_waiting)%nat ∧
  (settled toy_over ∨ ∃ e, own_event e = true ∧ is_Some (request_event public_serve toy_over e)).
Proof.
  assert (task_run public_serve (task_new toy_processor) (toy_commits_open ++ toy_commits_close) = Some toy_waiting) as E1
    by reflexivity.
  assert (task_run public_serve toy_waiting toy_commits_rest = Some toy_over) as E2 by reflexivity.
  apply (calls_return public_serve toy_processor (toy_commits_open ++ toy_commits_close) toy_waiting
    toy_commits_rest toy_over E1 E2). by repeat constructor.
Defined.
