(* ===== verification/UserMls.v ===== *)
(** * The messaging state of a user
    ([svalin/src/shared/commands/update_user_mls.rs])

    A user is a member of the groups through whichever of its sessions is
    connected. The server keeps the user's MLS storage and persistent data,
    encrypted with a key it does not have. A session takes them, handles the
    messages that wait for the user, and sends the new state back with the
    identifiers of the messages it has handled. *)
From S2P Require Import Prelude.
From S2P Require Import External.
From S2P Require Import Provider.
From S2P Require Import Spki.
From S2P Require Import Toy.
From S2P Require Import Certificate.
From S2P Require Import Encrypt.
From S2P Require Import GroupId.
From S2P Require Import ServerStore.
From S2P Require Import ClientStore.
From S2P Require Import UserStore.
From S2P Require Import Verifiers.
From S2P Require Import Mls.
From S2P Require Import KeyRetrievers.
From S2P Require Import MlsServer.
From S2P Require Import MlsMember.
From stdpp Require Import options.

(** ** What the two sides send *)
Section types.
Context `{Mls} `{Sysinfo} {Uuid : Type}.

Record SavedState := mkSavedState {
  saved_mls_store : ExportedMlsStore;
  saved_persistent_data : EncryptedObject State;
}.

Inductive Update :=
  | UpdateMessage (uuid : Uuid) (message : MessageToMemberTransport)
  | UpdateKeyPackageCount (count : Z)
  | UpdateYieldRequest
  | UpdateGoodbye.

Record StateUpdate := mkStateUpdate {
  update_mls_store : ExportedMlsStore;
  update_persistent_data : EncryptedObject State;
  update_key_packages : list UnverifiedKeyPackage;
  update_aknowledged : list Uuid;
  update_messages : list MessageToServerTransport;
}.

Inductive ToServer :=
  | ToServerStateUpdate (update : StateUpdate)
  | ToServerGoodbye.

(** Everything the server writes after accepting the command goes through one
    stream of objects: the saved state, updates, and the answers to state
    updates. *)
Inductive ToClient :=
  | ObjectSavedState (state : SavedState)
  | ObjectUpdate (update : Update)
  | ObjectAnswer (answer : bool).
End types.

Definition WANTED_KEY_PACKAGES : Z := 100.

(** ** The server: handling a state update *)
Section handler.
Context `{X509, CR : Crypto, LoginTypes, Sysinfo, !Postcard StoredUser}.
Context `{MlsPublic} `{Hex} {K : Type} `{!KeyRetriever K} `{Verifier V}.
Context {Uuid : Type} `{EqDecision Uuid} `{Postcard MessageToMemberTransport}.
Context `{Postcard UnverifiedKeyPackage}.
Context (clock : nat → Z) (new_uuid : nat → Uuid) (new_package_id : nat → string)
  (describe : KeyPackageError → ExtError).

(** The stores of the server; [handler_draws] counts random identifiers and
    readings of the message store's clock. *)
Record UpdateUserMlsHandler := mkUpdateUserMlsHandler {
  user_store : UserStore;
  message_store : Messages.MessageStore (Uuid := Uuid);
  key_package_store : KeyPackages.KeyPackageStore;
  mls : MlsServer (K := K) (V := V);
  handler_draws : nat;
}.

Inductive UserMlsFailure :=
  | UserMlsKeyPackage (e : KeyPackageError)
  | UserMlsStore (e : StoreFailure)
  | UserMlsUser (e : UserStoreError)
  | UserMlsServer (e : ServerFailure)
  | UserMlsUnknownUser
  | UserMlsWrongPeer.

Definition on_mls {E A} (f : E → UserMlsFailure) (m : io (MlsServer (K := K) (V := V)) E A) :
    io UpdateUserMlsHandler UserMlsFailure A := λ h,
  let '(s, r) := m (mls h) in
  (mkUpdateUserMlsHandler (user_store h) (message_store h) (key_package_store h) s (handler_draws h),
   map_err f r).

Definition store_key_package (key_package : KeyPackage) :
    io UpdateUserMlsHandler UserMlsFailure () := λ h,
  let draws := S (handler_draws h) in
  match KeyPackages.add_key_package (stored_owner describe) (key_package_store h) (package_owner key_package)
          (to_unverified key_package) (new_package_id (handler_draws h)) with
  | Ok s => (mkUpdateUserMlsHandler (user_store h) (message_store h) s (mls h) draws, Ok ())
  | Err e => (mkUpdateUserMlsHandler (user_store h) (message_store h) (key_package_store h) (mls h) draws,
              Err (UserMlsStore e))
  | Panic => (mkUpdateUserMlsHandler (user_store h) (message_store h) (key_package_store h) (mls h) draws,
              Panic)
  end.

Definition add_user_key_package (user_hash : SpkiHash) (key_package : UnverifiedKeyPackage) :
    io UpdateUserMlsHandler UserMlsFailure () :=
  key_package ← on_mls UserMlsKeyPackage (server_verify_key_package clock key_package user_hash);
  store_key_package key_package.

Definition store_state (user_hash : SpkiHash) (update : StateUpdate (Uuid := Uuid)) :
    io UpdateUserMlsHandler UserMlsFailure () := λ h,
  match update_mls_data (user_store h) user_hash (update_mls_store update) (update_persistent_data update) with
  | Ok s => (mkUpdateUserMlsHandler s (message_store h) (key_package_store h) (mls h) (handler_draws h), Ok ())
  | Err e => (h, Err (UserMlsUser e))
  | Panic => (h, Panic)
  end.

Definition aknowledge_update (user_hash : SpkiHash) (ids : list Uuid) :
    io UpdateUserMlsHandler UserMlsFailure () := λ h,
  (mkUpdateUserMlsHandler (user_store h) (Messages.aknowledge_messages (message_store h) user_hash ids)
     (key_package_store h) (mls h) (handler_draws h), Ok ()).

Definition add_user_message (user_hash : SpkiHash) (to_send : MessageToSend) :
    io UpdateUserMlsHandler UserMlsFailure () := λ h,
  let draws := S (handler_draws h) in
  match Messages.add_message (message_store h) (new_uuid (handler_draws h)) (clock (handler_draws h))
          (remove_receiver to_send user_hash) with
  | Ok s => (mkUpdateUserMlsHandler (user_store h) s (key_package_store h) (mls h) draws, Ok ())
  | Err e => (mkUpdateUserMlsHandler (user_store h) (message_store h) (key_package_store h) (mls h) draws,
              Err (UserMlsStore e))
  | Panic => (mkUpdateUserMlsHandler (user_store h) (message_store h) (key_package_store h) (mls h) draws,
              Panic)
  end.

Definition process_user_message (user_hash : SpkiHash) (message : MessageToServerTransport) :
    io UpdateUserMlsHandler UserMlsFailure () :=
  to_send ← on_mls UserMlsServer (process_message clock message);
  io_iter (add_user_message user_hash) to_send.

Definition handle_state_update (user_hash : SpkiHash) (update : StateUpdate (Uuid := Uuid)) :
    io UpdateUserMlsHandler UserMlsFailure () :=
  _ ← io_iter (add_user_key_package user_hash) (update_key_packages update);
  _ ← store_state user_hash update;
  _ ← aknowledge_update user_hash (update_aknowledged update);
  io_iter (process_user_message user_hash) (update_messages update).

(** [handle_response]; a goodbye never gets here. *)
Definition handle_response (user_hash : SpkiHash) (response : ToServer (Uuid := Uuid)) :
    io UpdateUserMlsHandler UserMlsFailure () :=
  match response with
  | ToServerStateUpdate update => handle_state_update user_hash update
  | ToServerGoodbye => io_result Panic
  end.


(** *** What a state update does to the stores *)
Implicit Types h : UpdateUserMlsHandler.

(** The messages that wait for a user. *)
Abbreviation waiting h := (Messages.ids_for (message_store h)).

Definition stores_kept h h' : Prop :=
  user_store h' = user_store h ∧ message_store h' = message_store h.

(** Nothing is lost, and the user gets nothing new. *)
Definition mail_kept (user : SpkiHash) h h' : Prop :=
  user_store h' = user_store h ∧
  (Messages.store_ok (message_store h) → Messages.store_ok (message_store h') ∧
   (∀ id, id ∈ waiting h' user ↔ id ∈ waiting h user) ∧
   (∀ r id, id ∈ waiting h r → id ∈ waiting h' r)).

#[local] Instance stores_kept_preorder : PreOrder stores_kept.
Proof. split; [by intros h|]. intros a b c [E1 E2] [E3 E4]. split; congruence. Qed.

#[local] Instance mail_kept_preorder user : PreOrder (mail_kept user).
Proof.
  split; [by intros h|]. intros a b c [E1 K1] [E2 K2]. split; [congruence|].
  intros Hok. destruct (K1 Hok) as (Hok2 & I1 & S1). destruct (K2 Hok2) as (Hok3 & I2 & S2).
  split_and!; [done| |by eauto]. intros id. by rewrite I2, I1.
Qed.

Lemma mail_kept_same user h h' :
  user_store h' = user_store h → message_store h' = message_store h → mail_kept user h h'.
Proof. intros Eu Em. split; [done|]. rewrite Em. by intros Hok. Qed.

Lemma keeps_on_mls (R : relation UpdateUserMlsHandler) {E A} (f : E → UserMlsFailure) m :
  (∀ h s, R h (mkUpdateUserMlsHandler (user_store h) (message_store h) (key_package_store h) s (handler_draws h))) →
  keeps R (on_mls (A := A) f m).
Proof. intros HR h h' r. unfold on_mls. destruct (m (mls h)) as [s r']. intros [= <- _]. apply HR. Qed.

Lemma keeps_add_package user kp : keeps stores_kept (add_user_key_package user kp).
Proof.
  apply keeps_bind; [apply _|by apply keeps_on_mls|]. intros v h h' r. unfold store_key_package.
  destruct (KeyPackages.add_key_package _ _ _ _ _); by intros [= <- _].
Qed.

Lemma keeps_add_message user m : keeps (mail_kept user) (add_user_message user m).
Proof.
  intros h h' r. unfold add_user_message.
  destruct (Messages.add_message _ _ _ _) as [s|e|] eqn:Ha; intros [= <- _]; [|by apply mail_kept_same..].
  split; [done|]. intros Hok. cbn. destruct (Messages.add_message_ids _ _ _ _ _ Hok Ha) as (Hf & Hr & Ho).
  split_and!; [exact (Messages.add_message_ok _ _ _ _ _ Hok Ha)| |].
  - intros id. destruct (decide (id = new_uuid (handler_draws h))) as [->|Hid]; [|by apply Ho].
    rewrite Hr. cbn. rewrite list_elem_of_filter. split; [by intros [? _]|by intros ?%Hf].
  - intros r' id Hin. apply Ho; [|done]. intros ->. by eapply Hf.
Qed.

Lemma keeps_process_message user m : keeps (mail_kept user) (process_user_message user m).
Proof.
  apply keeps_bind; [apply _|by apply keeps_on_mls|]. intros l. apply keeps_iter; [apply _|].
  intros a. apply keeps_add_message.
Qed.

Lemma handled_update_stored `{!PostcardLaws StoredUser} user u update h h' :
  users_reachable (user_store h) → get_user (user_store h) user = Ok (Some u) →
  handle_state_update user update h = (h', Ok ()) →
  get_user (user_store h') user =
    Ok (Some (with_mls_data u (update_mls_store update) (update_persistent_data update))).
Proof.
  intros Hr Hu (h1 & [] & Hp & Hh)%io_bind_inv.
  apply (keeps_iter stores_kept) in Hp as [Eu _]; [|intros; apply keeps_add_package].
  apply io_bind_inv in Hh as (h2 & [] & Hs & Hh). unfold store_state in Hs. rewrite Eu in Hs.
  destruct (update_mls_data_only _ user (update_mls_store update) (update_persistent_data update) Hr)
    as [Hupd _].
  specialize (Hupd _ Hu).
  destruct (to_stdvec (with_mls_data u (update_mls_store update) (update_persistent_data update))); cycle 1.
  1, 2: rewrite Hupd in Hs; by injection Hs.
  destruct Hupd as (s' & Hupd & Hget & _). rewrite Hupd in Hs. injection Hs as <-.
  apply io_bind_inv in Hh as (h3 & [] & [= <-] & Hh).
  apply (keeps_iter (mail_kept user)) in Hh as [-> _]; [done|intros; apply keeps_process_message].
Qed.

(** C11: What a session has worked through is never forgotten, and what it has
    not is never lost. Whatever a state update contains and however far its
    handling gets: either no message and no state has changed, and the session
    is told of an error; or the user's new state is stored, exactly the
    acknowledged messages no longer wait for the user, and nobody else has
    lost a message. *)
Theorem state_stored_before_messages_go `{!PostcardLaws StoredUser} user u update h h' r :
  users_reachable (user_store h) → get_user (user_store h) user = Ok (Some u) →
  Messages.store_ok (message_store h) →
  handle_state_update user update h = (h', r) →
  (stores_kept h h' ∧ r ≠ Ok ()) ∨
  (get_user (user_store h') user =
     Ok (Some (with_mls_data u (update_mls_store update) (update_persistent_data update))) ∧
   (∀ id, id ∈ waiting h' user ↔ id ∈ waiting h user ∧ id ∉ update_aknowledged update) ∧
   (∀ other id, other ≠ user → id ∈ waiting h other → id ∈ waiting h' other)).
Proof.
  intros Hr Hu Hok Hh. apply io_bind_cases in Hh as [(h1 & [] & Hp & Hh)|(r' & Hp & _ & Hf)].
  2:{ left. split; [|by intros ->]. eapply keeps_iter; [apply _| |exact Hp]. intros; apply keeps_add_package. }
  apply (keeps_iter stores_kept) in Hp as [Eu Em]; [|intros; apply keeps_add_package].
  destruct (update_mls_data_only _ user (update_mls_store update) (update_persistent_data update) Hr)
    as [Hupd _].
  specialize (Hupd _ Hu). apply io_bind_cases in Hh as [(h2 & [] & Hs & Hh)|(r' & Hs & Hf' & Hf)];
    unfold store_state in Hs; rewrite Eu in Hs.
  2:{ left. split; [|by intros ->]. by destruct (update_mls_data _ _ _ _); injection Hs as <- <-. }
  right. destruct (to_stdvec (with_mls_data u (update_mls_store update) (update_persistent_data update))); cycle 1.
  1, 2: rewrite Hupd in Hs; by injection Hs.
  destruct Hupd as (s' & Hupd & Hget & _). rewrite Hupd in Hs. injection Hs as <-.
  unfold mbind, io_bind, aknowledge_update in Hh. cbn in Hh.
  apply (keeps_iter (mail_kept user)) in Hh as [Eu' Hm]; [|intros; apply keeps_process_message].
  cbn in Eu', Hm. rewrite Em in Hm.
  destruct (Hm (Messages.aknowledge_messages_ok _ _ _ Hok)) as (_ & Hi & Hs).
  rewrite Eu'. split_and!; [done| |].
  - intros id. rewrite Hi, Messages.aknowledge_messages_ids. tauto.
  - intros other id Ho Hid. apply Hs, Messages.aknowledge_messages_ids. auto.
Qed.

(** The start of [handle]: whose state it is, and the state. *)
Definition open_user_mls (peer : Peer) (h : UpdateUserMlsHandler) :
    result UserMlsFailure (SpkiHash * SavedState) :=
  match peer with
  | Anonymous => Err UserMlsWrongPeer
  | PeerCertificate peer =>
      if bool_decide (certificate_type peer ≠ UserSession) then Err UserMlsWrongPeer
      else
        let user_hash := issuer peer in
        user ← map_err UserMlsUser (get_user (user_store h) user_hash);
        user ← ok_or user UserMlsUnknownUser;
        Ok (user_hash, mkSavedState (mls_store user) (persistent_data user))
  end.
End handler.

(** ** The session: one state at a time *)
Section client.
Context `{Sysinfo} `{Aead, Postcard State, Postcard (gmap (list Z) (list Z))}.
Context `{MlsPrivate} `{Hex} {K : Type} `{!KeyRetriever K} `{Verifier V}.
Context `{!Postcard (SvalinMessage SvalinReport SvalinMetaInfo)} {Uuid : Type}.
Context (clock : nat → Z) (random : nat → list Z).
(** The values of the client's in-memory storage, as [MemoryStorage] holds
    them, and the storage made from such values. *)
Context (storage_values : MemberStorage → gmap (list Z) (list Z))
  (storage_of_values : gmap (list Z) (list Z) → MemberStorage).

Record UserMlsClient := mkUserMlsClient {
  client : MlsNode (K := K) (V := V);
  persistent_data : State;
  aknowledge : list Uuid;
  messages : list MessageToServerTransport;
  key_packages : list UnverifiedKeyPackage;
  should_yield : bool;
  masks : nat;
}.

Inductive ClientFailureKind :=
  | FailImport (e : DecryptError)
  | FailPersistent (e : DecryptError)
  | FailWrongCertificateType
  | FailHandle (e : ClientFailure)
  | FailCreateKeyPackage (e : MlsFailure)
  | FailEncrypt (e : EncryptError).

Definition open_state (certificate : Certificate) (key_retriever : K) (verifier : V) (key : EncryptionKey)
    (readings masks : nat) (state : SavedState) : result ClientFailureKind UserMlsClient :=
  values ← map_err FailImport (decrypt_object (exported_mls (saved_mls_store state)) key);
  persistent_data ← map_err FailPersistent (decrypt_object (saved_persistent_data state) key);
  _ ← ensure (client_certificate_ok (certificate_type certificate)) FailWrongCertificateType;
  Ok (mkUserMlsClient
        (mkHarness key_retriever verifier
           (mkMlsProcessor ∅ (storage_of_values values) certificate true) readings)
        persistent_data [] [] [] false masks).

Definition on_client {E A} (f : E → ClientFailureKind) (m : io (MlsNode (K := K) (V := V)) E A) :
    io UserMlsClient ClientFailureKind A := λ c,
  let '(n, r) := m (client c) in
  (mkUserMlsClient n (persistent_data c) (aknowledge c) (messages c) (key_packages c) (should_yield c)
     (masks c), map_err f r).

Definition push_aknowledge (uuid : Uuid) (data : State) : io UserMlsClient ClientFailureKind bool := λ c,
  let aknowledge := aknowledge c ++ [uuid] in
  (mkUserMlsClient (client c) data aknowledge (messages c) (key_packages c) (should_yield c) (masks c),
   Ok (bool_decide (10 ≤ Z.of_nat (length aknowledge)))).

Definition push_key_package (key_package : UnverifiedKeyPackage) : io UserMlsClient ClientFailureKind () := λ c,
  (mkUserMlsClient (client c) (persistent_data c) (aknowledge c) (messages c)
     (key_packages c ++ [key_package]) (should_yield c) (masks c), Ok ()).

Definition set_yield : io UserMlsClient ClientFailureKind () := λ c,
  (mkUserMlsClient (client c) (persistent_data c) (aknowledge c) (messages c) (key_packages c) true (masks c),
   Ok ()).

Definition apply_content (content : MessageDataContent SvalinReport SvalinMetaInfo) (data : State) : State :=
  match content with
  | DataReport spki_hash report => state_update data (UpdateSystemReport spki_hash report)
  | DataMetaInfo spki_hash meta_info => state_update data (UpdateMetaInfo spki_hash meta_info)
  | Internal => data
  end.

(** [while key_package_count < WANTED_KEY_PACKAGES]; the fuel is the number of
    rounds. *)
Definition create_client_key_package : io UserMlsClient ClientFailureKind () :=
  key_package ← on_client FailCreateKeyPackage (on_member create_key_package);
  push_key_package (to_unverified key_package).

Fixpoint fill_key_packages (fuel : nat) (key_package_count : Z) : io UserMlsClient ClientFailureKind () :=
  match fuel with
  | O => mret ()
  | S fuel =>
      if key_package_count <? WANTED_KEY_PACKAGES then
        _ ← create_client_key_package;
        fill_key_packages fuel (key_package_count + 1)
      else mret ()
  end.

(** One round of the inner loop, up to sending: an update of the server's, or
    [None] for the timeout. The result says whether to send a state update;
    the goodbye ends the command. *)
Inductive Round := RoundEnd | RoundNext (send_update : bool).

Definition client_round (update : option (Update (Uuid := Uuid))) : io UserMlsClient ClientFailureKind Round :=
  match update with
  | Some (UpdateMessage uuid message) =>
      handled ← on_client FailHandle (client_handle_message clock message);
      c ← io_get;
      send_update ← push_aknowledge uuid (apply_content (data_content handled) (persistent_data c));
      mret (RoundNext send_update)
  | Some (UpdateKeyPackageCount key_package_count) =>
      _ ← fill_key_packages (Z.to_nat (WANTED_KEY_PACKAGES - key_package_count)) key_package_count;
      mret (RoundNext (key_package_count <? WANTED_KEY_PACKAGES))
  | Some UpdateYieldRequest =>
      _ ← set_yield;
      mret (RoundNext true)
  | Some UpdateGoodbye => mret RoundEnd
  | None =>
      c ← io_get;
      mret (RoundNext (negb (bool_decide (aknowledge c = [])) || negb (bool_decide (messages c = []))))
  end.

(** The state update that is sent, with [mem::replace] on the three lists. *)
Definition take_state_update (key : EncryptionKey) : io UserMlsClient ClientFailureKind (StateUpdate (Uuid := Uuid)) := λ c,
  let sent := mkUserMlsClient (client c) (persistent_data c) [] [] [] (should_yield c) (S (S (masks c))) in
  match (mls_store ← map_err FailEncrypt
           (encrypt_object (random (masks c)) (storage_values (member_storage (processor (client c)))) key);
         data ← map_err FailEncrypt (encrypt_object (random (S (masks c))) (persistent_data c) key);
         Ok (mkStateUpdate (mkExportedMlsStore mls_store) data (key_packages c) (aknowledge c) (messages c)))
  with
  | Ok update => (sent, Ok update)
  | Err e => (c, Err e)
  | Panic => (c, Panic)
  end.
End client.

(** ** Both sides *)
Section exchange.
Context `{X509, CR : Crypto, LoginTypes, Sysinfo, !Postcard StoredUser}.
Context `{Mls, !MlsWire, !MlsPublic, !MlsPrivate} `{Hex}.
Context {K : Type} `{!KeyRetriever K} `{Verifier V} {K' : Type} `{!KeyRetriever K'} `{Verifier V'}.
Context `{!Postcard (SvalinMessage SvalinReport SvalinMetaInfo)} `{Aead, Postcard State}.
Context `{!Postcard (gmap (list Z) (list Z)), !Postcard MessageToMemberTransport, !Postcard UnverifiedKeyPackage}.
Context {Uuid : Type} `{EqDecision Uuid}.
Context (clock : nat → Z) (new_uuid : nat → Uuid) (new_package_id : nat → string)
  (describe : KeyPackageError → ExtError) (random : nat → list Z).
Context (storage_values : MemberStorage → gmap (list Z) (list Z))
  (storage_of_values : gmap (list Z) (list Z) → MemberStorage).

Abbreviation Server := (UpdateUserMlsHandler (K := K) (V := V) (Uuid := Uuid)).
Abbreviation Client := (UserMlsClient (K := K') (V := V') (Uuid := Uuid)).
Abbreviation handle_update := (handle_state_update clock new_uuid new_package_id describe (K := K) (V := V)).
Abbreviation take_update := (take_state_update random storage_values (K := K') (V := V') (Uuid := Uuid)).

Lemma take_update_inv key (c c' : Client) update :
  take_update key c = (c', Ok update) →
  encrypt_object (random (masks c)) (storage_values (member_storage (processor (client c)))) key =
    Ok (exported_mls (update_mls_store update)) ∧
  encrypt_object (random (S (masks c))) (persistent_data c) key = Ok (update_persistent_data update) ∧
  update_aknowledged update = aknowledge c ∧ update_key_packages update = key_packages c ∧
  update_messages update = messages c ∧ aknowledge c' = [] ∧ key_packages c' = [] ∧ messages c' = [] ∧
  client c' = client c ∧ persistent_data c' = persistent_data c.
Proof.
  unfold take_state_update.
  destruct (map_err FailEncrypt (encrypt_object _ (storage_values _) key)) as [e| |] eqn:He; [|done|done].
  apply map_err_Ok in He. cbn [mbind result_bind].
  destruct (map_err FailEncrypt (encrypt_object _ (persistent_data c) key)) as [d| |] eqn:Hd; [|done|done].
  apply map_err_Ok in Hd. by intros [= <- <-].
Qed.

(** C28: A session continues where the last one stopped: once the server has
    taken a state update, whichever session of the user opens the state next,
    with the same key, finds the groups' storage and the persistent data that
    were sent, as they were, with nothing left to acknowledge. *)
Theorem next_session_continues
    `{!AeadLaws, !PostcardLaws StoredUser, !PostcardLaws State, !PostcardLaws (gmap (list Z) (list Z))}
    key (c c' : Client) update user u (h h' : Server)
    (peer certificate : Certificate) (kr : K') (v : V') readings masks :
  (∀ s, storage_of_values (storage_values s) = s) →
  take_update key c = (c', Ok update) →
  users_reachable (user_store h) → get_user (user_store h) user = Ok (Some u) →
  handle_update user update h = (h', Ok ()) →
  issuer peer = user → certificate_type peer = UserSession →
  client_certificate_ok (certificate_type certificate) = true →
  ∃ saved, open_user_mls (PeerCertificate peer) h' = Ok (user, saved) ∧
    open_state storage_of_values certificate kr v key readings masks saved =
      Ok (mkUserMlsClient
            (mkHarness kr v
              (mkMlsProcessor ∅ (member_storage (processor (client c))) certificate true) readings)
            (persistent_data c) [] [] [] false masks : Client).
Proof.
  intros Hs (He & Hd & _)%take_update_inv Hr Hu Hh Hi Ht Hc.
  pose proof Hh as Hget. apply (handled_update_stored _ _ _ _ _ u) in Hget; [|done|done].
  eexists. split.
  - unfold open_user_mls. rewrite Ht, bool_decide_false by (by intros []). cbn.
    rewrite Hi, Hget. done.
  - unfold open_state. cbn. rewrite (decrypt_encrypt_object _ _ _ _ He). cbn.
    rewrite (decrypt_encrypt_object _ _ _ _ Hd). cbn. rewrite Hc. cbn. by rewrite Hs.
Qed.

(** *** Key packages *)
Lemma create_key_package_pushes (c c' : Client) u :
  create_client_key_package c = (c', Ok u) →
  length (key_packages c') = S (length (key_packages c)) ∧ aknowledge c' = aknowledge c ∧
  persistent_data c' = persistent_data c.
Proof.
  intros (c1 & kp & Hk & [= <-])%io_bind_inv. unfold on_client in Hk.
  destruct (on_member create_key_package (client c)) as [n r]. injection Hk as <- _. cbn.
  rewrite length_app. cbn. split; [lia|done].
Qed.

Lemma fill_key_packages_length fuel n (c c' : Client) u :
  n ≤ WANTED_KEY_PACKAGES → fuel = Z.to_nat (WANTED_KEY_PACKAGES - n) →
  fill_key_packages fuel n c = (c', Ok u) →
  Z.of_nat (length (key_packages c')) = Z.of_nat (length (key_packages c)) + (WANTED_KEY_PACKAGES - n).
Proof.
  revert n c. induction fuel as [|fuel IH]; intros n c Hn Hf; cbn.
  - intros [= <- _]. lia.
  - rewrite (proj2 (Z.ltb_lt n _)) by lia.
    intros (c1 & v & (Hl & _)%create_key_package_pushes & Hr)%io_bind_inv.
    apply IH in Hr; lia.
Qed.

(** A session tops the key packages of its user up: told that the server
    has [n] of them left, and if none fails to be made, it has made exactly
    what is missing to a hundred and sends it, with everything else it has;
    with a hundred or more it makes none and sends nothing. *)
Theorem key_packages_topped_up n (c c' : Client) send :
  0 ≤ n →
  client_round clock (Some (UpdateKeyPackageCount n)) c = (c', Ok (RoundNext send)) →
  send = bool_decide (n < 100) ∧
  Z.of_nat (length (key_packages c')) = Z.of_nat (length (key_packages c)) + Z.max 0 (100 - n).
Proof.
  intros Hn (c1 & u & Hf & [= <- <-])%io_bind_inv. split.
  { unfold WANTED_KEY_PACKAGES. case_bool_decide; lia. }
  destruct (decide (n ≤ WANTED_KEY_PACKAGES)) as [Hle|Hgt].
  - apply fill_key_packages_length in Hf; [|done|done]. unfold WANTED_KEY_PACKAGES in *. lia.
  - replace (Z.to_nat (WANTED_KEY_PACKAGES - n)) with O in Hf by lia. injection Hf as <-.
    unfold WANTED_KEY_PACKAGES in *. lia.
Qed.

(** *** The connection

    The server waits for four things at once ([select!]) and takes whichever
    is ready; the two directions of the session are queues of whole objects,
    and reading one can fail at any time. The session's end reads one object
    at a time, of the type it expects. While it waits for an answer it goes on
    whatever it reads, and also when reading fails: the outcome is only logged.
    What an answer decodes to where an update is expected is the encoding's
    business; the saved state comes first and once. *)
Inductive ClientStatus :=
  | ClientOpening
  | ClientUpdating (c : Client)
  | ClientAwaiting (c : Client) (update_session_state : bool)
  | ClientReturned (failed : bool).

Inductive ServerStatus := Serving | ServerReturned (failed : bool).

Record Connection := mkUserMlsConnection {
  handler : Server;
  stream : list (Uuid * MessageToMemberTransport);
  to_client : list (ToClient (Uuid := Uuid));
  to_server : list (ToServer (Uuid := Uuid));
  server_status : ServerStatus;
  client_status : ClientStatus;
  session_states : list State;
}.

Inductive Event :=
  | StreamDelivers (uuid : Uuid) (message : MessageToMemberTransport)
  | ServerReceives
  | ServerStreamEnds
  | ServerReads
  | ServerTimer
  | ServerCancelled
  | ServerReadFails
  | ClientReads
  | ClientReadFails
  | ClientTimeout
  | ClientCancelled.

Definition write_client (o : list (ToClient (Uuid := Uuid))) (s : ServerStatus) (h : Server)
    (stream : list (Uuid * MessageToMemberTransport)) (to_server : list ToServer) (c : Connection) : Connection :=
  mkUserMlsConnection h stream (to_client c ++ o) to_server s (client_status c) (session_states c).

(** A branch of the server's [select!], when it is ready. *)
Definition server_select (user : SpkiHash) (e : Event) (c : Connection) : option Connection :=
  match e with
  | ServerReceives =>
      match stream c with
      | (uuid, message) :: rest =>
          Some (write_client [ObjectUpdate (UpdateMessage uuid message)] Serving (handler c) rest (to_server c) c)
      | [] => None
      end
  | ServerStreamEnds =>
      match stream c with
      | [] => Some (write_client [ObjectUpdate UpdateGoodbye] (ServerReturned false) (handler c) [] (to_server c) c)
      | _ => None
      end
  | ServerReads =>
      match to_server c with
      | ToServerGoodbye :: rest =>
          Some (write_client [ObjectUpdate UpdateGoodbye] (ServerReturned false) (handler c) (stream c) rest c)
      | ToServerStateUpdate update :: rest =>
          Some (match handle_response clock new_uuid new_package_id describe user
                        (ToServerStateUpdate update) (handler c) with
                | (h, Ok _) => write_client [ObjectAnswer true] Serving h (stream c) rest c
                | (h, Err _) => write_client [ObjectAnswer false] (ServerReturned true) h (stream c) rest c
                | (h, Panic) => write_client [] (ServerReturned true) h (stream c) rest c
                end)
      | [] => None
      end
  | ServerTimer =>
      Some (write_client
              [ObjectUpdate (UpdateKeyPackageCount
                 (Z.of_nat (KeyPackages.count_key_packages (key_package_store (handler c)) user)))]
              Serving (handler c) (stream c) (to_server c) c)
  | ServerCancelled =>
      Some (write_client [ObjectUpdate UpdateGoodbye] (ServerReturned false) (handler c) (stream c) (to_server c) c)
  | _ => None
  end.

Definition with_client (status : ClientStatus) (sent : list ToServer) (states : list State) (c : Connection) :
    Connection :=
  mkUserMlsConnection (handler c) (stream c) (to_client c) (to_server c ++ sent) (server_status c) status
    (session_states c ++ states).

(** A round of the client's loop, with what it sends. *)
Definition client_updates (key : EncryptionKey) (update : option Update) (l : Client) (c : Connection) : Connection :=
  match client_round clock update l with
  | (l, Ok RoundEnd) => with_client (ClientReturned false) [] [] c
  | (l, Ok (RoundNext true)) =>
      match take_update key l with
      | (l', Ok update) =>
          with_client (ClientAwaiting l' (negb (bool_decide (messages l = [])))) [ToServerStateUpdate update] [] c
      | (_, _) => with_client (ClientReturned true) [] [] c
      end
  | (l, Ok (RoundNext false)) =>
      with_client (if should_yield l then ClientOpening else ClientUpdating l) [] [] c
  | (_, _) => with_client (ClientReturned true) [] [] c
  end.

Context (certificate : Certificate) (key_retriever : K') (verifier : V').
(** What the answer to a state update is decoded to as an update. *)
Context (answer_as_update : bool → option (Update (Uuid := Uuid))).

Definition client_goes_on (l : Client) (update_session_state : bool) (c : Connection) : Connection :=
  with_client (if should_yield l then ClientOpening else ClientUpdating l) []
    (if update_session_state then [persistent_data l] else []) c.

Definition client_reads (key : EncryptionKey) (c : Connection) : option Connection :=
  match to_client c with
  | [] => None
  | object :: rest =>
      let c := mkUserMlsConnection (handler c) (stream c) rest (to_server c) (server_status c)
                 (client_status c) (session_states c) in
      match client_status c, object with
      | ClientOpening, ObjectSavedState saved =>
          Some (match open_state storage_of_values certificate key_retriever verifier key 0 0 saved with
                | Ok l => with_client (ClientUpdating l) [] [] c
                | _ => with_client (ClientReturned true) [] [] c
                end)
      | ClientUpdating l, ObjectUpdate update => Some (client_updates key (Some update) l c)
      | ClientUpdating l, ObjectAnswer answer =>
          Some (match answer_as_update answer with
                | Some update => client_updates key (Some update) l c
                | None => with_client (ClientReturned true) [] [] c
                end)
      | ClientAwaiting l update_session_state, _ => Some (client_goes_on l update_session_state c)
      | _, _ => None
      end
  end.

Definition connection_step (user : SpkiHash) (key : EncryptionKey) (e : Event) (c : Connection) : option Connection :=
  match e with
  | StreamDelivers uuid message =>
      Some (mkUserMlsConnection (handler c) (stream c ++ [(uuid, message)]) (to_client c) (to_server c)
              (server_status c) (client_status c) (session_states c))
  | ServerReceives | ServerStreamEnds | ServerReads | ServerTimer | ServerCancelled =>
      match server_status c with Serving => server_select user e c | _ => None end
  | ServerReadFails =>
      match server_status c with
      | Serving => Some (write_client [] (ServerReturned true) (handler c) (stream c) (to_server c) c)
      | _ => None
      end
  | ClientReads => client_reads key c
  | ClientReadFails =>
      match client_status c with
      | ClientOpening | ClientUpdating _ => Some (with_client (ClientReturned true) [] [] c)
      | ClientAwaiting l update_session_state => Some (client_goes_on l update_session_state c)
      | ClientReturned _ => None
      end
  | ClientTimeout =>
      match client_status c with ClientUpdating l => Some (client_updates key None l c) | _ => None end
  | ClientCancelled =>
      match client_status c with
      | ClientUpdating _ => Some (with_client (ClientReturned false) [ToServerGoodbye] [] c)
      | ClientOpening => Some (with_client (ClientReturned false) [] [] c)
      | _ => None
      end
  end.

Definition connection_run (user : SpkiHash) (key : EncryptionKey) (es : list Event) (c : Connection) :
    option Connection :=
  foldl (λ o e, c ← o; connection_step user key e c) (Some c) es.

(** *** Properties of connections *)
Implicit Types c : Connection.
Implicit Types l : Client.

(** The messages the session acknowledges, or is about to. *)
Definition client_aknowledged (s : ClientStatus) : list Uuid :=
  match s with
  | ClientUpdating l | ClientAwaiting l _ => aknowledge l
  | _ => []
  end.

Definition sent_aknowledged (o : ToServer) : list Uuid :=
  match o with ToServerStateUpdate update => update_aknowledged update | ToServerGoodbye => [] end.

Definition acknowledged c : list Uuid :=
  client_aknowledged (client_status c) ++ (to_server c ≫= sent_aknowledged).

Definition fresh_connection (h : Server) (saved : SavedState) : Connection :=
  mkUserMlsConnection h [] [ObjectSavedState saved] [] Serving ClientOpening [].

Lemma fill_keeps_aknowledged fuel n l l' u :
  fill_key_packages fuel n l = (l', Ok u) → aknowledge l' = aknowledge l.
Proof.
  revert n l. induction fuel as [|fuel IH]; intros n l; cbn; [by intros [= <-]|].
  destruct (n <? _); [|by intros [= <-]].
  intros (l1 & v & (_ & Hl & _)%create_key_package_pushes & Hr)%io_bind_inv.
  apply IH in Hr. by rewrite Hr.
Qed.

Lemma client_round_aknowledged update l l' r :
  client_round clock update l = (l', Ok r) →
  match update with
  | Some (UpdateMessage uuid message) =>
      (∃ n' data, client_handle_message clock message (client l) = (n', Ok data)) ∧ aknowledge l' = aknowledge l ++ [uuid]
  | _ => aknowledge l' = aknowledge l
  end.
Proof.
  destruct update as [[uuid message|n| |]|]; cbn.
  - intros (l1 & data & Hh & Hr)%io_bind_inv. unfold on_client in Hh.
    destruct (client_handle_message clock message (client l)) as [n r'] eqn:Hm.
    injection Hh as <- Hr'. apply map_err_Ok in Hr' as ->. split; [by exists n, data|].
    apply io_bind_inv in Hr as (l2 & x & [= <- <-] & Hr). by apply io_bind_inv in Hr as (l3 & b & [= <- _] & [= <- _]).
  - intros (l1 & u & Hf%fill_keeps_aknowledged & [= <- _])%io_bind_inv. done.
  - by intros (l1 & u & [= <-] & [= <- _])%io_bind_inv.
  - by intros [= <- _].
  - by intros (l1 & x & [= <- _] & [= <- _])%io_bind_inv.
Qed.

(** What has been delivered, and what has been acknowledged of it. *)
Definition delivered (es : list Event) (uuid : Uuid) (message : MessageToMemberTransport) : Prop :=
  StreamDelivers uuid message ∈ es.

(** The session itself has handled the message, at a step of the run. *)
Definition handled_in user key (es : list Event) (start : Connection) (uuid : Uuid) (message : MessageToMemberTransport) : Prop :=
  ∃ before after c l rest n' data,
    es = before ++ ClientReads :: after ∧ connection_run user key before start = Some c ∧
    client_status c = ClientUpdating l ∧ to_client c = ObjectUpdate (UpdateMessage uuid message) :: rest ∧
    client_handle_message clock message (client l) = (n', Ok data).

Lemma handled_in_more user key es e start uuid message :
  handled_in user key es start uuid message → handled_in user key (es ++ [e]) start uuid message.
Proof.
  intros (before & after & c & l & rest & n & data & -> & ?). exists before, (after ++ [e]), c, l, rest, n, data.
  by rewrite <-app_assoc.
Qed.

Lemma delivered_more es e uuid message : delivered es uuid message → delivered (es ++ [e]) uuid message.
Proof. unfold delivered. set_solver. Qed.

Section only_handled.
(** What the session has handled. *)
Variable seen : Uuid → MessageToMemberTransport → Prop.

Definition only_handled (es : list Event) c : Prop :=
  (∀ uuid message, (uuid, message) ∈ stream c → delivered es uuid message) ∧
  (∀ uuid message, ObjectUpdate (UpdateMessage uuid message) ∈ to_client c → delivered es uuid message) ∧
  (∀ uuid, uuid ∈ acknowledged c → ∃ message, delivered es uuid message ∧ seen uuid message).

(** The session's own rounds. *)
Lemma client_updates_handled es key update l c :
  only_handled es c → client_aknowledged (client_status c) = aknowledge l →
  (∀ uuid message n' data, update = Some (UpdateMessage uuid message) →
    client_handle_message clock message (client l) = (n', Ok data) → delivered es uuid message ∧ seen uuid message) →
  only_handled es (client_updates key update l c).
Proof.
  intros (I1 & I2 & I3) Hl Hu. unfold client_updates.
  destruct (client_round clock update l) as [l1 r] eqn:Hr.
  assert (∀ r', r = Ok r' → ∀ uuid, uuid ∈ aknowledge l1 → ∃ m, delivered es uuid m ∧ seen uuid m) as Hl1.
  { intros r' -> uuid Hin. apply client_round_aknowledged in Hr.
    assert (∀ uuid, uuid ∈ aknowledge l → ∃ m, delivered es uuid m ∧ seen uuid m) as Hold.
    { intros x Hx. apply I3. unfold acknowledged. rewrite Hl. set_solver. }
    destruct update as [[id m| | |]|]; try (rewrite Hr in Hin; by apply Hold).
    destruct Hr as [(n1 & data & Hm) Ha]. rewrite Ha in Hin. apply elem_of_app in Hin as [Hin|Hin%list_elem_of_singleton];
      [by apply Hold|]. subst. exists m. by eapply Hu. }
  assert (∀ s sent states,
    (∀ uuid, uuid ∈ client_aknowledged s ++ (sent ≫= sent_aknowledged) → ∃ m, delivered es uuid m ∧ seen uuid m) →
    only_handled es (with_client s sent states c)) as Hw.
  { intros s sent states Hs. split_and!; [exact I1|exact I2|]. intros uuid. unfold acknowledged. cbn.
    rewrite bind_app, !elem_of_app. intros [Hin|[Hin|Hin]].
    - apply Hs. set_solver.
    - apply I3. unfold acknowledged. set_solver.
    - apply Hs. set_solver. }
  destruct r as [[|[|]]|e|]; try (apply Hw; cbn; intros uuid Hin; by apply elem_of_nil in Hin).
  - destruct (take_update key l1) as [l2 r2] eqn:Ht.
    destruct r2 as [upd|e|]; try (apply Hw; cbn; intros uuid Hin; by apply elem_of_nil in Hin).
    apply take_update_inv in Ht as (_ & _ & Ha & _ & _ & Hn & _). apply Hw. cbn. rewrite Hn, app_nil_r, Ha. cbn.
    by eapply Hl1.
  - apply Hw. cbn. rewrite app_nil_r. destruct (should_yield l1); cbn; [by intros uuid ?%elem_of_nil|by eapply Hl1].
Qed.

Lemma server_select_handled user es e c c' :
  only_handled es c → server_select user e c = Some c' → only_handled es c'.
Proof.
  clear answer_as_update.
  intros (I1 & I2 & I3).
  assert (∀ o s h st ts, (∀ x, x ∈ st → x ∈ stream c) → (∀ x, x ∈ ts → x ∈ to_server c) →
    (∀ uuid message, ObjectUpdate (UpdateMessage uuid message) ∈ o → delivered es uuid message) →
    only_handled es (write_client o s h st ts c)) as Hw.
  { intros o s h st ts Hst Hts Ho. split_and!; cbn.
    - intros uuid m Hin. by apply I1, Hst.
    - intros uuid m [Hin|Hin]%elem_of_app; [by apply I2|by apply Ho].
    - intros uuid. unfold acknowledged. cbn. rewrite elem_of_app. intros [Hin|Hin]; apply I3;
        unfold acknowledged; apply elem_of_app; [by left|right].
      apply list_elem_of_bind in Hin as (x & Hx & Hin). apply list_elem_of_bind. exists x. auto. }
  assert (∀ b uuid m, ObjectUpdate (UpdateMessage uuid m) ∈ [ObjectAnswer (Uuid := Uuid) b] → delivered es uuid m) as Ha
    by (intros b uuid m; set_solver).
  destruct e; cbn; try done.
  - destruct (stream c) as [|[uuid m] rest] eqn:Hs; [done|]. intros [= <-].
    apply Hw; [set_solver|done|]. intros id x [= -> ->]%list_elem_of_singleton. apply I1. by left.
  - destruct (stream c); [|done]. intros [= <-]. apply Hw; [done|done|]. intros id x [=]%list_elem_of_singleton.
  - destruct (to_server c) as [|[update|] rest] eqn:Hs; [done| |];
      [|intros [= <-]; apply Hw; set_solver].
    destruct (handle_update user update (handler c)) as [h [u|f|]]; intros [= <-]; apply Hw; set_solver.
  - intros [= <-]. apply Hw; set_solver.
  - intros [= <-]. apply Hw; set_solver.
Qed.

Lemma open_state_fresh cert kr v key r m saved l :
  open_state storage_of_values cert kr v key r m saved = Ok l → aknowledge l = [].
Proof. intros (x & _ & (y & _ & (z & _ & [= <-])%bind_Ok)%bind_Ok)%bind_Ok. done. Qed.

Lemma client_reads_handled es key c c' :
  (∀ b uuid message, answer_as_update b ≠ Some (UpdateMessage uuid message)) →
  (∀ l uuid message rest n' data, client_status c = ClientUpdating l →
    to_client c = ObjectUpdate (UpdateMessage uuid message) :: rest →
    client_handle_message clock message (client l) = (n', Ok data) → seen uuid message) →
  only_handled es c → client_reads key c = Some c' → only_handled es c'.
Proof.
  intros Hansw Hseen (I1 & I2 & I3). unfold client_reads. destruct (to_client c) as [|object rest] eqn:Hc; [done|].
  set (c0 := mkUserMlsConnection _ _ _ _ _ _ _).
  assert (only_handled es c0) as I0.
  { split_and!; [exact I1| |exact I3]. intros uuid m Hin. apply I2. by right. }
  assert (∀ s states, client_aknowledged s ⊆ client_aknowledged (client_status c) →
    only_handled es (with_client s [] states c0)) as Hw.
  { intros s states Hs. destruct I0 as (J1 & J2 & J3). split_and!; [exact J1|exact J2|].
    intros uuid. unfold acknowledged. cbn. rewrite app_nil_r, elem_of_app. intros Hin. apply J3.
    unfold acknowledged. cbn. rewrite elem_of_app. destruct Hin as [Hin|Hin]; [left; by apply Hs|by right]. }
  destruct (client_status c) as [|l|l flag|failed] eqn:Hst, object as [saved|update|answer]; try done.
  - destruct (open_state storage_of_values certificate key_retriever verifier key 0 0 saved) as [l|f|] eqn:Ho;
      intros [= <-]; apply Hw; cbn; try apply list_subseteq_nil.
    rewrite (open_state_fresh _ _ _ _ _ _ _ _ Ho). apply list_subseteq_nil.
  - intros [= <-]. apply client_updates_handled; [done|done|].
    intros uuid m n data [= ->] Hm. split; [apply I2; by left|]. by eapply Hseen.
  - destruct (answer_as_update answer) as [update|] eqn:Ha; intros [= <-]; [|apply Hw; apply list_subseteq_nil].
    apply client_updates_handled; [done|done|]. intros uuid m n data [= ->] _. by destruct (Hansw answer uuid m).
  - intros [= <-]. apply Hw. by destruct (should_yield l); cbn; [apply list_subseteq_nil|].
  - intros [= <-]. apply Hw. by destruct (should_yield l); cbn; [apply list_subseteq_nil|].
  - intros [= <-]. apply Hw. by destruct (should_yield l); cbn; [apply list_subseteq_nil|].
Qed.

Lemma step_only_handled user key es e c c' :
  (∀ b uuid message, answer_as_update b ≠ Some (UpdateMessage uuid message)) →
  (∀ l uuid message rest n' data, e = ClientReads → client_status c = ClientUpdating l →
    to_client c = ObjectUpdate (UpdateMessage uuid message) :: rest →
    client_handle_message clock message (client l) = (n', Ok data) → seen uuid message) →
  (∀ uuid message, e = StreamDelivers uuid message → delivered es uuid message) →
  only_handled es c → connection_step user key e c = Some c' → only_handled es c'.
Proof.
  intros Hansw Hseen Hdel I.
  assert (∀ s sent states, client_aknowledged s ⊆ client_aknowledged (client_status c) → sent ≫= sent_aknowledged = [] →
    only_handled es (with_client s sent states c)) as Hw.
  { intros s sent states Hs Hn. destruct I as (I1 & I2 & I3). split_and!; [exact I1|exact I2|].
    intros uuid. unfold acknowledged. cbn. rewrite bind_app, Hn, app_nil_r, elem_of_app. intros Hin. apply I3.
    unfold acknowledged. rewrite elem_of_app. destruct Hin as [Hin|Hin]; [left; by apply Hs|by right]. }
  destruct e; cbn [connection_step].
  - intros [= <-]. destruct I as (I1 & I2 & I3).
    split_and!; [|exact I2|exact I3]. cbn. intros id m [Hin|[= -> ->]%list_elem_of_singleton]%elem_of_app; [by apply I1|].
    by apply Hdel.
  - destruct (server_status c); [|done]. by apply server_select_handled.
  - destruct (server_status c); [|done]. by apply server_select_handled.
  - destruct (server_status c); [|done]. by apply server_select_handled.
  - destruct (server_status c); [|done]. by apply server_select_handled.
  - destruct (server_status c); [|done]. by apply server_select_handled.
  - destruct (server_status c); [|done]. intros [= <-]. destruct I as (I1 & I2 & I3).
    split_and!; [exact I1|cbn; by rewrite app_nil_r|exact I3].
  - intros Hr. eapply client_reads_handled; [done| |done|done]. intros. by eapply Hseen.
  - destruct (client_status c) as [|l|l flag|] eqn:Hst; try done; intros [= <-]; apply Hw; try done;
      try apply list_subseteq_nil. by destruct (should_yield l); cbn; [apply list_subseteq_nil|].
  - destruct (client_status c) as [|l| |] eqn:Hst; try done. intros [= <-].
    apply client_updates_handled; [done|by rewrite Hst|done].
  - destruct (client_status c); try done; intros [= <-]; apply Hw; try done; apply list_subseteq_nil.
Qed.
End only_handled.

Lemma only_handled_more (seen seen' : Uuid → MessageToMemberTransport → Prop) es e c :
  (∀ uuid message, seen uuid message → seen' uuid message) → only_handled seen es c → only_handled seen' (es ++ [e]) c.
Proof.
  intros Hs (I1 & I2 & I3). split_and!; [eauto using delivered_more..|].
  intros uuid (m & Hd & Hh)%I3. exists m. eauto using delivered_more.
Qed.

(** C15: Only what was handled is acknowledged. In every run of a connection,
    in whatever order the two sides and the network act, whatever is read for
    an answer and whenever reading fails: each message that the session has
    acknowledged, or is about to, was delivered to the server's stream in this
    run, and this session has itself read it, as an update, and handled it
    without an error, at an earlier step of the run. That no answer decodes to
    a message is the encoding's: an answer is a single byte. *)
Theorem acknowledged_was_handled user key h saved es c uuid :
  (∀ b uuid message, answer_as_update b ≠ Some (UpdateMessage uuid message)) →
  connection_run user key es (fresh_connection h saved) = Some c → uuid ∈ acknowledged c →
  ∃ message, delivered es uuid message ∧ handled_in user key es (fresh_connection h saved) uuid message.
Proof.
  intros Hansw Hr.
  assert (only_handled (handled_in user key es (fresh_connection h saved)) es c) as (_ & _ & I); [|by apply I].
  revert c Hr. induction es as [|e es IH] using rev_ind; intros c.
  - intros [= <-]. split_and!; cbn; [by intros ?? ?%elem_of_nil|by intros ?? [=]%list_elem_of_singleton|].
    intros id Hin. by apply elem_of_nil in Hin.
  - unfold connection_run. rewrite foldl_app. cbn. intros (c1 & Hc1 & Hs)%bind_Some.
    eapply step_only_handled; [done| | |eapply only_handled_more, IH; [by apply handled_in_more|done]|exact Hs].
    + intros l id m rest n data -> Hst Hto Hm. by exists es, [], c1, l, rest, n, data.
    + intros id m ->. unfold delivered. set_solver.
Qed.

(** The answer to a state update is read from the same stream as the
    server's updates, and nothing keeps them in order: if a message waits
    while the server counts too few key packages, the session, waiting for
    the answer to its key packages, can get the message instead. It goes on,
    and the message is gone from the stream without having been handled. *)
Theorem update_read_as_answer user key c l l1 l2 uuid message rest state_update_ :
  client_status c = ClientUpdating l → to_client c = [] → server_status c = Serving →
  stream c = (uuid, message) :: rest →
  client_round clock (Some (UpdateKeyPackageCount
    (Z.of_nat (KeyPackages.count_key_packages (key_package_store (handler c)) user)))) l =
    (l1, Ok (RoundNext true)) →
  take_update key l1 = (l2, Ok state_update_) →
  ∃ c', connection_run user key [ServerTimer; ServerReceives; ClientReads; ClientReads] c = Some c' ∧
    client_status c' = (if should_yield l2 then ClientOpening else ClientUpdating l2) ∧ stream c' = rest ∧ to_client c' = [] ∧
    to_server c' = to_server c ++ [ToServerStateUpdate state_update_] ∧
    handler c' = handler c ∧ aknowledge l2 = [].
Proof.
  intros Hc Ht Hs Hst Hr Hu.
  destruct c as [h st tc ts ss cs states]. cbn in Hc, Ht, Hs, Hst. subst.
  unfold connection_run. cbn -[client_round]. unfold client_reads. cbn -[client_round].
  unfold client_updates. cbn [handler] in Hr. rewrite Hr, Hu. cbn.
  eexists. split; [done|]. cbn. apply take_update_inv in Hu as (_ & _ & _ & _ & _ & Hn & _).
  by rewrite !app_nil_r.
Qed.
End exchange.

(** ** Worked examples

    The root user with one waiting message, a session with no groups. *)
#[local] Existing Instance toy_x509.
#[local] Existing Instance toy_crypto.
#[local] Existing Instance toy_rcgen.
#[local] Existing Instance toy_aead.
#[local] Existing Instance toy_aead_laws.
#[local] Existing Instance unit_login_types.
#[local] Existing Instance no_disks.
#[local] Existing Instance toy_mls.
#[local] Existing Instance toy_hex.
#[local] Existing Instance toy_retriever.
#[local] Existing Instance toy_wire.
#[local] Existing Instance toy_public.
#[local] Existing Instance toy_private.
#[local] Existing Instance postcard_values.
#[local] Existing Instance postcard_values_laws.

(** Only the empty state is encoded. *)
#[local] Instance postcard_state : Postcard State := {|
  to_stdvec s := match map_to_list (devices s) with [] => Ok [] | _ => Err "state"%string end;
  from_bytes _ := Ok (mkState ∅);
|}.
#[local] Instance postcard_state_laws : PostcardLaws State.
Proof.
  split. intros [m] b. cbn. destruct (map_to_list m) eqn:Hm; [|done]. intros _.
  by apply map_to_list_empty_iff in Hm as ->.
Qed.

#[local] Instance postcard_no_message : Postcard (SvalinMessage SvalinReport SvalinMetaInfo) := {|
  to_stdvec _ := Err "message"%string; from_bytes _ := Err "message"%string |}.
#[local] Instance postcard_transport : Postcard MessageToMemberTransport := {|
  to_stdvec _ := Ok [1]; from_bytes _ := Ok (GroupMessageTransport []) |}.
#[local] Instance postcard_package : Postcard UnverifiedKeyPackage := {|
  to_stdvec _ := Ok [1]; from_bytes _ := Err "package"%string |}.

Definition toy_key : EncryptionKey := mkEncryptionKey (replicate 32 5).
Definition toy_random (n : nat) : list Z := replicate 12 9.
Definition toy_group_values (m : gmap GroupId (list SpkiHash)) : gmap (list Z) (list Z) :=
  (λ l, [Zpos (encode l)]) <$> m.
Definition toy_values_group (m : gmap (list Z) (list Z)) : gmap GroupId (list SpkiHash) :=
  (λ b, match b with [Zpos p] => default [] (decode p) | _ => [] end) <$> m.

Lemma toy_group_back m : toy_values_group (toy_group_values m) = m.
Proof.
  apply map_eq. intros g. unfold toy_values_group, toy_group_values. rewrite !lookup_fmap.
  destruct (m !! g) as [l|]; cbn; [|done]. by rewrite decode_encode.
Qed.

Definition toy_values : MemberStorage → gmap (list Z) (list Z) := toy_group_values.
Definition toy_of_values : gmap (list Z) (list Z) → MemberStorage := toy_values_group.

Lemma toy_values_back s : toy_of_values (toy_values s) = s.
Proof. apply toy_group_back. Qed.

Definition toy_me : SpkiHash := spki_hash toy_root.
Definition toy_user_client : UserMlsClient (K := ToyRetriever) (V := OneOfVerififier) (Uuid := nat) :=
  mkUserMlsClient (toy_node toy_agent ∅) (mkState ∅) [5%nat] [] [] false 0.

Definition toy_sent : StateUpdate (Uuid := nat) :=
  mkStateUpdate
    (mkExportedMlsStore (mkEncryptedObject (mkEncryptedData [268; 0] Chacha20Poly1305 (replicate 12 9))))
    (mkEncryptedObject (mkEncryptedData [0] Chacha20Poly1305 (replicate 12 9))) [] [5%nat] [].

Lemma toy_sends :
  (take_state_update toy_random toy_values toy_key toy_user_client).2 = Ok toy_sent.
Proof. vm_compute. reflexivity. Qed.

(** The user before and after the update. *)
Definition toy_user_0 : StoredUser := toy_stored [1].
Definition toy_user_1 : StoredUser :=
  with_mls_data toy_user_0 (update_mls_store toy_sent) (update_persistent_data toy_sent).

#[local] Instance postcard_users : Postcard StoredUser := {|
  to_stdvec u :=
    if StoredUser_eq_dec u toy_user_0 then Ok [0]
    else if StoredUser_eq_dec u toy_user_1 then Ok [1] else Err "user"%string;
  from_bytes b := match b with [0] => Ok toy_user_0 | [1] => Ok toy_user_1 | _ => Err "user"%string end;
|}.
#[local] Instance postcard_users_laws : PostcardLaws StoredUser.
Proof.
  split. intros u b. unfold to_stdvec, from_bytes, postcard_users.
  destruct (StoredUser_eq_dec u toy_user_0) as [->|]; [by intros [= <-]|].
  destruct (StoredUser_eq_dec u toy_user_1) as [->|]; [by intros [= <-]|done].
Qed.

Definition toy_user_store : UserStore := mkUserStore [mkUserRow (as_slice toy_me) [65] [0]].

Lemma toy_user_store_reachable : users_reachable toy_user_store.
Proof. eapply (users_add _ toy_user_0); [apply users_empty|]. vm_compute. reflexivity. Qed.

Definition toy_mail : Messages.MessageStore (Uuid := nat) :=
  Messages.mkMessageStore [Messages.mkMessageRow 5%nat [1] 100] [Messages.mkReceiverRow 5%nat (as_slice toy_me)].

Lemma toy_mail_ok : Messages.store_ok toy_mail.
Proof. split; [apply NoDup_singleton|]. repeat constructor. Qed.

Definition toy_user_handler (packages : nat) : UpdateUserMlsHandler (K := ToyRetriever) (V := OneOfVerififier) :=
  mkUpdateUserMlsHandler toy_user_store toy_mail
    (KeyPackages.mkKeyPackageStore (replicate packages (KeyPackages.mkRow ""%string (as_slice toy_me) [])))
    toy_root_agent 0.

Definition toy_handle_update : io (UpdateUserMlsHandler (K := ToyRetriever) (V := OneOfVerififier)) UserMlsFailure () :=
  handle_state_update toy_clock id (λ _, ""%string) (λ _, ""%string) toy_me toy_sent.

Lemma toy_update_handled : (toy_handle_update (toy_user_handler 0)).2 = Ok ().
Proof. vm_compute. reflexivity. Qed.

Definition toy_handled : UpdateUserMlsHandler (K := ToyRetriever) (V := OneOfVerififier) :=
  (toy_handle_update (toy_user_handler 0)).1.

Lemma state_stored_before_messages_go_witness :
  get_user (user_store toy_handled) toy_me = Ok (Some toy_user_1) ∧
  5%nat ∉ Messages.ids_for (message_store toy_handled) toy_me.
Proof.
  destruct (state_stored_before_messages_go toy_clock id (λ _, ""%string) (λ _, ""%string) toy_me toy_user_0 toy_sent
    (toy_user_handler 0) toy_handled (Ok ()) toy_user_store_reachable eq_refl toy_mail_ok
    (io_run _ _ _ toy_update_handled)) as [[_ H]|(H1 & H2 & _)]; [by destruct H|].
  split; [exact H1|]. intros [_ Hn]%H2. apply Hn. by left.
Defined.

Definition toy_user_session : Certificate := mkCertificate (toy_certificate UserSession 4 1 400).

Definition toy_user_retriever : ToyRetriever :=
  mkToyRetriever [spki_hash toy_root] [toy_package (mkCertificate toy_root)].

Lemma next_session_continues_witness :
  ∃ saved, open_user_mls (PeerCertificate toy_user_session) toy_handled = Ok (toy_me, saved) ∧
    (open_state toy_of_values (mkCertificate toy_root) toy_user_retriever toy_verifier toy_key 0 0 saved :
       result _ (UserMlsClient (Uuid := nat))) =
    Ok (mkUserMlsClient (toy_node toy_root ∅) (mkState ∅) [] [] [] false 0).
Proof.
  destruct (next_session_continues toy_clock id (λ _, ""%string) (λ _, ""%string) toy_random toy_values toy_of_values
    toy_key toy_user_client _ toy_sent toy_me toy_user_0 (toy_user_handler 0) toy_handled toy_user_session
    (mkCertificate toy_root) toy_user_retriever toy_verifier 0 0 toy_values_back
    (io_run _ _ _ toy_sends) toy_user_store_reachable eq_refl (io_run _ _ _ toy_update_handled) eq_refl eq_refl eq_refl)
    as (saved & Ho & Hc).
  exists saved. split; [exact Ho|]. exact Hc.
Defined.

(** One key package is missing. *)
Lemma toy_tops_up :
  (client_round toy_clock (Some (UpdateKeyPackageCount 99)) toy_user_client).2 = Ok (RoundNext true).
Proof. vm_compute. reflexivity. Qed.

Lemma key_packages_topped_up_witness :
  Z.of_nat (length (key_packages
    (client_round toy_clock (Some (UpdateKeyPackageCount 99)) toy_user_client).1)) = 1.
Proof.
  refine (proj2 (key_packages_topped_up toy_clock 99 toy_user_client _ true _ (io_run _ _ _ toy_tops_up))). lia.
Defined.

Abbreviation ToyConnection :=
  (Connection (K := ToyRetriever) (V := OneOfVerififier) (K' := ToyRetriever) (V' := OneOfVerififier) (Uuid := nat)).

Definition toy_topped : UserMlsClient (K := ToyRetriever) (V := OneOfVerififier) (Uuid := nat) :=
  (client_round toy_clock (Some (UpdateKeyPackageCount 99)) toy_user_client).1.

Definition toy_connection : ToyConnection :=
  mkUserMlsConnection (toy_user_handler 99) [(5%nat, GroupMessageTransport [])] [] [] Serving
    (ClientUpdating toy_user_client) [].

Lemma toy_tops_up_count :
  Z.of_nat (KeyPackages.count_key_packages (key_package_store (handler toy_connection)) toy_me) = 99.
Proof. vm_compute. reflexivity. Qed.

Lemma toy_topped_sends :
  ∃ update, (take_state_update toy_random toy_values toy_key toy_topped).2 = Ok update.
Proof. eexists. vm_compute. reflexivity. Qed.

Lemma update_read_as_answer_witness :
  ∃ (c' : ToyConnection) l, client_status c' = ClientUpdating l ∧ stream c' = [] ∧ aknowledge l = [].
Proof.
  destruct toy_topped_sends as [update Hu].
  assert (client_round toy_clock (Some (UpdateKeyPackageCount (Z.of_nat (KeyPackages.count_key_packages
    (key_package_store (handler toy_connection)) toy_me)))) toy_user_client = (toy_topped, Ok (RoundNext true))) as Hr.
  { rewrite toy_tops_up_count. exact (io_run _ _ _ toy_tops_up). }
  destruct (update_read_as_answer toy_clock id (λ _, ""%string) (λ _, ""%string) toy_random toy_values toy_of_values
    (mkCertificate toy_root) toy_user_retriever toy_verifier (λ _, None) toy_me toy_key toy_connection toy_user_client toy_topped
    _ 5%nat (GroupMessageTransport []) [] update eq_refl eq_refl eq_refl eq_refl Hr (io_run _ _ _ Hu))
    as (c' & _ & Hc & Hs & _ & _ & _ & Hl).
  exists c'. eexists. split; [exact Hc|]. split; [exact Hs|exact Hl].
Defined.

Definition toy_saved : SavedState := mkSavedState (update_mls_store toy_sent) (update_persistent_data toy_sent).

Definition toy_events : list (Event (Uuid := nat)) :=
  [ClientReads; StreamDelivers 5%nat (WelcomeTransport []); ServerReceives; ClientReads].

Definition toy_run : option ToyConnection :=
  connection_run toy_clock id (λ _, ""%string) (λ _, ""%string) toy_random toy_values toy_of_values
    (mkCertificate toy_root) toy_user_retriever toy_verifier (λ _, None) toy_me toy_key toy_events
    (fresh_connection (toy_user_handler 0) toy_saved).

Lemma toy_run_acknowledges : acknowledged <$> toy_run = Some [5%nat].
Proof. vm_compute. reflexivity. Qed.

Lemma acknowledged_was_handled_witness :
  ∃ message, delivered toy_events 5%nat message ∧
    handled_in toy_clock id (λ _, ""%string) (λ _, ""%string) toy_random toy_values toy_of_values
      (mkCertificate toy_root) toy_user_retriever toy_verifier (λ _, None) toy_me toy_key toy_events
      (fresh_connection (toy_user_handler 0) toy_saved) 5%nat message.
Proof.
  destruct toy_run as [c|] eqn:Hr; [|by pose proof toy_run_acknowledges as H; rewrite Hr in H].
  pose proof toy_run_acknowledges as H. rewrite Hr in H. injection H as H.
  apply (acknowledged_was_handled toy_clock id (λ _, ""%string) (λ _, ""%string) toy_random toy_values toy_of_values
    (mkCertificate toy_root) toy_user_retriever toy_verifier (λ _, None) toy_me toy_key (toy_user_handler 0) toy_saved toy_events
    c 5%nat ltac:(done) Hr). rewrite H. by left.
Defined.
