(* ===== verification/Transport.v ===== *)
(** * Chunks and objects on a stream
    ([svalin_rpc/src/transport/chunked_transport.rs], [object_transport.rs])

    A transport is seen from one end: the bytes that will still arrive before
    the peer closes its side, the bytes written, and whether writing still
    succeeds. Chunks carry their length in one or four bytes; objects are
    chunks of their encoding. *)
From S2P Require Import Prelude.
From S2P Require Import External.
From stdpp Require Import options.

Inductive IoError := UnexpectedEof | BrokenPipe.

Record Transport := mkTransport {
  incoming : list Z;
  written : list Z;
  writable : bool;
}.

(** ** [AsyncReadExt] and [AsyncWriteExt] *)
Definition read_u8 : io Transport IoError Z := λ t,
  match incoming t with
  | b :: rest => (mkTransport rest (written t) (writable t), Ok b)
  | [] => (t, Err UnexpectedEof)
  end.

(** A stream that ends too early has been read to its end. *)
Definition read_exact (n : nat) : io Transport IoError (list Z) := λ t,
  if bool_decide (length (incoming t) < n)%nat then
    (mkTransport [] (written t) (writable t), Err UnexpectedEof)
  else
    (mkTransport (drop n (incoming t)) (written t) (writable t), Ok (take n (incoming t))).

Definition write_all (b : list Z) : io Transport IoError () := λ t,
  if writable t then (mkTransport (incoming t) (written t ++ b) (writable t), Ok ())
  else (t, Err BrokenPipe).

(** [AsyncWriteExt::shutdown]. *)
Definition shutdown : io Transport IoError () := λ t,
  if writable t then (mkTransport (incoming t) (written t) false, Ok ())
  else (t, Err BrokenPipe).

(** ** Chunks *)
Inductive ChunkReaderError :=
  | LengthReadError (e : IoError)
  | ExtendedLengthReadError (e : IoError)
  | BodyReadError (e : IoError).

Inductive ChunkWriterError :=
  | ChunkTooBig
  | LengthWriteError (e : IoError)
  | ExtendedLengthWriteError (e : IoError)
  | BodyWriteError (e : IoError).

Inductive ChunkLength :=
  | Byte (b : Z)
  | U32 (b : list Z).

Definition as_bytes (self : ChunkLength) : list Z :=
  match self with Byte b => [b] | U32 b => b end.

(** [usize] is 64 bits wide; the conversion to [u32] cannot fail here. *)
Definition from_usize {E} (len : Z) : result E ChunkLength :=
  if len >? Z.shiftl 1 31 then Panic
  else if len <? 128 then
    (b ← expect (to_be_bytes 4 len !! 3%nat); Ok (Byte b))
  else Ok (U32 (to_be_bytes 4 (Z.lor len (Z.shiftl 1 31)))).

Definition try_from_byte (byte : Z) : option ChunkLength :=
  if byte <? 128 then Some (Byte byte) else None.

Definition from_4bytes (bytes : list Z) : ChunkLength := U32 bytes.

Definition to_usize (self : ChunkLength) : Z :=
  match self with
  | Byte b => b
  | U32 [] => 0
  | U32 (b0 :: b) => from_be_bytes (Z.land b0 127 :: b)
  end.

Definition write_chunk (chunk : list Z) : io Transport ChunkWriterError () :=
  len ← io_result (from_usize (Z.of_nat (length chunk)));
  _ ← io_map_err ExtendedLengthWriteError (write_all (as_bytes len));
  io_map_err BodyWriteError (write_all chunk).

Definition read_chunk : io Transport ChunkReaderError (list Z) :=
  short_len ← io_map_err LengthReadError read_u8;
  len ← match try_from_byte short_len with
        | Some len => mret len
        | None =>
            size ← io_map_err LengthReadError (read_exact 3);
            mret (from_4bytes (short_len :: size))
        end;
  io_map_err BodyReadError (read_exact (Z.to_nat (to_usize len))).

(** ** Objects *)
Inductive ObjectReaderError :=
  | ChunkReadError (e : ChunkReaderError)
  | DeserializeError (e : ExtError).

Inductive ObjectWriterError :=
  | ChunkWriteError (e : ChunkWriterError)
  | SerializeError (e : ExtError).

Definition write_object {U} `{Postcard U} (object : U) : io Transport ObjectWriterError () :=
  encoded ← io_map_err SerializeError (io_result (to_stdvec object));
  io_map_err ChunkWriteError (write_chunk encoded).

Definition read_object {U} `{Postcard U} : io Transport ObjectReaderError U :=
  chunk ← io_map_err ChunkReadError read_chunk;
  io_map_err DeserializeError (io_result (from_bytes chunk)).

(** ** The format *)

(** What is on the wire for a chunk, and for an object. *)
Definition chunk_header (n : Z) : list Z :=
  if n <? 128 then [n] else to_be_bytes 4 (n + 2 ^ 31).
Definition encode_chunk (c : list Z) : list Z := chunk_header (Z.of_nat (length c)) ++ c.

Lemma to_le_bytes4 x :
  to_le_bytes 4 x = [x `mod` 256; x `div` 2 ^ 8 `mod` 256; x `div` 2 ^ 16 `mod` 256; x `div` 2 ^ 24 `mod` 256].
Proof.
  unfold to_le_bytes. change (Z.of_nat 4) with (Z.succ (Z.succ (Z.succ (Z.succ 0)))).
  rewrite !Z_to_little_endian_succ by lia. rewrite Z_to_little_endian_0.
  rewrite !Z.land_ones by lia. rewrite !Z.shiftr_shiftr by lia. rewrite !Z.shiftr_div_pow2 by lia. done.
Qed.

Lemma to_be_bytes4 x :
  to_be_bytes 4 x = [x `div` 2 ^ 24 `mod` 256; x `div` 2 ^ 16 `mod` 256; x `div` 2 ^ 8 `mod` 256; x `mod` 256].
Proof. unfold to_be_bytes. by rewrite to_le_bytes4. Qed.

Lemma lor_bit31 n : 0 ≤ n < 2 ^ 31 → Z.lor n (Z.shiftl 1 31) = n + 2 ^ 31.
Proof.
  intros Hn. change (Z.shiftl 1 31) with (2 ^ 31).
  assert (Z.land n (2 ^ 31) = 0) as Hl.
  { apply Z.bits_inj'. intros i Hi. rewrite Z.land_spec, Z.bits_0, Z.pow2_bits_eqb by lia.
    destruct (Z.eqb_spec 31 i) as [<-|]; [|by rewrite andb_false_r].
    apply andb_false_iff. left. apply Z.testbit_false; [lia|]. by rewrite Z.div_small. }
  rewrite <-Z.lxor_lor, Z.add_nocarry_lxor by done. done.
Qed.

(** The marker bit is the upper bit of the first byte. *)
Lemma to_be_bytes4_marked n :
  0 ≤ n < 2 ^ 31 →
  to_be_bytes 4 (n + 2 ^ 31) = (n `div` 2 ^ 24 + 128) ::
    [n `div` 2 ^ 16 `mod` 256; n `div` 2 ^ 8 `mod` 256; n `mod` 256].
Proof.
  intros Hn. rewrite to_be_bytes4.
  replace (n + 2 ^ 31) with (n + 128 * 2 ^ 24) at 1 by lia.
  replace (n + 2 ^ 31) with (n + 2 ^ 15 * 2 ^ 16) at 1 by lia.
  replace (n + 2 ^ 31) with (n + 2 ^ 23 * 2 ^ 8) at 1 by lia.
  replace (n + 2 ^ 31) with (n + 2 ^ 23 * 256) by lia.
  rewrite !Z.div_add, Z.mod_add by lia.
  replace (n `div` 2 ^ 16 + 2 ^ 15) with (n `div` 2 ^ 16 + 128 * 256) by lia.
  replace (n `div` 2 ^ 8 + 2 ^ 23) with (n `div` 2 ^ 8 + 2 ^ 15 * 256) by lia.
  rewrite !Z.mod_add by lia.
  assert (0 ≤ n `div` 2 ^ 24 < 128).
  { split; [apply Z.div_pos; lia|apply Z.div_lt_upper_bound; lia]. }
  by rewrite (Z.mod_small (n `div` 2 ^ 24 + 128)) by lia.
Qed.

Lemma from_usize_header n :
  0 ≤ n < 2 ^ 31 → ∃ l, (∀ E, from_usize (E := E) n = Ok l) ∧ as_bytes l = chunk_header n.
Proof.
  intros Hn. unfold from_usize, chunk_header. change (Z.shiftl 1 31) with (2 ^ 31).
  rewrite Z.gtb_ltb, (proj2 (Z.ltb_ge (2 ^ 31) n)) by lia.
  destruct (Z.ltb_spec n 128).
  - exists (Byte n). split; [|done]. intros E. rewrite to_be_bytes4. cbn -[Z.modulo Z.div].
    by rewrite Z.mod_small by lia.
  - exists (U32 (to_be_bytes 4 (n + 2 ^ 31))). split; [|done]. intros E.
    rewrite <-lor_bit31 by lia. done.
Qed.

Lemma header_to_usize n :
  0 ≤ n < 2 ^ 31 →
  (n < 128 ∧ chunk_header n = [n]) ∨
  (128 ≤ n ∧ ∃ b0 b1 b2 b3, chunk_header n = [b0; b1; b2; b3] ∧ 128 ≤ b0 ∧
    to_usize (from_4bytes [b0; b1; b2; b3]) = n).
Proof.
  intros Hn. unfold chunk_header. destruct (Z.ltb_spec n 128); [by left|]. right. split; [done|].
  rewrite to_be_bytes4_marked by done. eexists _, _, _, _. split; [done|].
  assert (0 ≤ n `div` 2 ^ 24 < 128).
  { split; [apply Z.div_pos; lia|apply Z.div_lt_upper_bound; lia]. }
  split; [lia|]. cbn [to_usize from_4bytes]. change 127 with (Z.ones 7). rewrite Z.land_ones by lia.
  replace (n `div` 2 ^ 24 + 128) with (n `div` 2 ^ 24 + 1 * 2 ^ 7) by lia.
  rewrite Z.mod_add, (Z.mod_small (n `div` 2 ^ 24)) by lia.
  rewrite <-(from_be_to_be_bytes 4 n) at 5 by (cbn; lia). rewrite to_be_bytes4.
  by rewrite (Z.mod_small (n `div` 2 ^ 24)) by lia.
Qed.

Lemma write_chunk_ok c t :
  Z.of_nat (length c) < 2 ^ 31 → writable t = true →
  write_chunk c t = (mkTransport (incoming t) (written t ++ encode_chunk c) true, Ok ()).
Proof.
  intros Hc Hw. destruct (from_usize_header (Z.of_nat (length c))) as (l & Hl & Hb); [lia|].
  unfold write_chunk, mbind, io_bind, io_result, io_map_err, write_all. rewrite Hl, Hw. cbn.
  unfold encode_chunk. by rewrite Hb, app_assoc.
Qed.

Lemma read_chunk_ok c rest w b :
  Z.of_nat (length c) < 2 ^ 31 →
  read_chunk (mkTransport (encode_chunk c ++ rest) w b) = (mkTransport rest w b, Ok c).
Proof.
  intros Hc. unfold encode_chunk. rewrite <-app_assoc.
  assert (∀ n, n = Z.of_nat (length c) → io_map_err BodyReadError (read_exact (Z.to_nat n))
    (mkTransport (c ++ rest) w b) = (mkTransport rest w b, Ok c)) as Hbody.
  { intros n ->. unfold io_map_err, read_exact. cbn. rewrite Nat2Z.id.
    rewrite bool_decide_false by (rewrite length_app; lia).
    by rewrite drop_app_length, take_app_length. }
  destruct (header_to_usize (Z.of_nat (length c))) as [[Hl ->]|(Hl & b0 & b1 & b2 & b3 & -> & Hb0 & Hu)];
    [lia| |]; unfold read_chunk, mbind, io_bind, mret, io_ret; cbn [app].
  - unfold io_map_err at 1. cbn. unfold try_from_byte. rewrite (proj2 (Z.ltb_lt _ _)) by done.
    by apply Hbody.
  - unfold io_map_err at 1. cbn. unfold try_from_byte. rewrite (proj2 (Z.ltb_ge _ _)) by done.
    cbn. by apply Hbody.
Qed.

(** Chunks arrive as they were sent, in order: whatever sequence of
    chunks below 2 GiB one end writes, the other end reads back exactly that
    sequence from the bytes on the wire, and nothing more. *)
Theorem chunks_roundtrip cs t rest w b :
  Forall (λ c, Z.of_nat (length c) < 2 ^ 31) cs → writable t = true →
  ∃ wire, foldr (λ c k, _ ← write_chunk c; k) (mret ()) cs t =
      (mkTransport (incoming t) (written t ++ wire) true, Ok ()) ∧
    foldr (λ _ k, c ← read_chunk; cs ← k; mret (c :: cs)) (mret []) cs (mkTransport (wire ++ rest) w b) =
      (mkTransport rest w b, Ok cs).
Proof.
  intros Hcs. revert t. induction Hcs as [|c cs Hc Hcs IH]; intros t Ht.
  - exists []. cbn. rewrite app_nil_r. destruct t; cbn in *. by subst.
  - destruct (IH (mkTransport (incoming t) (written t ++ encode_chunk c) true) eq_refl) as (wire & Hw & Hr).
    exists (encode_chunk c ++ wire). cbn [foldr]. split.
    + rewrite (io_bind_step _ _ _ _ _ (write_chunk_ok c t Hc Ht)), Hw. cbn. by rewrite app_assoc.
    + rewrite <-app_assoc, (io_bind_step _ _ _ _ _ (read_chunk_ok c _ w b Hc)).
      by rewrite (io_bind_step _ _ _ _ _ Hr).
Qed.

(** C27: The one length between the ones that work and the ones that are
    refused: a chunk of exactly 2^31 bytes is announced as empty, so that the
    reader gets an empty chunk and takes its content for the next chunks;
    longer ones unwind, and nothing is written. *)
Theorem chunk_length_limit c t rest w b :
  2 ^ 31 ≤ Z.of_nat (length c) → writable t = true →
  if decide (Z.of_nat (length c) = 2 ^ 31) then
    write_chunk c t = (mkTransport (incoming t) (written t ++ [128; 0; 0; 0] ++ c) true, Ok ()) ∧
    read_chunk (mkTransport (([128; 0; 0; 0] ++ c) ++ rest) w b) = (mkTransport (c ++ rest) w b, Ok [])
  else write_chunk c t = (t, Panic).
Proof.
  intros Hc Hw. case_decide as E.
  - split; [|reflexivity]. unfold write_chunk, mbind, io_bind, io_result, from_usize. rewrite E.
    unfold io_map_err, write_all. cbn -[app]. rewrite Hw. cbn -[app]. by rewrite app_assoc.
  - unfold write_chunk, mbind, io_bind, io_result, from_usize.
    change (Z.shiftl 1 31) with (2 ^ 31). rewrite Z.gtb_ltb, (proj2 (Z.ltb_lt _ _)) by lia. done.
Qed.

(** What is on the wire for an object. *)
Definition wire_of {U} `{Postcard U} (x : U) (wire : list Z) : Prop :=
  ∃ e, to_stdvec x = Ok e ∧ Z.of_nat (length e) < 2 ^ 31 ∧ wire = encode_chunk e.

Section objects.
Context {U : Type} `{Postcard U}.

Lemma write_object_ok (x : U) wire t :
  wire_of x wire → writable t = true →
  write_object x t = (mkTransport (incoming t) (written t ++ wire) true, Ok ()).
Proof.
  intros (e & He & Hlen & ->) Hw. unfold write_object, mbind, io_bind, io_map_err, io_result.
  rewrite He. cbn. by rewrite write_chunk_ok.
Qed.

Lemma read_object_ok `{!PostcardLaws U} (x : U) wire rest w b :
  wire_of x wire → read_object (mkTransport (wire ++ rest) w b) = (mkTransport rest w b, Ok x).
Proof.
  intros (e & He & Hlen & ->). unfold read_object, mbind, io_bind, io_map_err, io_result.
  rewrite read_chunk_ok by done. cbn. by rewrite (from_to_stdvec _ _ He).
Qed.

Lemma read_object_eof w b :
  read_object (U := U) (mkTransport [] w b) =
    (mkTransport [] w b, Err (ChunkReadError (LengthReadError UnexpectedEof))).
Proof. done. Qed.
End objects.

Lemma chunks_roundtrip_witness :
  ∃ wire, wire = [1; 7; 0; 2; 8; 9] ∧
    foldr (λ c k, _ ← write_chunk c; k) (mret ()) [[7]; []; [8; 9]] (mkTransport [] [] true) =
      (mkTransport [] wire true, Ok ()) ∧
    foldr (λ _ k, c ← read_chunk; cs ← k; mret (c :: cs)) (mret []) [[7]; []; [8; 9]]
      (mkTransport (wire ++ [5]) [] true) = (mkTransport [5] [] true, Ok [[7]; []; [8; 9]]).
Proof.
  destruct (chunks_roundtrip [[7]; []; [8; 9]] (mkTransport [] [] true) [5] [] true)
    as (wire & Hw & Hr); [by repeat constructor|reflexivity|].
  exists wire. split; [|split; [exact Hw|exact Hr]].
  vm_compute in Hw. by injection Hw.
Defined.

Lemma chunk_length_limit_witness :
  ∃ c : list Z, Z.of_nat (length c) = 2 ^ 31 ∧
    read_chunk (mkTransport (([128; 0; 0; 0] ++ c) ++ []) [] true) = (mkTransport (c ++ []) [] true, Ok []).
Proof.
  exists (replicate (Z.to_nat (2 ^ 31)) 0).
  assert (Z.of_nat (length (replicate (Z.to_nat (2 ^ 31)) 0)) = 2 ^ 31) as E.
  { rewrite length_replicate. apply Z2Nat.id. lia. }
  split; [exact E|].
  pose proof (chunk_length_limit (replicate (Z.to_nat (2 ^ 31)) 0) (mkTransport [] [] true) [] [] true
    ltac:(rewrite E; lia) eq_refl) as H.
  rewrite decide_True in H by exact E. exact (proj2 H).
Defined.
