(* ===== verification/Permissions.v ===== *)
(** * Permissions
    ([svalin_rpc/src/permissions/], [svalin/src/permissions.rs],
    [svalin/src/permissions/default_permission_handler.rs], and the
    permission of each command next to its handler)

    A permission handler decides whether a peer may do what a command asks
    for; every command is mapped to the permission it needs. *)
From S2P Require Import Prelude.
From S2P Require Import External.
From S2P Require Import Spki.
From S2P Require Import Toy.
From S2P Require Import Certificate.
From S2P Require Import Verifiers.
From stdpp Require Import options.

Inductive PermissionCheckError :=
  | PermissionDenied (message : string)
  | HandlerError (message : string).

(** The trait [PermissionHandler], for the permissions [Permission]. *)
Class PermissionHandler (P Permission : Type) := {
  may : P → Peer → Permission → result PermissionCheckError ();
}.

(** ** [AnonymousPermissionHandler]: any permission, for anonymous peers *)
Inductive AnonymousPermissionHandler := mkAnonymousHandler.
Inductive DummyPermission := mkDummyPermission.

#[global] Instance anonymous_handler {Permission} :
    PermissionHandler AnonymousPermissionHandler Permission := {|
  may _ peer _ :=
    match peer with
    | Anonymous => Ok ()
    | PeerCertificate _ => Err (PermissionDenied "Only anonymous peers are allowed to do that")
    end;
|}.

(** ** [WhitelistPermissionHandler] *)
Record WhitelistPermissionHandler := mkWhitelist { whitelist : gmap SpkiHash Certificate }.

Definition whitelist_new (certs : list Certificate) : WhitelistPermissionHandler :=
  mkWhitelist (foldl (λ m (c : Certificate), <[ spki_hash c := c ]> m) ∅ certs).

#[global] Instance whitelist_handler {Permission} :
    PermissionHandler WhitelistPermissionHandler Permission := {|
  may self peer _ :=
    match peer with
    | PeerCertificate cert =>
        match (whitelist self !! spki_hash cert : option Certificate) with
        | Some known_cert =>
            if cert_eqb known_cert cert then Ok ()
            else Err (HandlerError "Certificate fingerprint collision")
        | None => Err (PermissionDenied "certificate is not whitelisted")
        end
    | Anonymous => Err (PermissionDenied "Anonymous peer is not allowed to do that")
    end;
|}.

(** ** [DefaultPermissionHandler] *)
Inductive Permission :=
  | RootOnlyPlaceholder
  | AgentOnlyPlaceholder
  | UserOrSession
  | ViewPublicInformation
  | AuthenticatedOnly
  | AnonymousOnly
  | SessionOnly.

Record DefaultPermissionHandler := mkDefaultHandler { handler_root : RootCertificate }.

Definition allowed (self : DefaultPermissionHandler) (certificate : Certificate) (permission : Permission) : bool :=
  match certificate_type certificate with
  | Root => false
  | User => match permission with UserOrSession => true | _ => false end
  | UserSession =>
      match permission with
      | RootOnlyPlaceholder => bool_decide (issuer certificate = spki_hash (handler_root self))
      | AuthenticatedOnly | ViewPublicInformation | UserOrSession | SessionOnly => true
      | _ => false
      end
  | Agent =>
      match permission with
      | AuthenticatedOnly | ViewPublicInformation | AgentOnlyPlaceholder => true
      | _ => false
      end
  | Server => match permission with AuthenticatedOnly => true | _ => false end
  | Temporary => false
  end.

Definition denied_message (permission : Permission) : string :=
  match permission with
  | RootOnlyPlaceholder => "only the root user is allowed to do that"
  | UserOrSession => "only the user or session is allowed to do that"
  | AgentOnlyPlaceholder => "only the agents are allowed to do that"
  | ViewPublicInformation => "everyone should be allowed to do this, probably a bug"
  | AuthenticatedOnly => "peer must be authenticated for this action"
  | AnonymousOnly => "peer must be unauthenticated for this action! This could be a security critical bug, please report it!"
  | SessionOnly => "peer must be a session for this action"
  end.

#[global] Instance default_handler : PermissionHandler DefaultPermissionHandler Permission := {|
  may self peer permission :=
    match peer with
    | PeerCertificate certificate =>
        if allowed self certificate permission then Ok ()
        else Err (PermissionDenied (denied_message permission))
    | Anonymous =>
        match permission with
        | RootOnlyPlaceholder | AgentOnlyPlaceholder | UserOrSession =>
            Err (PermissionDenied "anonymous peers are not allowed to do that")
        | ViewPublicInformation | AnonymousOnly => Ok ()
        | AuthenticatedOnly => Err (PermissionDenied "peer must be authenticated for this action!")
        | SessionOnly => Err (PermissionDenied "peer must be a session for this action")
        end
    end;
|}.

(** ** The commands and what they need *)
Inductive Command :=
  | CmdPing | CmdPublicStatus | CmdForward | CmdLoadCertificateChain | CmdE2E | CmdDeauthenticate
  | CmdGetKeyPackages | CmdUpdateUserMls | CmdAgentMessageHandler | CmdAgentMessageSender
  | CmdClientMessageHandler | CmdClientMessageSender | CmdGetUserCredential | CmdRequestSystemReport
  | CmdUpdateAgent | CmdUpdateTrustStore | CmdLogin | CmdJoinRequest | CmdJoinAccept | CmdUploadAgent
  | CmdRealtimeStatus | CmdRemoteTerminal | CmdTcpForward.

Definition permission_of (c : Command) : Permission :=
  match c with
  | CmdPing | CmdPublicStatus => ViewPublicInformation
  | CmdForward | CmdJoinAccept | CmdUploadAgent | CmdRealtimeStatus | CmdRemoteTerminal
  | CmdTcpForward => RootOnlyPlaceholder
  | CmdE2E | CmdLogin | CmdJoinRequest => AnonymousOnly
  | CmdLoadCertificateChain | CmdDeauthenticate | CmdGetKeyPackages | CmdUpdateTrustStore => AuthenticatedOnly
  | CmdUpdateUserMls | CmdClientMessageHandler | CmdClientMessageSender => UserOrSession
  | CmdAgentMessageHandler | CmdAgentMessageSender => AgentOnlyPlaceholder
  | CmdGetUserCredential | CmdRequestSystemReport | CmdUpdateAgent => SessionOnly
  end.

Definition key_of (c : Command) : string :=
  match c with
  | CmdPing => "ping"
  | CmdPublicStatus => "public_status"
  | CmdForward => "forward"
  | CmdLoadCertificateChain => "load_certificate_chain"
  | CmdE2E => "e2e"
  | CmdDeauthenticate => "deauthenticate"
  | CmdGetKeyPackages => "get_key_packages"
  | CmdUpdateUserMls => "update_user_mls"
  | CmdAgentMessageHandler => "message-sending-agent"
  | CmdAgentMessageSender => "message-receiving-agent"
  | CmdClientMessageHandler => "message-sending-client"
  | CmdClientMessageSender => "message-receiving-client"
  | CmdGetUserCredential => "get-user-credential"
  | CmdRequestSystemReport => "request-system-report"
  | CmdUpdateAgent => "update-agent"
  | CmdUpdateTrustStore => "update-trust-store"
  | CmdLogin => "login"
  | CmdJoinRequest => "join_request"
  | CmdJoinAccept => "accept_join"
  | CmdUploadAgent => "add_agent"
  | CmdRealtimeStatus => "realtime-status"
  | CmdRemoteTerminal => "remote-terminal"
  | CmdTcpForward => "tcp_forward"
  end.

(** The commands the server serves, and those an agent serves to peers that
    reach it through the server. *)
Definition server_commands : list Command :=
  [CmdPing; CmdPublicStatus; CmdLogin; CmdGetUserCredential; CmdLoadCertificateChain; CmdJoinRequest;
   CmdJoinAccept; CmdForward; CmdGetKeyPackages; CmdUpdateUserMls; CmdGetKeyPackages;
   CmdAgentMessageHandler; CmdClientMessageHandler; CmdAgentMessageSender; CmdClientMessageSender;
   CmdUpdateTrustStore].

Definition agent_e2e_commands : list Command :=
  [CmdPing; CmdRealtimeStatus; CmdRemoteTerminal; CmdTcpForward; CmdUpdateAgent; CmdRequestSystemReport].

(** ** Properties *)
#[global] Instance Command_eq_dec : EqDecision Command.
Proof. solve_decision. Defined.
#[global] Instance Permission_eq_dec : EqDecision Permission.
Proof. solve_decision. Defined.

Lemma key_of_inj a b : key_of a = key_of b → a = b.
Proof. destruct a, b; cbn; first [done|discriminate]. Qed.

Definition may_run (self : DefaultPermissionHandler) (peer : Peer) (c : Command) : Prop :=
  may self peer (permission_of c) = Ok ().

(** Who may do what, exactly. An anonymous peer: log in, ask to join,
    start end-to-end encryption and read public information. A session of the
    root: everything but those and what is reserved to agents; the other
    sessions the same without what is reserved to the root. An agent: send
    its messages, read public information and what any authenticated peer
    reads, which is all a server may. A user certificate itself: only the
    user's own messages and MLS state. A root or temporary certificate:
    nothing. *)
Theorem who_may_run self peer c :
  may_run self peer c ↔
  match peer with
  | Anonymous => permission_of c = AnonymousOnly ∨ permission_of c = ViewPublicInformation
  | PeerCertificate cert =>
      match certificate_type cert with
      | Root | Temporary => False
      | User => permission_of c = UserOrSession
      | UserSession =>
          permission_of c ≠ AnonymousOnly ∧ permission_of c ≠ AgentOnlyPlaceholder ∧
          (permission_of c = RootOnlyPlaceholder → issuer cert = spki_hash (handler_root self))
      | Agent => permission_of c = AgentOnlyPlaceholder ∨ permission_of c = AuthenticatedOnly ∨
          permission_of c = ViewPublicInformation
      | Server => permission_of c = AuthenticatedOnly
      end
  end.
Proof.
  unfold may_run, may, default_handler. destruct peer as [|cert].
  - destruct (permission_of c); naive_solver.
  - unfold allowed. destruct (certificate_type cert), (permission_of c); try naive_solver.
    case_bool_decide; naive_solver.
Qed.

(** Taking over devices is reserved to the root user: forwarding through
    the server, opening a terminal or a tunnel, watching a device and
    accepting a new agent are possible for sessions the root issued and for
    nobody else, and no single peer may both do one of these and act as an
    agent, log in or start end-to-end encryption. *)
Theorem device_access_is_root_only self peer c :
  c ∈ [CmdForward; CmdRemoteTerminal; CmdTcpForward; CmdRealtimeStatus; CmdJoinAccept; CmdUploadAgent] →
  may_run self peer c →
  (∃ cert, peer = PeerCertificate cert ∧ certificate_type cert = UserSession ∧
     issuer cert = spki_hash (handler_root self)) ∧
  (∀ c', c' ∈ [CmdE2E; CmdLogin; CmdJoinRequest; CmdAgentMessageHandler; CmdAgentMessageSender] →
     ¬ may_run self peer c').
Proof.
  intros Hc Hm. unfold may_run, may, default_handler in *.
  assert (permission_of c = RootOnlyPlaceholder) as E.
  { repeat (apply elem_of_cons in Hc as [->|Hc]; [done|]). by apply elem_of_nil in Hc. }
  rewrite E in Hm. destruct peer as [|cert]; [done|]. unfold allowed in *.
  destruct (certificate_type cert) eqn:Ht; try done. case_bool_decide as Hi; [|done].
  split; [by exists cert|]. intros c' Hc' Hm'.
  repeat (apply elem_of_cons in Hc' as [->|Hc']; [done|]). by apply elem_of_nil in Hc'.
Qed.

(** What the message of the handler itself calls a bug: a user, a server and
    a root certificate are refused public information. *)
Example public_information_denied self (cert : Certificate) :
  certificate_type cert = User →
  may self (PeerCertificate cert) ViewPublicInformation =
    Err (PermissionDenied "everyone should be allowed to do this, probably a bug").
Proof. intros E. cbn. unfold allowed. by rewrite E. Qed.

(** A whitelist admits exactly the whitelisted certificates, byte for
    byte: of two with the same hash the later one. *)
Theorem whitelist_admits {Permission} certs peer (p : Permission) :
  may (whitelist_new certs) peer p = Ok () ↔
  ∃ cert known : Certificate, peer = PeerCertificate cert ∧ der known = der cert ∧
    last (filter (λ c : Certificate, spki_hash c = spki_hash cert) certs) = Some known.
Proof.
  assert (∀ h (m : gmap SpkiHash Certificate),
    foldl (λ m (c : Certificate), <[ spki_hash c := c ]> m) m certs !! h =
    match last (filter (λ c : Certificate, spki_hash c = h) certs) with Some c => Some c | None => m !! h end)
    as Hl.
  { intros h m. induction certs as [|c l IH] using rev_ind; [done|].
    rewrite foldl_app, filter_app. cbn. case_decide as E.
    - rewrite last_snoc. by rewrite E, lookup_insert_eq.
    - rewrite app_nil_r, lookup_insert_ne by done. apply IH. }
  cbn. destruct peer as [|cert]; [naive_solver|]. unfold whitelist_new. cbn [whitelist].
  rewrite Hl, lookup_empty. unfold cert_eqb. split.
  - destruct (last _) as [known|] eqn:E; [|done]. case_bool_decide; [|done]. intros _. by exists cert, known.
  - intros (cert' & known & [= <-] & Hd & ->). by rewrite bool_decide_true.
Qed.

(** ** Worked examples *)
#[local] Existing Instance toy_x509.
#[local] Existing Instance toy_crypto.

Definition toy_root_session : Certificate := mkCertificate (toy_certificate UserSession 4 1 400).

Lemma device_access_is_root_only_witness :
  may_run (mkDefaultHandler toy_root_certificate) (PeerCertificate toy_root_session) CmdForward ∧
  ¬ may_run (mkDefaultHandler toy_root_certificate) (PeerCertificate toy_root_session) CmdE2E.
Proof.
  assert (may_run (mkDefaultHandler toy_root_certificate) (PeerCertificate toy_root_session) CmdForward)
    as Hm by (vm_compute; reflexivity).
  split; [exact Hm|].
  apply (proj2 (device_access_is_root_only _ _ CmdForward ltac:(left) Hm)). left.
Defined.
