(* ===== verification/Script.v ===== *)
(** * Conversations over a session

    The longer exchanges of the program ([login], [init], the password
    authenticated transport) send and receive objects, change the transport
    for a TLS stream on top of it, and draw random values in between. A
    [script] is one side of such an exchange. It is run alone, against any
    answers of the outside, or against the script of the other side; the
    interleaving of two sides does not matter ([pair_outcome_unique]). *)
From S2P Require Import Prelude.
From S2P Require Import External.
From S2P Require Import Transport.
From S2P Require Import Verifiers.
From stdpp Require Import relations.
From stdpp Require Import options.

#[local] Open Scope Z_scope.

(** ** TLS as the program uses [rustls]

    One side of a handshake: the check of the peer's certificate at the time
    of the handshake, and the certificate and private key presented. *)
Inductive TlsRole := TlsClient | TlsServer.

Record TlsConfig := mkTlsConfig {
  tls_role : TlsRole;
  tls_verify : list Z → Z → result RustlsError ();
  tls_certificate : list Z;
  tls_key : list Z;
}.

(** An established connection: the certificates the peer presented, and the
    exporter of keying material for a length, a label and a context. *)
Record TlsStream := mkTlsStream {
  peer_certificates : option (list (list Z));
  export_keying_material : nat → list Z → list Z → result ExtError (list Z);
}.

(** ** Scripts

    [Draw] gives a number that was not given before; it stands for the next
    random value, generated key or reading of the clock. [S] is what the
    side keeps outside of the session. *)
Section script.
Context {S E : Type}.

Inductive script (A : Type) : Type :=
  | Finished (r : result E A)
  | Draw (k : nat → script A)
  | Get (k : S → script A)
  | Put (s : S) (k : script A)
  | WriteAll (b : list Z) (k : result IoError () → script A)
  | ReadExact (n : nat) (k : result IoError (list Z) → script A)
  | WriteChunk (b : list Z) (k : result ChunkWriterError () → script A)
  | ReadChunk (k : result ChunkReaderError (list Z) → script A)
  | Handshake (c : TlsConfig) (k : result ExtError TlsStream → script A).
End script.
#[global] Arguments script : clear implicits.
#[global] Arguments Finished {S E A} _.
#[global] Arguments Draw {S E A} _.
#[global] Arguments Get {S E A} _.
#[global] Arguments Put {S E A} _ _.
#[global] Arguments WriteAll {S E A} _ _.
#[global] Arguments ReadExact {S E A} _ _.
#[global] Arguments WriteChunk {S E A} _ _.
#[global] Arguments ReadChunk {S E A} _.
#[global] Arguments Handshake {S E A} _ _.

(** Going on with the outcome of a script, whatever it is. *)
Fixpoint continue {S E F A B} (p : script S E A) (f : result E A → script S F B) : script S F B :=
  match p with
  | Finished r => f r
  | Draw k => Draw (λ n, continue (k n) f)
  | Get k => Get (λ s, continue (k s) f)
  | Put s k => Put s (continue k f)
  | WriteAll b k => WriteAll b (λ r, continue (k r) f)
  | ReadExact n k => ReadExact n (λ r, continue (k r) f)
  | WriteChunk b k => WriteChunk b (λ r, continue (k r) f)
  | ReadChunk k => ReadChunk (λ r, continue (k r) f)
  | Handshake c k => Handshake c (λ r, continue (k r) f)
  end.

#[global] Instance script_ret S E : MRet (script S E) := λ A a, Finished (Ok a).
#[global] Instance script_bind S E : MBind (script S E) := λ A B f p,
  continue p (λ r, match r with
                   | Ok a => f a
                   | Err e => Finished (Err e)
                   | Panic => Finished Panic
                   end).

Definition returns {S E A} (r : result E A) : script S E A := Finished r.
Definition script_map_err {S E F A} (f : E → F) (p : script S E A) : script S F A :=
  continue p (λ r, Finished (map_err f r)).

(** The result as a value: [match], [.is_err()] and [let _ =] on a call that
    may fail. *)
Definition attempt {S E F A} (p : script S E A) : script S F (result E A) :=
  continue p (λ r, match r with Panic => Finished Panic | _ => Finished (Ok r) end).

Definition draw {S E} : script S E nat := Draw (λ n, mret n).
Definition get {S E} : script S E S := Get (λ s, mret s).
Definition put {S E} (s : S) : script S E () := Put s (mret ()).
Definition write_all {S} (b : list Z) : script S IoError () := WriteAll b returns.
Definition read_exact {S} (n : nat) : script S IoError (list Z) := ReadExact n returns.

(** [spawn_blocking(..).await??]: a task that unwinds is an error of the
    one who waits for it. *)
Definition blocking {E A} (join_error : E) (r : result E A) : result E A :=
  match r with Panic => Err join_error | r => r end.

(** A step on the state of a side, as a part of its script: the outcome is a
    value, and a step that unwinds takes the script with it. *)
Definition perform {S E F A} (m : io S E A) : script S F (result E A) :=
  Get (λ s, let '(s', r) := m s in
            Put s' (Finished (match r with Panic => Panic | r => Ok r end))).

(** [Session::write_object] and [read_object]. *)
Definition write_object {S U} `{Postcard U} (x : U) : script S ObjectWriterError () :=
  encoded ← returns (map_err SerializeError (to_stdvec x));
  _ ← returns (from_usize (Z.of_nat (length encoded)));
  script_map_err ChunkWriteError (WriteChunk encoded returns).

Definition read_object {S U} `{Postcard U} : script S ObjectReaderError U :=
  chunk ← script_map_err ChunkReadError (ReadChunk returns);
  returns (map_err DeserializeError (from_bytes chunk)).

(** ** A script alone

    The outside answers: how a write went, what arrived, what a handshake
    came to. With an answer of another kind, or none, the connection is
    lost. *)
Inductive Answer :=
  | Wrote
  | Received (b : list Z)
  | Shook (now : Z) (stream : TlsStream).

Inductive Frame := Bytes (b : list Z) | Chunk (b : list Z).

Record World (S : Type) := mkWorld {
  local : S;
  drawn : nat;
  answers : list Answer;
  sent : list Frame;
}.
#[global] Arguments mkWorld {S} _ _ _ _.
#[global] Arguments local {S} _.
#[global] Arguments drawn {S} _.
#[global] Arguments answers {S} _.
#[global] Arguments sent {S} _.

(** [rustls] asks for the check of the first certificate that is presented. *)
Definition shake (c : TlsConfig) (now : Z) (stream : TlsStream) : result ExtError TlsStream :=
  match peer_certificates stream with
  | Some (d :: _) => _ ← map_err (λ _, "certificate refused"%string) (tls_verify c d now); Ok stream
  | _ => Ok stream
  end.

Fixpoint run {S E A} (p : script S E A) (w : World S) : World S * result E A :=
  let w' := mkWorld (local w) (drawn w) (tail (answers w)) (sent w) in
  let put_frame f := mkWorld (local w) (drawn w) (tail (answers w)) (sent w ++ [f]) in
  match p with
  | Finished r => (w, r)
  | Draw k => run (k (drawn w)) (mkWorld (local w) (1 + drawn w)%nat (answers w) (sent w))
  | Get k => run (k (local w)) w
  | Put s k => run k (mkWorld s (drawn w) (answers w) (sent w))
  | WriteAll b k =>
      match head (answers w) with
      | Some Wrote => run (k (Ok ())) (put_frame (Bytes b))
      | _ => run (k (Err BrokenPipe)) w'
      end
  | WriteChunk b k =>
      match head (answers w) with
      | Some Wrote => run (k (Ok ())) (put_frame (Chunk b))
      | _ => run (k (Err (BodyWriteError BrokenPipe))) w'
      end
  | ReadExact n k =>
      match head (answers w) with
      | Some (Received b) =>
          run (k (if bool_decide (length b = n) then Ok b else Err UnexpectedEof)) w'
      | _ => run (k (Err UnexpectedEof)) w'
      end
  | ReadChunk k =>
      match head (answers w) with
      | Some (Received b) => run (k (Ok b)) w'
      | _ => run (k (Err (LengthReadError UnexpectedEof))) w'
      end
  | Handshake c k =>
      match head (answers w) with
      | Some (Shook now stream) => run (k (shake c now stream)) w'
      | _ => run (k (Err "connection lost"%string)) w'
      end
  end.

Section run_lemmas.
Context {S : Type}.
Implicit Types w : World S.

Lemma run_continue {E F A B} (p : script S E A) (f : result E A → script S F B) w :
  run (continue p f) w = let '(w', r) := run p w in run (f r) w'.
Proof.
  revert w.
  induction p as [r|k IH|k IH|s k IH|b k IH|n k IH|b k IH|k IH|c k IH]; intros w; cbn [continue run];
    try (destruct (head (answers w)) as [[]|]); by rewrite ?IH.
Qed.

Lemma run_bind {E A B} (p : script S E A) (f : A → script S E B) w :
  run (p ≫= f) w = mbind (M := io (World S) E) (λ a, run (f a)) (run p) w.
Proof.
  unfold mbind at 1, script_bind. rewrite run_continue. unfold mbind, io_bind.
  by destruct (run p w) as [w' [a|e|]].
Qed.

Lemma run_bind_inv {E A B} (p : script S E A) (f : A → script S E B) w w' b :
  run (p ≫= f) w = (w', Ok b) → ∃ w1 a, run p w = (w1, Ok a) ∧ run (f a) w1 = (w', Ok b).
Proof. rewrite run_bind. apply io_bind_inv. Qed.

Lemma run_bind_cases {E A B} (p : script S E A) (f : A → script S E B) w w' r :
  run (p ≫= f) w = (w', r) →
  (∃ w1 a, run p w = (w1, Ok a) ∧ run (f a) w1 = (w', r)) ∨
  (∃ r', run p w = (w', r') ∧ is_ok r' = false ∧ is_ok r = false).
Proof. rewrite run_bind. apply io_bind_cases. Qed.

Lemma run_bind_step {E A B} (p : script S E A) (f : A → script S E B) w w' a :
  run p w = (w', Ok a) → run (p ≫= f) w = run (f a) w'.
Proof. intros H. by rewrite run_bind, (io_bind_step _ _ _ _ _ H). Qed.

Lemma run_map_err {E F A} (f : E → F) (p : script S E A) w :
  run (script_map_err f p) w = let '(w', r) := run p w in (w', map_err f r).
Proof. unfold script_map_err. by rewrite run_continue. Qed.

Lemma run_map_err_inv {E F A} (f : E → F) (p : script S E A) w w' a :
  run (script_map_err f p) w = (w', Ok a) → run p w = (w', Ok a).
Proof. rewrite run_map_err. destruct (run p w) as [w1 r]. by intros [= <- ->%map_err_Ok]. Qed.

Lemma run_attempt {E F A} (p : script S E A) w :
  run (attempt (F := F) p) w =
    let '(w', r) := run p w in (w', match r with Panic => Panic | _ => Ok r end).
Proof. unfold attempt. rewrite run_continue. by destruct (run p w) as [w' [a|e|]]. Qed.

Lemma run_returns {E A} (r : result E A) w : run (returns r) w = (w, r).
Proof. done. Qed.

Lemma run_get {E} w : run (E := E) get w = (w, Ok (local w)).
Proof. done. Qed.

Lemma run_put {E} (s : S) w :
  run (E := E) (put s) w = (mkWorld s (drawn w) (answers w) (sent w), Ok ()).
Proof. done. Qed.

Lemma run_draw {E} w :
  run (E := E) draw w = (mkWorld (local w) (1 + drawn w)%nat (answers w) (sent w), Ok (drawn w)).
Proof. done. Qed.

(** A script that only talks leaves the outside of the session alone. *)
Definition quiet {E A} (p : script S E A) : Prop := ∀ w, local (run p w).1 = local w.

Lemma quiet_run {E A} (p : script S E A) w w' r : quiet p → run p w = (w', r) → local w' = local w.
Proof. intros Hp Hr. specialize (Hp w). by rewrite Hr in Hp. Qed.

Lemma quiet_continue {E F A B} (p : script S E A) (f : result E A → script S F B) :
  quiet p → (∀ r, quiet (f r)) → quiet (continue p f).
Proof.
  intros Hp Hf w. rewrite run_continue. pose proof (Hp w) as E1. destruct (run p w) as [w1 r].
  cbn in E1. by rewrite Hf.
Qed.

Lemma quiet_finished {E A} (r : result E A) : quiet (Finished r).
Proof. done. Qed.

Lemma quiet_bind {E A B} (p : script S E A) (f : A → script S E B) :
  quiet p → (∀ a, quiet (f a)) → quiet (p ≫= f).
Proof. intros Hp Hf. apply quiet_continue; [done|]. by intros [a|e|]. Qed.

Lemma quiet_map_err {E F A} (f : E → F) (p : script S E A) : quiet p → quiet (script_map_err f p).
Proof. intros Hp. by apply quiet_continue. Qed.

Lemma quiet_attempt {E F A} (p : script S E A) : quiet p → quiet (attempt (F := F) p).
Proof. intros Hp. apply quiet_continue; [done|]. by intros [a|e|]. Qed.

Lemma quiet_draw {E} : quiet (E := E) draw.
Proof. done. Qed.
Lemma quiet_get {E} : quiet (E := E) get.
Proof. done. Qed.
Lemma quiet_write_all b : quiet (write_all b).
Proof. intros w. cbn. by repeat case_match. Qed.
Lemma quiet_read_exact n : quiet (read_exact n).
Proof. intros w. cbn. by repeat case_match. Qed.
Lemma quiet_handshake {E A} c (k : result ExtError TlsStream → script S E A) :
  (∀ r, quiet (k r)) → quiet (Handshake c k).
Proof. intros Hk w. cbn. destruct (head (answers w)) as [[]|]; by rewrite Hk. Qed.

Lemma quiet_write_object {U} `{Postcard U} (x : U) : quiet (write_object x).
Proof.
  apply quiet_bind; [done|]. intros b. apply quiet_bind; [done|]. intros _. apply quiet_map_err.
  intros w. cbn. by repeat case_match.
Qed.

Lemma quiet_read_object {U} `{Postcard U} : quiet (read_object (U := U)).
Proof.
  apply quiet_bind; [|done]. apply quiet_map_err. intros w. cbn. by repeat case_match.
Qed.

(** A step that leaves the outside alone: what came before does not matter. *)
Lemma quiet_step {E A B} (p : script S E A) (f : A → script S E B) w w' r :
  quiet p → run (p ≫= f) w = (w', r) →
  (local w' = local w ∧ is_ok r = false) ∨
  ∃ w1 a, run p w = (w1, Ok a) ∧ local w1 = local w ∧ run (f a) w1 = (w', r).
Proof.
  intros Hq [(w1 & a & Hp & Hf)|(r' & Hp & _ & Hr)]%run_bind_cases; [right|left].
  - exists w1, a. split; [done|]. split; [by eapply quiet_run|done].
  - split; [by eapply quiet_run|done].
Qed.
End run_lemmas.

Create HintDb quiet.
Lemma quiet_returns {S E A} (r : result E A) : quiet (S := S) (returns r).
Proof. done. Qed.
Lemma quiet_ret {S E A} (a : A) : quiet (S := S) (E := E) (mret a).
Proof. done. Qed.

#[export] Hint Resolve quiet_finished quiet_returns quiet_ret quiet_draw quiet_get quiet_write_all quiet_read_exact
  quiet_write_object quiet_read_object : quiet.

(** [stay_quiet] walks through a script with the hints of [quiet]. *)
Ltac stay_quiet :=
  repeat (intros; first
    [ solve [eauto with quiet]
    | apply quiet_bind
    | apply quiet_map_err
    | apply quiet_attempt
    | apply quiet_handshake
    | case_match ]).

(** ** Two scripts together *)

(** The two ends of a TLS handshake. [rustls] lets both sides through when
    each accepts the certificate of the other one and the certificates go with
    the keys; both then export the same material. *)
Class TlsStack := {
  server_name_ok : string → result ExtError ();
  tls_key_ok : list Z → list Z → result ExtError ();
  handshake_time : nat → Z;
  (** The [n]-th handshake, of a client and a server. *)
  handshake : nat → TlsConfig → TlsConfig → result ExtError TlsStream * result ExtError TlsStream;
}.

Class TlsStackLaws `{TlsStack} := {
  handshake_accepted n c s :
    tls_role c = TlsClient → tls_role s = TlsServer →
    tls_verify c (tls_certificate s) (handshake_time n) = Ok () →
    tls_verify s (tls_certificate c) (handshake_time n) = Ok () →
    tls_key_ok (tls_certificate c) (tls_key c) = Ok () →
    tls_key_ok (tls_certificate s) (tls_key s) = Ok () →
    ∃ exporter,
      handshake n c s = (Ok (mkTlsStream (Some [tls_certificate s]) exporter),
                         Ok (mkTlsStream (Some [tls_certificate c]) exporter)) ∧
      ∀ len label context, is_ok (exporter len label context) = true;
}.

Section pair.
Context `{TS : TlsStack} {S1 E1 A1 S2 E2 A2 : Type}.

(** What one side can do by itself, with the frames that have arrived: its
    next script, state and count of draws, the frames left, and those it
    sends. *)
Definition advance {S E A} (p : script S E A) (s : S) (n : nat) (inbox : list Frame) :
    option (script S E A * S * nat * list Frame * list Frame) :=
  match p with
  | Finished _ => None
  | Draw k => Some (k n, s, (1 + n)%nat, inbox, [])
  | Get k => Some (k s, s, n, inbox, [])
  | Put s k => Some (k, s, n, inbox, [])
  | WriteAll b k => Some (k (Ok ()), s, n, inbox, [Bytes b])
  | WriteChunk b k => Some (k (Ok ()), s, n, inbox, [Chunk b])
  | ReadExact m k =>
      match inbox with
      | Bytes b :: inbox => if bool_decide (length b = m) then Some (k (Ok b), s, n, inbox, []) else None
      | _ => None
      end
  | ReadChunk k =>
      match inbox with
      | Chunk b :: inbox => Some (k (Ok b), s, n, inbox, [])
      | _ => None
      end
  | Handshake _ _ => None
  end.

(** A client and a server, the frames under way to each, and the number of
    handshakes so far. *)
Record Pair := mkPair {
  client_script : script S1 E1 A1; client_state : S1; client_draws : nat;
  server_script : script S2 E2 A2; server_state : S2; server_draws : nat;
  to_client : list Frame; to_server : list Frame;
  handshakes : nat;
}.

Inductive pair_step : Pair → Pair → Prop :=
  | step_client p s n q t m ic os h p' s' n' ic' out :
      advance p s n ic = Some (p', s', n', ic', out) →
      pair_step (mkPair p s n q t m ic os h) (mkPair p' s' n' q t m ic' (os ++ out) h)
  | step_server p s n q t m ic os h q' t' m' os' out :
      advance q t m os = Some (q', t', m', os', out) →
      pair_step (mkPair p s n q t m ic os h) (mkPair p s n q' t' m' (ic ++ out) os' h)
  | step_handshake c k d j s n t m h :
      tls_role c = TlsClient → tls_role d = TlsServer →
      pair_step (mkPair (Handshake c k) s n (Handshake d j) t m [] [] h)
        (mkPair (k (handshake h c d).1) s n (j (handshake h c d).2) t m [] [] (1 + h)).

(** What arrives later does not change what a side can already do. *)
Lemma advance_later {S E A} (p : script S E A) s n ic more p' s' n' ic' out :
  advance p s n ic = Some (p', s', n', ic', out) →
  advance p s n (ic ++ more) = Some (p', s', n', ic' ++ more, out).
Proof.
  destruct p; cbn; try naive_solver; destruct ic as [|[b|b] ic]; cbn; try done; repeat case_match;
    naive_solver.
Qed.

Lemma pair_step_diamond c c1 c2 :
  pair_step c c1 → pair_step c c2 → c1 = c2 ∨ ∃ d, pair_step c1 d ∧ pair_step c2 d.
Proof.
  intros H1 H2. destruct H1; inversion H2; subst; try done.
  - left. congruence.
  - right. eexists. split; [by apply step_server, advance_later|by apply step_client, advance_later].
  - right. eexists. split; [by apply step_client, advance_later|by apply step_server, advance_later].
  - left. congruence.
  - left. f_equal; congruence.
Qed.

(** The interleaving of two sides does not matter: if one of them leads to a
    pair that can do nothing more, then every one does, to the same pair and
    in the same number of steps. *)
Lemma pair_outcome_unique n c f :
  nsteps pair_step n c f → nf pair_step f →
  ∀ m d, nsteps pair_step m c d → (m ≤ n)%nat ∧ nsteps pair_step (n - m) d f.
Proof.
  revert c. induction n as [|n IH]; intros c Hc Hf m d Hd.
  - inversion Hc; subst. destruct Hd as [c|m c c2 d H1 H2]; [by split; [lia|constructor]|].
    destruct Hf. by exists c2.
  - inversion Hc as [|? ? c1 ? H1 H1f]; subst. destruct Hd as [c|m c c2 d H2 H2d]; [by split; [lia|]|].
    assert (nsteps pair_step n c2 f) as H2f.
    { destruct (pair_step_diamond _ _ _ H1 H2) as [<-|(e & He1 & He2)]; [done|].
      destruct (IH c1 H1f Hf 1%nat e (nsteps_once _ _ He1)) as [Hle Hn].
      replace n with (S (n - 1)) by lia. by econstructor. }
    destruct (IH c2 H2f Hf m d H2d) as [Hle Hn]. split; [lia|done].
Qed.

(** Every interleaving ends, and all of them end in [f]. *)
Definition inevitable (c f : Pair) : Prop :=
  nf pair_step f ∧ ∃ n, ∀ m d, nsteps pair_step m c d → (m ≤ n)%nat ∧ rtc pair_step d f.

Lemma rtc_inevitable c f : rtc pair_step c f → nf pair_step f → inevitable c f.
Proof.
  intros [n Hn]%rtc_nsteps_1 Hf. split; [done|]. exists n. intros m d Hd.
  destruct (pair_outcome_unique _ _ _ Hn Hf _ _ Hd) as [Hle Hr]. split; [done|]. by eapply rtc_nsteps_2.
Qed.

Lemma finished_nf r s n r' t m ic os h :
  nf pair_step (mkPair (Finished r) s n (Finished r') t m ic os h).
Proof. intros [c Hc]. inversion Hc; subst; done. Qed.
End pair.

Lemma advance_continue {S E F A B} (p : script S E A) (f : result E A → script S F B) s n ic p' s' n' ic' out :
  advance p s n ic = Some (p', s', n', ic', out) →
  advance (continue p f) s n ic = Some (continue p' f, s', n', ic', out).
Proof.
  destruct p; cbn; try naive_solver; destruct ic as [|[b'|b'] ic]; cbn; try done; repeat case_match;
    naive_solver.
Qed.

(** One side alone, up to its end: the outcome, and what [advance] tells. *)
Fixpoint solo {S E A} (p : script S E A) (s : S) (n : nat) (inbox : list Frame) :
    option (result E A * S * nat * list Frame * list Frame) :=
  match p with
  | Finished r => Some (r, s, n, inbox, [])
  | Draw k => solo (k n) s (1 + n)%nat inbox
  | Get k => solo (k s) s n inbox
  | Put s k => solo k s n inbox
  | WriteAll b k => '(r, s, n, inbox, out) ← solo (k (Ok ())) s n inbox; Some (r, s, n, inbox, Bytes b :: out)
  | WriteChunk b k => '(r, s, n, inbox, out) ← solo (k (Ok ())) s n inbox; Some (r, s, n, inbox, Chunk b :: out)
  | ReadExact m k =>
      match inbox with
      | Bytes b :: inbox => if bool_decide (length b = m) then solo (k (Ok b)) s n inbox else None
      | _ => None
      end
  | ReadChunk k =>
      match inbox with
      | Chunk b :: inbox => solo (k (Ok b)) s n inbox
      | _ => None
      end
  | Handshake _ _ => None
  end.

Lemma solo_continue {S E F A B} (p : script S E A) (f : result E A → script S F B) s n ic r s1 n1 ic1 out1 :
  solo p s n ic = Some (r, s1, n1, ic1, out1) →
  solo (continue p f) s n ic =
    '(r, s, n, ic, out) ← solo (f r) s1 n1 ic1; Some (r, s, n, ic, out1 ++ out).
Proof.
  revert s n ic out1. induction p as [r0|k IH|k IH|s0 k IH|b k IH|m k IH|b k IH|k IH|c k IH];
    intros s n ic out1; cbn; try (by apply IH).
  - intros [= -> -> -> -> <-]. by destruct (solo (f r) s1 n1 ic1) as [[[[[? ?] ?] ?] ?]|].
  - destruct (solo (k (Ok ())) s n ic) as [[[[[r0 s0] n0] ic0] out0]|] eqn:Hk; [|done]. cbn.
    intros [= -> -> -> -> <-]. rewrite (IH _ _ _ _ _ Hk).
    by destruct (solo (f r) s1 n1 ic1) as [[[[[? ?] ?] ?] ?]|].
  - destruct ic as [|[b|b] ic]; [done| |done]. case_bool_decide; [|done]. apply IH.
  - destruct (solo (k (Ok ())) s n ic) as [[[[[r0 s0] n0] ic0] out0]|] eqn:Hk; [|done]. cbn.
    intros [= -> -> -> -> <-]. rewrite (IH _ _ _ _ _ Hk).
    by destruct (solo (f r) s1 n1 ic1) as [[[[[? ?] ?] ?] ?]|].
  - destruct ic as [|[b|b] ic]; [done|done|]. apply IH.
  - done.
Qed.

Section together.
Context `{TS : TlsStack} {S1 E1 A1 B1 F1 S2 E2 A2 B2 F2 : Type}.
Implicit Types (p : script S1 E1 A1) (q : script S2 E2 A2).

Lemma client_solo p (f : result E1 A1 → script S1 F1 B1) s n ic r s' n' ic' out q t m os h :
  solo p s n ic = Some (r, s', n', ic', out) →
  rtc pair_step (mkPair (continue p f) s n q t m ic os h) (mkPair (f r) s' n' q t m ic' (os ++ out) h).
Proof.
  revert s n ic os out. induction p as [r0|k IH|k IH|s0 k IH|b k IH|l k IH|b k IH|k IH|c k IH];
    intros s n ic os out; cbn [solo continue].
  - intros [= -> -> -> -> <-]. by rewrite app_nil_r.
  - intros H. eapply rtc_l; [by apply step_client|]. rewrite app_nil_r. by apply IH.
  - intros H. eapply rtc_l; [by apply step_client|]. rewrite app_nil_r. by apply IH.
  - intros H. eapply rtc_l; [by apply step_client|]. rewrite app_nil_r. by apply IH.
  - intros ([[[[? ?] ?] ?] out'] & H & [= -> -> -> -> <-])%bind_Some.
    eapply rtc_l; [by apply step_client|]. rewrite (cons_middle _ os out'), app_assoc. by apply IH.
  - destruct ic as [|[b|b] ic]; [done| |done]. case_bool_decide as Hl; [|done]. intros H.
    eapply rtc_l; [apply step_client; cbn; by rewrite bool_decide_true|]. rewrite app_nil_r. by apply IH.
  - intros ([[[[? ?] ?] ?] out'] & H & [= -> -> -> -> <-])%bind_Some.
    eapply rtc_l; [by apply step_client|]. rewrite (cons_middle _ os out'), app_assoc. by apply IH.
  - destruct ic as [|[b|b] ic]; [done|done|]. intros H.
    eapply rtc_l; [by apply step_client|]. rewrite app_nil_r. by apply IH.
  - done.
Qed.

Lemma server_solo q (f : result E2 A2 → script S2 F2 B2) p s n t m ic os r t' m' os' out h :
  solo q t m os = Some (r, t', m', os', out) →
  rtc pair_step (mkPair p s n (continue q f) t m ic os h) (mkPair p s n (f r) t' m' (ic ++ out) os' h).
Proof.
  revert t m ic os out. induction q as [r0|k IH|k IH|s0 k IH|b k IH|l k IH|b k IH|k IH|c k IH];
    intros t m ic os out; cbn [solo continue].
  - intros [= -> -> -> -> <-]. by rewrite app_nil_r.
  - intros H. eapply rtc_l; [by apply step_server|]. rewrite app_nil_r. by apply IH.
  - intros H. eapply rtc_l; [by apply step_server|]. rewrite app_nil_r. by apply IH.
  - intros H. eapply rtc_l; [by apply step_server|]. rewrite app_nil_r. by apply IH.
  - intros ([[[[? ?] ?] ?] out'] & H & [= -> -> -> -> <-])%bind_Some.
    eapply rtc_l; [by apply step_server|]. rewrite (cons_middle _ ic out'), app_assoc. by apply IH.
  - destruct os as [|[b|b] os]; [done| |done]. case_bool_decide as Hl; [|done]. intros H.
    eapply rtc_l; [apply step_server; cbn; by rewrite bool_decide_true|]. rewrite app_nil_r. by apply IH.
  - intros ([[[[? ?] ?] ?] out'] & H & [= -> -> -> -> <-])%bind_Some.
    eapply rtc_l; [by apply step_server|]. rewrite (cons_middle _ ic out'), app_assoc. by apply IH.
  - destruct os as [|[b|b] os]; [done|done|]. intros H.
    eapply rtc_l; [by apply step_server|]. rewrite app_nil_r. by apply IH.
  - done.
Qed.

(** Both sides go on from where a part of the exchange ends. *)
Lemma pair_continue p (f : result E1 A1 → script S1 F1 B1) q (g : result E2 A2 → script S2 F2 B2)
    s n t m ic os h p' s' n' q' t' m' ic' os' h' :
  rtc pair_step (mkPair p s n q t m ic os h) (mkPair p' s' n' q' t' m' ic' os' h') →
  rtc pair_step (mkPair (continue p f) s n (continue q g) t m ic os h)
    (mkPair (continue p' f) s' n' (continue q' g) t' m' ic' os' h').
Proof.
  set (F c := mkPair (continue (client_script c) f) (client_state c) (client_draws c)
    (continue (server_script c) g) (server_state c) (server_draws c) (to_client c) (to_server c) (handshakes c)).
  intros Hr. refine (rtc_congruence F pair_step _ _ _ Hr). intros c d [].
  - by apply step_client, advance_continue.
  - by apply step_server, advance_continue.
  - by apply (step_handshake c0 (λ r, continue (k r) f) d0 (λ r, continue (j r) g)).
Qed.

(** One side goes on from there, the other one is as it is. *)
Lemma client_continue p (f : result E1 A1 → script S1 F1 B1) q s n t m ic os h p' s' n' q' t' m' ic' os' h' :
  rtc pair_step (mkPair p s n q t m ic os h) (mkPair p' s' n' q' t' m' ic' os' h') →
  rtc pair_step (mkPair (continue p f) s n q t m ic os h) (mkPair (continue p' f) s' n' q' t' m' ic' os' h').
Proof.
  set (F (c : Pair (A2 := A2) (E2 := E2) (S2 := S2)) := mkPair (continue (client_script c) f) (client_state c) (client_draws c)
    (server_script c) (server_state c) (server_draws c) (to_client c) (to_server c) (handshakes c)).
  intros Hr. refine (rtc_congruence F pair_step _ _ _ Hr). intros c d [].
  - by apply step_client, advance_continue.
  - by apply step_server.
  - by apply (step_handshake c0 (λ r, continue (k r) f) d0 j).
Qed.

Lemma server_continue p q (g : result E2 A2 → script S2 F2 B2) s n t m ic os h p' s' n' q' t' m' ic' os' h' :
  rtc pair_step (mkPair p s n q t m ic os h) (mkPair p' s' n' q' t' m' ic' os' h') →
  rtc pair_step (mkPair p s n (continue q g) t m ic os h) (mkPair p' s' n' (continue q' g) t' m' ic' os' h').
Proof.
  set (F (c : Pair (A1 := A1) (E1 := E1) (S1 := S1)) := mkPair (client_script c) (client_state c) (client_draws c)
    (continue (server_script c) g) (server_state c) (server_draws c) (to_client c) (to_server c) (handshakes c)).
  intros Hr. refine (rtc_congruence F pair_step _ _ _ Hr). intros c d [].
  - by apply step_client.
  - by apply step_server, advance_continue.
  - by apply (step_handshake c0 k d0 (λ r, continue (j r) g)).
Qed.
End together.

(** *** What the parts of a script do alone *)
Section solo.
Context {S : Type}.
Implicit Types (s : S) (ic : list Frame).

Lemma solo_bind {E A B} (p : script S E A) (f : A → script S E B) s n ic a s1 n1 ic1 out1 :
  solo p s n ic = Some (Ok a, s1, n1, ic1, out1) →
  solo (p ≫= f) s n ic = '(r, s, n, ic, out) ← solo (f a) s1 n1 ic1; Some (r, s, n, ic, out1 ++ out).
Proof. intros Hp. unfold mbind, script_bind. by rewrite (solo_continue _ _ _ _ _ _ _ _ _ _ Hp). Qed.

Lemma solo_map_err {E F A} (f : E → F) (p : script S E A) s n ic r s1 n1 ic1 out1 :
  solo p s n ic = Some (r, s1, n1, ic1, out1) →
  solo (script_map_err f p) s n ic = Some (map_err f r, s1, n1, ic1, out1).
Proof.
  intros Hp. unfold script_map_err. rewrite (solo_continue _ _ _ _ _ _ _ _ _ _ Hp). cbn. by rewrite app_nil_r.
Qed.

Lemma from_usize_ok {E} (len : Z) : 0 ≤ len ≤ 2 ^ 31 → is_ok (from_usize (E := E) len) = true.
Proof.
  intros Hl. unfold from_usize. rewrite Z.gtb_ltb, Z.shiftl_1_l, (proj2 (Z.ltb_ge _ _)) by lia.
  destruct (len <? 128); [|done]. destruct (lookup_lt_is_Some_2 (to_be_bytes 4 len) 3) as [b ->]; [|done].
  rewrite length_to_be_bytes. lia.
Qed.

(** What can be sent as one object. *)
Definition sendable {U} `{Postcard U} (x : U) (b : list Z) : Prop :=
  to_stdvec x = Ok b ∧ Z.of_nat (length b) ≤ 2 ^ 31.

Lemma solo_write_object {U} `{Postcard U} (x : U) b s n ic :
  sendable x b → solo (write_object x) s n ic = Some (Ok (), s, n, ic, [Chunk b]).
Proof.
  intros [Hb Hl]. unfold write_object. rewrite Hb. cbn.
  assert (is_ok (from_usize (E := ObjectWriterError) (Z.of_nat (length b))) = true) as Hok
    by (apply from_usize_ok; lia).
  by destruct (from_usize _) as [c|e|].
Qed.

Lemma solo_read_object {U} `{Postcard U} (x : U) b s n ic :
  from_bytes b = Ok x → solo read_object s n (Chunk b :: ic) = Some (Ok x, s, n, ic, []).
Proof. intros Hb. cbn. by rewrite Hb. Qed.

Lemma sendable_back {U} `{PostcardLaws U} (x : U) b : sendable x b → from_bytes b = Ok x.
Proof. intros [Hb _]. by apply from_to_stdvec. Qed.
End solo.

Lemma returns_bind {S E A B} (a : A) (f : A → script S E B) : returns (Ok a) ≫= f = f a.
Proof. done. Qed.

(** *** One operation of one side *)
Section operations.
Context `{TS : TlsStack} {S1 E1 A1 S2 E2 A2 : Type}.
Context (s : S1) (t : S2) (n m : nat) (ic os : list Frame) (h : nat).
Context (p : script S1 E1 A1) (q : script S2 E2 A2).

Lemma client_writes {U} `{Postcard U} {E} (wrap : ObjectWriterError → E) (x : U) b
    (f : result E () → script S1 E1 A1) :
  sendable x b →
  rtc pair_step (mkPair (continue (script_map_err wrap (write_object x)) f) s n q t m ic os h)
    (mkPair (f (Ok ())) s n q t m ic (os ++ [Chunk b]) h).
Proof. intros Hx. by apply client_solo, (solo_map_err wrap _ _ _ _ (Ok ())), solo_write_object. Qed.

Lemma client_reads {U} `{Postcard U} {E} (wrap : ObjectReaderError → E) (x : U) b
    (f : result E U → script S1 E1 A1) :
  from_bytes b = Ok x →
  rtc pair_step (mkPair (continue (script_map_err wrap read_object) f) s n q t m (Chunk b :: ic) os h)
    (mkPair (f (Ok x)) s n q t m ic os h).
Proof.
  intros Hx. rewrite <-(app_nil_r os) at 2.
  by apply client_solo, (solo_map_err wrap _ _ _ _ (Ok x)), solo_read_object.
Qed.

Lemma server_writes {U} `{Postcard U} {E} (wrap : ObjectWriterError → E) (x : U) b
    (f : result E () → script S2 E2 A2) :
  sendable x b →
  rtc pair_step (mkPair p s n (continue (script_map_err wrap (write_object x)) f) t m ic os h)
    (mkPair p s n (f (Ok ())) t m (ic ++ [Chunk b]) os h).
Proof. intros Hx. by apply server_solo, (solo_map_err wrap _ _ _ _ (Ok ())), solo_write_object. Qed.

Lemma server_reads {U} `{Postcard U} {E} (wrap : ObjectReaderError → E) (x : U) b
    (f : result E U → script S2 E2 A2) :
  from_bytes b = Ok x →
  rtc pair_step (mkPair p s n (continue (script_map_err wrap read_object) f) t m ic (Chunk b :: os) h)
    (mkPair p s n (f (Ok x)) t m ic os h).
Proof.
  intros Hx. rewrite <-(app_nil_r ic) at 2.
  by apply server_solo, (solo_map_err wrap _ _ _ _ (Ok x)), solo_read_object.
Qed.

Lemma server_tries_write {U} `{Postcard U} {E F} (wrap : ObjectWriterError → E) (x : U) b
    (f : result F (result E ()) → script S2 E2 A2) :
  sendable x b →
  rtc pair_step (mkPair p s n (continue (attempt (script_map_err wrap (write_object x))) f) t m ic os h)
    (mkPair p s n (f (Ok (Ok ()))) t m (ic ++ [Chunk b]) os h).
Proof.
  intros Hx. apply server_solo. unfold attempt.
  by rewrite (solo_continue _ _ _ _ _ _ _ _ _ _
    (solo_map_err wrap _ _ _ _ (Ok ()) _ _ _ _ (solo_write_object x b t m os Hx))).
Qed.

Lemma server_tries_read {U} `{Postcard U} {F} (x : U) b (f : result F (result ObjectReaderError U) → script S2 E2 A2) :
  from_bytes b = Ok x →
  rtc pair_step (mkPair p s n (continue (attempt read_object) f) t m ic (Chunk b :: os) h)
    (mkPair p s n (f (Ok (Ok x))) t m ic os h).
Proof.
  intros Hx. rewrite <-(app_nil_r ic) at 2. apply server_solo. unfold attempt.
  by rewrite (solo_continue _ _ _ _ _ _ _ _ _ _ (solo_read_object x b t m os Hx)).
Qed.

Lemma client_draws_one {E} (f : result E nat → script S1 E1 A1) :
  rtc pair_step (mkPair (continue draw f) s n q t m ic os h) (mkPair (f (Ok n)) s (1 + n) q t m ic os h).
Proof. rewrite <-(app_nil_r os) at 2. by apply client_solo. Qed.

Lemma server_draws_one {E} (f : result E nat → script S2 E2 A2) :
  rtc pair_step (mkPair p s n (continue draw f) t m ic os h) (mkPair p s n (f (Ok m)) t (1 + m) ic os h).
Proof. rewrite <-(app_nil_r ic) at 2. by apply server_solo. Qed.

Lemma client_gets {E} (f : result E S1 → script S1 E1 A1) :
  rtc pair_step (mkPair (continue get f) s n q t m ic os h) (mkPair (f (Ok s)) s n q t m ic os h).
Proof. rewrite <-(app_nil_r os) at 2. by apply client_solo. Qed.

Lemma server_gets {E} (f : result E S2 → script S2 E2 A2) :
  rtc pair_step (mkPair p s n (continue get f) t m ic os h) (mkPair p s n (f (Ok t)) t m ic os h).
Proof. rewrite <-(app_nil_r ic) at 2. by apply server_solo. Qed.

Lemma server_puts {E} (u : S2) (f : result E () → script S2 E2 A2) :
  rtc pair_step (mkPair p s n (continue (put u) f) t m ic os h) (mkPair p s n (f (Ok ())) u m ic os h).
Proof. rewrite <-(app_nil_r ic) at 2. by apply server_solo. Qed.
Lemma client_performs {F A E} (f0 : io S1 F A) s' r (f : result E (result F A) → script S1 E1 A1) :
  f0 s = (s', r) → r ≠ Panic →
  rtc pair_step (mkPair (continue (perform f0) f) s n q t m ic os h) (mkPair (f (Ok r)) s' n q t m ic os h).
Proof.
  intros Hm Hr. rewrite <-(app_nil_r os) at 2. apply client_solo. cbn. rewrite Hm. cbn. by destruct r.
Qed.

Lemma server_performs {F A E} (f0 : io S2 F A) t' r (f : result E (result F A) → script S2 E2 A2) :
  f0 t = (t', r) → r ≠ Panic →
  rtc pair_step (mkPair p s n (continue (perform f0) f) t m ic os h) (mkPair p s n (f (Ok r)) t' m ic os h).
Proof.
  intros Hm Hr. rewrite <-(app_nil_r ic) at 2. apply server_solo. cbn. rewrite Hm. cbn. by destruct r.
Qed.
End operations.

(** One step of an exchange, by the lemma on it. *)
Tactic Notation "pair_does" uconstr(lem) := etransitivity; [eapply lem; solve [eauto using sendable_back]|]; cbn [app].
