(* ===== verification/TlsTransport.v ===== *)
(** * TLS on a session
    ([svalin_rpc/src/transport/tls_transport.rs])

    TLS on top of any transport, with the certificates of the program or with
    temporary ones. With a key that both sides share, each sends its
    temporary certificate encrypted under it, and TLS then accepts exactly
    that certificate. *)
From S2P Require Import Prelude.
From S2P Require Import External.
From S2P Require Import Spki.
From S2P Require Import Toy.
From S2P Require Import Certificate.
From S2P Require Import Encrypt.
From S2P Require Import Credential.
From S2P Require Import Verifiers.
From S2P Require Import Transport.
From S2P Require Import Script.
From stdpp Require Import relations.
From stdpp Require Import options.

#[local] Open Scope Z_scope.

(** What a machine draws: random bytes, readings of its clock, generated
    keys; and the default parameters of a new certificate. *)
Record Machine `{Rcgen} := mkMachine {
  random : nat → list Z;
  clock : nat → Z;
  generated : nat → RcgenKeyPair;
  default_params : CertificateParams;
}.
Arguments mkMachine {_ _} _ _ _ _.

(** The reading of the clock in whole seconds. *)
Definition get_current_timestamp `{Rcgen} (m : Machine) (n : nat) : Z := clock m n `div` 10 ^ 9.

Inductive PresharedError :=
  | CreateTempCredentialsError (e : CreateCredentialsError)
  | PresharedEncryptError (e : EncryptError)
  | PresharedDecryptError (e : DecryptError)
  | PresharedPostcardError (e : ExtError)
  | ReadWriteError (e : IoError)
  | NotTemporaryCertificate.

Inductive TlsClientError :=
  | ClientCreateConfigError (e : ExtError)
  | ClientParseHostError (e : ExtError)
  | CreateConnectorError (e : ExtError)
  | ClientMissingCertificateError
  | ClientCertificateParseError (e : CertificateParseError)
  | ClientPresharedError (e : PresharedError).

Inductive TlsServerError :=
  | ServerCreateConfigError (e : ExtError)
  | AcceptConnectionError (e : ExtError)
  | ServerMissingCertificateError
  | ServerCertificateParseError (e : CertificateParseError)
  | ServerPresharedError (e : PresharedError).

Section tls.
Context `{X509, CR : Crypto, RG : !Rcgen, Aead, !Postcard SavedKeypair, TS : TlsStack}.
Context `{!Postcard UnverifiedCertificate, !Postcard (EncryptedObject UnverifiedCertificate)}.
Context {S : Type}.
Implicit Types (m : Machine) (key : EncryptionKey).

Record TlsTransport := mkTlsTransport { tls_stream : TlsStream; tls_peer : Peer }.

Definition rustls_private_key {E} (self : KeyPair) : result E (list Z) :=
  let serialized := rcgen_serialized_der (keypair self) in
  if private_key_der_known serialized then Ok serialized else Panic.

(** The first certificate the other side presented. *)
Definition presented {E} (missing : E) (parse : CertificateParseError → E) (stream : TlsStream) :
    result E TlsTransport :=
  certs ← ok_or (peer_certificates stream) missing;
  der ← ok_or (head certs) missing;
  cert ← map_err parse (dangerous_from_already_verified_der der);
  Ok (mkTlsTransport stream (PeerCertificate cert)).

Definition tls_client (verifier : list Z → Z → result RustlsError ()) (credentials : Credential) :
    script S TlsClientError TlsTransport :=
  let cert_chain := der (credential_certificate credentials) in
  key_der ← returns (rustls_private_key (credential_keypair credentials));
  _ ← returns (map_err ClientCreateConfigError (tls_key_ok cert_chain key_der));
  _ ← returns (map_err ClientParseHostError (server_name_ok "todo"));
  client ← Handshake (mkTlsConfig TlsClient verifier cert_chain key_der)
             (λ r, returns (map_err CreateConnectorError r));
  returns (presented ClientMissingCertificateError ClientCertificateParseError client).

Definition tls_server (verifier : list Z → Z → result RustlsError ()) (credentials : Credential) :
    script S TlsServerError TlsTransport :=
  let cert_chain := der (credential_certificate credentials) in
  key_der ← returns (rustls_private_key (credential_keypair credentials));
  _ ← returns (map_err ServerCreateConfigError (tls_key_ok cert_chain key_der));
  server ← Handshake (mkTlsConfig TlsServer verifier cert_chain key_der)
             (λ r, returns (map_err AcceptConnectionError r));
  returns (presented ServerMissingCertificateError ServerCertificateParseError server).

Definition derive_key (self : TlsTransport) (len : nat) (label context : list Z) : result ExtError (list Z) :=
  export_keying_material (tls_stream self) len label context.

(** A temporary credential of a machine; the clock is read twice. *)
Definition draw_temporary m : script S CreateCredentialsError Credential :=
  g ← draw;
  t1 ← draw;
  t2 ← draw;
  returns (generate_temporary (default_params m) (generated m g) (clock m t1) (clock m t2)).

(** "Write my cert" *)
Definition send_temp_credentials m (preshared : EncryptionKey) : script S PresharedError Credential :=
  credentials ← script_map_err CreateTempCredentialsError (draw_temporary m);
  r ← draw;
  encrypted ← returns (map_err PresharedEncryptError
    (encrypt_object (random m r) (as_unverified (credential_certificate credentials)) preshared));
  encoded ← returns (map_err PresharedPostcardError (to_stdvec encrypted));
  let length_bytes := to_be_bytes 4 (wrap_u32 (Z.of_nat (length encoded))) in
  _ ← script_map_err ReadWriteError (write_all length_bytes);
  _ ← script_map_err ReadWriteError (write_all encoded);
  mret credentials.

(** "Read their cert" *)
Definition receive_temp_certificate (preshared : EncryptionKey) : script S PresharedError Certificate :=
  length_bytes ← script_map_err ReadWriteError (read_exact 4);
  let length := from_be_bytes length_bytes in
  encoded ← script_map_err ReadWriteError (read_exact (Z.to_nat length));
  encrypted ← returns (map_err PresharedPostcardError (from_bytes encoded));
  unverified_certificate ← returns (map_err PresharedDecryptError
    (decrypt_object (encrypted : EncryptedObject UnverifiedCertificate) preshared));
  returns (ok_or (use_as_temporary unverified_certificate) NotTemporaryCertificate).

Definition exchange_temp_credentials m (preshared : EncryptionKey) :
    script S PresharedError (Credential * Certificate) :=
  credentials ← send_temp_credentials m preshared;
  certificate ← receive_temp_certificate preshared;
  mret (credentials, certificate).

(** The verifier of the other side's certificate. *)
Definition exactly (certificate : Certificate) : list Z → Z → result RustlsError () :=
  verify_cert (to_tls_verifier (mkExact certificate)).

Definition client_preshared m (preshared : EncryptionKey) : script S TlsClientError TlsTransport :=
  '(credentials, certificate) ← script_map_err ClientPresharedError (exchange_temp_credentials m preshared);
  tls_client (exactly certificate) credentials.

Definition server_preshared m (preshared : EncryptionKey) : script S TlsServerError TlsTransport :=
  '(credentials, certificate) ← script_map_err ServerPresharedError (exchange_temp_credentials m preshared);
  tls_server (exactly certificate) credentials.

(** None of this touches what is outside the session. *)
Lemma quiet_draw_temporary m : quiet (draw_temporary m).
Proof. unfold draw_temporary. stay_quiet. Qed.

Lemma quiet_tls_client v c : quiet (tls_client v c).
Proof. unfold tls_client. stay_quiet. Qed.

Lemma quiet_tls_server v c : quiet (tls_server v c).
Proof. unfold tls_server. stay_quiet. Qed.

Lemma quiet_exchange m key : quiet (exchange_temp_credentials m key).
Proof. unfold exchange_temp_credentials, send_temp_credentials, receive_temp_certificate, draw_temporary. stay_quiet. Qed.

Lemma quiet_client_preshared m key : quiet (client_preshared m key).
Proof.
  apply quiet_bind; [apply quiet_map_err, quiet_exchange|]. intros [c d]. apply quiet_tls_client.
Qed.

Lemma quiet_server_preshared m key : quiet (server_preshared m key).
Proof.
  apply quiet_bind; [apply quiet_map_err, quiet_exchange|]. intros [c d]. apply quiet_tls_server.
Qed.

(** ** Meeting with a shared key *)

(** The temporary credential a machine draws from its [n]-th draw on. *)
Definition temporary_of m (n : nat) : result CreateCredentialsError Credential :=
  generate_temporary (default_params m) (generated m n) (clock m (1 + n)) (clock m (2 + n)).

(** What a machine sends of it under a key. *)
Definition sends_temporary m (n : nat) key (c : Credential) (b : list Z) : Prop :=
  temporary_of m n = Ok c ∧ Z.of_nat (length b) < 2 ^ 32 ∧
  ∃ e, encrypt_object (random m (3 + n)) (as_unverified (credential_certificate c)) key = Ok e ∧
    to_stdvec e = Ok b.

Definition temporary_frames (b : list Z) : list Frame :=
  [Bytes (to_be_bytes 4 (Z.of_nat (length b))); Bytes b].

Lemma solo_send m n key c b s ic :
  sends_temporary m n key c b →
  solo (send_temp_credentials m key) s n ic = Some (Ok c, s, (4 + n)%nat, ic, temporary_frames b).
Proof.
  intros (Hc & Hl & e & He & Hb). unfold send_temp_credentials, draw_temporary. cbn.
  unfold temporary_of in Hc. cbn in Hc. rewrite Hc. cbn. cbn in He. rewrite He. cbn. rewrite Hb. cbn.
  unfold wrap_u32. by rewrite Z.mod_small by lia.
Qed.

Lemma temporary_certificate `{!RcgenLaws} m n c :
  temporary_of m n = Ok c →
  parsed (credential_certificate c) ∧ certificate_type (credential_certificate c) = Temporary.
Proof.
  intros (k & _ & (e & _ & (h & _ & (d & Hd%map_err_Ok & (u & Hu%map_err_Ok & Hc)%bind_Ok)%bind_Ok)%bind_Ok)%bind_Ok)%bind_Ok.
  apply credential_new_Ok in Hc as (-> & _). split; [by apply from_der_parsed in Hu|].
  destruct (self_signed_parses _ _ _ _ _ Hd eq_refl) as (x & Hx & _ & Hou & _).
  apply from_der_Ok in Hu as (rest & x' & cn & ou & icn & Hx' & _ & _ & _ & _ & Hou' & Ht & _).
  rewrite Hx in Hx'. injection Hx' as _ <-. rewrite Hou in Hou'. injection Hou' as <-.
  apply type_from_str_iff in Ht. cbn. by destruct (certificate_type u).
Qed.

Lemma solo_receive `{!RcgenLaws, !AeadLaws, !PostcardLaws UnverifiedCertificate}
    `{!PostcardLaws (EncryptedObject UnverifiedCertificate)} m n key c b s k ic :
  sends_temporary m n key c b →
  solo (receive_temp_certificate key) s k (temporary_frames b ++ ic) =
    Some (Ok (credential_certificate c), s, k, ic, []).
Proof.
  intros (Hc & Hl & e & He & Hb). unfold receive_temp_certificate, temporary_frames. cbn -[to_be_bytes].
  rewrite length_to_be_bytes. cbn -[to_be_bytes]. rewrite from_be_to_be_bytes by lia. rewrite Nat2Z.id.
  rewrite bool_decide_true by done. cbn. rewrite (from_to_stdvec _ _ Hb). cbn.
  rewrite (decrypt_encrypt_object _ _ _ _ He). cbn.
  destruct (temporary_certificate _ _ _ Hc) as [_ Ht]. unfold use_as_temporary. rewrite Ht.
  rewrite bool_decide_true by done. cbn. by destruct (credential_certificate c).
Qed.
End tls.

#[export] Hint Resolve quiet_draw_temporary quiet_tls_client quiet_tls_server quiet_client_preshared
  quiet_server_preshared : quiet.

(** What [rustls] accepts of a credential. *)
Definition tls_usable `{Rcgen, TlsStack} (c : Credential) : Prop :=
  private_key_der_known (rcgen_serialized_der (keypair (credential_keypair c))) = true ∧
  tls_key_ok (der (credential_certificate c)) (rcgen_serialized_der (keypair (credential_keypair c))) = Ok ().

Section meeting.
Context `{X509, CR : Crypto, RG : !Rcgen, Aead, !Postcard SavedKeypair, TS : TlsStack}.
Context `{!Postcard UnverifiedCertificate, !Postcard (EncryptedObject UnverifiedCertificate)}.
Context {S T : Type} (mc ms : Machine).
Implicit Types (s : S) (t : T).

Lemma tls_meets `{!TlsStackLaws} (vc vs : list Z → Z → result RustlsError ()) (cc sc : Credential) s n t m h :
  server_name_ok "todo" = Ok () → tls_usable cc → tls_usable sc →
  parsed (credential_certificate cc) → parsed (credential_certificate sc) →
  vc (der (credential_certificate sc)) (handshake_time h) = Ok () →
  vs (der (credential_certificate cc)) (handshake_time h) = Ok () →
  ∃ exporter, (∀ len label context, is_ok (exporter len label context) = true) ∧
    rtc pair_step
      (mkPair (tls_client vc cc) s n (tls_server vs sc) t m [] [] h)
      (mkPair (Finished (Ok (mkTlsTransport (mkTlsStream (Some [der (credential_certificate sc)]) exporter)
                        (PeerCertificate (credential_certificate sc))))) s n
              (Finished (Ok (mkTlsTransport (mkTlsStream (Some [der (credential_certificate cc)]) exporter)
                        (PeerCertificate (credential_certificate cc))))) t m [] [] (1 + h)).
Proof.
  intros Hn [Dc Hkc] [Ds Hks] Hpc Hps Hvc Hvs. unfold tls_client, tls_server, rustls_private_key.
  destruct (handshake_accepted h
    (mkTlsConfig TlsClient vc (der (credential_certificate cc)) (rcgen_serialized_der (keypair (credential_keypair cc))))
    (mkTlsConfig TlsServer vs (der (credential_certificate sc)) (rcgen_serialized_der (keypair (credential_keypair sc))))
    eq_refl eq_refl Hvc Hvs Hkc Hks) as (exporter & He & Hex).
  exists exporter. split; [done|]. rewrite Dc, Ds. cbn. rewrite Hkc, Hks, Hn. cbn. eapply rtc_l; [by apply step_handshake|].
  rewrite He. cbn. unfold presented. cbn. unfold dangerous_from_already_verified_der.
  unfold parsed in Hpc, Hps. rewrite Hpc, Hps. cbn.
  destruct (credential_certificate cc), (credential_certificate sc). apply rtc_refl.
Qed.

Lemma exchange_meets `{!RcgenLaws, !AeadLaws, !PostcardLaws UnverifiedCertificate}
    `{!PostcardLaws (EncryptedObject UnverifiedCertificate)} key cc sc bc bs s n t m h :
  sends_temporary mc n key cc bc → sends_temporary ms m key sc bs →
  rtc pair_step
    (mkPair (exchange_temp_credentials mc key) s n (exchange_temp_credentials ms key) t m [] [] h)
    (mkPair (Finished (Ok (cc, credential_certificate sc))) s (4 + n)
            (Finished (Ok (sc, credential_certificate cc))) t (4 + m) [] [] h).
Proof.
  intros Hc Hs. unfold exchange_temp_credentials.
  etransitivity; [apply client_solo; by apply solo_send|].
  etransitivity; [apply server_solo; by apply solo_send|]. cbn [app].
  etransitivity; [apply client_solo|].
  { rewrite <-(app_nil_r (temporary_frames bs)). by eapply solo_receive. }
  etransitivity; [apply server_solo|].
  { rewrite <-(app_nil_r (temporary_frames bc)). by eapply solo_receive. }
  apply rtc_refl.
Qed.

Lemma preshared_run `{!RcgenLaws, !AeadLaws, !PostcardLaws UnverifiedCertificate}
    `{!PostcardLaws (EncryptedObject UnverifiedCertificate), !TlsStackLaws} key cc sc bc bs s n t m h :
  server_name_ok "todo" = Ok () → tls_usable cc → tls_usable sc →
  sends_temporary mc n key cc bc → sends_temporary ms m key sc bs →
  check_validity_at (credential_certificate cc) (handshake_time h) = Ok () →
  check_validity_at (credential_certificate sc) (handshake_time h) = Ok () →
  ∃ exporter, (∀ len label context, is_ok (exporter len label context) = true) ∧
    rtc pair_step
      (mkPair (client_preshared mc key) s n (server_preshared ms key) t m [] [] h)
      (mkPair
        (Finished (Ok (mkTlsTransport (mkTlsStream (Some [der (credential_certificate sc)]) exporter)
                         (PeerCertificate (credential_certificate sc))))) s (4 + n)
        (Finished (Ok (mkTlsTransport (mkTlsStream (Some [der (credential_certificate cc)]) exporter)
                         (PeerCertificate (credential_certificate cc))))) t (4 + m) [] [] (1 + h)).
Proof.
  intros Hn Hkc Hks Hc Hs Hvc Hvs.
  destruct (temporary_certificate _ _ _ (proj1 Hc)) as [Hpc _].
  destruct (temporary_certificate _ _ _ (proj1 Hs)) as [Hps _].
  destruct (tls_meets (exactly (credential_certificate sc)) (exactly (credential_certificate cc)) cc sc
    s (4 + n)%nat t (4 + m)%nat h Hn Hkc Hks Hpc Hps) as (exporter & He & Hr).
  { by apply exact_tls_accepts. }
  { by apply exact_tls_accepts. }
  exists exporter. split; [done|]. unfold client_preshared, server_preshared.
  etransitivity; [apply pair_continue, pair_continue; by eapply exchange_meets|]. cbn.
  exact Hr.
Qed.
(** Two sides that share a key meet. In every interleaving each draws a
    temporary certificate, sends it encrypted under the key, and gets a TLS
    connection to exactly the temporary certificate of the other one; both
    export the same keying material. The certificates have to be valid at the
    time of the handshake. *)
Theorem preshared_meets `{!RcgenLaws, !AeadLaws, !PostcardLaws UnverifiedCertificate}
    `{!PostcardLaws (EncryptedObject UnverifiedCertificate), !TlsStackLaws} key cc sc bc bs s n t m h :
  server_name_ok "todo" = Ok () → tls_usable cc → tls_usable sc →
  sends_temporary mc n key cc bc → sends_temporary ms m key sc bs →
  check_validity_at (credential_certificate cc) (handshake_time h) = Ok () →
  check_validity_at (credential_certificate sc) (handshake_time h) = Ok () →
  ∃ exporter, (∀ len label context, is_ok (exporter len label context) = true) ∧
    inevitable
      (mkPair (client_preshared mc key) s n (server_preshared ms key) t m [] [] h)
      (mkPair
        (Finished (Ok (mkTlsTransport (mkTlsStream (Some [der (credential_certificate sc)]) exporter)
                         (PeerCertificate (credential_certificate sc))))) s (4 + n)
        (Finished (Ok (mkTlsTransport (mkTlsStream (Some [der (credential_certificate cc)]) exporter)
                         (PeerCertificate (credential_certificate cc))))) t (4 + m) [] [] (1 + h)).
Proof.
  intros Hn Hkc Hks Hc Hs Hvc Hvs.
  destruct (preshared_run key cc sc bc bs s n t m h Hn Hkc Hks Hc Hs Hvc Hvs) as (exporter & He & Hr).
  exists exporter. split; [done|]. by apply rtc_inevitable, finished_nf.
Qed.
End meeting.

(** ** Worked examples *)

(** The handshake of two sides that accept each other. *)
Definition toy_tls : TlsStack := {|
  server_name_ok _ := Ok ();
  tls_key_ok _ _ := Ok ();
  handshake_time _ := 520;
  handshake n c s :=
    match tls_verify c (tls_certificate s) 520, tls_verify s (tls_certificate c) 520 with
    | Ok _, Ok _ =>
        let exporter (len : nat) label context := Ok (take len (label ++ context)) in
        (Ok (mkTlsStream (Some [tls_certificate s]) exporter), Ok (mkTlsStream (Some [tls_certificate c]) exporter))
    | _, _ => (Err "refused"%string, Err "refused"%string)
    end;
|}.

Lemma toy_tls_laws : @TlsStackLaws toy_tls.
Proof. split. intros n c s _ _. cbn. intros -> -> _ _. eexists. by split. Qed.

#[local] Existing Instance toy_x509.
#[local] Existing Instance toy_crypto.
#[local] Existing Instance toy_rcgen.
#[local] Existing Instance toy_aead.
#[local] Existing Instance toy_tls.
#[local] Existing Instance postcard_keypair.

(** A certificate that parses is encoded as its DER form. *)
Definition postcard_certificate : Postcard UnverifiedCertificate := {|
  to_stdvec (c : UnverifiedCertificate) :=
    match from_der (der c) with
    | Ok c' => if bool_decide (c' = c) then Ok (der c) else Err "certificate"%string
    | _ => Err "certificate"%string
    end;
  from_bytes b := map_err (λ _, "certificate"%string) (from_der b);
|}.

Lemma postcard_certificate_laws : @PostcardLaws _ postcard_certificate.
Proof.
  split. intros c b. unfold to_stdvec, from_bytes. cbn [postcard_certificate].
  destruct (from_der (der c)) as [c'|e|] eqn:Hc; [|done|done]. case_bool_decide as E; [|done].
  intros [= <-]. by rewrite Hc, E.
Qed.

Definition object_fields {T} (o : EncryptedObject T) : list Z * bool * list Z :=
  let d := object_ciphertext o in
  (ciphertext d, match alg d with Chacha20Poly1305 => true | Aes256Gcm => false end, nonce_mask d).
Definition object_of_fields {T} (f : list Z * bool * list Z) : EncryptedObject T :=
  let '(c, a, n) := f in
  mkEncryptedObject (mkEncryptedData c (if a : bool then Chacha20Poly1305 else Aes256Gcm) n).

Lemma object_of_object_fields {T} (o : EncryptedObject T) : object_of_fields (object_fields o) = o.
Proof. by destruct o as [[c [] n]]. Qed.

#[global] Instance encrypted_object_eq_dec T : EqDecision (EncryptedObject T).
Proof.
  refine (λ x y, cast_if (decide (object_fields x = object_fields y)));
    [by rewrite <-(object_of_object_fields x), <-(object_of_object_fields y); f_equal|congruence].
Defined.
#[global] Program Instance encrypted_object_countable T : Countable (EncryptedObject T) :=
  inj_countable' object_fields object_of_fields _.
Next Obligation. intros T o. apply object_of_object_fields. Qed.

#[local] Existing Instance postcard_certificate.
#[local] Existing Instance postcard_certificate_laws.
#[local] Existing Instance toy_postcard.
#[local] Existing Instance toy_postcard_laws.
#[local] Existing Instance toy_tls_laws.
#[local] Existing Instance toy_aead_laws.
#[local] Existing Instance toy_rcgen_laws.

Definition toy_machine (k : nat → Z) : Machine :=
  mkMachine (λ _, replicate 12 9) (λ _, 500 * 10 ^ 9) k (mkParams 0 0 NoCa [] false KeyIdDefault []).
Definition toy_alice : Machine := toy_machine (λ n, 10 + Z.of_nat n).
Definition toy_bob : Machine := toy_machine (λ n, 50 + Z.of_nat n).

Definition toy_temporary (k : Z) : Credential :=
  mkCredential (toy_keypair k) (mkCertificate (toy_certificate Temporary k k 500)).
Definition toy_preshared : EncryptionKey := mkEncryptionKey (replicate 32 5).

Definition toy_sealed (k : Z) : EncryptedObject UnverifiedCertificate :=
  match encrypt_object (replicate 12 9) (toy_certificate Temporary k k 500) toy_preshared with
  | Ok e => e
  | _ => object_of_fields ([], true, [])
  end.
Definition toy_sent_temporary (k : Z) : list Z := [Zpos (encode (toy_sealed k))].

Lemma toy_sends_temporary k :
  k = 10 ∨ k = 50 →
  sends_temporary (toy_machine (λ n, k + Z.of_nat n)) 0 toy_preshared (toy_temporary k) (toy_sent_temporary k).
Proof.
  intros Hk. split; [|split; [done|exists (toy_sealed k); split; [|done]]];
    destruct Hk as [-> | ->]; reflexivity.
Qed.

Lemma preshared_meets_witness :
  ∃ c s, inevitable
    (mkPair (client_preshared toy_alice toy_preshared) () 0 (server_preshared toy_bob toy_preshared) () 0 [] [] 0)
    (mkPair (Finished (Ok c)) () 4 (Finished (Ok s)) () 4 [] [] 1) ∧
    tls_peer c = PeerCertificate (credential_certificate (toy_temporary 50)) ∧
    tls_peer s = PeerCertificate (credential_certificate (toy_temporary 10)).
Proof.
  destruct (preshared_meets (TS := toy_tls) toy_alice toy_bob toy_preshared (toy_temporary 10) (toy_temporary 50)
    _ _ () 0 () 0 0 eq_refl (conj eq_refl eq_refl) (conj eq_refl eq_refl) (toy_sends_temporary 10 ltac:(lia)) (toy_sends_temporary 50 ltac:(lia)))
    as (exporter & _ & H); [reflexivity|reflexivity|].
  eexists _, _. split; [exact H|]. by split.
Defined.
