(* ===== verification/Pake.v ===== *)
(** * Password authenticated sessions
    ([svalin_rpc/src/transport/aucpace_transport.rs])

    Both sides prove to each other that they know a password, with the
    protocol of the [aucpace] crate, and continue with TLS over the key it
    gives them. The joining of an agent uses it with a short code, and
    [login] with the user's password. *)
From S2P Require Import Prelude.
From S2P Require Import External.
From S2P Require Import Spki.
From S2P Require Import Toy.
From S2P Require Import Certificate.
From S2P Require Import Encrypt.
From S2P Require Import Credential.
From S2P Require Import UserStore.
From S2P Require Import Verifiers.
From S2P Require Import Transport.
From S2P Require Import Script.
From S2P Require Import TlsTransport.
From stdpp Require Import relations.
From stdpp Require Import options.

#[local] Open Scope Z_scope.

(** ** The [aucpace] crate

    A client and a server go through a chain of states, one type each. Every
    step that draws random values is given some bytes. A nonce, an
    authenticator and a key are byte strings. *)
Class PakeTypes `{LoginTypes} := {
  SaltString : Type;
  ServerSsid : Type; ServerAugmentation : Type; ServerCpace : Type;
  ServerExchange : Type; ServerAuthentication : Type;
  ClientSsid : Type; ClientPreAugmentation : Type; ClientAugmentation : Type;
  ClientStrongAugmentation : Type; ClientCpace : Type;
  ClientExchange : Type; ClientAuthentication : Type;
}.

(** The messages, by the variants the program looks at. *)
Inductive ServerMessage `{PakeTypes} :=
  | ServerNonce (nonce : list Z)
  | AugmentationInfo (group : string) (x_pub : RistrettoPoint) (salt : SaltString) (pbkdf_params : ParamsString)
  | StrongAugmentationInfo (group : string) (x_pub blinded_salt : RistrettoPoint) (pbkdf_params : ParamsString)
  | ServerPublicKey (key : RistrettoPoint)
  | ServerAuthenticator (authenticator : list Z).

Inductive ClientMessage `{PakeTypes} :=
  | ClientNonce (nonce : list Z)
  | Username (username : list Z)
  | StrongUsernameMessage (username : list Z) (blinded : RistrettoPoint)
  | ClientPublicKey (key : RistrettoPoint)
  | ClientAuthenticator (authenticator : list Z)
  | Registration (username : list Z) (salt : SaltString) (params : ParamsString) (verifier : RistrettoPoint)
  | StrongRegistration (username : list Z) (secret_exponent : Scalar) (params : ParamsString)
      (verifier : RistrettoPoint).

(** A password hasher is its three Argon2 parameters. *)
Class Pake `{PakeTypes} := {
  (** [ParamsString]. *)
  params_is_empty : ParamsString → bool;
  params_get_decimal : ParamsString → string → option Z;
  params_of_argon : Z * Z * Z → result ExtError ParamsString;
  (** [AuCPaceServer]. *)
  server_begin : list Z → ServerSsid * ServerMessage;
  server_agree_ssid : ServerSsid → list Z → ServerAugmentation;
  generate_client_info : ServerAugmentation → list Z →
    (list Z → option (RistrettoPoint * SaltString * ParamsString)) → list Z → ServerCpace * ServerMessage;
  (** The lookup in the database may unwind. *)
  generate_client_info_strong : ∀ {E}, ServerAugmentation → list Z → RistrettoPoint →
    (list Z → result E (option (RistrettoPoint * Scalar * ParamsString))) → list Z →
    result ExtError (ServerCpace * ServerMessage);
  server_generate_public_key : ServerCpace → list Z → list Z → ServerExchange * ServerMessage;
  receive_client_pubkey : ServerExchange → RistrettoPoint → result ExtError ServerAuthentication;
  receive_client_authenticator : ServerAuthentication → list Z → result ExtError (list Z * ServerMessage);
  (** [AuCPaceClient]. *)
  client_begin : list Z → ClientSsid * ClientMessage;
  client_agree_ssid : ClientSsid → list Z → ClientPreAugmentation;
  register_alloc : list Z → list Z → list Z → Z * Z * Z → result ExtError ClientMessage;
  register_alloc_strong : list Z → list Z → list Z → Z * Z * Z → result ExtError ClientMessage;
  start_augmentation : ClientPreAugmentation → list Z → list Z → ClientAugmentation * ClientMessage;
  start_augmentation_strong : ClientPreAugmentation → list Z → list Z → list Z →
    ClientStrongAugmentation * ClientMessage;
  generate_cpace_alloc : ClientAugmentation → RistrettoPoint → SaltString → Z * Z * Z →
    result ExtError ClientCpace;
  generate_cpace_alloc_strong : ClientStrongAugmentation → RistrettoPoint → RistrettoPoint → Z * Z * Z →
    result ExtError ClientCpace;
  client_generate_public_key : ClientCpace → list Z → list Z → ClientExchange * ClientMessage;
  receive_server_pubkey : ClientExchange → RistrettoPoint →
    result ExtError (ClientAuthentication * ClientMessage);
  receive_server_authenticator : ClientAuthentication → list Z → result ExtError (list Z);
}.

(** What the protocol promises to two sides that follow it: the messages
    are those of their steps; a server that holds what a client registered with
    a password goes through the augmentation with a client of that password;
    and two sides that have done so accept each other's authenticators and
    have the same key. *)
Class PakeLaws `{Pake} := {
  (** The two have gone through the augmentation with the same password. *)
  augmented : ServerCpace → ClientCpace → Prop;
  server_begin_nonce r : ∃ n, (server_begin r).2 = ServerNonce n;
  client_begin_nonce r : ∃ n, (client_begin r).2 = ClientNonce n;
  params_of_argon_back p ps :
    params_of_argon p = Ok ps →
    params_is_empty ps = false ∧ params_get_decimal ps "m" = Some p.1.1 ∧
    params_get_decimal ps "t" = Some p.1.2 ∧ params_get_decimal ps "p" = Some p.2;
  registration r name password a msg :
    register_alloc r name password a = Ok msg →
    ∃ salt ps v, msg = Registration name salt ps v ∧ params_of_argon a = Ok ps;
  strong_registration r name password a msg :
    register_alloc_strong r name password a = Ok msg →
    ∃ e ps v, msg = StrongRegistration name e ps v ∧ params_of_argon a = Ok ps;
  augmentation r name password a salt ps v lookup rs rc r' cn sn :
    register_alloc r name password a = Ok (Registration name salt ps v) →
    lookup name = Some (v, salt, ps) →
    (client_begin rc).2 = ClientNonce cn → (server_begin rs).2 = ServerNonce sn →
    ∃ s g x c,
      generate_client_info (server_agree_ssid (server_begin rs).1 cn) name lookup r' =
        (s, AugmentationInfo g x salt ps) ∧
      generate_cpace_alloc
        (start_augmentation (client_agree_ssid (client_begin rc).1 sn) name password).1 x salt a = Ok c ∧
      augmented s c;
  strong_augmentation {E} r name password a e ps v (lookup : _ → result E _) rs rc r' r'' cn sn :
    register_alloc_strong r name password a = Ok (StrongRegistration name e ps v) →
    lookup name = Ok (Some (v, e, ps)) →
    (client_begin rc).2 = ClientNonce cn → (server_begin rs).2 = ServerNonce sn →
    ∃ c b s g x bs c',
      start_augmentation_strong (client_agree_ssid (client_begin rc).1 sn) name password r' =
        (c, StrongUsernameMessage name b) ∧
      generate_client_info_strong (server_agree_ssid (server_begin rs).1 cn) name b lookup r'' =
        Ok (s, StrongAugmentationInfo g x bs ps) ∧
      generate_cpace_alloc_strong c x bs a = Ok c' ∧ augmented s c';
  exchange_agrees s c channel rs rc :
    augmented s c →
    ∃ s1 c1 sp cp s2 c2 ca sa key,
      server_generate_public_key s channel rs = (s1, ServerPublicKey sp) ∧
      client_generate_public_key c channel rc = (c1, ClientPublicKey cp) ∧
      receive_client_pubkey s1 cp = Ok s2 ∧
      receive_server_pubkey c1 sp = Ok (c2, ClientAuthenticator ca) ∧
      receive_client_authenticator s2 ca = Ok (key, ServerAuthenticator sa) ∧
      receive_server_authenticator c2 sa = Ok key ∧ length ca = 64%nat ∧ length sa = 64%nat ∧
      length key = 64%nat;
}.

(** ** What is sent *)
Definition NONCE_LENGTH : nat := 16.

Inductive MessageTransformError := WrongInputVariant.

Record Nonce := mkNonce { to_array : list Z }.
Record Authenticator := mkAuthenticator { authenticator_bytes : list Z }.

Definition nonce_combine (self other : Nonce) : list Z := to_array self ++ to_array other.

(** The visitor that reads an authenticator; the error is the length. *)
Definition visit_byte_buf (v : list Z) : result Z Authenticator :=
  if bool_decide (length v = 64%nat) then Ok (mkAuthenticator v) else Err (Z.of_nat (length v)).

#[global] Instance authenticator_postcard `{Postcard (list Z)} : Postcard Authenticator := {|
  to_stdvec a := to_stdvec (authenticator_bytes a);
  from_bytes b :=
    v ← from_bytes b;
    map_err (λ _, "invalid length"%string) (visit_byte_buf v);
|}.

(** The first half of the key, as an encryption key. *)
Definition key_to_array (key : list Z) : list Z := take 32 key.

Section messages.
Context `{PakeTypes}.

Record PublicKey := mkPublicKey { public_point : RistrettoPoint }.
Record ClientInfo := mkClientInfo {
  group : string;
  x_pub : RistrettoPoint;
  info_salt : SaltString;
  hash_params : ParamsString;
}.

Definition nonce_from_server (value : ServerMessage) : result MessageTransformError Nonce :=
  match value with ServerNonce nonce => Ok (mkNonce nonce) | _ => Err WrongInputVariant end.
Definition nonce_from_client (value : ClientMessage) : result MessageTransformError Nonce :=
  match value with ClientNonce nonce => Ok (mkNonce nonce) | _ => Err WrongInputVariant end.
Definition public_key_from_server (value : ServerMessage) : result MessageTransformError PublicKey :=
  match value with ServerPublicKey pubkey => Ok (mkPublicKey pubkey) | _ => Err WrongInputVariant end.
Definition public_key_from_client (value : ClientMessage) : result MessageTransformError PublicKey :=
  match value with ClientPublicKey pubkey => Ok (mkPublicKey pubkey) | _ => Err WrongInputVariant end.
Definition authenticator_from_server (value : ServerMessage) : result MessageTransformError Authenticator :=
  match value with ServerAuthenticator a => Ok (mkAuthenticator a) | _ => Err WrongInputVariant end.
Definition authenticator_from_client (value : ClientMessage) : result MessageTransformError Authenticator :=
  match value with ClientAuthenticator a => Ok (mkAuthenticator a) | _ => Err WrongInputVariant end.
Definition client_info_from_server (value : ServerMessage) : result MessageTransformError ClientInfo :=
  match value with
  | AugmentationInfo group x_pub salt pbkdf_params => Ok (mkClientInfo group x_pub salt pbkdf_params)
  | _ => Err WrongInputVariant
  end.
End messages.

(** [PseudoDatabase]: one entry, whatever the name. *)
Record PseudoDatabase `{PakeTypes} := mkPseudoDatabase { database_entry : RistrettoPoint * SaltString * ParamsString }.
Arguments mkPseudoDatabase {_ _} _.
Arguments database_entry {_ _} _.
Definition lookup_verifier `{PakeTypes} (self : PseudoDatabase) (username : list Z) :
    option (RistrettoPoint * SaltString * ParamsString) := Some (database_entry self).

Definition USERNAME : list Z := str_bytes "aucpace".

Inductive AucPaceClientError :=
  | PakeTlsClientError (e : TlsClientError)
  | PakeClientWrite (e : ObjectWriterError)
  | PakeClientRead (e : ObjectReaderError)
  | PakeClientTransform (e : MessageTransformError)
  | PakeClientError (e : ExtError)
  | PakeClientJoinError
  | PakeParamsParseError (e : ParamsStringParseError)
  | PakeWrongPassword.

Inductive AucPaceServerError :=
  | PakeTlsServerError (e : TlsServerError)
  | PakeServerWrite (e : ObjectWriterError)
  | PakeServerRead (e : ObjectReaderError)
  | PakeServerTransform (e : MessageTransformError)
  | PakeServerError (e : ExtError)
  | PakeServerJoinError
  | PakeServerParams (e : ExtError)
  | PakeAuthenticationFailed (e : ExtError).

Section transport.
Context `{X509, CR : Crypto, RG : !Rcgen, Aead, !Postcard SavedKeypair, TS : TlsStack, Argon2}.
Context `{!Postcard UnverifiedCertificate, !Postcard (EncryptedObject UnverifiedCertificate)}.
Context `{PK : Pake, !Postcard (list Z), !Postcard Nonce, !Postcard PublicKey, !Postcard ClientInfo}.
Context `{!Postcard (result () Authenticator)}.
Context {S : Type} (m : Machine).

Definition nonce_generate {E} : script S E Nonce :=
  d ← draw;
  mret (mkNonce (take NONCE_LENGTH (random m d))).

(** Random bytes for a step of the protocol. *)
Definition seed {E} : script S E (list Z) :=
  d ← draw;
  mret (random m d).

(** "SSID Establishment" and the "Augmentation Layer" of the client; the
    hashing runs in a task of its own. *)
Definition client_augmentation (password : list Z) : script S AucPaceClientError ClientCpace :=
  r ← seed;
  let '(client, client_nonce) := client_begin r in
  nonce ← returns (map_err PakeClientTransform (nonce_from_client client_nonce));
  _ ← script_map_err PakeClientWrite (write_object nonce);
  server_nonce ← script_map_err PakeClientRead (read_object (U := Nonce));
  let client := client_agree_ssid client (to_array server_nonce) in
  client_info ← script_map_err PakeClientRead (read_object (U := ClientInfo));
  cost ← returns (map_err PakeParamsParseError (cost_try_from (params_get_decimal (hash_params client_info))));
  hasher ← returns (get_argon_hasher cost);
  returns (blocking PakeClientJoinError (map_err PakeClientError (
    let '(client, _) := start_augmentation client USERNAME password in
    generate_cpace_alloc client (x_pub client_info) (info_salt client_info) hasher))).

(** The "CPace substep" and "Explicit Mutual Authentication" of the client. *)
Definition client_exchange (client : ClientCpace) : script S AucPaceClientError EncryptionKey :=
  client_nonce ← nonce_generate;
  _ ← script_map_err PakeClientWrite (write_object client_nonce);
  server_nonce ← script_map_err PakeClientRead (read_object (U := Nonce));
  let combined := nonce_combine server_nonce client_nonce in
  r ← seed;
  let '(client, client_key) := client_generate_public_key client combined r in
  client_key ← returns (map_err PakeClientTransform (public_key_from_client client_key));
  _ ← script_map_err PakeClientWrite (write_object client_key);
  server_key ← script_map_err PakeClientRead (read_object (U := PublicKey));
  '(client, client_authenticator) ← returns (map_err PakeClientError
    (receive_server_pubkey client (public_point server_key)));
  client_authenticator ← returns (map_err PakeClientTransform (authenticator_from_client client_authenticator));
  _ ← script_map_err PakeClientWrite (write_object client_authenticator);
  answer ← script_map_err PakeClientRead (read_object (U := result () Authenticator));
  server_authenticator ← returns (map_err (λ _, PakeWrongPassword) answer);
  key ← returns (map_err PakeClientError
    (receive_server_authenticator client (authenticator_bytes server_authenticator)));
  mret (mkEncryptionKey (key_to_array key)).

(** [AucPaceTransport::client]. *)
Definition aucpace_client (password : list Z) : script S AucPaceClientError TlsTransport :=
  client ← client_augmentation password;
  key ← client_exchange client;
  script_map_err PakeTlsClientError (client_preshared m key).

(** The "Pseudo-Registration" of the server: the entry a client with the same
    password would have registered. *)
Definition pseudo_registration (password : list Z) : script S AucPaceServerError PseudoDatabase :=
  hasher ← returns (get_argon_hasher cost_basic);
  r ← seed;
  message ← returns (blocking PakeServerJoinError (map_err PakeServerError
    (register_alloc r USERNAME password hasher)));
  match message with
  | Registration _ salt params verifier => mret (mkPseudoDatabase (verifier, salt, params))
  | _ => returns Panic
  end.

Definition server_augmentation (db : PseudoDatabase) : script S AucPaceServerError ServerCpace :=
  r ← seed;
  let '(pake_server, server_nonce) := server_begin r in
  nonce ← returns (map_err PakeServerTransform (nonce_from_server server_nonce));
  _ ← script_map_err PakeServerWrite (write_object nonce);
  client_nonce ← script_map_err PakeServerRead (read_object (U := Nonce));
  let pake_server := server_agree_ssid pake_server (to_array client_nonce) in
  r ← seed;
  let '(pake_server, client_info) := generate_client_info pake_server USERNAME (lookup_verifier db) r in
  client_info ← returns (map_err PakeServerTransform (client_info_from_server client_info));
  client_info ← (if params_is_empty (hash_params client_info) then
                   params ← returns (get_params cost_strong);
                   params ← returns (map_err PakeServerParams (params_of_argon params));
                   mret (mkClientInfo (group client_info) (x_pub client_info) (info_salt client_info) params)
                 else mret client_info);
  _ ← script_map_err PakeServerWrite (write_object client_info);
  mret pake_server.

Definition server_exchange (pake_server : ServerCpace) : script S AucPaceServerError EncryptionKey :=
  server_nonce ← nonce_generate;
  _ ← script_map_err PakeServerWrite (write_object server_nonce);
  client_nonce ← script_map_err PakeServerRead (read_object (U := Nonce));
  let combined := nonce_combine server_nonce client_nonce in
  r ← seed;
  let '(pake_server, public_key) := server_generate_public_key pake_server combined r in
  server_public_key ← returns (map_err PakeServerTransform (public_key_from_server public_key));
  _ ← script_map_err PakeServerWrite (write_object server_public_key);
  client_key ← script_map_err PakeServerRead (read_object (U := PublicKey));
  pake_server ← returns (map_err PakeServerError (receive_client_pubkey pake_server (public_point client_key)));
  client_authenticator ← script_map_err PakeServerRead (read_object (U := Authenticator));
  match receive_client_authenticator pake_server (authenticator_bytes client_authenticator) with
  | Ok (key, server_authenticator) =>
      server_authenticator ← returns (map_err PakeServerTransform
        (authenticator_from_server server_authenticator));
      _ ← script_map_err PakeServerWrite (write_object (Ok server_authenticator : result () Authenticator));
      mret (mkEncryptionKey (key_to_array key))
  | Err err =>
      _ ← script_map_err PakeServerWrite (write_object (Err () : result () Authenticator));
      returns (Err (PakeAuthenticationFailed err))
  | Panic => returns Panic
  end.

(** [AucPaceTransport::server]. *)
Definition aucpace_server (password : list Z) : script S AucPaceServerError TlsTransport :=
  db ← pseudo_registration password;
  pake_server ← server_augmentation db;
  key ← server_exchange pake_server;
  script_map_err PakeTlsServerError (server_preshared m key).
End transport.

(** ** Meeting with a shared password *)

(** A type whose values can all be sent. *)
Class Sendable (U : Type) `{PostcardLaws U} := { always_sendable (x : U) : ∃ b, sendable x b }.

(** The server's answer to an authenticator, which has 64 bytes, arrives. *)
Definition answer_arrives `{Postcard (result () Authenticator)} (a : result () Authenticator) : Prop :=
  ∃ b, sendable a b ∧ from_bytes b = Ok a.
Class AnswerLaws `{Postcard (result () Authenticator)} := {
  answer_sent a : length (authenticator_bytes a) = 64%nat → answer_arrives (Ok a);
  refusal_sent : answer_arrives (Err ());
}.

Section meeting.
Context `{X509, CR : Crypto, RG : !Rcgen, Aead, !Postcard SavedKeypair, TS : TlsStack, Argon2}.
Context `{!Postcard UnverifiedCertificate, !Postcard (EncryptedObject UnverifiedCertificate)}.
Context `{PK : Pake, !Postcard (list Z), !Postcard Nonce, !Postcard PublicKey, !Postcard ClientInfo}.
Context `{!Postcard (result () Authenticator)}.
Context {S T : Type} (mc ms : Machine).
Implicit Types (s : S) (t : T).

Lemma client_seeds {E1 A1 E2 A2 E} (m : Machine) s n (q : script T E2 A2) t k ic os h
    (f : result E (list Z) → script S E1 A1) :
  rtc pair_step (mkPair (continue (seed m) f) s n q t k ic os h)
    (mkPair (f (Ok (random m n))) s (1 + n) q t k ic os h).
Proof. rewrite <-(app_nil_r os) at 2. by apply client_solo. Qed.

Lemma server_seeds {E1 A1 E2 A2 E} (m : Machine) s n (p : script S E1 A1) t k ic os h
    (f : result E (list Z) → script T E2 A2) :
  rtc pair_step (mkPair p s n (continue (seed m) f) t k ic os h)
    (mkPair p s n (f (Ok (random m k))) t (1 + k) ic os h).
Proof. rewrite <-(app_nil_r ic) at 2. by apply server_solo. Qed.

(** The nonce a machine draws. *)
Definition nonce_of (m : Machine) (n : nat) : Nonce := mkNonce (take NONCE_LENGTH (random m n)).

Lemma client_draws_nonce {E1 A1 E2 A2 E} (m : Machine) s n (q : script T E2 A2) t k ic os h
    (f : result E Nonce → script S E1 A1) :
  rtc pair_step (mkPair (continue (nonce_generate m) f) s n q t k ic os h)
    (mkPair (f (Ok (nonce_of m n))) s (1 + n) q t k ic os h).
Proof. rewrite <-(app_nil_r os) at 2. by apply client_solo. Qed.

Lemma server_draws_nonce {E1 A1 E2 A2 E} (m : Machine) s n (p : script S E1 A1) t k ic os h
    (f : result E Nonce → script T E2 A2) :
  rtc pair_step (mkPair p s n (continue (nonce_generate m) f) t k ic os h)
    (mkPair p s n (f (Ok (nonce_of m k))) t (1 + k) ic os h).
Proof. rewrite <-(app_nil_r ic) at 2. by apply server_solo. Qed.

Lemma solo_pseudo_registration `{!PakeLaws} password salt ps v t m os :
  argon2_params_ok (m_cost cost_basic) (t_cost cost_basic) (p_cost cost_basic) = true →
  register_alloc (random ms m) USERNAME password (m_cost cost_basic, t_cost cost_basic, p_cost cost_basic) =
    Ok (Registration USERNAME salt ps v) →
  solo (pseudo_registration ms password) t m os =
    Some (Ok (mkPseudoDatabase (v, salt, ps)), t, (1 + m)%nat, os, []).
Proof.
  intros Ha Hreg. unfold pseudo_registration, get_argon_hasher, get_params. rewrite Ha. cbn.
  cbn in Hreg. by rewrite Hreg.
Qed.

(** The parameters of a registration give back the hasher they came from. *)
Lemma hasher_of_params `{!PakeLaws} {E} (c : ArgonCost) ps :
  params_of_argon (m_cost c, t_cost c, p_cost c) = Ok ps →
  argon2_params_ok (m_cost c) (t_cost c) (p_cost c) = true →
  cost_try_from (params_get_decimal ps) = Ok c ∧
  get_argon_hasher (E := E) c = Ok (m_cost c, t_cost c, p_cost c).
Proof.
  intros Hps Ha. destruct (params_of_argon_back _ _ Hps) as (_ & Hm & Ht & Hp). cbn in Hm, Ht, Hp.
  unfold cost_try_from, get_argon_hasher, get_params. rewrite Hm, Ht, Hp, Ha. by destruct c.
Qed.

Lemma augmentation_meets `{!PakeLaws, !PostcardLaws Nonce, !Sendable Nonce, !PostcardLaws ClientInfo, !Sendable ClientInfo}
    password salt ps v s n t m h :
  argon2_params_ok (m_cost cost_basic) (t_cost cost_basic) (p_cost cost_basic) = true →
  register_alloc (random ms m) USERNAME password (m_cost cost_basic, t_cost cost_basic, p_cost cost_basic) =
    Ok (Registration USERNAME salt ps v) →
  ∃ sc cc, augmented sc cc ∧
    rtc pair_step
      (mkPair (client_augmentation mc password) s n
         (server_augmentation ms (mkPseudoDatabase (v, salt, ps))) t (1 + m) [] [] h)
      (mkPair (Finished (Ok cc)) s (1 + n) (Finished (Ok sc)) t (3 + m) [] [] h).
Proof.
  intros Ha Hreg. destruct (registration _ _ _ _ _ Hreg) as (? & ? & ? & [= <- <- <-] & Hps).
  destruct (client_begin_nonce (random mc n)) as [cn Hcn].
  destruct (server_begin_nonce (random ms (1 + m))) as [sn Hsn].
  destruct (augmentation _ _ _ _ _ _ _ (lookup_verifier (mkPseudoDatabase (v, salt, ps))) _ _ (random ms (1 + (1 + m)))
    _ _ Hreg eq_refl Hcn Hsn) as (sc & g & x & cc & Hinfo & Hcc & Haug).
  destruct (params_of_argon_back _ _ Hps) as (Hne & _).
  destruct (hasher_of_params (E := AucPaceClientError) _ _ Hps Ha) as [Hcost Hh].
  destruct (always_sendable (mkNonce cn)) as [bcn Bcn]. destruct (always_sendable (mkNonce sn)) as [bsn Bsn].
  destruct (always_sendable (mkClientInfo g x salt ps)) as [bi Bi].
  exists sc, cc. split; [done|]. unfold client_augmentation, server_augmentation.
  destruct (client_begin (random mc n)) as [c0 cm] eqn:Ec. destruct (server_begin (random ms (1 + m))) as [s0 sm] eqn:Es.
  cbn [fst snd] in Hcn, Hsn, Hinfo, Hcc. subst cm sm.
  pair_does client_seeds. rewrite Ec. cbn [nonce_from_client map_err].
  pair_does server_seeds. rewrite Es. cbn [nonce_from_server map_err].
  pair_does client_writes. pair_does server_writes.
  pair_does client_reads. pair_does server_reads. pair_does server_seeds. cbn [to_array]. rewrite Hinfo.
  cbn [client_info_from_server map_err]. rewrite returns_bind. cbn [hash_params]. rewrite Hne.
  pair_does server_writes. pair_does client_reads. cbn [x_pub info_salt hash_params].
  rewrite Hcost. cbn [map_err]. rewrite returns_bind, Hh, returns_bind.
  destruct (start_augmentation (client_agree_ssid c0 sn) USERNAME password) as [c1 msg]. cbn [fst] in Hcc.
  rewrite Hcc. apply rtc_refl.
Qed.

(** An authenticator is sent by the client. *)
Lemma authenticator_back `{!PostcardLaws (list Z)} a b :
  length a = 64%nat → to_stdvec a = Ok b → from_bytes b = Ok (mkAuthenticator a).
Proof.
  intros Hl Hb. cbn. rewrite (from_to_stdvec _ _ Hb). cbn. unfold visit_byte_buf. by rewrite bool_decide_true.
Qed.

Lemma exchange_keys_meet `{!PakeLaws, !PostcardLaws Nonce, !Sendable Nonce, !PostcardLaws PublicKey, !Sendable PublicKey}
    `{!PostcardLaws (list Z), !Sendable (list Z), !AnswerLaws} sc cc s n t m h :
  augmented sc cc →
  ∃ key, length (key_bytes key) = 32%nat ∧ rtc pair_step
    (mkPair (client_exchange mc cc) s n (server_exchange ms sc) t m [] [] h)
    (mkPair (Finished (Ok key)) s (2 + n) (Finished (Ok key)) t (2 + m) [] [] h).
Proof.
  intros Haug.
  destruct (exchange_agrees sc cc (nonce_combine (nonce_of ms m) (nonce_of mc n)) (random ms (1 + m)) (random mc (1 + n)) Haug)
    as (s1 & c1 & sp & cp & s2 & c2 & ca & sa & key & Hs1 & Hc1 & Hs2 & Hc2 & Hs3 & Hc3 & Hlc & Hls & Hlk).
  destruct (always_sendable (nonce_of mc n)) as [bcn Bcn]. destruct (always_sendable (nonce_of ms m)) as [bsn Bsn].
  destruct (always_sendable (mkPublicKey cp)) as [bcp Bcp]. destruct (always_sendable (mkPublicKey sp)) as [bsp Bsp].
  destruct (always_sendable ca) as [bca Bca]. destruct (answer_sent (mkAuthenticator sa) Hls) as (bsa & Bsa & Rsa).
  assert (sendable (mkAuthenticator ca) bca) as Bca' by exact Bca.
  pose proof (authenticator_back _ _ Hlc (proj1 Bca)) as Rca.
  exists (mkEncryptionKey (key_to_array key)). split; [unfold key_to_array; cbn [key_bytes]; by rewrite length_take, Hlk|].
  unfold client_exchange, server_exchange.
  pair_does client_draws_nonce. pair_does server_draws_nonce. pair_does client_writes. pair_does server_writes.
  pair_does client_reads. pair_does server_reads. pair_does client_seeds. pair_does server_seeds.
  rewrite Hs1, Hc1. cbn [public_key_from_client public_key_from_server map_err]. rewrite !returns_bind.
  pair_does client_writes. pair_does server_writes. pair_does client_reads. pair_does server_reads.
  cbn [public_point]. rewrite Hs2, Hc2. cbn [map_err]. rewrite !returns_bind.
  cbn [authenticator_from_client map_err]. rewrite returns_bind. pair_does client_writes. pair_does server_reads.
  cbn [authenticator_bytes]. rewrite Hs3. cbn [authenticator_from_server map_err]. rewrite returns_bind.
  pair_does server_writes. pair_does client_reads. cbn [map_err]. rewrite returns_bind.
  cbn [authenticator_bytes]. rewrite Hc3. apply rtc_refl.
Qed.

Lemma aucpace_run `{!RcgenLaws, !AeadLaws, !PostcardLaws UnverifiedCertificate, !TlsStackLaws, !PakeLaws}
    `{!PostcardLaws (EncryptedObject UnverifiedCertificate), !PostcardLaws Nonce, !Sendable Nonce}
    `{!PostcardLaws PublicKey, !Sendable PublicKey, !PostcardLaws (list Z), !Sendable (list Z), !AnswerLaws}
    `{!PostcardLaws ClientInfo, !Sendable ClientInfo}
    password salt ps v cc sc s n t m h :
  argon2_params_ok (m_cost cost_basic) (t_cost cost_basic) (p_cost cost_basic) = true →
  register_alloc (random ms m) USERNAME password (m_cost cost_basic, t_cost cost_basic, p_cost cost_basic) =
    Ok (Registration USERNAME salt ps v) →
  server_name_ok "todo" = Ok () → tls_usable cc → tls_usable sc →
  (∀ key, length (key_bytes key) = 32%nat → ∃ bc bs,
    sends_temporary mc (3 + n) key cc bc ∧ sends_temporary ms (5 + m) key sc bs) →
  check_validity_at (credential_certificate cc) (handshake_time h) = Ok () →
  check_validity_at (credential_certificate sc) (handshake_time h) = Ok () →
  ∃ exporter, (∀ len label context, is_ok (exporter len label context) = true) ∧
    rtc pair_step
      (mkPair (aucpace_client mc password) s n (aucpace_server ms password) t m [] [] h)
      (mkPair
        (Finished (Ok (mkTlsTransport (mkTlsStream (Some [der (credential_certificate sc)]) exporter)
                         (PeerCertificate (credential_certificate sc))))) s (7 + n)
        (Finished (Ok (mkTlsTransport (mkTlsStream (Some [der (credential_certificate cc)]) exporter)
                         (PeerCertificate (credential_certificate cc))))) t (9 + m) [] [] (1 + h)).
Proof.
  intros Ha Hreg Hn Hkc Hks Hsend Hvc Hvs.
  destruct (augmentation_meets password salt ps v s n t m h Ha Hreg) as (spake & cpake & Haug & Hr1).
  destruct (exchange_keys_meet spake cpake s (1 + n) t (3 + m) h Haug) as (key & Hlk & Hr2).
  destruct (Hsend key Hlk) as (bc & bs & Hbc & Hbs).
  destruct (preshared_run mc ms key cc sc bc bs s (3 + n) t (5 + m) h Hn Hkc Hks Hbc Hbs Hvc Hvs)
    as (exporter & He & Hr3).
  exists exporter. split; [done|]. unfold aucpace_client, aucpace_server.
  etransitivity; [apply server_solo; by apply solo_pseudo_registration|]. cbn [app].
  etransitivity; [apply pair_continue; exact Hr1|]. cbn [continue].
  etransitivity; [apply pair_continue; exact Hr2|]. cbn [continue].
  etransitivity; [apply pair_continue; exact Hr3|]. apply rtc_refl.
Qed.

(** Two sides with the same password meet. Whatever the interleaving of
    what they do and of the network, the client and the server of the password
    authenticated transport both end with a TLS connection whose key only the
    password gave them, and which exports the same keying material at both
    ends. *)
Theorem aucpace_meets `{!RcgenLaws, !AeadLaws, !PostcardLaws UnverifiedCertificate, !TlsStackLaws, !PakeLaws}
    `{!PostcardLaws (EncryptedObject UnverifiedCertificate), !PostcardLaws Nonce, !Sendable Nonce}
    `{!PostcardLaws PublicKey, !Sendable PublicKey, !PostcardLaws (list Z), !Sendable (list Z), !AnswerLaws}
    `{!PostcardLaws ClientInfo, !Sendable ClientInfo}
    password salt ps v cc sc s n t m h :
  argon2_params_ok (m_cost cost_basic) (t_cost cost_basic) (p_cost cost_basic) = true →
  register_alloc (random ms m) USERNAME password (m_cost cost_basic, t_cost cost_basic, p_cost cost_basic) =
    Ok (Registration USERNAME salt ps v) →
  server_name_ok "todo" = Ok () → tls_usable cc → tls_usable sc →
  (∀ key, length (key_bytes key) = 32%nat → ∃ bc bs,
    sends_temporary mc (3 + n) key cc bc ∧ sends_temporary ms (5 + m) key sc bs) →
  check_validity_at (credential_certificate cc) (handshake_time h) = Ok () →
  check_validity_at (credential_certificate sc) (handshake_time h) = Ok () →
  ∃ exporter, (∀ len label context, is_ok (exporter len label context) = true) ∧
    inevitable
      (mkPair (aucpace_client mc password) s n (aucpace_server ms password) t m [] [] h)
      (mkPair
        (Finished (Ok (mkTlsTransport (mkTlsStream (Some [der (credential_certificate sc)]) exporter)
                         (PeerCertificate (credential_certificate sc))))) s (7 + n)
        (Finished (Ok (mkTlsTransport (mkTlsStream (Some [der (credential_certificate cc)]) exporter)
                         (PeerCertificate (credential_certificate cc))))) t (9 + m) [] [] (1 + h)).
Proof.
  intros Ha Hreg Hn Hkc Hks Hsend Hvc Hvs.
  destruct (aucpace_run password salt ps v cc sc s n t m h Ha Hreg Hn Hkc Hks Hsend Hvc Hvs) as (exporter & He & Hr).
  exists exporter. split; [done|]. by apply rtc_inevitable, finished_nf.
Qed.
End meeting.

(** ** Worked examples *)

(** Points, exponents and salts are byte strings; the verifier of a password
    is the password and its salt, and what the two share after the
    augmentation is the verifier and the nonces. *)
Definition toy_login_types : LoginTypes := {|
  Totp := list Z; Scalar := list Z; RistrettoPoint := list Z; ParamsString := option (Z * Z * Z) |}.

Definition toy_pake_types : @PakeTypes toy_login_types := {|
  SaltString := list Z;
  ServerSsid := list Z; ServerAugmentation := list Z; ServerCpace := list Z;
  ServerExchange := list Z; ServerAuthentication := list Z;
  ClientSsid := list Z; ClientPreAugmentation := list Z; ClientAugmentation := list Z * list Z;
  ClientStrongAugmentation := list Z * list Z; ClientCpace := list Z;
  ClientExchange := list Z; ClientAuthentication := list Z;
|}.
#[local] Existing Instance toy_login_types.
#[local] Existing Instance toy_pake_types.

Definition toy_authenticator (shared : list Z) : list Z := take 64 (shared ++ replicate 64 0).

Definition toy_authenticate (shared a : list Z) : result ExtError (list Z) :=
  if bool_decide (a = toy_authenticator shared) then Ok a else Err "refused"%string.

Definition toy_pake : Pake := {|
  params_is_empty (p : ParamsString) := bool_decide (p = None);
  params_get_decimal (p : ParamsString) k :=
    if decide (k = "m"%string) then (λ x, x.1.1) <$> p
    else if decide (k = "t"%string) then (λ x, x.1.2) <$> p
    else if decide (k = "p"%string) then snd <$> p else None;
  params_of_argon p := Ok (Some p : ParamsString);
  server_begin r := (r, ServerNonce r);
  server_agree_ssid (s : ServerSsid) n := s ++ n;
  generate_client_info (s : ServerAugmentation) u db r :=
    match db u with
    | Some (v, salt, ps) => (v ++ s, AugmentationInfo ""%string [] salt ps)
    | None => ([], ServerNonce [])
    end;
  generate_client_info_strong E (s : ServerAugmentation) u b db r :=
    match db u with
    | Ok (Some (v, e, ps)) => Ok (v ++ s, StrongAugmentationInfo ""%string [] e ps)
    | _ => Err "unknown user"%string
    end;
  server_generate_public_key (s : ServerCpace) channel r := (s ++ channel, ServerPublicKey []);
  receive_client_pubkey (s : ServerExchange) k := Ok s;
  receive_client_authenticator (s : ServerAuthentication) a :=
    key ← toy_authenticate s a; Ok (key, ServerAuthenticator key);
  client_begin r := (r, ClientNonce r);
  client_agree_ssid (c : ClientSsid) n := n ++ c;
  register_alloc r u password a := Ok (Registration u r (Some a) (password ++ r));
  register_alloc_strong r u password a := Ok (StrongRegistration u r (Some a) (password ++ r));
  start_augmentation (c : ClientPreAugmentation) u password := ((password, c), Username u);
  start_augmentation_strong (c : ClientPreAugmentation) u password r := ((password, c), StrongUsernameMessage u []);
  generate_cpace_alloc (c : ClientAugmentation) x salt a := Ok ((c.1 ++ salt) ++ c.2);
  generate_cpace_alloc_strong (c : ClientStrongAugmentation) x salt a := Ok ((c.1 ++ salt) ++ c.2);
  client_generate_public_key (c : ClientCpace) channel r := (c ++ channel, ClientPublicKey []);
  receive_server_pubkey (c : ClientExchange) k := Ok (c, ClientAuthenticator (toy_authenticator c));
  receive_server_authenticator (c : ClientAuthentication) a := toy_authenticate c a;
|}.

Lemma length_toy_authenticator x : length (toy_authenticator x) = 64%nat.
Proof. unfold toy_authenticator. rewrite length_take, length_app, length_replicate. lia. Qed.

Lemma toy_authenticate_same x : toy_authenticate x (toy_authenticator x) = Ok (toy_authenticator x).
Proof. unfold toy_authenticate. by rewrite bool_decide_true. Qed.

#[local] Existing Instance toy_pake.

Program Definition toy_pake_laws : PakeLaws := {| augmented := λ s c, s = c |}.
Next Obligation. intros r. by exists r. Qed.
Next Obligation. intros r. by exists r. Qed.
Next Obligation. intros [[a b] c] ps [= <-]. done. Qed.
Next Obligation. intros r name pw a msg [= <-]. eauto 10. Qed.
Next Obligation. intros r name pw a msg [= <-]. eauto 10. Qed.
Next Obligation.
  intros r name pw a salt ps v lookup rs rc r' cn sn [= <- <- <-] Hl [= <-] [= <-].
  cbn. rewrite Hl. by eexists _, _, _, _.
Qed.
Next Obligation.
  intros E r name pw a e ps v lookup rs rc r' r'' cn sn [= <- <- <-] Hl [= <-] [= <-].
  cbn. rewrite Hl. eexists _, _, _, _, _, _, _. by split_and!.
Qed.
Next Obligation.
  intros s c channel rs rc ->. eexists _, _, _, _, _, _, _, _, _. cbn.
  split_and!; try done; rewrite ?toy_authenticate_same; try done; apply length_toy_authenticator.
Qed.

#[local] Existing Instance toy_pake_laws.
#[local] Existing Instance toy_x509.
#[local] Existing Instance toy_crypto.
#[local] Existing Instance toy_rcgen.
#[local] Existing Instance toy_aead.
#[local] Existing Instance toy_argon.
#[local] Existing Instance toy_tls.
#[local] Existing Instance postcard_keypair.
#[local] Existing Instance postcard_certificate.
#[local] Existing Instance postcard_certificate_laws.
#[local] Existing Instance toy_postcard.
#[local] Existing Instance toy_postcard_laws.
#[local] Existing Instance toy_tls_laws.
#[local] Existing Instance toy_aead_laws.
#[local] Existing Instance toy_rcgen_laws.

(** What a toy encoding sends is short. *)
Lemma toy_sendable (U : Type) `{Countable U} : @Sendable U (toy_postcard U) (toy_postcard_laws U).
Proof. constructor. intros x. by eexists. Qed.
#[local] Existing Instance toy_sendable.

#[global] Instance nonce_eq_dec : EqDecision Nonce.
Proof. solve_decision. Defined.
#[global] Program Instance nonce_countable : Countable Nonce := inj_countable' to_array mkNonce _.
Next Obligation. by intros []. Qed.
#[global] Instance authenticator_eq_dec : EqDecision Authenticator.
Proof. solve_decision. Defined.
#[global] Program Instance authenticator_countable : Countable Authenticator :=
  inj_countable' authenticator_bytes mkAuthenticator _.
Next Obligation. by intros []. Qed.

#[local] Instance public_key_eq_dec : EqDecision PublicKey.
Proof. intros [x] [y]. destruct (decide ((x : list Z) = y)); [left; congruence|right; congruence]. Defined.
#[local] Program Instance public_key_countable : Countable PublicKey :=
  inj_countable' (λ k, public_point k : list Z) (λ x, mkPublicKey x) _.
Next Obligation. by intros []. Qed.

Definition info_fields (i : ClientInfo) : string * list Z * list Z * option (Z * Z * Z) :=
  (group i, x_pub i, info_salt i, hash_params i).
Definition info_of_fields (f : string * list Z * list Z * option (Z * Z * Z)) : ClientInfo :=
  let '(g, x, s, p) := f in mkClientInfo g x s p.
#[local] Instance client_info_eq_dec : EqDecision ClientInfo.
Proof.
  refine (λ x y, cast_if (decide (info_fields x = info_fields y))); [|congruence].
  abstract (destruct x, y; cbn in *; unfold info_fields in *; cbn in *; congruence).
Defined.
#[local] Program Instance client_info_countable : Countable ClientInfo :=
  inj_countable' info_fields info_of_fields _.
Next Obligation. by intros []. Qed.

#[local] Instance answer_countable : Countable (result () Authenticator).
Proof.
  refine (inj_countable' (λ r : result () Authenticator, match r with Ok a => inl a | Err _ => inr true | Panic => inr false end)
    (λ x, match x with inl a => Ok a | inr true => Err () | inr false => Panic end) _).
  abstract (by intros [a|[]|]).
Defined.

#[local] Instance toy_answer_laws : AnswerLaws.
Proof. split; intros; eexists; (split; [by split|]); by apply from_to_stdvec. Qed.

Definition toy_password : list Z := [1; 2; 3].

Lemma toy_server_registers :
  register_alloc (random toy_bob 0) USERNAME toy_password (m_cost cost_basic, t_cost cost_basic, p_cost cost_basic) =
  Ok (Registration USERNAME (replicate 12 9) (Some (m_cost cost_basic, t_cost cost_basic, p_cost cost_basic))
        (toy_password ++ replicate 12 9)).
Proof. reflexivity. Qed.

Lemma toy_sends_any k n key :
  temporary_of (toy_machine (λ n, k + Z.of_nat n)) n = Ok (toy_temporary (k + Z.of_nat n)) →
  is_ok (to_stdvec (as_unverified (credential_certificate (toy_temporary (k + Z.of_nat n))))) = true →
  length (key_bytes key) = 32%nat →
  ∃ b, sends_temporary (toy_machine (λ n, k + Z.of_nat n)) n key (toy_temporary (k + Z.of_nat n)) b.
Proof.
  intros Ht Hc Hk.
  assert (∃ e, encrypt_object (replicate 12 9)
    (as_unverified (credential_certificate (toy_temporary (k + Z.of_nat n)))) key = Ok e) as [e He].
  { unfold encrypt_object. destruct (to_stdvec _) as [b| |]; [|done|done]. cbn [map_err mbind result_bind].
    unfold encrypt, encrypt_with_alg. cbn [aead_key_ok toy_aead]. rewrite bool_decide_true by done.
    eexists. reflexivity. }
  eexists. split; [exact Ht|]. split; [|exists e; split; [exact He|reflexivity]]. done.
Qed.

Lemma aucpace_meets_witness :
  ∃ c s, inevitable
    (mkPair (aucpace_client toy_alice toy_password) () 0 (aucpace_server toy_bob toy_password) () 0 [] [] 0)
    (mkPair (Finished (Ok c)) () 7 (Finished (Ok s)) () 9 [] [] 1) ∧
    tls_peer c = PeerCertificate (credential_certificate (toy_temporary 55)) ∧
    tls_peer s = PeerCertificate (credential_certificate (toy_temporary 13)).
Proof.
  destruct (aucpace_meets (TS := toy_tls) (H1 := toy_argon) toy_alice toy_bob toy_password _ _ _ (toy_temporary 13) (toy_temporary 55)
    () 0 () 0 0 eq_refl toy_server_registers eq_refl (conj eq_refl eq_refl) (conj eq_refl eq_refl)) as (exporter & _ & H).
  - intros key Hk. destruct (toy_sends_any 10 3 key) as [bc Hbc]; [reflexivity|reflexivity|done|].
    destruct (toy_sends_any 50 5 key) as [bs Hbs]; [reflexivity|reflexivity|done|]. by exists bc, bs.
  - reflexivity.
  - reflexivity.
  - eexists _, _. split; [exact H|]. by split.
Defined.
