(* ===== verification/Login.v ===== *)
(** * Login ([svalin/src/shared/commands/login.rs])

    A client that has nothing but a name, a password and a one-time code gets
    the user's credential and a certificate for itself. The password never
    leaves the client: it is proved with the strong variant of the protocol of
    [Pake], and the user's credential comes encrypted under a key derived from
    it. *)
From S2P Require Import Prelude.
From S2P Require Import External.
From S2P Require Import Provider.
From S2P Require Import Spki.
From S2P Require Import Toy.
From S2P Require Import Certificate.
From S2P Require Import CertChain.
From S2P Require Import Encrypt.
From S2P Require Import Credential.
From S2P Require Import SecureChain.
From S2P Require Import TrustStore.
From S2P Require Import ServerStore.
From S2P Require Import ClientStore.
From S2P Require Import UserStore.
From S2P Require Import Verifiers.
From S2P Require Import Transport.
From S2P Require Import Script.
From S2P Require Import TlsTransport.
From S2P Require Import Pake.
From stdpp Require Import relations.
From stdpp Require Import options.

#[local] Open Scope Z_scope.

(** [totp_rs]: the step of a secret at a time that a code is for, if any. *)
Class TotpCheck `{LoginTypes} := { check_totp : Totp → string → Z → option Z }.

(** ** What is sent *)
Section messages.
Context `{X509, CR : Crypto, RG : !Rcgen, LoginTypes, !PakeTypes}.

Record LoginApproval := mkLoginApproval {
  encrypted_user_credentials : EncryptedCredential;
  approval_key_params : ArgonParams;
  approval_root_cert : UnverifiedCertificate;
  approval_server_cert : UnverifiedCertificate;
  approval_trust_store : ExportedStore;
  approval_digest : EncryptedObject ChainDigest;
}.

Record StrongUsername := mkStrongUsername { strong_username : list Z; blinded : RistrettoPoint }.

Record StrongClientInfo := mkStrongClientInfo {
  strong_group : string;
  strong_x_pub : RistrettoPoint;
  blinded_salt : RistrettoPoint;
  strong_hash_params : ParamsString;
}.

Definition strong_username_from_client (value : ClientMessage) : result MessageTransformError StrongUsername :=
  match value with
  | StrongUsernameMessage username blinded => Ok (mkStrongUsername username blinded)
  | _ => Err WrongInputVariant
  end.

Definition strong_client_info_from_server (value : ServerMessage) : result MessageTransformError StrongClientInfo :=
  match value with
  | StrongAugmentationInfo group x_pub blinded_salt pbkdf_params =>
      Ok (mkStrongClientInfo group x_pub blinded_salt pbkdf_params)
  | _ => Err WrongInputVariant
  end.
End messages.

Definition login_label : list Z := str_bytes "login".

(** [SkipServerVerification] and [SkipClientVerification]. *)
Definition skip_verification : list Z → Z → result RustlsError () := λ _ _, Ok ().

(** The errors of the handler, through [anyhow]. *)
Inductive LoginFailure :=
  | LoginWrite (e : ObjectWriterError)
  | LoginRead (e : ObjectReaderError)
  | LoginTempCredentials (e : CreateCredentialsError)
  | LoginTls (e : TlsServerError)
  | LoginDeriveKey (e : ExtError)
  | LoginTransform (e : MessageTransformError)
  | LoginJoin
  | LoginPake (e : ExtError)
  | LoginParams (e : ExtError)
  | LoginNotAuthenticated (e : ExtError)
  | LoginUserStore (e : UserStoreError)
  | LoginUnknownUser
  | LoginWrongTotp
  | LoginWrongIssuer
  | LoginPushParent (e : AddCertificateError)
  | LoginCompleteChain (e : CompleteCertChainError)
  | LoginVerifyChain (e : VerifyChainError)
  | LoginAddSession (e : Sessions.AddSessionError).

(** ** The server *)
Section handler.
Context `{X509, CR : Crypto, RG : !Rcgen, Aead, !Postcard SavedKeypair, TS : TlsStack, Argon2, LT : LoginTypes}.
Context `{Sysinfo, !Postcard StoredUser, !PakeTypes, PK : !Pake, !TotpCheck}.
Context `{!Postcard UnverifiedCertificate, !Postcard (EncryptedObject UnverifiedCertificate)}.
Context `{!Postcard (list Z), !Postcard Nonce, !Postcard PublicKey, !Postcard (result () Authenticator)}.
Context `{!Postcard StrongUsername, !Postcard StrongClientInfo, !Postcard LoginApproval}.
Context `{!Postcard bool, !Postcard string, !Postcard (result () ())}.

(** The stores of the server that the handler shares with the rest of it. *)
Record LoginServer := mkLoginServer {
  server_trust_store : TrustStore;
  server_user_store : UserStore;
  server_session_store : Sessions.SessionStore;
}.

Context (m : Machine) (root_cert : RootCertificate) (server_cert : Certificate).

Abbreviation handler_script := (script LoginServer LoginFailure).
Definition send {U} `{Postcard U} (x : U) : handler_script () := script_map_err LoginWrite (write_object x).
Definition receive {U} `{Postcard U} : handler_script U := script_map_err LoginRead read_object.

(** "Establish TLS Connection and generate common secret". *)
Definition server_key_material : handler_script (list Z) :=
  tls_server_nonce ← nonce_generate m;
  _ ← send tls_server_nonce;
  tls_client_nonce ← receive (U := Nonce);
  let tls_combined_nonce := nonce_combine tls_server_nonce tls_client_nonce in
  temp_credentials ← script_map_err LoginTempCredentials (draw_temporary m);
  tls_transport ← script_map_err LoginTls (tls_server skip_verification temp_credentials);
  returns (map_err LoginDeriveKey (derive_key tls_transport 32 login_label tls_combined_nonce)).

(** "SSID Establishment" and the "Augmentation Layer"; the name is the one
    the client gave. *)
Definition server_strong_augmentation : handler_script (list Z * ServerCpace) :=
  r ← seed m;
  let '(pake_server, server_nonce) := server_begin r in
  nonce ← returns (map_err LoginTransform (nonce_from_server server_nonce));
  _ ← send nonce;
  client_nonce ← receive (U := Nonce);
  let pake_server := server_agree_ssid pake_server (to_array client_nonce) in
  strong ← receive (U := StrongUsername);
  let username := strong_username strong in
  server ← get;
  r ← seed m;
  '(pake_server, client_info) ← returns (blocking LoginJoin (map_err LoginPake
    (generate_client_info_strong pake_server (strong_username strong) (blinded strong)
       (lookup_verifier_strong (server_user_store server)) r)));
  client_info ← returns (map_err LoginTransform (strong_client_info_from_server client_info));
  client_info ← (if params_is_empty (strong_hash_params client_info) then
                   params ← returns (get_params cost_strong);
                   params ← returns (map_err LoginParams (params_of_argon params));
                   mret (mkStrongClientInfo (strong_group client_info) (strong_x_pub client_info)
                           (blinded_salt client_info) params)
                 else mret client_info);
  _ ← send client_info;
  mret (username, pake_server).

(** "CPace substep" and "Explicit Mutual Authentication". *)
Definition server_authenticate (pake_server : ServerCpace) (key_material : list Z) :
    handler_script EncryptionKey :=
  r ← seed m;
  let '(pake_server, public_key) := server_generate_public_key pake_server key_material r in
  server_public_key ← returns (map_err LoginTransform (public_key_from_server public_key));
  _ ← send server_public_key;
  client_public_key ← receive (U := PublicKey);
  pake_server ← returns (map_err LoginPake (receive_client_pubkey pake_server (public_point client_public_key)));
  client_authenticator ← receive (U := Authenticator);
  match receive_client_authenticator pake_server (authenticator_bytes client_authenticator) with
  | Ok (key, server_authenticator) =>
      server_authenticator ← returns (map_err LoginTransform (authenticator_from_server server_authenticator));
      _ ← send (Ok server_authenticator : result () Authenticator);
      mret (mkEncryptionKey (key_to_array key))
  | Err err =>
      _ ← send (Err () : result () Authenticator);
      returns (Err (LoginNotAuthenticated err))
  | Panic => returns Panic
  end.

(** "TOTP", inside the session encrypted with the key. *)
Definition server_totp (username : list Z) : handler_script StoredUser :=
  server ← get;
  user ← returns (map_err LoginUserStore (get_user_by_username (server_user_store server) username));
  user ← returns (ok_or user LoginUnknownUser);
  totp ← receive (U := string);
  t ← draw;
  let totp_success := bool_decide (is_Some (check_totp (totp_secret user) totp (get_current_timestamp m t))) in
  _ ← send totp_success;
  if negb totp_success then returns (Err LoginWrongTotp) else mret user.

(** Telling the client and giving up, whether it hears it or not. *)
Definition decline {A} (e : LoginFailure) : handler_script A :=
  _ ← attempt (send (Err () : result () ()));
  returns (Err e).

Definition approve (user : StoredUser) : LoginApproval :=
  mkLoginApproval (encrypted_credential user) (credential_key_params user)
    (as_unverified (as_certificate root_cert)) (as_unverified server_cert)
    (trust_store user) (trust_store_digest user).

(** The certificate the client made for itself: the checks, and adding it. *)
Definition check_session_certificate (user_cert session_certificate : UnverifiedCertificate) :
    handler_script Certificate :=
  if bool_decide (issuer session_certificate ≠ spki_hash user_cert) then decline LoginWrongIssuer
  else
    match push_parent (builder_new session_certificate) user_cert with
    | Err err => decline (LoginPushParent err)
    | Panic => returns Panic
    | Ok chain_builder =>
        server ← get;
        match complete_started_chain (server_trust_store server) chain_builder with
        | Err err => decline (LoginCompleteChain err)
        | Panic => returns Panic
        | Ok session_chain =>
            t ← draw;
            match verify session_chain root_cert (get_current_timestamp m t) with
            | Err err => decline (LoginVerifyChain err)
            | Panic => returns Panic
            | Ok session_chain => returns (take_leaf session_chain)
            end
        end
    end.

Definition store_session (certificate : Certificate) : handler_script () :=
  server ← get;
  let added := Sessions.add_session (server_session_store server) certificate in
  _ ← match added with
      | Ok sessions => put (mkLoginServer (server_trust_store server) (server_user_store server) sessions)
      | Err _ => mret ()
      | Panic => returns Panic
      end;
  let store_result := (_ ← map_err LoginAddSession added; Ok ()) in
  let cleaned_result := map_err (λ _, ()) store_result in
  send_result ← attempt (send cleaned_result);
  _ ← returns store_result;
  returns send_result.

(** [LoginHandler::handle] on a session it took. *)
Definition login_handle : handler_script () :=
  key_material ← server_key_material;
  '(username, pake_server) ← server_strong_augmentation;
  key ← server_authenticate pake_server key_material;
  _ ← script_map_err LoginTls (server_preshared m key);
  user ← server_totp username;
  let success := approve user in
  let user_cert := encrypted_certificate (encrypted_user_credentials success) in
  _ ← send success;
  session_certificate ← receive (U := UnverifiedCertificate);
  certificate ← check_session_certificate user_cert session_certificate;
  store_session certificate.

(** *** What the handler does to the stores *)
Implicit Types w : World LoginServer.

Lemma quiet_key_material : quiet server_key_material.
Proof. unfold server_key_material, send, receive, nonce_generate. stay_quiet. Qed.

Lemma quiet_strong_augmentation : quiet server_strong_augmentation.
Proof. unfold server_strong_augmentation, send, receive, seed. stay_quiet. Qed.

Lemma quiet_authenticate s k : quiet (server_authenticate s k).
Proof. unfold server_authenticate, send, receive, seed. stay_quiet. Qed.

Lemma quiet_totp u : quiet (server_totp u).
Proof. unfold server_totp, send, receive. stay_quiet. Qed.

Lemma quiet_check_session u c : quiet (check_session_certificate u c).
Proof. unfold check_session_certificate, decline, send. stay_quiet. Qed.

(** Somebody who proved to know the password of a name: an authenticator was
    accepted in a run of the protocol over the entry the server has for that
    name. *)
Definition authenticated (users : UserStore) (username : list Z) : Prop :=
  ∃ channel r1 r2 r3 cn b s info s1 msg cp s2 ca key sa,
    generate_client_info_strong (server_agree_ssid (server_begin r1).1 cn) username b
      (lookup_verifier_strong users) r2 = Ok (s, info) ∧
    server_generate_public_key s channel r3 = (s1, msg) ∧
    receive_client_pubkey s1 cp = Ok s2 ∧ receive_client_authenticator s2 ca = Ok (key, sa).

Lemma strong_augmentation_inv w w' username s :
  run server_strong_augmentation w = (w', Ok (username, s)) →
  ∃ r1 cn b r2 info,
    generate_client_info_strong (server_agree_ssid (server_begin r1).1 cn) username b
      (lookup_verifier_strong (server_user_store (local w))) r2 = Ok (s, info).
Proof.
  intros (w1 & r1 & Hw1 & Hr)%run_bind_inv. exists r1. assert (local w1 = local w) as L1.
  { eapply quiet_run; [|exact Hw1]. unfold seed. stay_quiet. }
  destruct (server_begin r1) as [s0 m0]. apply run_bind_inv in Hr as (w2 & nonce & [= <- _] & Hr).
  apply run_bind_inv in Hr as (w3 & [] & Hw3 & Hr). apply run_bind_inv in Hr as (w4 & cn & Hw4 & Hr).
  apply run_bind_inv in Hr as (w5 & strong & Hw5 & Hr).
  apply run_bind_inv in Hr as (w6 & server & [= <- <-] & Hr). apply run_bind_inv in Hr as (w7 & r2 & _ & Hr).
  apply run_bind_inv in Hr as (w8 & [s1 info] & [= <- Hg] & Hr).
  apply run_bind_inv in Hr as (w9 & ci & [= <- _] & Hr). apply run_bind_inv in Hr as (w10 & ci' & _ & Hr).
  apply run_bind_inv in Hr as (w11 & [] & _ & [= _ <- <-]).
  exists (to_array cn), (blinded strong), r2, info.
  assert (local w5 = local w) as <-.
  { rewrite <-L1. etransitivity; [eapply quiet_run; [|exact Hw5]; unfold receive; stay_quiet|].
    etransitivity; [eapply quiet_run; [|exact Hw4]; unfold receive; stay_quiet|].
    eapply quiet_run; [|exact Hw3]. unfold send. stay_quiet. }
  unfold blocking in Hg. cbn [fst].
  destruct (generate_client_info_strong _ _ _ _ _) as [[s2 i2]|e|]; cbn in Hg; congruence.
Qed.

Lemma authenticate_inv w w' s channel key :
  run (server_authenticate s channel) w = (w', Ok key) →
  ∃ r3 s1 msg cp s2 ca k sa, server_generate_public_key s channel r3 = (s1, msg) ∧
    receive_client_pubkey s1 cp = Ok s2 ∧ receive_client_authenticator s2 ca = Ok (k, sa).
Proof.
  intros (w1 & r3 & _ & Hr)%run_bind_inv. exists r3.
  destruct (server_generate_public_key s channel r3) as [s1 msg].
  apply run_bind_inv in Hr as (w2 & pk & _ & Hr). apply run_bind_inv in Hr as (w3 & [] & _ & Hr).
  apply run_bind_inv in Hr as (w4 & cp & _ & Hr). apply run_bind_inv in Hr as (w5 & s2 & [= _ Hs2%map_err_Ok] & Hr).
  apply run_bind_inv in Hr as (w6 & ca & _ & Hr).
  destruct (receive_client_authenticator s2 (authenticator_bytes ca)) as [[k sa]|e|] eqn:Ha.
  - eexists _, _, _, _, _, _, _. eauto.
  - apply run_bind_inv in Hr as (w7 & [] & _ & [=]).
  - by injection Hr.
Qed.

Lemma totp_inv w w' username user :
  run (server_totp username) w = (w', Ok user) →
  get_user_by_username (server_user_store (local w)) username = Ok (Some user) ∧
  ∃ code now, is_Some (check_totp (totp_secret user) code now).
Proof.
  intros (w1 & server & [= <- <-] & Hr)%run_bind_inv.
  apply run_bind_inv in Hr as (w2 & o & [= <- Ho%map_err_Ok] & Hr).
  apply run_bind_inv in Hr as (w3 & u & [= <- ->%ok_or_Ok] & Hr).
  apply run_bind_inv in Hr as (w4 & code & _ & Hr). apply run_bind_inv in Hr as (w5 & t & _ & Hr).
  apply run_bind_inv in Hr as (w6 & [] & _ & Hr). case_bool_decide as Ht; [|by injection Hr].
  injection Hr as _ <-. split; [done|]. eauto.
Qed.

(** The certificate at the end of a chain that starts below its issuer. *)
Lemma chain_below_parent ts (leaf parent : UnverifiedCertificate) b ch now v (c : Certificate) :
  store_wf (chain_state (store_chain ts)) →
  push_parent (builder_new leaf) parent = Ok b → complete_started_chain ts b = Ok ch →
  verify ch root_cert now = Ok v → take_leaf (E := LoginFailure) v = Ok c →
  c = mkCertificate leaf ∧
  ∃ (signer : Certificate) path, der signer = der parent ∧ verify_signature leaf signer now = Ok c ∧
    signed_path now root_cert path ∧ last path = Some c.
Proof.
  intros Hwf Hp Hc Hv Hl. assert (foldM push_parent (builder_new leaf) [parent] = Ok b) as Hf by (cbn [foldM]; by rewrite Hp).
  destruct (foldM_push_parent leaf [parent] (builder_new leaf) b (builder_new_ok leaf) Hf) as [Hb Hcs].
  destruct (complete_started_chain_spec ts leaf b Hwf Hb) as [_ Hspec].
  destruct (Hspec ch Hc) as (ps & Hch & _). rewrite Hcs in Hch. cbn [builder_new certificates app] in Hch.
  apply verify_Ok in Hv as (c0 & l & Hcl & Hroot & -> & Hpath).
  rewrite !reverse_cons, <-app_assoc in Hch. cbn [app] in Hch.
  apply expect_Ok in Hl. cbn [verified_certificates] in Hl.
  destruct (reverse ps) as [|q qs] eqn:Hq; cbn in Hch; rewrite Hch in Hcl; injection Hcl as -> <-.
  - cbn in Hl. injection Hl as <-. split; [done|]. inversion Hpath as [|? ? ? Hs _]; subst.
    exists (as_certificate root_cert), [mkCertificate leaf]. by split_and!.
  - rewrite fmap_app in Hl, Hpath. cbn in Hl, Hpath. rewrite last_cons, last_app_cons in Hl. cbn in Hl. injection Hl as <-.
    split; [done|]. exists (mkCertificate parent), ((mkCertificate <$> qs) ++ [mkCertificate parent; mkCertificate leaf]).
    split_and!; [done|by apply signed_path_step in Hpath|done|by rewrite last_app_cons].
Qed.

Lemma check_session_inv w w' (user_cert session_certificate : UnverifiedCertificate) c :
  store_wf (chain_state (store_chain (server_trust_store (local w)))) →
  run (check_session_certificate user_cert session_certificate) w = (w', Ok c) →
  issuer c = spki_hash user_cert ∧
  ∃ now (signer : Certificate) path, der signer = der user_cert ∧ verify_signature c signer now = Ok c ∧
    signed_path now root_cert path ∧ last path = Some c.
Proof.
  assert (∀ A e w1 w2 (a : A), run (decline e) w1 = (w2, Ok a) → False) as Hno.
  { intros A e w1 w2 a (w3 & r & _ & Hr)%run_bind_inv. by injection Hr. }
  intros Hwf. unfold check_session_certificate. case_bool_decide as Hi; [by intros ?%Hno|].
  destruct (push_parent _ _) as [b|e|] eqn:Hp; [|by intros ?%Hno|by intros [=]].
  rewrite (run_bind_step _ _ _ _ _ (run_get w)).
  destruct (complete_started_chain _ b) as [ch|e|] eqn:Hc; [|by intros ?%Hno|by intros [=]].
  rewrite (run_bind_step _ _ _ _ _ (run_draw w)).
  destruct (verify ch root_cert _) as [v|e|] eqn:Hv; [|by intros ?%Hno|by intros [=]].
  intros [= _ Hl]. destruct (chain_below_parent _ _ _ _ _ _ _ _ Hwf Hp Hc Hv Hl)
    as (-> & signer & path & Hd & Hs & Hpath & Hlast).
  split; [done|]. eauto 10.
Qed.

Lemma store_session_local w w' (c : Certificate) r :
  run (store_session c) w = (w', r) →
  local w' = local w ∨
  ∃ sessions, Sessions.add_session (server_session_store (local w)) c = Ok sessions ∧
    local w' = mkLoginServer (server_trust_store (local w)) (server_user_store (local w)) sessions.
Proof.
  unfold store_session. intros Hr.
  rewrite (run_bind_step _ _ _ _ _ (run_get w)) in Hr.
  destruct (Sessions.add_session _ c) as [sessions|e|]; [right|left|left].
  - exists sessions. split; [done|]. rewrite (run_bind_step _ _ _ _ _ (run_put _ _)) in Hr.
    eapply quiet_run in Hr; [exact Hr|]. unfold send. stay_quiet.
  - eapply quiet_run in Hr; [exact Hr|]. unfold send. stay_quiet.
  - eapply quiet_run in Hr; [exact Hr|]. unfold send. stay_quiet.
Qed.

(** C10: Only who proves everything gets a session. Whatever a client sends,
    and whatever becomes of the connection, a login changes nothing but the
    sessions of the server; and it adds one only if the client's
    authenticator was accepted in a run of the password protocol for some
    name, the user of that name exists, a code was right for its secret at
    the time it was checked, and the certificate names the user's as its
    issuer, is signed by it, is valid, and ends a chain of signatures that
    starts at the root. *)
Theorem login_session_authenticated w w' r :
  store_wf (chain_state (store_chain (server_trust_store (local w)))) →
  run login_handle w = (w', r) →
  local w' = local w ∨
  ∃ username user code t sessions (c signer : Certificate) now path,
    authenticated (server_user_store (local w)) username ∧
    get_user_by_username (server_user_store (local w)) username = Ok (Some user) ∧
    is_Some (check_totp (totp_secret user) code t) ∧
    certificate_type c = UserSession ∧ issuer c = spki_hash (user_certificate user) ∧
    der signer = der (user_certificate user) ∧ verify_signature c signer now = Ok c ∧
    signed_path now root_cert path ∧ last path = Some c ∧
    Sessions.add_session (server_session_store (local w)) c = Ok sessions ∧
    local w' = mkLoginServer (server_trust_store (local w)) (server_user_store (local w)) sessions.
Proof.
  intros Hwf Hr. unfold login_handle in Hr.
  apply quiet_step in Hr as [[? _]|(w1 & channel & _ & L1 & Hr)]; [by left| |apply quiet_key_material].
  apply quiet_step in Hr as [[E _]|(w2 & [username s] & Hs & L2 & Hr)]; [left; congruence| |apply quiet_strong_augmentation].
  apply strong_augmentation_inv in Hs as (r1 & cn & b & r2 & info & Hg).
  apply quiet_step in Hr as [[E _]|(w3 & key & Ha & L3 & Hr)]; [left; congruence| |apply quiet_authenticate].
  apply authenticate_inv in Ha as (r3 & s1 & msg & cp & s2 & ca & k & sa & Hk & Hp & Hc).
  apply quiet_step in Hr as [[E _]|(w4 & tls & _ & L4 & Hr)]; [left; congruence| |stay_quiet].
  apply quiet_step in Hr as [[E _]|(w5 & user & Ht & L5 & Hr)]; [left; congruence| |apply quiet_totp].
  apply totp_inv in Ht as (Hu & code & t & Ht).
  apply quiet_step in Hr as [[E _]|(w6 & u6 & _ & L6 & Hr)]; [left; congruence| |unfold send; stay_quiet].
  apply quiet_step in Hr as [[E _]|(w7 & cert & _ & L7 & Hr)]; [left; congruence| |unfold receive; stay_quiet].
  apply quiet_step in Hr as [[E _]|(w8 & c & Hcs & L8 & Hr)]; [left; congruence| |apply quiet_check_session].
  assert (local w7 = local w) as L by congruence. rewrite <-L in Hwf.
  apply check_session_inv in Hcs as (Hi & now & signer & path & Hd & Hv & Hpath & Hl); [|done].
  assert (local w8 = local w) as L' by congruence.
  apply store_session_local in Hr as [E|(sessions & Hadd & E)]; [left; congruence|right].
  rewrite L' in Hadd, E. assert (local w1 = local w) as L1' by congruence.
  assert (local w4 = local w) as L4' by congruence. rewrite L1' in Hg. rewrite L4' in Hu.
  exists username, user, code, t, sessions, c, signer, now, path. split.
  { exists channel, r1, r2, r3, cn, b, s, info, s1, msg, cp, s2, ca, k, sa. by split_and!. }
  split_and!; try done. unfold Sessions.add_session in Hadd. by case_bool_decide.
Qed.
End handler.

(** ** The client *)
Inductive LoginDispatcherError :=
  | WriteClientNonceError (e : ObjectWriterError)
  | ReadServerNonceError (e : ObjectReaderError)
  | TempCredentialError (e : CreateCredentialsError)
  | LoginTlsClientError (e : TlsClientError)
  | DeriveKeyFailed (e : ExtError)
  | LoginTransformError (e : MessageTransformError)
  | WriteUsernameError (e : ObjectWriterError)
  | ReadClientInfoError (e : ObjectReaderError)
  | ChannelRecvError
  | LoginJoinError
  | ParamsParseError (e : ParamsStringParseError)
  | AucPaceError (e : ExtError)
  | ClientPublicKeyWriteError (e : ObjectWriterError)
  | ServerPublicKeyReadError (e : ObjectReaderError)
  | ClientAuthenticatorWriteError (e : ObjectWriterError)
  | ServerAuthenticatorReadError (e : ObjectReaderError)
  | LoginDecryptError (e : DecryptError)
  | WriteTotpError (e : ObjectWriterError)
  | ReadTotpResponseError (e : ObjectReaderError)
  | InvalidTotp
  | ReadSuccessError (e : ObjectReaderError)
  | WrongPassword
  | LoginDecodeCredentialsError (e : DecodeCredentialsError)
  | CreateSessionError (e : CreateCredentialsError)
  | WriteSessionError (e : ObjectWriterError)
  | ReadSessionResultError (e : ObjectReaderError)
  | SessionSubmitError
  | LoginRootCert (e : UseAsRootError)
  | VerifyUpstreamCertError (e : SignatureVerificationError)
  | DeriveEncryptionKeyError (e : DeriveKeyError)
  | TrustStoreImport (e : ImportError InnerImportErr)
  | TrustStoreDigestMismatch.

Record Login := mkLogin { login_username : list Z; login_password : list Z; login_totp : string }.

Section dispatch.
Context `{X509, CR : Crypto, RG : !Rcgen, Aead, !Postcard SavedKeypair, TS : TlsStack, Argon2, LT : LoginTypes}.
Context `{!PakeTypes, PK : !Pake}.
Context `{!Postcard UnverifiedCertificate, !Postcard (EncryptedObject UnverifiedCertificate)}.
Context `{!Postcard (list Z), !Postcard Nonce, !Postcard PublicKey, !Postcard (result () Authenticator)}.
Context `{!Postcard StrongUsername, !Postcard StrongClientInfo, !Postcard LoginApproval}.
Context `{!Postcard bool, !Postcard string, !Postcard (result () ())}.
Context {S : Type} (m : Machine).

Record LoginSuccess := mkLoginSuccess {
  device_credential : Credential;
  success_root_cert : RootCertificate;
  success_server_cert : Certificate;
  success_trust_store : TrustStore;
}.

Abbreviation client_script := (script S LoginDispatcherError).

(** "TLS Initialization". *)
Definition client_key_material : client_script (list Z) :=
  tls_client_nonce ← nonce_generate m;
  _ ← script_map_err WriteClientNonceError (write_object tls_client_nonce);
  tls_server_nonce ← script_map_err ReadServerNonceError (read_object (U := Nonce));
  let tls_combined_nonce := nonce_combine tls_server_nonce tls_client_nonce in
  credentials ← script_map_err TempCredentialError (draw_temporary m);
  tls_transport ← script_map_err LoginTlsClientError (tls_client skip_verification credentials);
  returns (map_err DeriveKeyFailed (derive_key tls_transport 32 login_label tls_combined_nonce)).

(** "SSID Establishment" and the "Augmentation Layer". A task of its own does
    the hashing; it hands the name over a channel, which it drops when it
    fails before that, and gets the server's answer over another. *)
Definition client_strong_augmentation (self : Login) : client_script ClientCpace :=
  r ← seed m;
  let '(client, client_nonce) := client_begin r in
  nonce ← returns (map_err LoginTransformError (nonce_from_client client_nonce));
  _ ← script_map_err WriteClientNonceError (write_object nonce);
  server_nonce ← script_map_err ReadServerNonceError (read_object (U := Nonce));
  let client := client_agree_ssid client (to_array server_nonce) in
  r ← seed m;
  let '(client, strong) := start_augmentation_strong client (login_username self) (login_password self) r in
  username ← returns (map_err (λ _, ChannelRecvError) (strong_username_from_client strong));
  _ ← script_map_err WriteUsernameError (write_object username);
  client_info ← script_map_err ReadClientInfoError (read_object (U := StrongClientInfo));
  returns (blocking LoginJoinError (
    cost ← map_err ParamsParseError (cost_try_from (params_get_decimal (strong_hash_params client_info)));
    hasher ← get_argon_hasher cost;
    map_err AucPaceError
      (generate_cpace_alloc_strong client (strong_x_pub client_info) (blinded_salt client_info) hasher))).

(** "CPace substep" and "Explicit Mutual Authentication". *)
Definition client_authenticate (client : ClientCpace) (key_material : list Z) : client_script EncryptionKey :=
  r ← seed m;
  let '(client, client_key) := client_generate_public_key client key_material r in
  client_key ← returns (map_err LoginTransformError (public_key_from_client client_key));
  _ ← script_map_err ClientPublicKeyWriteError (write_object client_key);
  server_key ← script_map_err ServerPublicKeyReadError (read_object (U := PublicKey));
  '(client, client_authenticator) ← returns (map_err AucPaceError
    (receive_server_pubkey client (public_point server_key)));
  client_authenticator ← returns (map_err LoginTransformError (authenticator_from_client client_authenticator));
  _ ← script_map_err ClientAuthenticatorWriteError (write_object client_authenticator);
  answer ← script_map_err ServerAuthenticatorReadError (read_object (U := result () Authenticator));
  server_authenticator ← returns (map_err (λ _, WrongPassword) answer);
  key ← returns (map_err AucPaceError
    (receive_server_authenticator client (authenticator_bytes server_authenticator)));
  mret (mkEncryptionKey (key_to_array key)).

Definition client_totp (totp : string) : client_script LoginApproval :=
  _ ← script_map_err WriteTotpError (write_object totp);
  totp_success ← script_map_err ReadTotpResponseError (read_object (U := bool));
  if negb totp_success then returns (Err InvalidTotp)
  else script_map_err ReadSuccessError (read_object (U := LoginApproval)).

(** The user's credential, with the password, and one for this device made
    with it. *)
Definition decrypt_approval (success : LoginApproval) (password : list Z) :
    client_script (EncryptionKey * Credential) :=
  key ← returns (map_err DeriveEncryptionKeyError (derive_encryption_key (approval_key_params success) password));
  user_credential ← returns (map_err LoginDecodeCredentialsError
    (credential_decrypt (encrypted_user_credentials success) key));
  g ← draw;
  t1 ← draw;
  t2 ← draw;
  device_credential ← returns (map_err CreateSessionError
    (create_user_device_credential user_credential (generated m g) (clock m t1) (clock m t2)));
  mret (key, device_credential).

Definition submit_session (device_credential : Credential) : client_script () :=
  _ ← script_map_err WriteSessionError
        (write_object (as_unverified (credential_certificate device_credential)));
  session_result ← script_map_err ReadSessionResultError (read_object (U := result () ()));
  if is_err session_result then returns (Err SessionSubmitError) else mret ().

(** What the server said about itself, and the trust store against the
    digest that only the password decrypts. *)
Definition check_approval (success : LoginApproval) (key : EncryptionKey) (device_credential : Credential) :
    client_script LoginSuccess :=
  '(root_cert : RootCertificate) ← returns (map_err LoginRootCert (use_as_root (approval_root_cert success)));
  t ← draw;
  server_cert ← returns (map_err VerifyUpstreamCertError
    (verify_signature (approval_server_cert success) root_cert (get_current_timestamp m t)));
  trust_store ← returns (map_err TrustStoreImport (ts_import (approval_trust_store success)));
  digest ← returns (map_err LoginDecryptError (decrypt_object (approval_digest success) key));
  if bool_decide (ts_digest trust_store ≠ digest) then returns (Err TrustStoreDigestMismatch)
  else mret (mkLoginSuccess device_credential root_cert server_cert trust_store).

(** [Login::dispatch] on a session it took. *)
Definition login_dispatch (self : Login) : client_script LoginSuccess :=
  key_material ← client_key_material;
  client ← client_strong_augmentation self;
  key ← client_authenticate client key_material;
  _ ← script_map_err LoginTlsClientError (client_preshared m key);
  success ← client_totp (login_totp self);
  '(key, device_credential) ← decrypt_approval success (login_password self);
  _ ← submit_session device_credential;
  check_approval success key device_credential.

(** *** What a client can rely on *)
Implicit Types w : World S.

(** A server that proved to hold what the password was registered with: its
    authenticator was accepted in a run of the protocol with the password. *)
Definition server_proved (name password : list Z) : Prop :=
  ∃ channel r1 r2 r3 sn x bs a c c1 msg sp c2 ca sa k,
    generate_cpace_alloc_strong
      (start_augmentation_strong (client_agree_ssid (client_begin r1).1 sn) name password r2).1 x bs a = Ok c ∧
    client_generate_public_key c channel r3 = (c1, msg) ∧
    receive_server_pubkey c1 sp = Ok (c2, ca) ∧ receive_server_authenticator c2 sa = Ok k.

Lemma client_augmentation_inv self w w' c :
  run (client_strong_augmentation self) w = (w', Ok c) →
  ∃ r1 r2 sn x bs a, generate_cpace_alloc_strong
    (start_augmentation_strong (client_agree_ssid (client_begin r1).1 sn)
       (login_username self) (login_password self) r2).1 x bs a = Ok c.
Proof.
  intros (w1 & r1 & _ & Hr)%run_bind_inv. exists r1. destruct (client_begin r1) as [c0 msg].
  apply run_bind_inv in Hr as (w2 & nonce & _ & Hr). apply run_bind_inv in Hr as (w3 & [] & _ & Hr).
  apply run_bind_inv in Hr as (w4 & sn & _ & Hr). apply run_bind_inv in Hr as (w5 & r2 & _ & Hr).
  destruct (start_augmentation_strong _ _ _ _) as [c1 strong] eqn:Hs.
  apply run_bind_inv in Hr as (w6 & u & _ & Hr). apply run_bind_inv in Hr as (w7 & [] & _ & Hr).
  apply run_bind_inv in Hr as (w8 & info & _ & Hr). injection Hr as _ Hr.
  destruct (cost_try_from _) as [cost|e|]; [|done|done]. cbn in Hr.
  destruct (get_argon_hasher cost) as [hasher|e|]; [|done|done]. cbn in Hr.
  destruct (generate_cpace_alloc_strong _ _ _ _) as [c2|e|] eqn:Hg; [|done|done]. injection Hr as ->.
  eexists r2, _, _, _, _. cbn [fst]. rewrite Hs. exact Hg.
Qed.

Lemma client_authenticate_inv c channel w w' key :
  run (client_authenticate c channel) w = (w', Ok key) →
  ∃ r3 c1 msg sp c2 ca sa k, client_generate_public_key c channel r3 = (c1, msg) ∧
    receive_server_pubkey c1 sp = Ok (c2, ca) ∧ receive_server_authenticator c2 sa = Ok k.
Proof.
  intros (w1 & r3 & _ & Hr)%run_bind_inv. exists r3.
  destruct (client_generate_public_key c channel r3) as [c1 msg].
  apply run_bind_inv in Hr as (w2 & pk & _ & Hr). apply run_bind_inv in Hr as (w3 & [] & _ & Hr).
  apply run_bind_inv in Hr as (w4 & sp & _ & Hr).
  apply run_bind_inv in Hr as (w5 & [c2 ca] & [= _ Hp%map_err_Ok] & Hr).
  apply run_bind_inv in Hr as (w6 & a & _ & Hr). apply run_bind_inv in Hr as (w7 & [] & _ & Hr).
  apply run_bind_inv in Hr as (w8 & r & _ & Hr). apply run_bind_inv in Hr as (w9 & sa & _ & Hr).
  apply run_bind_inv in Hr as (w10 & k & [= _ Hk%map_err_Ok] & _).
  by eexists _, _, _, _, _, _, _.
Qed.

Lemma decrypt_approval_inv a password w w' key cr :
  run (decrypt_approval a password) w = (w', Ok (key, cr)) →
  derive_encryption_key (approval_key_params a) password = Ok key ∧
  ∃ user g now1 now2, credential_decrypt (encrypted_user_credentials a) key = Ok user ∧
    create_user_device_credential user g now1 now2 = Ok cr.
Proof.
  intros (w1 & k & [= _ Hk%map_err_Ok] & Hr)%run_bind_inv.
  apply run_bind_inv in Hr as (w2 & user & [= _ Hu%map_err_Ok] & Hr).
  apply run_bind_inv in Hr as (w3 & g & _ & Hr). apply run_bind_inv in Hr as (w4 & t1 & _ & Hr).
  apply run_bind_inv in Hr as (w5 & t2 & _ & Hr).
  apply run_bind_inv in Hr as (w6 & d & [= _ Hd%map_err_Ok] & [= _ <- <-]).
  split; [done|]. eexists _, _, _, _. split; [exact Hu|exact Hd].
Qed.

Lemma check_approval_inv a key cr w w' s :
  run (check_approval a key cr) w = (w', Ok s) →
  device_credential s = cr ∧ use_as_root (approval_root_cert a) = Ok (success_root_cert s) ∧
  (∃ now, verify_signature (approval_server_cert a) (success_root_cert s) now = Ok (success_server_cert s)) ∧
  ts_import (approval_trust_store a) = Ok (success_trust_store s) ∧
  decrypt_object (approval_digest a) key = Ok (ts_digest (success_trust_store s)).
Proof.
  intros (w1 & root & [= _ Hroot%map_err_Ok] & Hr)%run_bind_inv.
  apply run_bind_inv in Hr as (w2 & t & _ & Hr).
  apply run_bind_inv in Hr as (w3 & server & [= _ Hserver%map_err_Ok] & Hr).
  apply run_bind_inv in Hr as (w4 & ts & [= _ Hts%map_err_Ok] & Hr).
  apply run_bind_inv in Hr as (w5 & digest & [= _ Hd%map_err_Ok] & Hr).
  case_bool_decide as E; [done|]. injection Hr as _ <-. cbn.
  rewrite E. eauto 10.
Qed.

(** A client that logged in has what its password vouches for. The
    server proved to hold what the password was registered with; and the
    approval it then sent holds, under the key the password gives, the user's
    credential, which made the device's, and the digest of exactly the trust
    store the client imported. The root is a certificate that is valid as a
    root, and the certificate of the server is signed by it. *)
Theorem login_success_checked self w w' s :
  run (login_dispatch self) w = (w', Ok s) →
  server_proved (login_username self) (login_password self) ∧
  ∃ a key user g now1 now2 now,
    derive_encryption_key (approval_key_params a) (login_password self) = Ok key ∧
    credential_decrypt (encrypted_user_credentials a) key = Ok user ∧
    create_user_device_credential user g now1 now2 = Ok (device_credential s) ∧
    ts_import (approval_trust_store a) = Ok (success_trust_store s) ∧
    decrypt_object (approval_digest a) key = Ok (ts_digest (success_trust_store s)) ∧
    use_as_root (approval_root_cert a) = Ok (success_root_cert s) ∧
    verify_signature (approval_server_cert a) (success_root_cert s) now = Ok (success_server_cert s).
Proof.
  intros (w1 & channel & _ & Hr)%run_bind_inv. apply run_bind_inv in Hr as (w2 & c & Hc & Hr).
  apply client_augmentation_inv in Hc as (r1 & r2 & sn & x & bs & ar & Hc).
  apply run_bind_inv in Hr as (w3 & key & Hk & Hr).
  apply client_authenticate_inv in Hk as (r3 & c1 & msg & sp & c2 & ca & sa & k & Hg & Hp & Ha).
  apply run_bind_inv in Hr as (w4 & tls & _ & Hr). apply run_bind_inv in Hr as (w5 & a & _ & Hr).
  apply run_bind_inv in Hr as (w6 & [key' cr] & Hd & Hr).
  apply decrypt_approval_inv in Hd as (Hkey & user & g & now1 & now2 & Hu & Hcr).
  apply run_bind_inv in Hr as (w7 & [] & _ & Hr).
  apply check_approval_inv in Hr as (<- & Hroot & (now & Hs) & Hts & Hdig).
  split.
  - exists channel, r1, r2, r3, sn, x, bs, ar, c, c1, msg, sp, c2, ca, sa, k. by split_and!.
  - exists a, key', user, g, now1, now2, now. by split_and!.
Qed.
End dispatch.

(** ** Worked examples *)
#[local] Existing Instance toy_x509.
#[local] Existing Instance toy_crypto.
#[local] Existing Instance toy_rcgen.
#[local] Existing Instance toy_aead.
#[local] Existing Instance toy_argon.
#[local] Existing Instance toy_tls.
#[local] Existing Instance toy_login_types.
#[local] Existing Instance toy_pake_types.
#[local] Existing Instance toy_pake.
#[local] Existing Instance postcard_keypair.
#[local] Existing Instance postcard_certificate.
#[local] Instance toy_disks : Sysinfo := {| DiskKind := Empty_set |}.
#[local] Instance toy_totp : TotpCheck := {|
  check_totp (secret : Totp) code now := if bool_decide (code = "123456"%string) then Some now else None |}.

(** Values that are byte strings are sent as they are. *)
#[local] Existing Instance postcard_bytes.
#[local] Instance postcard_nonce : Postcard Nonce :=
  {| to_stdvec n := Ok (to_array n); from_bytes b := Ok (mkNonce b) |}.
#[local] Instance postcard_public_key : Postcard PublicKey :=
  {| to_stdvec k := Ok (public_point k : list Z); from_bytes b := Ok (mkPublicKey (b : RistrettoPoint)) |}.
#[local] Instance postcard_authenticator : Postcard Authenticator :=
  {| to_stdvec a := Ok (authenticator_bytes a); from_bytes b := Ok (mkAuthenticator b) |}.
#[local] Instance postcard_answer : Postcard (result () Authenticator) := {|
  to_stdvec r := Ok match r with Ok a => 0 :: authenticator_bytes a | _ => [1] end;
  from_bytes b := match b with 0 :: b => Ok (Ok (mkAuthenticator b)) | [1] => Ok (Err ()) | _ => Err "answer"%string end;
|}.
#[local] Instance postcard_done : Postcard (result () ()) := {|
  to_stdvec r := Ok match r with Ok _ => [0] | _ => [1] end;
  from_bytes b := match b with [0] => Ok (Ok ()) | [1] => Ok (Err ()) | _ => Err "answer"%string end;
|}.
#[local] Instance postcard_bool : Postcard bool :=
  {| to_stdvec b := Ok [if b : bool then 1 else 0]; from_bytes b := Ok (bool_decide (b = [1])) |}.
#[local] Instance postcard_string : Postcard string :=
  {| to_stdvec s := Ok (str_bytes s); from_bytes b := Ok (str_of_bytes b) |}.
#[local] Instance postcard_strong_username : Postcard StrongUsername :=
  {| to_stdvec u := Ok (strong_username u); from_bytes b := Ok (mkStrongUsername b ([] : RistrettoPoint)) |}.
#[local] Instance postcard_object T : Postcard (EncryptedObject T) := {|
  to_stdvec o := let '(c, a, n) := object_fields o in Ok ((if a : bool then 1 else 0) :: n ++ c);
  from_bytes b := match b with a :: b => Ok (object_of_fields (drop 12 b, a =? 1, take 12 b)) | [] => Err "object"%string end;
|}.

#[local] Instance postcard_strong_client_info : Postcard StrongClientInfo := {|
  to_stdvec i := Ok (blinded_salt i);
  from_bytes b := Ok (mkStrongClientInfo "" ([] : RistrettoPoint) (b : RistrettoPoint) (Some (19456, 2, 1) : ParamsString));
|}.

(** The root user, whose credential and trust store are sealed with its password. *)
Definition login_user : StoredUser :=
  mkStoredUser (mkEncryptedCredential no_data toy_root) (mkArgonParams cost_basic []) ([] : Totp) [65] ([8] : Scalar)
    (Some (19456, 2, 1) : ParamsString) ([1; 2; 3; 8] : RistrettoPoint)
    (mkExportedMlsStore no_data) no_data (ts_export toy_store1) no_data.
#[local] Instance postcard_login_user : Postcard StoredUser :=
  {| to_stdvec u := Ok []; from_bytes b := Ok login_user |}.

Definition toy_channel : TlsStream := mkTlsStream None (λ _ _ _, Ok [4; 4]).
Definition toy_peer (k : Z) : TlsStream :=
  mkTlsStream (Some [der (toy_certificate Temporary k k 500)]) (λ _ _ _, Ok [4; 4]).
Definition toy_session_key (shared : list Z) : EncryptionKey := mkEncryptionKey (key_to_array (toy_authenticator shared)).

(** The temporary certificate of a key, as it is sent under a session key. *)
Definition toy_sealed_temporary (k : Z) (shared : list Z) : list Z :=
  match encrypt_object (replicate 12 9) (toy_certificate Temporary k k 500) (toy_session_key shared) with
  | Ok e => match to_stdvec e with Ok b => b | _ => [] end
  | _ => []
  end.
Definition toy_meets (k : Z) (shared : list Z) : list Answer :=
  let b := toy_sealed_temporary k shared in
  [Wrote; Wrote; Received (to_be_bytes 4 (Z.of_nat (length b))); Received b; Shook 500 (toy_peer k)].

Definition toy_shared : list Z := [1; 2; 3; 8] ++ replicate 12 9 ++ [2; 2] ++ [4; 4].
Definition toy_user_session : UnverifiedCertificate := toy_certificate UserSession 7 1 500.

(** What a client that knows everything makes the server see. *)
Definition client_answers (code : string) : list Answer :=
  [Wrote; Received [2]; Shook 500 (toy_peer 10); Wrote; Received [2; 2]; Received [65]; Wrote; Wrote; Received [];
   Received (toy_authenticator toy_shared); Wrote] ++ toy_meets 10 toy_shared ++
  [Received (str_bytes code); Wrote; Wrote; Received (der toy_user_session); Wrote].

(** What the server sends once the client is in. *)
Definition toy_user_key : EncryptionKey := mkEncryptionKey ([1; 2; 3] ++ replicate 29 7).
Definition toy_sealed_credential : EncryptedCredential :=
  match credential_export (replicate 12 9) root_credential toy_user_key with
  | Ok e => e
  | _ => mkEncryptedCredential no_data toy_root
  end.
Definition toy_sealed_digest : EncryptedObject ChainDigest :=
  match encrypt_object (replicate 12 9) (ts_digest toy_store1) toy_user_key with Ok e => e | _ => no_data end.
Definition toy_approval : LoginApproval :=
  mkLoginApproval toy_sealed_credential (mkArgonParams cost_basic (replicate 29 7)) toy_root
    (toy_certificate Server 5 1 500) (ts_export toy_store1) toy_sealed_digest.
#[local] Instance postcard_approval : Postcard LoginApproval :=
  {| to_stdvec a := Ok []; from_bytes b := Ok toy_approval |}.
Definition toy_client_shared : list Z := [1; 2; 3; 8] ++ [6; 6] ++ replicate 12 9 ++ [4; 4].
Definition server_answers : list Answer :=
  [Wrote; Received [6]; Shook 500 (toy_peer 50); Wrote; Received [6; 6]; Wrote; Received [8]; Wrote; Received []; Wrote;
   Received (0 :: toy_authenticator toy_client_shared)] ++ toy_meets 50 toy_client_shared ++
  [Wrote; Received [1]; Received []; Wrote; Received [0]].

Definition toy_login_server (sessions : Sessions.SessionStore) : LoginServer :=
  mkLoginServer toy_store1 (mkUserStore [mkUserRow (as_slice (spki_hash toy_root)) [65] []]) sessions.


Definition toy_login_world (code : string) : World LoginServer :=
  mkWorld (toy_login_server (Sessions.mkSessionStore [])) 0 (client_answers code) [].

(** The session is stored; with another code nothing is. *)
Lemma login_session_authenticated_witness :
  (run (login_handle (TS := toy_tls) toy_bob toy_root_certificate (mkCertificate toy_agent))
     (toy_login_world "123456")).2 = Ok () ∧
  (run (login_handle (TS := toy_tls) toy_bob toy_root_certificate (mkCertificate toy_agent))
     (toy_login_world "000000")).2 = Err LoginWrongTotp ∧
  ∃ (c signer : Certificate) now path sessions,
    issuer c = spki_hash toy_root ∧ der signer = der toy_root ∧ verify_signature c signer now = Ok c ∧
    signed_path now toy_root_certificate path ∧ last path = Some c ∧
    Sessions.add_session (Sessions.mkSessionStore []) c = Ok sessions.
Proof.
  split; [reflexivity|]. split; [reflexivity|].
  destruct (run (login_handle (TS := toy_tls) toy_bob toy_root_certificate (mkCertificate toy_agent))
    (toy_login_world "123456")) as [w' r] eqn:Hr.
  destruct (login_session_authenticated (TS := toy_tls) toy_bob toy_root_certificate (mkCertificate toy_agent)
    (toy_login_world "123456") w' r toy_store1_wf Hr)
    as [E|(username & user & code & t & sessions & c & signer & now & path & _ & Hu & _ & _ & Hi & Hd & Hv & Hp & Hl & Ha & _)].
  - assert (length (Sessions.rows (server_session_store (local (run (login_handle (TS := toy_tls) toy_bob
      toy_root_certificate (mkCertificate toy_agent)) (toy_login_world "123456")).1))) = 1%nat) as Hn by reflexivity.
    rewrite Hr in Hn. cbn [fst] in Hn. rewrite E in Hn. discriminate Hn.
  - assert (user = login_user) as ->.
    { unfold get_user_by_username, find_user in Hu. destruct (list_find _ _) as [[? ?]|]; [|discriminate Hu].
      injection Hu as <-. reflexivity. }
    exists c, signer, now, path, sessions. by split_and!.
Defined.

Lemma login_success_checked_witness :
  ∃ w s a key, run (login_dispatch (TS := toy_tls) toy_alice (mkLogin [65] [1; 2; 3] "123456"))
      (mkWorld () 0 server_answers []) = (w, Ok s) ∧
    server_proved [65] [1; 2; 3] ∧ derive_encryption_key (approval_key_params a) [1; 2; 3] = Ok key ∧
    decrypt_object (approval_digest a) key = Ok (ts_digest (success_trust_store s)).
Proof.
  assert (is_ok (run (login_dispatch (TS := toy_tls) toy_alice (mkLogin [65] [1; 2; 3] "123456"))
      (mkWorld () 0 server_answers [])).2 = true) as Hok by reflexivity.
  destruct (run (login_dispatch (TS := toy_tls) toy_alice (mkLogin [65] [1; 2; 3] "123456"))
      (mkWorld () 0 server_answers [])) as [w [s|e|]] eqn:Hr; [|discriminate Hok|discriminate Hok].
  destruct (login_success_checked (TS := toy_tls) toy_alice _ _ _ _ Hr)
    as (Hs & a & key & user & g & now1 & now2 & now & Hk & _ & _ & _ & Hd & _).
  exists w, s, a, key. by split_and!.
Defined.
