(* ===== verification/LoginMeets.v ===== *)
(** * A login that goes well

    The client and the server of [Login] run against each other, for a user
    whose data was made the way [Init] makes it: the two sides meet, the code
    decides, and the client ends with the credential, the trust store and a
    session of the server. *)
From S2P Require Import Prelude.
From S2P Require Import External.
From S2P Require Import Provider.
From S2P Require Import Spki.
From S2P Require Import Toy.
From S2P Require Import Certificate.
From S2P Require Import CertChain.
From S2P Require Import Encrypt.
From S2P Require Import Credential.
From S2P Require Import SecureChain.
From S2P Require Import TrustStore.
From S2P Require Import ServerStore.
From S2P Require Import ClientStore.
From S2P Require Import UserStore.
From S2P Require Import Verifiers.
From S2P Require Import Transport.
From S2P Require Import Script.
From S2P Require Import TlsTransport.
From S2P Require Import Pake.
From S2P Require Import Login.
From stdpp Require Import relations.
From stdpp Require Import options.

#[local] Open Scope Z_scope.

(** The laws of the interfaces are hypotheses of the sections below. *)
#[local] Set Default Proof Using "Type*".

(** The Argon2 parameters of new passwords. *)
Definition strong_hasher : Z * Z * Z := (m_cost cost_strong, t_cost cost_strong, p_cost cost_strong).

Section provisioned.
Context `{X509, CR : Crypto, RG : !Rcgen, Aead, !Postcard SavedKeypair, Argon2, LT : LoginTypes, Sysinfo}.
Context `{!PakeTypes, PK : !Pake, !Postcard (list Z)}.

(** A user that was added with a password: what the server holds belongs to
    the password, the root credential and the trust store of the user. *)
Record provisioned (user : StoredUser) (password : list Z) (root : Credential) (ts : TrustStore) : Prop := {
  registered_with : ∃ r, register_alloc_strong r (username user) password strong_hasher =
    Ok (StrongRegistration (username user) (secret_exponent user) (user_params user) (verifier user));
  sealed_with : ∃ key r1 r2,
    derive_encryption_key (credential_key_params user) password = Ok key ∧
    credential_export r1 root key = Ok (encrypted_credential user) ∧
    encrypt_object r2 (ts_digest ts) key = Ok (trust_store_digest user);
  exported_from : trust_store user = ts_export ts;
}.
End provisioned.

(** ** The certificate of the device *)
Section session.
Context `{X509, CR : Crypto, RG : !Rcgen, LT : LoginTypes, Sysinfo, !Postcard StoredUser, !Postcard (result () ())}.
Context (ms : Machine) (root_cert : RootCertificate).
Implicit Types (t : LoginServer).

Lemma complete_finished (ts : TrustStore) l (root : UnverifiedCertificate) known :
  certificate_type root = Root →
  complete_started_chain ts (mkBuilder (l ++ [root]) known) = Ok (mkUnverifiedChain (reverse (l ++ [root]))).
Proof.
  intros Hr. unfold complete_started_chain, complete_certificate_chain. cbn [complete_loop].
  unfold requested_issuer, finish, is_finished. cbn [certificates]. rewrite last_snoc.
  cbn [expect mbind result_bind]. rewrite bool_decide_true by done. cbn [mbind result_bind certificates].
  rewrite last_snoc. cbn [expect mbind result_bind]. by rewrite bool_decide_true by done.
Qed.

(** The certificate a root user's credential made for a device is accepted. *)
Lemma root_session_accepted (session : Certificate) t m os :
  certificate_type root_cert = Root → certificate_type session ≠ Root → issuer session = spki_hash root_cert →
  display_spki (spki_hash session) ≠ display_spki (spki_hash root_cert) →
  verify_signature session root_cert (get_current_timestamp ms m) = Ok session →
  solo (check_session_certificate ms root_cert (as_unverified (as_certificate root_cert)) (as_unverified session)) t m os =
    Some (Ok session, t, (1 + m)%nat, os, []).
Proof.
  intros Hr Hs Hi Hd Hv. unfold check_session_certificate. rewrite bool_decide_false by naive_solver.
  unfold push_parent, builder_new. cbn [certificates last expect mbind result_bind known_spki_hashes].
  rewrite bool_decide_false by done. rewrite bool_decide_false by naive_solver.
  rewrite bool_decide_false by set_solver.
  rewrite (solo_bind get _ t m os t t m os []) by done.
  rewrite (complete_finished _ [as_unverified session]) by done.
  destruct (verify_complete root_cert (get_current_timestamp ms m) (as_unverified (as_certificate root_cert)) [session])
    as (v & Hver & Hleaf); [done|by constructor; [|constructor]|].
  rewrite (solo_bind draw _ t m os m t (1 + m) os []) by done.
  change (reverse ([as_unverified session] ++ _)) with [as_unverified (as_certificate root_cert); as_unverified session].
  cbn [fmap list_fmap] in Hver. rewrite Hver. unfold take_leaf. unfold chain_leaf in Hleaf.
  destruct (last (verified_certificates v)); [|done]. by injection Hleaf as ->.
Qed.
End session.

Section meeting.
Context `{X509, CR : Crypto, RG : !Rcgen, Aead, !Postcard SavedKeypair, TS : TlsStack, Argon2, LT : LoginTypes}.
Context `{Sysinfo, !Postcard StoredUser, !PakeTypes, PK : !Pake, !TotpCheck}.
Context `{!Postcard UnverifiedCertificate, !Postcard (EncryptedObject UnverifiedCertificate)}.
Context `{!Postcard (list Z), !Postcard Nonce, !Postcard PublicKey, !Postcard (result () Authenticator)}.
Context `{!Postcard StrongUsername, !Postcard StrongClientInfo, !Postcard LoginApproval}.
Context `{!Postcard bool, !Postcard string, !Postcard (result () ())}.
Context `{!RcgenLaws, !AeadLaws, !TlsStackLaws, !PakeLaws, !PostcardLaws SavedKeypair}.
Context `{!PostcardLaws UnverifiedCertificate, !PostcardLaws (EncryptedObject UnverifiedCertificate)}.
Context `{!PostcardLaws (list Z), !PostcardLaws Nonce, !Sendable Nonce, !PostcardLaws PublicKey, !Sendable PublicKey}.
Context `{!Sendable (list Z), !AnswerLaws, !PostcardLaws StrongUsername, !PostcardLaws StrongClientInfo}.
Context `{!PostcardLaws LoginApproval, !PostcardLaws bool, !Sendable bool, !PostcardLaws string}.
Context `{!PostcardLaws (result () ()), !Sendable (result () ())}.
Context {S : Type} (mc ms : Machine) (root_cert : RootCertificate) (server_cert : Certificate).
Implicit Types (s : S) (t : LoginServer).

Lemma solo_draw_temporary {U} m k c (u : U) ic :
  temporary_of m k = Ok c → solo (draw_temporary m) u k ic = Some (Ok c, u, (3 + k)%nat, ic, []).
Proof. unfold draw_temporary, temporary_of. cbn. by intros ->. Qed.

Lemma key_material_meets cc sc s n t m h :
  server_name_ok "todo" = Ok () → tls_usable cc → tls_usable sc →
  temporary_of mc (1 + n) = Ok cc → temporary_of ms (1 + m) = Ok sc →
  ∃ material, rtc pair_step
    (mkPair (client_key_material mc) s n (server_key_material ms) t m [] [] h)
    (mkPair (Finished (Ok material)) s (4 + n) (Finished (Ok material)) t (4 + m) [] [] (1 + h)).
Proof.
  intros Hn Hkc Hks Hcc Hsc.
  destruct (always_sendable (nonce_of mc n)) as [bcn Bcn]. destruct (always_sendable (nonce_of ms m)) as [bsn Bsn].
  destruct (temporary_certificate _ _ _ Hcc) as [Hpc _]. destruct (temporary_certificate _ _ _ Hsc) as [Hps _].
  destruct (tls_meets skip_verification skip_verification cc sc s (4 + n)%nat t (4 + m)%nat h Hn Hkc Hks Hpc Hps
    eq_refl eq_refl) as (exporter & He & Hr).
  specialize (He 32%nat login_label (nonce_combine (nonce_of ms m) (nonce_of mc n))).
  destruct (exporter 32%nat login_label _) as [material| |] eqn:Em; [|done|done].
  exists material. unfold client_key_material, server_key_material, send, receive.
  pair_does client_draws_nonce. pair_does server_draws_nonce. pair_does client_writes. pair_does server_writes.
  pair_does client_reads. pair_does server_reads.
  etransitivity; [apply client_solo, (solo_map_err TempCredentialError _ _ _ _ (Ok cc)), solo_draw_temporary; exact Hcc|].
  etransitivity; [apply server_solo, (solo_map_err LoginTempCredentials _ _ _ _ (Ok sc)), solo_draw_temporary; exact Hsc|].
  cbn [app]. etransitivity; [apply pair_continue, pair_continue; exact Hr|]. cbn [continue map_err].
  unfold derive_key. cbn [tls_stream export_keying_material]. rewrite Em. apply rtc_refl.
Qed.

(** What can be sent of the augmentation: the name and the answer to it. *)
Definition augmentation_sendable : Prop :=
  (∀ name x, ∃ b, sendable (mkStrongUsername name x) b) ∧
  ∀ g x y ps, ∃ b, sendable (mkStrongClientInfo g x y ps) b.

Lemma strong_augmentation_meets self user salt_seed s n t m h :
  augmentation_sendable → argon2_params_ok (m_cost cost_strong) (t_cost cost_strong) (p_cost cost_strong) = true →
  register_alloc_strong salt_seed (username user) (login_password self) strong_hasher =
    Ok (StrongRegistration (username user) (secret_exponent user) (user_params user) (verifier user)) →
  login_username self = username user →
  get_user_by_username (server_user_store t) (username user) = Ok (Some user) →
  ∃ sc cc, augmented sc cc ∧ rtc pair_step
    (mkPair (client_strong_augmentation mc self) s n (server_strong_augmentation ms) t m [] [] h)
    (mkPair (Finished (Ok cc)) s (2 + n) (Finished (Ok (username user, sc))) t (2 + m) [] [] h).
Proof.
  intros [Hbu Hbi] Ha Hreg Hname Hu.
  destruct (strong_registration _ _ _ _ _ Hreg) as (? & ? & ? & [= <- <- <-] & Hps).
  destruct (client_begin_nonce (random mc n)) as [cn Hcn]. destruct (server_begin_nonce (random ms m)) as [sn Hsn].
  assert (lookup_verifier_strong (server_user_store t) (username user) =
    Ok (Some (verifier user, secret_exponent user, user_params user))) as Hl by by (unfold lookup_verifier_strong; rewrite Hu).
  destruct (strong_augmentation _ _ _ _ _ _ _ _ _ _ (random mc (1 + n)) (random ms (1 + m)) _ _ Hreg Hl Hcn Hsn)
    as (c & b & sc & g & x & bs & cc & Hc & Hs & Hcc & Haug).
  destruct (params_of_argon_back _ _ Hps) as (Hne & _).
  destruct (hasher_of_params (E := LoginDispatcherError) _ _ Hps Ha) as [Hcost Hh].
  destruct (always_sendable (mkNonce cn)) as [bcn Bcn]. destruct (always_sendable (mkNonce sn)) as [bsn Bsn].
  destruct (Hbu (username user) b) as [bu Bu]. destruct (Hbi g x bs (user_params user)) as [bi Bi].
  exists sc, cc. split; [done|]. unfold client_strong_augmentation, server_strong_augmentation, send, receive.
  destruct (client_begin (random mc n)) as [c0 cm] eqn:Ec. destruct (server_begin (random ms m)) as [s0 sm] eqn:Es.
  cbn [fst snd] in Hcn, Hsn, Hc, Hs. subst cm sm.
  pair_does client_seeds. rewrite Ec. cbn [nonce_from_client map_err].
  pair_does server_seeds. rewrite Es. cbn [nonce_from_server map_err].
  pair_does client_writes. pair_does server_writes. pair_does client_reads. pair_does server_reads.
  pair_does client_seeds. cbn [to_array]. rewrite Hname, Hc. cbn [strong_username_from_client map_err].
  rewrite returns_bind. pair_does client_writes. pair_does server_reads. pair_does server_gets. pair_does server_seeds.
  cbn [strong_username blinded]. rewrite Hs. cbn [map_err blocking]. rewrite returns_bind.
  cbn [strong_client_info_from_server map_err]. rewrite returns_bind. cbn [strong_hash_params]. rewrite Hne.
  pair_does server_writes. pair_does client_reads. cbn [strong_x_pub blinded_salt strong_hash_params].
  rewrite Hcost. cbn [mbind result_bind map_err]. rewrite Hh. cbn [mbind result_bind].
  fold strong_hasher. rewrite Hcc. apply rtc_refl.
Qed.

Lemma authenticate_meets sc cc material s n t m h :
  augmented sc cc →
  ∃ key, length (key_bytes key) = 32%nat ∧ rtc pair_step
    (mkPair (client_authenticate mc cc material) s n (server_authenticate ms sc material) t m [] [] h)
    (mkPair (Finished (Ok key)) s (1 + n) (Finished (Ok key)) t (1 + m) [] [] h).
Proof.
  intros Haug.
  destruct (exchange_agrees sc cc material (random ms m) (random mc n) Haug)
    as (s1 & c1 & sp & cp & s2 & c2 & ca & sa & key & Hs1 & Hc1 & Hs2 & Hc2 & Hs3 & Hc3 & Hlc & Hls & Hlk).
  destruct (always_sendable (mkPublicKey cp)) as [bcp Bcp]. destruct (always_sendable (mkPublicKey sp)) as [bsp Bsp].
  destruct (always_sendable ca) as [bca Bca]. destruct (answer_sent (mkAuthenticator sa) Hls) as (bsa & Bsa & Rsa).
  assert (sendable (mkAuthenticator ca) bca) as Bca' by exact Bca.
  pose proof (authenticator_back _ _ Hlc (proj1 Bca)) as Rca.
  exists (mkEncryptionKey (key_to_array key)). split; [unfold key_to_array; cbn [key_bytes]; by rewrite length_take, Hlk|].
  unfold client_authenticate, server_authenticate, send, receive.
  pair_does client_seeds. pair_does server_seeds. rewrite Hs1, Hc1.
  cbn [public_key_from_client public_key_from_server map_err]. rewrite !returns_bind.
  pair_does client_writes. pair_does server_writes. pair_does client_reads. pair_does server_reads.
  cbn [public_point]. rewrite Hs2, Hc2. cbn [map_err]. rewrite !returns_bind.
  cbn [authenticator_from_client map_err]. rewrite returns_bind. pair_does client_writes. pair_does server_reads.
  cbn [authenticator_bytes]. rewrite Hs3. cbn [authenticator_from_server map_err]. rewrite returns_bind.
  pair_does server_writes. pair_does client_reads. cbn [map_err]. rewrite returns_bind.
  cbn [authenticator_bytes]. rewrite Hc3. apply rtc_refl.
Qed.

(** The code is checked at the server's time; the approval is to come if it
    is right. *)
Lemma totp_meets code user b s n t m h :
  sendable code b → get_user_by_username (server_user_store t) (username user) = Ok (Some user) →
  rtc pair_step
    (mkPair (client_totp code) s n (server_totp ms (username user)) t m [] [] h)
    (if decide (is_Some (check_totp (totp_secret user) code (get_current_timestamp ms m)))
     then mkPair (script_map_err ReadSuccessError read_object) s n (Finished (Ok user)) t (1 + m) [] [] h
     else mkPair (Finished (Err InvalidTotp)) s n (Finished (Err LoginWrongTotp)) t (1 + m) [] [] h).
Proof.
  intros Hb Hu. destruct (always_sendable true) as [bt Bt]. destruct (always_sendable false) as [bf Bf].
  unfold client_totp, server_totp, send, receive. pair_does client_writes. pair_does server_gets.
  rewrite Hu. cbn [map_err]. rewrite returns_bind. cbn [ok_or]. rewrite returns_bind. pair_does server_reads.
  pair_does server_draws_one. case_decide as Hr.
  - rewrite bool_decide_true by done. cbn [negb]. pair_does server_writes. pair_does client_reads. apply rtc_refl.
  - rewrite bool_decide_false by done. cbn [negb]. pair_does server_writes. pair_does client_reads. apply rtc_refl.
Qed.

(** *** A user with its password *)
Context (self : Login) (user : StoredUser) (root : Credential) (ts : TrustStore) (cc1 cc2 sc1 sc2 : Credential).
Context (t : LoginServer) (n m h : nat).
Context (Hprov : provisioned user (login_password self) root ts) (Hname : login_username self = username user).
Context (Huser : get_user_by_username (server_user_store t) (username user) = Ok (Some user)).
Context (Hargon : argon2_params_ok (m_cost cost_strong) (t_cost cost_strong) (p_cost cost_strong) = true).
Context (Haug : augmentation_sendable) (Hsn : server_name_ok "todo" = Ok ()).
Context (Hcode : ∃ b, sendable (login_totp self) b).
(** The temporary credentials of the two connections. *)
Context (Hcc1 : temporary_of mc (1 + n) = Ok cc1) (Hsc1 : temporary_of ms (1 + m) = Ok sc1).
Context (Hsealed : ∀ key, length (key_bytes key) = 32%nat → ∃ bc bs,
  sends_temporary mc (7 + n) key cc2 bc ∧ sends_temporary ms (7 + m) key sc2 bs).
Context (Husable : Forall tls_usable [cc1; cc2; sc1; sc2]).
Context (Hvalid : Forall (λ c, check_validity_at (credential_certificate c) (handshake_time (1 + h)) = Ok ()) [cc2; sc2]).

Definition code_is_right : Prop :=
  is_Some (check_totp (totp_secret user) (login_totp self) (get_current_timestamp ms (11 + m))).

(** Up to the code. *)
Lemma login_starts s (f : LoginApproval → script S LoginDispatcherError LoginSuccess)
    (g : StoredUser → script LoginServer LoginFailure ()) :
  rtc pair_step
    (mkPair (key_material ← client_key_material mc;
             client ← client_strong_augmentation mc self;
             key ← client_authenticate mc client key_material;
             _ ← script_map_err LoginTlsClientError (client_preshared mc key);
             success ← client_totp (login_totp self); f success) s n
            (key_material ← server_key_material ms;
             '(username, pake_server) ← server_strong_augmentation ms;
             key ← server_authenticate ms pake_server key_material;
             _ ← script_map_err LoginTls (server_preshared ms key);
             user ← server_totp ms username; g user) t m [] [] h)
    (if decide code_is_right
     then mkPair (success ← script_map_err ReadSuccessError read_object; f success) s (11 + n) (g user) t (12 + m) [] [] (2 + h)
     else mkPair (Finished (Err InvalidTotp)) s (11 + n) (Finished (Err LoginWrongTotp)) t (12 + m) [] [] (2 + h)).
Proof.
  pose proof Husable as U. rewrite !Forall_cons in U. destruct U as (U1 & U2 & U3 & U & _).
  pose proof Hvalid as V. rewrite !Forall_cons in V. destruct V as (V1 & V2 & _).
  destruct (registered_with _ _ _ _ Hprov) as [r Hreg]. destruct Hcode as [bcode Bcode].
  destruct (key_material_meets cc1 sc1 s n t m h Hsn U1 U3 Hcc1 Hsc1) as (material & Hr1).
  destruct (strong_augmentation_meets self user r s (4 + n) t (4 + m) (1 + h) Haug Hargon Hreg Hname Huser)
    as (sp & cp & Ha & Hr2).
  destruct (authenticate_meets sp cp material s (6 + n) t (6 + m) (1 + h) Ha) as (key & Hlk & Hr3).
  destruct (Hsealed key Hlk) as (bc & bs & Hbc & Hbs).
  destruct (preshared_run mc ms key cc2 sc2 bc bs s (7 + n) t (7 + m) (1 + h) Hsn U2 U Hbc Hbs V1 V2)
    as (exporter & _ & Hr4).
  pose proof (totp_meets (login_totp self) user bcode s (11 + n) t (11 + m) (2 + h) Bcode Huser) as Hr5.
  etransitivity; [apply pair_continue; exact Hr1|]. cbn [continue].
  etransitivity; [apply pair_continue; exact Hr2|]. cbn [continue].
  etransitivity; [apply pair_continue; exact Hr3|]. cbn [continue].
  etransitivity; [apply pair_continue, pair_continue; exact Hr4|]. cbn [continue map_err].
  unfold code_is_right. case_decide.
  - etransitivity; [apply pair_continue; exact Hr5|]. apply rtc_refl.
  - etransitivity; [apply pair_continue; exact Hr5|]. apply rtc_refl.
Qed.

(** *** The rest of a login *)
Context (device : Credential) (sessions : Sessions.SessionStore).
Context (Hroot : credential_certificate root = as_certificate root_cert) (Hrt : certificate_type root_cert = Root).
Context (Hok : credential_ok root).
Context (Hdevice : create_user_device_credential root (generated mc (11 + n)) (clock mc (12 + n)) (clock mc (13 + n)) = Ok device).
Context (Hdt : certificate_type (credential_certificate device) = UserSession).
Context (Hdi : issuer (credential_certificate device) = spki_hash root_cert).
Context (Hdd : display_spki (spki_hash (credential_certificate device)) ≠ display_spki (spki_hash root_cert)).
Context (Hdv : verify_signature (credential_certificate device) root_cert (get_current_timestamp ms (12 + m)) =
  Ok (credential_certificate device)).
Context (Hadd : Sessions.add_session (server_session_store t) (credential_certificate device) = Ok sessions).
Context (Hserver : verify_signature server_cert root_cert (get_current_timestamp mc (14 + n)) = Ok server_cert).
Context (Himport : ts_import (ts_export ts) = Ok ts).
Context (Happroval : ∃ b, sendable (approve root_cert server_cert user) b).
Context (Hcert : ∃ b, sendable (as_unverified (credential_certificate device)) b).

Lemma approval_meets s :
  rtc pair_step
    (mkPair (success ← script_map_err ReadSuccessError read_object;
             '(key, device_credential) ← decrypt_approval mc success (login_password self);
             _ ← submit_session device_credential;
             check_approval mc success key device_credential) s (11 + n)
       (let success := approve root_cert server_cert user in
        let user_cert := encrypted_certificate (encrypted_user_credentials success) in
        _ ← send success;
        session_certificate ← receive (U := UnverifiedCertificate);
        certificate ← check_session_certificate ms root_cert user_cert session_certificate;
        store_session certificate) t (12 + m) [] [] (2 + h))
    (mkPair (Finished (Ok (mkLoginSuccess device root_cert server_cert ts))) s (15 + n)
       (Finished (Ok ())) (mkLoginServer (server_trust_store t) (server_user_store t) sessions) (13 + m) [] [] (2 + h)).
Proof.
  destruct (sealed_with _ _ _ _ Hprov) as (key & r1 & r2 & Hkey & Hexp & Hdig).
  pose proof (exported_from _ _ _ _ Hprov) as Hts.
  destruct Happroval as [ba Ba]. destruct Hcert as [bd Bd]. destruct (always_sendable (Ok () : result () ())) as [bo Bo].
  assert (credential_decrypt (encrypted_credential user) key = Ok root) as Hdec by by eapply decrypt_exported.
  assert (encrypted_certificate (encrypted_credential user) = as_unverified (as_certificate root_cert)) as Huc.
  { rewrite <-Hroot. unfold credential_export in Hexp. by apply bind_Ok in Hexp as (e & _ & [= <-]). }
  cbn zeta. cbn [encrypted_user_credentials approve]. rewrite Huc. unfold send, receive.
  pair_does server_writes. pair_does client_reads. unfold decrypt_approval.
  cbn [approval_key_params encrypted_user_credentials approve]. rewrite Hkey. cbn [map_err].
  etransitivity; [eapply client_solo|].
  { rewrite returns_bind, Hdec. cbn [map_err]. rewrite returns_bind. cbn. cbn in Hdevice. rewrite Hdevice. reflexivity. }
  cbn [app]. etransitivity.
  { eapply client_continue. unfold submit_session. pair_does client_writes. pair_does server_reads.
    etransitivity; [apply server_solo; by apply root_session_accepted; rewrite ?Hdt|]. cbn [app].
    unfold store_session, send. pair_does server_gets. rewrite Hadd. pair_does server_puts.
    cbn [map_err mbind result_bind]. pair_does server_tries_write. pair_does client_reads. apply rtc_refl. }
  cbn [continue]. unfold check_approval.
  cbn [approval_root_cert approval_server_cert approval_trust_store approval_digest approve].
  unfold use_as_root. rewrite bool_decide_true by done. cbn [map_err]. rewrite returns_bind.
  pair_does client_draws_one. assert (mkRoot (mkCertificate (as_unverified (as_certificate root_cert))) = root_cert) as ->
    by by destruct root_cert as [[]].
  change (get_current_timestamp mc _) with (get_current_timestamp mc (14 + n)). rewrite Hserver. cbn [map_err].
  rewrite returns_bind, Hts, Himport. cbn [map_err]. rewrite returns_bind.
  rewrite (decrypt_encrypt_object _ _ _ _ Hdig). cbn [map_err]. rewrite returns_bind.
  rewrite bool_decide_false by naive_solver. apply rtc_refl.
Qed.

(** C9: Who has the password and a right code logs in. For a user that was
    added with a password, client and server both come to an end whatever the
    interleaving. With a code that is right at the server's time the client
    has a credential for this device, made with the user's, the trust store
    the user was stored with, and the certificates of the root and the server;
    and the server has a session for exactly that credential. With another
    code the client is told so, and nothing is stored. *)
Theorem login_meets s :
  inevitable
    (mkPair (login_dispatch mc self) s n (login_handle ms root_cert server_cert) t m [] [] h)
    (if decide code_is_right
     then mkPair (Finished (Ok (mkLoginSuccess device root_cert server_cert ts))) s (15 + n) (Finished (Ok ()))
            (mkLoginServer (server_trust_store t) (server_user_store t) sessions) (13 + m) [] [] (2 + h)
     else mkPair (Finished (Err InvalidTotp)) s (11 + n) (Finished (Err LoginWrongTotp)) t (12 + m) [] [] (2 + h)).
Proof.
  apply rtc_inevitable; [|by case_decide; apply finished_nf]. unfold login_dispatch, login_handle.
  etransitivity; [apply login_starts|]. case_decide; [|apply rtc_refl]. apply approval_meets.
Qed.
End meeting.

(** ** Worked example *)
#[local] Existing Instance toy_x509.
#[local] Existing Instance toy_crypto.
#[local] Existing Instance toy_rcgen.
#[local] Existing Instance toy_aead.
#[local] Existing Instance toy_argon.
#[local] Existing Instance toy_tls.
#[local] Existing Instance toy_login_types.
#[local] Existing Instance toy_pake_types.
#[local] Existing Instance toy_pake.
#[local] Existing Instance toy_totp.
#[local] Existing Instance toy_disks.
#[local] Existing Instance postcard_keypair.
#[local] Existing Instance postcard_certificate.
#[local] Existing Instance toy_postcard.
#[local] Existing Instance toy_postcard_laws.
#[local] Existing Instance toy_sendable.
#[local] Existing Instance toy_answer_laws.
#[local] Existing Instance public_key_countable.
#[local] Existing Instance answer_countable.
#[local] Existing Instances postcard_keypair_laws postcard_certificate_laws toy_pake_laws toy_tls_laws toy_aead_laws
  toy_rcgen_laws.

Definition sealed_digest : EncryptedObject ChainDigest :=
  match encrypt_object (replicate 12 9) (ts_digest toy_store1) toy_user_key with Ok e => e | _ => no_data end.
Definition provisioned_user : StoredUser :=
  mkStoredUser toy_sealed_credential (mkArgonParams cost_basic (replicate 29 7)) ([] : Totp) [65] ([8] : Scalar)
    (Some strong_hasher : ParamsString) ([1; 2; 3; 8] : RistrettoPoint)
    (mkExportedMlsStore no_data) no_data (ts_export toy_store1) sealed_digest.

Lemma toy_provisioned : provisioned provisioned_user [1; 2; 3] root_credential toy_store1.
Proof.
  split; [by exists [8]| |done]. exists toy_user_key, (replicate 12 9), (replicate 12 9). split_and!; reflexivity.
Qed.

(** The server knows this user, and approves it with one message. *)
#[local] Instance postcard_provisioned : Postcard StoredUser :=
  {| to_stdvec u := Ok []; from_bytes b := Ok provisioned_user |}.
Definition toy_server_certificate : Certificate := mkCertificate (toy_certificate Server 5 1 500).
Definition toy_provisioned_approval : LoginApproval := approve toy_root_certificate toy_server_certificate provisioned_user.

#[local] Instance approval_eq_dec : EqDecision LoginApproval.
Proof. solve_decision. Defined.
#[local] Instance postcard_toy_approval : Postcard LoginApproval := {|
  to_stdvec a := if bool_decide (a = toy_provisioned_approval) then Ok [] else Err "approval"%string;
  from_bytes b := Ok toy_provisioned_approval;
|}.
#[local] Instance postcard_toy_approval_laws : PostcardLaws LoginApproval.
Proof. split. intros a b. cbn. case_bool_decide as E; [|done]. intros [= <-]. by rewrite E. Qed.

#[local] Instance strong_username_eq_dec : EqDecision StrongUsername.
Proof. intros [u x] [v y]. destruct (decide (u = v)), (decide ((x : list Z) = y)); solve [left; congruence|right; congruence]. Defined.
#[local] Program Instance strong_username_countable : Countable StrongUsername :=
  inj_countable' (λ u, (strong_username u, blinded u : list Z)) (λ x, mkStrongUsername x.1 (x.2 : RistrettoPoint)) _.
Next Obligation. by intros []. Qed.

Definition strong_fields (i : StrongClientInfo) : string * list Z * list Z * option (Z * Z * Z) :=
  (strong_group i, strong_x_pub i, blinded_salt i, strong_hash_params i).
Definition strong_of_fields (f : string * list Z * list Z * option (Z * Z * Z)) : StrongClientInfo :=
  let '(g, x, s, p) := f in mkStrongClientInfo g x s p.
#[local] Instance strong_info_eq_dec : EqDecision StrongClientInfo.
Proof.
  refine (λ x y, cast_if (decide (strong_fields x = strong_fields y))); [|congruence].
  abstract (destruct x, y; cbn in *; unfold strong_fields in *; cbn in *; congruence).
Defined.
#[local] Program Instance strong_info_countable : Countable StrongClientInfo :=
  inj_countable' strong_fields strong_of_fields _.
Next Obligation. by intros []. Qed.

#[local] Instance done_countable : Countable (result () ()).
Proof.
  refine (inj_countable' (λ r : result () (), match r with Ok _ => Some true | Err _ => Some false | Panic => None end)
    (λ x, match x with Some true => Ok () | Some false => Err () | None => Panic end) _).
  abstract (by intros [[]|[]|]).
Defined.

Definition toy_device : Credential :=
  mkCredential (toy_keypair 21) (mkCertificate (toy_certificate UserSession 21 1 500)).
Definition toy_device_sessions : Sessions.SessionStore :=
  match Sessions.add_session (Sessions.mkSessionStore []) (credential_certificate toy_device) with
  | Ok sessions => sessions
  | _ => Sessions.mkSessionStore []
  end.

Lemma toy_augmentation_sendable : augmentation_sendable.
Proof. split; intros; apply always_sendable. Qed.

Lemma toy_sealed_connection key :
  length (key_bytes key) = 32%nat → ∃ bc bs,
    sends_temporary toy_alice 7 key (toy_temporary 17) bc ∧ sends_temporary toy_bob 7 key (toy_temporary 57) bs.
Proof.
  intros Hk. destruct (toy_sends_any 10 7 key) as [bc Hbc]; [reflexivity|reflexivity|done|].
  destruct (toy_sends_any 50 7 key) as [bs Hbs]; [reflexivity|reflexivity|done|]. by exists bc, bs.
Qed.

Lemma toy_root_credential_ok : credential_ok root_credential.
Proof. split_and!; reflexivity. Qed.

Lemma toy_device_is_not_root :
  display_spki (spki_hash (credential_certificate toy_device)) ≠ display_spki (spki_hash toy_root_certificate).
Proof. discriminate. Qed.

Lemma login_meets_witness :
  inevitable
    (mkPair (login_dispatch toy_alice (mkLogin [65] [1; 2; 3] "123456")) () 0
       (login_handle toy_bob toy_root_certificate toy_server_certificate) (toy_login_server (Sessions.mkSessionStore [])) 0
       [] [] 0)
    (mkPair (Finished (Ok (mkLoginSuccess toy_device toy_root_certificate toy_server_certificate toy_store1))) () 15
       (Finished (Ok ())) (toy_login_server toy_device_sessions) 13 [] [] 2).
Proof.
  pose proof (login_meets (S := ()) (TS := toy_tls) (H1 := toy_argon) toy_alice toy_bob toy_root_certificate
    toy_server_certificate (mkLogin [65] [1; 2; 3] "123456") provisioned_user root_credential toy_store1
    (toy_temporary 11) (toy_temporary 17) (toy_temporary 51) (toy_temporary 57)
    (toy_login_server (Sessions.mkSessionStore [])) 0 0 0 toy_provisioned eq_refl eq_refl eq_refl
    toy_augmentation_sendable eq_refl (always_sendable "123456"%string) eq_refl eq_refl toy_sealed_connection
    ltac:(by repeat constructor) ltac:(by repeat constructor) toy_device toy_device_sessions
    eq_refl eq_refl toy_root_credential_ok eq_refl eq_refl eq_refl toy_device_is_not_root eq_refl eq_refl eq_refl eq_refl
    ltac:(exists []; by split) ltac:(exists (der (credential_certificate toy_device)); by split) ()) as E.
  rewrite decide_True in E by by exists 500. exact E.
Defined.
