(* ===== verification/Init.v ===== *)
(** * The initialisation of a server ([svalin/src/shared/commands/init.rs])

    The first client makes the root credential, the certificate of the server
    and the trust store; the server stores the first user, who is the root, and
    takes over the rest from the request. *)
From S2P Require Import Prelude.
From S2P Require Import External.
From S2P Require Import Provider.
From S2P Require Import Spki.
From S2P Require Import Toy.
From S2P Require Import Certificate.
From S2P Require Import CertChain.
From S2P Require Import Encrypt.
From S2P Require Import Credential.
From S2P Require Import SecureChain.
From S2P Require Import TrustStore.
From S2P Require Import ServerStore.
From S2P Require Import ClientStore.
From S2P Require Import UserStore.
From S2P Require Import Verifiers.
From S2P Require Import Transport.
From S2P Require Import Script.
From S2P Require Import TlsTransport.
From S2P Require Import Pake.
From S2P Require Import Login.
From S2P Require Import LoginMeets.
From stdpp Require Import relations.
From stdpp Require Import options.

#[local] Open Scope Z_scope.

Section init.
Context `{X509, CR : Crypto, RG : !Rcgen, Aead, !Postcard SavedKeypair, Argon2, LT : LoginTypes, Sysinfo}.
Context `{!Postcard StoredUser, !PakeTypes, PK : !Pake}.

Record InitRequest := mkInitRequest {
  request_server_cert : UnverifiedCertificate;
  request_credential : EncryptedCredential;
  request_key_params : ArgonParams;
  request_totp_secret : Totp;
  request_username : list Z;
  request_secret_exponent : Scalar;
  request_params : ParamsString;
  request_verifier : RistrettoPoint;
  request_mls_store : ExportedMlsStore;
  request_persistent_data : EncryptedObject ClientStore.State;
  request_trust_store : ExportedStore;
  request_trust_store_digest : EncryptedObject ChainDigest;
}.

Record ServerInitSuccess := mkServerInitSuccess {
  init_credential : Credential;
  init_trust_store : TrustStore;
}.

(** The user store, whether the channel is still in its mutex, and what was
    sent over it. *)
Record InitServer := mkInitServer {
  init_user_store : UserStore;
  init_channel : bool;
  announced : option ServerInitSuccess;
}.

Inductive InitFailure :=
  | AlreadyInitialized
  | InitWrite (e : ObjectWriterError)
  | InitRead (e : ObjectReaderError)
  | InitUpgrade (e : CreateCredentialsError)
  | InitImport (e : ImportError InnerImportErr)
  | RootMismatch
  | InitUserStore (e : UserStoreError)
  | ChannelNotFound.

Context `{!Postcard ExportedPublicKey, !Postcard InitRequest, !Postcard (result () ()), !Postcard ()}.

(** ** The server *)
Section handler.
Context (m : Machine).

Abbreviation init_script := (script InitServer InitFailure).

Definition user_of_request (r : InitRequest) : StoredUser :=
  mkStoredUser (request_credential r) (request_key_params r) (request_totp_secret r) (request_username r)
    (request_secret_exponent r) (request_params r) (request_verifier r) (request_mls_store r)
    (request_persistent_data r) (request_trust_store r) (request_trust_store_digest r).

(** Everything up to the new user. *)
Definition accept_request : init_script (Credential * TrustStore) :=
  g ← draw;
  keypair ← returns (keypair_generate (generated m g));
  public_key ← returns (export_public_key keypair);
  _ ← script_map_err InitWrite (write_object public_key);
  init_request ← script_map_err InitRead (read_object (U := InitRequest));
  my_credential ← returns (map_err InitUpgrade (upgrade keypair (request_server_cert init_request)));
  trust_store ← returns (map_err InitImport (ts_import (request_trust_store init_request)));
  if negb (cert_eqb (ts_root trust_store) (encrypted_certificate (request_credential init_request)))
  then returns (Err RootMismatch)
  else
    server ← get;
    users ← returns (map_err InitUserStore (add_root_user (init_user_store server) (user_of_request init_request)));
    _ ← put (mkInitServer users (init_channel server) (announced server));
    mret (my_credential, trust_store).

(** [InitHandler::handle], which holds the channel's mutex throughout. *)
Definition init_handle : init_script () :=
  server ← get;
  if negb (init_channel server) then returns (Err AlreadyInitialized)
  else
    '(my_credential, trust_store) ← accept_request;
    server ← get;
    if negb (init_channel server) then returns (Err ChannelNotFound)
    else
      _ ← put (mkInitServer (init_user_store server) false (announced server));
      _ ← script_map_err InitWrite (write_object (Ok () : result () ()));
      _ ← attempt (read_object (U := ()));
      server ← get;
      put (mkInitServer (init_user_store server) (init_channel server)
             (Some (mkServerInitSuccess my_credential trust_store))).

(** *** What a run leaves behind *)
Implicit Types w : World InitServer.

(** The request was accepted: the user it describes is new and first, its
    credential's certificate is the root of its trust store, and the server's
    certificate goes with the key the server generated. *)
Definition accepted (users users' : UserStore) (request : InitRequest) (success : ServerInitSuccess) : Prop :=
  add_root_user users (user_of_request request) = Ok users' ∧
  ts_import (request_trust_store request) = Ok (init_trust_store success) ∧
  der (ts_root (init_trust_store success)) = der (encrypted_certificate (request_credential request)) ∧
  ∃ keypair, upgrade keypair (request_server_cert request) = Ok (init_credential success).

Lemma accept_request_inv w w' r :
  run accept_request w = (w', r) →
  (local w' = local w ∧ is_ok r = false) ∨
  ∃ users' request cr ts, r = Ok (cr, ts) ∧
    accepted (init_user_store (local w)) users' request (mkServerInitSuccess cr ts) ∧
    local w' = mkInitServer users' (init_channel (local w)) (announced (local w)).
Proof.
  intros Hr. unfold accept_request in Hr.
  apply quiet_step in Hr as [?|(w1 & g & _ & L1 & Hr)]; [by left| |stay_quiet].
  apply quiet_step in Hr as [[]|(w2 & keypair & _ & L2 & Hr)]; [left; split; congruence| |stay_quiet].
  apply quiet_step in Hr as [[]|(w3 & pk & _ & L3 & Hr)]; [left; split; congruence| |stay_quiet].
  apply quiet_step in Hr as [[]|(w4 & u & _ & L4 & Hr)]; [left; split; congruence| |stay_quiet].
  apply quiet_step in Hr as [[]|(w5 & request & _ & L5 & Hr)]; [left; split; congruence| |stay_quiet].
  apply quiet_step in Hr as [[]|(w6 & cr & [= _ Hcr%map_err_Ok] & L6 & Hr)]; [left; split; congruence| |stay_quiet].
  apply quiet_step in Hr as [[]|(w7 & ts & [= _ Hts%map_err_Ok] & L7 & Hr)]; [left; split; congruence| |stay_quiet].
  assert (local w7 = local w) as L by congruence.
  unfold cert_eqb in Hr. case_bool_decide as Hd; cbn [negb] in Hr; [|left; injection Hr as <- <-; by split].
  apply quiet_step in Hr as [[]|(w8 & server & [= -> <-] & L8 & Hr)]; [left; split; congruence| |stay_quiet].
  apply quiet_step in Hr as [[]|(w9 & users' & [= -> Hu%map_err_Ok] & L9 & Hr)]; [left; split; congruence| |stay_quiet].
  right. injection Hr as <- <-. cbn. rewrite L in *. exists users', request, cr, ts.
  split; [done|]. split; [|done]. split_and!; [done|done|done|eauto].
Qed.

Lemma init_runs w w' r :
  run init_handle w = (w', r) →
  if init_channel (local w) then
    (local w' = local w ∧ is_ok r = false) ∨
    ∃ users' request success, accepted (init_user_store (local w)) users' request success ∧
      init_user_store (local w') = users' ∧ init_channel (local w') = false ∧
      ((r = Ok () ∧ announced (local w') = Some success) ∨
       (is_ok r = false ∧ announced (local w') = announced (local w)))
  else local w' = local w ∧ r = Err AlreadyInitialized.
Proof.
  intros Hr. unfold init_handle in Hr. rewrite (run_bind_step _ _ _ _ _ (run_get w)) in Hr.
  destruct (init_channel (local w)) eqn:Hc; cbn [negb] in Hr; [|by injection Hr as <- <-].
  apply run_bind_cases in Hr as [(w1 & [cr ts] & Ha & Hr)|(r' & Ha & Hr' & Hr)].
  - apply accept_request_inv in Ha as [[_ Ha]|(users' & request & ? & ? & [= <- <-] & Hacc & L1)]; [done|].
    right. exists users', request, (mkServerInitSuccess cr ts). split; [done|].
    rewrite (run_bind_step _ _ _ _ _ (run_get w1)), L1, Hc in Hr. cbn [negb init_channel init_user_store announced] in Hr.
    rewrite (run_bind_step _ _ _ _ _ (run_put _ w1)) in Hr.
    apply quiet_step in Hr as [[E Hr]|(w2 & u & _ & L2 & Hr)]; [| |stay_quiet].
    { rewrite E. cbn. split_and!; [done|done|]. by right. }
    apply quiet_step in Hr as [[E Hr]|(w3 & u' & _ & L3 & Hr)]; [| |stay_quiet].
    { rewrite E, L2. cbn. split_and!; [done|done|]. by right. }
    rewrite (run_bind_step _ _ _ _ _ (run_get w3)), L3, L2 in Hr. injection Hr as <- <-. cbn.
    split_and!; [done|done|]. by left.
  - apply accept_request_inv in Ha as [[E _]|(users' & request & ? & ? & -> & _)]; [|done]. by left.
Qed.

(** The server is initialised at most once, and by an accepted request.
    While the channel is there, a run of the handler either fails and leaves
    everything as it was, or stores the user of a request that was accepted,
    takes the channel, and announces the credential and the trust store of
    that request, unless its last message could not be written: then it fails
    and nothing is announced. Without the channel every run fails and
    changes nothing. *)
Theorem init_runs_once w w' r :
  run init_handle w = (w', r) →
  if init_channel (local w) then
    (local w' = local w ∧ is_ok r = false) ∨
    ∃ users' request success, accepted (init_user_store (local w)) users' request success ∧
      init_user_store (local w') = users' ∧ init_channel (local w') = false ∧
      ((r = Ok () ∧ announced (local w') = Some success) ∨
       (is_ok r = false ∧ announced (local w') = announced (local w)))
  else local w' = local w ∧ r = Err AlreadyInitialized.
Proof. apply init_runs. Qed.

(** A store with a user refuses every other first user. *)
Lemma stored_user_refused store store' user other :
  add_root_user store user = Ok store' → add_root_user store' other = Err RootUserAlreadyExists.
Proof.
  unfold add_root_user. intros Ha. destruct (_ >? 0); [done|]. case_bool_decide; [done|].
  apply bind_Ok in Ha as (data & _ & Ha). destruct (existsb _ _); [done|]. injection Ha as <-. cbn [users].
  rewrite length_app. cbn [length]. rewrite (proj2 (Z.gtb_lt _ _)) by lia. done.
Qed.

(** The first user is found under its name. *)
Lemma added_user_found `{!PostcardLaws StoredUser} store store' user :
  add_root_user store user = Ok store' → get_user_by_username store' (username user) = Ok (Some user).
Proof.
  unfold add_root_user. intros Ha. destruct (_ >? 0) eqn:Hn; [done|]. case_bool_decide; [done|].
  apply bind_Ok in Ha as (data & Hd%map_err_Ok & Ha). destruct (existsb _ _); [done|]. injection Ha as <-.
  destruct store as [[|]]; [|cbn in Hn; done]. unfold get_user_by_username, find_user. cbn.
  rewrite decide_True by done. cbn. by rewrite (from_to_stdvec _ _ Hd).
Qed.

(** When the last message is lost the server is stuck: the user is stored,
    nothing was announced, and not even a new handler with a new channel can
    initialise it, whatever it is sent. *)
Lemma init_reply_lost w w' r w1 w1' r1 :
  run init_handle w = (w', r) → local w' ≠ local w → is_ok r = false →
  init_user_store (local w1) = init_user_store (local w') →
  run init_handle w1 = (w1', r1) → is_ok r1 = false ∧ local w1' = local w1.
Proof.
  intros Hr Hne Hf Hu Hr1. apply init_runs in Hr. destruct (init_channel (local w)); [|by destruct Hr].
  destruct Hr as [[? _]|(users' & request & success & (Hadd & _) & Hu' & _)]; [done|].
  apply init_runs in Hr1. destruct (init_channel (local w1)); [|by destruct Hr1 as [? ->]].
  destruct Hr1 as [[? ?]|(users2 & request2 & success2 & (Hadd2 & _) & _)]; [done|].
  rewrite Hu, Hu', (stored_user_refused _ _ _ _ Hadd) in Hadd2. done.
Qed.
End handler.

(** ** The client *)
Inductive InitError :=
  | InitUseAsRootError (e : UseAsRootError)
  | ReadRequestError (e : ObjectReaderError)
  | InitCreateCertError (e : CreateCertificateError)
  | WriteServerCertError (e : ObjectWriterError)
  | InitReadSuccessError (e : ObjectReaderError)
  | WriteConfirmError (e : ObjectWriterError)
  | InitAucPaceError (e : ExtError)
  | InitEncryptError (e : EncryptError)
  | Unspecified (e : DeriveKeyError)
  | ServerError
  | InitCreateBlockError (e : CreateBlockError StoreError).

Record ClientInitSuccess := mkClientInitSuccess {
  root_credential_made : Credential;
  client_trust_store : TrustStore;
}.

Record Init := mkInit {
  init_root : Credential;
  init_username : list Z;
  init_password : list Z;
  init_totp : Totp;
}.

Section dispatch.
Context {S : Type} (m : Machine).
Context `{!Postcard ClientStore.State, !Postcard (gmap (list Z) (list Z)), !Postcard ChainDigest}.

Abbreviation init_client := (script S InitError).

(** [Init::new]. *)
Definition init_new (totp : Totp) (username password : list Z) : script S CreateCredentialsError Init :=
  g ← draw;
  t1 ← draw;
  t2 ← draw;
  root ← returns (generate_root (default_params m) (generated m g) (clock m t1) (clock m t2));
  mret (mkInit root username password totp).

(** "create aucpace login info"; any other message is unreachable. *)
Definition login_info (self : Init) : init_client (Scalar * ParamsString * RistrettoPoint) :=
  hasher ← returns (get_argon_hasher cost_strong);
  r ← seed m;
  registration ← returns (map_err InitAucPaceError
    (register_alloc_strong r (init_username self) (init_password self) hasher));
  match registration with
  | StrongRegistration _ secret_exponent params verifier => mret (secret_exponent, params, verifier)
  | _ => returns Panic
  end.

(** An encryption draws its nonce. *)
Definition sealed {T} `{Postcard T} (x : T) (key : EncryptionKey) : init_client (EncryptedObject T) :=
  r ← seed m;
  returns (map_err InitEncryptError (encrypt_object r x key)).

(** The request: everything the server keeps of the user, under the key of
    the password where it is not for the server to read. *)
Definition make_request (self : Init) (server_cert : Certificate) (trust_store : TrustStore) :
    init_client (InitRequest * TrustStore) :=
  '(secret_exponent, params, verifier) ← login_info self;
  salt ← seed m;
  let credential_key_params := params_strong salt in
  key ← returns (map_err Unspecified (derive_encryption_key credential_key_params (init_password self)));
  persistent_data ← sealed ClientStore.empty key;
  let '(arcs, (_, export_handle)) := new_memory [] in
  r ← seed m;
  user_mls_store ← returns (map_err InitEncryptError (Provider.export export_handle r key arcs));
  r ← seed m;
  encrypted_credential ← returns (map_err InitEncryptError (credential_export r (init_root self) key));
  t ← draw;
  let '(trust_store, block) := ts_add trust_store server_cert (init_root self) (get_current_timestamp m t) in
  block ← returns (map_err InitCreateBlockError block);
  trust_store ← returns (ts_apply trust_store block);
  trust_store_digest ← sealed (ts_digest trust_store) key;
  mret (mkInitRequest (as_unverified server_cert) encrypted_credential credential_key_params (init_totp self)
          (init_username self) secret_exponent params verifier user_mls_store persistent_data
          (ts_export trust_store) trust_store_digest, trust_store).

(** [Init::dispatch]. *)
Definition init_dispatch (self : Init) : init_client ClientInitSuccess :=
  public_key ← script_map_err ReadRequestError (read_object (U := ExportedPublicKey));
  t1 ← draw;
  t2 ← draw;
  server_cert ← returns (map_err InitCreateCertError
    (create_server_certificate_for_key (init_root self) public_key (clock m t1) (clock m t2)));
  root ← returns (map_err InitUseAsRootError (use_as_root (as_unverified (credential_certificate (init_root self)))));
  let trust_store := ts_initialize root in
  '(init_request, trust_store) ← make_request self server_cert trust_store;
  _ ← script_map_err WriteServerCertError (write_object init_request);
  server_result ← script_map_err InitReadSuccessError (read_object (U := result () ()));
  _ ← script_map_err WriteConfirmError (write_object ());
  match server_result with
  | Ok _ => mret (mkClientInitSuccess (init_root self) trust_store)
  | Err _ | Panic => returns (Err ServerError)
  end.
End dispatch.

(** ** An initialisation that goes well *)
#[local] Set Default Proof Using "All".
Section meeting.
Context {S : Type} `{TS : TlsStack} (mc ms : Machine).
Context `{!Postcard ClientStore.State, !Postcard (gmap (list Z) (list Z)), !Postcard ChainDigest}.
Context `{!PostcardLaws StoredUser, !PostcardLaws InitRequest, !PostcardLaws (result () ())}.
Context `{!PostcardLaws ExportedPublicKey, !PostcardLaws ()}.
Implicit Types (s : S) (t : InitServer).

(** What the two sides make on the way, from the [n]-th draw of the client
    and the [m]-th of the server on. *)
Context (self : Init) (t : InitServer) (n m h : nat).
Context (keypair : KeyPair) (pk : ExportedPublicKey) (server_cert : Certificate) (root : RootCertificate).
Context (e : Scalar) (ps : ParamsString) (v : RistrettoPoint) (key : EncryptionKey) (persistent : EncryptedObject ClientStore.State).
Context (mls : ExportedMlsStore) (encrypted : EncryptedCredential) (before ts : TrustStore).
Context (block : CheckedBlock StoreTransaction) (digest : EncryptedObject ChainDigest).
Context (cr : Credential) (users' : UserStore).

Definition made_request : InitRequest :=
  mkInitRequest (as_unverified server_cert) encrypted (params_strong (random mc (3 + n))) (init_totp self)
    (init_username self) e ps v mls persistent (ts_export ts) digest.

Context (Hkey : keypair_generate (E := InitFailure) (generated ms m) = Ok keypair).
Context (Hpk : export_public_key (E := InitFailure) keypair = Ok pk).
Context (Hcert : create_server_certificate_for_key (init_root self) pk (clock mc n) (clock mc (1 + n)) = Ok server_cert).
Context (Hroot : use_as_root (as_unverified (credential_certificate (init_root self))) = Ok root).
Context (Hargon : argon2_params_ok (m_cost cost_strong) (t_cost cost_strong) (p_cost cost_strong) = true).
Context (Hreg : register_alloc_strong (random mc (2 + n)) (init_username self) (init_password self) strong_hasher =
  Ok (StrongRegistration (init_username self) e ps v)).
Context (Hderive : derive_encryption_key (params_strong (random mc (3 + n))) (init_password self) = Ok key).
Context (Hpersistent : encrypt_object (random mc (4 + n)) ClientStore.empty key = Ok persistent).
Context (Hmls : Provider.export (mkExportHandle 0) (random mc (5 + n)) key [mkMemoryStorage ∅] = Ok mls).
Context (Hexport : credential_export (random mc (6 + n)) (init_root self) key = Ok encrypted).
Context (Hadd : ts_add (ts_initialize root) server_cert (init_root self) (get_current_timestamp mc (7 + n)) =
  (before, Ok block)).
Context (Happly : ts_apply (E := InitError) before block = Ok ts).
Context (Hdigest : encrypt_object (random mc (8 + n)) (ts_digest ts) key = Ok digest).
Context (Himport : ts_import (ts_export ts) = Ok ts) (Hts : ts_root ts = root).
Context (Hupgrade : upgrade keypair (as_unverified server_cert) = Ok cr).
Context (Hchannel : init_channel t = true).
Context (Husers : add_root_user (init_user_store t) (user_of_request made_request) = Ok users').
Context (Hsend : ∃ b, sendable made_request b).
Context (Hpublic : ∃ b, sendable pk b) (Hunit : ∃ b, sendable () b) (Hanswer : ∃ b, sendable (Ok () : result () ()) b).

(** The certificate of the root is that of its exported credential. *)
Lemma exported_certificate :
  encrypted_certificate encrypted = as_unverified (credential_certificate (init_root self)).
Proof. unfold credential_export in Hexport. by apply bind_Ok in Hexport as (x & _ & [= <-]). Qed.

Lemma same_root : der (ts_root ts) = der (as_unverified (credential_certificate (init_root self))).
Proof. rewrite Hts. unfold use_as_root in Hroot. case_bool_decide; [|done]. by injection Hroot as <-. Qed.

Lemma solo_make_request s ic :
  solo (make_request mc self server_cert (ts_initialize root)) s (2 + n) ic =
    Some (Ok (made_request, ts), s, (9 + n)%nat, ic, []).
Proof.
  unfold make_request, login_info, sealed, seed, get_argon_hasher, get_params. rewrite Hargon. cbn.
  unfold strong_hasher in Hreg. cbn in Hreg. rewrite Hreg. cbn. cbn in Hderive. rewrite Hderive. cbn.
  cbn in Hpersistent. rewrite Hpersistent. cbn. cbn in Hmls. rewrite Hmls. cbn. cbn in Hexport. rewrite Hexport. cbn.
  cbn in Hadd. rewrite Hadd. cbn. rewrite Happly. cbn. cbn in Hdigest. rewrite Hdigest. reflexivity.
Qed.

(** A server is initialised by an honest client. Whatever the
    interleaving, the client ends with its root credential and a trust store
    that certifies the server; the server ends with its credential and the
    same trust store announced, its only user is found under its name, and
    what is stored of it belongs to the client's password: the user can log in
    with it. *)
Theorem init_meets s :
  provisioned (user_of_request made_request) (init_password self) (init_root self) ts ∧
  get_user_by_username users' (init_username self) = Ok (Some (user_of_request made_request)) ∧
  inevitable
    (mkPair (init_dispatch mc self) s n (init_handle ms) t m [] [] h)
    (mkPair (Finished (Ok (mkClientInitSuccess (init_root self) ts))) s (9 + n)
       (Finished (Ok ())) (mkInitServer users' false (Some (mkServerInitSuccess cr ts))) (1 + m) [] [] h).
Proof.
  split_and!.
  - split; [by exists (random mc (2 + n))| |done]. by exists key, (random mc (6 + n)), (random mc (8 + n)).
  - by eapply added_user_found in Husers.
  - apply rtc_inevitable; [|apply finished_nf]. destruct Hsend as [br Br], Hpublic as [bp Bp], Hunit as [bu Bu], Hanswer as [ba Ba].
    unfold init_dispatch, init_handle. pair_does server_gets. rewrite Hchannel. cbn [negb]. etransitivity.
    { eapply server_continue. unfold accept_request. pair_does server_draws_one. rewrite Hkey, returns_bind, Hpk, returns_bind.
      pair_does server_writes. pair_does client_reads. pair_does client_draws_one. pair_does client_draws_one.
      rewrite Hcert. cbn [map_err]. rewrite returns_bind, Hroot. cbn [map_err].
      rewrite returns_bind. etransitivity; [apply client_solo, solo_make_request|]. cbn [app].
      pair_does client_writes. pair_does server_reads. cbn [request_server_cert request_trust_store request_credential made_request].
      rewrite Hupgrade. cbn [map_err]. rewrite returns_bind, Himport. cbn [map_err]. rewrite returns_bind.
      rewrite exported_certificate. unfold cert_eqb. rewrite bool_decide_true by exact same_root. cbn [negb].
      pair_does server_gets. fold made_request. rewrite Husers. cbn [map_err]. rewrite returns_bind. pair_does server_puts. apply rtc_refl. }
    cbn [continue]. pair_does server_gets. cbn [init_channel init_user_store announced]. rewrite Hchannel. cbn [negb].
    pair_does server_puts. pair_does server_writes. pair_does client_reads. pair_does client_writes.
    pair_does server_tries_read. pair_does server_gets. cbn [init_channel init_user_store].
    eapply rtc_l; [by apply step_server|]. apply rtc_refl.
Qed.
End meeting.
End init.

(** ** Worked examples *)
#[local] Existing Instance toy_x509.
#[local] Existing Instance toy_crypto.
#[local] Existing Instance toy_rcgen.
#[local] Existing Instance toy_aead.
#[local] Existing Instance toy_argon.
#[local] Existing Instance toy_tls.
#[local] Existing Instance toy_login_types.
#[local] Existing Instance toy_pake_types.
#[local] Existing Instance toy_pake.
#[local] Existing Instance toy_disks.
#[local] Existing Instance postcard_keypair.
#[local] Existing Instance toy_postcard.
#[local] Existing Instance toy_postcard_laws.
#[local] Existing Instance done_countable.

#[local] Instance toy_user_eq_dec : EqDecision StoredUser.
Proof.
  assert (EqDecision Totp * EqDecision Scalar * EqDecision RistrettoPoint * EqDecision ParamsString)%type
    as [[[? ?] ?] ?] by (cbn; repeat split; apply _).
  solve_decision.
Defined.
#[local] Instance toy_request_eq_dec : EqDecision InitRequest.
Proof.
  assert (EqDecision Totp * EqDecision Scalar * EqDecision RistrettoPoint * EqDecision ParamsString)%type
    as [[[? ?] ?] ?] by (cbn; repeat split; apply _).
  solve_decision.
Defined.

Definition toy_root_password : list Z := replicate 20 1.
Definition toy_init : Init := mkInit root_credential [65] toy_root_password ([] : Totp).
Definition toy_init_certificate : Certificate := mkCertificate (toy_certificate Server 50 1 500).
Definition toy_init_key : EncryptionKey := mkEncryptionKey (toy_root_password ++ replicate 12 9).
#[local] Instance postcard_state : Postcard ClientStore.State := {| to_stdvec s := Ok [3]; from_bytes b := Ok ClientStore.empty |}.
#[local] Instance postcard_memory : Postcard (gmap (list Z) (list Z)) := {| to_stdvec s := Ok [4]; from_bytes b := Ok ∅ |}.
Definition toy_encrypt {T} `{Postcard T} (x : T) : EncryptedObject T :=
  match encrypt_object (replicate 12 9) x toy_init_key with Ok e => e | _ => no_data end.
Definition toy_export : EncryptedCredential :=
  match credential_export (replicate 12 9) root_credential toy_init_key with
  | Ok e => e
  | _ => mkEncryptedCredential no_data toy_root
  end.
Definition toy_init_block : CheckedBlock StoreTransaction :=
  match (ts_add (ts_initialize toy_root_certificate) toy_init_certificate root_credential 500).2 with
  | Ok b => b
  | _ => toy_add_block
  end.
Definition toy_init_store : TrustStore :=
  match ts_apply (E := ()) (ts_initialize toy_root_certificate) toy_init_block with Ok ts => ts | _ => toy_store0 end.
Definition toy_init_request : InitRequest :=
  made_request toy_alice toy_init 0 toy_init_certificate (replicate 12 9 : Scalar)
    (Some strong_hasher : ParamsString) (toy_root_password ++ replicate 12 9 : RistrettoPoint)
    (toy_encrypt ClientStore.empty) (mkExportedMlsStore (toy_encrypt ∅)) toy_export toy_init_store
    (toy_encrypt (ts_digest toy_init_store)).
#[local] Instance postcard_init_user : Postcard StoredUser := postcard_only (user_of_request toy_init_request).
#[local] Instance postcard_init_request : Postcard InitRequest := postcard_only toy_init_request.
#[local] Instance postcard_public_key : Postcard ExportedPublicKey :=
  postcard_only (mkExportedPublicKey [50] PkcsEd25519).
Definition toy_init_users : UserStore :=
  mkUserStore [mkUserRow (as_slice (spki_hash toy_root)) [65] []].

(** The first run of the handler makes the user, the second one is refused. *)
Lemma init_meets_witness :
  provisioned (user_of_request toy_init_request) toy_root_password root_credential toy_init_store ∧
  inevitable
    (mkPair (init_dispatch toy_alice toy_init) () 0 (init_handle toy_bob)
       (mkInitServer (mkUserStore []) true None) 0 [] [] 0)
    (mkPair (Finished (Ok (mkClientInitSuccess root_credential toy_init_store))) () 9 (Finished (Ok ()))
       (mkInitServer toy_init_users false (Some (mkServerInitSuccess
          (mkCredential (toy_keypair 50) toy_init_certificate) toy_init_store))) 1 [] [] 0).
Proof.
  pose proof (init_meets (S := ()) (PostcardLaws0 := postcard_only_laws (user_of_request toy_init_request))
    (PostcardLaws1 := postcard_only_laws toy_init_request)
    (PostcardLaws3 := postcard_only_laws (mkExportedPublicKey [50] PkcsEd25519)) (H0 := toy_aead) (H1 := toy_argon) (PK := toy_pake) (TS := toy_tls)
    (Postcard6 := postcard_state) (Postcard7 := postcard_memory) (Postcard8 := toy_postcard _)
    (Postcard4 := toy_postcard _) (Postcard5 := toy_postcard _)
    toy_alice toy_bob toy_init (mkInitServer (mkUserStore []) true None) 0 0 0 (toy_keypair 50)
    (mkExportedPublicKey [50] PkcsEd25519) toy_init_certificate toy_root_certificate (replicate 12 9)
    (Some strong_hasher) (toy_root_password ++ replicate 12 9) toy_init_key
    (toy_encrypt ClientStore.empty) (mkExportedMlsStore (toy_encrypt ∅)) toy_export
    (ts_initialize toy_root_certificate) toy_init_store toy_init_block (toy_encrypt (ts_digest toy_init_store))
    (mkCredential (toy_keypair 50) toy_init_certificate) toy_init_users) as E.
  destruct (E eq_refl eq_refl eq_refl eq_refl eq_refl eq_refl eq_refl eq_refl eq_refl eq_refl eq_refl eq_refl eq_refl eq_refl
    eq_refl eq_refl eq_refl eq_refl ltac:(by exists []) ltac:(by exists []) ltac:(by eexists) ltac:(by eexists) ()) as (Hp & _ & Hi).
  by split.
Defined.

Definition toy_init_world (answers : list Answer) : World InitServer :=
  mkWorld (mkInitServer (mkUserStore []) true None) 0 answers [].

Lemma init_runs_once_witness :
  ∃ users' request success,
    accepted (mkUserStore []) users' request success ∧
    announced (local (run (init_handle toy_bob) (toy_init_world [Wrote; Received []; Wrote; Received []])).1) =
      Some success.
Proof.
  assert (is_ok (run (init_handle toy_bob) (toy_init_world [Wrote; Received []; Wrote; Received []])).2 = true)
    as Hok by reflexivity.
  destruct (run (init_handle toy_bob) (toy_init_world [Wrote; Received []; Wrote; Received []])) as [w' r] eqn:Hr.
  cbn [fst snd] in *.
  destruct (init_runs_once toy_bob _ _ _ Hr) as [[_ E]|(users' & request & success & Ha & _ & _ & [[_ Hs]|[E _]])];
    [congruence| |congruence].
  exists users', request, success. split; [exact Ha|exact Hs].
Defined.

(** With the last message lost nothing is announced, but the user is stored. *)
Lemma lost_reply :
  let w := (run (init_handle toy_bob) (toy_init_world [Wrote; Received []])).1 in
  announced (local w) = None ∧ init_channel (local w) = false ∧ init_user_store (local w) = toy_init_users.
Proof. split_and!; reflexivity. Qed.
