(* ===== verification/Rpc.v ===== *)
(** * Sessions and commands
    ([svalin_rpc/src/rpc/session.rs], [rpc/command/handler.rs],
    [rpc/command/dispatcher.rs], [commands/deauthenticate.rs],
    [commands/e2e.rs], [commands/forward.rs], [transport/tls_transport.rs])

    A session is a transport and the peer at its other end. The client writes
    the key of a command and its request; the server finds the handler, asks
    the permission handler, answers, and runs the handler. *)
From S2P Require Import Prelude.
From S2P Require Import External.
From S2P Require Import Spki.
From S2P Require Import Sql.
From S2P Require Import Toy.
From S2P Require Import Certificate.
From S2P Require Import SecureChain.
From S2P Require Import TrustStore.
From S2P Require Import ServerStore.
From S2P Require Import Verifiers.
From S2P Require Import Transport.
From S2P Require Import Permissions.
From stdpp Require Import options.

Record Session := mkSession { transport : Transport; peer : Peer }.

Record SessionRequestHeader := mkRequestHeader { command_key : string }.

Inductive SessionResponseHeader :=
  | Accept
  | Decline (code : Z) (message : string).

(** [postcard]'s encodings of the two headers. *)
Class HeaderCodec := {
  header_postcard :: Postcard SessionRequestHeader;
  response_postcard :: Postcard SessionResponseHeader;
}.
Class HeaderCodecLaws `{HeaderCodec} := {
  header_laws :: PostcardLaws SessionRequestHeader;
  response_laws :: PostcardLaws SessionResponseHeader;
}.

(** What serving a session can fail with, through [anyhow]. *)
Inductive ServeError :=
  | ServeRead (e : ObjectReaderError)
  | ServeWrite (e : ObjectWriterError)
  | ServePermission (e : PermissionCheckError)
  | ServeTls
  | ServeConnection (e : ConnectionError)
  | ServeOther (message : string).

Definition with_transport {E A} (m : io Transport E A) : io Session E A := λ s,
  let '(t, r) := m (transport s) in (mkSession t (peer s), r).

Definition session_read {U} {HU : Postcard U} : io Session ServeError U :=
  io_map_err ServeRead (with_transport read_object).
Definition session_write {U} `{Postcard U} (x : U) : io Session ServeError () :=
  io_map_err ServeWrite (with_transport (write_object x)).

(** [Session::shutdown]: an error is only logged. *)
Definition session_shutdown (s : Session) : Session := (with_transport shutdown s).1.

(** One step of a computation, by the lemma on it. *)
Ltac io_step lem :=
  erewrite io_bind_step; [|first [by apply lem | by apply io_map_err_step, lem]];
  cbn [transport peer incoming written].

Section rpc.
Context {P Permission : Type} `{PermissionHandler P Permission, HeaderCodec}.

(** A [TakeableCommandHandler] with the permission its precursor converts to.
    [handler_handle] gets the session and may take it; the session it leaves
    behind, if any, is shut down. The bytes a handler leaves on a session it
    took are those of the final transport. *)
Record Handler := mkHandler {
  handler_key : string;
  handler_request : Type;
  handler_postcard : Postcard handler_request;
  handler_permission : handler_request → Permission;
  handler_handle : handler_request → Session → (Session * bool) * result ServeError ();
}.

Record HandlerCollection := mkCollection {
  commands : gmap string Handler;
  permission_handler : P;
}.

Definition collection_new (permission_handler : P) : HandlerCollection := mkCollection ∅ permission_handler.
Definition collection_add (self : HandlerCollection) (command : Handler) : HandlerCollection :=
  mkCollection (<[ handler_key command := command ]> (commands self)) (permission_handler self).

(** The [bool] tells whether the handler took the session. *)
Definition run_handler (self : Handler) (request : handler_request self) : io Session ServeError () := λ s,
  let '((s, taken), r) := handler_handle self request s in
  (if taken : bool then s else session_shutdown s, r).

Definition handle_with_permission (self : Handler) (permission_handler : P) : io Session ServeError () :=
  request ← session_read (HU := handler_postcard self);
  session ← io_get;
  match may permission_handler (peer session) (handler_permission self request) with
  | Err err =>
      _ ← session_write (Decline 403 "Permission denied");
      io_err (ServePermission err)
  | Ok _ =>
      _ ← session_write Accept;
      run_handler self request
  | Panic => io_result Panic
  end.

Definition handle_session (self : HandlerCollection) (request_header : SessionRequestHeader) :
    io Session ServeError () :=
  match commands self !! command_key request_header with
  | Some handler => handle_with_permission handler (permission_handler self)
  | None =>
      _ ← session_write (Decline 404 "command not found");
      io_err (ServeOther "command not found")
  end.

(** [Session::handle]. *)
Definition session_handle (self : HandlerCollection) : io Session ServeError () :=
  header ← session_read;
  handle_session self header.

(** ** The client's side *)
Inductive SessionDispatchError :=
  | WriteHeaderError (e : ServeError)
  | WriteRequestError (e : ServeError)
  | ReadResponseError (e : ServeError)
  | SessionDeclined (code : Z) (message : string).

(** [Session::dispatch] up to the dispatcher's own part, which runs on the
    session that is left. *)
Definition session_dispatch {Request} `{Postcard Request} (key : string) (request : Request) :
    io Session SessionDispatchError () :=
  _ ← io_map_err WriteHeaderError (session_write (mkRequestHeader key));
  _ ← io_map_err WriteRequestError (session_write request);
  response ← io_map_err ReadResponseError session_read;
  match response with
  | Decline code message => io_err (SessionDeclined code message)
  | Accept => mret ()
  end.

(** ** Lemmas *)
Lemma session_read_ok {U} `{PostcardLaws U} (x : U) wire rest w b p :
  wire_of x wire →
  session_read (mkSession (mkTransport (wire ++ rest) w b) p) = (mkSession (mkTransport rest w b) p, Ok x).
Proof.
  intros Hx. unfold session_read. apply io_map_err_step. unfold with_transport. cbn [transport].
  by rewrite (read_object_ok x wire).
Qed.

Lemma session_write_ok {U} `{Postcard U} (x : U) wire s :
  wire_of x wire → writable (transport s) = true →
  session_write x s =
    (mkSession (mkTransport (incoming (transport s)) (written (transport s) ++ wire) true) (peer s), Ok ()).
Proof.
  intros Hx Hw. unfold session_write. apply io_map_err_step. unfold with_transport.
  by rewrite (write_object_ok x wire).
Qed.

Lemma with_transport_peer {E A} (m : io Transport E A) s : peer (with_transport m s).1 = peer s.
Proof. unfold with_transport. by destruct (m (transport s)). Qed.

Lemma session_read_peer {U} {HU : Postcard U} s : peer (session_read s).1 = peer s.
Proof.
  unfold session_read, io_map_err. pose proof (with_transport_peer read_object s) as E.
  destruct (with_transport read_object s). exact E.
Qed.

(** The handler with another body. *)
Definition with_handle (h : Handler)
    (f : handler_request h → Session → (Session * bool) * result ServeError ()) : Handler :=
  mkHandler (handler_key h) (handler_request h) (handler_postcard h) (handler_permission h) f.

Lemma denied_handler_same (ph : P) (h : Handler) f s :
  (∀ request, ¬ may ph (peer s) (handler_permission h request) = Ok ()) →
  handle_with_permission (with_handle h f) ph s = handle_with_permission h ph s.
Proof.
  intros Hm. unfold handle_with_permission. cbn [with_handle handler_postcard handler_permission handler_request].
  pose proof (session_read_peer (HU := handler_postcard h) s) as Hp.
  destruct (session_read s) as [s1 [request|e|]] eqn:Hr; cbn in Hp.
  - rewrite !(io_bind_step _ _ _ _ _ Hr), !(io_bind_step _ _ _ _ _ (io_get_step s1)), Hp.
    specialize (Hm request). destruct (may ph (peer s) (handler_permission h request)) as [[]|e|]; done.
  - by rewrite !(io_bind_fail _ _ _ _ _ Hr).
  - by rewrite !(io_bind_panic _ _ _ _ Hr).
Qed.

(** A handler runs only for a peer that may run it: if the peer lacks the
    permission for every request of a command, then replacing what the
    command does by anything else changes nothing about serving the session,
    whatever the peer sends. *)
Theorem denied_command_never_runs (c : HandlerCollection) k h f s :
  commands c !! k = Some h →
  (∀ request, ¬ may (permission_handler c) (peer s) (handler_permission h request) = Ok ()) →
  session_handle (mkCollection (<[ k := with_handle h f ]> (commands c)) (permission_handler c)) s =
  session_handle c s.
Proof.
  intros Hk Hm. unfold session_handle.
  pose proof (session_read_peer (U := SessionRequestHeader) s) as Hp.
  destruct (session_read s) as [s1 [header|e|]] eqn:Hr; cbn in Hp.
  - rewrite !(io_bind_step _ _ _ _ _ Hr). unfold handle_session. cbn [commands permission_handler].
    destruct (decide (command_key header = k)) as [E|E]; [|by rewrite lookup_insert_ne].
    rewrite E, lookup_insert_eq, Hk. apply denied_handler_same. intros request. rewrite Hp. apply Hm.
  - by rewrite !(io_bind_fail _ _ _ _ _ Hr).
  - by rewrite !(io_bind_panic _ _ _ _ Hr).
Qed.

(** Client and server agree on a session. What a dispatch sends is what
    the serving side reads: the handler of that key gets exactly the
    request, and the bytes after it, if the peer may make it, and the client
    goes on; a peer that may not is told 403, and an unknown key 404, and the
    client reports just that. *)
Theorem dispatch_meets_handle `{!HeaderCodecLaws} {Request} {HP : Postcard Request} (HL : PostcardLaws Request)
    (c : HandlerCollection) (key : string) (request : Request) w0 w1 rest response more (p server : Peer) perm body :
  wire_of (mkRequestHeader key) w0 → wire_of request w1 →
  (commands c !! key = None ∨
   commands c !! key = Some (mkHandler key Request HP perm body)) →
  (∃ r, may (permission_handler c) p (perm request) = Ok () ∨
        may (permission_handler c) p (perm request) = Err r) →
  let answer :=
    match commands c !! key with
    | None => Decline 404 "command not found"
    | Some _ => match may (permission_handler c) p (perm request) with
                | Ok _ => Accept | _ => Decline 403 "Permission denied" end
    end in
  wire_of answer response →
  (∃ res,
    session_dispatch key request (mkSession (mkTransport (response ++ more) [] true) server) =
      (mkSession (mkTransport more (w0 ++ w1) true) server, res) ∧
    res = match answer with Accept => Ok () | Decline code m => Err (SessionDeclined code m) end) ∧
  session_handle c (mkSession (mkTransport ((w0 ++ w1) ++ rest) [] true) p) =
    match answer with
    | Accept => run_handler (mkHandler key Request HP perm body) request
                  (mkSession (mkTransport rest response true) p)
    | Decline 404 _ => (mkSession (mkTransport (w1 ++ rest) response true) p,
                        Err (ServeOther "command not found"))
    | Decline _ _ => (mkSession (mkTransport rest response true) p,
                      match may (permission_handler c) p (perm request) with
                      | Err r => Err (ServePermission r) | _ => Ok () end)
    end.
Proof.
  intros Hw0 Hw1 Hc [r Hm] answer Hans. split.
  - unfold session_dispatch. eexists. split; [|done].
    io_step (session_write_ok (mkRequestHeader key) w0). io_step (session_write_ok request w1).
    io_step (session_read_ok answer response more). by destruct answer.
  - unfold session_handle. rewrite <-app_assoc. io_step (session_read_ok (mkRequestHeader key) w0).
    unfold handle_session. cbn [command_key]. unfold answer in *. clear answer.
    destruct Hc as [Hc|Hc]; rewrite Hc in *; [by io_step (session_write_ok (Decline 404 "command not found") response)|].
    unfold handle_with_permission. cbn [handler_postcard handler_permission].
    io_step (session_read_ok request w1 rest [] true p). io_step (@io_get_step Session ServeError).
    cbn [peer]. destruct Hm as [Hm|Hm]; rewrite Hm in *; by erewrite io_bind_step by by apply session_write_ok.
Qed.
End rpc.

(** ** Handing a session over *)
Section handover.
Context `{X509, CR : Crypto, !HeaderCodec}.
Context {P Permission P' Permission' : Type}.
Context `{PermissionHandler P Permission, PermissionHandler P' Permission'}.
Context `{HU : Postcard ()}.

(** [DeauthenticateHandler]: the session goes on as an anonymous one. *)
Definition deauthenticate_handler (permission : Permission)
    (handler_collection : HandlerCollection (P := P') (Permission := Permission')) :
    Handler (Permission := Permission) :=
  mkHandler "deauthenticate" () HU (λ _, permission) (λ _ session,
    let '(session2, r) :=
      session_handle handler_collection (mkSession (transport session) Anonymous) in
    ((session2, true), r)).

(** [tokio_rustls]: accepting a TLS connection on a transport, with the
    check of a client's certificate; it gives the decrypted transport and the
    certificates the client presented. *)
Class TlsStack := {
  tls_accept : (list Z → result RustlsError ()) → Transport → Transport * result () (list (list Z));
}.

(** Only a client whose certificate passed the check is let in. *)
Class TlsStackLaws `{TlsStack} := {
  tls_accept_checked verify t t' d rest :
    tls_accept verify t = (t', Ok (d :: rest)) → verify d = Ok ();
}.

Context `{TlsStack}.

(** [TlsTransport::server] with its peer. *)
Definition tls_server `{ClientCertVerifier V} (verifier : V) (now : Z) (t : Transport) :
    Transport * result ServeError Peer :=
  let '(t, r) := tls_accept (λ d, verify_client_cert verifier d now) t in
  (t, certs ← map_err (λ _, ServeTls) r;
      der ← ok_or (head certs) ServeTls;
      cert ← map_err (λ e, ServeConnection (ConnectionParse e)) (dangerous_from_already_verified_der der);
      Ok (PeerCertificate cert)).

(** [E2EHandler]: what follows is handled for the peer TLS has verified. *)
Definition e2e_handler `{ClientCertVerifier V} (permission : Permission) (verifier : V) (now : Z)
    (handler_collection : HandlerCollection (P := P') (Permission := Permission')) :
    Handler (Permission := Permission) :=
  mkHandler "e2e" () HU (λ _, permission) (λ _ session,
    match tls_server verifier now (transport session) with
    | (t, Ok peer) =>
        let '(session, r) := session_handle handler_collection (mkSession t peer) in ((session, true), r)
    | (t, Err e) => ((mkSession t (peer session), true), Err e)
    | (t, Panic) => ((mkSession t (peer session), true), Panic)
    end).

(** ** [ForwardHandler] *)
Inductive ForwardError := TargetNotConnected | DeauthFailure.
Context `{HF : Postcard (() + ForwardError)}.

(** [tokio::io::copy_bidirectional] over two whole streams: each side gets
    everything the other one sends; both are shut down at their end. *)
Definition copy_bidirectional (a b : Transport) : Transport * Transport :=
  (mkTransport [] (written a ++ incoming b) false, mkTransport [] (written b ++ incoming a) false).

(** The session of the client and, when there is a connection to the target,
    a session opened on it. *)
Definition forward_handle (target : option Session) (session : Session) :
    (Session * option Session) * result ServeError () :=
  match target with
  | None =>
      let '(session, r) := (_ ← session_write (inr TargetNotConnected : () + ForwardError);
                            io_err (ServeOther "no connection to requested peer")) session in
      ((session, None), r)
  | Some forward_session =>
      match session_dispatch "deauthenticate" () forward_session with
      | (forward_session, Ok _) =>
          match session_write (inl () : () + ForwardError) session with
          | (session, Ok _) =>
              let '(transport1, transport2) :=
                copy_bidirectional (transport session) (transport forward_session) in
              ((mkSession transport1 (peer session), Some (mkSession transport2 (peer forward_session))), Ok ())
          | (session, Err e) => ((session, Some (session_shutdown forward_session)), Err e)
          | (session, Panic) => ((session, Some forward_session), Panic)
          end
      | (forward_session, _) =>
          let '(session, r) := (_ ← session_write (inr DeauthFailure : () + ForwardError);
                                io_err (ServeOther "deauthentication failed")) session in
          ((session, Some forward_session), r)
      end
  end.
End handover.

(** ** What an agent serves ([svalin/src/agent.rs]) *)
Section agent.
Context `{X509, CR : Crypto, !Rcgen, !HeaderCodec, HU : Postcard (), TS : !TlsStack}.

Abbreviation AgentHandler := (Handler (Permission := Permission)).

(** The server may only ask to hand the session over; what follows is
    anonymous and may only start end-to-end encryption, and what follows that
    is served to the certificate TLS has checked against the trust store. *)
Definition agent_public_commands (root : RootCertificate) (ts : TrustStore) (now : Z)
    (e2e_commands : gmap string AgentHandler) : HandlerCollection :=
  let permission_handler := mkDefaultHandler root in
  collection_add (collection_new permission_handler)
    (e2e_handler (permission_of CmdE2E) (to_tls_verifier (mkTrustStoreVerifier ts)) now
       (mkCollection e2e_commands permission_handler)).

Definition agent_server_commands (root : RootCertificate) (ts : TrustStore) (now : Z)
    (e2e_commands : gmap string AgentHandler) : HandlerCollection :=
  collection_add (collection_new (mkDefaultHandler root))
    (deauthenticate_handler (permission_of CmdDeauthenticate)
       (agent_public_commands root ts now e2e_commands)).

(** Serving with a collection of one handler: the handler's body is not
    looked at, or it is run for the same peer. *)
Lemma single_handler_cases (ph : DefaultPermissionHandler) (key : string) perm s :
  let col f := collection_add (collection_new ph) (mkHandler key () HU perm f) in
  (∃ out, ∀ f, session_handle (col f) s = out) ∨
  (∃ u s1, peer s1 = peer s ∧ ∀ f,
     session_handle (col f) s = run_handler (mkHandler key () HU perm f) u s1).
Proof.
  intros col.
  pose proof (session_read_peer (U := SessionRequestHeader) s) as Hp.
  destruct (session_read s) as [s1 [header|e|]] eqn:Hr; cbn in Hp.
  2: { left. eexists. intros f. apply (io_bind_fail _ _ _ _ _ Hr). }
  2: { left. eexists. intros f. apply (io_bind_panic _ _ _ _ Hr). }
  assert (∀ f, session_handle (col f) s = handle_session (col f) header s1) as H1s
    by (intros f; apply (io_bind_step _ _ _ _ _ Hr)).
  destruct (decide (command_key header = key)) as [E|E].
  2: { left. eexists. intros f. rewrite H1s. unfold handle_session. cbn.
       rewrite lookup_insert_ne, lookup_empty by done. reflexivity. }
  assert (∀ f, session_handle (col f) s = handle_with_permission (mkHandler key () HU perm f) ph s1) as H2s.
  { intros f. rewrite H1s. unfold handle_session. cbn. by rewrite E, lookup_insert_eq. }
  clear H1s. pose proof (session_read_peer (HU := HU) s1) as Hp2.
  destruct (session_read s1) as [s2 [u|e|]] eqn:Hr2; cbn in Hp2.
  2: { left. eexists. intros f. rewrite H2s. apply (io_bind_fail _ _ _ _ _ Hr2). }
  2: { left. eexists. intros f. rewrite H2s. apply (io_bind_panic _ _ _ _ Hr2). }
  assert (∀ f, session_handle (col f) s = match may ph (peer s2) (perm u) with
    | Err err => (_ ← session_write (Decline 403 "Permission denied"); io_err (ServePermission err)) s2
    | Ok _ => (_ ← session_write Accept; run_handler (mkHandler key () HU perm f) u) s2
    | Panic => (s2, Panic) end) as H3s.
  { intros f. rewrite H2s. unfold handle_with_permission. rewrite (io_bind_step _ _ _ _ _ Hr2).
    rewrite (io_bind_step _ _ _ _ _ (io_get_step s2)).
    cbn [handler_permission]. by destruct (may ph (peer s2) (perm u)) as [[]| |]. }
  clear H2s. destruct (may ph (peer s2) (perm u)) as [[]|e|].
  2, 3: left; eexists; intros f; by rewrite H3s.
  assert (peer (session_write Accept s2).1 = peer s2) as Hp3.
  { unfold session_write, io_map_err. pose proof (with_transport_peer (write_object Accept) s2) as Hw.
    destruct (with_transport _ s2). exact Hw. }
  destruct (session_write Accept s2) as [s3 [[]|e|]] eqn:Hw; cbn in Hp3.
  - right. exists u, s3. split; [congruence|]. intros f. rewrite H3s. by rewrite (io_bind_step _ _ _ _ _ Hw).
  - left. eexists. intros f. rewrite H3s. apply (io_bind_fail _ _ _ _ _ Hw).
  - left. eexists. intros f. rewrite H3s. apply (io_bind_panic _ _ _ _ Hw).
Qed.

(** Replacing the body of one handler of a collection: nothing changes, or
    the peer may run it. *)
Lemma replaced_handler_cases (c : HandlerCollection (P := DefaultPermissionHandler)) k h f s :
  commands c !! k = Some h →
  session_handle (mkCollection (<[ k := with_handle h f ]> (commands c)) (permission_handler c)) s =
    session_handle c s ∨
  ∃ request, may (permission_handler c) (peer s) (handler_permission h request) = Ok ().
Proof.
  intros Hk. unfold session_handle. pose proof (session_read_peer (U := SessionRequestHeader) s) as Hp.
  destruct (session_read s) as [s1 [header|e|]] eqn:Hr; cbn in Hp.
  2: { left. by rewrite !(io_bind_fail _ _ _ _ _ Hr). }
  2: { left. by rewrite !(io_bind_panic _ _ _ _ Hr). }
  rewrite !(io_bind_step _ _ _ _ _ Hr). unfold handle_session. cbn [commands permission_handler].
  destruct (decide (command_key header = k)) as [E|E]; [|left; by rewrite lookup_insert_ne].
  rewrite E, lookup_insert_eq, Hk. unfold handle_with_permission.
  cbn [with_handle handler_postcard handler_permission handler_request].
  pose proof (session_read_peer (HU := handler_postcard h) s1) as Hp2.
  destruct (session_read s1) as [s2 [request|e|]] eqn:Hr2; cbn in Hp2.
  2: { left. by rewrite !(io_bind_fail _ _ _ _ _ Hr2). }
  2: { left. by rewrite !(io_bind_panic _ _ _ _ Hr2). }
  rewrite !(io_bind_step _ _ _ _ _ Hr2), !(io_bind_step _ _ _ _ _ (io_get_step s2)).
  destruct (may _ (peer s2) _) as [[]|e|] eqn:Hm; [|by left|by left].
  right. exists request. by rewrite <-Hp, <-Hp2.
Qed.

(** The peer of an end-to-end session is one the trust store vouches for. *)
Lemma tls_server_peer `{!TlsStackLaws} ts now t t' p :
  store_wf (chain_state (store_chain ts)) →
  tls_server (to_tls_verifier (mkTrustStoreVerifier ts)) now t = (t', Ok p) →
  ∃ c, p = PeerCertificate (mkCertificate c) ∧ tls_trusted ts c now.
Proof.
  intros Hwf Ht. unfold tls_server in Ht. destruct (tls_accept _ t) as [t1 r] eqn:Ha.
  injection Ht as _ Hp. apply bind_Ok in Hp as (certs & Hr%map_err_Ok & Hp). subst r.
  apply bind_Ok in Hp as (d & Hd%ok_or_Ok & Hp). apply bind_Ok in Hp as (cert & Hc%map_err_Ok & [= <-]).
  destruct certs as [|d' certs]; [done|]. injection Hd as ->. apply tls_accept_checked in Ha.
  apply verify_cert_Ok in Ha as (c & c' & Hfd & Hk). unfold dangerous_from_already_verified_der in Hc.
  rewrite Hfd in Hc. injection Hc as <-. exists c. split; [done|].
  by apply (trust_store_known_Ok ts c now c' Hwf (from_der_parsed _ _ Hfd)).
Qed.

(** The session that serving leaves to the one command of a collection:
    what is left of [s] after its header, its request and the answer. A body
    that takes the session and does nothing shows it. *)
Definition handed_over (ph : DefaultPermissionHandler) (key : string) (perm : () → Permission) (s : Session) :
    option Session :=
  match session_handle (collection_add (collection_new ph) (mkHandler key () HU perm (λ _ s, ((s, true), Ok ())))) s with
  | (s', Ok _) => Some s'
  | _ => None
  end.

(** The TLS connection inside a session of the agent's connection to the
    server: what follows the requests [deauthenticate] and [e2e]. *)
Definition inner_transport (root : RootCertificate) (s : Session) : option Transport :=
  s1 ← handed_over (mkDefaultHandler root) "deauthenticate" (λ _, permission_of CmdDeauthenticate) s;
  s2 ← handed_over (mkDefaultHandler root) "e2e" (λ _, permission_of CmdE2E) (mkSession (transport s1) Anonymous);
  Some (transport s2).

Lemma single_handler_session (ph : DefaultPermissionHandler) (key : string) perm s :
  let col f := collection_add (collection_new ph) (mkHandler key () HU perm f) in
  (∃ out, ∀ f, session_handle (col f) s = out) ∨
  (∃ u s1, handed_over ph key perm s = Some s1 ∧ ∀ f,
     session_handle (col f) s = run_handler (mkHandler key () HU perm f) u s1).
Proof.
  intros col. destruct (single_handler_cases ph key perm s) as [?|(u & s1 & _ & Hf)]; [by left|right].
  exists u, s1. split; [|exact Hf]. unfold handed_over. by rewrite Hf.
Qed.

(** C14: The whole path to an agent's commands is guarded. Take any command an
    agent serves end-to-end that is reserved to the root. Whatever bytes reach
    the agent in a session of its connection to the server, replacing that
    command by anything else makes no difference to the session, unless this
    very session asked for [deauthenticate] and then for [e2e], and the TLS
    handshake on what followed them authenticated a certificate which the
    agent's trust store vouches for at that time and which is a session issued
    by the root itself. The server, which may only hand sessions over, cannot
    run it. *)
Theorem agent_device_access `{TL : !TlsStackLaws} (root : RootCertificate) ts now e2e k h f s :
  parsed root → reachable root ts → e2e !! k = Some h →
  (∀ request, handler_permission h request = RootOnlyPlaceholder) →
  session_handle (agent_server_commands root ts now (<[ k := with_handle h f ]> e2e)) s =
    session_handle (agent_server_commands root ts now e2e) s ∨
  ∃ inner inner' c, inner_transport root s = Some inner ∧
    tls_server (to_tls_verifier (mkTrustStoreVerifier ts)) now inner = (inner', Ok (PeerCertificate (mkCertificate c))) ∧
    tls_trusted ts c now ∧ certificate_type c = UserSession ∧ issuer c = spki_hash root ∧
    derives root (mkCertificate c).
Proof.
  intros Hp Hr Hk Hperm. destruct (reachable_inv root ts Hp Hr) as (Hwf & Ht & Hroot & _).
  unfold agent_server_commands, deauthenticate_handler.
  destruct (single_handler_session (mkDefaultHandler root) "deauthenticate"
    (λ _, permission_of CmdDeauthenticate) s) as [[out Hout]|(u & s1 & Hs1 & Hout)]; rewrite !Hout; [by left|].
  unfold run_handler. cbn [handler_handle]. unfold agent_public_commands, e2e_handler.
  destruct (single_handler_session (mkDefaultHandler root) "e2e" (λ _, permission_of CmdE2E)
    (mkSession (transport s1) Anonymous)) as [[out2 Hout2]|(u2 & s2 & Hs2 & Hout2)]; rewrite !Hout2; [by left|].
  unfold run_handler. cbn [handler_handle].
  destruct (tls_server _ now (transport s2)) as [t [p|e|]] eqn:Htls; [|by left|by left].
  destruct (tls_server_peer ts now _ _ _ Hwf Htls) as (c & -> & Htr).
  destruct (replaced_handler_cases (mkCollection e2e (mkDefaultHandler root)) k h f
    (mkSession t (PeerCertificate (mkCertificate c))) Hk) as [E|[request Hm]].
  { left. cbn [commands permission_handler] in E. by rewrite E. }
  right. exists (transport s2), t, c.
  split; [unfold inner_transport; rewrite Hs1; cbn [mbind option_bind]; by rewrite Hs2|]. split; [exact Htls|]. split; [done|].
  cbn [permission_handler peer] in Hm. rewrite Hperm in Hm.
  cbn in Hm. unfold allowed in Hm. destruct Htr as [_ Htr]. cbn in Hm.
  destruct (certificate_type c); try done. case_bool_decide as Hi; [|done]. cbn in Hi.
  split_and!; [done|done|]. destruct Htr as (i & Hg & _ & Hs).
  eapply derives_signed; [|exact Hs]. pose proof (Ht _ _ Hg) as Hd. cbn in Hd. by rewrite Hroot in Hd.
Qed.
End agent.

(** ** Forwarding is transparent *)
Section forward.
Context `{!HeaderCodec, HU : Postcard (), HF : Postcard (() + ForwardError)}.

(** Once the target has accepted the handover, the server is a pipe: the
    target reads the handover request and then exactly what the client sends,
    the client reads the server's success and then exactly what the target
    sends, and both directions are closed at their end. When there is no
    connection to the target, the client is told just that and nothing else
    is sent. *)
Theorem forward_is_transparent `{!HeaderCodecLaws} w0 w1 wa wok wno client_bytes target_bytes written (pc pf : Peer) :
  wire_of (mkRequestHeader "deauthenticate") w0 → wire_of () w1 → wire_of Accept wa →
  wire_of (inl () : () + ForwardError) wok → wire_of (inr TargetNotConnected : () + ForwardError) wno →
  forward_handle (Some (mkSession (mkTransport (wa ++ target_bytes) [] true) pf))
      (mkSession (mkTransport client_bytes written true) pc) =
    ((mkSession (mkTransport [] (written ++ wok ++ target_bytes) false) pc,
      Some (mkSession (mkTransport [] (w0 ++ w1 ++ client_bytes) false) pf)), Ok ()) ∧
  forward_handle None (mkSession (mkTransport client_bytes written true) pc) =
    ((mkSession (mkTransport client_bytes (written ++ wno) true) pc, None),
     Err (ServeOther "no connection to requested peer")).
Proof.
  intros Hw0 Hw1 Hwa Hwok Hwno. split.
  - unfold forward_handle.
    assert (session_dispatch "deauthenticate" () (mkSession (mkTransport (wa ++ target_bytes) [] true) pf) =
      (mkSession (mkTransport target_bytes (w0 ++ w1) true) pf, Ok ())) as ->.
    { unfold session_dispatch.
      io_step (session_write_ok (mkRequestHeader "deauthenticate") w0). io_step (session_write_ok () w1).
      io_step (session_read_ok Accept wa target_bytes). done. }
    rewrite (session_write_ok (inl () : () + ForwardError) wok) by done. cbn.
    by rewrite <-!app_assoc.
  - unfold forward_handle. by io_step (session_write_ok (inr TargetNotConnected : () + ForwardError) wno).
Qed.
End forward.

(** ** Worked examples *)
#[local] Existing Instance toy_x509.
#[local] Existing Instance toy_crypto.
#[local] Existing Instance toy_rcgen.

(** The headers in a toy encoding. *)
#[local] Instance toy_header : Postcard SessionRequestHeader := {|
  to_stdvec h := Ok (str_bytes (command_key h));
  from_bytes b := Ok (mkRequestHeader (str_of_bytes b));
|}.
#[local] Instance toy_response : Postcard SessionResponseHeader := {|
  to_stdvec h := match h with Accept => Ok [] | Decline c m => Ok (c :: str_bytes m) end;
  from_bytes b := match b with [] => Ok Accept | c :: m => Ok (Decline c (str_of_bytes m)) end;
|}.
#[local] Instance toy_unit : Postcard () := {|
  to_stdvec _ := Ok [];
  from_bytes _ := Ok ();
|}.
#[local] Instance toy_forward_answer : Postcard (() + ForwardError) := {|
  to_stdvec r := Ok (match r with inl _ => [0] | inr TargetNotConnected => [1] | inr DeauthFailure => [2] end);
  from_bytes b := match b with
    | [0] => Ok (inl ()) | [1] => Ok (inr TargetNotConnected) | [2] => Ok (inr DeauthFailure)
    | _ => Err "answer"%string end;
|}.
#[local] Instance toy_codec : HeaderCodec := {| header_postcard := toy_header; response_postcard := toy_response |}.

Lemma str_of_bytes_str s : str_of_bytes (str_bytes s) = s.
Proof.
  unfold str_of_bytes, str_bytes. rewrite <-list_fmap_compose.
  rewrite <-(String.string_of_list_ascii_of_string s) at 2. f_equal.
  rewrite <-(list_fmap_id (String.list_ascii_of_string s)) at 2.
  apply list_fmap_ext. intros _ c _. cbn. unfold char_of, char_code.
  rewrite N2Z.id. apply Ascii.ascii_N_embedding.
Qed.

#[local] Instance toy_codec_laws : HeaderCodecLaws.
Proof.
  split; split.
  - intros [k] b [= <-].
    change (Ok (mkRequestHeader (str_of_bytes (str_bytes k))) =@{result ExtError _} Ok (mkRequestHeader k)).
    by rewrite str_of_bytes_str.
  - intros [|c m] b [= <-]; [done|].
    change (Ok (Decline c (str_of_bytes (str_bytes m))) =@{result ExtError _} Ok (Decline c m)).
    by rewrite str_of_bytes_str.
Qed.
#[local] Instance toy_unit_laws : PostcardLaws ().
Proof. split. by intros []. Qed.
#[local] Instance toy_forward_laws : PostcardLaws (() + ForwardError).
Proof. split. intros [[]|[]] b; cbn; by intros [= <-]. Qed.

Definition toy_handler (code : Z) : Handler (Permission := Permission) :=
  mkHandler "remote-terminal" () toy_unit (λ _, permission_of CmdRemoteTerminal)
    (λ _ s, ((s, true), Err (ServeOther (str_of_bytes [code])))).

Definition toy_handlers : HandlerCollection (P := DefaultPermissionHandler) :=
  collection_add (collection_new (mkDefaultHandler toy_root_certificate)) (toy_handler 65).

Lemma denied_command_never_runs_witness :
  let s := mkSession (mkTransport (encode_chunk (str_bytes "remote-terminal") ++ encode_chunk []) [] true)
             (PeerCertificate (mkCertificate toy_session)) in
  session_handle (mkCollection (<[ "remote-terminal"%string := with_handle (toy_handler 65) (handler_handle (toy_handler 66)) ]>
      (commands toy_handlers)) (permission_handler toy_handlers)) s =
  session_handle toy_handlers s.
Proof.
  apply (denied_command_never_runs toy_handlers "remote-terminal" (toy_handler 65)); [reflexivity|].
  intros request E. vm_compute in E. discriminate E.
Defined.

Lemma dispatch_meets_handle_witness :
  session_handle toy_handlers
    (mkSession (mkTransport ((encode_chunk (str_bytes "nothing") ++ encode_chunk []) ++ []) [] true) Anonymous) =
  (mkSession (mkTransport (encode_chunk [] ++ []) (encode_chunk (404 :: str_bytes "command not found")) true) Anonymous,
   Err (ServeOther "command not found")).
Proof.
  refine (proj2 (dispatch_meets_handle toy_unit_laws toy_handlers "nothing" ()
    (encode_chunk (str_bytes "nothing")) (encode_chunk []) []
    (encode_chunk (404 :: str_bytes "command not found")) [] Anonymous Anonymous
    (λ _, permission_of CmdRemoteTerminal) (λ _ s, ((s, true), Ok ())) _ _ _ _ _)).
  - eexists. split_and!; [reflexivity|vm_compute; reflexivity|reflexivity].
  - eexists. split_and!; [reflexivity|vm_compute; reflexivity|reflexivity].
  - left. reflexivity.
  - eexists. right. vm_compute. reflexivity.
  - eexists. split_and!; [reflexivity|vm_compute; reflexivity|reflexivity].
Defined.

(** A TLS connection of a client that presents one certificate. *)
Definition toy_tls (d : list Z) : TlsStack := {|
  tls_accept verify t := (t, match verify d with Ok _ => Ok [d] | _ => Err () end);
|}.

Lemma toy_rpc_tls_laws d : @TlsStackLaws (toy_tls d).
Proof.
  split. intros verify t t' d' rest. cbn. destruct (verify d) as [[]| |] eqn:E; intros [= _ <- _]. exact E.
Qed.

(** What a client sends through the server to open a terminal. *)
Definition toy_terminal_bytes : list Z :=
  encode_chunk (str_bytes "deauthenticate") ++ encode_chunk [] ++
  encode_chunk (str_bytes "e2e") ++ encode_chunk [] ++
  encode_chunk (str_bytes "remote-terminal") ++ encode_chunk [].

(** The server's certificate, signed by the toy root. *)
Definition toy_server_peer : Peer := PeerCertificate (mkCertificate (toy_certificate Server 9 1 400)).

Lemma agent_device_access_witness :
  ∃ inner inner' c,
    inner_transport toy_root_certificate (mkSession (mkTransport toy_terminal_bytes [] true) toy_server_peer) = Some inner ∧
    tls_server (H3 := toy_tls (der toy_root_session)) (to_tls_verifier (mkTrustStoreVerifier toy_store0)) 500 inner =
      (inner', Ok (PeerCertificate (mkCertificate c))) ∧
    tls_trusted toy_store0 c 500 ∧ certificate_type c = UserSession ∧
    issuer c = spki_hash toy_root_certificate ∧ derives toy_root_certificate (mkCertificate c).
Proof.
  destruct (agent_device_access (TS := toy_tls (der toy_root_session))
    (TL := toy_rpc_tls_laws (der toy_root_session)) toy_root_certificate toy_store0 500
    {[ "remote-terminal"%string := toy_handler 65 ]} "remote-terminal" (toy_handler 65)
    (handler_handle (toy_handler 66))
    (mkSession (mkTransport toy_terminal_bytes [] true) toy_server_peer)) as [E|Hc].
  - exact toy_root_parsed.
  - apply reachable_init.
  - reflexivity.
  - reflexivity.
  - vm_compute in E. discriminate E.
  - exact Hc.
Defined.

Lemma forward_is_transparent_witness :
  forward_handle (Some (mkSession (mkTransport (encode_chunk [] ++ [3]) [] true) Anonymous))
      (mkSession (mkTransport [1; 2] [] true) Anonymous) =
    ((mkSession (mkTransport [] (encode_chunk [0] ++ [3]) false) Anonymous,
      Some (mkSession (mkTransport [] (encode_chunk (str_bytes "deauthenticate") ++ encode_chunk [] ++ [1; 2]) false)
              Anonymous)), Ok ()).
Proof.
  refine (proj1 (forward_is_transparent (encode_chunk (str_bytes "deauthenticate")) (encode_chunk []) (encode_chunk [])
    (encode_chunk [0]) (encode_chunk [1]) [1; 2] [3] [] Anonymous Anonymous _ _ _ _ _));
    (eexists; split_and!; [reflexivity|vm_compute; reflexivity|reflexivity]).
Defined.
