(* ===== verification/Connections.v ===== *)
(** * The connections of the server ([svalin_rpc/src/rpc/server/mod.rs])

    The server notes the latest connection of every peer and tells its
    subscribers who comes and goes. A connection is a stable id and a peer;
    the noting happens under one lock, when a connection is served and when
    it is closed. *)
From S2P Require Import Prelude.
From S2P Require Import Spki.
From S2P Require Import Certificate.
From S2P Require Import Verifiers.
From stdpp Require Import options.

(** [DirectConnection], compared by its stable id. *)
Record DirectConnection := mkConnection { stable_id : nat; conn_peer : Peer }.

Record RpcServer := mkRpcServer {
  latest_connections : gmap SpkiHash DirectConnection;
  (** [client_status_broadcast]: what was sent so far. *)
  client_status : list (Certificate * bool);
}.

Definition rpc_server_new : RpcServer := mkRpcServer ∅ [].

(** [serve_connection_inner] up to serving the connection. *)
Definition note_connection (self : RpcServer) (conn : DirectConnection) : RpcServer :=
  match conn_peer conn with
  | PeerCertificate cert =>
      mkRpcServer (<[ spki_hash cert := conn ]> (latest_connections self))
        (client_status self ++ [(cert, true)])
  | Anonymous => self
  end.

(** [update_connection_data_on_close], once the connection is closed. *)
Definition note_close (self : RpcServer) (conn : DirectConnection) : RpcServer :=
  match conn_peer conn with
  | PeerCertificate cert =>
      match latest_connections self !! spki_hash cert with
      | Some latest_peer_conn =>
          if bool_decide (stable_id latest_peer_conn = stable_id conn) then
            mkRpcServer (delete (spki_hash cert) (latest_connections self))
              (client_status self ++ [(cert, false)])
          else self
      | None => self
      end
  | Anonymous => self
  end.

(** [open_session_with] finds the connection; [None] is its error. *)
Definition connection_to (self : RpcServer) (peer : SpkiHash) : option DirectConnection :=
  latest_connections self !! peer.

Definition get_current_connected_clients (self : RpcServer) : list Certificate :=
  omap (λ c, match conn_peer c with PeerCertificate cert => Some cert | Anonymous => None end)
    (map_to_list (latest_connections self)).*2.

Definition is_client_connected (self : RpcServer) (client : Certificate) : bool :=
  bool_decide (is_Some (latest_connections self !! spki_hash client)).

(** ** Histories *)
Inductive event :=
  | Connected (conn : DirectConnection)
  | Closed (conn : DirectConnection).

Definition server_step (s : RpcServer) (e : event) : RpcServer :=
  match e with
  | Connected conn => note_connection s conn
  | Closed conn => note_close s conn
  end.

Definition connection_of (e : event) : DirectConnection :=
  match e with Connected c | Closed c => c end.

Definition peer_hash (c : DirectConnection) : option SpkiHash :=
  match conn_peer c with PeerCertificate cert => Some (spki_hash cert) | Anonymous => None end.

(** Connections have ids of their own, and close at most once and after they
    were opened. *)
Inductive history : list event → Prop :=
  | history_nil : history []
  | history_open es c :
      history es → (∀ c', Connected c' ∈ es → stable_id c' ≠ stable_id c) → history (es ++ [Connected c])
  | history_close es c :
      history es → Connected c ∈ es → Closed c ∉ es → history (es ++ [Closed c]).

(** The latest connection of a peer in a history. *)
Definition latest (h : SpkiHash) (es : list event) : option DirectConnection :=
  last (omap (λ e, match e with
                   | Connected c => if decide (peer_hash c = Some h) then Some c else None
                   | Closed _ => None end) es).

Definition state_after (es : list event) : RpcServer := foldl server_step rpc_server_new es.

Lemma latest_connected h es c : latest h es = Some c → Connected c ∈ es ∧ peer_hash c = Some h.
Proof.
  unfold latest. intros Hl. apply last_Some in Hl as [l' Hl].
  assert (c ∈ omap (λ e, match e with
                   | Connected c => if decide (peer_hash c = Some h) then Some c else None
                   | Closed _ => None end) es) as Hin.
  { rewrite Hl. apply elem_of_app. right. by left. }
  apply list_elem_of_omap in Hin as ([c'|c'] & Hin & Hc); [|done]. case_decide; [|done]. injection Hc as ->. done.
Qed.

Lemma history_ids es c c' :
  history es → Connected c ∈ es → Connected c' ∈ es → stable_id c = stable_id c' → c = c'.
Proof.
  induction 1 as [|es x Hh IH Hnew|es x Hh IH Hin Hnot]; intros H1 H2 E; [by apply elem_of_nil in H1|..].
  - apply elem_of_app in H1 as [H1|H1%list_elem_of_singleton], H2 as [H2|H2%list_elem_of_singleton].
    + by apply IH.
    + injection H2 as ->. by destruct (Hnew c H1).
    + injection H1 as ->. by destruct (Hnew c' H2).
    + congruence.
  - apply elem_of_app in H1 as [H1|H1%list_elem_of_singleton], H2 as [H2|H2%list_elem_of_singleton]; try done.
    by apply IH.
Qed.

Lemma latest_app_open h es c :
  latest h (es ++ [Connected c]) = if decide (peer_hash c = Some h) then Some c else latest h es.
Proof.
  unfold latest. rewrite omap_app. cbn. case_decide; cbn; [by rewrite last_snoc|by rewrite app_nil_r].
Qed.

Lemma latest_app_close h es c : latest h (es ++ [Closed c]) = latest h es.
Proof. unfold latest. rewrite omap_app. cbn. by rewrite app_nil_r. Qed.

Lemma history_closed es c : history es → Closed c ∈ es → Connected c ∈ es.
Proof.
  induction 1 as [|es x Hh IH Hnew|es x Hh IH Hin Hnot]; intros Hc; [by apply elem_of_nil in Hc|..].
  - apply elem_of_app in Hc as [Hc|Hc%list_elem_of_singleton]; [|done]. apply elem_of_app. left. by apply IH.
  - apply elem_of_app. left. apply elem_of_app in Hc as [Hc|Hc%list_elem_of_singleton]; [by apply IH|].
    by injection Hc as ->.
Qed.

#[global] Instance event_closed_dec (c : DirectConnection) (es : list event) : Decision (Closed c ∈ es).
Proof.
  assert (EqDecision Peer) by solve_decision. assert (EqDecision DirectConnection) by solve_decision.
  assert (EqDecision event) by solve_decision. apply _.
Defined.

(** However connections come and go, the server's book is right: to reach
    a peer it uses the latest connection that peer opened, as long as that
    one is not closed, and none otherwise; a late close of an older
    connection does not disconnect the peer. *)
Theorem latest_connection_is_used es h :
  history es →
  connection_to (state_after es) h =
    match latest h es with
    | Some c => if decide (Closed c ∈ es) then None else Some c
    | None => None
    end.
Proof.
  unfold connection_to, state_after.
  induction 1 as [|es c Hh IH Hnew|es c Hh IH Hin Hnot]; [done| |]; rewrite foldl_app; cbn [foldl server_step].
  - rewrite latest_app_open. unfold note_connection.
    assert (∀ c', Closed c' ∈ es ++ [Connected c] ↔ Closed c' ∈ es) as Hcl.
    { intros c'. rewrite elem_of_app, list_elem_of_singleton. naive_solver. }
    assert (peer_hash c ≠ Some h → latest_connections (foldl server_step rpc_server_new es) !! h =
      match latest h es with Some c0 => if decide (Closed c0 ∈ es ++ [Connected c]) then None else Some c0
      | None => None end) as Hother.
    { intros _. rewrite IH. destruct (latest h es) as [c0|]; [|done]. apply decide_ext. by rewrite Hcl. }
    unfold peer_hash in *. destruct (conn_peer c) as [|cert] eqn:Hp; [by rewrite decide_False; [apply Hother|]|].
    cbn [latest_connections]. case_decide as E.
    + injection E as <-. rewrite lookup_insert_eq, decide_False; [done|]. rewrite Hcl.
      intros Hc. by apply (history_closed _ _ Hh), Hnew in Hc.
    + rewrite lookup_insert_ne by congruence. by apply Hother.
  - rewrite latest_app_close. unfold note_close.
    assert (∀ c', c' ≠ c → Closed c' ∈ es ++ [Closed c] ↔ Closed c' ∈ es) as Hcl.
    { intros c' Hne. rewrite elem_of_app, list_elem_of_singleton. naive_solver. }
    assert (latest h es ≠ Some c → latest_connections (foldl server_step rpc_server_new es) !! h =
      match latest h es with Some c0 => if decide (Closed c0 ∈ es ++ [Closed c]) then None else Some c0
      | None => None end) as Hother.
    { intros Hl. rewrite IH. destruct (latest h es) as [c0|]; [|done]. apply decide_ext.
      rewrite Hcl; [done|]. congruence. }
    destruct (conn_peer c) as [|cert] eqn:Hp.
    { apply Hother. intros Hl. apply latest_connected in Hl as [_ Hl]. unfold peer_hash in Hl. by rewrite Hp in Hl. }
    destruct (decide (spki_hash cert = h)) as [<-|Hne].
    + destruct (latest (spki_hash cert) es) as [c0|] eqn:Hl; [|by rewrite IH].
      destruct (latest_connected _ _ _ Hl) as [Hc0 _].
      destruct (decide (Closed c0 ∈ es)) as [Hcl0|Hcl0].
      { rewrite decide_True by (apply elem_of_app; by left). by rewrite !IH. }
      rewrite IH. case_bool_decide as Eid.
      * assert (c0 = c) as -> by by eapply history_ids.
        cbn [latest_connections]. rewrite lookup_delete_eq, decide_True; [done|]. apply elem_of_app. right. by left.
      * rewrite IH, decide_False; [done|]. rewrite Hcl; [done|]. congruence.
    + assert (latest h es ≠ Some c) as Hl.
      { intros Hl. apply latest_connected in Hl as [_ Hl]. unfold peer_hash in Hl. rewrite Hp in Hl. congruence. }
      destruct (_ !! spki_hash cert) as [l|]; [|by apply Hother].
      case_bool_decide; [|by apply Hother]. cbn [latest_connections].
      rewrite lookup_delete_ne by done. by apply Hother.
Qed.

Lemma connected_has_latest es h :
  is_Some (latest_connections (state_after es) !! h) → is_Some (latest h es).
Proof.
  unfold state_after. induction es as [|[c|c] es IH] using rev_ind; [by intros []| |];
    rewrite foldl_app; cbn [foldl server_step].
  - rewrite latest_app_open. unfold note_connection, peer_hash.
    destruct (conn_peer c) as [|cert]; [by rewrite decide_False|]. cbn [latest_connections].
    case_decide; [done|]. rewrite lookup_insert_ne by congruence. exact IH.
  - rewrite latest_app_close. unfold note_close. destruct (conn_peer c) as [|cert]; [exact IH|].
    destruct (_ !! spki_hash cert) as [l|]; [|exact IH]. case_bool_decide; [|exact IH].
    cbn [latest_connections]. intros [x Hx]. apply lookup_delete_Some in Hx as [_ Hx]. apply IH. by exists x.
Qed.

(** The status subscribers hear is the status of the book: the last thing
    announced about a peer is that it is there exactly when the server has a
    connection to it, and nothing was ever announced about a peer it never
    had one to. *)
Theorem announced_status_is_current es h :
  last (omap (λ m : Certificate * bool, if decide (spki_hash m.1 = h) then Some m.2 else None)
          (client_status (state_after es))) =
  match latest h es with
  | None => None
  | Some _ => Some (bool_decide (is_Some (connection_to (state_after es) h)))
  end.
Proof.
  unfold state_after, connection_to.
  induction es as [|[c|c] es IH] using rev_ind; [done| |]; rewrite foldl_app; cbn [foldl server_step].
  - rewrite latest_app_open. unfold note_connection, peer_hash.
    destruct (conn_peer c) as [|cert]; [by rewrite decide_False|]. cbn [client_status latest_connections].
    rewrite omap_app. cbn. destruct (decide (spki_hash cert = h)) as [<-|Hne].
    + cbn. rewrite last_snoc, lookup_insert_eq, decide_True by done. by rewrite bool_decide_true.
    + cbn. rewrite app_nil_r, lookup_insert_ne by done. rewrite decide_False by congruence. exact IH.
  - rewrite latest_app_close. unfold note_close. destruct (conn_peer c) as [|cert]; [exact IH|].
    destruct (_ !! spki_hash cert) as [l|] eqn:Hl; [|exact IH].
    destruct (decide (stable_id l = stable_id c));
      [rewrite (bool_decide_true (stable_id l = _)) by done|by rewrite (bool_decide_false (stable_id l = _))].
    cbn [client_status latest_connections]. rewrite omap_app. cbn.
    destruct (decide (spki_hash cert = h)) as [<-|Hne]; cbn.
    + rewrite last_snoc, lookup_delete_eq. rewrite Hl in IH.
      destruct (connected_has_latest es (spki_hash cert)) as [x ->]; [by exists l|].
      by rewrite bool_decide_false by by intros [].
    + by rewrite app_nil_r, lookup_delete_ne.
Qed.

(** ** Worked examples *)
Lemma latest_connection_is_used_witness :
  connection_to (state_after [Connected (mkConnection 0 Anonymous)]) (mkSpkiHash [1]) = None.
Proof.
  exact (latest_connection_is_used [Connected (mkConnection 0 Anonymous)] (mkSpkiHash [1])
    (history_open [] (mkConnection 0 Anonymous) history_nil (λ c' Hc, False_ind _ (proj1 (elem_of_nil _) Hc)))).
Defined.
