(* ===== verification/Streaming.v ===== *)
(** * Streams of messages between nodes ([svalin/src/message_streaming])

    A session and an agent each keep two commands open: one on which they
    send messages to the server, and one on which they receive. On each of
    them one side writes a message and waits for the answer before it writes
    the next one. This file holds the four message types, both ends of both
    commands ([client.rs], [agent.rs], [with_client.rs], [with_agent.rs]), and
    what the server does with a message of a session or of an agent. What the
    server sends is in [MlsStream]. *)
From S2P Require Import Prelude.
From S2P Require Import External.
From S2P Require Import Toy.
From S2P Require Import Spki.
From S2P Require Import Sql.
From S2P Require Import Certificate.
From S2P Require Import Credential.
From S2P Require Import SecureChain.
From S2P Require Import TrustStore.
From S2P Require Import TransactionStore.
From S2P Require Import GroupId.
From S2P Require Import ServerStore.
From S2P Require Import ClientStore.
From S2P Require Import Verifiers.
From S2P Require Import Mls.
From S2P Require Import MlsServer.
From S2P Require Import MlsMember.
From S2P Require Import Transport.
From S2P Require Import Script.
From S2P Require Import TlsTransport.
From stdpp Require Import relations.
From stdpp Require Import options.

#[local] Open Scope Z_scope.

(** ** The two ends of a stream

    [Message] is one of the four message types. *)
Section stream.
Context {Message : Type} `{!Postcard Message, !Postcard (result () ())}.

Inductive StreamFailure :=
  | StreamWrite (e : ObjectWriterError)
  | StreamRead (e : ObjectReaderError)
  | ExpectedCertificate
  | ExpectedSession
  | ExpectedAgent.

(** What the senders of feedback were given, by the number of their oneshot
    channel. One that is not among them has lost its sender. *)
Definition Feedback : Type := list (nat * result () ()).

Definition give_feedback {E} (feedback : option nat) (r : result () ()) : script Feedback E () :=
  match feedback with
  | Some sender => given ← get; put (given ++ [(sender, r)])
  | None => mret ()
  end.

(** What [send_with_feedback] comes to. *)
Definition feedback_result (given : Feedback) (sender : nat) : result () () :=
  from_option (λ g, g.2.2) (Err ()) (list_find (λ g, g.1 = sender) given).

(** [write_object], then [read_object::<Result<(), ()>>]. *)
Definition exchange_message {S} (message : Message) : script S StreamFailure (result () ()) :=
  _ ← script_map_err StreamWrite (write_object message);
  script_map_err StreamRead (read_object (U := result () ())).

(** [dispatch] of the side that sends: [queue] is what its channel yields
    before all senders are gone; [stops] are the messages that end the loop
    without being sent. *)
Fixpoint send_queue (goodbye : Message) (stops : Message → bool) (queue : list (Message * option nat)) :
    script Feedback StreamFailure () :=
  match queue with
  | [] => _ ← exchange_message goodbye; mret ()
  | (message, feedback) :: queue =>
      if stops message then _ ← exchange_message goodbye; mret ()
      else
        result ← exchange_message message;
        _ ← give_feedback feedback result;
        send_queue goodbye stops queue
  end.

(** The loop of the side that handles messages. [rounds] is the number of
    messages after which the token is cancelled. *)
Fixpoint handle_messages {S E} (handle : Message → io S E bool) (rounds : nat) : script S StreamFailure () :=
  match rounds with
  | O => mret ()
  | Datatypes.S rounds =>
      message ← script_map_err StreamRead (read_object (U := Message));
      handle_result ← perform (handle message);
      let shutdown := match handle_result with Ok shutdown => shutdown | _ => false end in
      let response := match handle_result with Ok _ => Ok () | _ => Err () end in
      _ ← script_map_err StreamWrite (write_object (response : result () ()));
      if shutdown : bool then mret () else handle_messages handle rounds
  end.

(** *** They meet *)

(** What handling the messages one after the other leaves behind, and the
    answers; [None] when one of them unwinds or ends the stream. *)
Fixpoint handle_in_order {S E} (handle : Message → io S E bool) (s : S) (messages : list Message) :
    option (S * list (result () ())) :=
  match messages with
  | [] => Some (s, [])
  | message :: messages =>
      match handle message s with
      | (s, Ok false) => '(s, answers) ← handle_in_order handle s messages; Some (s, Ok () :: answers)
      | (s, Err _) => '(s, answers) ← handle_in_order handle s messages; Some (s, Err () :: answers)
      | _ => None
      end
  end.

(** The feedback of a queue, when the answers are these. *)
Definition feedback_of (queue : list (Message * option nat)) (answers : list (result () ())) : Feedback :=
  omap (λ '(q, answer), sender ← snd q; Some (sender, answer)) (zip queue answers).

(** What is written is read again on the other side. *)
Definition arrives {U} `{Postcard U} (x : U) : Prop := ∃ b, sendable x b ∧ from_bytes b = Ok x.

Class ResponsesArrive := {
  ok_arrives : arrives (Ok () : result () ());
  err_arrives : arrives (Err () : result () ());
}.
End stream.
#[global] Arguments ResponsesArrive {_}.

Section meeting.
Context {Message : Type} `{!Postcard Message, !Postcard (result () ()), !ResponsesArrive}.
Context `{TS : TlsStack}.
Context {S E : Type} (handle : Message → io S E bool).
#[local] Set Default Proof Using "Type*".

(** One message on its way and back. *)
Lemma message_meets {E1 A1} message (f : result StreamFailure (result () ()) → script Feedback E1 A1) rounds g n t k h t' r :
  arrives message → handle message t = (t', r) → r ≠ Panic →
  let answer := match r with Ok _ => Ok () | _ => Err () end in
  rtc pair_step
    (mkPair (continue (exchange_message message) f) g n (handle_messages handle (Datatypes.S rounds)) t k [] [] h)
    (mkPair (f (Ok answer)) g n
       (match r with Ok true => mret () | _ => handle_messages handle rounds end) t' k [] [] h).
Proof.
  intros (b & Hb & Hback) Hm Hr answer.
  assert (arrives answer) as (c & Hc & Hcback)
    by (unfold answer; destruct r; [apply ok_arrives|apply err_arrives|done]).
  unfold exchange_message. cbn [handle_messages].
  etransitivity; [eapply client_continue; pair_does client_writes; apply rtc_refl|].
  pair_does server_reads.
  etransitivity; [by eapply server_performs|]. cbn zeta.
  pair_does server_writes. cbn [continue].
  etransitivity; [eapply (client_reads _ _ _ _ _ _ _ _ _ answer c f Hcback)|].
  destruct r as [[]|e|]; [apply rtc_refl..|done].
Qed.

Lemma feedback_given {E1 A1 E2 A2} feedback r g n (q : script S E2 A2) t k h (f : result E1 () → script Feedback E1 A1) :
  rtc pair_step (mkPair (continue (give_feedback feedback r) f) g n q t k [] [] h)
    (mkPair (f (Ok ())) (g ++ match feedback with Some sender => [(sender, r)] | None => [] end) n q t k [] [] h).
Proof.
  destruct feedback as [sender|]; cbn.
  - eapply rtc_l; [by apply step_client|]. cbn. eapply rtc_l; [by apply step_client|]. apply rtc_refl.
  - rewrite app_nil_r. apply rtc_refl.
Qed.

(** A queue is sent, handled in order and answered. *)
Lemma queue_meets goodbye stops queue rounds t t' t'' answers g n k h :
  handle_in_order handle t queue.*1 = Some (t', answers) →
  Forall (λ q, arrives q.1 ∧ stops q.1 = false) queue → arrives goodbye → handle goodbye t' = (t'', Ok true) →
  (length queue < rounds)%nat →
  rtc pair_step (mkPair (send_queue goodbye stops queue) g n (handle_messages handle rounds) t k [] [] h)
    (mkPair (Finished (Ok ())) (g ++ feedback_of queue answers) n (Finished (Ok ())) t'' k [] [] h).
Proof.
  revert rounds t g answers. induction queue as [|[message feedback] queue IH]; intros rounds t g answers Hh Hs Hgoodbye Hbye Hlt;
    (destruct rounds as [|rounds]; [cbn in Hlt; lia|]).
  - injection Hh as <- <-. rewrite app_nil_r. cbn [send_queue].
    etransitivity; [by eapply message_meets|]. apply rtc_refl.
  - apply Forall_cons in Hs as [[Harr Hs] Hq]. cbn in Harr, Hs. cbn [send_queue]. rewrite Hs.
    assert (∃ t1 r answers', handle message t = (t1, r) ∧ r ≠ Panic ∧ r ≠ Ok true ∧
      handle_in_order handle t1 queue.*1 = Some (t', answers') ∧
      answers = match r with Ok _ => Ok () | _ => Err () end :: answers') as (t1 & r & answers' & Hm & Hr & Hr' & Hrest & ->).
    { revert Hh. cbn. destruct (handle message t) as [t1 [[]|e|]]; try done;
        intros ([t2 a] & Hrest & [= -> <-])%bind_Some; eexists _, _, _; by split_and!. }
    etransitivity; [by eapply message_meets|]. cbn zeta.
    etransitivity; [apply feedback_given|].
    replace (match r with Ok true => mret () | _ => handle_messages handle rounds end)
      with (handle_messages handle rounds) by (by destruct r as [[]| |]).
    etransitivity; [apply (IH rounds t1 _ answers'); [done|done|done|done|cbn in Hlt; lia]|].
    replace ((g ++ match feedback with Some sender => _ | None => _ end) ++ feedback_of queue answers')
      with (g ++ feedback_of ((message, feedback) :: queue) (match r with Ok _ => Ok () | _ => Err () end :: answers'));
      [apply rtc_refl|].
    rewrite <-app_assoc. f_equal. by destruct feedback.
Qed.
End meeting.

(** ** Sessions and the server ([client.rs], [with_client.rs]) *)
Section session.
Context `{X509, CR : Crypto, !Rcgen, !Postcard Block}.
Context {ToServer : Type}.

(** The messages of a session. *)
Inductive MessageFromClient :=
  | FromClientMls (message : ToServer)
  | FromClientTrustStore (block : Block)
  | FromClientGoodbye.

Definition client_stops (message : MessageFromClient) : bool :=
  match message with FromClientGoodbye => true | _ => false end.

(** [ClientMessageDispatcher::dispatch]. *)
Definition client_dispatch `{!Postcard MessageFromClient, !Postcard (result () ())}
    (queue : list (MessageFromClient * option nat)) : script Feedback StreamFailure () :=
  send_queue FromClientGoodbye client_stops queue.

(** What the server keeps: the handler of MLS messages, the blocks, the trust
    store, and how many messages have been handled. *)
Record SessionServer (Mls : Type) := mkSessionServer {
  mls_handler : Mls;
  transaction_store : ServerTxStore;
  trust_store : TrustStore;
  readings : nat;
}.
#[global] Arguments mkSessionServer {Mls} _ _ _ _.
#[global] Arguments mls_handler {Mls} _.
#[global] Arguments transaction_store {Mls} _.
#[global] Arguments trust_store {Mls} _.
#[global] Arguments readings {Mls} _.

Inductive ClientMessageFailure (F : Type) :=
  | ClientMlsFailed (e : F)
  | BlockRefused (e : CheckBlockError StoreError)
  | BlockNotAdded (e : ServerTxError).
#[global] Arguments ClientMlsFailed {F} _.
#[global] Arguments BlockRefused {F} _.
#[global] Arguments BlockNotAdded {F} _.

Context {Mls F : Type}.
Implicit Types server : SessionServer Mls.

Definition count_reading server : SessionServer Mls :=
  mkSessionServer (mls_handler server) (transaction_store server) (trust_store server) (1 + readings server).

(** The second case of [MessageHandler::handle]: check, add, apply. *)
Definition handle_block (block : Block) (now : Z) : io (SessionServer Mls) (ClientMessageFailure F) bool := λ server,
  match ts_check (trust_store server) block now with
  | (trust, Err e) => (mkSessionServer (mls_handler server) (transaction_store server) trust (readings server), Err (BlockRefused e))
  | (trust, Panic) => (mkSessionServer (mls_handler server) (transaction_store server) trust (readings server), Panic)
  | (trust, Ok block) =>
      match add_and_broadcast (transaction_store server) block with
      | (txs, Err e) => (mkSessionServer (mls_handler server) txs trust (readings server), Err (BlockNotAdded e))
      | (txs, Panic) => (mkSessionServer (mls_handler server) txs trust (readings server), Panic)
      | (txs, Ok _) =>
          match ts_apply trust block with
          | Ok trust => (mkSessionServer (mls_handler server) txs trust (readings server), Ok false)
          | Err e => (mkSessionServer (mls_handler server) txs trust (readings server), Err e)
          | Panic => (mkSessionServer (mls_handler server) txs trust (readings server), Panic)
          end
      end
  end.

(** [MlsMessageHandler::handle] on the server's own handler. *)
Definition on_mls_handler {A} (m : io Mls F A) : io (SessionServer Mls) (ClientMessageFailure F) A := λ server,
  let '(mls, r) := m (mls_handler server) in
  (mkSessionServer mls (transaction_store server) (trust_store server) (readings server), map_err ClientMlsFailed r).

Context (handle_mls : Certificate → Z → ToServer → io Mls F ()) (clock : nat → Z).

(** [MessageHandler::handle]; the clock is read once for every message. *)
Definition handle_client_message (session : Certificate) (message : MessageFromClient) :
    io (SessionServer Mls) (ClientMessageFailure F) bool := λ server,
  let now := clock (readings server) in
  let handled : io (SessionServer Mls) (ClientMessageFailure F) bool :=
    match message with
    | FromClientMls mls => _ ← on_mls_handler (handle_mls session now mls); mret false
    | FromClientTrustStore block => handle_block block now
    | FromClientGoodbye => mret true
    end in
  handled (count_reading server).

(** The command handler of the server. *)
Definition session_handler `{!Postcard MessageFromClient, !Postcard (result () ())} (peer : Peer) (rounds : nat) :
    script (SessionServer Mls) StreamFailure () :=
  match peer with
  | Anonymous => returns (Err ExpectedCertificate)
  | PeerCertificate peer =>
      if bool_decide (certificate_type peer ≠ UserSession) then returns (Err ExpectedSession)
      else handle_messages (handle_client_message peer) rounds
  end.

(** *** Blocks of sessions *)

(** The server's blocks are where its trust store is. *)
Definition server_in_step server : Prop :=
  stx_current (transaction_store server) = ts_sequence (trust_store server) ∧
  Forall (λ r, r.1 ≤ ts_sequence (trust_store server)) (stx_rows (transaction_store server)).

(** A block has been stored that the trust store never took. *)
Definition server_stuck server : Prop :=
  ts_sequence (trust_store server) < stx_current (transaction_store server) < 2 ^ 63.

(** The block is in the store and in the queue of every subscriber, and
    replaying it leads to the new trust store. *)
Definition block_taken (block : Block) server server' : Prop :=
  (∃ data, to_stdvec block = Ok data ∧
    stx_rows (transaction_store server') =
      stx_rows (transaction_store server) ++ [(ts_sequence (trust_store server) + 1, data)]) ∧
  stx_receivers (transaction_store server') = (λ q, q ++ [block]) <$> stx_receivers (transaction_store server) ∧
  ts_sequence (trust_store server') = ts_sequence (trust_store server) + 1 ∧
  ∀ now, block_time block ≤ now → replay_block now (trust_store server) block = Ok (trust_store server').

Lemma ts_check_keeps (root : RootCertificate) ts b now :
  parsed root → reachable root ts → store_tx_wf (block_transaction b) → (ts_check ts b now).1 = ts.
Proof.
  intros Hp Hr Htx. destruct (reachable_inv root ts Hp Hr) as (Hwf & _).
  unfold ts_check. destruct (state_certificates _ !! _) as [cert|]; [|done].
  pose proof (check_inv store_wf store_tx_wf (store_chain ts) b cert now Hwf Htx) as Hi.
  destruct (check (store_chain ts) b cert now) as [c r]. destruct Hi as [-> _]. by destruct ts.
Qed.

(** A checked block is applied, and replayed at any later time. *)
Lemma checked_block_applies (root : RootCertificate) ts b now cb :
  parsed root → reachable root ts → store_tx_wf (block_transaction b) →
  0 ≤ ts_sequence ts < 2 ^ 63 - 1 →
  ts_check ts b now = (ts, Ok cb) →
  cb = mkCheckedBlock b ∧ block_sequence b = ts_sequence ts + 1 ∧
  ∃ ts', (∀ E, ts_apply (E := E) ts cb = Ok ts') ∧ ts_sequence ts' = ts_sequence ts + 1 ∧ reachable root ts' ∧
    ∀ now', block_time b ≤ now' → replay_block now' ts b = Ok ts'.
Proof.
  intros Hp Hr Htx Hseq Hc. destruct (ts_check_later _ _ _ _ _ Hc) as (-> & Hs & _ & Hlater).
  rewrite wrap_u64_small in Hs by (unfold is_u64; lia).
  destruct (reachable_inv root ts Hp Hr) as (Hwf & _).
  assert (∃ ts', ∀ E, ts_apply (E := E) ts (mkCheckedBlock b) = Ok ts') as [ts' Ha].
  { pose proof Hc as Hc'. unfold ts_check in Hc'. destruct (state_certificates _ !! _) as [cert|]; [|done].
    pose proof (check_inv store_wf store_tx_wf (store_chain ts) b cert now Hwf Htx) as Hi.
    destruct (check (store_chain ts) b cert now) as [c r]. injection Hc' as _ ->. destruct Hi as [_ Hi].
    destruct (Hi _ eq_refl) as (_ & _ & s' & Hs' & _ & Hd). eexists. intros E. unfold ts_apply.
    by rewrite (apply_checked_block _ _ _ Hs' Hd). }
  split_and!; [done|done|]. exists ts'. split_and!; [done| | |].
  - rewrite (ts_apply_sequence _ _ _ (Ha ()%type)). done.
  - by eapply reachable_block.
  - intros now' Ht. unfold replay_block. rewrite (Hlater now' Ht). cbn. apply Ha.
Qed.

Lemma add_and_broadcast_cases (s : ServerTxStore) c b s' r :
  stx_current s = c → 0 ≤ c < 2 ^ 63 - 1 → Forall (λ r, r.1 ≤ c) (stx_rows s) → block_sequence b = c + 1 →
  add_and_broadcast s (mkCheckedBlock b) = (s', r) →
  (s' = s ∧ is_ok r = false ∧ r ≠ Panic) ∨ (s' = s ∧ r = Panic) ∨
  ∃ data, to_stdvec b = Ok data ∧ stx_rows s' = stx_rows s ++ [(c + 1, data)] ∧ stx_current s' = c + 1 ∧
    (stx_receivers s = [] ∧ stx_receivers s' = [] ∧ r = Err StxBroadcastError ∨
     stx_receivers s ≠ [] ∧ r = Ok () ∧ stx_receivers s' = (λ q, q ++ [b]) <$> stx_receivers s).
Proof.
  intros Hc Hb Hrows Hs Ha. unfold add_and_broadcast in Ha. cbn [as_unchecked] in Ha. rewrite Hc, Hs in Ha.
  rewrite wrap_u64_small, Z.eqb_refl in Ha by (unfold is_u64; lia). cbn [negb] in Ha.
  destruct (to_stdvec b) as [data|e|] eqn:Hd; cbn [map_err mbind result_bind] in Ha.
  2: { injection Ha as <- <-. by left. }
  2: { injection Ha as <- <-. by right; left. }
  right; right. exists data. split; [done|].
  assert (as_i64 (c + 1) = c + 1) as Hi by (unfold as_i64; by rewrite (proj2 (Z.ltb_lt _ _)) by lia).
  rewrite Hi, sql_insert_last in Ha by (eapply Forall_impl; [exact Hrows|]; cbn; lia). cbn [map_err] in Ha.
  destruct s as [rows cur recv]. cbn in *. destruct recv as [|q recv]; injection Ha as <- <-; cbn; split_and!; eauto.
Qed.

(** What a session may send: certificates in blocks are parsed when they are
    read. *)
Definition message_wf (message : MessageFromClient) : Prop :=
  match message with FromClientTrustStore block => store_tx_wf (block_transaction block) | _ => True end.

(** Some session's message is handled, however that ends. *)
Definition handles server server' : Prop :=
  ∃ session message r, message_wf message ∧ handle_client_message session message server = (server', r).

Definition same_trust server server' : Prop :=
  transaction_store server' = transaction_store server ∧ trust_store server' = trust_store server.

Lemma handle_block_cases (root : RootCertificate) block now server server' r :
  parsed root → reachable root (trust_store server) → store_tx_wf (block_transaction block) →
  0 ≤ ts_sequence (trust_store server) < 2 ^ 63 - 1 →
  handle_block block now server = (server', r) →
  same_trust server server' ∧ is_ok r = false ∨
  (block_sequence block = ts_sequence (trust_store server) + 1 ∧ ∃ txs r' ts',
    add_and_broadcast (transaction_store server) (mkCheckedBlock block) = (txs, r') ∧
    transaction_store server' = txs ∧
    ts_sequence ts' = ts_sequence (trust_store server) + 1 ∧ reachable root ts' ∧
    (∀ now', block_time block ≤ now' → replay_block now' (trust_store server) block = Ok ts') ∧
    match r' with
    | Ok _ => trust_store server' = ts' ∧ r = Ok false
    | Err e => trust_store server' = trust_store server ∧ r = Err (BlockNotAdded e)
    | Panic => trust_store server' = trust_store server ∧ r = Panic
    end).
Proof.
  intros Hp Hr Htx Hseq Hh. unfold handle_block in Hh.
  pose proof (ts_check_keeps root _ block now Hp Hr Htx) as Hk.
  destruct (ts_check (trust_store server) block now) as [trust [cb|e|]] eqn:Hc; cbn in Hk; subst trust.
  2: { injection Hh as <- <-. by left. }
  2: { injection Hh as <- <-. by left. }
  destruct (checked_block_applies root _ _ _ _ Hp Hr Htx Hseq Hc) as (-> & Hs & ts' & Ha & Hs' & Hr' & Hrep).
  right. split; [done|]. destruct (add_and_broadcast _ _) as [txs r'] eqn:Hadd.
  exists txs, r', ts'. rewrite Ha in Hh. split; [done|].
  destruct r' as [u|e|]; injection Hh as <- <-; by split_and!.
Qed.

(** A server that is stuck stays as it is. *)
Lemma stuck_stays (root : RootCertificate) server server' :
  parsed root → reachable root (trust_store server) → 0 ≤ ts_sequence (trust_store server) < 2 ^ 63 - 2 →
  server_stuck server → handles server server' → same_trust server server'.
Proof.
  intros Hp Hr Hseq Hst (session & message & r & Hwf & Hh). unfold handle_client_message in Hh.
  destruct message as [mls|block|]; cbn in Hwf.
  - apply io_bind_cases in Hh as [(s1 & [] & Hm & [= <- _])|(r' & Hm & _)];
      unfold on_mls_handler in Hm; destruct (handle_mls _ _ _ _) as [m' r1]; by injection Hm as <- _.
  - apply (handle_block_cases root) in Hh as [[Hsame _]|(Hs & txs & r' & ts' & Hadd & Htx & _ & _ & _ & Hr')]; try done; [|cbn; lia].
    unfold add_and_broadcast in Hadd. cbn [as_unchecked count_reading transaction_store trust_store] in Hadd, Hs, Hr'.
    unfold server_stuck in Hst.
    rewrite Hs, wrap_u64_small, (proj2 (Z.eqb_neq _ _)) in Hadd by (unfold is_u64; lia). cbn [negb] in Hadd.
    injection Hadd as <- <-. destruct Hr' as [Ht _]. by split.
  - by injection Hh as <- _.
Qed.

Lemma stuck_server_stays (root : RootCertificate) server server' :
  parsed root → reachable root (trust_store server) → 0 ≤ ts_sequence (trust_store server) < 2 ^ 63 - 2 →
  server_stuck server → rtc handles server server' → same_trust server server'.
Proof.
  intros Hp Hr Hseq Hst Hrtc. induction Hrtc as [server|server s1 server' H1 _ IH]; [done|].
  destruct (stuck_stays root _ _ Hp Hr Hseq Hst H1) as [Etx Ets].
  destruct IH as [Etx' Ets']; [by rewrite Ets|by rewrite Ets|by unfold server_stuck; rewrite Etx, Ets|].
  by split; etransitivity.
Qed.

Lemma session_block_cases (root : RootCertificate) session block server server' r :
  parsed root → reachable root (trust_store server) → store_tx_wf (block_transaction block) →
  0 ≤ ts_sequence (trust_store server) < 2 ^ 63 - 2 → server_in_step server →
  handle_client_message session (FromClientTrustStore block) server = (server', r) →
  (r = Ok false ∧ block_taken block server server' ∧ server_in_step server' ∧ reachable root (trust_store server')) ∨
  (is_ok r = false ∧ same_trust server server') ∨
  (r = Err (BlockNotAdded StxBroadcastError) ∧ stx_receivers (transaction_store server) = [] ∧
   trust_store server' = trust_store server ∧
   (∃ data, to_stdvec block = Ok data ∧ stx_rows (transaction_store server') =
      stx_rows (transaction_store server) ++ [(ts_sequence (trust_store server) + 1, data)]) ∧
   ∀ later, rtc handles server' later → same_trust server' later).
Proof.
  intros Hp Hr Htx Hseq [Hcur Hrows] Hh. unfold handle_client_message in Hh.
  apply (handle_block_cases root) in Hh as [[Hsame Hok]|(Hs & txs & r' & ts' & Hadd & Htx' & Hs' & Hr' & Hrep & Hout)];
    try done; [| |cbn; lia].
  { right; left. by split. }
  cbn [count_reading transaction_store trust_store] in *.
  destruct (add_and_broadcast_cases _ _ _ _ _ Hcur ltac:(lia) Hrows Hs Hadd)
    as [(-> & Hno & Hnp)|[(-> & ->)|(data & Hd & Hrw & Hc & [(Hn & Hn' & ->)|(Hn & -> & Hq)])]].
  - right; left. destruct r' as [u|e|]; [done| |done]. destruct Hout as [Ht ->]. by split.
  - right; left. destruct Hout as [Ht ->]. by split.
  - right; right. destruct Hout as [Ht ->]. subst txs. split_and!; try done; [eauto|].
    intros later. apply (stuck_server_stays root); [done|by rewrite Ht|by rewrite Ht|].
    unfold server_stuck. rewrite Ht, Hc. lia.
  - left. destruct Hout as [Ht ->]. subst txs. unfold block_taken, server_in_step. rewrite Ht, Hs', Hrw, Hc.
    split_and!; eauto. apply Forall_app. split; [|by constructor].
    eapply Forall_impl; [exact Hrows|]. cbn. lia.
Qed.

(** What a block that a session sends does to the server. It is taken:
    stored, sent to every subscriber, and applied, so that the store and the
    trust store stay in step. Or it is refused and nothing changes. Or nobody
    subscribes: then it is stored and not applied, the session is told that it
    failed, and from then on no message of any session changes the trust
    store or the stored blocks. *)
Theorem session_block (root : RootCertificate) session block server server' r :
  parsed root → reachable root (trust_store server) → store_tx_wf (block_transaction block) →
  0 ≤ ts_sequence (trust_store server) < 2 ^ 63 - 2 → server_in_step server →
  handle_client_message session (FromClientTrustStore block) server = (server', r) →
  (r = Ok false ∧ block_taken block server server' ∧ server_in_step server' ∧ reachable root (trust_store server')) ∨
  (is_ok r = false ∧ same_trust server server') ∨
  (r = Err (BlockNotAdded StxBroadcastError) ∧ stx_receivers (transaction_store server) = [] ∧
   trust_store server' = trust_store server ∧
   (∃ data, to_stdvec block = Ok data ∧ stx_rows (transaction_store server') =
      stx_rows (transaction_store server) ++ [(ts_sequence (trust_store server) + 1, data)]) ∧
   ∀ later, rtc handles server' later → same_trust server' later).
Proof. apply session_block_cases. Qed.

(** *** The stream of a session *)
Section meets.
Context `{!Postcard MessageFromClient, !Postcard (result () ()), !ResponsesArrive, TS : TlsStack}.
#[local] Set Default Proof Using "Type*".

(** The messages a session queues, up to the end of its queue, are handled
    by the server each once and in the order of the queue, and whoever waits
    for one of them learns how its handling ended, in every interleaving of
    the two sides; both then end the command without an error. *)
Theorem session_stream_meets (peer : Certificate) queue rounds server server' answers n k h :
  certificate_type peer = UserSession →
  handle_in_order (handle_client_message peer) server queue.*1 = Some (server', answers) →
  Forall (λ q, arrives q.1 ∧ client_stops q.1 = false) queue → arrives FromClientGoodbye → (length queue < rounds)%nat →
  inevitable
    (mkPair (client_dispatch queue) [] n (session_handler (PeerCertificate peer) rounds) server k [] [] h)
    (mkPair (Finished (Ok ())) (feedback_of queue answers) n (Finished (Ok ())) (count_reading server') k [] [] h).
Proof.
  intros Ht Hh Hs Hbye Hlt. apply rtc_inevitable; [|apply finished_nf]. unfold session_handler, client_dispatch.
  rewrite bool_decide_false by (by intros []; rewrite Ht). by eapply (queue_meets (handle_client_message peer) FromClientGoodbye client_stops queue rounds server server' _ answers []).
Qed.
End meets.

(** Only sessions are listened to. *)
Lemma session_handler_refuses `{!Postcard MessageFromClient, !Postcard (result () ())} peer rounds w :
  match peer with Anonymous => True | PeerCertificate c => certificate_type c ≠ UserSession end →
  ∃ e, run (session_handler peer rounds) w = (w, Err e).
Proof.
  destruct peer as [|c]; cbn; [by eexists|]. intros Hc. rewrite bool_decide_true by done. by eexists.
Qed.
End session.
#[global] Arguments MessageFromClient : clear implicits.

(** ** Agents and the server ([agent.rs], [with_agent.rs]) *)
Section agent.
Context `{X509} {ToServer Mls F : Type}.

Inductive MessageFromAgent :=
  | FromAgentMls (message : ToServer)
  | FromAgentGoodbye.

Context `{!Postcard MessageFromAgent, !Postcard (result () ())}.

(** [AgentMessageDispatcher::dispatch]: no message ends the loop. *)
Definition agent_dispatch (queue : list (MessageFromAgent * option nat)) : script Feedback StreamFailure () :=
  send_queue FromAgentGoodbye (λ _, false) queue.

Context (handle_mls : Certificate → Z → ToServer → io Mls F ()) (now : Z).

(** [MessageHandler::handle]. *)
Definition handle_agent_message (agent : Certificate) (message : MessageFromAgent) : io Mls F bool :=
  match message with
  | FromAgentMls mls => _ ← handle_mls agent now mls; mret false
  | FromAgentGoodbye => mret true
  end.

(** The command handler of the server. *)
Definition agent_handler (peer : Peer) (rounds : nat) : script Mls StreamFailure () :=
  match peer with
  | Anonymous => returns (Err ExpectedCertificate)
  | PeerCertificate peer =>
      if bool_decide (certificate_type peer ≠ Agent) then returns (Err ExpectedAgent)
      else handle_messages (handle_agent_message peer) rounds
  end.

Context `{!ResponsesArrive, TS : TlsStack}.
#[local] Set Default Proof Using "Type*".

Lemma agent_stream_meets (peer : Certificate) queue rounds mls mls' answers n k h :
  certificate_type peer = Agent →
  handle_in_order (handle_agent_message peer) mls queue.*1 = Some (mls', answers) →
  Forall (λ q, arrives q.1) queue → arrives FromAgentGoodbye → (length queue < rounds)%nat →
  inevitable
    (mkPair (agent_dispatch queue) [] n (agent_handler (PeerCertificate peer) rounds) mls k [] [] h)
    (mkPair (Finished (Ok ())) (feedback_of queue answers) n (Finished (Ok ())) mls' k [] [] h).
Proof.
  intros Ht Hh Hq Hbye Hlt. apply rtc_inevitable; [|apply finished_nf]. unfold agent_handler, agent_dispatch.
  rewrite bool_decide_false by (by intros []; rewrite Ht). eapply (queue_meets (handle_agent_message peer) FromAgentGoodbye _ queue rounds mls mls' _ answers []); [done| |done..].
  by eapply Forall_impl; [exact Hq|].
Qed.
End agent.

(** ** Worked examples *)
#[local] Existing Instance toy_x509.
#[local] Existing Instance toy_crypto.
#[local] Existing Instance toy_rcgen.
#[local] Existing Instance toy_tls.
#[local] Instance postcard_toy_block : Postcard Block := postcard_one toy_add_block.

(** MLS messages are numbers, which the handler adds up; a negative one is
    an error. *)
Definition toy_handle_mls (sender : Certificate) (now : Z) (message : Z) : io Z () () := λ total,
  if message <? 0 then (total, Err ()) else (total + message, Ok ()).

#[local] Instance postcard_from_client : Postcard (MessageFromClient Z) := {|
  to_stdvec m := match m with
    | FromClientMls n => Ok [0; n]
    | FromClientTrustStore block => data ← to_stdvec block; Ok (1 :: data)
    | FromClientGoodbye => Ok [2] end;
  from_bytes b := match b with
    | [0; n] => Ok (FromClientMls n)
    | 1 :: data => block ← from_bytes data; Ok (FromClientTrustStore block)
    | [2] => Ok FromClientGoodbye
    | _ => Err "message"%string end;
|}.

#[local] Instance postcard_response : Postcard (result () ()) := {|
  to_stdvec r := match r with Ok _ => Ok [0] | Err _ => Ok [1] | Panic => Err "unwound"%string end;
  from_bytes b := match b with [0] => Ok (Ok ()) | [1] => Ok (Err ()) | _ => Err "response"%string end;
|}.

#[local] Instance toy_responses_arrive : ResponsesArrive.
Proof. split; eexists; by split. Qed.

Definition toy_server (receivers : list (list Block)) : SessionServer Z :=
  mkSessionServer 0 (mkServerTxStore [] 0 receivers) toy_store0 0.
Definition toy_step : MessageFromClient Z → io (SessionServer Z) (ClientMessageFailure ()) bool :=
  handle_client_message toy_handle_mls (λ _, 600) (mkCertificate toy_session).

(** The block is taken, and lost when nobody subscribes. *)
Lemma toy_block_taken :
  toy_step (FromClientTrustStore toy_add_block) (toy_server [[]]) =
    (mkSessionServer 0 (mkServerTxStore [(1, [1])] 1 [[as_unchecked toy_add_block]]) toy_store1 1, Ok false).
Proof. vm_compute. reflexivity. Qed.

Lemma toy_block_lost :
  toy_step (FromClientTrustStore toy_add_block) (toy_server []) =
    (mkSessionServer 0 (mkServerTxStore [(1, [1])] 1 []) toy_store0 1, Err (BlockNotAdded StxBroadcastError)).
Proof. vm_compute. reflexivity. Qed.

Lemma session_block_witness :
  ts_sequence toy_store0 = 0 ∧
  ∀ later, rtc (handles toy_handle_mls (F := ()) (λ _, 600))
    (mkSessionServer 0 (mkServerTxStore [(1, [1])] 1 []) toy_store0 1) later → trust_store later = toy_store0.
Proof.
  split; [reflexivity|]. intros later Hl. set (lost := mkSessionServer _ _ _ _) in Hl.
  destruct (session_block toy_handle_mls (λ _, 600) toy_root_certificate (mkCertificate toy_session)
    toy_add_block (toy_server []) lost (Err (BlockNotAdded StxBroadcastError))
    toy_root_parsed (reachable_init _) toy_user_parsed ltac:(vm_compute; split; congruence)
    (conj eq_refl (Forall_nil_2 _)) toy_block_lost) as [(H & _)|[(_ & H & _)|(_ & _ & _ & _ & H)]].
  - discriminate H.
  - discriminate H.
  - exact (proj2 (H later Hl)).
Defined.

Definition toy_queue : list (MessageFromClient Z * option nat) :=
  [(FromClientMls 5, Some 0%nat); (FromClientTrustStore toy_add_block, None); (FromClientMls (-1), Some 1%nat)].

Lemma session_stream_meets_witness :
  ∃ server', trust_store server' = toy_store1 ∧ mls_handler server' = 5 ∧
    inevitable
      (mkPair (client_dispatch toy_queue) [] 0
         (session_handler toy_handle_mls (F := ()) (λ _, 600) (PeerCertificate (mkCertificate toy_session)) 4)
         (toy_server [[]]) 0 [] [] 0)
      (mkPair (Finished (Ok ())) [(0%nat, Ok ()); (1%nat, Err ())] 0 (Finished (Ok ())) server' 0 [] [] 0).
Proof.
  exists (mkSessionServer 5 (mkServerTxStore [(1, [1])] 1 [[as_unchecked toy_add_block]]) toy_store1 4).
  split; [reflexivity|]. split; [reflexivity|].
  refine (session_stream_meets toy_handle_mls (λ _, 600) (mkCertificate toy_session) toy_queue 4 (toy_server [[]])
    (mkSessionServer 5 (mkServerTxStore [(1, [1])] 1 [[as_unchecked toy_add_block]]) toy_store1 3)
    [Ok (); Ok (); Err ()] 0 0 0 eq_refl _ _ _ _).
  - vm_compute. reflexivity.
  - repeat constructor; eexists; (split; [split; [reflexivity|vm_compute; congruence]|reflexivity]).
  - eexists. split; [split; [reflexivity|vm_compute; congruence]|reflexivity].
  - cbn. lia.
Defined.
