(* ===== verification/Receivers.v ===== *)
(** * What sessions and agents do with the messages of the server

    The receiving ends of [svalin/src/message_streaming/client.rs] and
    [agent.rs], the task that keeps the state of a client and tells its
    subscribers of every change ([ClientStateHandle] in [client.rs], with
    [svalin/src/client/state.rs]), and the operations of
    [svalin/src/client/device.rs] and [svalin/src/agent/mls.rs] that send. *)
From S2P Require Import Prelude.
From S2P Require Import External.
From S2P Require Import Toy.
From S2P Require Import Spki.
From S2P Require Import Certificate.
From S2P Require Import GroupId.
From S2P Require Import ServerStore.
From S2P Require Import ClientStore.
From S2P Require Import Verifiers.
From S2P Require Import Mls.
From S2P Require Import MlsServer.
From S2P Require Import MlsMember.
From S2P Require Import Transport.
From S2P Require Import Script.
From S2P Require Import Streaming.
From stdpp Require Import options.

#[local] Open Scope Z_scope.

(** ** The state of a client ([client/state.rs]) *)
Section state.
Context `{Sysinfo}.

Record ClientState := mkClientState {
  persistent : ClientStore.State;
  agents_online : gset SpkiHash;
}.

Inductive ClientStateUpdate :=
  | Persistent (message : ClientStore.Message)
  | AgentOnline (spki_hash : SpkiHash) (online : bool).

Definition client_state_new (persistent : ClientStore.State) : ClientState := mkClientState persistent ∅.

Definition client_state_empty : ClientState := client_state_new ClientStore.empty.

Definition client_state_update (self : ClientState) (msg : ClientStateUpdate) : ClientState :=
  match msg with
  | Persistent msg => mkClientState (state_update (persistent self) msg) (agents_online self)
  | AgentOnline spki_hash online =>
      mkClientState (persistent self)
        (if online then {[ spki_hash ]} ∪ agents_online self else agents_online self ∖ {[ spki_hash ]})
  end.

Definition agent_online (self : ClientState) (spki_hash : SpkiHash) : bool :=
  bool_decide (spki_hash ∈ agents_online self).

Lemma update_online self h online : agent_online (client_state_update self (AgentOnline h online)) h = online.
Proof. unfold agent_online. destruct online; cbn; [apply bool_decide_true|apply bool_decide_false]; set_solver. Qed.

(** ** The task of [ClientStateHandle::initialize]

    The broadcast channel is the queues of its receivers, which are not
    bounded here; a receiver that lags behind is not modelled. *)
Record Subscriber := mkSubscriber {
  snapshot : ClientState;
  taken : list ClientStateUpdate;
  queued : list ClientStateUpdate;
}.

Record ClientActor := mkClientActor {
  actor_store : ClientStore;
  actor_state : ClientState;
  update_broadcast : list Subscriber;
}.

Inductive ClientStateRequest :=
  | RequestUpdate (message : ClientStateUpdate)
  | RequestSubscribe.

Context `{!Postcard SvalinReport, !Postcard SvalinMetaInfo}.

Definition actor_initialize (store : ClientStore) : result Error ClientActor :=
  persistent ← load_persistent store;
  Ok (mkClientActor store (client_state_new persistent) []).

(** A failed write to the store is logged; [Panic] is the task unwinding. *)
Definition actor_store_update (store : ClientStore) (message : ClientStateUpdate) : result Error ClientStore :=
  match message with
  | Persistent message =>
      match client_update store message with Err _ => Ok store | r => r end
  | AgentOnline _ _ => Ok store
  end.

Definition publish (message : ClientStateUpdate) (s : Subscriber) : Subscriber :=
  mkSubscriber (snapshot s) (taken s) (queued s ++ [message]).

(** One turn of the loop. *)
Definition actor_handle (self : ClientActor) (request : ClientStateRequest) : result Error ClientActor :=
  match request with
  | RequestSubscribe =>
      Ok (mkClientActor (actor_store self) (actor_state self)
            (update_broadcast self ++ [mkSubscriber (actor_state self) [] []]))
  | RequestUpdate message =>
      store ← actor_store_update (actor_store self) message;
      Ok (mkClientActor store (client_state_update (actor_state self) message)
            (publish message <$> update_broadcast self))
  end.

(** What may happen to the task: a request, a subscriber that takes the next
    update, and one that goes away. *)
Inductive ActorEvent :=
  | ActorRequest (request : ClientStateRequest)
  | SubscriberTakes (i : nat)
  | SubscriberLeaves (i : nat).

Definition take_update (s : Subscriber) : Subscriber :=
  match queued s with
  | [] => s
  | message :: queue => mkSubscriber (snapshot s) (taken s ++ [message]) queue
  end.

Definition actor_event (self : ClientActor) (event : ActorEvent) : result Error ClientActor :=
  match event with
  | ActorRequest request => actor_handle self request
  | SubscriberTakes i =>
      Ok (mkClientActor (actor_store self) (actor_state self) (alter take_update i (update_broadcast self)))
  | SubscriberLeaves i =>
      Ok (mkClientActor (actor_store self) (actor_state self) (delete i (update_broadcast self)))
  end.

(** What a subscriber makes of its snapshot and the updates it has taken. *)
Definition seen (s : Subscriber) : ClientState := foldl client_state_update (snapshot s) (taken s).

Definition follows (state : ClientState) (s : Subscriber) : Prop :=
  foldl client_state_update (seen s) (queued s) = state.

Lemma actor_event_follows self event self' :
  actor_event self event = Ok self' → Forall (follows (actor_state self)) (update_broadcast self) →
  Forall (follows (actor_state self')) (update_broadcast self').
Proof.
  intros He Hf. destruct event as [[message|]|i|i]; cbn in He.
  - apply bind_Ok in He as (store & _ & [= <-]). cbn. apply Forall_fmap.
    eapply Forall_impl; [exact Hf|]. intros s Hs. unfold follows. cbn. rewrite foldl_app. cbn. f_equal. exact Hs.
  - injection He as <-. cbn. apply Forall_app. split; [done|]. by constructor.
  - injection He as <-. cbn. apply Forall_forall. intros s [j Hj]%list_elem_of_lookup.
    rewrite list_lookup_alter in Hj. case_decide.
    + apply fmap_Some in Hj as (s0 & Hs0 & ->).
      pose proof (Forall_lookup_1 _ _ _ _ Hf Hs0) as Hs. unfold follows, seen, take_update in *.
      destruct (queued s0) as [|m q] eqn:Hq; [by rewrite Hq|]. cbn in *. by rewrite foldl_app.
    + by eapply Forall_lookup_1.
  - injection He as <-. cbn. apply Forall_forall. intros s [j Hj]%list_elem_of_lookup.
    destruct (decide (j < i)%nat) as [Hlt|Hge].
    + rewrite list_lookup_delete_lt in Hj by done. by eapply Forall_lookup_1.
    + rewrite list_lookup_delete_ge in Hj by lia. by eapply Forall_lookup_1.
Qed.

(** Subscribers to the state of a client miss nothing and see nothing
    twice: whatever requests come and however the subscribers take their
    updates, for every subscriber the state it was given, changed by the
    updates it has taken and those that still wait for it, is the state of the
    client; one that has taken them all has exactly that state. *)
Theorem subscribers_follow store actor events actor' :
  actor_initialize store = Ok actor → foldM actor_event actor events = Ok actor' →
  ∀ s, s ∈ update_broadcast actor' →
    foldl client_state_update (seen s) (queued s) = actor_state actor' ∧
    (queued s = [] → seen s = actor_state actor').
Proof.
  intros (p & _ & [= <-])%bind_Ok Hev.
  assert (∀ a, Forall (follows (actor_state a)) (update_broadcast a) → foldM actor_event a events = Ok actor' →
    Forall (follows (actor_state actor')) (update_broadcast actor')) as Hgen.
  { clear Hev. induction events as [|e events IH]; intros a Ha Hev; [by injection Hev as <-|].
    apply bind_Ok in Hev as (a1 & He & Hev). eapply IH; [|exact Hev]. by eapply actor_event_follows. }
  specialize (Hgen (mkClientActor store (client_state_new p) []) (Forall_nil_2 _) Hev). intros s Hs. rewrite Forall_forall in Hgen.
  specialize (Hgen s Hs). split; [exact Hgen|]. intros Hq. unfold follows in Hgen. by rewrite Hq in Hgen.
Qed.

(** *** Where the reports of the state come from *)
Lemma update_report_source s m d r :
  (∀ other, m ≠ UpdateFromMainState other) → report_at (state_update s m) d = Some r →
  report_at s d = Some r ∨ m = UpdateSystemReport d r.
Proof.
  intros Hm. destruct m as [h r'|h i|other]; [| |by destruct (Hm other)];
    unfold report_at, state_update, set_device, get_device_entry; cbn [devices];
    (destruct (decide (h = d)) as [->|Hne]; [|rewrite lookup_insert_ne by done; by left]);
    rewrite lookup_insert_eq; cbn.
  - intros [= ->]. by right.
  - by left.
Qed.

Lemma actor_report_source requests actor actor' d r :
  (∀ other, RequestUpdate (Persistent (UpdateFromMainState other)) ∉ requests) →
  foldM actor_handle actor requests = Ok actor' →
  report_at (persistent (actor_state actor')) d = Some r →
  report_at (persistent (actor_state actor)) d = Some r ∨
  RequestUpdate (Persistent (UpdateSystemReport d r)) ∈ requests.
Proof.
  revert actor. induction requests as [|request requests IH]; intros actor Hd Hf Hr; [injection Hf as ->; by left|].
  apply bind_Ok in Hf as (a1 & Ha & Hf).
  destruct (IH a1) as [H1|H1]; [set_solver|done|done| |by right; right].
  destruct request as [message|]; [|injection Ha as <-; by left].
  apply bind_Ok in Ha as (store & _ & [= <-]). cbn in H1.
  destruct message as [m|h online]; [|by left]. cbn in H1.
  apply update_report_source in H1 as [H1| ->]; [by left|right; by left|].
  intros other ->. by apply (Hd other); left.
Qed.
End state.
#[global] Arguments ClientStateUpdate {_}.
#[global] Arguments ClientStateRequest {_}.

(** ** Sessions *)
Section session.
Context `{MlsPrivate} `{Hex} {K : Type} `{!KeyRetriever K} `{Verifier V}.
Context `{Sysinfo, !Postcard (SvalinMessage SvalinReport SvalinMetaInfo)}.
Context (clock : nat → Z).

Abbreviation Node := (MlsNode (K := K) (V := V)).

Inductive MessageToClient :=
  | AgentOnlineStatus (spki_hash : SpkiHash) (online : bool)
  | ToClientMls (message : MessageToMemberTransport)
  | ToClientGoodbye.

(** The MLS state and what was sent to the task. *)
Record ClientReceiver := mkClientReceiver {
  receiver_mls : Node;
  update_sender : list ClientStateRequest;
}.
Implicit Types receiver : ClientReceiver.

Definition update_client_state (update : ClientStateUpdate) : io ClientReceiver ClientFailure () := λ receiver,
  (mkClientReceiver (receiver_mls receiver) (update_sender receiver ++ [RequestUpdate update]), Ok ()).

Definition on_receiver_mls {A} (m : io Node ClientFailure A) : io ClientReceiver ClientFailure A := λ receiver,
  let '(mls, r) := m (receiver_mls receiver) in (mkClientReceiver mls (update_sender receiver), r).

(** [ClientMessageReceiver::handle]. *)
Definition handle_to_client (message : MessageToClient) : io ClientReceiver ClientFailure bool :=
  match message with
  | ToClientMls message =>
      message ← on_receiver_mls (client_handle_message clock message);
      _ ← match data_content message with
          | Internal => mret ()
          | DataReport spki_hash report => update_client_state (Persistent (UpdateSystemReport spki_hash report))
          | DataMetaInfo spki_hash meta_info => update_client_state (Persistent (UpdateMetaInfo spki_hash meta_info))
          end;
      mret false
  | AgentOnlineStatus spki_hash online =>
      _ ← update_client_state (AgentOnline spki_hash online);
      mret false
  | ToClientGoodbye => mret true
  end.

(** [ClientMessageReceiver::dispatch]. *)
Definition client_receiver_dispatch `{!Postcard MessageToClient, !Postcard (result () ())} (rounds : nat) :
    script ClientReceiver StreamFailure () :=
  handle_messages handle_to_client rounds.

(** [DeviceHandle::update_metainfo]; the state is the MLS state, the channel
    to the task, and the queue of messages to the server. *)
Record ClientSender (Message : Type) := mkClientSender {
  sender_mls : Node;
  sender_updates : list ClientStateRequest;
  sender_queue : list (Message * option nat);
}.
#[global] Arguments mkClientSender {Message} _ _ _.
#[global] Arguments sender_mls {Message} _.
#[global] Arguments sender_updates {Message} _.
#[global] Arguments sender_queue {Message} _.

Definition update_metainfo {Message} (device : SpkiHash) (metainfo : SvalinMetaInfo) :
    io (ClientSender Message) ClientFailure () := λ client,
  let '(mls, r) := send_meta_info (Report := SvalinReport) device metainfo (sender_mls client) in
  match r with
  | Ok _ =>
      (mkClientSender mls
         (sender_updates client ++ [RequestUpdate (Persistent (UpdateMetaInfo device metainfo))])
         (sender_queue client), Ok ())
  | Err e => (mkClientSender mls (sender_updates client) (sender_queue client), Err e)
  | Panic => (mkClientSender mls (sender_updates client) (sender_queue client), Panic)
  end.

(** The receiver after some messages, whatever became of each of them. *)
Definition receive_all (receiver : ClientReceiver) (messages : list MessageToClient) : ClientReceiver :=
  foldl (λ receiver message, (handle_to_client message receiver).1) receiver messages.

(** One message: what it adds to the channel, and where a report is from. *)
Lemma handle_to_client_source message receiver :
  ∃ new, update_sender (handle_to_client message receiver).1 = update_sender receiver ++ new ∧
    (∀ other, RequestUpdate (Persistent (UpdateFromMainState other)) ∉ new) ∧
    ∀ d r, RequestUpdate (Persistent (UpdateSystemReport d r)) ∈ new →
      ∃ m pm, message = ToClientMls m ∧ to_member_unpack m = Ok (MemberGroupMessage pm) ∧
        from_group_id (message_group (PrivateMessage pm)) = Ok (DeviceGroup d) ∧
        sent_by (processor (receiver_mls receiver)) (PrivateMessage pm) d.
Proof.
  destruct message as [h online|m|].
  - eexists. split; [done|]. split; set_solver.
  - destruct (handle_to_client (ToClientMls m) receiver) as [receiver' r] eqn:Hh. cbn [fst].
    apply io_bind_cases in Hh as [(r1 & data & Hm & Hk)|(r' & Hm & _)]; unfold on_receiver_mls in Hm;
      destruct (client_handle_message clock m (receiver_mls receiver)) as [mls res] eqn:Hc.
    2:{ injection Hm as <- _. exists []. rewrite app_nil_r. split; [done|]. split; set_solver. }
    injection Hm as <- ->. apply client_data_source in Hc as [Hrep _].
    apply io_bind_cases in Hk as [(r2 & [] & Hu & [= <- _])|(r' & Hu & Hno & _)].
    2:{ destruct (data_content data); injection Hu as _ <-; done. }
    destruct (data_content data) as [d rep|d info|] eqn:Hd; injection Hu as <-; cbn [update_sender receiver_mls].
    + eexists. split; [done|]. split; [set_solver|]. intros d' rep' [= -> ->]%list_elem_of_singleton.
      destruct (Hrep _ _ eq_refl) as (_ & pm & Hu' & Hg & Hs). by exists m, pm.
    + eexists. split; [done|]. split; set_solver.
    + exists []. rewrite app_nil_r. split; [done|]. split; set_solver.
  - exists []. cbn. rewrite app_nil_r. split; [done|]. split; set_solver.
Qed.

(** The message at position [i] carries a report of the device [d], as the
    node saw it that had received the messages before it. *)
Definition reported_at receiver (messages : list MessageToClient) (d : SpkiHash) (i : nat) : Prop :=
  ∃ m pm, messages !! i = Some (ToClientMls m) ∧ to_member_unpack m = Ok (MemberGroupMessage pm) ∧
    from_group_id (message_group (PrivateMessage pm)) = Ok (DeviceGroup d) ∧
    sent_by (processor (receiver_mls (receive_all receiver (take i messages)))) (PrivateMessage pm) d.

Lemma receive_all_source messages receiver :
  ∃ new, update_sender (receive_all receiver messages) = update_sender receiver ++ new ∧
    (∀ other, RequestUpdate (Persistent (UpdateFromMainState other)) ∉ new) ∧
    ∀ d r, RequestUpdate (Persistent (UpdateSystemReport d r)) ∈ new → ∃ i, reported_at receiver messages d i.
Proof.
  revert receiver. induction messages as [|message messages IH]; intros receiver.
  - exists []. cbn. rewrite app_nil_r. split; [done|]. split; set_solver.
  - destruct (handle_to_client_source message receiver) as (n1 & E1 & D1 & S1).
    destruct (IH (handle_to_client message receiver).1) as (n2 & E2 & D2 & S2).
    exists (n1 ++ n2). change (receive_all receiver (message :: messages))
      with (receive_all (handle_to_client message receiver).1 messages).
    split; [by rewrite E2, E1, app_assoc|]. split; [set_solver|].
    intros d r [Hin1|Hin1]%elem_of_app.
    + destruct (S1 d r Hin1) as (m & pm & -> & Hu & Hg & Hs). by exists 0%nat, m, pm.
    + destruct (S2 d r Hin1) as (i & m & pm & Hm & Hu & Hg & Hs). by exists (S i), m, pm.
Qed.

(** The state of a client shows a report of a device only if the device
    sent it: a report that is in the state after the task has handled what the
    receiver sent it, and any subscriptions in between, was there before, or
    came in a message that MLS attributes to that device, in the device's own
    group, among the messages the server delivered. *)
Theorem report_shown_was_sent `{!Postcard SvalinReport, !Postcard SvalinMetaInfo} receiver messages requests actor actor' d r :
  update_sender receiver = [] →
  (∀ request, request ∈ requests → request = RequestSubscribe ∨ request ∈ update_sender (receive_all receiver messages)) →
  foldM actor_handle actor requests = Ok actor' →
  report_at (persistent (actor_state actor')) d = Some r →
  report_at (persistent (actor_state actor)) d = Some r ∨ ∃ i, reported_at receiver messages d i.
Proof.
  intros Hnone Hreq Hf Hr. destruct (receive_all_source messages receiver) as (new & E & D & S).
  rewrite Hnone in E. cbn in E. rewrite E in Hreq.
  assert (∀ other, RequestUpdate (Persistent (UpdateFromMainState other)) ∉ requests) as Hno.
  { intros other Hin. destruct (Hreq _ Hin) as [[=]|Hin']. by eapply D. }
  destruct (actor_report_source _ _ _ _ _ Hno Hf Hr) as [Hin1|Hin1]; [by left|right].
  destruct (Hreq _ Hin1) as [[=]|Hin2]. by eapply S.
Qed.

(** Changed meta information reaches the state of this client only: the
    message made for the other members is dropped. *)
Lemma metainfo_not_sent {Message} device metainfo (client client' : ClientSender Message) :
  update_metainfo device metainfo client = (client', Ok ()) →
  sender_queue client' = sender_queue client ∧
  sender_updates client' =
    sender_updates client ++ [RequestUpdate (Persistent (UpdateMetaInfo device metainfo))] ∧
  ∃ message, send_meta_info (Report := SvalinReport) device metainfo (sender_mls client) =
    (sender_mls client', Ok message).
Proof.
  unfold update_metainfo. destruct (send_meta_info _ _ _) as [mls [m|e|]]; intros [= <-]. cbn. eauto.
Qed.
End session.

(** ** Agents *)
Section agent.
Context `{MlsPrivate} `{Hex} {K : Type} `{!KeyRetriever K} `{Verifier V}.
Context `{Sysinfo, !Postcard (SvalinMessage SvalinReport SvalinMetaInfo)}.
Context (clock : nat → Z) (me : SpkiHash).

Abbreviation Node := (MlsNode (K := K) (V := V)).

Inductive MessageToAgent :=
  | ToAgentMls (message : MessageToMemberTransport)
  | ToAgentGoodbye.

(** [AgentMessageReceiver::handle]. *)
Definition handle_to_agent (message : MessageToAgent) : io Node ClientFailure bool :=
  match message with
  | ToAgentMls message => _ ← agent_handle_message clock me message; mret false
  | ToAgentGoodbye => mret true
  end.

(** [AgentMessageReceiver::dispatch]. *)
Definition agent_receiver_dispatch `{!Postcard MessageToAgent, !Postcard (result () ())} (rounds : nat) :
    script Node StreamFailure () :=
  handle_messages handle_to_agent rounds.

(** The sending side of an agent: its MLS state and the queue of its
    dispatcher. *)
Record AgentSender := mkAgentSender {
  agent_mls : Node;
  agent_queue : list (MessageFromAgent (ToServer := MessageToServerTransport) * option nat);
}.

Definition on_agent_mls {A} (m : io Node ClientFailure A) : io AgentSender ClientFailure A := λ agent,
  let '(mls, r) := m (agent_mls agent) in (mkAgentSender mls (agent_queue agent), r).

(** [AgentMessageDispatcherHandle::send]. *)
Definition agent_send (message : MessageFromAgent (ToServer := MessageToServerTransport)) :
    io AgentSender ClientFailure () := λ agent,
  (mkAgentSender (agent_mls agent) (agent_queue agent ++ [(message, None)]), Ok ()).

(** [agent/mls.rs]. *)
Definition ensure_group_exists : io AgentSender ClientFailure () :=
  message ← on_agent_mls (create_device_group_if_missing clock me);
  match message with
  | Some message => agent_send (FromAgentMls message)
  | None => mret ()
  end.

Definition send_system_report (report : SvalinReport) : io AgentSender ClientFailure () :=
  message ← on_agent_mls (send_report (MetaInfo := SvalinMetaInfo) me report);
  agent_send (FromAgentMls message).

(** [schedule_system_reports]: a report at once, and one after each of the
    signals and timeouts until the token is cancelled; failures are logged.
    [reports] is what [generate_system_report] gives, [None] for an error. *)
Fixpoint schedule_system_reports (reports : list (option SvalinReport)) : io AgentSender ClientFailure () := λ agent,
  match reports with
  | [] => (agent, Ok ())
  | None :: reports => schedule_system_reports reports agent
  | Some report :: reports =>
      match send_system_report report agent with
      | (agent, Panic) => (agent, Panic)
      | (agent, _) => schedule_system_reports reports agent
      end
  end.
End agent.

(** ** Worked examples *)
#[local] Existing Instance toy_x509.
#[local] Existing Instance toy_crypto.
#[local] Existing Instance no_disks.
#[local] Existing Instance postcard_report.
#[local] Existing Instance postcard_meta.
#[local] Existing Instance toy_mls.
#[local] Existing Instance toy_hex.
#[local] Existing Instance toy_retriever.
#[local] Existing Instance toy_wire.
#[local] Existing Instance toy_private.

#[local] Instance postcard_toy_message : Postcard (SvalinMessage SvalinReport SvalinMetaInfo) := {|
  to_stdvec m := match m with ReportMessage r => data ← to_stdvec r; Ok (0 :: data) | _ => Err "unsupported"%string end;
  from_bytes b := match b with 0 :: data => r ← from_bytes data; Ok (ReportMessage r) | _ => Err "message"%string end;
|}.

Definition toy_actor : ClientActor := mkClientActor (mkClientStore [] []) client_state_empty [].

Definition toy_events : list ActorEvent :=
  [ActorRequest RequestSubscribe; ActorRequest (RequestUpdate (AgentOnline toy_device true)); SubscriberTakes 0;
   ActorRequest RequestSubscribe;
   ActorRequest (RequestUpdate (Persistent (UpdateSystemReport toy_device (ClientStore.toy_report 10))))].

Lemma subscribers_follow_witness :
  ∃ actor s, foldM actor_event toy_actor toy_events = Ok actor ∧ update_broadcast actor !! 0%nat = Some s ∧
    length (queued s) = 1%nat ∧ foldl client_state_update (seen s) (queued s) = actor_state actor.
Proof.
  destruct (foldM actor_event toy_actor toy_events) as [actor|e|] eqn:E; [|vm_compute in E; discriminate..].
  destruct (update_broadcast actor !! 0%nat) as [s|] eqn:Hs; [|vm_compute in E; injection E as <-; discriminate].
  exists actor, s. split; [reflexivity|]. split; [exact Hs|]. split.
  - vm_compute in E. injection E as <-. vm_compute in Hs. injection Hs as <-. reflexivity.
  - refine (proj1 (subscribers_follow (mkClientStore [] []) toy_actor toy_events actor eq_refl E s _)).
    apply (list_elem_of_lookup_2 _ 0%nat), Hs.
Defined.

Definition toy_receiver : ClientReceiver := mkClientReceiver toy_client [].
Definition toy_delivered : list MessageToClient :=
  [AgentOnlineStatus (spki_hash toy_agent) true; ToClientMls (GroupMessageTransport [4])].
Definition toy_sent_report : ClientStateRequest :=
  RequestUpdate (Persistent (UpdateSystemReport (spki_hash toy_agent) (ClientStore.toy_report 42))).

Lemma toy_delivered_updates :
  update_sender (receive_all toy_clock toy_receiver toy_delivered) =
    [RequestUpdate (AgentOnline (spki_hash toy_agent) true); toy_sent_report].
Proof. vm_compute. reflexivity. Qed.

Lemma toy_report_shown :
  ∃ actor, foldM actor_handle toy_actor [toy_sent_report; RequestSubscribe] = Ok actor ∧
    report_at (persistent (actor_state actor)) (spki_hash toy_agent) = Some (ClientStore.toy_report 42).
Proof. eexists. split; vm_compute; reflexivity. Qed.

Lemma report_shown_was_sent_witness : ∃ i, reported_at toy_clock toy_receiver toy_delivered (spki_hash toy_agent) i.
Proof.
  destruct toy_report_shown as (actor & Hf & Hr).
  destruct (report_shown_was_sent toy_clock toy_receiver toy_delivered [toy_sent_report; RequestSubscribe]
    toy_actor actor (spki_hash toy_agent) (ClientStore.toy_report 42) eq_refl) with (2 := Hf) (3 := Hr) as [Hn|Hi].
  - intros request Hin. apply elem_of_cons in Hin as [->|Hin].
    + right. rewrite toy_delivered_updates. right. left.
    + left. apply list_elem_of_singleton, Hin.
  - discriminate Hn.
  - exact Hi.
Defined.
