(* ===== verification/MlsStream.v ===== *)
(** * How the server streams stored messages to a receiver

    [stream_mls_messages_inner], [handle_connection] and [stream_agent_online_status]
    of [svalin/src/message_streaming/with_client.rs] (agents use the first, and a
    copy of the second, in [with_agent.rs]), as one step relation over the
    task that streams, the connection, and the message store with the task of
    its [SubscriptionManager]. Steps of the three, of other senders, and the
    failures of the connection interleave in any order. *)
From S2P Require Import Prelude.
From S2P Require Import External.
From S2P Require Import Spki.
From S2P Require Import ServerStore.
From stdpp Require Import relations.
From stdpp Require Import options.
Import Messages.

#[local] Open Scope Z_scope.

Section stream.
Context {Uuid : Type} `{EqDecision Uuid} {Message : Type} `{Postcard Message}.
(** [Out] is [MessageToClient] or [MessageToAgent]; [me] is the channel of the
    subscription. *)
Context {Out : Type} (transform : Message → Out) (receiver : SpkiHash) (me : nat).

(** What waits to be sent: a message, and the feedback channel that goes with
    it, named by the stored message it is for. *)
Definition Outgoing : Type := Out * option Uuid.

(** The message store as the rest of the server sees it: the tables, the
    messages that were stored and not yet handed to the subscription task, the
    queue of that task, and its map. *)
Record Mail := mkMail {
  mail_store : MessageStore (Uuid := Uuid);
  mail_stored : list (Uuid * MessageToSend (Message := Message));
  mail_requests : list (SubscriptionRequest (Uuid := Uuid) (Message := Message));
  mail_subscribed : gmap SpkiHash nat;
}.

Inductive LinkState :=
  | Idle
  | Written (out : Out) (feedback : option Uuid)
  | Answered (r : result () ()) (feedback : option Uuid)
  | Closed.

(** The channel of the connection, the state of [handle_connection], and what
    the receiver has handled so far, with its answers. *)
Record Link := mkLink {
  link_channel : list Outgoing;
  link_connection : LinkState;
  link_handled : list (Outgoing * result () ());
}.

(** Where [stream_mls_messages_inner] is; the list is what is left of
    [current]. *)
Inductive Task :=
  | Loading
  | Subscribing (current : list (Uuid * Message))
  | NextMessage (current : list (Uuid * Message))
  | Sending (message : Uuid * Message) (current : list (Uuid * Message))
  | AwaitingFeedback (id : Uuid) (current : list (Uuid * Message))
  | Acknowledging (id : Uuid) (current : list (Uuid * Message))
  | Ended (r : result () ()).

Inductive Oneshot := Open | Given (r : result () ()) | Dropped.

(** The task, its oneshot channel and its subscription; [fed] is what it was
    given so far, loaded or delivered. *)
Record Worker := mkWorker {
  worker_task : Task;
  worker_oneshot : Oneshot;
  worker_subscription : list (Uuid * Message);
  fed : list (Uuid * Message);
}.

Record Stream := mkStream { mail : Mail; link : Link; worker : Worker }.
Implicit Types (m : Mail) (l : Link) (w : Worker) (s : Stream).

Definition mpsc_capacity : nat := 10.

(** *** [stream_mls_messages_inner] *)
Inductive task_step : Stream → Stream → Prop :=
  | task_loads m l o q f current :
      load_all_for (mail_store m) receiver = Ok current →
      task_step (mkStream m l (mkWorker Loading o q f))
        (mkStream m l (mkWorker (Subscribing current) o q (f ++ current)))
  | task_load_fails m l o q f :
      is_ok (load_all_for (mail_store m) receiver) = false →
      task_step (mkStream m l (mkWorker Loading o q f)) (mkStream m l (mkWorker (Ended (Err ())) o q f))
  | task_subscribes m l o q f current :
      task_step (mkStream m l (mkWorker (Subscribing current) o q f))
        (mkStream (mkMail (mail_store m) (mail_stored m) (mail_requests m ++ [Subscribe receiver me]) (mail_subscribed m))
           l (mkWorker (NextMessage current) o q f))
  | task_takes_current m l o q f message current :
      task_step (mkStream m l (mkWorker (NextMessage (message :: current)) o q f))
        (mkStream m l (mkWorker (Sending message current) Open q f))
  | task_receives m l o q f message :
      task_step (mkStream m l (mkWorker (NextMessage []) o (message :: q) f))
        (mkStream m l (mkWorker (Sending message []) Open q f))
  | task_unsubscribed m l o f :
      (∀ h, mail_subscribed m !! h ≠ Some me) → (∀ h, Subscribe h me ∉ mail_requests m) →
      task_step (mkStream m l (mkWorker (NextMessage []) o [] f)) (mkStream m l (mkWorker (Ended (Ok ())) o [] f))
  | task_sends m ch c hd q f message current :
      (length ch < mpsc_capacity)%nat → c ≠ Closed →
      task_step (mkStream m (mkLink ch c hd) (mkWorker (Sending message current) Open q f))
        (mkStream m (mkLink (ch ++ [(transform message.2, Some message.1)]) c hd)
           (mkWorker (AwaitingFeedback message.1 current) Open q f))
  | task_sends_to_nobody m ch hd q f message current :
      task_step (mkStream m (mkLink ch Closed hd) (mkWorker (Sending message current) Open q f))
        (mkStream m (mkLink ch Closed hd) (mkWorker (AwaitingFeedback message.1 current) Dropped q f))
  | task_told_ok m l q f id current :
      task_step (mkStream m l (mkWorker (AwaitingFeedback id current) (Given (Ok ())) q f))
        (mkStream m l (mkWorker (Acknowledging id current) (Given (Ok ())) q f))
  | task_told_failure m l o q f id current :
      o ≠ Open → o ≠ Given (Ok ()) →
      task_step (mkStream m l (mkWorker (AwaitingFeedback id current) o q f))
        (mkStream m l (mkWorker (Ended (Err ())) o q f))
  | task_acknowledges m l o q f id current :
      task_step (mkStream m l (mkWorker (Acknowledging id current) o q f))
        (mkStream (mkMail (aknowledge_single_message (mail_store m) receiver id) (mail_stored m) (mail_requests m)
                     (mail_subscribed m)) l (mkWorker (NextMessage current) o q f))
  | task_acknowledge_fails m l o q f id current :
      task_step (mkStream m l (mkWorker (Acknowledging id current) o q f))
        (mkStream m l (mkWorker (Ended (Err ())) o q f)).

(** *** [handle_connection], the receiver, and other senders *)
Definition lose_oneshot (w : Worker) : Worker :=
  match worker_task w, worker_oneshot w with
  | AwaitingFeedback id current, Open =>
      mkWorker (AwaitingFeedback id current) Dropped (worker_subscription w) (fed w)
  | _, _ => w
  end.

(** [feedback.send]: only one oneshot channel is there at a time. *)
Definition give (r : result () ()) (feedback : option Uuid) (w : Worker) : Worker :=
  match feedback with
  | Some _ => mkWorker (worker_task w) (Given r) (worker_subscription w) (fed w)
  | None => w
  end.

Inductive link_step : Stream → Stream → Prop :=
  | connection_writes m out feedback ch hd w :
      link_step (mkStream m (mkLink ((out, feedback) :: ch) Idle hd) w)
        (mkStream m (mkLink ch (Written out feedback) hd) w)
  | receiver_answers m out feedback ch hd w r :
      r ≠ Panic →
      link_step (mkStream m (mkLink ch (Written out feedback) hd) w)
        (mkStream m (mkLink ch (Answered r feedback) (hd ++ [((out, feedback), r)])) w)
  | connection_reads m r feedback ch hd w :
      link_step (mkStream m (mkLink ch (Answered r feedback) hd) w)
        (mkStream m (mkLink ch Idle hd) (give r feedback w))
  | connection_fails m ch c hd w :
      link_step (mkStream m (mkLink ch c hd) w) (mkStream m (mkLink [] Closed hd) (lose_oneshot w))
  | others_send m out ch c hd w :
      (length ch < mpsc_capacity)%nat → c ≠ Closed →
      link_step (mkStream m (mkLink ch c hd) w) (mkStream m (mkLink (ch ++ [(out, None)]) c hd) w).

(** *** The message store and its subscriptions *)

(** The receiving end of the subscription is gone when the task is. *)
Definition listens w : bool := match worker_task w with Ended _ => false | _ => true end.

Definition delivered (sent : list (nat * (Uuid * Message))) w : list (Uuid * Message) :=
  omap (λ x, if bool_decide (x.1 = me) then Some x.2 else None) sent.

Definition feed (new : list (Uuid * Message)) w : Worker :=
  mkWorker (worker_task w) (worker_oneshot w) (worker_subscription w ++ new) (fed w ++ new).

(** The task of the manager waits for room in the channel, and with it
    everybody who has a request. *)
Definition subscription_capacity : nat := 100.

Inductive mail_step : Stream → Stream → Prop :=
  | mail_stores m l w id now msg store :
      add_message (mail_store m) id now msg = Ok store →
      mail_step (mkStream m l w)
        (mkStream (mkMail store (mail_stored m ++ [(id, msg)]) (mail_requests m) (mail_subscribed m)) l w)
  | mail_distributes m l w id msg before after :
      mail_stored m = before ++ (id, msg) :: after →
      mail_step (mkStream m l w)
        (mkStream (mkMail (mail_store m) (before ++ after) (mail_requests m ++ [Distribute id msg]) (mail_subscribed m)) l w)
  | mail_acknowledged m l w other id :
      other ≠ receiver →
      mail_step (mkStream m l w)
        (mkStream (mkMail (aknowledge_single_message (mail_store m) other id) (mail_stored m) (mail_requests m)
                     (mail_subscribed m)) l w)
  | mail_subscribes m l w other ch :
      ch ≠ me →
      mail_step (mkStream m l w)
        (mkStream (mkMail (mail_store m) (mail_stored m) (mail_requests m ++ [Subscribe other ch]) (mail_subscribed m)) l w)
  | mail_handles m l w closed request requests subscribed sent :
      mail_requests m = request :: requests → closed me = negb (listens w) →
      handle_subscription closed (mail_subscribed m) request = (subscribed, sent) →
      (length (worker_subscription w) + length (delivered sent w) ≤ subscription_capacity)%nat →
      mail_step (mkStream m l w)
        (mkStream (mkMail (mail_store m) (mail_stored m) requests subscribed) l (feed (delivered sent w) w)).

Definition stream_step s s' : Prop := task_step s s' ∨ link_step s s' ∨ mail_step s s'.

(** The command handler starts the task and the connection together; the
    subscription channel is new. *)
Definition stream_start (m : Mail) : Stream :=
  mkStream m (mkLink [] Idle []) (mkWorker Loading Open [] []).

(** ** What holds throughout *)

(** The oneshot channels under way to the receiver. *)
Definition in_flight l : list Uuid :=
  omap snd (link_channel l) ++
  match link_connection l with Written _ (Some id) => [id] | Answered _ (Some id) => [id] | _ => [] end.

Definition was_answered l (id : Uuid) (r : result () ()) : Prop := ∃ out, ((out, Some id), r) ∈ link_handled l.

(** The task knows an answer only if the receiver gave it. *)
Definition answers_true s : Prop :=
  (∀ r id, link_connection (link s) = Answered r (Some id) → was_answered (link s) id r) ∧
  match worker_task (worker s) with
  | AwaitingFeedback id _ =>
      match worker_oneshot (worker s) with
      | Open => in_flight (link s) = [id]
      | Given r => in_flight (link s) = [] ∧ was_answered (link s) id r
      | Dropped => in_flight (link s) = []
      end
  | Acknowledging id _ => in_flight (link s) = [] ∧ was_answered (link s) id (Ok ())
  | _ => in_flight (link s) = []
  end.

Lemma was_answered_app ch c ch' c' hd x id r :
  was_answered (mkLink ch c hd) id r → was_answered (mkLink ch' c' (hd ++ x)) id r.
Proof. intros [out Hin]. exists out. cbn in *. apply elem_of_app. by left. Qed.

Lemma answers_true_task s s' : task_step s s' → answers_true s → answers_true s'.
Proof.
  intros Hs [Ha Ht]. destruct Hs; cbn in *; (split; [done|]); cbn; try done.
  - unfold in_flight in *. cbn in *. rewrite omap_app, <-app_assoc. cbn.
    by apply app_nil in Ht as [-> ->].
  - destruct o as [|r|]; try done. by destruct Ht.
  - by destruct Ht.
  - by destruct Ht.
Qed.

Lemma answers_true_connection s s' : link_step s s' → answers_true s → answers_true s'.
Proof.
  intros Hs [Ha Ht]. destruct Hs as [m out fb ch hd w|m out fb ch hd w r Hr|m r fb ch hd w|m ch c hd w|m out ch c hd w Hl Hc];
    unfold answers_true, was_answered in *; cbn [link worker link_connection link_channel link_handled] in *.
  - split; [done|]. assert (in_flight (mkLink ((out, fb) :: ch) Idle hd) = in_flight (mkLink ch (Written out fb) hd) ∨
      fb ≠ None ∧ omap snd ch ≠ []) as [E|[Hf Hch]].
    { unfold in_flight. cbn. rewrite app_nil_r. destruct fb as [id|]; [|left; by rewrite app_nil_r].
      destruct (omap snd ch); [by left|right; split; congruence]. }
    + by rewrite E in Ht.
    + exfalso. destruct fb as [id|]; [|done]. unfold in_flight in Ht. cbn in Ht. rewrite app_nil_r in Ht.
      destruct (worker_task w); try done; [destruct (worker_oneshot w)|]; try done;
        [by injection Ht as _ Hnil|by destruct Ht..].
  - assert (in_flight (mkLink ch (Answered r fb) (hd ++ [(out, fb, r)])) = in_flight (mkLink ch (Written out fb) hd)) as ->
      by (unfold in_flight; by destruct fb).
    split.
    + intros r' id [= -> ->]. exists out. apply elem_of_app. right. by left.
    + destruct (worker_task w); try done; [destruct (worker_oneshot w)|]; try done;
        destruct Ht as [Hf [o Ho]]; (split; [done|]); exists o; apply elem_of_app; by left.
  - split; [done|]. destruct fb as [id|]; [|exact Ht].
    assert (in_flight (mkLink ch (Answered r (Some id)) hd) = omap snd ch ++ [id]) as E by done. rewrite E in Ht.
    assert (in_flight (mkLink ch Idle hd) = omap snd ch) as -> by (unfold in_flight; cbn; by rewrite app_nil_r).
    assert (omap snd ch ++ [id] ≠ []) as Hne by (by destruct (omap snd ch)).
    cbn. destruct (worker_task w) as [| | | |id' current|id' current|]; try done; [destruct (worker_oneshot w)|]; try done.
    + apply (app_inj_tail _ []) in Ht as [E' <-]. split; [done|]. by apply Ha.
    + by destruct Ht.
    + by destruct Ht.
  - split; [done|]. assert (in_flight (mkLink [] Closed hd) = []) as -> by done.
    unfold lose_oneshot. destruct (worker_task w) as [| | | |id' current|id' current|] eqn:E; rewrite ?E; try done.
    + destruct (worker_oneshot w) eqn:Eo; cbn; rewrite ?E, ?Eo; try done. by destruct Ht.
    + by destruct Ht.
  - assert (in_flight (mkLink (ch ++ [(out, None)]) c hd) = in_flight (mkLink ch c hd)) as ->.
    { unfold in_flight. cbn. rewrite omap_app. cbn. by rewrite app_nil_r. }
    by split.
Qed.

Lemma answers_true_mail s s' : mail_step s s' → answers_true s → answers_true s'.
Proof. by intros []. Qed.

Lemma answers_true_step s s' : stream_step s s' → answers_true s → answers_true s'.
Proof.
  intros [Hs|[Hs|Hs]]; [by apply answers_true_task|by apply answers_true_connection|by apply answers_true_mail].
Qed.

Lemma answers_true_start m : answers_true (stream_start m).
Proof. by split. Qed.

Lemma store_ok_step s s' : stream_step s s' → store_ok (mail_store (mail s)) → store_ok (mail_store (mail s')).
Proof.
  intros [Hs|[Hs|Hs]] Hok; destruct Hs; cbn in *; try done; try (by apply aknowledge_ok); try (by eapply add_message_ok).
Qed.

Lemma was_answered_step s s' id r : stream_step s s' → was_answered (link s) id r → was_answered (link s') id r.
Proof.
  intros [Hs|[Hs|Hs]] Hw; destruct Hs; cbn in *; try done. by eapply was_answered_app.
Qed.

Lemma was_answered_later s s' id r : rtc stream_step s s' → was_answered (link s) id r → was_answered (link s') id r.
Proof. induction 1; [done|]. intros Hw. eauto using was_answered_step. Qed.

(** A step takes a message from the receiver's mailbox only after the
    receiver has answered that it handled it. *)
Lemma mailbox_step s s' id :
  stream_step s s' → answers_true s → store_ok (mail_store (mail s)) → id ∈ ids_for (mail_store (mail s)) receiver →
  id ∈ ids_for (mail_store (mail s')) receiver ∨ was_answered (link s') id (Ok ()).
Proof.
  intros [Hs|[Hs|Hs]] [_ Ht] Hok Hid; destruct Hs; cbn [mail mail_store link worker worker_task] in *; try (by left).
  - rewrite aknowledge_ids. destruct (decide (id = id0)) as [->|Hne]; [right; by destruct Ht|left; auto].
  - left. select (add_message _ _ _ _ = _) (fun Ha => destruct (add_message_ids _ _ _ _ _ Hok Ha) as (Hf & _ & Hk)).
    apply Hk; [|done].
    intros ->. by apply (Hf receiver).
  - left. rewrite aknowledge_ids. auto.
Qed.

Lemma reachable_stream m s : store_ok (mail_store m) → rtc stream_step (stream_start m) s →
  answers_true s ∧ store_ok (mail_store (mail s)).
Proof.
  intros Hok Hr. assert (∀ s0, rtc stream_step s0 s → answers_true s0 → store_ok (mail_store (mail s0)) →
    answers_true s ∧ store_ok (mail_store (mail s))) as Hgen.
  { clear. induction 1 as [s0|s0 s1 s2 Hs _ IH]; [done|]. intros Ha Hk.
    apply IH; [by eapply answers_true_step|by eapply store_ok_step]. }
  by apply (Hgen _ Hr); [apply answers_true_start|].
Qed.

(** No message is lost on its way: while the server streams messages to a
    receiver, whatever else is sent and stored in between and whenever the
    connection breaks, a message that waits for the receiver at some moment
    waits for it at every later moment, or the receiver has answered that it
    handled it. *)
Theorem message_kept_until_handled m s s' id :
  store_ok (mail_store m) → rtc stream_step (stream_start m) s → rtc stream_step s s' →
  id ∈ ids_for (mail_store (mail s)) receiver →
  id ∈ ids_for (mail_store (mail s')) receiver ∨ was_answered (link s') id (Ok ()).
Proof.
  intros Hok Hr Hs. destruct (reachable_stream _ _ Hok Hr) as [Ha Hk]. clear Hok Hr. revert Ha Hk.
  induction Hs as [s|s s1 s' H1 Hs IH]; [by left|]. intros Ha Hk Hid.
  destruct (mailbox_step _ _ _ H1 Ha Hk Hid) as [Hid1|Hw].
  - apply IH; [by eapply answers_true_step|by eapply store_ok_step|done].
  - right. by eapply was_answered_later.
Qed.

(** ** The order of the messages *)

(** The answers to the streamed messages, in order. *)
Definition streamed l : list ((Out * Uuid) * result () ()) :=
  omap (λ x, match x with (out, Some id, r) => Some (out, id, r) | _ => None end) (link_handled l).

Definition outgoing_id (x : Outgoing) : option (Out * Uuid) :=
  match x with (out, Some id) => Some (out, id) | _ => None end.

(** What was sent and not yet answered, and the answer that was not read. *)
Definition unanswered l : list (Out * Uuid) :=
  match link_connection l with Written out (Some id) => [(out, id)] | _ => [] end ++ omap outgoing_id (link_channel l).

Definition answering l : option (result () ()) :=
  match link_connection l with Answered r (Some _) => Some r | _ => None end.

Definition sent_as (x : Uuid * Message) : Out * Uuid := (transform x.2, x.1).

(** The messages [before] were answered [Ok], in order; [now] is the answer to
    the message the task is busy with. *)
Definition history l (before : list (Uuid * Message)) (now : list ((Out * Uuid) * result () ())) : Prop :=
  streamed l = ((λ x, (sent_as x, Ok ())) <$> before) ++ now.

Definition not_subscribed m : Prop :=
  (∀ h, mail_subscribed m !! h ≠ Some me) ∧ ∀ h, Subscribe h me ∉ mail_requests m.

Definition quiet_link l : Prop := unanswered l = [] ∧ answering l = None.

(** The message the task waits for is under way, or answered, or lost. *)
Definition busy l (o : Oneshot) (before : list (Uuid * Message)) (x : Uuid * Message) : Prop :=
  (o = Open ∧ unanswered l = [sent_as x] ∧ answering l = None ∧ history l before []) ∨
  (unanswered l = [] ∧ ∃ r, history l before [(sent_as x, r)] ∧
     ((o = Open ∧ answering l = Some r) ∨ ((o = Given r ∨ o = Dropped) ∧ answering l = None))) ∨
  (o = Dropped ∧ quiet_link l ∧ history l before []).

Definition in_order s : Prop :=
  let l := link s in let w := worker s in let q := worker_subscription w in
  ∃ before, match worker_task w with
  | Loading => not_subscribed (mail s) ∧ q = [] ∧ fed w = [] ∧ before = [] ∧ quiet_link l ∧ history l before []
  | Subscribing current =>
      not_subscribed (mail s) ∧ q = [] ∧ fed w = before ++ current ∧ quiet_link l ∧ history l before []
  | NextMessage current => fed w = before ++ current ++ q ∧ quiet_link l ∧ history l before []
  | Sending x current => fed w = before ++ x :: current ++ q ∧ quiet_link l ∧ history l before []
  | AwaitingFeedback id current =>
      ∃ message, fed w = before ++ (id, message) :: current ++ q ∧ busy l (worker_oneshot w) before (id, message)
  | Acknowledging id current =>
      ∃ message, fed w = before ++ (id, message) :: current ++ q ∧ quiet_link l ∧
        history l before [(sent_as (id, message), Ok ())]
  | Ended _ =>
      ∃ after, fed w = before ++ after ∧ quiet_link l ∧
        (history l before [] ∨ ∃ x r rest, after = x :: rest ∧ history l before [(sent_as x, r)])
  end.

Lemma in_order_task s s' : task_step s s' → in_order s → in_order s'.
Proof.
  intros Hs (before & Hi). destruct Hs; unfold in_order; cbn in *.
  - destruct Hi as (Hn & -> & -> & -> & Hq & Hh). exists []. by split_and!.
  - destruct Hi as (Hn & -> & -> & -> & Hq & Hh). exists [], []. split_and!; [done|done|by left].
  - destruct Hi as (Hn & -> & -> & Hq & Hh). exists before. by rewrite app_nil_r.
  - destruct Hi as (-> & Hq & Hh). by exists before.
  - destruct Hi as (-> & Hq & Hh). by exists before.
  - destruct Hi as (-> & Hq & Hh). exists before, []. split_and!; [done|done|by left].
  - destruct Hi as (-> & [Hu Ha] & Hh). exists before, (message0.2). split; [by destruct message0|]. left.
    split_and!; try done. unfold unanswered in *. cbn in *. rewrite omap_app, app_assoc, Hu. by destruct message0.
  - destruct Hi as (-> & Hq & Hh). exists before, (message0.2). split; [by destruct message0|]. right; right.
    by split_and!.
  - destruct Hi as (x & -> & [(Ho & _)|[(Hu & r & Hh & Hr)|(Ho & _)]]); [done| |done].
    destruct Hr as [[? _]|[[[= <-]|?] Ha]]; try done. by exists before, x.
  - destruct Hi as (x & -> & [(Ho & _)|[(Hu & r & Hh & Hr)|(Ho & Hq & Hh)]]); [done| |].
    + destruct Hr as [[? _]|[_ Ha]]; [done|]. exists before. eexists. split_and!; [done|done|]. right. by eexists _, _, _.
    + exists before. eexists. split_and!; [done|by destruct Hq..|by left].
  - destruct Hi as (x & -> & Hq & Hh). exists (before ++ [(id, x)]). split_and!; [by rewrite <-app_assoc|by destruct Hq..|].
    unfold history in *. by rewrite fmap_app, app_nil_r.
  - destruct Hi as (x & -> & Hq & Hh). exists before. eexists. split_and!; [done|by destruct Hq..|]. right. by eexists _, _, _.
Qed.

(** Only the streamed messages matter. *)
Lemma in_order_link m l l' w :
  unanswered l' = unanswered l → answering l' = answering l → streamed l' = streamed l →
  in_order (mkStream m l w) → in_order (mkStream m l' w).
Proof.
  intros Eu Ea Es (before & Hi). exists before. unfold busy, quiet_link, history in *. cbn [link worker mail] in *.
  by rewrite Eu, Ea, Es.
Qed.

Lemma streamed_app ch c hd x : streamed (mkLink ch c (hd ++ x)) = streamed (mkLink ch c hd) ++ streamed (mkLink ch c x).
Proof. unfold streamed. cbn. by rewrite omap_app. Qed.

Lemma in_order_connection s s' : link_step s s' → in_order s → in_order s'.
Proof.
  intros Hs Hi. destruct Hs as [m out fb ch hd w|m out fb ch hd w r Hr|m r fb ch hd w|m ch c hd w|m out ch c hd w Hl Hc].
  - eapply in_order_link; [..|exact Hi]; [by destruct fb|done..].
  - destruct fb as [id|].
    2: { eapply in_order_link; [..|exact Hi]; [done..|]. unfold streamed. cbn. by rewrite omap_app, app_nil_r. }
    destruct Hi as (before & Hi). cbn [link worker mail] in Hi.
    assert (∀ b, ¬ (quiet_link (mkLink ch (Written out (Some id)) hd) ∧ b)) as Hno by (by intros b [[? _] _]).
    exists before. cbn [link worker mail].
    destruct (worker_task w) as [|c|c|x c|id' c|id' c|e]; try (exfalso; naive_solver).
    destruct Hi as (x & Hf & [(Ho & Hu & Ha & Hh)|[(Hu & _)|(_ & [Hu _] & _)]]); [|done..].
    exists x. split; [done|]. right; left. unfold unanswered in Hu. cbn in Hu. injection Hu as -> -> Hu.
    split; [done|]. exists r. split; [|by left]. unfold history in *. cbn in *.
    unfold streamed in *. cbn in *. by rewrite omap_app, Hh, app_nil_r.
  - destruct fb as [id|]; [|by eapply in_order_link; [..|exact Hi]].
    destruct Hi as (before & Hi). cbn [link worker mail] in Hi.
    assert (∀ b, ¬ (quiet_link (mkLink ch (Answered r (Some id)) hd) ∧ b)) as Hno by (by intros b [[_ ?] _]).
    exists before. cbn [link worker mail give worker_task worker_oneshot worker_subscription fed].
    destruct (worker_task w) as [|c|c|x c|id' c|id' c|e]; try (exfalso; naive_solver).
    destruct Hi as (x & Hf & [(_ & _ & Ha & _)|[(Hu & r' & Hh & Hr')|(_ & [_ Ha] & _)]]); [done| |done].
    destruct Hr' as [[_ Ha]|[_ Ha]]; [|done]. injection Ha as <-.
    exists x. split; [done|]. right; left. split; [done|]. exists r. split; [done|]. right. split; [by left|done].
  - assert (quiet_link (mkLink [] Closed hd)) as Hq by done.
    destruct Hi as (before & Hi). exists before. unfold lose_oneshot. cbn [link worker mail] in *.
    destruct (worker_task w) as [|cu|cu|x cu|id' cu|id' cu|e] eqn:Ew; rewrite ?Ew; try naive_solver.
    destruct Hi as (x & Hf & Hb).
    assert (busy (mkLink [] Closed hd) (match worker_oneshot w with Open => Dropped | o => o end) before (id', x)) as Hb'.
    { destruct Hb as [(-> & _ & _ & Hh)|[(_ & r & Hh & Hr)|(-> & _ & Hh)]].
      - right; right. by split_and!.
      - right; left. split; [done|]. exists r. split; [done|]. right. split; [|done].
        destruct Hr as [[-> _]|[[->| ->] _]]; [by right|by left|by right].
      - right; right. by split_and!. }
    destruct (worker_oneshot w) eqn:Eo; cbn; rewrite ?Ew, ?Eo; exists x; by split.
  - eapply in_order_link; [..|exact Hi]; [|done..]. unfold unanswered. cbn. rewrite omap_app. cbn. by rewrite app_nil_r.
Qed.

Lemma not_subscribed_handle m closed request requests subscribed sent :
  not_subscribed m → mail_requests m = request :: requests →
  handle_subscription closed (mail_subscribed m) request = (subscribed, sent) →
  (∀ h, subscribed !! h ≠ Some me) ∧ (∀ h, Subscribe h me ∉ requests) ∧ ∀ w, delivered sent w = [].
Proof.
  intros [Hs Hr] Em Hh. rewrite Em in Hr. destruct request as [h ch|id msg].
  - injection Hh as <- <-. split_and!; [|set_solver|done]. intros h'. rewrite lookup_insert. case_decide; [|done].
    intros [= ->]. by apply (Hr h); left.
  - pose proof (distribute_reaches_subscribers _ _ _ _ _ _ Hh) as [Hd Hsub]. split_and!; [|set_solver|].
    + intros h. rewrite Hsub. case_decide; [|done]. pose proof (Hs h). destruct (mail_subscribed m !! h) as [ch|]; [|done].
      destruct (closed ch); [done|]. congruence.
    + intros w. unfold delivered. destruct (omap _ sent) as [|x l] eqn:E; [done|]. exfalso.
      assert (x ∈ omap (λ x, if bool_decide (x.1 = me) then Some x.2 else None) sent) as Hx by (rewrite E; by left).
      apply list_elem_of_omap in Hx as ([ch p] & Hin & Hx). case_bool_decide as Hc; [|done]. cbn in Hc. subst ch.
      apply Hd in Hin as (_ & h & _ & Hh' & _). by apply (Hs h).
Qed.

Lemma in_order_mail s s' : mail_step s s' → in_order s → in_order s'.
Proof.
  intros Hs (before & Hi). destruct Hs as [m l w id now msg store Ha|m l w id msg be af Ha|m l w other id Hne
    |m l w other ch Hch|m l w closed request requests subscribed sent Hr Hc Hh Hroom];
    exists before; cbn [link worker mail] in *; try (by destruct (worker_task w)).
  - destruct (worker_task w); try done; destruct Hi as ([Hn1 Hn2] & Hrest); (split; [|exact Hrest]);
      (split; [exact Hn1|]); cbn; set_solver.
  - destruct (worker_task w); try done; destruct Hi as ([Hn1 Hn2] & Hrest); (split; [|exact Hrest]);
      (split; [exact Hn1|]); cbn; intros h [Hx|Hx%list_elem_of_singleton]%elem_of_app; [by eapply Hn2|congruence|by eapply Hn2|congruence].
  - unfold feed. cbn [worker_task worker_oneshot worker_subscription fed]. destruct (worker_task w) as [|c|c|x c|id' c|id' c|e].
    + destruct Hi as (Hn & Hi). destruct (not_subscribed_handle _ _ _ _ _ _ Hn Hr Hh) as (Hn1 & Hn2 & ->).
      rewrite !app_nil_r. by split.
    + destruct Hi as (Hn & Hi). destruct (not_subscribed_handle _ _ _ _ _ _ Hn Hr Hh) as (Hn1 & Hn2 & ->).
      rewrite !app_nil_r. by split.
    + destruct Hi as (-> & Hi). rewrite <-!app_assoc. by split.
    + destruct Hi as (-> & Hi). rewrite <-app_assoc. cbn. rewrite <-app_assoc. by split.
    + destruct Hi as (x & -> & Hi). exists x. rewrite <-app_assoc. cbn. rewrite <-app_assoc. by split.
    + destruct Hi as (x & -> & Hi). exists x. rewrite <-app_assoc. cbn. rewrite <-app_assoc. by split.
    + destruct Hi as (x & -> & Hq & Hi). rewrite <-app_assoc. eexists. split; [done|]. split; [done|].
      destruct Hi as [Hi|(y & r & rest & -> & Hi)]; [by left|right]. exists y, r. eexists. by split.
Qed.

(** The receiver is sent what waits for it in order, and nothing after a
    failure: at every moment the answers it has given to streamed messages are
    to the first ones of those that were loaded and then delivered, each once
    and in that order, and all of them but the last are [Ok]. *)
Theorem streamed_in_order m s :
  not_subscribed m → rtc stream_step (stream_start m) s →
  ∃ before now after,
    fed (worker s) = before ++ now ++ after ∧ (length now ≤ 1)%nat ∧
    ∃ rs, length rs = length now ∧
      streamed (link s) = ((λ x, (sent_as x, Ok ())) <$> before) ++ zip (sent_as <$> now) rs.
Proof.
  intros Hn Hr. assert (in_order s) as (before & Hi).
  { assert (in_order (stream_start m)) as H0 by (exists []; by split_and!). clear Hn. revert H0.
    induction Hr as [s|s1 s2 s Hs _ IH]; [done|]. intros Hi. apply IH.
    destruct Hs as [Hs|[Hs|Hs]]; [by eapply in_order_task|by eapply in_order_connection|by eapply in_order_mail]. }
  assert ((∃ after, fed (worker s) = before ++ after ∧ history (link s) before []) ∨
          (∃ x r after, fed (worker s) = before ++ x :: after ∧ history (link s) before [(sent_as x, r)]))
    as [(after & Hf & Hh)|(x & r & after & Hf & Hh)].
  { cbn zeta in Hi. destruct (worker_task (worker s)) as [|c|c|x c|id c|id c|e].
    - left. destruct Hi as (_ & _ & Hf & -> & _ & Hh). rewrite Hf. by exists [].
    - left. destruct Hi as (_ & _ & Hf & _ & Hh). eauto.
    - left. destruct Hi as (Hf & _ & Hh). eauto.
    - left. destruct Hi as (Hf & _ & Hh). eauto.
    - destruct Hi as (x & Hf & [(_ & _ & _ & Hh)|[(_ & r & Hh & _)|(_ & _ & Hh)]]); [left; eauto|right; eauto|left; eauto].
    - right. destruct Hi as (x & Hf & _ & Hh). eauto.
    - destruct Hi as (after & Hf & _ & [Hh|(x & r & rest & -> & Hh)]); [left|right]; eauto. }
  - exists before, [], after. split_and!; [done|cbn; lia|]. by exists [].
  - exists before, [x], after. split_and!; [done|cbn; lia|]. by exists [r].
Qed.

(** *** A run without failures *)
Lemma task_step_stream s s' : task_step s s' → stream_step s s'.
Proof. by left. Qed.
Lemma connection_step_stream s s' : link_step s s' → stream_step s s'.
Proof. by right; left. Qed.
Lemma mail_step_stream s s' : mail_step s s' → stream_step s s'.
Proof. by right; right. Qed.

Definition acknowledged m (id : Uuid) : Mail :=
  mkMail (aknowledge_single_message (mail_store m) receiver id) (mail_stored m) (mail_requests m) (mail_subscribed m).

Lemma one_message_streams m hd o q f x current :
  rtc stream_step (mkStream m (mkLink [] Idle hd) (mkWorker (NextMessage (x :: current)) o q f))
    (mkStream (acknowledged m x.1) (mkLink [] Idle (hd ++ [((transform x.2, Some x.1), Ok ())]))
       (mkWorker (NextMessage current) (Given (Ok ())) q f)).
Proof.
  eapply rtc_l; [by apply task_step_stream, task_takes_current|].
  eapply rtc_l; [apply task_step_stream, task_sends; [cbn; unfold mpsc_capacity; lia|done]|].
  eapply rtc_l; [by apply connection_step_stream, connection_writes|].
  eapply rtc_l; [by apply connection_step_stream, (receiver_answers _ _ _ _ _ _ (Ok ()))|].
  eapply rtc_l; [by apply connection_step_stream, connection_reads|].
  eapply rtc_l; [by apply task_step_stream, task_told_ok|].
  eapply rtc_l; [by apply task_step_stream, task_acknowledges|]. apply rtc_refl.
Qed.

Lemma loaded_messages_stream m hd o q f current :
  ∃ o' hd', rtc stream_step (mkStream m (mkLink [] Idle hd) (mkWorker (NextMessage current) o q f))
    (mkStream (foldl acknowledged m current.*1) (mkLink [] Idle (hd ++ hd'))
       (mkWorker (NextMessage []) o' q f)) ∧
    streamed (mkLink [] Idle hd') = (λ x, (sent_as x, Ok ())) <$> current.
Proof.
  revert m hd o. induction current as [|x current IH]; intros m hd o.
  - exists o, []. rewrite app_nil_r. by split; [apply rtc_refl|].
  - destruct (IH (acknowledged m x.1) (hd ++ [((transform x.2, Some x.1), Ok ())]) (Given (Ok ()))) as (o' & hd' & Hr & Hs).
    exists o', ([((transform x.2, Some x.1), Ok ())] ++ hd'). split.
    + etransitivity; [apply one_message_streams|]. by rewrite app_assoc.
    + rewrite streamed_app, Hs. done.
Qed.

Lemma acknowledged_all m ids : mail_store (foldl acknowledged m ids) = aknowledge_messages (mail_store m) receiver ids.
Proof. unfold aknowledge_messages. revert m. induction ids as [|id ids IH]; intros m; [done|]. apply IH. Qed.

Lemma load_all_ids (store : MessageStore (Uuid := Uuid)) (current : list (Uuid * Message)) :
  load_all_for store receiver = Ok current → current.*1 ≡ₚ ids_for store receiver.
Proof.
  intros Hl%collectM_Ok. unfold ids_for. rewrite <-(merge_sort_Permutation received_le (joined store receiver)).
  apply reflexive_eq. induction Hl as [|row x rows current Hx _ IH]; [done|]. cbn. f_equal; [|done].
  apply bind_Ok in Hx as (message & _ & [= <-]). done.
Qed.

(** What was stored when the receiver connected can all be delivered: there
    is a run that sends it in the order of its arrival and leaves nothing in
    the mailbox. *)
Lemma mailbox_drains m (current : list (Uuid * Message)) :
  load_all_for (mail_store m) receiver = Ok current →
  ∃ s, rtc stream_step (stream_start m) s ∧ streamed (link s) = ((λ x, (sent_as x, Ok ())) <$> current) ∧
    ids_for (mail_store (mail s)) receiver = [].
Proof.
  intros Hl.
  destruct (loaded_messages_stream
    (mkMail (mail_store m) (mail_stored m) (mail_requests m ++ [Subscribe receiver me]) (mail_subscribed m))
    [] Open [] ([] ++ current) current) as (o' & hd' & Hr & Hs).
  eexists. split; [|split].
  - eapply rtc_l; [by apply task_step_stream, task_loads|].
    eapply rtc_l; [by apply task_step_stream, task_subscribes|]. exact Hr.
  - exact Hs.
  - cbn [mail]. rewrite acknowledged_all. cbn [mail_store].
    apply elem_of_nil_inv. intros id [Hid Hor]%aknowledge_messages_ids.
    destruct Hor as [Hne|Hnot]; [done|]. apply Hnot. by rewrite (load_all_ids _ _ Hl).
Qed.
End stream.

(** ** Worked examples *)
#[local] Instance postcard_text : Postcard (list Z) := {| to_stdvec b := Ok b; from_bytes := Ok |}.

Definition toy_mail : Mail (Message := list Z) := mkMail toy_mailbox [] [] ∅.
Definition toy_stream_step : relation (Stream (Uuid := Z) (Message := list Z) (Out := list Z)) := stream_step id toy_owner 0.

Lemma toy_mail_fresh : not_subscribed 0 toy_mail.
Proof. split; cbn; [|set_solver]. intros h. by rewrite lookup_empty. Qed.

Lemma toy_drained : ∃ s, rtc toy_stream_step (stream_start toy_mail) s ∧
  streamed (link s) = [(([1; 2], 5), Ok ())] ∧ ids_for (mail_store (mail s)) toy_owner = [].
Proof. exact (mailbox_drains id toy_owner 0 toy_mail [(5, [1; 2])] eq_refl). Qed.

Lemma message_kept_until_handled_witness :
  ∃ s, rtc toy_stream_step (stream_start toy_mail) s ∧ was_answered (link s) 5 (Ok ()).
Proof.
  destruct toy_drained as (s & Hr & _ & Hn). exists s. split; [exact Hr|].
  destruct (message_kept_until_handled id toy_owner 0 toy_mail (stream_start toy_mail) s 5) as [Hin|Hw].
  - split; [repeat constructor|]; vm_compute; repeat constructor; set_solver.
  - apply rtc_refl.
  - exact Hr.
  - vm_compute. left.
  - rewrite Hn in Hin. by apply elem_of_nil in Hin.
  - exact Hw.
Defined.

Lemma streamed_in_order_witness :
  ∃ s before now after, rtc toy_stream_step (stream_start toy_mail) s ∧
    fed (worker s) = before ++ now ++ after ∧ (length now ≤ 1)%nat.
Proof.
  destruct toy_drained as (s & Hr & _).
  destruct (streamed_in_order id toy_owner 0 toy_mail s) as (before & now & after & Hf & Hl & _).
  - exact toy_mail_fresh.
  - exact Hr.
  - exists s, before, now, after. split; [exact Hr|]. by split.
Defined.

(** A message that is stored before the receiver's messages are loaded and
    distributed after the subscription is given to the task twice. *)
Lemma stored_message_fed_twice :
  ∃ s, rtc toy_stream_step (stream_start (mkMail (mkMessageStore [] []) [] [] ∅)) s ∧
    fed (worker s) = [(5, [1; 2]); (5, [1; 2])].
Proof.
  eexists. split.
  - eapply rtc_l; [apply mail_step_stream, (mail_stores _ _ _ _ _ 5 100 toy_message); reflexivity|].
    eapply rtc_l; [apply task_step_stream, task_loads; reflexivity|].
    eapply rtc_l; [by apply task_step_stream, task_subscribes|].
    eapply rtc_l; [by apply mail_step_stream, (mail_distributes _ _ _ _ _ 5 toy_message [] [])|].
    eapply rtc_l; [eapply mail_step_stream, (mail_handles _ _ _ _ _ (λ _, false)); [reflexivity..|vm_compute; lia]|].
    eapply rtc_l; [eapply mail_step_stream, (mail_handles _ _ _ _ _ (λ _, false)); [reflexivity..|vm_compute; lia]|].
    apply rtc_refl.
  - reflexivity.
Qed.
