(* ===== verification/OnlineStatus.v ===== *)
(** * Which agents are online: from the server's connections to a client

    [stream_agent_online_status] of [svalin/src/message_streaming/with_client.rs]
    between the book of connections of the server ([Connections]) and the state
    of a client ([Receivers]). *)
From S2P Require Import Prelude.
From S2P Require Import Toy.
From S2P Require Import Spki.
From S2P Require Import Certificate.
From S2P Require Import ClientStore.
From S2P Require Import Verifiers.
From S2P Require Import Connections.
From S2P Require Import Receivers.
From stdpp Require Import options.

Definition is_agent (certificate : Certificate) : bool := bool_decide (certificate_type certificate = Agent).

(** What the task sends: the agents among the clients that are connected,
    then the agents among the status changes since it subscribed, which it did
    before. A full or closed channel does not end the loop. *)
Definition stream_agent_online_status (current : list Certificate) (events : list (Certificate * bool)) :
    list (SpkiHash * bool) :=
  ((λ connected : Certificate, (spki_hash connected, true)) <$> filter (λ c, is_agent c = true) current) ++
  ((λ e : Certificate * bool, (spki_hash e.1, e.2)) <$> filter (λ e, is_agent e.1 = true) events).

(** What is announced about one peer. *)
Definition about (h : SpkiHash) (events : list (Certificate * bool)) : list bool :=
  omap (λ m : Certificate * bool, if decide (spki_hash m.1 = h) then Some m.2 else None) events.

Definition connected (s : RpcServer) (h : SpkiHash) : bool := bool_decide (is_Some (connection_to s h)).

(** The connections are filed under the hash of their peer. *)
Definition book_ok (s : RpcServer) : Prop :=
  ∀ h c, latest_connections s !! h = Some c → ∃ cert : Certificate, conn_peer c = PeerCertificate cert ∧ spki_hash cert = h.

Lemma server_step_book s e : book_ok s → book_ok (server_step s e).
Proof.
  intros Hs h c. destruct e as [conn|conn]; cbn; unfold note_connection, note_close.
  - destruct (conn_peer conn) as [|cert] eqn:Hp; [apply Hs|]. cbn. rewrite lookup_insert. case_decide; [|apply Hs].
    intros [= <-]. by exists cert.
  - destruct (conn_peer conn) as [|cert]; [apply Hs|]. destruct (_ !! spki_hash cert); [|apply Hs].
    case_bool_decide; [|apply Hs]. cbn [latest_connections]. intros [_ Hl]%lookup_delete_Some. by apply Hs.
Qed.

(** One event: it is announced, or the peer is as connected as it was. *)
Lemma server_step_status s e h :
  ∃ new, client_status (server_step s e) = client_status s ++ new ∧
    (∀ (cert : Certificate) b, (cert, b) ∈ new → conn_peer (connection_of e) = PeerCertificate cert) ∧
    connected (server_step s e) h = default (connected s h) (last (about h new)).
Proof.
  unfold connected, connection_to. destruct e as [conn|conn]; cbn; unfold note_connection, note_close.
  - destruct (conn_peer conn) as [|cert] eqn:Hp; [exists []; rewrite app_nil_r; by split_and!; [|set_solver|]|].
    exists [(cert, true)]. split; [done|]. split; [by intros ?? [= -> _]%list_elem_of_singleton|]. cbn.
    rewrite lookup_insert. by repeat case_decide.
  - assert (∃ new : list (Certificate * bool), client_status s = client_status s ++ new ∧
      (∀ (cert : Certificate) b, (cert, b) ∈ new → conn_peer conn = PeerCertificate cert) ∧
      bool_decide (is_Some (latest_connections s !! h)) =
        default (bool_decide (is_Some (latest_connections s !! h))) (last (about h new))) as Hsame
      by (exists []; rewrite app_nil_r; split_and!; [done|set_solver|done]).
    destruct (conn_peer conn) as [|cert] eqn:Hp; [exact Hsame|]. destruct (_ !! spki_hash cert) as [l|]; [|exact Hsame].
    destruct (decide (stable_id l = stable_id conn));
      [rewrite (bool_decide_true (stable_id l = _)) by done|by rewrite (bool_decide_false (stable_id l = _))].
    exists [(cert, false)]. split; [done|].
    split; [by intros ?? [= -> _]%list_elem_of_singleton|]. cbn. rewrite lookup_delete. by repeat case_decide.
Qed.

Lemma about_app h l k : about h (l ++ k) = about h l ++ about h k.
Proof. apply omap_app. Qed.

Lemma server_steps_status es s h :
  ∃ new, client_status (foldl server_step s es) = client_status s ++ new ∧
    (∀ (cert : Certificate) b, (cert, b) ∈ new → ∃ e, e ∈ es ∧ conn_peer (connection_of e) = PeerCertificate cert) ∧
    connected (foldl server_step s es) h = default (connected s h) (last (about h new)).
Proof.
  revert s. induction es as [|e es IH]; intros s.
  - exists []. rewrite app_nil_r. split_and!; [done|set_solver|done].
  - destruct (server_step_status s e h) as (n1 & E1 & S1 & C1). destruct (IH (server_step s e)) as (n2 & E2 & S2 & C2).
    exists (n1 ++ n2). cbn [foldl]. split_and!.
    + by rewrite E2, E1, app_assoc.
    + intros cert b [Hin|Hin]%elem_of_app; [exists e; split; [by left|by eapply S1]|].
      destruct (S2 _ _ Hin) as (e' & He' & Hp). exists e'. by split; [right|].
    + rewrite C2, C1, about_app, last_app. by destruct (last (about h n2)).
Qed.

Lemma state_after_book es : book_ok (state_after es).
Proof.
  unfold state_after. assert (book_ok rpc_server_new) as Hs by done. revert Hs. generalize rpc_server_new.
  induction es as [|e es IH]; intros s Hs; [done|]. by apply IH, server_step_book.
Qed.

Section client.
Context `{Sysinfo}.
Implicit Types state : ClientState.

(** What the client makes of the messages. *)
Definition online_update (message : SpkiHash * bool) : ClientStateUpdate := AgentOnline message.1 message.2.

Definition said (h : SpkiHash) (messages : list (SpkiHash * bool)) : list bool :=
  omap (λ m : SpkiHash * bool, if decide (m.1 = h) then Some m.2 else None) messages.

Lemma online_after state messages h :
  agent_online (foldl client_state_update state (online_update <$> messages)) h =
    default (agent_online state h) (last (said h messages)).
Proof.
  induction messages as [|[k b] messages IH] using rev_ind; [done|].
  rewrite fmap_app, foldl_app. unfold said in *. rewrite omap_app, last_app.
  set (st := foldl client_state_update state (online_update <$> messages)) in *.
  change (foldl client_state_update st (online_update <$> [(k, b)])) with (client_state_update st (AgentOnline k b)).
  cbn [omap list_omap fst snd]. destruct (decide (k = h)) as [->|Hne]; [by rewrite update_online|]. cbn. rewrite <-IH.
  unfold agent_online. destruct b; cbn; apply bool_decide_ext; set_solver.
Qed.

Lemma said_app h l k : said h (l ++ k) = said h l ++ said h k.
Proof. apply omap_app. Qed.

(** The certificates of the peers with this hash are of agents, or none is. *)
Definition peers_are (agent : bool) (es : list event) (h : SpkiHash) : Prop :=
  ∀ e (cert : Certificate), e ∈ es → conn_peer (connection_of e) = PeerCertificate cert → spki_hash cert = h →
    is_agent cert = agent.

Lemma said_about agent h (events : list (Certificate * bool)) :
  (∀ (cert : Certificate) b, (cert, b) ∈ events → spki_hash cert = h → is_agent cert = agent) →
  said h ((λ e : Certificate * bool, (spki_hash e.1, e.2)) <$> filter (λ e, is_agent e.1 = true) events) =
    if agent then about h events else [].
Proof.
  intros Ha. induction events as [|[cert b] events IH]; [by destruct agent|].
  assert (∀ (cert : Certificate) b, (cert, b) ∈ events → spki_hash cert = h → is_agent cert = agent) as Ha'
    by (intros; eapply Ha; [by right|done]).
  specialize (IH Ha'). rewrite filter_cons. cbn [fst]. destruct (decide (spki_hash cert = h)) as [E|Hne].
  - rewrite (Ha cert b) by (done || by left). destruct agent.
    + rewrite decide_True by done. cbn. rewrite !decide_True by done. f_equal. exact IH.
    + rewrite decide_False by done. exact IH.
  - assert (about h ((cert, b) :: events) = about h events) as -> by (cbn; by rewrite decide_False).
    case_decide; [|exact IH]. cbn. rewrite decide_False by done. exact IH.
Qed.

Lemma latest_from_event es h c :
  latest_connections (state_after es) !! h = Some c → ∃ e, e ∈ es ∧ connection_of e = c.
Proof.
  unfold state_after. induction es as [|e es IH] using rev_ind; [done|]. rewrite foldl_app. cbn [foldl].
  intros Hl. assert (latest_connections (foldl server_step rpc_server_new es) !! h = Some c ∨ connection_of e = c) as [Hl'|<-].
  { revert Hl. destruct e as [conn|conn]; cbn; unfold note_connection, note_close.
    - destruct (conn_peer conn); [by left|]. cbn. rewrite lookup_insert. case_decide; [|by left]. intros [= ->]. by right.
    - destruct (conn_peer conn) as [|cert]; [by left|]. destruct (_ !! spki_hash cert); [|by left].
      case_bool_decide; [|by left]. cbn [latest_connections]. intros [_ Hl]%lookup_delete_Some. by left. }
  - destruct (IH Hl') as (e' & He & Hc). exists e'. split; [apply elem_of_app; by left|done].
  - exists e. split; [apply elem_of_app; right; by left|done].
Qed.

(** The agents that are connected. *)
Lemma said_current agent es h :
  peers_are agent es h →
  last (said h ((λ c : Certificate, (spki_hash c, true)) <$>
          filter (λ c, is_agent c = true) (get_current_connected_clients (state_after es)))) =
    if agent && connected (state_after es) h then Some true else None.
Proof.
  intros Hp. set (s := state_after es).
  assert (∀ c : Certificate, c ∈ get_current_connected_clients s ↔
    ∃ conn, latest_connections s !! spki_hash c = Some conn ∧ conn_peer conn = PeerCertificate c) as Hcur.
  { intros c. unfold get_current_connected_clients. rewrite list_elem_of_omap. split.
    - intros (conn & Hin & Hc). apply list_elem_of_fmap in Hin as ([k conn'] & -> & Hin%elem_of_map_to_list).
      cbn in Hc. destruct (state_after_book es _ _ Hin) as (cert & Hpe & <-). rewrite Hpe in Hc. injection Hc as ->.
      by exists conn'.
    - intros (conn & Hin%elem_of_map_to_list & Hc). exists conn. split; [|by rewrite Hc].
      apply list_elem_of_fmap. by exists (spki_hash c, conn). }
  assert (∀ b, b ∈ said h ((λ c : Certificate, (spki_hash c, true)) <$>
    filter (λ c, is_agent c = true) (get_current_connected_clients s)) ↔
    b = true ∧ agent = true ∧ connected s h = true) as Hsaid.
  { intros b. unfold said. rewrite list_elem_of_omap. setoid_rewrite list_elem_of_fmap.
    setoid_rewrite list_elem_of_filter. unfold connected, connection_to. rewrite bool_decide_eq_true. split.
    - intros (m & (c & -> & Ha & Hin) & Hb). cbn in Hb. case_decide as E; [|done]. injection Hb as <-.
      apply Hcur in Hin as (conn & Hl & Hpe). destruct (latest_from_event _ _ _ Hl) as (e & He & Ec).
      split_and!; [done| |rewrite <-E; by eexists].
      rewrite <-Ha. symmetry. eapply Hp; [exact He|by rewrite Ec|done].
    - intros (-> & -> & [conn Hl]). destruct (state_after_book es _ _ Hl) as (cert & Hpe & E).
      destruct (latest_from_event _ _ _ Hl) as (e & He & Ec).
      exists (spki_hash cert, true). split; [|cbn; by rewrite decide_True].
      exists cert. split_and!; [done| |].
      + eapply Hp; [exact He|by rewrite Ec|done].
      + apply Hcur. exists conn. by rewrite E. }
  destruct (last (said h _)) as [b|] eqn:Hl.
  - assert (b ∈ said h ((λ c : Certificate, (spki_hash c, true)) <$>
      filter (λ c, is_agent c = true) (get_current_connected_clients s))) as Hin.
    { apply last_Some in Hl as [l' ->]. apply elem_of_app. right. by left. }
    apply Hsaid in Hin as (-> & -> & ->). done.
  - apply last_None in Hl. destruct agent; [|done]. destruct (connected s h) eqn:E; [|done].
    exfalso. assert (true ∈ ([] : list bool)) as Hin by (rewrite <-Hl; by apply Hsaid). by apply elem_of_nil in Hin.
Qed.

(** The online status a client shows becomes right: whoever connects and
    disconnects while the client's stream starts, and afterwards, once the
    client has handled what the stream has sent, an agent is shown online
    exactly when the server has a connection to it, and nobody who is not an
    agent is. *)
Theorem online_status_follows agent state es1 es2 es3 h :
  agent_online state h = false → peers_are agent (es1 ++ es2 ++ es3) h →
  let server := state_after (es1 ++ es2 ++ es3) in
  let heard := drop (length (client_status (state_after es1))) (client_status server) in
  let messages := stream_agent_online_status (get_current_connected_clients (state_after (es1 ++ es2))) heard in
  agent_online (foldl client_state_update state (online_update <$> messages)) h = agent && connected server h.
Proof.
  intros Hoff Hp server heard messages.
  destruct (server_steps_status (es2 ++ es3) (state_after es1) h) as (new & En & Sn & Cn).
  assert (server = foldl server_step (state_after es1) (es2 ++ es3)) as Es by (unfold server, state_after; by rewrite foldl_app).
  assert (heard = new) as -> by (unfold heard; by rewrite Es, En, drop_app_length).
  rewrite online_after, Hoff. unfold messages, stream_agent_online_status. rewrite said_app, last_app.
  rewrite (said_about agent).
  2: { intros cert b Hin E. destruct (Sn _ _ Hin) as (e & He & Hc). eapply Hp; [|exact Hc|exact E].
       rewrite !elem_of_app in *. tauto. }
  rewrite (said_current agent).
  2: { intros e cert He. apply Hp. rewrite !elem_of_app in *. tauto. }
  rewrite Es, Cn. destruct agent; [|done]. cbn [andb].
  destruct (last (about h new)) as [b|] eqn:Hl; [done|]. cbn [default].
  destruct (server_steps_status es2 (state_after es1) h) as (n2 & E2 & _ & C2).
  assert (connected (state_after (es1 ++ es2)) h = connected (state_after es1) h) as ->.
  { unfold state_after at 1. rewrite foldl_app. change (foldl server_step rpc_server_new es1) with (state_after es1).
    rewrite C2. assert (n2 `prefix_of` new) as [k Hk].
    { rewrite foldl_app in En. destruct (server_steps_status es3 (foldl server_step (state_after es1) es2) h) as (n3 & E3 & _).
      rewrite E3, E2, <-app_assoc in En. apply app_inv_head in En. exists n3. done. }
    rewrite Hk, about_app, last_app in Hl. destruct (last (about h k)); [done|]. by rewrite Hl. }
  by destruct (connected (state_after es1) h).
Qed.
End client.

(** ** Worked examples *)
Definition toy_peer (id : nat) : DirectConnection := mkConnection id (PeerCertificate (mkCertificate toy_agent)).

Lemma online_status_follows_witness :
  let es := [Connected (toy_peer 0); Connections.Closed (toy_peer 0); Connected (toy_peer 1)] in
  connected (state_after es) (spki_hash toy_agent) = true ∧
  agent_online (H := no_disks) (foldl client_state_update client_state_empty (online_update <$>
    stream_agent_online_status (get_current_connected_clients (state_after [Connected (toy_peer 0); Connections.Closed (toy_peer 0)]))
      (drop 1 (client_status (state_after es))))) (spki_hash toy_agent) = true.
Proof.
  split; [vm_compute; reflexivity|].
  refine (eq_trans (online_status_follows (H := no_disks) true client_state_empty [Connected (toy_peer 0)]
    [Connections.Closed (toy_peer 0)] [Connected (toy_peer 1)] (spki_hash toy_agent) eq_refl _) _).
  - intros e cert He Hc _. assert (cert = mkCertificate toy_agent) as ->; [|vm_compute; reflexivity].
    rewrite !elem_of_app, !list_elem_of_singleton in He. destruct He as [->|[->| ->]]; injection Hc as <-; reflexivity.
  - vm_compute. reflexivity.
Defined.
