(* ===== verification/Join.v ===== *)
(** * Joining agents: the server ([svalin/src/shared/join_agent.rs])

    An agent that wants to join opens a session to the server, which tells it
    a join code and keeps the session under that code; a client that knows the
    code is connected through to the agent. The handlers are in
    [join_agent/request_handler.rs] and [accept_handler.rs]; what agent and
    client then say to each other is in [Enroll]. *)
From S2P Require Import Prelude.
From S2P Require Import External.
From S2P Require Import Transport.
From S2P Require Import Script.
From stdpp Require Import pretty.
From stdpp Require Import options.

#[local] Open Scope Z_scope.

(** ** Codes *)

(** [random_range(0..999999).to_string()], of the number drawn. *)
Definition create_join_code (drawn : Z) : string := pretty drawn.
Definition join_code_bound : Z := 999999.

(** [svalin_pki::generate_short_code]: [format!("{:08}", ..)]. *)
Fixpoint pad_left (n : nat) (s : string) : string :=
  match n with O => s | S n => "0" +:+ pad_left n s end.
Definition short_code_bound : Z := 10 ^ 8.
Definition generate_short_code (drawn : Z) : string :=
  pad_left (8 - String.length (pretty drawn)) (pretty drawn).

(** ** The manager

    A session is a number. Every entry of the map has its timer, which
    removes the entry; taking a session out aborts the timer, so that a timer
    that fires finds the entry it was started for. [told] is what was written
    to the sessions. *)
Record ServerJoinManager := mkManager {
  session_map : gmap string nat;
  told : list (nat * string);
}.

Definition join_manager_new : ServerJoinManager := mkManager ∅ [].

(** The code is written first; [reachable] is whether that goes well, which is
    unwrapped. The result is the session when the code is taken. *)
Definition add_session (reachable : bool) (join_code : string) (session : nat) (self : ServerJoinManager) :
    ServerJoinManager * result nat () :=
  if negb reachable then (self, Panic)
  else
    let self := mkManager (session_map self) (told self ++ [(session, join_code)]) in
    match session_map self !! join_code with
    | Some _ => (self, Err session)
    | None => (mkManager (<[ join_code := session ]> (session_map self)) (told self), Ok ())
    end.

Definition get_session (join_code : string) (self : ServerJoinManager) : ServerJoinManager * option nat :=
  (mkManager (delete join_code (session_map self)) (told self), session_map self !! join_code).

(** The timer of an entry. *)
Definition join_timeout (join_code : string) (self : ServerJoinManager) : ServerJoinManager :=
  mkManager (delete join_code (session_map self)) (told self).

(** ** What happens to the manager

    [JoinRequestHandler::handle] tries codes until one is free, five seconds
    apart, so that other events come in between: an attempt is an event of
    its own. [Waiting] is the session between two attempts. *)
Inductive join_event :=
  | Attempt (session : nat) (code : string)
  | Accept (code : string)
  | Expire (code : string).

(** What the handlers know besides the manager: the sessions that may be
    tried (new ones are numbered), and the sessions that were handed out. *)
Record JoinState := mkJoinState {
  manager : ServerJoinManager;
  opened : nat;
  waiting : list nat;
  handed_out : list (string * nat);
}.

Definition join_start : JoinState := mkJoinState join_manager_new 0 [] [].

(** One round of the loop in [JoinRequestHandler::handle]: a new session, or
    one that came back with [Err]. *)
Definition attempt_session (session : nat) (code : string) (s : JoinState) : JoinState :=
  match add_session true code session (manager s) with
  | (m, Ok _) => mkJoinState m (opened s) (waiting s) (handed_out s)
  | (m, Err session) => mkJoinState m (opened s) (session :: waiting s) (handed_out s)
  | (m, Panic) => mkJoinState m (opened s) (waiting s) (handed_out s)
  end.

Inductive join_step : JoinState → JoinState → Prop :=
  | join_requested code s :
      join_step s (attempt_session (opened s) code
        (mkJoinState (manager s) (1 + opened s) (waiting s) (handed_out s)))
  | join_retried session code before after s :
      waiting s = before ++ session :: after →
      join_step s (attempt_session session code
        (mkJoinState (manager s) (opened s) (before ++ after) (handed_out s)))
  | join_accepted code m r s :
      get_session code (manager s) = (m, r) →
      join_step s (mkJoinState m (opened s) (waiting s)
        (handed_out s ++ match r with Some session => [(code, session)] | None => [] end))
  | join_expired code s :
      join_step s (mkJoinState (join_timeout code (manager s)) (opened s) (waiting s) (handed_out s)).

(** The codes a session was told, in order. *)
Definition codes_of (session : nat) (m : ServerJoinManager) : list string :=
  omap (λ x : nat * string, if decide (x.1 = session) then Some x.2 else None) (told m).

(** The code an agent shows to its user: it reads one only. *)
Definition shown_code (session : nat) (m : ServerJoinManager) : option string := head (codes_of session m).

(** *** What holds throughout *)
Record join_ok (s : JoinState) : Prop := {
  filed_last code session :
    session_map (manager s) !! code = Some session → last (codes_of session (manager s)) = Some code;
  filed_not_waiting code session : session_map (manager s) !! code = Some session → session ∉ waiting s;
  filed_not_handed code session : session_map (manager s) !! code = Some session → session ∉ (handed_out s).*2;
  handed_last code session : (code, session) ∈ handed_out s → last (codes_of session (manager s)) = Some code;
  handed_not_waiting session : session ∈ (handed_out s).*2 → session ∉ waiting s;
  handed_once : NoDup (handed_out s).*2;
  waiting_once : NoDup (waiting s);
  told_opened session code : (session, code) ∈ told (manager s) → (session < opened s)%nat;
  known_opened session :
    session ∈ waiting s ∨ session ∈ (handed_out s).*2 ∨ (∃ code, session_map (manager s) !! code = Some session) →
    (session < opened s)%nat;
}.

Lemma codes_of_app session m code session' :
  codes_of session (mkManager (session_map m) (told m ++ [(session', code)])) =
    codes_of session m ++ if decide (session' = session) then [code] else [].
Proof. unfold codes_of. cbn. rewrite omap_app. cbn. by case_decide. Qed.

Lemma codes_of_map session map t : codes_of session (mkManager map t) = codes_of session (mkManager ∅ t).
Proof. done. Qed.

(** An attempt with a session that is neither filed, nor waiting, nor handed
    out. *)
Lemma attempt_ok s session code :
  join_ok s → (session < opened s)%nat → session ∉ waiting s → session ∉ (handed_out s).*2 →
  (∀ c, session_map (manager s) !! c ≠ Some session) →
  join_ok (attempt_session session code s).
Proof.
  intros [H1 H2 H3 H4 H5 H6 H7 H8 H9] Ho Hw Hh Hf. unfold attempt_session, add_session. cbn [negb session_map].
  assert (∀ s', s' ≠ session → last (codes_of s' (mkManager (session_map (manager s)) (told (manager s) ++ [(session, code)]))) =
    last (codes_of s' (manager s))) as Hother.
  { intros s' Hne. rewrite codes_of_app, decide_False by done. by rewrite app_nil_r. }
  destruct (session_map (manager s) !! code) as [other|] eqn:Hm; cbn [told].
  - split; cbn [manager session_map told waiting handed_out opened].
    + intros c x Hx. rewrite Hother; [by apply H1|]. intros ->. by apply (Hf c).
    + intros c x Hx [->|Hin]%elem_of_cons; [by apply (Hf c)|by eapply H2].
    + done.
    + intros c x Hx. rewrite Hother; [by apply H4|]. intros ->. apply Hh. apply list_elem_of_fmap. by exists (c, session).
    + intros x Hx [->|Hin]%elem_of_cons; [done|by eapply H5].
    + done.
    + by constructor.
    + intros x c [Hx|[= -> ->]%list_elem_of_singleton]%elem_of_app; [by eapply H8|done].
    + intros x Hx. destruct Hx as [[->|Hx]%elem_of_cons|[Hx|Hx]]; [done|apply H9; tauto..].
  - split; cbn [manager session_map told waiting handed_out opened].
    + intros c x Hx. rewrite codes_of_map. apply lookup_insert_Some in Hx as [[<- <-]|[Hne Hx]].
      * change (last (codes_of session (mkManager (session_map (manager s)) (told (manager s) ++ [(session, code)]))) = Some code).
        rewrite codes_of_app, decide_True by done. by rewrite last_snoc.
      * change (last (codes_of x (mkManager (session_map (manager s)) (told (manager s) ++ [(session, code)]))) = Some c).
        rewrite Hother; [by apply H1|]. intros ->. by apply (Hf c).
    + intros c x [[<- <-]|[Hne Hx]]%lookup_insert_Some; [done|by eapply H2].
    + intros c x [[<- <-]|[Hne Hx]]%lookup_insert_Some; [done|by eapply H3].
    + intros c x Hx.
      change (last (codes_of x (mkManager (session_map (manager s)) (told (manager s) ++ [(session, code)]))) = Some c).
      rewrite Hother; [by apply H4|]. intros ->. apply Hh. apply list_elem_of_fmap. by exists (c, session).
    + done.
    + done.
    + done.
    + intros x c [Hx|[= -> ->]%list_elem_of_singleton]%elem_of_app; [by eapply H8|done].
    + intros x [Hx|[Hx|[c [[<- <-]|[Hne Hx]]%lookup_insert_Some]]]; [apply H9; tauto..|done|apply H9; eauto].
Qed.

Lemma take_out_ok s code m r :
  join_ok s → get_session code (manager s) = (m, r) →
  join_ok (mkJoinState m (opened s) (waiting s)
    (handed_out s ++ match r with Some session => [(code, session)] | None => [] end)).
Proof.
  intros [H1 H2 H3 H4 H5 H6 H7 H8 H9] [= <- <-].
  assert (∀ c x, delete code (session_map (manager s)) !! c = Some x → session_map (manager s) !! c = Some x) as Hd
    by (by intros c x [_ Hx]%lookup_delete_Some).
  destruct (session_map (manager s) !! code) as [session|] eqn:Hm.
  - assert (∀ c, delete code (session_map (manager s)) !! c ≠ Some session) as Hgone.
    { intros c [Hne Hx]%lookup_delete_Some. apply Hne. apply H1 in Hx. apply H1 in Hm. congruence. }
    split; cbn [manager session_map told waiting handed_out opened].
    + intros c x Hx. exact (H1 c x (Hd c x Hx)).
    + intros c x Hx. exact (H2 c x (Hd c x Hx)).
    + intros c x Hx. rewrite fmap_app, not_elem_of_app. cbn. split; [by eapply H3, Hd|].
      rewrite list_elem_of_singleton. intros ->. by apply (Hgone c).
    + intros c x [Hx|[= -> ->]%list_elem_of_singleton]%elem_of_app; [exact (H4 c x Hx)|exact (H1 _ _ Hm)].
    + intros x. rewrite fmap_app, elem_of_app. cbn. rewrite list_elem_of_singleton.
      intros [Hx| ->]; [by apply H5|by eapply H2].
    + rewrite fmap_app. apply NoDup_app. split_and!; [done| |apply NoDup_singleton].
      cbn. intros x Hx ->%list_elem_of_singleton. by eapply H3.
    + done.
    + done.
    + intros x [Hx|[Hx|[c Hx]]]; [apply H9; tauto| |apply H9; eauto].
      rewrite fmap_app, elem_of_app in Hx. cbn in Hx. rewrite list_elem_of_singleton in Hx.
      destruct Hx as [Hx| ->]; apply H9; eauto.
  - rewrite app_nil_r. split; cbn [manager session_map told waiting handed_out opened]; try done.
    + intros c x Hx. exact (H1 c x (Hd c x Hx)).
    + intros c x Hx. exact (H2 c x (Hd c x Hx)).
    + intros c x Hx. exact (H3 c x (Hd c x Hx)).
    + intros x [Hx|[Hx|[c Hx]]]; apply H9; eauto.
Qed.

Lemma join_step_ok s s' : join_step s s' → join_ok s → join_ok s'.
Proof.
  intros Hs Hok. pose proof Hok as [H1 H2 H3 H4 H5 H6 H7 H8 H9]. destruct Hs as [code s|session code be af s Hw|code m r s Hg|code s].
  - apply attempt_ok; cbn [manager opened waiting handed_out]; try lia.
    + split; cbn [manager opened waiting handed_out]; try done.
      * intros x c Hx. apply H8 in Hx. lia.
      * intros x Hx. specialize (H9 x Hx). lia.
    + intros Hx. assert (opened s < opened s)%nat; [apply H9; tauto|lia].
    + intros Hx. assert (opened s < opened s)%nat; [apply H9; tauto|lia].
    + intros c Hx. assert (opened s < opened s)%nat; [apply H9; eauto|lia].
  - rewrite Hw in H7. apply NoDup_app in H7 as (Nb & Hd & [Hna Na]%NoDup_cons).
    assert (session ∈ waiting s) as Hin by (rewrite Hw; apply elem_of_app; right; by left).
    assert (∀ x, x ∈ be ++ af → x ∈ waiting s) as Hsub
      by (intros x; rewrite Hw, !elem_of_app, elem_of_cons; tauto).
    apply attempt_ok; cbn [manager opened waiting handed_out].
    + split; cbn [manager opened waiting handed_out]; try done.
      * intros c x Hx Hx'. by eapply H2, Hsub.
      * intros x Hx Hx'. by eapply H5, Hsub.
      * apply NoDup_app. split_and!; [done| |done]. intros x Hx Hx'. apply (Hd x Hx). by right.
      * intros x [Hx|[Hx|Hx]]; apply H9; eauto.
    + apply H9. by left.
    + rewrite elem_of_app. intros [Hx|Hx]; [|done]. apply (Hd session Hx). by left.
    + intros Hx. by apply (H5 session).
    + intros c Hx. by apply (H2 c session).
  - by apply take_out_ok.
  - destruct (take_out_ok s code _ _ Hok eq_refl) as [K1 K2 K3 K4 K5 K6 K7 K8 K9].
    cbn [manager session_map told waiting handed_out opened] in *.
    split; cbn [manager session_map told waiting handed_out opened join_timeout]; try done.
    + intros c x Hx%lookup_delete_Some. destruct Hx as [_ Hx]. by eapply H3.
    + intros x [Hx|[Hx|[c [_ Hx]%lookup_delete_Some]]]; apply H9; eauto.
Qed.

Lemma join_start_ok : join_ok join_start.
Proof. split; cbn; try (by constructor); set_solver. Qed.

Lemma reachable_join_ok s : rtc join_step join_start s → join_ok s.
Proof.
  intros Hr. assert (∀ s0, rtc join_step s0 s → join_ok s0 → join_ok s) as Hgen.
  { clear. induction 1; [done|]. eauto using join_step_ok. }
  by eapply Hgen, join_start_ok.
Qed.

(** An agent waiting to join is connected to at most one client, and only
    to one that names the last code the agent's session was told. The agent
    itself shows the first one: so whoever enters the code an agent shows is
    connected to that agent or, when the server had to retry, because the
    first code was taken, to none or to another one. *)
Theorem join_code_leads_to s :
  rtc join_step join_start s →
  NoDup (handed_out s).*2 ∧
  ∀ code session, (code, session) ∈ handed_out s ∨ session_map (manager s) !! code = Some session →
    last (codes_of session (manager s)) = Some code ∧
    (length (codes_of session (manager s)) = 1%nat → shown_code session (manager s) = Some code) ∧
    (shown_code session (manager s) ≠ Some code → (1 < length (codes_of session (manager s)))%nat).
Proof.
  intros Hr. pose proof (reachable_join_ok s Hr) as [H1 H2 H3 H4 H5 H6 H7 H8 H9]. split; [done|].
  intros code session Hin.
  assert (last (codes_of session (manager s)) = Some code) as Hl by (destruct Hin; [by apply H4|by apply H1]).
  split; [done|]. unfold shown_code. destruct (codes_of session (manager s)) as [|c [|c' cs]]; [done| |];
    cbn in *; [|split; [done|lia]]. injection Hl as ->. split; [done|]. by intros [].
Qed.

(** ** The handler of the client's side ([JoinAcceptHandler]) *)
Inductive AcceptFailure := AcceptRead (e : ObjectReaderError) | AcceptWrite (e : ObjectWriterError).

(** Up to the point where the two sessions are copied into each other; the
    result is the session of the agent. *)
Definition accept_join_handle `{!Postcard string, !Postcard (result () ())} :
    script ServerJoinManager AcceptFailure (option nat) :=
  join_code ← script_map_err AcceptRead (read_object (U := string));
  manager ← get;
  let '(manager, agent_session) := get_session join_code manager in
  _ ← put manager;
  match agent_session with
  | Some agent_session =>
      _ ← script_map_err AcceptWrite (write_object (Ok () : result () ()));
      mret (Some agent_session)
  | None =>
      _ ← script_map_err AcceptWrite (write_object (Err () : result () ()));
      mret None
  end.

(** ** Worked examples *)

(** Two agents draw the same code: the first one is reached by it, the second
    one shows it and is filed under another one. *)
Definition toy_collision : JoinState :=
  attempt_session 1 "17" (mkJoinState (manager (attempt_session 1 "5"
    (mkJoinState (manager (attempt_session 0 "5" (mkJoinState join_manager_new 1 [] []))) 2 [] []))) 2 [] []).

Lemma join_code_leads_to_witness :
  session_map (manager toy_collision) !! "17" = Some 1%nat ∧ shown_code 1 (manager toy_collision) = Some "5" ∧
  session_map (manager toy_collision) !! "5" = Some 0%nat ∧
  (1 < length (codes_of 1 (manager toy_collision)))%nat.
Proof.
  assert (rtc join_step join_start toy_collision) as Hr.
  { eapply rtc_l; [apply (join_requested "5" join_start)|].
    eapply rtc_l; [apply (join_requested "5")|].
    eapply rtc_l; [exact (join_retried 1 "17" [] [] (attempt_session 1 "5"
      (mkJoinState (manager (attempt_session 0 "5" (mkJoinState join_manager_new 1 [] []))) 2 [] [])) eq_refl)|].
    apply rtc_refl. }
  split; [reflexivity|]. split; [reflexivity|]. split; [reflexivity|].
  refine (proj2 (proj2 (proj2 (join_code_leads_to _ Hr) "17" 1%nat (or_intror eq_refl))) _).
  vm_compute. discriminate.
Defined.
