(* ===== verification/Enroll.v ===== *)
(** * Joining agents: the agent and the client

    The agent's side is [RequestJoin] in
    [svalin/src/shared/join_agent/request_handler.rs], the client's [AcceptJoin]
    in [accept_handler.rs], with [add_cert_to_trust_store] of
    [svalin/src/client/add_agent.rs]. After the server has connected them
    ([Join]) the two talk to each other directly: first the password
    authenticated transport over the code the agent shows, then the
    enrolment. *)
From S2P Require Import Prelude.
From S2P Require Import External.
From S2P Require Import Spki.
From S2P Require Import Sql.
From S2P Require Import Toy.
From S2P Require Import Certificate.
From S2P Require Import CertChain.
From S2P Require Import Encrypt.
From S2P Require Import Credential.
From S2P Require Import SecureChain.
From S2P Require Import TrustStore.
From S2P Require Import TransactionStore.
From S2P Require Import UserStore.
From S2P Require Import Verifiers.
From S2P Require Import Transport.
From S2P Require Import Script.
From S2P Require Import TlsTransport.
From S2P Require Import Pake.
From S2P Require Import Streaming.
From S2P Require Import Join.
From stdpp Require Import relations.
From stdpp Require Import options.

#[local] Open Scope Z_scope.

Section enroll.
Context `{X509, CR : Crypto, RG : !Rcgen, Aead, !Postcard SavedKeypair, TS : TlsStack, Argon2}.
Context `{!Postcard UnverifiedCertificate, !Postcard (EncryptedObject UnverifiedCertificate)}.
Context `{PK : Pake, !Postcard (list Z), !Postcard Nonce, !Postcard PublicKey, !Postcard ClientInfo}.
Context `{!Postcard (result () Authenticator)}.
Context `{!Postcard ExportedPublicKey, !Postcard ExportedStore, !Postcard string, !Postcard (result () ())}.
Context `{!Postcard Block}.

(** ** The agent *)
Record AgentInitPayload := mkAgentInitPayload {
  address : string;
  credentials : Credential;
  payload_root : RootCertificate;
  payload_upstream : Certificate;
  payload_trust_store : ExportedStore;
}.

(** The two channels to the user interface: whether it still listens, and
    what it was told. *)
Record AgentJoin := mkAgentJoin {
  join_code_listens : bool;
  confirm_code_listens : bool;
  join_code_shown : option string;
  confirm_code_shown : option string;
}.

Inductive RequestJoinError :=
  | JoinCodeReadError (e : ObjectReaderError)
  | ChannelSendError
  | RequestAucPaceError (e : AucPaceServerError)
  | SendRequestError (e : ObjectWriterError)
  | ReadCertificateError (e : ObjectReaderError)
  | UpgradeError (e : CreateCredentialsError)
  | ReadRootCertError (e : ObjectReaderError)
  | UseRootError (e : UseAsRootError)
  | ReadUpstreamCertError (e : ObjectReaderError)
  | VerifyUpstreamCertError (e : SignatureVerificationError)
  | ReadTrustStoreError (e : ObjectReaderError)
  | ImportTrustStoreError (e : ImportError InnerImportErr)
  | RequestSessionReadError (e : ObjectReaderError)
  | UploadToServerError.

Section agent_side.
(** [rand::random_range(0..bound)] from random bytes. *)
Context (random_range : Z → list Z → Z) (m : Machine).

Abbreviation agent_script := (script AgentJoin RequestJoinError).

(** Up to the code the user has to confirm. *)
Definition show_codes : agent_script string :=
  join_code ← script_map_err JoinCodeReadError (read_object (U := string));
  agent ← get;
  if negb (join_code_listens agent) then returns (Err ChannelSendError)
  else
    _ ← put (mkAgentJoin (join_code_listens agent) (confirm_code_listens agent) (Some join_code) (confirm_code_shown agent));
    drawn ← draw;
    let confirm_code := generate_short_code (random_range short_code_bound (random m drawn)) in
    agent ← get;
    if negb (confirm_code_listens agent) then returns Panic
    else
      _ ← put (mkAgentJoin (join_code_listens agent) (confirm_code_listens agent) (join_code_shown agent) (Some confirm_code));
      mret confirm_code.

(** What follows on the encrypted session. *)
Definition agent_enroll (address : string) : agent_script AgentInitPayload :=
  g ← draw;
  keypair ← returns (keypair_generate (generated m g));
  public_key ← returns (export_public_key keypair);
  _ ← script_map_err SendRequestError (write_object public_key);
  my_cert ← script_map_err ReadCertificateError (read_object (U := UnverifiedCertificate));
  my_credentials ← returns (map_err UpgradeError (upgrade keypair my_cert));
  root ← script_map_err ReadRootCertError (read_object (U := UnverifiedCertificate));
  root ← returns (map_err UseRootError (use_as_root root));
  upstream ← script_map_err ReadUpstreamCertError (read_object (U := UnverifiedCertificate));
  t ← draw;
  upstream ← returns (map_err VerifyUpstreamCertError
    (verify_signature upstream (as_certificate root) (get_current_timestamp m t)));
  trust_store ← script_map_err ReadTrustStoreError (read_object (U := ExportedStore));
  _ ← returns (map_err ImportTrustStoreError (ts_import trust_store));
  upload_to_server_result ← script_map_err RequestSessionReadError (read_object (U := result () ()));
  match upload_to_server_result with
  | Ok _ => mret (mkAgentInitPayload address my_credentials root upstream trust_store)
  | Err _ | Panic => returns (Err UploadToServerError)
  end.

Definition agent_confirmed (address confirm_code : string) : agent_script AgentInitPayload :=
  _ ← script_map_err RequestAucPaceError (aucpace_server m (str_bytes confirm_code));
  agent_enroll address.

(** [RequestJoin::dispatch]. *)
Definition request_join (address : string) : agent_script AgentInitPayload :=
  confirm_code ← show_codes;
  agent_confirmed address confirm_code.

End agent_side.

(** ** The client *)
Record JoinClient := mkJoinClient {
  user_credential : Credential;
  root_certificate : RootCertificate;
  upstream_certificate : Certificate;
  client_node : Node;
  (** The blocks that were sent to the server. *)
  sent_blocks : list Block;
}.

Inductive AddToTrustStoreError :=
  | AddCreateBlockError (e : CreateBlockError StoreError)
  | AddUploadToServerError
  | AddTransactionStoreError (e : TransactionStoreError).

Inductive AcceptJoinError :=
  | AcceptSessionReadError (e : ObjectReaderError)
  | AcceptSessionWriteError (e : ObjectWriterError)
  | AgentNotFound
  | AcceptCreateCertificateError (e : CreateCertificateError)
  | Aborted
  | AcceptAucPaceError (e : AucPaceClientError)
  | AcceptAddToTrustStoreError (e : AddToTrustStoreError).

Section client_side.
Context (m : Machine).
(** [feedback] is what [send_with_feedback] comes to, of the stream to the
    server ([Streaming]). *)
Context (feedback : Block → result () ()).

Definition with_node (client : JoinClient) (node : Node) : JoinClient :=
  mkJoinClient (user_credential client) (root_certificate client) (upstream_certificate client) node (sent_blocks client).

(** [add_cert_to_trust_store]. *)
Definition add_cert_to_trust_store (cert : Certificate) (now : Z) : io JoinClient AddToTrustStoreError () := λ client,
  match ts_add (node_trust (client_node client)) cert (user_credential client) now with
  | (trust, Err e) => (with_node client (mkNode trust (node_tx (client_node client))), Err (AddCreateBlockError e))
  | (trust, Panic) => (with_node client (mkNode trust (node_tx (client_node client))), Panic)
  | (trust, Ok block) =>
      let client := mkJoinClient (user_credential client) (root_certificate client) (upstream_certificate client)
                      (mkNode trust (node_tx (client_node client))) (sent_blocks client ++ [as_unchecked block]) in
      match feedback (as_unchecked block) with
      | Ok _ =>
          match tx_add (node_tx (client_node client)) block with
          | (tx, Err e) => (with_node client (mkNode trust tx), Err (AddTransactionStoreError e))
          | (tx, Panic) => (with_node client (mkNode trust tx), Panic)
          | (tx, Ok _) =>
              match ts_apply trust block with
              | Ok trust => (with_node client (mkNode trust tx), Ok ())
              | Err e => (with_node client (mkNode trust tx), Err e)
              | Panic => (with_node client (mkNode trust tx), Panic)
              end
          end
      | _ => (client, Err AddUploadToServerError)
      end
  end.

Abbreviation accept_script := (script JoinClient AcceptJoinError).

(** [handle_agent_enroll]. *)
Definition handle_agent_enroll : accept_script Certificate :=
  public_key ← script_map_err AcceptSessionReadError (read_object (U := ExportedPublicKey));
  client ← get;
  t1 ← draw;
  t2 ← draw;
  agent_cert ← returns (map_err AcceptCreateCertificateError
    (create_agent_certificate_for_key (user_credential client) public_key (clock m t1) (clock m t2)));
  _ ← script_map_err AcceptSessionWriteError (write_object (as_unverified agent_cert));
  _ ← script_map_err AcceptSessionWriteError (write_object (as_unverified (as_certificate (root_certificate client))));
  _ ← script_map_err AcceptSessionWriteError (write_object (as_unverified (upstream_certificate client)));
  client ← get;
  _ ← script_map_err AcceptSessionWriteError (write_object (ts_export (node_trust (client_node client))));
  t ← draw;
  trust_result ← perform (add_cert_to_trust_store agent_cert (get_current_timestamp m t));
  match trust_result with
  | Ok _ =>
      _ ← script_map_err AcceptSessionWriteError (write_object (Ok () : result () ()));
      mret agent_cert
  | Err e =>
      _ ← attempt (write_object (Err () : result () ()));
      returns (Err (AcceptAddToTrustStoreError e))
  | Panic => returns Panic
  end.

Definition client_confirmed (confirm_code : string) : accept_script Certificate :=
  _ ← script_map_err AcceptAucPaceError (aucpace_client m (str_bytes confirm_code));
  handle_agent_enroll.

(** [AcceptJoin::dispatch]; [confirm_code] is what the user enters, [None]
    when the dialogue is gone. *)
Definition accept_join (join_code : string) (confirm_code : option string) : accept_script Certificate :=
  _ ← script_map_err AcceptSessionWriteError (write_object join_code);
  found ← script_map_err AcceptSessionReadError (read_object (U := result () ()));
  match found with
  | Ok _ =>
      match confirm_code with
      | Some confirm_code => client_confirmed confirm_code
      | None => returns (Err Aborted)
      end
  | Err _ | Panic => returns (Err AgentNotFound)
  end.

End client_side.

(** ** An enrolment that goes well *)
#[local] Set Default Proof Using "All".
Section meeting.
Context (m ma : Machine) (feedback : Block → result () ()).
Context `{!RcgenLaws, !AeadLaws, !PostcardLaws UnverifiedCertificate, !TlsStackLaws, !PakeLaws}.
Context `{!PostcardLaws (EncryptedObject UnverifiedCertificate), !PostcardLaws Nonce, !Sendable Nonce}.
Context `{!PostcardLaws PublicKey, !Sendable PublicKey, !PostcardLaws (list Z), !Sendable (list Z), !AnswerLaws}.
Context `{!PostcardLaws ClientInfo, !Sendable ClientInfo}.
Context `{!PostcardLaws ExportedPublicKey, !PostcardLaws ExportedStore, !PostcardLaws (result () ())}.

(** The code, the two sides from the [n]-th draw of the client and the [k]-th
    of the agent on, and what they make on the way. *)
Context (address code : string) (client : JoinClient) (agent : AgentJoin) (n k h : nat).
Context (salt : SaltString) (ps : ParamsString) (v : RistrettoPoint) (cc ca : Credential).
Context (keypair : KeyPair) (pk : ExportedPublicKey) (agent_cert : Certificate) (cr : Credential).
Context (root : RootCertificate) (upstream : Certificate) (imported before after : TrustStore).
Context (block : CheckedBlock StoreTransaction) (tx : TxStore).

(** The password authenticated transport over the code. *)
Context (Hargon : argon2_params_ok (m_cost cost_basic) (t_cost cost_basic) (p_cost cost_basic) = true).
Context (Hreg : register_alloc (random ma k) USERNAME (str_bytes code)
  (m_cost cost_basic, t_cost cost_basic, p_cost cost_basic) = Ok (Registration USERNAME salt ps v)).
Context (Hname : server_name_ok "todo" = Ok ()) (Hcc : tls_usable cc) (Hca : tls_usable ca).
Context (Htemporary : ∀ key, length (key_bytes key) = 32%nat → ∃ bc bs,
  sends_temporary m (3 + n) key cc bc ∧ sends_temporary ma (5 + k) key ca bs).
Context (Hvc : check_validity_at (credential_certificate cc) (handshake_time h) = Ok ()).
Context (Hva : check_validity_at (credential_certificate ca) (handshake_time h) = Ok ()).

(** The enrolment. *)
Context (Hkey : keypair_generate (E := RequestJoinError) (generated ma (9 + k)) = Ok keypair).
Context (Hpk : export_public_key (E := RequestJoinError) keypair = Ok pk).
Context (Hcert : create_agent_certificate_for_key (user_credential client) pk (clock m (7 + n)) (clock m (8 + n)) = Ok agent_cert).
Context (Hupgrade : upgrade keypair (as_unverified agent_cert) = Ok cr).
Context (Hroot : use_as_root (as_unverified (as_certificate (root_certificate client))) = Ok root).
Context (Hupstream : verify_signature (as_unverified (upstream_certificate client)) (as_certificate root)
  (get_current_timestamp ma (10 + k)) = Ok upstream).
Context (Himport : ts_import (ts_export (node_trust (client_node client))) = Ok imported).
Context (Hadd : ts_add (node_trust (client_node client)) agent_cert (user_credential client)
  (get_current_timestamp m (9 + n)) = (before, Ok block)).
Context (Hfeedback : feedback (as_unchecked block) = Ok ()).
Context (Htx : tx_add (node_tx (client_node client)) block = (tx, Ok ())).
Context (Happly : ts_apply (E := AddToTrustStoreError) before block = Ok after).
Context (Hpks : ∃ b, sendable pk b) (Hdone : ∃ b, sendable (Ok () : result () ()) b).
Context (Hexports : ∃ b, sendable (ts_export (node_trust (client_node client))) b).
Context (Hcerts : ∀ c, c ∈ [as_unverified agent_cert; as_unverified (as_certificate (root_certificate client));
  as_unverified (upstream_certificate client)] → ∃ b, sendable c b).

Definition client_after : JoinClient :=
  mkJoinClient (user_credential client) (root_certificate client) (upstream_certificate client)
    (mkNode after tx) (sent_blocks client ++ [as_unchecked block]).

Lemma certificate_added :
  add_cert_to_trust_store feedback agent_cert (get_current_timestamp m (9 + n)) client = (client_after, Ok ()).
Proof. unfold add_cert_to_trust_store. rewrite Hadd, Hfeedback. cbn [with_node client_node node_tx]. by rewrite Htx, Happly. Qed.

(** C8: An agent that shows a code and a client whose user enters it meet.
    Over the session the server connects them by, and whatever the
    interleaving, the agent ends with a credential for the key it has just
    made, the certificate of the root, that of the server, which it has
    verified, and the client's trust store as it was; the client ends with the
    agent's certificate, has sent the server one block, which adds this
    certificate, and finds it in its own trust store. *)
Theorem join_meets :
  cr = mkCredential keypair agent_cert ∧ ts_get after (spki_hash agent_cert) = Some agent_cert ∧
  inevitable
    (mkPair (client_confirmed m feedback code) client n (agent_confirmed ma address code) agent k [] [] h)
    (mkPair (Finished (Ok agent_cert)) client_after (10 + n)
       (Finished (Ok (mkAgentInitPayload address cr root upstream (ts_export (node_trust (client_node client))))))
       agent (11 + k) [] [] (1 + h)).
Proof.
  split_and!.
  - apply credential_new_Ok in Hupgrade as (-> & _). by destruct agent_cert.
  - by eapply added_is_found.
  - apply rtc_inevitable; [|apply finished_nf]. destruct Hpks as [bp Bp], Hdone as [bd Bd], Hexports as [be Be].
    destruct (Hcerts (as_unverified agent_cert)) as [ba Ba]; [set_solver|].
    destruct (Hcerts (as_unverified (as_certificate (root_certificate client)))) as [br Br]; [set_solver|].
    destruct (Hcerts (as_unverified (upstream_certificate client))) as [bu Bu]; [set_solver|].
    destruct (aucpace_run m ma (str_bytes code) salt ps v cc ca client n agent k h Hargon Hreg Hname Hcc Hca Htemporary Hvc Hva)
      as (exporter & _ & Hpake).
    unfold client_confirmed, agent_confirmed. etransitivity.
    { apply (pair_continue (script_map_err _ _) _ (script_map_err _ _)). by apply pair_continue. }
    cbn [continue]. unfold handle_agent_enroll, agent_enroll.
    pair_does server_draws_one. rewrite Hkey, returns_bind, Hpk, returns_bind. pair_does server_writes.
    pair_does client_reads. pair_does client_gets. do 2 pair_does client_draws_one.
    change (1 + (7 + n))%nat with (8 + n)%nat. rewrite Hcert. cbn [map_err].
    rewrite returns_bind. do 3 pair_does client_writes. pair_does client_gets. pair_does client_writes.
    pair_does client_draws_one. etransitivity; [eapply client_performs; [apply certificate_added|done]|].
    pair_does client_writes. pair_does server_reads. rewrite Hupgrade. cbn [map_err]. rewrite returns_bind.
    pair_does server_reads. rewrite Hroot. cbn [map_err]. rewrite returns_bind. pair_does server_reads.
    pair_does server_draws_one. change (1 + (9 + k))%nat with (10 + k)%nat. rewrite Hupstream. cbn [map_err]. rewrite returns_bind. pair_does server_reads.
    rewrite Himport. cbn [map_err]. rewrite returns_bind.
    etransitivity; [eapply (server_reads _ _ _ _ _ _ _ _ _ (Ok () : result () ())), sendable_back, Bd|]. apply rtc_refl.
Qed.
End meeting.
End enroll.

(** ** Worked example *)
#[local] Existing Instance toy_x509.
#[local] Existing Instance toy_crypto.
#[local] Existing Instance toy_rcgen.
#[local] Existing Instance toy_aead.
#[local] Existing Instance toy_argon.
#[local] Existing Instance toy_tls.
#[local] Existing Instance toy_login_types.
#[local] Existing Instance toy_pake_types.
#[local] Existing Instance toy_pake.
#[local] Existing Instance postcard_keypair.
#[local] Existing Instance postcard_certificate.
#[local] Existing Instance toy_postcard.
#[local] Existing Instance toy_postcard_laws.
#[local] Existing Instance toy_sendable.
#[local] Existing Instance toy_answer_laws.
#[local] Existing Instance public_key_countable.
#[local] Existing Instance client_info_countable.
#[local] Existing Instance answer_countable.
#[local] Existing Instances postcard_keypair_laws postcard_certificate_laws toy_pake_laws toy_tls_laws toy_aead_laws
  toy_rcgen_laws.

Definition toy_agent_certificate : Certificate := mkCertificate (toy_certificate Agent 59 1 500).
Definition toy_upstream : Certificate := mkCertificate (toy_certificate Server 50 1 500).
Definition toy_agent_block : CheckedBlock StoreTransaction :=
  match (ts_add toy_store0 toy_agent_certificate root_credential 500).2 with Ok b => b | _ => toy_add_block end.
Definition toy_agent_store : TrustStore :=
  match ts_apply (E := ()) toy_store0 toy_agent_block with Ok ts => ts | _ => toy_store0 end.
Definition toy_join_client : JoinClient :=
  mkJoinClient root_credential toy_root_certificate toy_upstream (mkNode toy_store0 (mkTxStore [] 0)) [].
#[local] Instance postcard_agent_block : Postcard Block := postcard_one toy_agent_block.
#[local] Instance postcard_store : Postcard ExportedStore := postcard_only (ts_export toy_store0).
#[local] Instance postcard_agent_key : Postcard ExportedPublicKey := postcard_only (mkExportedPublicKey [59] PkcsEd25519).
#[local] Instance postcard_done : Postcard (result () ()) := postcard_only (Ok ()).

Lemma toy_enrolled :
  add_cert_to_trust_store (λ _, Ok ()) toy_agent_certificate 500 toy_join_client =
    (mkJoinClient root_credential toy_root_certificate toy_upstream
       (mkNode toy_agent_store (mkTxStore [(1, [1])] 1)) [as_unchecked toy_agent_block], Ok ()).
Proof. reflexivity. Qed.

Lemma toy_enrolment_connection key :
  length (key_bytes key) = 32%nat → ∃ bc bs,
    sends_temporary toy_alice 3 key (toy_temporary 13) bc ∧ sends_temporary toy_bob 5 key (toy_temporary 55) bs.
Proof.
  intros Hk. destruct (toy_sends_any 10 3 key) as [bc Hbc]; [reflexivity|reflexivity|done|].
  destruct (toy_sends_any 50 5 key) as [bs Hbs]; [reflexivity|reflexivity|done|]. by exists bc, bs.
Qed.

Lemma toy_enrolment_registers :
  register_alloc (random toy_bob 0) USERNAME (str_bytes "57432") (m_cost cost_basic, t_cost cost_basic, p_cost cost_basic) =
  Ok (Registration USERNAME (replicate 12 9) (Some (m_cost cost_basic, t_cost cost_basic, p_cost cost_basic))
        (str_bytes "57432" ++ replicate 12 9)).
Proof. reflexivity. Qed.

Lemma join_meets_witness :
  ts_get toy_agent_store (spki_hash toy_agent_certificate) = Some toy_agent_certificate ∧
  inevitable
    (mkPair (client_confirmed toy_alice (λ _, Ok ()) "57432") toy_join_client 0
       (agent_confirmed toy_bob "svalin" "57432") (mkAgentJoin true true None None) 0 [] [] 0)
    (mkPair (Finished (Ok toy_agent_certificate))
       (mkJoinClient root_credential toy_root_certificate toy_upstream
          (mkNode toy_agent_store (mkTxStore [(1, [1])] 1)) [as_unchecked toy_agent_block]) 10
       (Finished (Ok (mkAgentInitPayload "svalin" (mkCredential (toy_keypair 59) toy_agent_certificate)
          toy_root_certificate toy_upstream (ts_export toy_store0)))) (mkAgentJoin true true None None) 11 [] [] 1).
Proof.
  pose proof (join_meets (TS := toy_tls) (H1 := toy_argon)
    (PostcardLaws6 := postcard_only_laws (mkExportedPublicKey [59] PkcsEd25519))
    (PostcardLaws7 := postcard_only_laws (ts_export toy_store0)) (PostcardLaws8 := postcard_only_laws (Ok () : result () ()))
    toy_alice toy_bob (λ _, Ok ()) "svalin" "57432" toy_join_client (mkAgentJoin true true None None) 0 0 0
    _ _ _ (toy_temporary 13) (toy_temporary 55) (toy_keypair 59) (mkExportedPublicKey [59] PkcsEd25519)
    toy_agent_certificate (mkCredential (toy_keypair 59) toy_agent_certificate) toy_root_certificate toy_upstream
    toy_store0 toy_store0 toy_agent_store toy_agent_block (mkTxStore [(1, [1])] 1) eq_refl toy_enrolment_registers
    eq_refl (conj eq_refl eq_refl) (conj eq_refl eq_refl) toy_enrolment_connection) as E.
  destruct (E eq_refl eq_refl eq_refl eq_refl eq_refl eq_refl eq_refl eq_refl eq_refl eq_refl eq_refl eq_refl eq_refl
    ltac:(by eexists) ltac:(by eexists) ltac:(by eexists)) as (_ & Hg & Hi).
  - apply Forall_forall. repeat constructor; by eexists.
  - by split.
Defined.
