(* ===== verification/Files.v ===== *)
(** * Files ([svalin/src/util/location.rs], [tokio::fs])

    What a node keeps on disk besides its databases: the server its base
    configuration, an agent its configuration, a client its profiles, each
    with a trust store. A [files] program is a sequence of operations on the
    file system. Any of them can fail, and the process can be killed between
    two of them or within one that works in pieces; [survives] is what holds
    then, with one rule per construct. *)
From S2P Require Import Prelude.
From S2P Require Import External.
From Stdlib Require Import Ascii.
From stdpp Require Import relations.
From stdpp Require Import options.

#[local] Open Scope Z_scope.

(** ** Paths ([Location], on Linux)

    The components of an absolute path. *)
Definition Path : Type := list string.

Fixpoint split_on (c : ascii) (s : string) : list string :=
  match s with
  | EmptyString => [EmptyString]
  | String a s =>
      if decide (a = c) then EmptyString :: split_on c s
      else match split_on c s with
           | [] => [String a EmptyString]
           | x :: l => String a x :: l
           end
  end.

(** [Path::components], which drops empty components and [.]. *)
Definition components (s : string) : list string :=
  filter (λ x, x ≠ ""%string ∧ x ≠ "."%string) (split_on "/" s).

(** [PathBuf::push]: an absolute path replaces everything. *)
Definition push (self : Path) (path : string) : Path :=
  match path with
  | String "/" _ => components path
  | _ => self ++ components path
  end.

Definition parent (self : Path) : option Path :=
  match self with [] => None | _ => Some (removelast self) end.

(** What is before the last dot. *)
Fixpoint before_last_dot (s : string) : option string :=
  match s with
  | EmptyString => None
  | String a s =>
      match before_last_dot s with
      | Some b => Some (String a b)
      | None => if decide (a = "."%char) then Some EmptyString else None
      end
  end.

Definition file_stem (name : string) : string :=
  match before_last_dot name with
  | None | Some EmptyString => name
  | Some stem => stem
  end.

(** [Path::with_extension]. *)
Definition with_extension (self : Path) (extension : string) : Path :=
  match last self with
  | None => self
  | Some name =>
      if decide (name = ".."%string) then self
      else removelast self ++ [file_stem name +:+ "." +:+ extension]
  end.

Inductive LocationError :=
  | LocationIoError
  | NoHomeSet.

Definition system_data_dir : Path := ["var"; "lib"; "svalin"; "agent"]%string.

(** The two environment variables. *)
Definition user_data_dir (xdg_config_home home : option Path) : result LocationError Path :=
  match xdg_config_home with
  | Some config_dir => Ok (push config_dir "svalin")
  | None =>
      match home with
      | Some config_dir => Ok (push (push config_dir ".config") "svalin")
      | None => Err NoHomeSet
      end
  end.

(** ** The file system *)
Inductive FsError := FileNotFound | OtherIo.

Record FileTree := mkFileTree {
  disk_files : gmap Path (list Z);
  disk_dirs : gset Path;
}.

Inductive fs_op : Type → Type :=
  | TryExists (p : Path) : fs_op bool
  | ReadFile (p : Path) : fs_op (list Z)
  | CreateTruncate (p : Path) : fs_op ()
  | WriteOut (p : Path) (b : list Z) : fs_op ()
  | SyncFile (p : Path) : fs_op ()
  | RenameFile (p q : Path) : fs_op ()
  | CreateDirAll (p : Path) : fs_op ()
  | RemoveDirAll (p : Path) : fs_op ()
  | ReadDir (p : Path) : fs_op (list (string * bool))
  | RemoveFile (p : Path) : fs_op ()
  | OpenWrite (p : Path) : fs_op ()
  | WriteAt (p : Path) (offset : nat) (b : list Z) : fs_op ().

(** More bytes at the end of an open file. *)
Definition written (p : Path) (b : list Z) (d : FileTree) : FileTree :=
  mkFileTree (alter (λ old, old ++ b) p (disk_files d)) (disk_dirs d).

(** Bytes over what an open file has at an offset. *)
Definition overwritten (p : Path) (offset : nat) (b : list Z) (d : FileTree) : FileTree :=
  mkFileTree (alter (λ old, take offset old ++ b ++ drop (offset + length b) old) p (disk_files d)) (disk_dirs d).

Definition with_file (p : Path) (b : list Z) (d : FileTree) : FileTree := mkFileTree (<[p := b]> (disk_files d)) (disk_dirs d).

Definition parent_exists (p : Path) (d : FileTree) : Prop := ∃ q, parent p = Some q ∧ q ∈ disk_dirs d.
#[global] Instance parent_exists_dec p d : Decision (parent_exists p d).
Proof.
  refine (match parent p as o return parent p = o → _ with
          | Some q => λ E, cast_if (decide (q ∈ disk_dirs d))
          | None => λ E, right _
          end eq_refl); unfold parent_exists; abstract naive_solver.
Defined.

(** The path and all above it. *)
Definition and_above (p : Path) : list Path := (λ n, take n p) <$> seq 0 (S (length p)).

(** The entry of directory [p] that a path below it lies in. *)
Definition entry_of (p q : Path) : option string :=
  if decide (take (length p) q = p ∧ length q = S (length p)) then last q else None.

Definition effect {R} (o : fs_op R) (d : FileTree) : FileTree * result FsError R :=
  match o with
  | TryExists p => (d, Ok (bool_decide (is_Some (disk_files d !! p) ∨ p ∈ disk_dirs d)))
  | ReadFile p => (d, match disk_files d !! p with Some b => Ok b | None => Err FileNotFound end)
  | CreateTruncate p =>
      if decide (p ∈ disk_dirs d) then (d, Err OtherIo)
      else if decide (parent_exists p d) then (with_file p [] d, Ok ())
      else (d, Err FileNotFound)
  | WriteOut p b => (written p b d, Ok ())
  | SyncFile p => (d, Ok ())
  | RenameFile p q =>
      match disk_files d !! p with
      | None => (d, Err FileNotFound)
      | Some b =>
          if decide (q ∈ disk_dirs d) then (d, Err OtherIo)
          else if decide (parent_exists q d) then
            (mkFileTree (<[q := b]> (delete p (disk_files d))) (disk_dirs d), Ok ())
          else (d, Err FileNotFound)
      end
  | CreateDirAll p =>
      if decide (Exists (λ q, is_Some (disk_files d !! q)) (and_above p)) then (d, Err OtherIo)
      else (mkFileTree (disk_files d) (disk_dirs d ∪ list_to_set (and_above p)), Ok ())
  | RemoveDirAll p =>
      if decide (p ∈ disk_dirs d) then
        (mkFileTree (filter (λ x, ¬ p `prefix_of` x.1) (disk_files d)) (filter (λ q, ¬ p `prefix_of` q) (disk_dirs d)), Ok ())
      else (d, Err FileNotFound)
  | ReadDir p =>
      (d, if decide (p ∈ disk_dirs d) then
            Ok (omap (λ q, (λ x, (x, true)) <$> entry_of p q) (elements (disk_dirs d)) ++
                omap (λ x, (λ x, (x, false)) <$> entry_of p x.1) (map_to_list (disk_files d)))
          else Err FileNotFound)
  | RemoveFile p =>
      match disk_files d !! p with
      | Some _ => (mkFileTree (delete p (disk_files d)) (disk_dirs d), Ok ())
      | None => (d, Err (if decide (p ∈ disk_dirs d) then OtherIo else FileNotFound))
      end
  | OpenWrite p =>
      if decide (p ∈ disk_dirs d) then (d, Err OtherIo)
      else match disk_files d !! p with
           | Some _ => (d, Ok ())
           | None => if decide (parent_exists p d) then (with_file p [] d, Ok ()) else (d, Err FileNotFound)
           end
  | WriteAt p offset b => (overwritten p offset b d, Ok ())
  end.

(** Some operations work in pieces: what is left of the operation, and the
    disk in between. *)
Definition piece {R} (o : fs_op R) (d : FileTree) : fs_op R → FileTree → Prop :=
  match o in fs_op R return fs_op R → FileTree → Prop with
  | WriteOut p b => λ o' d', ∃ b1 b2, b = b1 ++ b2 ∧ o' = WriteOut p b2 ∧ d' = written p b1 d
  | RemoveDirAll p => λ o' d', ∃ q, p `prefix_of` q ∧ o' = RemoveDirAll p ∧
      d' = mkFileTree (delete q (disk_files d)) (disk_dirs d)
  | WriteAt p offset b => λ o' d', ∃ b1 b2, b = b1 ++ b2 ∧ o' = WriteAt p (offset + length b1) b2 ∧ d' = overwritten p offset b1 d
  | _ => λ o' d', False
  end.

(** ** Programs *)
Inductive files (E A : Type) : Type :=
  | Done (r : result E A)
  | Do {R : Type} (o : fs_op R) (k : result FsError R → files E A).
#[global] Arguments Done {E A} _.
#[global] Arguments Do {E A R} _ _.

Fixpoint goes_on {E F A B} (p : files E A) (f : result E A → files F B) : files F B :=
  match p with
  | Done r => f r
  | Do o k => Do o (λ r, goes_on (k r) f)
  end.

#[global] Instance files_ret E : MRet (files E) := λ A a, Done (Ok a).
#[global] Instance files_bind E : MBind (files E) := λ A B f p,
  goes_on p (λ r, match r with Ok a => f a | Err e => Done (Err e) | Panic => Done Panic end).

Definition gives {E A} (r : result E A) : files E A := Done r.
Definition files_map_err {E F A} (f : E → F) (p : files E A) : files F A := goes_on p (λ r, Done (map_err f r)).

(** One operation, [unwrap_or], and the calls of [tokio::fs]. *)
Definition op {R} (o : fs_op R) : files FsError R := Do o Done.
Definition or_else {E A} (a : A) (p : files FsError A) : files E A :=
  goes_on p (λ r, Done (Ok (match r with Ok x => x | _ => a end))).

Definition fs_write (p : Path) (b : list Z) : files FsError () :=
  _ ← op (CreateTruncate p);
  op (WriteOut p b).

Definition ensure_parent_exists (self : Path) : files LocationError Path :=
  match parent self with
  | None => gives Panic
  | Some parent =>
      parent_exists ← or_else false (op (TryExists parent));
      _ ← (if parent_exists : bool then mret () else files_map_err (λ _, LocationIoError) (op (CreateDirAll parent)));
      mret self
  end.

(** *** When nothing fails *)
Fixpoint execute {E A} (p : files E A) (d : FileTree) : FileTree * result E A :=
  match p with
  | Done r => (d, r)
  | Do o k => let '(d, r) := effect o d in execute (k r) d
  end.

(** *** When something may *)
Definition fs_step {E A} (c c' : files E A * FileTree) : Prop :=
  match c.1 with
  | Done _ => False
  | Do o k =>
      c' = (k (effect o c.2).2, (effect o c.2).1) ∨
      c' = (k (Err OtherIo), c.2) ∨
      ∃ o' d', piece o c.2 o' d' ∧ c' = (Do o' k, d')
  end.

(** Every disk the process can leave behind satisfies [C], and every end it
    comes to [Q]. *)
Definition survives {E A} (C : FileTree → Prop) (Q : result E A → FileTree → Prop) (p : files E A) (d : FileTree) : Prop :=
  ∀ p' d', rtc fs_step (p, d) (p', d') → C d' ∧ ∀ r, p' = Done r → Q r d'.

(** ** The rules *)
Section rules.
Context {E A : Type} (C : FileTree → Prop) (Q : result E A → FileTree → Prop).

Lemma survives_done r d : C d → Q r d → survives C Q (Done r) d.
Proof.
  intros HC HQ p' d' Hr. apply rtc_inv in Hr as [[= <- <-]|(c & [] & _)].
  split; [done|]. by intros r' [= <-].
Qed.

Lemma survives_crash p d : survives C Q p d → C d.
Proof. intros Hp. exact (proj1 (Hp p d (rtc_refl _ _))). Qed.

Lemma survives_do {R} (o : fs_op R) k d :
  C d → survives C Q (k (effect o d).2) (effect o d).1 → survives C Q (k (Err OtherIo)) d →
  (∀ o' d', piece o d o' d' → survives C Q (Do o' k) d') → survives C Q (Do o k) d.
Proof.
  intros HC Hok Herr Hpiece p' d' Hr. apply rtc_inv in Hr as [[= <- <-]|(c & Hs & Hr)].
  - split; [done|]. by intros r'.
  - destruct Hs as [->|[->|(o' & d1 & Hp & ->)]]; cbn in *; [by apply Hok|by apply Herr|by eapply Hpiece].
Qed.

(** An operation that is done at once. *)
Lemma survives_at_once {R} (o : fs_op R) k d :
  (∀ d o' d', ¬ piece o d o' d') →
  C d → survives C Q (k (effect o d).2) (effect o d).1 → survives C Q (k (Err OtherIo)) d → survives C Q (Do o k) d.
Proof. intros Hn HC Hok Herr. apply survives_do; [done..|]. intros o' d' Hp. by destruct (Hn d o' d'). Qed.

Lemma written_written p b1 b2 d : written p b2 (written p b1 d) = written p (b1 ++ b2) d.
Proof.
  unfold written. cbn. f_equal. apply map_eq. intros q. rewrite !lookup_alter. case_decide; subst; [|done].
  rewrite decide_True by done. destruct (disk_files d !! _); cbn; [|done]. by rewrite app_assoc.
Qed.

Lemma written_nil p d : written p [] d = d.
Proof.
  unfold written. destruct d as [fs ds]. cbn. f_equal. apply map_eq. intros q. rewrite lookup_alter.
  case_decide; subst; [|done]. destruct (fs !! _); cbn; [|done]. by rewrite app_nil_r.
Qed.

(** A write: whatever part of it is done may be left behind, and it may fail
    from there. *)
Lemma survives_write p b k d :
  (∀ b1 b2, b = b1 ++ b2 → C (written p b1 d) ∧ survives C Q (k (Err OtherIo)) (written p b1 d)) →
  survives C Q (k (Ok ())) (written p b d) → survives C Q (Do (WriteOut p b) k) d.
Proof.
  intros Hpart Hok p' d' Hr.
  assert (∀ c, rtc fs_step c (p', d') → ∀ b1 b2, b = b1 ++ b2 → c = (Do (WriteOut p b2) k, written p b1 d) →
    C d' ∧ ∀ r, p' = Done r → Q r d') as Hgen.
  { intros c Hc. remember (p', d') as f eqn:Hf. induction Hc as [c|c c1 f Hs Hc IH]; intros b1 b2 Hb ->.
    - injection Hf as <- <-. split; [by destruct (Hpart b1 b2 Hb)|]. by intros r.
    - subst f. destruct Hs as [->|[->|(o' & d1 & (x & y & Hxy & -> & ->) & ->)]]; cbn in *.
      + rewrite written_written, <-Hb in Hc. by apply Hok.
      + destruct (Hpart b1 b2 Hb) as [_ Herr]. by apply Herr.
      + apply (IH eq_refl Hr (b1 ++ x) y); [by rewrite Hb, Hxy, app_assoc|by rewrite written_written]. }
  refine (Hgen _ Hr [] b eq_refl _). f_equal. symmetry. apply written_nil.
Qed.

(** A removal: whatever of it is gone may be left behind, and it may fail from
    there. *)
Definition removed_under (p : Path) (d d' : FileTree) : Prop :=
  disk_dirs d' = disk_dirs d ∧
  ∀ q : Path, disk_files d' !! q = disk_files d !! q ∨ p `prefix_of` q ∧ disk_files d' !! q = None.

Lemma survives_removal p k d :
  (∀ d', removed_under p d d' → C d' ∧ survives C Q (k (Err OtherIo)) d' ∧
     survives C Q (k (effect (RemoveDirAll p) d').2) (effect (RemoveDirAll p) d').1) →
  survives C Q (Do (RemoveDirAll p) k) d.
Proof.
  intros Hk p' d' Hr.
  assert (∀ c, rtc fs_step c (p', d') → ∀ d0, removed_under p d d0 → c = (Do (RemoveDirAll p) k, d0) →
    C d' ∧ ∀ r, p' = Done r → Q r d') as Hgen.
  { intros c Hc. remember (p', d') as f eqn:Hf. induction Hc as [c|c c1 f Hs Hc IH]; intros d0 Hd ->; destruct (Hk d0 Hd) as (HC & Herr & Hok).
    - injection Hf as <- <-. split; [done|]. by intros r.
    - subst f. destruct Hs as [->|[->|(o' & d1 & (q & Hq & -> & ->) & ->)]]; cbn in *; [by apply Hok|by apply Herr|].
      eapply (IH eq_refl Hr); [|done]. destruct Hd as [Hdirs Hfiles]. split; [done|]. intros x. cbn.
      destruct (decide (q = x)) as [->|Hne]; [right; by rewrite lookup_delete_eq|by rewrite lookup_delete_ne]. }
  refine (Hgen _ Hr d _ eq_refl). split; [done|]. intros q. by left.
Qed.
End rules.

Lemma survives_mono {E A} (C C' : FileTree → Prop) (Q Q' : result E A → FileTree → Prop) p d :
  survives C Q p d → (∀ d, C d → C' d) → (∀ r d, Q r d → Q' r d) → survives C' Q' p d.
Proof. intros Hp HC HQ p' d' Hr. destruct (Hp p' d' Hr) as [H1 H2]. split; [auto|]. intros r Hr'. auto. Qed.

Lemma survives_goes_on {E F A B} (C : FileTree → Prop) (Q : result F B → FileTree → Prop) (p : files E A)
    (f : result E A → files F B) d :
  survives C (λ r d, survives C Q (f r) d) p d → survives C Q (goes_on p f) d.
Proof.
  intros Hp q d' Hr. remember (goes_on p f, d) as c eqn:Hc. remember (q, d') as e eqn:He.
  revert p d Hc Hp q d' He. induction Hr as [c|c c1 e Hs Hr IH]; intros p d -> Hp q d' He.
  - injection He as <- <-. destruct p as [r|R o k].
    + exact (proj2 (Hp _ _ (rtc_refl _ _)) r eq_refl _ _ (rtc_refl _ _)).
    + split; [exact (survives_crash _ _ _ _ Hp)|]. by intros r.
  - destruct p as [r|R o k]; cbn [goes_on] in Hs, Hr.
    + refine (proj2 (Hp _ _ (rtc_refl _ _)) r eq_refl _ _ _). subst e. eapply rtc_l; [exact Hs|done].
    + destruct Hs as [->|[->|(o' & d1 & Hpc & ->)]]; cbn in *.
      * eapply (IH (k _)); [done| |done]. intros p' d2 H2. apply Hp. eapply rtc_l; [|exact H2]. by left.
      * eapply (IH (k _)); [done| |done]. intros p' d2 H2. apply Hp. eapply rtc_l; [|exact H2]. by right; left.
      * eapply (IH (Do o' k)); [done| |done]. intros p' d2 H2. apply Hp. eapply rtc_l; [|exact H2].
        right; right. eauto.
Qed.

Lemma survives_bind {E A B} (C : FileTree → Prop) (Q : result E B → FileTree → Prop) (p : files E A) (f : A → files E B) d :
  survives C (λ r d, match r with Ok a => survives C Q (f a) d | Err e => Q (Err e) d | Panic => Q Panic d end) p d →
  survives C Q (p ≫= f) d.
Proof.
  intros Hp. apply survives_goes_on. intros p' d' Hr. destruct (Hp p' d' Hr) as [HC HQ]. split; [done|].
  intros r ->. specialize (HQ r eq_refl). destruct r; [done|by apply survives_done..].
Qed.

Lemma survives_map_err {E F A} (C : FileTree → Prop) (Q : result F A → FileTree → Prop) (f : E → F) (p : files E A) d :
  survives C (λ r d, Q (map_err f r) d) p d → survives C Q (files_map_err f p) d.
Proof.
  intros Hp. apply survives_goes_on. intros p' d' Hr. destruct (Hp p' d' Hr) as [HC HQ]. split; [done|].
  intros r ->. apply survives_done; [done|]. by apply HQ.
Qed.

Lemma steps_goes_on {E F A B} (p p' : files E A) (f : result E A → files F B) d d' :
  rtc fs_step (p, d) (p', d') → rtc fs_step (goes_on p f, d) (goes_on p' f, d').
Proof.
  intros Hr. refine (rtc_congruence (λ c, (goes_on c.1 f, c.2)) fs_step (p, d) (p', d') _ Hr).
  intros [q e] [q' e'] Hs. destruct q as [r|R o k]; [done|]. cbn in *.
  destruct Hs as [[= -> ->]|[[= -> ->]|(o' & d1 & Hp & [= -> ->])]]; cbn; [by left|by right; left|].
  right; right. eauto.
Qed.

(** An operation in one go, with its error passed on. *)
Lemma survives_step {E A R} (C : FileTree → Prop) (Q : result E A → FileTree → Prop) (f : FsError → E) (o : fs_op R)
    (k : R → files E A) d :
  (∀ d o' d', ¬ piece o d o' d') → C d → Q (Err (f OtherIo)) d →
  (∀ d' r, effect o d = (d', r) → C d' ∧
    match r with Ok a => survives C Q (k a) d' | Err e => Q (Err (f e)) d' | Panic => Q Panic d' end) →
  survives C Q (files_map_err f (op o) ≫= k) d.
Proof.
  intros Hn HC HQ Hk. apply survives_bind, survives_map_err. apply survives_at_once; [done|done| |].
  - destruct (effect o d) as [d' r] eqn:Ho. destruct (Hk d' r eq_refl) as [HC' Hr]. cbn.
    apply survives_done; [done|]. by destruct r.
  - by apply survives_done.
Qed.

Lemma survives_gives {E A B} (C : FileTree → Prop) (Q : result E B → FileTree → Prop) (r : result E A) (k : A → files E B) d :
  C d → match r with Ok a => survives C Q (k a) d | Err e => Q (Err e) d | Panic => Q Panic d end →
  survives C Q (gives r ≫= k) d.
Proof. intros HC Hr. apply survives_bind, survives_done; [done|]. by destruct r. Qed.

(** What is sure to hold of every end holds of the one where nothing fails. *)
Lemma execute_steps {E A} (p : files E A) d : rtc fs_step (p, d) (Done (execute p d).2, (execute p d).1).
Proof.
  revert d. induction p as [r|R o k IH]; intros d; cbn [execute]; [apply rtc_refl|].
  destruct (effect o d) as [d1 r1] eqn:Ho. eapply rtc_l; [|apply IH]. left. cbn. by rewrite Ho.
Qed.

Lemma survives_execute {E A} (C : FileTree → Prop) (Q : result E A → FileTree → Prop) p d :
  survives C Q p d → Q (execute p d).2 (execute p d).1.
Proof. intros Hp. exact (proj2 (Hp _ _ (execute_steps p d)) _ eq_refl). Qed.

Lemma execute_goes_on {E F A B} (p : files E A) (f : result E A → files F B) d :
  execute (goes_on p f) d = execute (f (execute p d).2) (execute p d).1.
Proof. revert d. induction p as [r|R o k IH]; intros d; cbn; [done|]. destruct (effect o d). apply IH. Qed.

Lemma execute_bind {E A B} (p : files E A) (f : A → files E B) d d' a :
  execute p d = (d', Ok a) → execute (p ≫= f) d = execute (f a) d'.
Proof. intros Hp. unfold mbind, files_bind. by rewrite execute_goes_on, Hp. Qed.

Lemma execute_map_err {E F A} (f : E → F) (p : files E A) d d' r :
  execute p d = (d', r) → execute (files_map_err f p) d = (d', map_err f r).
Proof. intros Hp. unfold files_map_err. by rewrite execute_goes_on, Hp. Qed.

(** ** What the calls of [tokio::fs] do *)

(** Only the files of [ps] changed, and no directory is gone. *)
Definition untouched (ps : list Path) (d d' : FileTree) : Prop :=
  (∀ q, q ∉ ps → disk_files d' !! q = disk_files d !! q) ∧ disk_dirs d ⊆ disk_dirs d'.

#[global] Instance untouched_preorder ps : PreOrder (untouched ps).
Proof.
  split; [by intros d|]. intros d1 d2 d3 [H1 D1] [H2 D2]. split; [|set_solver].
  intros q Hq. by rewrite H2, H1.
Qed.

Lemma untouched_more ps qs d d' : ps ⊆ qs → untouched ps d d' → untouched qs d d'.
Proof. intros Hs [Hf Hd]. split; [|done]. intros q Hq. apply Hf. set_solver. Qed.

Lemma untouched_with_file ps p b d : p ∈ ps → untouched ps d (with_file p b d).
Proof. intros Hp. split; [|done]. intros q Hq. cbn. rewrite lookup_insert_ne; [done|]. intros ->. done. Qed.

Lemma untouched_written ps p b d : p ∈ ps → untouched ps d (written p b d).
Proof. intros Hp. split; [|done]. intros q Hq. cbn. rewrite lookup_alter_ne; [done|]. intros ->. done. Qed.

(** A write that was cut short leaves the beginning of what was to be written. *)
Definition partly (p : Path) (b : list Z) (d d' : FileTree) : Prop :=
  disk_files d' !! p = disk_files d !! p ∨ ∃ b1 b2, b = b1 ++ b2 ∧ disk_files d' !! p = Some b1.

Lemma survives_fs_write p b d :
  survives (λ d', untouched [p] d d' ∧ partly p b d d')
    (λ r d', untouched [p] d d' ∧ partly p b d d' ∧ (r = Ok () → disk_files d' !! p = Some b ∧ parent_exists p d')) (fs_write p b) d.
Proof.
  assert (untouched [p] d d ∧ partly p b d d) as Hd by (split; [done|by left]).
  assert (∀ b1 b2, b = b1 ++ b2 → untouched [p] d (written p b1 (with_file p [] d)) ∧
    disk_files (written p b1 (with_file p [] d)) !! p = Some b1) as Hw.
  { intros b1 b2 Hb. split.
    - etransitivity; [by apply untouched_with_file, list_elem_of_here|]. by apply untouched_written, list_elem_of_here.
    - cbn. rewrite lookup_alter_eq, lookup_insert_eq. done. }
  unfold fs_write. apply survives_bind. apply survives_at_once; [by intros ? ? ? []|done| |].
  2: { apply survives_done; [done|]. by destruct Hd. }
  cbn [effect]. case_decide; cbn; [by apply survives_done; [|destruct Hd]|].
  case_decide; cbn; [|by apply survives_done; [|destruct Hd]].
  assert (partly p b d (with_file p [] d)) as Hpart.
  { right. exists [], b. split; [done|]. cbn. by rewrite lookup_insert_eq. }
  apply survives_done; [split; [by apply untouched_with_file, list_elem_of_here|done]|].
  apply survives_write.
  - intros b1 b2 Hb. destruct (Hw b1 b2 Hb) as [Hu Hl].
    assert (partly p b d (written p b1 (with_file p [] d))) by (right; eauto).
    split; [done|]. by apply survives_done.
  - destruct (Hw b [] (eq_sym (app_nil_r b))) as [Hu Hl].
    assert (partly p b d (written p b (with_file p [] d))) by (right; exists b, []; by rewrite app_nil_r).
    apply survives_done; [done|]. split; [done|]. by split.
Qed.

Lemma execute_fs_write p b d :
  p ∉ disk_dirs d → parent_exists p d → execute (fs_write p b) d = (with_file p b d, Ok ()).
Proof.
  intros Hp Hpar. unfold fs_write, op. cbn -[written]. rewrite decide_False, decide_True by done. cbn.
  unfold written, with_file. cbn. do 2 f_equal. apply map_eq. intros q. rewrite lookup_alter.
  case_decide; subst; [by rewrite !lookup_insert_eq|by rewrite !lookup_insert_ne].
Qed.

Lemma survives_mkdir {E A} q (k : result FsError () → files E A) d (P : result E A → Prop) :
  (∀ r, ∃ r', k r = Done r' ∧ P r') →
  survives (untouched [] d) (λ r d', untouched [] d d' ∧ P r) (Do (CreateDirAll q) k) d.
Proof.
  intros Hk. apply survives_at_once; [by intros ? ? ? []|done| |].
  - destruct (Hk (effect (CreateDirAll q) d).2) as (r & -> & HP). cbn [effect].
    assert (untouched [] d (mkFileTree (disk_files d) (disk_dirs d ∪ list_to_set (and_above q)))) by (split; [done|set_solver]).
    case_decide; by apply survives_done.
  - destruct (Hk (Err OtherIo)) as (r & -> & HP). by apply survives_done.
Qed.

Lemma survives_ensure_parent p d :
  survives (untouched [] d) (λ r d', untouched [] d d' ∧ ∀ l, r = Ok l → l = p) (ensure_parent_exists p) d.
Proof.
  unfold ensure_parent_exists. destruct (parent p) as [q|]; [|by apply survives_done].
  cbn. apply survives_at_once; [by intros ? ? ? []|done| |]; cbn.
  - case_bool_decide; cbn; [apply survives_done; [done|by split; [|intros l [= <-]]]|].
    apply survives_mkdir. intros []; cbn; eexists; (split; [done|]); naive_solver.
  - apply survives_mkdir. intros []; cbn; eexists; (split; [done|]); naive_solver.
Qed.

(** The parent is made when it can be; no file changes. *)
Lemma execute_ensure_parent p q d :
  parent p = Some q →
  ∃ d' r, execute (ensure_parent_exists p) d = (d', r) ∧ disk_files d' = disk_files d ∧ (r = Ok p ∨ r = Err LocationIoError).
Proof.
  intros Hq. unfold ensure_parent_exists. rewrite Hq. cbn. case_bool_decide; cbn; [by eauto 10|].
  case_decide; cbn; by eauto 10.
Qed.

Lemma ensured_parent_exists p q d :
  parent p = Some q → q ∈ disk_dirs d → execute (ensure_parent_exists p) d = (d, Ok p).
Proof.
  intros Hq Hd. unfold ensure_parent_exists. rewrite Hq. cbn. by rewrite bool_decide_true by (by right).
Qed.

(** A directory that is made with all above it. *)
Definition made (q : Path) (d : FileTree) : FileTree :=
  if decide (q ∈ disk_dirs d) then d else mkFileTree (disk_files d) (disk_dirs d ∪ list_to_set (and_above q)).
Definition clear (q : Path) (d : FileTree) : Prop := Forall (λ q, disk_files d !! q = None) (and_above q).

Lemma above_itself q : q ∈ and_above q.
Proof.
  apply list_elem_of_fmap. exists (length q). split; [by rewrite take_ge|]. apply elem_of_seq. lia.
Qed.

Lemma above_shorter x q : x ∈ and_above q → (length x ≤ length q)%nat.
Proof. intros (n & -> & _)%list_elem_of_fmap. rewrite length_take. lia. Qed.

Lemma made_files q d : disk_files (made q d) = disk_files d.
Proof. unfold made. by case_decide. Qed.

Lemma made_dir q d : q ∈ disk_dirs (made q d).
Proof. unfold made. case_decide; [done|]. cbn [disk_dirs]. apply elem_of_union. right. apply elem_of_list_to_set, above_itself. Qed.

Lemma made_keeps q x d : x ∈ disk_dirs d → x ∈ disk_dirs (made q d).
Proof. unfold made. case_decide; [done|]. cbn [disk_dirs]. set_solver. Qed.

Lemma made_longer q x d : (length q < length x)%nat → x ∉ disk_dirs d → x ∉ disk_dirs (made q d).
Proof.
  intros Hl Hx. unfold made. case_decide; [done|]. cbn [disk_dirs]. intros [?|Hq%elem_of_list_to_set]%elem_of_union; [done|].
  apply above_shorter in Hq. lia.
Qed.

Lemma made_again q d : q ∈ disk_dirs d → made q d = d.
Proof. intros Hq. unfold made. by rewrite decide_True. Qed.

Lemma execute_made p q d :
  parent p = Some q → clear q d → execute (ensure_parent_exists p) d = (made q d, Ok p).
Proof.
  intros Hq Hc. unfold ensure_parent_exists, made. rewrite Hq. cbn.
  assert (disk_files d !! q = None) as Hn by (exact (proj1 (Forall_forall _ _) Hc _ (above_itself q))).
  rewrite Hn. destruct (decide (q ∈ disk_dirs d)) as [Hd|Hd].
  - by rewrite bool_decide_true by (by right).
  - rewrite bool_decide_false by (intros [[]|]; done). cbn. rewrite decide_False; [done|].
    intros (x & Hx & [b Hb])%Exists_exists. pose proof (proj1 (Forall_forall _ _) Hc _ Hx) as E. cbn in E. congruence.
Qed.

Lemma execute_exists {E} (f : FsError → E) p b d :
  disk_files d !! p = Some b → execute (files_map_err f (op (TryExists p))) d = (d, Ok true).
Proof. intros Hp. cbn. by rewrite bool_decide_true by (left; eauto). Qed.

Lemma execute_read {E} (f : FsError → E) p b d :
  disk_files d !! p = Some b → execute (files_map_err f (op (ReadFile p))) d = (d, Ok b).
Proof. intros Hp. cbn. by rewrite Hp. Qed.
