(* ===== verification/Persist.v ===== *)
(** * The trust store on disk, and keys kept there
    ([svalin/src/util/trust_store.rs], [util/key_storage.rs])

    The pure part of [load_trust_store] is in [TransactionStore]; here are the
    files. *)
From S2P Require Import Prelude.
From S2P Require Import External.
From S2P Require Import Spki.
From S2P Require Import Sql.
From S2P Require Import Toy.
From S2P Require Import Certificate.
From S2P Require Import CertChain.
From S2P Require Import Encrypt.
From S2P Require Import Credential.
From S2P Require Import SecureChain.
From S2P Require Import TrustStore.
From S2P Require Import TransactionStore.
From S2P Require Import UserStore.
From S2P Require Import Files.
From stdpp Require Import relations.
From stdpp Require Import options.

#[local] Open Scope Z_scope.

(** ** [serde_json]

    What was written is read back; and an object is complete with its last
    byte only. *)
Class Json (T : Type) := {
  to_json : T → result ExtError (list Z);
  from_json : list Z → result ExtError T;
}.
Class JsonLaws (T : Type) `{Json T} := {
  from_to_json x b : to_json x = Ok b → from_json b = Ok x;
  from_json_cut x b1 b2 : to_json x = Ok (b1 ++ b2) → b2 ≠ [] → is_ok (from_json b1) = false;
}.

(** What [anyhow] carries. *)
Inductive DiskError :=
  | DiskFsError (e : FsError)
  | DiskJsonError (e : ExtError)
  | DiskLocationError (e : LocationError)
  | DiskEncryptError (e : EncryptError)
  | DiskDecryptError (e : DecodeCredentialsError)
  | DiskDeriveError (e : DeriveKeyError)
  | DiskImportError (e : ImportError InnerImportErr)
  | DiskLoadError (e : SyncError)
  | DiskRootError (e : UseAsRootError)
  | DiskVerifyError (e : SignatureVerificationError)
  | RandomError
  | InitServerError
  | NotYetInitialized
  | AlreadyExists
  | ProfileIsEmpty.

(** ** [KeySource] *)
Inductive KeySource := BuiltIn (key : list Z).

Definition to_key (self : KeySource) : EncryptionKey := match self with BuiltIn k => mkEncryptionKey k end.

(** [generate_builtin], with what the random number generator gives. *)
Definition generate_builtin (random : result ExtError (list Z)) : result DiskError KeySource :=
  key ← map_err (λ _, RandomError) random;
  Ok (BuiltIn key).

Section persist.
Context `{X509, CR : Crypto, RG : !Rcgen, Aead, !Postcard SavedKeypair}.

Definition encrypt_credential (self : KeySource) (nonce : list Z) (credentials : Credential) :
    result DiskError EncryptedCredential :=
  map_err DiskEncryptError (credential_export nonce credentials (to_key self)).

Definition decrypt_credentials (self : KeySource) (encrypted_credentials : EncryptedCredential) :
    result DiskError Credential :=
  map_err DiskDecryptError (credential_decrypt encrypted_credentials (to_key self)).

Context `{!Json ExportedStore}.

(** ** [save_trust_store]: a new file, moved over the old one *)
Definition save_trust_store (file_location : Path) (trust_store : ExportedStore) : files DiskError () :=
  exported ← gives (map_err DiskJsonError (to_json trust_store));
  let temp_file := with_extension file_location "tmp" in
  _ ← files_map_err DiskFsError (op (CreateTruncate temp_file));
  _ ← files_map_err DiskFsError (op (WriteOut temp_file exported));
  _ ← files_map_err DiskFsError (op (SyncFile temp_file));
  files_map_err DiskFsError (op (RenameFile temp_file file_location)).

(** One round of the task that saves: the digest it saved last, and the
    trust store as it is. An error is only printed. *)
Definition save_tick (file_location : Path) (last_digest : ChainDigest) (trust_store : TrustStore) :
    files DiskError ChainDigest :=
  if bool_decide (ts_digest trust_store = last_digest) then mret last_digest
  else goes_on (save_trust_store file_location (ts_export trust_store))
         (λ r, match r with Panic => Done Panic | _ => mret (ts_digest trust_store) end).

(** [load_trust_store], up to the task. *)
Context `{!Postcard Block}.

Definition load_trust_store_file (file_location : Path) (store : TxStore) (now : Z) : files DiskError TrustStore :=
  exported ← files_map_err DiskFsError (op (ReadFile file_location));
  '(trust_store, exported) ← gives (map_err DiskLoadError (load_trust_store from_json to_json (Some exported) store now));
  _ ← files_map_err DiskFsError (fs_write file_location exported);
  mret trust_store.

(** *** Saving can be interrupted *)

(** The location has its old content or the new one. *)
Definition old_or_new (loc : Path) (new : list Z) (d d' : FileTree) : Prop :=
  untouched [with_extension loc "tmp"; loc] d d' ∧ disk_dirs d' = disk_dirs d ∧
  (disk_files d' !! loc = disk_files d !! loc ∨ disk_files d' !! loc = Some new).

Lemma survives_save loc trust_store new d :
  with_extension loc "tmp" ≠ loc → to_json trust_store = Ok new →
  survives (old_or_new loc new d)
    (λ r d', old_or_new loc new d d' ∧ (r = Ok () → disk_files d' !! loc = Some new))
    (save_trust_store loc trust_store) d.
Proof.
  intros Hne Hjson. unfold save_trust_store. rewrite Hjson. set (temp := with_extension loc "tmp") in *.
  assert (∀ d', untouched [temp] d d' → disk_dirs d' = disk_dirs d → old_or_new loc new d d') as Hold.
  { intros d' Hu Hds. split; [eapply untouched_more; [|exact Hu]; set_solver|]. split; [done|]. left. apply Hu. set_solver. }
  assert (old_or_new loc new d d) as Hd by (by apply Hold).
  cbn -[effect]. apply survives_at_once; [by intros ? ? ? []|done| |by apply survives_done].
  cbn [effect]. case_decide; cbn -[effect]; [by apply survives_done|].
  case_decide as Hpar; cbn -[effect]; [|by apply survives_done].
  assert (∀ b, untouched [temp] d (written temp b (with_file temp [] d))) as Hw.
  { intros b. etransitivity; [apply untouched_with_file|apply untouched_written]; set_solver. }
  apply survives_write; [intros b1 b2 _; split; [by apply Hold|apply survives_done; [by apply Hold|by split; [apply Hold|]]]|].
  assert (disk_files (written temp new (with_file temp [] d)) !! temp = Some new) as Htemp.
  { cbn. by rewrite lookup_alter_eq, lookup_insert_eq. }
  set (d1 := written temp new (with_file temp [] d)) in *. specialize (Hw new). fold d1 in Hw.
  cbn -[effect d1]. apply survives_at_once; [by intros ? ? ? []|by apply Hold| |].
  2: { cbn. apply survives_done; [by apply Hold|]. by split; [apply Hold|]. }
  cbn -[effect d1]. apply survives_at_once; [by intros ? ? ? []|by apply Hold| |].
  2: { cbn. apply survives_done; [by apply Hold|]. by split; [apply Hold|]. }
  change (effect (SyncFile temp) d1).1 with d1. unfold effect. rewrite Htemp. case_decide; cbn; [apply survives_done; [by apply Hold|by split; [apply Hold|]]|].
  case_decide; cbn; [|apply survives_done; [by apply Hold|by split; [apply Hold|]]].
  assert (old_or_new loc new d (mkFileTree (<[loc:=new]> (delete temp (disk_files d1))) (disk_dirs d1))) as Hnew.
  { split; [|split; [done|right; cbn; by rewrite lookup_insert_eq]]. split; [|apply Hw]. intros q Hq. cbn.
    rewrite lookup_insert_ne, lookup_delete_ne by set_solver. apply Hw. set_solver. }
  apply survives_done; [done|]. split; [done|]. intros _. cbn. by rewrite lookup_insert_eq.
Qed.

(** The location can be written to. *)
Definition writable (loc : Path) (d : FileTree) : Prop := loc ∉ disk_dirs d ∧ parent_exists loc d.

Lemma untouched_same_dirs_writable loc d d' :
  writable loc d → disk_dirs d' = disk_dirs d → writable loc d'.
Proof. intros [Hn (q & Hq & Hp)] E. unfold writable, parent_exists. rewrite E. eauto. Qed.

Lemma load_file loc store now file ts b d :
  disk_files d !! loc = Some file → writable loc d →
  load_trust_store from_json to_json (Some file) store now = Ok (ts, b) →
  execute (load_trust_store_file loc store now) d = (with_file loc b d, Ok ts).
Proof.
  intros Hf [Hn Hp] Hl. unfold load_trust_store_file.
  rewrite (execute_bind _ _ d d file) by (cbn; by rewrite Hf). rewrite Hl.
  cbn [map_err gives]. rewrite (execute_bind (Done (Ok (ts, b))) _ d d (ts, b)) by done.
  by rewrite (execute_bind _ _ _ _ () (execute_map_err _ _ _ _ _ (execute_fs_write loc b d Hn Hp))).
Qed.

(** A save that goes through. *)
Lemma execute_save loc trust_store new d :
  with_extension loc "tmp" ≠ loc → to_json trust_store = Ok new →
  writable (with_extension loc "tmp") d → writable loc d →
  ∃ d', execute (save_trust_store loc trust_store) d = (d', Ok ()) ∧ old_or_new loc new d d' ∧ disk_files d' !! loc = Some new.
Proof.
  intros Hne Hj [Hn Hp] [Hn' Hp']. pose proof (survives_execute _ _ _ _ (survives_save loc trust_store new d Hne Hj)) as Hs.
  cbn beta in Hs. assert ((execute (save_trust_store loc trust_store) d).2 = Ok ()) as Hok.
  { unfold save_trust_store. rewrite Hj. set (temp := with_extension loc "tmp") in *.
    assert (effect (CreateTruncate temp) d = (with_file temp [] d, Ok ())) as E1 by (cbn; by rewrite decide_False, decide_True).
    set (d1 := written temp new (with_file temp [] d)).
    assert ((effect (RenameFile temp loc) d1).2 = Ok ()) as E2.
    { cbn. rewrite lookup_alter_eq, lookup_insert_eq. cbn. by rewrite decide_False, decide_True. }
    cbn -[effect]. rewrite E1. cbn -[effect written]. change (effect (WriteOut temp new) _) with (d1, @Ok FsError _ ()).
    cbn -[effect d1]. change (effect (SyncFile temp) d1) with (d1, @Ok FsError _ ()). cbn -[effect d1].
    destruct (effect (RenameFile temp loc) d1) as [d2 r2]. cbn in *. by subst r2. }
  destruct (execute _ _) as [d' r]. cbn in *. subst r. exists d'. split_and!; [done|by apply Hs|by apply Hs].
Qed.

(** The node can be started from what is on the disk, with this trust store. *)
Definition loads (loc : Path) (store : TxStore) (now : Z) (ts : TrustStore) (d : FileTree) : Prop :=
  (execute (load_trust_store_file loc store now) d).2 = Ok ts.

(** C5: A node can be killed while its trust store is saved. The file has a
    snapshot from which the node was started, and a later one is being saved
    while further blocks are stored: at every moment of the save, and however it
    fails, what is on the disk loads, and loads exactly the trust store the
    node has. *)
Theorem snapshot_survives `{!JsonLaws ExportedStore, !PostcardLaws Block} loc d file exported node bs1 mid bs2 node' now :
  with_extension loc "tmp" ≠ loc → writable loc d →
  disk_files d !! loc = Some file → from_json file = Ok exported → ts_import exported = Ok (node_trust node) →
  ts_import (ts_export (node_trust mid)) = Ok (node_trust mid) → node_in_step mid →
  node_in_step node → 0 ≤ ts_sequence (node_trust node) ≤ ts_sequence (node_trust mid) →
  ts_sequence (node_trust node) + Z.of_nat (length (bs1 ++ bs2)) < 2 ^ 63 →
  ts_sequence (node_trust mid) + Z.of_nat (length bs2) < 2 ^ 63 →
  applied_blocks node (bs1 ++ bs2) node' → applied_blocks mid bs2 node' →
  Forall (λ b : Block, block_time b ≤ now) (bs1 ++ bs2) →
  is_ok (to_json (ts_export (node_trust mid))) = true → is_ok (to_json (ts_export (node_trust node'))) = true →
  survives (loads loc (node_tx node') now (node_trust node')) (λ _, loads loc (node_tx node') now (node_trust node'))
    (save_trust_store loc (ts_export (node_trust mid))) d.
Proof.
  intros Hne Hw Hf Hj Hi Him Hsm Hs Hseq Hlen Hlen2 Ha1 Ha2 Ht Hnew Hjson.
  destruct (to_json (ts_export (node_trust mid))) as [new|e|] eqn:Hto; [clear Hnew|done|done].
  destruct (restart_recovers _ _ _ _ _ _ _ _ Hj Hi Hs ltac:(lia) Hlen Ha1 Ht Hjson) as (b1 & Hl1 & _).
  destruct (restart_recovers _ _ _ _ _ _ _ _ (from_to_json _ _ Hto) Him Hsm ltac:(lia) Hlen2 Ha2
    (proj2 (proj1 (Forall_app _ _ _) Ht)) Hjson) as (b2 & Hl2 & _).
  assert (∀ d', old_or_new loc new d d' → loads loc (node_tx node') now (node_trust node') d') as Hall.
  { intros d' (_ & Hdirs & Hd'). unfold loads. pose proof (untouched_same_dirs_writable _ _ _ Hw Hdirs) as Hw'.
    destruct Hd' as [E|E]; [rewrite Hf in E; by rewrite (load_file _ _ _ _ _ _ _ E Hw' Hl1)|].
    by rewrite (load_file _ _ _ _ _ _ _ E Hw' Hl2). }
  eapply survives_mono; [by apply survives_save|done|]. intros r d' [Ho _]. by apply Hall.
Qed.

(** Not so the write with which [load_trust_store] ends: a node that is
    killed within it is left with a file it cannot load, and never starts
    again. *)
Lemma load_interrupted `{!JsonLaws ExportedStore} loc d file store now ts b :
  disk_files d !! loc = Some file → writable loc d →
  load_trust_store from_json to_json (Some file) store now = Ok (ts, b) → b ≠ [] →
  ∃ p' d', rtc fs_step (load_trust_store_file loc store now, d) (p', d') ∧
    ∀ store now, is_ok (execute (load_trust_store_file loc store now) d').2 = false.
Proof.
  intros Hf [Hn Hp] Hl Hb. eexists _, (with_file loc [] d). split.
  - unfold load_trust_store_file. etransitivity.
    { apply steps_goes_on, steps_goes_on. apply (execute_steps _ d). }
    cbn [execute op effect fst snd]. rewrite Hf. cbn [goes_on map_err]. rewrite Hl. unfold mbind, files_bind, gives.
    cbn [goes_on map_err]. apply (steps_goes_on (files_map_err DiskFsError (fs_write loc b))), steps_goes_on. eapply rtc_l; [by left|]. cbn. rewrite decide_False, decide_True by done. apply rtc_refl.
  - intros store' now'. unfold load_trust_store_file. rewrite (execute_bind _ _ (with_file loc [] d) (with_file loc [] d) []).
    2: { cbn. by rewrite lookup_insert_eq. }
    assert (is_ok (from_json []) = false) as Hcut.
    { unfold load_trust_store in Hl. apply bind_Ok in Hl as (x & _ & Hl). apply bind_Ok in Hl as (y & _ & Hl).
      apply bind_Ok in Hl as (z & _ & Hl). apply bind_Ok in Hl as (v & _ & Hl). apply bind_Ok in Hl as (w & _ & Hl).
      apply bind_Ok in Hl as (e & He%map_err_Ok & [= -> ->]). by apply (from_json_cut (ts_export ts) [] b). }
    unfold load_trust_store. cbn. by destruct (from_json []).
Qed.
End persist.

(** ** Worked example *)
#[local] Existing Instance toy_x509.
#[local] Existing Instance toy_crypto.
#[local] Existing Instance toy_rcgen.
#[local] Existing Instance toy_aead.
#[local] Existing Instance postcard_keypair.

(** Two values, numbered. *)
Definition json_two {T} `{EqDecision T} (x y : T) : Json T := {|
  to_json z := if decide (z = x) then Ok [1] else if decide (z = y) then Ok [2] else Err "other"%string;
  from_json b := match b with [1] => Ok x | [2] => Ok y | _ => Err "json"%string end;
|}.
Lemma json_two_laws {T} `{EqDecision T} (x y : T) : @JsonLaws T (json_two x y).
Proof.
  split; cbn.
  - intros z b. case_decide; [by intros [= <-]; subst|]. case_decide; [by intros [= <-]; subst|done].
  - intros z b1 b2. assert (∀ n : Z, [n] = b1 ++ b2 → b2 ≠ [] → b1 = []) as Hone.
    { intros n. destruct b1 as [|c [|c' b1]]; [done| |done]. by destruct b2. }
    repeat case_decide; intros Hb Hne; [| |done]; injection Hb as Hb; by rewrite (Hone _ Hb Hne).
Qed.

Definition toy_location : Path := ["data"; "trust_store.json"]%string.
Definition toy_saved : FileTree := mkFileTree {[ toy_location := [1] ]} {[ ["data"]%string; [] ]}.
#[local] Instance toy_store_json : Json ExportedStore := json_two (ts_export toy_store0) (ts_export toy_store1).
#[local] Instance toy_block_postcard : Postcard Block := postcard_one toy_add_block.

Lemma snapshot_survives_witness :
  survives (loads toy_location (node_tx toy_node1) 700 toy_store1) (λ _, loads toy_location (node_tx toy_node1) 700 toy_store1)
    (save_trust_store toy_location (ts_export toy_store1)) toy_saved.
Proof.
  assert (apply_block toy_node0 toy_add_block 600 = (toy_node1, Ok ())) as Hb by (vm_compute; reflexivity).
  refine (snapshot_survives (JsonLaws0 := json_two_laws _ _) (PostcardLaws0 := postcard_one_laws _)
    toy_location toy_saved [1] (ts_export toy_store0) toy_node0 [as_unchecked toy_add_block] toy_node1 [] toy_node1 700
    _ _ _ _ _ _ _ _ _ _ _ _ _ _ _ _).
  - discriminate.
  - split; [vm_compute; set_solver|]. exists ["data"%string]. split; [done|vm_compute; set_solver].
  - reflexivity.
  - reflexivity.
  - vm_compute; reflexivity.
  - vm_compute; reflexivity.
  - split; [reflexivity|]. constructor; [vm_compute; discriminate|constructor].
  - split; [reflexivity|constructor].
  - vm_compute. split; discriminate.
  - reflexivity.
  - reflexivity.
  - eapply applied_cons; [exact Hb|apply applied_nil].
  - apply applied_nil.
  - constructor; [vm_compute; discriminate|constructor].
  - reflexivity.
  - reflexivity.
Defined.
