(* ===== verification/ServerConfig.v ===== *)
(** * What a server keeps on disk, and how it starts
    ([svalin/src/server.rs])

    The base configuration (its credential under a key next to it, a seed) and
    the snapshot of its trust store, both made when the server is initialised
    ([Init]). Unlike clients and agents the server does not go through
    [load_trust_store]. *)
From S2P Require Import Prelude.
From S2P Require Import External.
From S2P Require Import Spki.
From S2P Require Import Sql.
From S2P Require Import Toy.
From S2P Require Import Certificate.
From S2P Require Import CertChain.
From S2P Require Import Encrypt.
From S2P Require Import Credential.
From S2P Require Import SecureChain.
From S2P Require Import TrustStore.
From S2P Require Import TransactionStore.
From S2P Require Import UserStore.
From S2P Require Import ServerStore.
From S2P Require Import Streaming.
From S2P Require Import Files.
From S2P Require Import Persist.
From stdpp Require Import relations.
From stdpp Require Import options.

#[local] Open Scope Z_scope.

Record SavedConfig := mkSavedConfig {
  saved_credential : EncryptedCredential;
  saved_key_source : KeySource;
  saved_pseudo_data_seed : list Z;
}.

Section server.
Context `{X509, CR : Crypto, RG : !Rcgen, Aead, !Postcard SavedKeypair}.
Context `{!Json ExportedStore, !Json SavedConfig}.

Record BaseConfig := mkBaseConfig {
  base_trust_store : TrustStore;
  base_credential : Credential;
  pseudo_data_seed : list Z;
}.

Definition server_data_dir : Path := Eval cbv in push system_data_dir "server".
Definition base_config_path : Path := Eval cbv in push server_data_dir "base_config.json".
Definition server_trust_store_path : Path := Eval cbv in push server_data_dir "trust_store.json".

Definition get_base_config : files DiskError (option BaseConfig) :=
  location ← files_map_err DiskLocationError (ensure_parent_exists base_config_path);
  exists_ ← files_map_err DiskFsError (op (TryExists location));
  if exists_ : bool then
    config ← files_map_err DiskFsError (op (ReadFile location));
    config ← gives (map_err DiskJsonError (from_json (T := SavedConfig) config));
    credential ← gives (decrypt_credentials (saved_key_source config) (saved_credential config));
    trust_store ← files_map_err DiskFsError (op (ReadFile server_trust_store_path));
    trust_store ← gives (map_err DiskJsonError (from_json (T := ExportedStore) trust_store));
    trust_store ← gives (map_err DiskImportError (ts_import trust_store));
    mret (Some (mkBaseConfig trust_store credential (saved_pseudo_data_seed config)))
  else mret None.

(** [random] and [nonce] are what the random number generator gives. *)
Definition save_base_config (random : result ExtError (list Z)) (nonce : list Z) (config : BaseConfig) :
    files DiskError () :=
  key_source ← gives (generate_builtin random);
  let trust_store := ts_export (base_trust_store config) in
  credential ← gives (encrypt_credential key_source nonce (base_credential config));
  config ← gives (map_err DiskJsonError (to_json (mkSavedConfig credential key_source (pseudo_data_seed config))));
  _ ← files_map_err DiskFsError (fs_write base_config_path config);
  save_trust_store server_trust_store_path trust_store.

(** [Server::start], as far as the configuration goes; [init] is what
    [init_server] comes to, which ends with what the handler announced
    ([Init.init_handle]). *)
Definition start_config (init : result DiskError (TrustStore * Credential)) (random : result ExtError (list Z))
    (nonce seed : list Z) : files DiskError BaseConfig :=
  base_config ← get_base_config;
  match base_config with
  | Some conf => mret conf
  | None =>
      '(trust_store, credential) ← gives init;
      let conf := mkBaseConfig trust_store credential seed in
      _ ← save_base_config random nonce conf;
      mret conf
  end.

(** What a start makes of the two files. *)
Definition config_from (config : list Z) (trust_store : option (list Z)) : result DiskError (option BaseConfig) :=
  config ← map_err DiskJsonError (from_json (T := SavedConfig) config);
  credential ← decrypt_credentials (saved_key_source config) (saved_credential config);
  trust_store ← ok_or trust_store (DiskFsError FileNotFound);
  trust_store ← map_err DiskJsonError (from_json (T := ExportedStore) trust_store);
  trust_store ← map_err DiskImportError (ts_import trust_store);
  Ok (Some (mkBaseConfig trust_store credential (saved_pseudo_data_seed config))).

Lemma get_base_config_cases d :
  is_ok (execute get_base_config d).2 = false ∨
  (disk_files d !! base_config_path = None ∧ (execute get_base_config d).2 = Ok None) ∨
  (∃ b, disk_files d !! base_config_path = Some b ∧
     (execute get_base_config d).2 = config_from b (disk_files d !! server_trust_store_path)).
Proof.
  unfold get_base_config, config_from.
  destruct (execute_ensure_parent base_config_path server_data_dir d eq_refl) as (d' & r & Hr & Hf & [-> | ->]).
  2: { unfold mbind, files_bind. rewrite execute_goes_on, (execute_map_err _ _ _ _ _ Hr). by left. }
  rewrite (execute_bind _ _ _ _ _ (execute_map_err _ _ _ _ _ Hr)).
  cbn -[base_config_path server_trust_store_path]. rewrite Hf.
  destruct (disk_files d !! base_config_path) as [b|] eqn:Hb.
  - right; right. exists b. split; [done|]. rewrite bool_decide_true by eauto.
    cbn -[base_config_path server_trust_store_path]. rewrite Hf, Hb.
    cbn -[base_config_path server_trust_store_path].
    destruct (from_json b) as [c|e|]; cbn -[base_config_path server_trust_store_path]; [|done|done].
    destruct (decrypt_credentials _ _) as [cr|e|]; cbn -[base_config_path server_trust_store_path]; [|done|done].
    rewrite Hf. destruct (disk_files d !! server_trust_store_path) as [t|]; cbn; [|done].
    destruct (from_json t) as [x|e|]; cbn; [|done|done]. by destruct (ts_import x).
  - case_bool_decide; cbn -[base_config_path]; [|by right; left]. left. rewrite Hf, Hb. done.
Qed.

Lemma get_base_config_found d b :
  disk_files d !! base_config_path = Some b → server_data_dir ∈ disk_dirs d →
  execute get_base_config d = (d, config_from b (disk_files d !! server_trust_store_path)).
Proof.
  intros Hb Hd. unfold get_base_config, config_from.
  rewrite (execute_bind _ _ _ _ _ (execute_map_err _ _ _ _ _ (ensured_parent_exists base_config_path server_data_dir d eq_refl Hd))).
  cbn -[base_config_path server_trust_store_path]. rewrite bool_decide_true by eauto.
  cbn -[base_config_path server_trust_store_path]. rewrite Hb. cbn -[base_config_path server_trust_store_path].
  destruct (from_json b) as [c|e|]; cbn -[base_config_path server_trust_store_path]; [|done|done].
  destruct (decrypt_credentials _ _) as [cr|e|]; cbn -[base_config_path server_trust_store_path]; [|done|done].
  destruct (disk_files d !! server_trust_store_path) as [t|]; cbn; [|done].
  destruct (from_json t) as [x|e|]; cbn; [|done|done]. by destruct (ts_import x).
Qed.

(** A start on a disk without a configuration finds none, or fails. *)
Lemma survives_get d :
  disk_files d !! base_config_path = None →
  survives (untouched [] d) (λ r d', untouched [] d d' ∧ ∀ c, r ≠ Ok (Some c)) get_base_config d.
Proof.
  intros Hn. unfold get_base_config. apply survives_bind, survives_map_err.
  eapply survives_mono; [apply survives_ensure_parent|done|]. intros r d1 [Hu Hl]. cbn beta.
  destruct r as [loc|e|]; cbn [map_err]; [|by split..]. rewrite (Hl loc eq_refl).
  assert (disk_files d1 !! base_config_path = None) as Hn1 by (rewrite <-Hn; apply Hu; set_solver).
  apply survives_step; [by intros ? ? ? []|done|by split|]. intros d' r' [= <- <-]. split; [done|].
  case_bool_decide; [|by apply survives_done].
  apply survives_step; [by intros ? ? ? []|done|by split|]. intros d' r' [= <- <-]. split; [done|]. rewrite Hn1. by split.
Qed.

(** *** One initialisation, with everything that is written *)
Section initialised.
Context (ts : TrustStore) (cr : Credential) (seed key nonce : list Z).
Context (encrypted : EncryptedCredential) (config store : list Z).
Context (Hencrypt : credential_export nonce cr (mkEncryptionKey key) = Ok encrypted).
Context (Hdecrypt : credential_decrypt encrypted (mkEncryptionKey key) = Ok cr).
Context (Hconfig : to_json (mkSavedConfig encrypted (BuiltIn key) seed) = Ok config).
Context (Hstore : to_json (ts_export ts) = Ok store).
Context (Himport : ts_import (ts_export ts) = Ok ts).
Context `{!JsonLaws ExportedStore, !JsonLaws SavedConfig}.
#[local] Set Default Proof Using "All".

Definition conf_of : BaseConfig := mkBaseConfig ts cr seed.

(** The two files at any moment: the configuration is there or being
    written, and the snapshot comes after it. *)
Inductive saved_so_far (d : FileTree) : Prop :=
  | saved_nothing : disk_files d !! base_config_path = None → disk_files d !! server_trust_store_path = None → saved_so_far d
  | saved_part b1 b2 : config = b1 ++ b2 → disk_files d !! base_config_path = Some b1 →
      disk_files d !! server_trust_store_path = None → saved_so_far d
  | saved_all : disk_files d !! base_config_path = Some config →
      disk_files d !! server_trust_store_path = Some store → saved_so_far d.

(** What a start finds; [get_base_config] itself changes no file. *)

Lemma config_complete : config_from config (Some store) = Ok (Some conf_of).
Proof.
  unfold config_from. rewrite (from_to_json _ _ Hconfig). cbn.
  unfold decrypt_credentials. cbn. rewrite Hdecrypt. cbn.
  rewrite (from_to_json _ _ Hstore). cbn. by rewrite Himport.
Qed.

Lemma config_incomplete b1 b2 : config = b1 ++ b2 → is_ok (config_from b1 None) = false.
Proof.
  intros Hb. unfold config_from. destruct (from_json b1) as [c|e|]; cbn; [|done|done].
  by destruct (decrypt_credentials _ _).
Qed.

(** A start finds nothing, or what was saved, or it fails. *)
Lemma found_so_far d c : saved_so_far d → (execute get_base_config d).2 = Ok (Some c) → c = conf_of.
Proof.
  intros Hs Hg. destruct (get_base_config_cases d) as [Hno|[[_ E]|(b & Hb & E)]]; [by rewrite Hg in Hno|congruence|].
  rewrite E in Hg. destruct Hs as [Hn _|b1 b2 Hcut Hb1 Hn|Hb1 Hn]; [congruence| |].
  - rewrite Hb in Hb1. injection Hb1 as ->. rewrite Hn in Hg. pose proof (config_incomplete _ _ Hcut) as Hno.
    by rewrite Hg in Hno.
  - rewrite Hb in Hb1. injection Hb1 as ->. rewrite Hn, config_complete in Hg. by injection Hg.
Qed.

Lemma survives_save_base_config d :
  disk_files d !! base_config_path = None → disk_files d !! server_trust_store_path = None →
  survives saved_so_far
    (λ r d', saved_so_far d' ∧ (r = Ok () → disk_files d' !! base_config_path = Some config ∧
       disk_files d' !! server_trust_store_path = Some store ∧ server_data_dir ∈ disk_dirs d'))
    (save_base_config (Ok key) nonce conf_of) d.
Proof.
  intros Hn Hnt. assert (saved_so_far d) as Hd by by apply saved_nothing. unfold save_base_config.
  apply survives_gives; [done|]. cbn [generate_builtin map_err mbind result_bind].
  unfold encrypt_credential. cbn [base_credential conf_of to_key pseudo_data_seed base_trust_store]. rewrite Hencrypt.
  apply survives_gives; [done|]. cbn [map_err]. rewrite Hconfig. apply survives_gives; [done|]. cbn [map_err].
  apply survives_bind, survives_map_err.
  assert (∀ d', untouched [base_config_path] d d' → partly base_config_path config d d' → saved_so_far d') as Hpart.
  { intros d' Hu Hp. assert (disk_files d' !! server_trust_store_path = None) as Ht.
    { rewrite <-Hnt. apply Hu. rewrite list_elem_of_singleton. discriminate. }
    destruct Hp as [E|(b1 & b2 & Hb & E)]; [apply saved_nothing; congruence|by eapply saved_part]. }
  eapply survives_mono; [apply survives_fs_write| |]; cbn beta.
  { intros d' [Hu Hp]. by apply Hpart. }
  intros r d1 (Hu & Hp & Hdone). pose proof (Hpart _ Hu Hp) as Hs1.
  destruct r as [[]|e|]; cbn [map_err]; [|by split..]. destruct (Hdone eq_refl) as [Hb (q & [= <-] & Hq)]. clear Hdone.
  assert (disk_files d1 !! server_trust_store_path = None) as Hnt1.
  { rewrite <-Hnt. apply Hu. rewrite list_elem_of_singleton. discriminate. }
  assert (∀ d', old_or_new server_trust_store_path store d1 d' → saved_so_far d' ∧
    (disk_files d' !! base_config_path = Some config ∧ server_data_dir ∈ disk_dirs d')) as Hon.
  { intros d' ([Hf _] & Hds & Hc).
    assert (disk_files d' !! base_config_path = Some config) as Hb'.
    { rewrite <-Hb. apply Hf. intros [E|[E|E%elem_of_nil]%elem_of_cons]%elem_of_cons; [discriminate E..|done]. }
    split; [|split; [done|by rewrite Hds]].
    destruct Hc as [E|E]; [|by apply saved_all]. apply (saved_part d' config []); [by rewrite app_nil_r|done|congruence]. }
  eapply survives_mono; [apply survives_save; [discriminate|exact Hstore]| |]; cbn beta.
  - intros d' Ho. by apply Hon.
  - intros r d' [Ho Hdone]. split; [by apply Hon|]. intros ->. destruct (Hon _ Ho) as (_ & Hc & Hdd). by split_and!; [|apply Hdone|].
Qed.

(** C24: A server can be killed while it is initialised. On a disk without a
    configuration, whatever is left behind at any moment of the first start,
    a later start finds no configuration, exactly the one that was being saved,
    or fails: never another one. And once the first start has come to an end
    every later one gives the same credential, trust store and seed, whatever
    it would have been initialised with. *)
Theorem server_start_survives d :
  disk_files d !! base_config_path = None → disk_files d !! server_trust_store_path = None →
  survives (λ d', ∀ c, (execute get_base_config d').2 = Ok (Some c) → c = conf_of)
    (λ r d', ∀ c, r = Ok c → c = conf_of ∧ ∀ init random nonce seed,
       execute (start_config init random nonce seed) d' = (d', Ok conf_of))
    (start_config (Ok (ts, cr)) (Ok key) nonce seed) d.
Proof.
  intros Hn Hnt.
  assert (∀ d', untouched [] d d' → disk_files d' !! base_config_path = None ∧ disk_files d' !! server_trust_store_path = None) as Hsame.
  { intros d' [Hf _]. by rewrite !Hf by (by intros ?%elem_of_nil). }
  unfold start_config at 2. apply survives_bind. eapply survives_mono; [by apply survives_get| |]; cbn beta.
  { intros d' Hu c. destruct (Hsame d' Hu). by apply found_so_far, saved_nothing. }
  intros r d1 [Hu Hr]. destruct (Hsame d1 Hu) as [Hn1 Hnt1]. destruct r as [[c|]|e|]; [by destruct (Hr c)| |done..].
  apply survives_gives; [intros c; by apply found_so_far, saved_nothing|]. cbn [conf_of].
  change (mkBaseConfig ts cr seed) with conf_of. apply survives_bind.
  eapply survives_mono; [by apply survives_save_base_config| |]; cbn beta.
  { intros d' Hs c. by apply found_so_far. }
  intros r d2 [Hs Hdone]. destruct r as [[]|e|]; [|done..]. destruct (Hdone eq_refl) as (Hb & Ht & Hdd).
  apply survives_done; [intros c; by apply found_so_far|]. intros c [= <-]. split; [done|]. intros init random nonce' seed'.
  unfold start_config. rewrite (execute_bind _ _ d2 d2 (Some conf_of)); [done|].
  by rewrite (get_base_config_found _ _ Hb Hdd), Ht, config_complete.
Qed.

(** It can be left unable to start: the configuration is there, the snapshot
    is not, and no later start makes one. *)
Lemma start_interrupted d :
  disk_files d !! base_config_path = None → disk_files d !! server_trust_store_path = None →
  server_data_dir ∈ disk_dirs d → base_config_path ∉ disk_dirs d →
  ∃ p' d', rtc fs_step (start_config (Ok (ts, cr)) (Ok key) nonce seed, d) (p', d') ∧
    ∀ init random nonce seed, is_ok (execute (start_config init random nonce seed) d').2 = false.
Proof.
  intros Hn Hnt Hd Hb. eexists _, (with_file base_config_path config d). split.
  - unfold start_config. etransitivity; [apply steps_goes_on, (execute_steps get_base_config d)|].
    assert (execute get_base_config d = (d, Ok None)) as ->.
    { unfold get_base_config.
      rewrite (execute_bind _ _ _ _ _ (execute_map_err _ _ _ _ _ (ensured_parent_exists base_config_path server_data_dir d eq_refl Hd))).
      cbn -[base_config_path server_trust_store_path]. rewrite bool_decide_false; [done|].
      rewrite Hn. by intros [[]|?]. }
    cbn [goes_on]. unfold mbind, files_bind, gives. cbn [goes_on].
    unfold save_base_config. unfold mbind, files_bind, gives, encrypt_credential.
    cbn [goes_on generate_builtin map_err mbind result_bind base_credential to_key pseudo_data_seed base_trust_store].
    rewrite Hencrypt. cbn [goes_on map_err]. rewrite Hconfig. cbn [goes_on map_err].
    apply steps_goes_on, (steps_goes_on (files_map_err DiskFsError (fs_write base_config_path config))), steps_goes_on.
    pose proof (execute_steps (fs_write base_config_path config) d) as Hw.
    rewrite (execute_fs_write _ _ _ Hb) in Hw by (by exists server_data_dir). exact Hw.
  - intros init random nonce' seed'. unfold start_config, mbind, files_bind. rewrite execute_goes_on.
    rewrite (get_base_config_found _ config); [|by cbn; rewrite lookup_insert_eq|done]. cbn [fst snd].
    assert (disk_files (with_file base_config_path config d) !! server_trust_store_path = None) as ->.
    { cbn -[base_config_path server_trust_store_path]. rewrite lookup_insert_ne; [done|discriminate]. }
    pose proof (config_incomplete config [] (eq_sym (app_nil_r _))) as Hi. by destruct (config_from config None).
Qed.
End initialised.

(** ** The blocks of a server that is started again *)
Section restarted.
Context {ToServer Mls F : Type} `{!Postcard Block}.
Context (handle_mls : Certificate → Z → ToServer → io Mls F ()) (clock : nat → Z).
Implicit Types server : SessionServer Mls.

(** [ServerStore::open] and the trust store of the configuration. *)
Definition started_server (mls : Mls) (rows : list (Z * list Z)) (conf : BaseConfig) : SessionServer Mls :=
  mkSessionServer mls (stx_open rows) (base_trust_store conf) 0.

Definition subscribed (receivers : list (list Block)) server : SessionServer Mls :=
  mkSessionServer (mls_handler server)
    (mkServerTxStore (stx_rows (transaction_store server)) (stx_current (transaction_store server)) receivers)
    (trust_store server) (readings server).

(** A message of a session is handled, or subscribers come, go and read. *)
Definition serves server server' : Prop :=
  handles handle_mls (F := F) clock server server' ∨ ∃ receivers, server' = subscribed receivers server.

Definition same_blocks server server' : Prop :=
  stx_rows (transaction_store server') = stx_rows (transaction_store server) ∧
  stx_current (transaction_store server') = stx_current (transaction_store server) ∧
  trust_store server' = trust_store server.

Lemma stuck_serves (root : RootCertificate) server server' :
  parsed root → reachable root (trust_store server) → 0 ≤ ts_sequence (trust_store server) < 2 ^ 63 - 2 →
  server_stuck server → rtc serves server server' → same_blocks server server'.
Proof.
  intros Hp Hr Hseq Hst Hrtc. induction Hrtc as [server|server s1 server' Hs _ IH]; [done|].
  assert (same_blocks server s1) as (E1 & E2 & E3).
  { destruct Hs as [Hh|[receivers ->]]; [|done].
    destruct (stuck_stays handle_mls clock root _ _ Hp Hr Hseq Hst Hh) as [E1 E2]. unfold same_blocks. by rewrite E1, E2. }
  destruct IH as (E4 & E5 & E6); [by rewrite E3|by rewrite E3|unfold server_stuck; by rewrite E2, E3|].
  split_and!; by etransitivity.
Qed.

(** C4: A server that is started again has lost the blocks it accepted. It
    comes back with the snapshot of its initialisation: the block that was just
    taken is in its table, but not in its trust store, and no message of any
    session ever changes the trust store or the table again. *)
Theorem restart_forgets (root : RootCertificate) conf session block server server' mls :
  parsed root → reachable root (base_trust_store conf) → reachable root (trust_store server) →
  store_tx_wf (block_transaction block) →
  0 ≤ ts_sequence (base_trust_store conf) ≤ ts_sequence (trust_store server) →
  ts_sequence (trust_store server) < 2 ^ 63 - 2 → server_in_step server →
  handle_client_message handle_mls (F := F) clock session (FromClientTrustStore block) server = (server', Ok false) →
  ts_sequence (base_trust_store conf) < ts_sequence (trust_store server') ∧
  ∀ later, rtc serves (started_server mls (stx_rows (transaction_store server')) conf) later →
    trust_store later = base_trust_store conf ∧
    stx_rows (transaction_store later) = stx_rows (transaction_store server').
Proof.
  intros Hp Hr Hr1 Htx Hs0 Hs1 Hstep Hh.
  apply (session_block_cases handle_mls clock root) in Hh as [(_ & (Hrow & _ & Hseq & _) & _)|[[Hno _]|(Hno & _)]];
    [|done|done|done|done|done|unfold server_in_step in *; lia|done].
  split; [lia|]. destruct Hrow as (data & _ & Hrow). intros later Hl.
  apply (stuck_serves root) in Hl as (E1 & _ & E3); [done|done|done|cbn; lia|].
  unfold server_stuck, started_server, stx_open. cbn [trust_store transaction_store stx_current].
  rewrite Hrow, sql_max_last. unfold as_u64, default, id. cbn [from_option].
  rewrite Z.mod_small by lia. lia.
Qed.

(** Nor do the clients and agents that have the block come up again: the
    server ends its backlog with the digest of the snapshot. *)
Lemma up_to_date_node_refused conf (node : Node) now :
  ts_digest (node_trust node) ≠ ts_digest (base_trust_store conf) →
  update_trust_store_dispatch node now (handler_backlog (ts_digest (base_trust_store conf)) [] []) = (node, Err WrongDigest).
Proof. intros Hd. unfold update_trust_store_dispatch. cbn. by rewrite bool_decide_true. Qed.
End restarted.
End server.

(** ** Worked examples *)
#[local] Existing Instance toy_x509.
#[local] Existing Instance toy_crypto.
#[local] Existing Instance toy_rcgen.
#[local] Existing Instance toy_aead.
#[local] Existing Instance postcard_keypair.

#[local] Instance key_source_eq_dec : EqDecision KeySource.
Proof. solve_decision. Defined.
#[local] Instance saved_config_eq_dec : EqDecision SavedConfig.
Proof. solve_decision. Defined.

Definition toy_server_encrypted : EncryptedCredential :=
  match credential_export (replicate 12 9) root_credential (mkEncryptionKey (replicate 32 5)) with
  | Ok e => e
  | _ => mkEncryptedCredential no_data toy_root
  end.
Definition toy_saved_config : SavedConfig := mkSavedConfig toy_server_encrypted (BuiltIn (replicate 32 5)) [7].
#[local] Instance toy_config_json : Json SavedConfig := json_two toy_saved_config toy_saved_config.
#[local] Instance toy_snapshot_json : Json ExportedStore := json_two (ts_export toy_store0) (ts_export toy_store1).

Lemma server_start_survives_witness :
  let conf := mkBaseConfig toy_store0 root_credential [7] in
  survives (λ d', ∀ c, (execute get_base_config d').2 = Ok (Some c) → c = conf)
    (λ r d', ∀ c, r = Ok c → c = conf ∧ ∀ init random nonce seed,
       execute (start_config init random nonce seed) d' = (d', Ok conf))
    (start_config (Ok (toy_store0, root_credential)) (Ok (replicate 32 5)) (replicate 12 9) [7]) (mkFileTree ∅ {[ [] ]}).
Proof.
  exact (server_start_survives toy_store0 root_credential [7] (replicate 32 5) (replicate 12 9) toy_server_encrypted
    [1] [1] eq_refl eq_refl eq_refl eq_refl eq_refl (JsonLaws0 := json_two_laws _ _) (JsonLaws1 := json_two_laws _ _)
    (mkFileTree ∅ {[ [] ]}) eq_refl eq_refl).
Defined.

#[local] Instance restart_block_postcard : Postcard Block := postcard_one toy_add_block.

Lemma restart_forgets_witness :
  ts_sequence toy_store0 < ts_sequence toy_store1 ∧
  ∀ later, rtc (serves toy_handle_mls (F := ()) (λ _, 600))
    (started_server 0 [(1, [1])] (mkBaseConfig toy_store0 root_credential [7])) later →
  trust_store later = toy_store0.
Proof.
  split; [reflexivity|]. intros later Hl.
  destruct (restart_forgets toy_handle_mls (F := ()) (λ _, 600) toy_root_certificate (mkBaseConfig toy_store0 root_credential [7])
    (mkCertificate toy_session) toy_add_block (toy_server [[]])
    (mkSessionServer 0 (mkServerTxStore [(1, [1])] 1 [[as_unchecked toy_add_block]]) toy_store1 1) 0
    toy_root_parsed (reachable_init _) (reachable_init _) toy_user_parsed ltac:(vm_compute; split; congruence) eq_refl
    (conj eq_refl (Forall_nil_2 _)) toy_block_taken) as [_ H].
  exact (proj1 (H later Hl)).
Defined.
