(* ===== verification/AgentConfig.v ===== *)
(** * What an agent keeps on disk, and how it starts
    ([svalin/src/agent.rs])

    The configuration is made from what joining gave the agent
    ([Enroll.agent_enroll]), once; every start reads it. *)
From S2P Require Import Prelude.
From S2P Require Import External.
From S2P Require Import Spki.
From S2P Require Import Sql.
From S2P Require Import Toy.
From S2P Require Import Certificate.
From S2P Require Import CertChain.
From S2P Require Import Encrypt.
From S2P Require Import Credential.
From S2P Require Import SecureChain.
From S2P Require Import TrustStore.
From S2P Require Import TransactionStore.
From S2P Require Import UserStore.
From S2P Require Import Enroll.
From S2P Require Import Files.
From S2P Require Import Persist.
From stdpp Require Import relations.
From stdpp Require Import options.

#[local] Open Scope Z_scope.

Record AgentConfig := mkAgentConfig {
  config_upstream_address : string;
  config_upstream_certificate : UnverifiedCertificate;
  config_root_certificate : UnverifiedCertificate;
  config_encrypted_credentials : EncryptedCredential;
  config_key_source : KeySource;
}.

Definition agent_data_dir : Path := Eval cbv in push system_data_dir "agent".
Definition agent_config_path : Path := Eval cbv in push agent_data_dir "config.json".
Definition agent_trust_store_path : Path := Eval cbv in push agent_data_dir "trust-store.json".

Section agent.
Context `{X509, CR : Crypto, RG : !Rcgen, Aead, !Postcard SavedKeypair}.
Context `{!Json ExportedStore, !Json AgentConfig}.

Definition get_config : files DiskError (option AgentConfig) :=
  exists_ ← files_map_err DiskFsError (op (TryExists agent_config_path));
  if exists_ : bool then
    config ← files_map_err DiskFsError (op (ReadFile agent_config_path));
    config ← gives (map_err DiskJsonError (from_json (T := AgentConfig) config));
    mret (Some config)
  else mret None.

Definition save_config (config : AgentConfig) : files DiskError () :=
  location ← files_map_err DiskLocationError (ensure_parent_exists agent_config_path);
  config ← gives (map_err DiskJsonError (to_json config));
  files_map_err DiskFsError (fs_write location config).

(** [init_with]. *)
Definition init_with (random : result ExtError (list Z)) (nonce : list Z) (data : AgentInitPayload) : files DiskError () :=
  key_source ← gives (generate_builtin random);
  encrypted_credentials ← gives (encrypt_credential key_source nonce (credentials data));
  let config := mkAgentConfig (address data) (as_unverified (payload_upstream data))
                  (as_unverified (as_certificate (payload_root data))) encrypted_credentials key_source in
  found ← get_config;
  match found with
  | Some _ => gives (Err AlreadyExists)
  | None =>
      _ ← save_config config;
      save_trust_store agent_trust_store_path (payload_trust_store data)
  end.

(** [cleanup_on_start]; the installations are those of [Installer]. *)
Definition cleanup_on_start {E} (io_error : FsError → E) (temp_dir : Path) (cleanup_old_installations : files E ()) : files E () :=
  exists_ ← or_else false (op (TryExists temp_dir));
  _ ← (if exists_ : bool then files_map_err io_error (op (RemoveDirAll temp_dir)) else mret ());
  cleanup_old_installations.

(** The beginning of [run]: what the agent connects with. *)
Record AgentStart := mkAgentStart {
  start_address : string;
  start_credentials : Credential;
  start_root : RootCertificate;
  start_upstream : Certificate;
}.

Definition agent_start (now : Z) : files DiskError AgentStart :=
  config ← get_config;
  config ← gives (ok_or config NotYetInitialized);
  credentials ← gives (decrypt_credentials (config_key_source config) (config_encrypted_credentials config));
  root_certificate ← gives (map_err DiskRootError (use_as_root (config_root_certificate config)));
  upstream_certificate ← gives (map_err DiskVerifyError
    (verify_signature (config_upstream_certificate config) (as_certificate root_certificate) now));
  mret (mkAgentStart (config_upstream_address config) credentials root_certificate upstream_certificate).

(** *** What is found *)
Lemma get_config_cases d :
  execute get_config d =
    (d, match disk_files d !! agent_config_path with
        | Some b => Some <$> map_err DiskJsonError (from_json b)
        | None => if decide (agent_config_path ∈ disk_dirs d) then Err (DiskFsError FileNotFound) else Ok None
        end).
Proof.
  unfold get_config. cbn -[agent_config_path]. destruct (disk_files d !! agent_config_path) as [b|] eqn:Hb.
  - rewrite bool_decide_true by eauto. cbn -[agent_config_path]. rewrite Hb. cbn. by destruct (from_json b).
  - case_decide.
    + rewrite bool_decide_true by eauto. cbn -[agent_config_path]. by rewrite Hb.
    + rewrite bool_decide_false; [done|]. by intros [[]|?].
Qed.

Lemma survives_get_config d :
  survives (λ d', d' = d) (λ r d', d' = d ∧ (is_Some (disk_files d !! agent_config_path) → r ≠ Ok None) ∧
    (disk_files d !! agent_config_path = None → ∀ c, r ≠ Ok (Some c))) get_config d.
Proof.
  unfold get_config. apply survives_step; [by intros ? ? ? []|done|by split_and!|]. intros d' r' [= <- <-]. split; [done|].
  case_bool_decide as Hb; [|apply survives_done; [done|]; split_and!; [done| |done]; intros Hs; by destruct Hb; left].
  apply survives_step; [by intros ? ? ? []|done|by split_and!|]. intros d' r' [= <- <-]. split; [done|].
  destruct (disk_files d !! agent_config_path) as [b|] eqn:Hf; [|by split_and!].
  apply survives_gives; [done|]. destruct (map_err DiskJsonError (from_json b)); [|by split_and!..].
  apply survives_done; [done|]. split_and!; [done|done|]. by intros [=].
Qed.

(** *** Joined once *)
Section joined.
Context (data : AgentInitPayload) (key nonce : list Z) (encrypted : EncryptedCredential) (config store : list Z).

Definition config_of : AgentConfig :=
  mkAgentConfig (address data) (as_unverified (payload_upstream data)) (as_unverified (as_certificate (payload_root data)))
    encrypted (BuiltIn key).

Context (Hencrypt : credential_export nonce (credentials data) (mkEncryptionKey key) = Ok encrypted).
Context (Hdecrypt : credential_decrypt encrypted (mkEncryptionKey key) = Ok (credentials data)).
Context (Hconfig : to_json config_of = Ok config) (Hstore : to_json (payload_trust_store data) = Ok store).
Context (Hroot : use_as_root (as_unverified (as_certificate (payload_root data))) = Ok (payload_root data)).
Context `{!JsonLaws AgentConfig}.
#[local] Set Default Proof Using "All".

(** No configuration but this one is found, at any moment. *)
Definition only_this (d : FileTree) : Prop := ∀ c, (execute get_config d).2 = Ok (Some c) → c = config_of.

Lemma only_this_partly d d' :
  disk_files d !! agent_config_path = None → partly agent_config_path config d d' → only_this d'.
Proof.
  intros Hn Hp c. rewrite get_config_cases. destruct Hp as [->|(b1 & b2 & Hb & ->)]; [rewrite Hn; by case_decide|].
  cbn. destruct b2 as [|x b2].
  - rewrite app_nil_r in Hb. subst b1. rewrite (from_to_json _ _ Hconfig). by intros [= <-].
  - rewrite Hb in Hconfig. pose proof (from_json_cut _ _ _ Hconfig ltac:(discriminate)) as Hc.
    by destruct (from_json b1).
Qed.

(** What the next start does with the finished configuration. *)
Lemma finished_start d now :
  disk_files d !! agent_config_path = Some config →
  verify_signature (as_unverified (payload_upstream data)) (as_certificate (payload_root data)) now = Ok (payload_upstream data) →
  execute (agent_start now) d = (d, Ok (mkAgentStart (address data) (credentials data) (payload_root data) (payload_upstream data))).
Proof.
  intros Hf Hv. unfold agent_start. rewrite (execute_bind _ _ d d (Some config_of)).
  2: { by rewrite get_config_cases, Hf, (from_to_json _ _ Hconfig). }
  cbn. unfold decrypt_credentials. cbn. rewrite Hdecrypt. cbn. rewrite Hroot. cbn. by rewrite Hv.
Qed.

Lemma only_this_none d : disk_files d !! agent_config_path = None → only_this d.
Proof. intros Hn c. rewrite get_config_cases, Hn. by case_decide. Qed.

Lemma survives_save_config d :
  disk_files d !! agent_config_path = None →
  survives only_this (λ r d', only_this d' ∧ (r = Ok () → disk_files d' !! agent_config_path = Some config)) (save_config config_of) d.
Proof.
  intros Hn. assert (∀ d', untouched [] d d' → disk_files d' !! agent_config_path = None) as Hsame.
  { intros d' [Hf _]. by rewrite Hf by (by intros ?%elem_of_nil). }
  unfold save_config. apply survives_bind, survives_map_err.
  eapply survives_mono; [apply survives_ensure_parent|intros d' Hu; by apply only_this_none, Hsame|].
  intros r d1 [Hu Hl]. pose proof (Hsame d1 Hu) as Hn1. pose proof (only_this_none d1 Hn1) as Ho.
  destruct r as [loc|e|]; cbn [map_err]; [|by split..]. rewrite (Hl loc eq_refl). apply survives_gives; [done|].
  rewrite Hconfig. cbn [map_err]. apply survives_map_err. eapply survives_mono; [apply survives_fs_write| |]; cbn beta.
  - intros d' [_ Hp]. by eapply only_this_partly.
  - intros r d' (_ & Hp & Hd). split; [by eapply only_this_partly|]. destruct r as [[]|e|]; [|done..].
    intros _. by apply Hd.
Qed.

Lemma only_this_saved d : disk_files d !! agent_config_path = Some config → only_this d.
Proof. intros Hf c. rewrite get_config_cases, Hf, (from_to_json _ _ Hconfig). by intros [= <-]. Qed.

(** An agent joins once, and starts with what it joined with. With a
    configuration on the disk [init_with] fails, at whatever point, and no file
    is ever changed. Without one, whatever it leaves behind when it is killed
    or fails, no other configuration than this one is found; and when it
    succeeds, every start within the validity of the server's certificate has
    the address, the credential, the root and the server's certificate it
    joined with, and the snapshot of the trust store is the one it was sent. *)
Theorem agent_joins_once d :
  if decide (is_Some (disk_files d !! agent_config_path))
  then survives (λ d', d' = d) (λ r d', d' = d ∧ is_ok r = false) (init_with (Ok key) nonce data) d
  else survives only_this
    (λ r d', only_this d' ∧
       (r = Ok () → disk_files d' !! agent_trust_store_path = Some store ∧ ∀ now,
          verify_signature (as_unverified (payload_upstream data)) (as_certificate (payload_root data)) now =
            Ok (payload_upstream data) →
          execute (agent_start now) d' =
            (d', Ok (mkAgentStart (address data) (credentials data) (payload_root data) (payload_upstream data)))))
    (init_with (Ok key) nonce data) d.
Proof.
  unfold init_with. case_decide as Hs.
  - apply survives_gives; [done|]. cbn [generate_builtin map_err mbind result_bind]. unfold encrypt_credential.
    cbn [to_key]. rewrite Hencrypt. apply survives_gives; [done|]. cbn [map_err]. apply survives_bind.
    eapply survives_mono; [apply survives_get_config|done|]. intros r d' (-> & Hsome & _). specialize (Hsome Hs).
    destruct r as [[c|]|e|]; [by apply survives_done|done|done..].
  - apply eq_None_not_Some in Hs.
    apply survives_gives; [by apply only_this_none|]. cbn [generate_builtin map_err mbind result_bind]. unfold encrypt_credential.
    cbn [to_key]. rewrite Hencrypt. apply survives_gives; [by apply only_this_none|]. cbn [map_err]. apply survives_bind.
    eapply survives_mono; [apply survives_get_config|by intros d' ->; apply only_this_none|]. intros r d' (-> & _ & Hno). specialize (Hno Hs).
    destruct r as [[c|]|e|]; [by destruct (Hno c)| |by split; [apply only_this_none|]..].
    apply survives_bind. eapply survives_mono; [apply (survives_save_config d Hs)|done|].
    intros r d1 [Ho Hd]. destruct r as [[]|e|]; [|by split..]. specialize (Hd eq_refl).
    assert (∀ d', old_or_new agent_trust_store_path store d1 d' → disk_files d' !! agent_config_path = Some config) as Hkept.
    { intros d' ([Hf _] & _). rewrite <-Hd. apply Hf.
      intros [E|[E|E%elem_of_nil]%elem_of_cons]%elem_of_cons; [discriminate E..|done]. }
    eapply survives_mono; [apply survives_save; [discriminate|exact Hstore]| |]; cbn beta.
    + intros d' Hn. by apply only_this_saved, Hkept.
    + intros r d' [Hn Hdone]. split; [by apply only_this_saved, Hkept|]. intros ->. split; [by apply Hdone|].
      intros now Hv. apply finished_start; [by apply Hkept|done].
Qed.
End joined.
End agent.

(** ** Worked example *)
#[local] Existing Instance toy_x509.
#[local] Existing Instance toy_crypto.
#[local] Existing Instance toy_rcgen.
#[local] Existing Instance toy_aead.
#[local] Existing Instance postcard_keypair.

#[local] Instance key_source_eq_dec : EqDecision KeySource.
Proof. solve_decision. Defined.
#[local] Instance agent_config_eq_dec : EqDecision AgentConfig.
Proof. solve_decision. Defined.

Definition toy_payload : AgentInitPayload :=
  mkAgentInitPayload "svalin" (mkCredential (toy_keypair 59) toy_agent_certificate) toy_root_certificate toy_upstream
    (ts_export toy_store0).
Definition toy_agent_encrypted : EncryptedCredential :=
  match credential_export (replicate 12 9) (credentials toy_payload) (mkEncryptionKey (replicate 32 5)) with
  | Ok e => e
  | _ => mkEncryptedCredential no_data toy_root
  end.
Definition toy_agent_config : AgentConfig := config_of toy_payload (replicate 32 5) toy_agent_encrypted.
#[local] Instance toy_config_json : Json AgentConfig := json_two toy_agent_config toy_agent_config.
#[local] Instance toy_snapshot_json : Json ExportedStore := json_two (ts_export toy_store0) (ts_export toy_store1).

Definition toy_agent_disk : FileTree := mkFileTree ∅ {[ []; agent_data_dir ]}.

(** It joins, starts, and is not joined again. *)
Lemma agent_joins_once_witness :
  let d := (execute (init_with (Ok (replicate 32 5)) (replicate 12 9) toy_payload) toy_agent_disk).1 in
  execute (agent_start 600) d =
    (d, Ok (mkAgentStart "svalin" (mkCredential (toy_keypair 59) toy_agent_certificate) toy_root_certificate toy_upstream)) ∧
  is_ok (execute (init_with (Ok (replicate 32 5)) (replicate 12 9) toy_payload) d).2 = false.
Proof.
  pose proof (agent_joins_once toy_payload (replicate 32 5) (replicate 12 9) toy_agent_encrypted [1] [1]
    eq_refl eq_refl eq_refl eq_refl eq_refl (JsonLaws0 := json_two_laws _ _)) as Hj.
  pose proof (Hj toy_agent_disk) as H1. rewrite decide_False in H1 by by intros [].
  apply survives_execute in H1 as [_ H1]. destruct (H1 eq_refl) as [_ Hstart].
  intros d. split; [exact (Hstart 600 eq_refl)|].
  pose proof (Hj d) as H2. rewrite decide_True in H2 by (eexists; reflexivity).
  apply survives_execute in H2 as [_ H2]. exact H2.
Defined.
