(* ===== verification/Installer.v ===== *)
(** * Installing and updating an agent
    ([svalin/src/installer/agent.rs], [installer/agent/update.rs],
    [shared/commands/update_agent.rs], on Linux)

    An installation is a directory of its own, named by one letter; the
    service manager is told where the executable is. An update downloads an
    installer and runs it; the agent that is started next removes the
    installations it does not run from. The service manager is what its
    commands answer, the download what arrives of it. *)
From S2P Require Import Prelude.
From S2P Require Import Spki.
From S2P Require Import Files.
From S2P Require Import Persist.
From S2P Require Import AgentConfig.
From stdpp Require Import relations.
From stdpp Require Import options.

#[local] Open Scope Z_scope.

Inductive InstallError :=
  | InstallFsError (e : FsError)
  | CreateDirectoryFailed (e : LocationError)
  | CopyFailed (e : FsError)
  | NoLocations
  | NoSystemd
  | CommandFailed
  | NoStatusCode
  | RestartFailed
  | ServiceInstallationFailed
  | UnknownStatus (code : Z)
  | StopFailed.

(** ** Where it is installed *)
Definition get_base_install_location : Path := ["opt"; "svalin"]%string.

(** ['a'..='z']. *)
Definition letters : list string :=
  (λ n, String (Ascii.ascii_of_nat (97 + n)) EmptyString) <$> seq 0 26.

Definition installation (char : string) : Path := push get_base_install_location char.
Definition executable_of (path : Path) : Path := push path "svalin".

Fixpoint first_free (chars : list string) : files InstallError Path :=
  match chars with
  | [] => gives (Err NoLocations)
  | char :: chars =>
      let path := installation char in
      exists_ ← files_map_err InstallFsError (op (TryExists path));
      if exists_ : bool then first_free chars else mret path
  end.

Definition get_agent_install_location : files InstallError Path := first_free letters.

Fixpoint cleanup_from (chars : list string) (current_location : Path) : files InstallError () :=
  match chars with
  | [] => mret ()
  | char :: chars =>
      let path := installation char in
      exists_ ← files_map_err InstallFsError (op (TryExists path));
      _ ← (if exists_ && negb (bool_decide (path `prefix_of` current_location))
           then files_map_err InstallFsError (op (RemoveDirAll path)) else mret ());
      cleanup_from chars current_location
  end.

(** [env::current_exe()] is an argument of what uses it. *)
Definition cleanup_old_installations (current_exe : result FsError Path) : files InstallError () :=
  current_location ← gives (map_err InstallFsError current_exe);
  if bool_decide (get_base_install_location `prefix_of` current_location)
  then cleanup_from letters current_location
  else mret ().

(** ** The service *)
Definition systemd_service_location : Path := ["etc"; "systemd"; "system"; "svalin-agent.service"]%string.

Definition newline : string := String (Ascii.ascii_of_nat 10) EmptyString.

(** [SYSTEMD_SERVICE_TEMPLATE], before and after the braces. *)
Definition template_head : string :=
  String.concat newline [""; ""; "[Unit]"; "Description=Svalin Agent"; "After=network.target"; ""; "[Service]"; "Type=simple";
    "User=root"; "ExecStart="]%string.
Definition template_tail : string :=
  String.concat newline [""; "Restart=on-failure"; ""; "[Install]"; "WantedBy=multi-user.target"; ""]%string.

(** [Display] of a path. *)
Definition path_text (p : Path) : string := foldr (λ x s, "/" +:+ x +:+ s) EmptyString p.

Definition service_command (executable : Path) : string := path_text executable +:+ " agent".
Definition service_file_contents (executable : Path) : string :=
  template_head +:+ service_command executable +:+ template_tail.

Section install.
(** How running a command ends: it may not start, and be killed by a signal. *)
Context (systemctl : list string → result FsError (option Z)).

Definition systemd_available : bool := is_ok (systemctl ["--version"%string]).

Definition create_systemd_service (executable : Path) : files InstallError () :=
  _ ← files_map_err InstallFsError (op (CreateTruncate systemd_service_location));
  _ ← files_map_err InstallFsError (op (WriteOut systemd_service_location (str_bytes (service_file_contents executable))));
  _ ← gives (map_err (λ _, CommandFailed) (systemctl ["daemon-reload"%string]));
  status ← gives (map_err (λ _, CommandFailed) (systemctl ["is-active"; "svalin-agent.service"]%string));
  match status with
  | None => gives (Err NoStatusCode)
  | Some status =>
      if status =? 0 then
        restarted ← gives (map_err (λ _, CommandFailed) (systemctl ["restart"; "svalin-agent.service"]%string));
        if bool_decide (restarted = Some 0) then mret () else gives (Err RestartFailed)
      else if status =? 3 then mret ()
      else if status =? 4 then gives (Err ServiceInstallationFailed)
      else gives (Err (UnknownStatus status))
  end.

Definition create_service (executable : Path) : files InstallError () :=
  if systemd_available then create_systemd_service executable else gives (Err NoSystemd).

Definition remove_systemd_service : files InstallError () :=
  status ← gives (map_err (λ _, CommandFailed) (systemctl ["disable"; "--now"; "svalin-agent.service"]%string));
  if bool_decide (status = Some 0) || bool_decide (status = Some 1) then
    exists_ ← or_else false (op (TryExists systemd_service_location));
    if exists_ : bool then files_map_err InstallFsError (op (RemoveFile systemd_service_location)) else mret ()
  else gives (Err StopFailed).

(** Without systemd it only says so. *)
Definition remove_service : files InstallError () := remove_systemd_service.

(** [tokio::fs::copy]. *)
Definition fs_copy (from to : Path) : files FsError () :=
  b ← op (ReadFile from);
  fs_write to b.

Definition install_agent (current_exe : result FsError Path) : files InstallError () :=
  current_location ← gives (map_err InstallFsError current_exe);
  path ← get_agent_install_location;
  install_to ← files_map_err CreateDirectoryFailed (ensure_parent_exists (executable_of path));
  _ ← files_map_err CopyFailed (fs_copy current_location install_to);
  create_service install_to.

Definition remove_existing (path : Path) : files InstallError () :=
  exists_ ← or_else false (op (TryExists path));
  if exists_ : bool then files_map_err InstallFsError (op (RemoveDirAll path)) else mret ().

Definition uninstall_agent : files InstallError () :=
  _ ← remove_existing agent_data_dir;
  _ ← remove_existing get_base_install_location;
  remove_service.
End install.

(** ** Updating *)
Inductive UpdateError :=
  | FetchFailed (e : string)
  | CreateTempDirFailed (e : LocationError)
  | OpenFailed (e : FsError)
  | DownloadFailed (e : string)
  | WriteFailed (e : FsError)
  | SyncFailed (e : FsError)
  | InstallerBroke (e : FsError)
  | InstallerKilled
  | InstallerExited (code : Z).

(** [agent::temp_dir] in [std::env::temp_dir()]. *)
Definition temp_dir (system_temp_dir : Path) : Path := push (push system_temp_dir "svalin") "svalin-agent".
Definition get_update_temp_path (system_temp_dir : Path) : Path := push (temp_dir system_temp_dir) "svalin-update".

(** What arrives of the download: pieces, and possibly an error. *)
Fixpoint save_download (path : Path) (offset : nat) (download_stream : list (result string (list Z))) : files UpdateError () :=
  match download_stream with
  | [] => mret ()
  | chunk :: rest =>
      chunk ← gives (map_err DownloadFailed chunk);
      _ ← files_map_err WriteFailed (op (WriteAt path offset chunk));
      save_download path (offset + length chunk) rest
  end.

(** The file is opened as it is if it could not be removed. *)
Definition update_agent (system_temp_dir : Path) (res : result string (list (result string (list Z))))
    (installer : files FsError (option Z)) : files UpdateError () :=
  download_stream ← gives (map_err FetchFailed res);
  temp_path ← files_map_err CreateTempDirFailed (ensure_parent_exists (get_update_temp_path system_temp_dir));
  exists_ ← or_else false (op (TryExists temp_path));
  _ ← (if exists_ : bool then or_else () (op (RemoveFile temp_path)) else mret ());
  _ ← files_map_err OpenFailed (op (OpenWrite temp_path));
  _ ← save_download temp_path 0 download_stream;
  _ ← files_map_err SyncFailed (op (SyncFile temp_path));
  code ← files_map_err InstallerBroke installer;
  match code with
  | None => gives (Err InstallerKilled)
  | Some code => if code =? 0 then mret () else gives (Err (InstallerExited code))
  end.

(** [agent install] of this version, as a process: an error unwinds. *)
Definition install_process (systemctl : list string → result FsError (option Z)) (current_exe : Path) : files FsError (option Z) :=
  goes_on (install_agent systemctl (Ok current_exe)) (λ r, gives (Ok (Some (match r with Ok _ => 0 | _ => 101 end)))).

(** What a starting agent does first. *)
Definition agent_cleanup (system_temp_dir : Path) (current_exe : result FsError Path) : files InstallError () :=
  cleanup_on_start InstallFsError (temp_dir system_temp_dir) (cleanup_old_installations current_exe).

(** *** The command ([UpdateAgentHandler]) *)
(** [anyhow] shows the outermost context. *)
Definition update_context : string := "error while executing update".
Definition update_in_progress : string := "update already in progress".

(** The lock of the handler, the requests whose update runs, the answers. *)
Record UpdateAgentHandler := mkUpdateAgentHandler {
  mutex : bool;
  updating : list nat;
  update_answers : list (nat * result string ());
}.

Inductive UpdateEvent :=
  | UpdateRequested (i : nat)
  | UpdateEnded (i : nat) (update_result : result UpdateError ())
  | UpdateCancelled (i : nat).

Definition update_done (i : nat) (send_result : result string ()) (h : UpdateAgentHandler) : option UpdateAgentHandler :=
  if bool_decide (i ∈ updating h)
  then Some (mkUpdateAgentHandler false (filter (λ j, j ≠ i) (updating h)) (update_answers h ++ [(i, send_result)]))
  else None.

Definition update_event (h : UpdateAgentHandler) (e : UpdateEvent) : option UpdateAgentHandler :=
  match e with
  | UpdateRequested i =>
      if mutex h
      then Some (mkUpdateAgentHandler true (updating h) (update_answers h ++ [(i, Err update_in_progress)]))
      else Some (mkUpdateAgentHandler true (i :: updating h) (update_answers h))
  | UpdateEnded i update_result => update_done i (map_err (λ _, update_context) update_result) h
  | UpdateCancelled i => update_done i (Ok ()) h
  end.

(** ** The command line ([svalin/src/main.rs]) *)
Inductive AgentAction := RunAgent | InstallAgent | UninstallAgent | InitAgent (address : string).
Inductive AppCommand := ServerCommand (address : string) | AgentCommand (action : AgentAction) | VersionCommand.

(** What [clap] derives from them: a command that has subcommands needs one. *)
Definition parse_action (args : list string) : option AgentAction :=
  match args with
  | ["run"] => Some RunAgent
  | ["install"] => Some InstallAgent
  | ["uninstall"] => Some UninstallAgent
  | ["init"; address] => Some (InitAgent address)
  | _ => None
  end%string.

Definition app_parse (args : list string) : option AppCommand :=
  match args with
  | ["server"; address] => Some (ServerCommand address)
  | "agent" :: args => AgentCommand <$> parse_action args
  | ["version"] => Some VersionCommand
  | _ => None
  end%string.

(** The words after the executable in the description of the service. *)
Definition service_arguments (executable : Path) : list string :=
  tail (split_on (Ascii.ascii_of_nat 32) (service_command executable)).

(** ** Installations and letters *)
Definition is_there (p : Path) (d : FileTree) : Prop := is_Some (disk_files d !! p) ∨ p ∈ disk_dirs d.
#[global] Instance is_there_dec p d : Decision (is_there p d).
Proof. unfold is_there. apply _. Defined.

(** Every file lies in a directory. *)
Definition well_formed (d : FileTree) : Prop := ∀ p, is_Some (disk_files d !! p) → parent_exists p d.

Definition free_installation (d : FileTree) (chars : list string) : option Path :=
  head (filter (λ p, ¬ is_there p d) (installation <$> chars)).

Lemma letters_installation c :
  c ∈ letters → installation c = get_base_install_location ++ [c] ∧ executable_of (installation c) = get_base_install_location ++ [c; "svalin"%string].
Proof.
  apply (proj1 (Forall_forall (λ c, installation c = get_base_install_location ++ [c] ∧
    executable_of (installation c) = get_base_install_location ++ [c; "svalin"%string]) letters)). by repeat constructor.
Qed.

Lemma letters_nodup : NoDup letters.
Proof. by apply (bool_decide_unpack (NoDup letters)). Qed.

Lemma installation_inj c c' : c ∈ letters → c' ∈ letters → installation c `prefix_of` installation c' → c = c'.
Proof.
  intros Hc Hc'. destruct (letters_installation c Hc) as [-> _]. destruct (letters_installation c' Hc') as [-> _].
  intros Hp%prefix_app_inv. by apply prefix_cons_inv_1 in Hp.
Qed.

Lemma survives_try_exists {E A} (C : FileTree → Prop) (Q : result E A → FileTree → Prop) (f : FsError → E) p (k : bool → files E A) d :
  C d → Q (Err (f OtherIo)) d → survives C Q (k (bool_decide (is_there p d))) d →
  survives C Q (files_map_err f (op (TryExists p)) ≫= k) d.
Proof.
  intros HC He Hk. apply survives_step; [by intros ? ? ? []|done|done|]. by intros d' r [= <- <-].
Qed.

Lemma survives_first_free chars d :
  survives (λ d', d' = d) (λ r d', d' = d ∧ match r with Ok p => free_installation d chars = Some p | _ => True end) (first_free chars) d.
Proof.
  induction chars as [|c chars IH]; cbn [first_free]; [by apply survives_done|].
  apply survives_try_exists; [done|done|]. unfold free_installation in *. rewrite fmap_cons, filter_cons.
  case_bool_decide as Ht; [by rewrite decide_False by tauto|rewrite decide_True by done]. by apply survives_done.
Qed.

Lemma execute_first_free chars d :
  execute (first_free chars) d = (d, match free_installation d chars with Some p => Ok p | None => Err NoLocations end).
Proof.
  induction chars as [|c chars IH]; cbn [first_free]; [done|]. unfold free_installation in *.
  rewrite fmap_cons, filter_cons. cbn [op mbind files_bind files_map_err goes_on execute effect map_err].
  change (is_Some (disk_files d !! installation c) ∨ installation c ∈ disk_dirs d) with (is_there (installation c) d).
  case_bool_decide as Ht; [by rewrite decide_False by tauto|by rewrite decide_True].
Qed.

Lemma free_installation_spec d chars p :
  free_installation d chars = Some p → ∃ c, c ∈ chars ∧ p = installation c ∧ ¬ is_there p d.
Proof.
  unfold free_installation. intros Hp. apply head_Some_elem_of, list_elem_of_filter in Hp as [Hn (c & -> & Hc)%list_elem_of_fmap]. eauto.
Qed.

(** ** What an installation changes *)
Section installing.
Context (systemctl : list string → result FsError (option Z)).

Lemma survives_open_write {E A} (C : FileTree → Prop) (Q : result E A → FileTree → Prop) (f : FsError → E) p b (k : () → files E A) d :
  (∀ d', untouched [p] d d' → C d') → (∀ d' e, untouched [p] d d' → Q (Err e) d') →
  (∀ d', untouched [p] d d' → disk_files d' !! p = Some b → survives C Q (k ()) d') →
  survives C Q (_ ← files_map_err f (op (CreateTruncate p)); files_map_err f (op (WriteOut p b)) ≫= k) d.
Proof.
  intros HC HQ Hk. apply survives_step; [by intros ? ? ? []|by apply HC|by apply HQ|].
  intros d' r Hr. cbn [effect] in Hr. case_decide; [injection Hr as <- <-; split; [by apply HC|by apply HQ]|].
  case_decide; [|injection Hr as <- <-; split; [by apply HC|by apply HQ]]. injection Hr as <- <-.
  assert (untouched [p] d (with_file p [] d)) as Hu by (by apply untouched_with_file, list_elem_of_here).
  split; [by apply HC|]. apply survives_bind, survives_map_err. unfold op.
  assert (∀ b1, untouched [p] d (written p b1 (with_file p [] d))) as Hw.
  { intros b1. etransitivity; [exact Hu|]. by apply untouched_written, list_elem_of_here. }
  apply survives_write.
  - intros b1 b2 Hb. split; [by apply HC|]. apply survives_done; [by apply HC|]. by apply HQ.
  - apply survives_done; [by apply HC|]. apply Hk; [done|]. cbn. by rewrite lookup_alter_eq, lookup_insert_eq.
Qed.

Lemma survives_create_service exe d :
  survives (untouched [systemd_service_location] d)
    (λ r d', untouched [systemd_service_location] d d' ∧
       (r = Ok () → disk_files d' !! systemd_service_location = Some (str_bytes (service_file_contents exe))))
    (create_service systemctl exe) d.
Proof.
  unfold create_service. destruct (systemd_available systemctl); [|by apply survives_done].
  unfold create_systemd_service. apply survives_open_write; [done|done|]. intros d' Hu Hf.
  repeat (apply survives_gives; [done|]; case_match; [|done..]). repeat case_match; try (by apply survives_done).
  apply survives_gives; [done|]. case_match; [|done..]. case_match; by apply survives_done.
Qed.

Lemma survives_fs_copy from to b d :
  disk_files d !! from = Some b →
  survives (untouched [to] d) (λ r d', untouched [to] d d' ∧ (r = Ok () → disk_files d' !! to = Some b)) (fs_copy from to) d.
Proof.
  intros Hb. unfold fs_copy. apply survives_bind. apply survives_at_once; [by intros ? ? ? []|done| |by apply survives_done].
  cbn. rewrite Hb. apply survives_done; [done|]. eapply survives_mono; [apply survives_fs_write|by intros d' []|].
  intros r d' (Hu & _ & Hd). split; [done|]. intros Hr. by apply Hd.
Qed.

(** The executable a free installation gets is a new file. *)
Lemma free_executable d p : well_formed d → free_installation d letters = Some p → disk_files d !! executable_of p = None.
Proof.
  intros Hwf (c & Hc & -> & Hn)%free_installation_spec. apply eq_None_not_Some. intros Hs.
  destruct (letters_installation c Hc) as [Hi He]. apply Hwf in Hs as (q & Hq & Hin). rewrite He in Hq. injection Hq as <-.
  destruct Hn. right. rewrite Hi. exact Hin.
Qed.

(** C37: Installing an agent, at whatever point it fails or is killed and
    whatever the service manager answers, leaves every file of the host as it
    is but the one that describes the service: what it copies goes to a
    directory that was not there. With all letters taken it fails and changes
    nothing. When it succeeds the new file is a copy of what was run, and the
    service is described as running it. *)
Theorem installing_keeps_installations exe b d :
  well_formed d → disk_files d !! exe = Some b →
  match free_installation d letters with
  | None => survives (λ d', d' = d) (λ r d', d' = d ∧ is_ok r = false) (install_agent systemctl (Ok exe)) d
  | Some p =>
      disk_files d !! executable_of p = None ∧
      survives (untouched [executable_of p; systemd_service_location] d)
        (λ r d', untouched [executable_of p; systemd_service_location] d d' ∧
           (r = Ok () → disk_files d' !! executable_of p = Some b ∧
              disk_files d' !! systemd_service_location = Some (str_bytes (service_file_contents (executable_of p)))))
        (install_agent systemctl (Ok exe)) d
  end.
Proof.
  intros Hwf Hb. destruct (free_installation d letters) as [p|] eqn:Hfree.
  - pose proof (free_executable d p Hwf Hfree) as Hnew. split; [done|]. unfold install_agent.
    apply survives_gives; [done|]. cbn [map_err]. apply survives_bind.
    eapply survives_mono; [apply survives_first_free|by intros d' ->|]. intros r d' [-> Hr].
    destruct r as [p'|e|]; [|by split..]. replace p' with p by congruence. clear Hr.
    assert (∀ ps d1, ps ⊆ [executable_of p; systemd_service_location] → untouched ps d d1 →
      untouched [executable_of p; systemd_service_location] d d1) as Hmore by (intros; by eapply untouched_more).
    apply survives_bind, survives_map_err. eapply survives_mono; [apply survives_ensure_parent|intros d1; apply Hmore; set_solver|].
    intros r d1 [Hu1 Hr]. assert (untouched [executable_of p; systemd_service_location] d d1) as Hu1' by (eapply Hmore; [|done]; set_solver).
    destruct r as [to|e|]; cbn [map_err]; [|by split..]. rewrite (Hr _ eq_refl).
    apply survives_bind, survives_map_err.
    assert (disk_files d1 !! exe = Some b) as Hb1 by (rewrite (proj1 Hu1); [done|by intros ?%elem_of_nil]).
    eapply survives_mono; [by apply survives_fs_copy| |].
    { intros d2 Hu2. etransitivity; [exact Hu1'|]. eapply untouched_more; [|done]. set_solver. }
    intros r d2 [Hu2 Hcopy].
    assert (untouched [executable_of p; systemd_service_location] d d2) as Hu2'.
    { etransitivity; [exact Hu1'|]. eapply untouched_more; [|done]. set_solver. }
    destruct r as [[]|e|]; cbn [map_err]; [|by split..].
    eapply survives_mono; [apply survives_create_service| |].
    { intros d3 Hu3. etransitivity; [exact Hu2'|]. eapply untouched_more; [|done]. set_solver. }
    intros r d3 [Hu3 Hunit]. split.
    { etransitivity; [exact Hu2'|]. eapply untouched_more; [|done]. set_solver. }
    intros ->. split; [|by apply Hunit]. rewrite (proj1 Hu3); [by apply Hcopy|].
    intros Heq%list_elem_of_singleton. apply free_installation_spec in Hfree as (c & Hc & -> & _).
    destruct (letters_installation c Hc) as [_ He]. rewrite He in Heq. discriminate Heq.
  - unfold install_agent. apply survives_gives; [done|]. cbn [map_err]. apply survives_bind.
    eapply survives_mono; [apply survives_first_free|done|]. intros r d' [-> Hr].
    destruct r as [p'|e|]; [congruence|done..].
Qed.
End installing.

(** ** What a start removes *)

(** In an installation that [exe] is not run from. *)
Definition elsewhere (exe q : Path) : Prop :=
  ∃ c, c ∈ letters ∧ installation c `prefix_of` q ∧ ¬ installation c `prefix_of` exe.

(** Nothing but the paths of [gone] is touched, and nothing is new. *)
Record removed (gone : Path → Prop) (d d' : FileTree) : Prop := {
  removed_files q : ¬ gone q → disk_files d' !! q = disk_files d !! q;
  removed_dirs q : ¬ gone q → q ∈ disk_dirs d' ↔ q ∈ disk_dirs d;
  removed_old_files : disk_files d' ⊆ disk_files d;
  removed_old_dirs : disk_dirs d' ⊆ disk_dirs d;
}.

#[global] Instance removed_preorder gone : PreOrder (removed gone).
Proof.
  split; [by intros d|]. intros d1 d2 d3 [F1 D1 OF1 OD1] [F2 D2 OF2 OD2]. split.
  - intros q Hq. by rewrite F2, F1.
  - intros q Hq. by rewrite D2, D1.
  - by etransitivity.
  - by etransitivity.
Qed.

Lemma removed_under_removed (gone : Path → Prop) p d d' :
  (∀ q, p `prefix_of` q → gone q) → removed_under p d d' → removed gone d d'.
Proof.
  intros Hp [Hd Hf]. split; [|by rewrite Hd| |by rewrite Hd].
  - intros q Hq. destruct (Hf q) as [Hs|[Hpq _]]; [exact Hs|]. destruct Hq. by apply Hp.
  - apply map_subseteq_spec. intros q b Hq. destruct (Hf q) as [E|[_ E]]; congruence.
Qed.

Lemma removal_removed (gone : Path → Prop) p d :
  (∀ q, p `prefix_of` q → gone q) → removed gone d (effect (RemoveDirAll p) d).1.
Proof.
  intros Hp. cbn. case_decide; [|done]. split; cbn.
  - intros q Hq. destruct (disk_files d !! q) as [b|] eqn:Hf.
    + apply map_lookup_filter_Some. split; [done|]. cbn. intros ?. destruct Hq. by apply Hp.
    + apply map_lookup_filter_None. by left.
  - intros q Hq. rewrite elem_of_filter. split; [by intros []|]. intros Hin. split; [|done]. intros ?. destruct Hq. by apply Hp.
  - apply map_filter_subseteq.
  - intros q [_ Hin]%elem_of_filter. done.
Qed.

Lemma removal_gone p d d' : effect (RemoveDirAll p) d = (d', Ok ()) → ¬ is_there p d'.
Proof.
  cbn. case_decide; intros [= <-]. unfold is_there. cbn. intros [[b [_ Hn]%map_lookup_filter_Some]|[Hn _]%elem_of_filter]; by destruct Hn.
Qed.

Lemma removed_absent gone p d d' : removed gone d d' → ¬ is_there p d → ¬ is_there p d'.
Proof.
  intros [_ _ Hf Hd] Hn [[b Hb]|Hin]; apply Hn; [left|right; by apply Hd]. exists b. by eapply lookup_weaken.
Qed.

Lemma survives_cleanup_from chars exe d :
  chars ⊆ letters →
  survives (removed (elsewhere exe) d)
    (λ r d', removed (elsewhere exe) d d' ∧
       (r = Ok () → ∀ c, c ∈ chars → ¬ installation c `prefix_of` exe → ¬ is_there (installation c) d'))
    (cleanup_from chars exe) d.
Proof.
  revert d. induction chars as [|c chars IH]; intros d Hsub; cbn [cleanup_from].
  - apply survives_done; [done|]. split; [done|]. by intros _ c ?%elem_of_nil.
  - apply survives_try_exists; [done|by split|].
    assert (∀ d', removed (elsewhere exe) d d' → (¬ installation c `prefix_of` exe → ¬ is_there (installation c) d') →
      survives (removed (elsewhere exe) d)
        (λ r d', removed (elsewhere exe) d d' ∧
           (r = Ok () → ∀ c', c' ∈ c :: chars → ¬ installation c' `prefix_of` exe → ¬ is_there (installation c') d'))
        (cleanup_from chars exe) d') as Hgo.
    { intros d' Hd' Hc. eapply survives_mono; [apply IH; set_solver| |].
      - intros d2 Hd2. by etransitivity.
      - intros r d2 [Hd2 Hr]. split; [by etransitivity|]. intros -> c' [->|Hc']%elem_of_cons Hn.
        + eapply removed_absent; [exact Hd2|by apply Hc].
        + by apply Hr. }
    case_bool_decide as Ht; [case_bool_decide as Hp|]; cbn [andb negb].
    + apply survives_bind, survives_done; [done|]. by apply Hgo.
    + assert (∀ q, installation c `prefix_of` q → elsewhere exe q) as Hgone by (intros q Hq; exists c; set_solver).
      apply survives_bind, survives_map_err. apply survives_removal. intros d' Hd'.
      pose proof (removed_under_removed _ _ _ _ Hgone Hd') as Hr. split; [done|].
      split; [by apply survives_done; [|by split]|].
      assert (removed (elsewhere exe) d (effect (RemoveDirAll (installation c)) d').1) as Hr'
        by (etransitivity; [exact Hr|by apply removal_removed]).
      destruct (effect (RemoveDirAll (installation c)) d') as [d2 r] eqn:He. cbn [fst snd] in *.
      apply survives_done; [done|]. destruct r as [[]|e|]; [|by split..].
      apply Hgo; [done|]. intros _. by eapply removal_gone.
    + apply survives_bind, survives_done; [done|]. by apply Hgo.
Qed.

(** However far it comes, what a starting agent does about other
    installations leaves everything it does not run from as it is, its own
    installation first of all; when it succeeds in an installation, that is the
    only one left. *)
Theorem cleanup_keeps_mine exe d :
  survives (removed (elsewhere exe) d)
    (λ r d', removed (elsewhere exe) d d' ∧
       (r = Ok () → get_base_install_location `prefix_of` exe →
        ∀ c, c ∈ letters → is_there (installation c) d' → installation c `prefix_of` exe))
    (cleanup_old_installations (Ok exe)) d.
Proof.
  unfold cleanup_old_installations. apply survives_gives; [done|]. cbn [map_err].
  case_bool_decide as Hb; [|by apply survives_done]. eapply survives_mono; [by apply survives_cleanup_from|done|].
  intros r d' [Hd Hr]. split; [done|]. intros Hok _ c Hc Ht.
  destruct (decide (installation c `prefix_of` exe)) as [Hp|Hp]; [done|]. by destruct (Hr Hok c Hc Hp).
Qed.

(** ** One update after the other *)
(** Where [/tmp] is the temporary directory. *)
Definition tmp : Path := ["tmp"%string].
Definition update_file : Path := Eval cbv in get_update_temp_path tmp.
Definition executables : list Path := (λ c, executable_of (installation c)) <$> letters.

(** What the service is described as running. *)
Definition service_executable (d : FileTree) : option Path :=
  head (filter (λ p, disk_files d !! systemd_service_location = Some (str_bytes (service_file_contents p))) executables).

Definition directories : list Path :=
  [[]; ["opt"]; get_base_install_location; ["tmp"]; ["tmp"; "svalin"]; temp_dir tmp]%string ++ (installation <$> letters).
Definition plain_files : list Path := systemd_service_location :: update_file :: executables.

(** What is a directory is no file, and the other way round. *)
Record host (d : FileTree) : Prop := {
  host_base : get_base_install_location ∈ disk_dirs d;
  host_service : ["etc"; "systemd"; "system"]%string ∈ disk_dirs d;
  host_directories q : q ∈ directories → disk_files d !! q = None;
  host_files q : q ∈ plain_files → q ∉ disk_dirs d;
}.

Record runs_from (exe : Path) (b : list Z) (d : FileTree) : Prop := {
  runs_letter : ∃ c, c ∈ letters ∧ exe = executable_of (installation c) ∧ installation c ∈ disk_dirs d;
  runs_bytes : disk_files d !! exe = Some b;
}.

Lemma temp_dir_directory : temp_dir tmp ∈ directories.
Proof. apply list_elem_of_lookup. by exists 5%nat. Qed.

Lemma installation_directory c : c ∈ letters → installation c ∈ directories.
Proof. intros Hc. apply elem_of_app. right. by apply list_elem_of_fmap_2. Qed.

Lemma executable_plain c : c ∈ letters → executable_of (installation c) ∈ plain_files.
Proof. intros Hc. do 2 apply list_elem_of_further. by apply (list_elem_of_fmap_2 (λ c, executable_of (installation c))). Qed.

Lemma directories_no_files q : q ∈ directories → q ∉ plain_files.
Proof.
  apply (proj1 (Forall_forall (λ q, q ∉ plain_files) directories)). refine (bool_decide_unpack _ _). vm_compute. exact I.
Qed.

Lemma above_directories q x : q ∈ directories → x ∈ and_above q → x ∈ directories.
Proof.
  intros Hq. revert x. apply (proj1 (Forall_forall (λ q, ∀ x, x ∈ and_above q → x ∈ directories) directories)); [|done].
  assert (Forall (λ q, Forall (λ x, x ∈ directories) (and_above q)) directories) as Hall.
  { refine (bool_decide_unpack _ _). vm_compute. exact I. }
  eapply Forall_impl; [exact Hall|]. intros p Hp. by apply Forall_forall.
Qed.

Lemma service_files_nodup : NoDup ((λ p, str_bytes (service_file_contents p)) <$> executables).
Proof. refine (bool_decide_unpack _ _). vm_compute. exact I. Qed.

Lemma host_clear q d : host d → q ∈ directories → clear q d.
Proof. intros Hd Hq. apply Forall_forall. intros x Hx. apply (host_directories _ Hd). by eapply above_directories. Qed.

Lemma host_made q d : host d → q ∈ directories → host (made q d).
Proof.
  intros [Hb Hs Hdir Hfile] Hq. split; [by apply made_keeps|by apply made_keeps|by rewrite made_files|].
  intros x Hx. unfold made. case_decide; [by apply Hfile|]. cbn [disk_dirs]. intros [Hin|Hin%elem_of_list_to_set]%elem_of_union; [by apply (Hfile x)|].
  by apply (directories_no_files x); [eapply above_directories|].
Qed.

Lemma host_with_file q b d : host d → q ∈ plain_files → host (with_file q b d).
Proof.
  intros [Hb Hs Hdir Hfile] Hq. split; [done|done| |done]. intros x Hx. cbn. rewrite lookup_insert_ne; [by apply Hdir|].
  intros ->. by apply (directories_no_files x).
Qed.

Lemma host_removed gone d d' :
  removed gone d d' → ¬ gone get_base_install_location → ¬ gone ["etc"; "systemd"; "system"]%string → host d → host d'.
Proof.
  intros [Hf Hd Hfs Hds] Hb Hs [Hbase Hserv Hdir Hfile]. split; [by apply Hd|by apply Hd| |].
  - intros q Hq. specialize (Hdir q Hq). by eapply lookup_weaken_None.
  - intros q Hq Hin. by apply (Hfile q Hq), Hds.
Qed.

Lemma runs_removed gone exe b d d' :
  removed gone d d' → ¬ gone exe → (∀ c, c ∈ letters → exe = executable_of (installation c) → ¬ gone (installation c)) →
  runs_from exe b d → runs_from exe b d'.
Proof.
  intros [Hf Hd _ _] He Hc [(c & Hc' & -> & Hin) Hb]. split; [|by rewrite Hf].
  exists c. split; [done|split; [done|]]. apply Hd; [by apply Hc|done].
Qed.

(** *** The start *)
Lemma not_elsewhere exe : ¬ elsewhere exe exe.
Proof. by intros (c & _ & Hp & Hn). Qed.

Lemma not_elsewhere_above exe q : q `prefix_of` exe → ¬ elsewhere exe q.
Proof. intros Hq (c & _ & Hp & Hn). apply Hn. by trans q. Qed.

Lemma not_elsewhere_service exe : ¬ elsewhere exe ["etc"; "systemd"; "system"]%string.
Proof. intros (c & Hc & Hp & _). destruct (letters_installation c Hc) as [Hi _]. rewrite Hi in Hp. by apply prefix_cons_inv_1 in Hp. Qed.

Lemma execute_cleanup_from chars exe d :
  (∀ c, c ∈ chars → disk_files d !! installation c = None) → (execute (cleanup_from chars exe) d).2 = Ok ().
Proof.
  revert d. induction chars as [|c chars IH]; intros d Hd; cbn [cleanup_from]; [done|].
  cbn [op mbind files_bind files_map_err goes_on execute effect map_err].
  pose proof (Hd c (list_elem_of_here _ _)) as Hc. rewrite Hc.
  case_bool_decide as Ht; [case_bool_decide|]; cbn [andb negb goes_on execute mret files_ret]; [apply IH; set_solver| |apply IH; set_solver].
  cbn [op mbind files_bind files_map_err goes_on execute effect map_err].
  destruct Ht as [[]|Hin]; [done|]. rewrite decide_True by done. cbn [goes_on execute map_err].
  apply IH. intros c' Hc'. cbn. apply map_lookup_filter_None. left. set_solver.
Qed.

Lemma execute_agent_cleanup exe b d :
  host d → runs_from exe b d →
  ∃ d', execute (agent_cleanup tmp (Ok exe)) d = (d', Ok ()) ∧ host d' ∧ runs_from exe b d' ∧
    ∀ c, c ∈ letters → is_there (installation c) d' → exe = executable_of (installation c).
Proof.
  intros Hd Hr. pose proof Hr as [(c & Hc & -> & Hin) Hb]. destruct (letters_installation c Hc) as [Hi He].
  set (exe := executable_of (installation c)) in *.
  assert (∃ d1, execute (agent_cleanup tmp (Ok exe)) d = execute (cleanup_from letters exe) d1 ∧ host d1 ∧ runs_from exe b d1)
    as (d1 & -> & Hd1 & Hr1).
  { unfold agent_cleanup, cleanup_on_start, cleanup_old_installations. cbn [map_err gives mbind files_bind goes_on]. rewrite bool_decide_true by (rewrite He; by eexists).
    assert (disk_files d !! temp_dir tmp = None) as Htmp by (apply (host_directories _ Hd), temp_dir_directory).
    cbn [or_else op mbind files_bind goes_on execute effect]. rewrite Htmp. case_bool_decide as Ht; [|by exists d].
    destruct Ht as [[]|Ht]; [done|]. cbn [files_map_err op mbind files_bind goes_on execute effect map_err]. rewrite decide_True by done. cbn [goes_on execute map_err]. eexists. split; [reflexivity|].
    pose proof (removal_removed (λ q, temp_dir tmp `prefix_of` q) (temp_dir tmp) d (λ q Hq, Hq)) as Hrem.
    cbn [effect] in Hrem. rewrite decide_True in Hrem by done. cbn [fst] in Hrem. split.
    - eapply host_removed; [exact Hrem|by intros ?%prefix_cons_inv_1..|done].
    - eapply runs_removed; [exact Hrem| |intros c' Hc' _|done].
      + rewrite He. by intros ?%prefix_cons_inv_1.
      + rewrite (proj1 (letters_installation c' Hc')). by intros ?%prefix_cons_inv_1. }
  pose proof (survives_execute _ _ _ _ (survives_cleanup_from letters exe d1 ltac:(done))) as [Hrem Hgone].
  assert ((execute (cleanup_from letters exe) d1).2 = Ok ()) as Hok.
  { apply execute_cleanup_from. intros c' Hc'. by apply (host_directories _ Hd1), installation_directory. }
  specialize (Hgone Hok). destruct (execute (cleanup_from letters exe) d1) as [d' r]. cbn [fst snd] in *. subst r.
  assert (get_base_install_location `prefix_of` exe) as Hbase by (rewrite He; by eexists).
  exists d'. split; [done|]. split; [|split].
  - eapply host_removed; [exact Hrem|by apply not_elsewhere_above|apply not_elsewhere_service|done].
  - eapply runs_removed; [exact Hrem|apply not_elsewhere| |done]. intros c' Hc' Hexe. apply not_elsewhere_above.
    rewrite Hexe. destruct (letters_installation c' Hc') as [-> ->]. by eexists [_].
  - intros c' Hc' Ht. destruct (decide (installation c' `prefix_of` exe)) as [Hp|Hp]; [|by destruct (Hgone c' Hc' Hp)].
    rewrite He, (proj1 (letters_installation c' Hc')) in Hp. apply prefix_app_inv, prefix_cons_inv_1 in Hp. by subst c'.
Qed.

(** *** The update *)
Lemma written_with_file p b c d : written p c (with_file p b d) = with_file p (b ++ c) d.
Proof.
  unfold written, with_file. cbn. f_equal. apply map_eq. intros q. rewrite lookup_alter.
  case_decide; subst; [by rewrite !lookup_insert_eq|by rewrite !lookup_insert_ne].
Qed.

Lemma overwritten_end p b c d : disk_files d !! p = Some b → overwritten p (length b) c d = with_file p (b ++ c) d.
Proof.
  intros Hb. unfold overwritten, with_file. f_equal. apply map_eq. intros q. rewrite lookup_alter.
  case_decide; subst; [|by rewrite lookup_insert_ne]. rewrite lookup_insert_eq, Hb. cbn.
  by rewrite take_ge, drop_ge, app_nil_r by lia.
Qed.

Lemma with_file_twice p b c d : with_file p c (with_file p b d) = with_file p c d.
Proof. unfold with_file. cbn. by rewrite insert_insert_eq. Qed.

Lemma with_file_same p b d : disk_files d !! p = Some b → with_file p b d = d.
Proof. intros Hb. destruct d. unfold with_file. cbn in *. by rewrite insert_id. Qed.

Lemma execute_save_download p b chunks d :
  disk_files d !! p = Some b →
  execute (save_download p (length b) (Ok <$> chunks)) d = (with_file p (b ++ concat chunks) d, Ok ()).
Proof.
  revert b d. induction chunks as [|c chunks IH]; intros b d Hb; csimpl.
  - by rewrite app_nil_r, with_file_same.
  - cbn [map_err gives mbind files_bind goes_on op files_map_err execute effect].
    rewrite (overwritten_end _ _ _ _ Hb), <-length_app. rewrite IH; [by rewrite with_file_twice, app_assoc|].
    cbn. by rewrite lookup_insert_eq.
Qed.

Lemma execute_open_write {E A} (f : FsError → E) p b (k : () → files E A) d :
  p ∉ disk_dirs d → parent_exists p d →
  execute (_ ← files_map_err f (op (CreateTruncate p)); files_map_err f (op (WriteOut p b)) ≫= k) d = execute (k ()) (with_file p b d).
Proof.
  intros Hp Hpar. cbn [map_err mbind files_bind goes_on op files_map_err execute effect].
  rewrite decide_False, decide_True by done. cbn [map_err goes_on execute effect]. by rewrite written_with_file.
Qed.

Lemma free_installation_ext chars d d' :
  (∀ c, c ∈ chars → is_there (installation c) d ↔ is_there (installation c) d') → free_installation d chars = free_installation d' chars.
Proof.
  intros Hd. unfold free_installation. induction chars as [|c chars IH]; [done|]. rewrite !fmap_cons, !filter_cons.
  assert (is_there (installation c) d ↔ is_there (installation c) d') as Hc by (apply Hd; set_solver).
  destruct (decide (is_there (installation c) d)) as [Ht|Ht].
  - rewrite !decide_False by tauto. apply IH. set_solver.
  - by rewrite !decide_True by tauto.
Qed.

(** With one letter in use one of the first two is free. *)
Lemma free_installation_two exe d :
  (∀ c, c ∈ letters → is_there (installation c) d → exe = executable_of (installation c)) →
  ∃ c, c ∈ ["a"; "b"]%string ∧ free_installation d letters = Some (installation c) ∧ ¬ is_there (installation c) d.
Proof.
  intros Hd. unfold letters, free_installation. cbn [seq fmap list_fmap].
  destruct (decide (is_there (installation "a") d)) as [Ha|Ha].
  - exists "b"%string. split; [set_solver|]. rewrite filter_cons_False by tauto.
    assert (¬ is_there (installation "b") d) as Hb; [|by rewrite filter_cons_True].
    intros Hb. pose proof (Hd "a"%string ltac:(apply list_elem_of_lookup; by exists 0%nat) Ha) as Ea.
    pose proof (Hd "b"%string ltac:(apply list_elem_of_lookup; by exists 1%nat) Hb) as Eb. rewrite Ea in Eb. discriminate Eb.
  - exists "a"%string. split; [set_solver|]. by rewrite filter_cons_True.
Qed.

Section updates.
Context (systemctl : list string → result FsError (option Z)).

(** The program is started out of [exe] with a command line: it is an agent,
    and cleans up first, only if the command line says so. *)
Definition start_agent (exe : Path) (args : list string) (d : FileTree) : option FileTree :=
  match app_parse args with
  | Some (AgentCommand RunAgent) =>
      match execute (agent_cleanup tmp (Ok exe)) d with
      | (d, Ok _) => Some d
      | _ => None
      end
  | _ => None
  end.

(** A start, an update of the agent to what is downloaded, in pieces, and the
    executable the service is then described as running. The restart of the
    service can abort the installer, and the agent that waits for it, so that
    nothing depends on how the update ends. *)
Definition update_round (args : list string) (exe : Path) (download : list (list Z)) (d : FileTree) : option (Path * FileTree) :=
  d ← start_agent exe args d;
  let '(d, _) := execute (update_agent tmp (Ok (Ok <$> download)) (install_process systemctl update_file)) d in
  exe ← service_executable d;
  Some (exe, d).

(** Updates of agents that are started one after the other, each out of the
    executable the update before has left and with the same command line. *)
Fixpoint update_rounds (args : list string) (exe : Path) (downloads : list (list (list Z))) (d : FileTree) : option (Path * FileTree) :=
  match downloads with
  | [] => Some (exe, d)
  | download :: downloads => '(exe, d) ← update_round args exe download d; update_rounds args exe downloads d
  end.

Definition with_service (exe : Path) (d : FileTree) : FileTree :=
  with_file systemd_service_location (str_bytes (service_file_contents exe)) d.

(** What [systemctl] answers changes no file: nor does a restart that ends the
    installer. *)
Lemma execute_create_service exe d :
  systemd_available systemctl = true → host d → ∃ r, execute (create_service systemctl exe) d = (with_service exe d, r).
Proof using Type.
  intros Hv Hd. unfold create_service. rewrite Hv. unfold create_systemd_service.
  rewrite execute_open_write; [|by apply (host_files _ Hd), list_elem_of_here|by eexists; split; [|apply (host_service _ Hd)]].
  destruct (systemctl ["daemon-reload"%string]); cbn [map_err gives mbind files_bind goes_on]; [|by eexists..].
  destruct (systemctl ["is-active"; "svalin-agent.service"]%string) as [[status|]| |]; cbn [map_err gives goes_on]; [|by eexists..].
  repeat case_match; by eexists.
Qed.

Definition installed (c : string) (b : list Z) (d : FileTree) : FileTree :=
  with_service (executable_of (installation c)) (with_file (executable_of (installation c)) b (made (installation c) d)).

Lemma execute_install_agent exe b c d :
  systemd_available systemctl = true → host d → disk_files d !! exe = Some b → c ∈ letters → free_installation d letters = Some (installation c) →
  ∃ r, execute (install_agent systemctl (Ok exe)) d = (installed c b d, r).
Proof using Type.
  intros Hact Hd Hb Hc Hfree. destruct (letters_installation c Hc) as [Hi He].
  assert (host (made (installation c) d)) as Hm by (by apply host_made, installation_directory).
  unfold install_agent. cbn [map_err gives mbind files_bind goes_on].
  rewrite (execute_bind _ _ d d (installation c)) by (unfold get_agent_install_location; by rewrite execute_first_free, Hfree).
  rewrite (execute_bind _ _ d (made (installation c) d) (executable_of (installation c)));
    [|refine (execute_map_err CreateDirectoryFailed _ _ _ (Ok _) _); apply execute_made;
      [by rewrite He, Hi|by apply host_clear, installation_directory]].
  rewrite (execute_bind _ _ _ (with_file (executable_of (installation c)) b (made (installation c) d)) ());
    [|refine (execute_map_err CopyFailed _ _ _ (Ok _) _); unfold fs_copy;
      rewrite (execute_bind _ _ _ (made (installation c) d) b); [apply execute_fs_write|cbn; by rewrite made_files, Hb]].
  - apply execute_create_service; [done|]. by apply host_with_file, executable_plain.
  - by apply (host_files _ Hm), executable_plain.
  - exists (installation c). split; [by rewrite He, Hi|apply made_dir].
Qed.

(** The disk once the download is complete. *)
Definition downloaded (b : list Z) (d : FileTree) : FileTree := with_file update_file b (made (temp_dir tmp) d).

Lemma host_downloaded b d : host d → host (downloaded b d).
Proof.
  intros Hd. apply host_with_file; [by apply host_made, temp_dir_directory|]. apply list_elem_of_further, list_elem_of_here.
Qed.

Lemma downloaded_installations b d c : c ∈ letters → is_there (installation c) d ↔ is_there (installation c) (downloaded b d).
Proof.
  intros Hc. rewrite (proj1 (letters_installation c Hc)). unfold is_there, downloaded. cbn [disk_files disk_dirs with_file].
  rewrite lookup_insert_ne by discriminate. rewrite made_files. apply or_iff_compat_l. split; [by apply made_keeps|].
  unfold made. case_decide; [done|]. cbn [disk_dirs]. intros [?|Hin%elem_of_list_to_set]%elem_of_union; [done|].
  repeat (apply elem_of_cons in Hin as [[=]|Hin]). by apply elem_of_nil in Hin.
Qed.

Lemma with_file_deleted p b d : with_file p b (mkFileTree (delete p (disk_files d)) (disk_dirs d)) = with_file p b d.
Proof. unfold with_file. cbn. by rewrite insert_delete_eq. Qed.

Lemma execute_update_agent chunks c d :
  systemd_available systemctl = true → host d → c ∈ letters → free_installation d letters = Some (installation c) →
  ∃ r, execute (update_agent tmp (Ok (Ok <$> chunks)) (install_process systemctl update_file)) d =
    (installed c (concat chunks) (downloaded (concat chunks) d), r).
Proof using Type.
  intros Hact Hd Hc Hfree. unfold update_agent. rewrite (execute_bind _ _ d d (Ok <$> chunks)) by done.
  change (get_update_temp_path tmp) with update_file.
  assert (host (made (temp_dir tmp) d)) as Hm by (by apply host_made, temp_dir_directory).
  assert (update_file ∉ disk_dirs (made (temp_dir tmp) d)) as Hu by (apply (host_files _ Hm), list_elem_of_further, list_elem_of_here).
  rewrite (execute_bind _ _ d (made (temp_dir tmp) d) update_file);
    [|refine (execute_map_err CreateTempDirFailed _ _ _ (Ok _) _); apply execute_made; [done|by apply host_clear, temp_dir_directory]].
  rewrite (execute_bind _ _ _ (made (temp_dir tmp) d) (bool_decide (is_there update_file (made (temp_dir tmp) d)))) by done.
  assert (∃ d1, (∀ (k : () → files UpdateError ()), execute (x ← (if bool_decide (is_there update_file (made (temp_dir tmp) d))
      then or_else () (op (RemoveFile update_file)) else mret ()); k x) (made (temp_dir tmp) d) = execute (k ()) d1) ∧
    disk_dirs d1 = disk_dirs (made (temp_dir tmp) d) ∧ disk_files d1 !! update_file = None ∧
    ∀ b, with_file update_file b d1 = downloaded b d) as (d1 & Hgo & Hdirs & Hnone & Hsame).
  { case_bool_decide as Ht.
    - destruct Ht as [[old Hold]|?]; [|done]. exists (mkFileTree (delete update_file (disk_files (made (temp_dir tmp) d))) (disk_dirs (made (temp_dir tmp) d))).
      split; [|split; [done|split; [cbn; by rewrite lookup_delete_eq|intros; apply with_file_deleted]]].
      intros k. cbn [or_else op mbind files_bind goes_on execute effect]. by rewrite Hold.
    - exists (made (temp_dir tmp) d). split; [done|split; [done|split; [|done]]]. apply eq_None_not_Some. intros Hs. apply Ht. by left. }
  rewrite Hgo. rewrite (execute_bind _ _ d1 (downloaded [] d) ()).
  2: { rewrite <-Hsame. refine (execute_map_err OpenFailed _ _ _ (Ok _) _). cbn [op execute effect].
       rewrite decide_False by by rewrite Hdirs. rewrite Hnone, decide_True; [done|].
       exists (temp_dir tmp). split; [done|]. rewrite Hdirs. apply made_dir. }
  rewrite (execute_bind _ _ _ (downloaded (concat chunks) d) ()).
  2: { unfold downloaded. rewrite (execute_save_download update_file [] chunks); [by rewrite with_file_twice|]. cbn. by rewrite lookup_insert_eq. }
  rewrite (execute_bind _ _ _ (downloaded (concat chunks) d) ()) by done.
  assert (∃ r, execute (install_agent systemctl (Ok update_file)) (downloaded (concat chunks) d) =
    (installed c (concat chunks) (downloaded (concat chunks) d), r)) as [r Hinst].
  { apply execute_install_agent; [done|by apply host_downloaded| |done|].
    - cbn. by rewrite lookup_insert_eq.
    - rewrite <-Hfree. symmetry. apply free_installation_ext. intros c' Hc'. by apply downloaded_installations. }
  rewrite (execute_bind _ _ _ (installed c (concat chunks) (downloaded (concat chunks) d))
    (Some (match r with Ok _ => 0 | _ => 101 end))); [by destruct r; eexists|].
  refine (execute_map_err InstallerBroke _ _ _ (Ok _) _). unfold install_process. by rewrite execute_goes_on, Hinst.
Qed.

Lemma service_executable_is c d :
  c ∈ letters →
  disk_files d !! systemd_service_location = Some (str_bytes (service_file_contents (executable_of (installation c)))) →
  service_executable d = Some (executable_of (installation c)).
Proof using Type.
  intros Hc Hf. unfold service_executable. set (P := λ p, disk_files d !! systemd_service_location = _).
  assert (executable_of (installation c) ∈ executables) as Hin by (by apply (list_elem_of_fmap_2 (λ c, executable_of (installation c)))).
  assert (executable_of (installation c) ∈ filter P executables) as Hin' by (by apply list_elem_of_filter).
  destruct (filter P executables) as [|p l] eqn:Hl; [by apply elem_of_nil in Hin'|]. cbn [head]. f_equal.
  assert (p ∈ filter P executables) as [Hp Hpin]%list_elem_of_filter by (rewrite Hl; apply list_elem_of_here).
  unfold P in Hp. rewrite Hf in Hp. apply (inj Some) in Hp.
  apply list_elem_of_lookup in Hin as [i Hi]. apply list_elem_of_lookup in Hpin as [j Hj].
  assert (i = j) as ->.
  { eapply (NoDup_lookup _ _ _ _ service_files_nodup); rewrite list_lookup_fmap; [by rewrite Hi|]. rewrite Hj. exact (f_equal Some (eq_sym Hp)). }
  rewrite Hi in Hj. apply (inj Some) in Hj. by rewrite Hj.
Qed.

Lemma installed_there c c' b d : c ∈ letters → c' ∈ letters → is_there (installation c') (installed c b d) → c' = c ∨ is_there (installation c') d.
Proof using Type.
  intros Hc Hc'. destruct (letters_installation c Hc) as [Hi He]. destruct (letters_installation c' Hc') as [Hi' _].
  unfold is_there, installed, with_service. cbn [disk_files disk_dirs with_file]. rewrite He, Hi'.
  rewrite !lookup_insert_ne by discriminate. rewrite made_files. intros [?|Hin]; [by right; left|].
  unfold made in Hin. case_decide; [by right; right|]. cbn [disk_dirs] in Hin.
  apply elem_of_union in Hin as [?|Hin%elem_of_list_to_set]; [by right; right|]. left. rewrite Hi in Hin.
  apply list_elem_of_fmap in Hin as (n & E & _).
  assert (get_base_install_location ++ [c'] `prefix_of` get_base_install_location ++ [c]) as Hp
    by (exists (drop n (get_base_install_location ++ [c])); by rewrite E, take_drop).
  by apply prefix_app_inv, prefix_cons_inv_1 in Hp.
Qed.

Lemma update_round_goes args exe b chunks d :
  systemd_available systemctl = true → app_parse args = Some (AgentCommand RunAgent) → host d → runs_from exe b d →
  ∃ c d', c ∈ ["a"; "b"]%string ∧ update_round args exe chunks d = Some (executable_of (installation c), d') ∧ host d' ∧
    runs_from (executable_of (installation c)) (concat chunks) d' ∧ service_executable d' = Some (executable_of (installation c)) ∧
    ∀ c', c' ∈ letters → is_there (installation c') d' →
      executable_of (installation c') = executable_of (installation c) ∨ executable_of (installation c') = exe.
Proof using Type.
  intros Hact Hargs Hd Hr. destruct (execute_agent_cleanup exe b d Hd Hr) as (d1 & Hclean & Hd1 & Hr1 & Hone).
  destruct (free_installation_two exe d1 Hone) as (c & Hc & Hfree & Hn).
  assert (c ∈ letters) as Hcl.
  { apply elem_of_cons in Hc as [->|Hc%list_elem_of_singleton]; [|subst c]; apply list_elem_of_lookup; [by exists 0%nat|by exists 1%nat]. }
  destruct (letters_installation c Hcl) as [Hi He].
  exists c, (installed c (concat chunks) (downloaded (concat chunks) d1)). split; [done|].
  assert (host (made (installation c) (downloaded (concat chunks) d1))) as Hm
    by (by apply host_made; [apply host_downloaded|apply installation_directory]).
  assert (service_executable (installed c (concat chunks) (downloaded (concat chunks) d1)) = Some (executable_of (installation c))) as Hserv.
  { apply service_executable_is; [done|]. unfold installed, with_service. cbn [with_file disk_files]. by rewrite lookup_insert_eq. }
  split; [|split; [|split; [|split; [exact Hserv|]]]].
  - destruct (execute_update_agent chunks c d1 Hact Hd1 Hcl Hfree) as [r Hupd].
    unfold update_round, start_agent. rewrite Hargs, Hclean. cbn [mbind option_bind]. rewrite Hupd. by rewrite Hserv.
  - apply host_with_file; [|apply list_elem_of_here]. by apply host_with_file; [|by apply executable_plain].
  - split.
    + exists c. split; [done|split; [done|]]. cbn [installed with_service with_file disk_dirs]. apply made_dir.
    + unfold installed, with_service. cbn [with_file disk_files]. rewrite lookup_insert_ne by (rewrite He; discriminate).
      by rewrite lookup_insert_eq.
  - intros c' Hc' Ht. apply installed_there in Ht as [->|Ht]; [by left| |done|done].
    right. symmetry. apply Hone; [done|]. by eapply downloaded_installations.
Qed.

(** The service's own command line starts no agent. *)
Lemma service_starts_none exe b d : runs_from exe b d → start_agent exe (service_arguments exe) d = None.
Proof using Type.
  intros [(c & Hc & -> & _) _]. unfold start_agent.
  assert (Forall (λ c, app_parse (service_arguments (executable_of (installation c))) = None) letters) as Hall
    by (repeat constructor; vm_compute; reflexivity).
  by rewrite (proj1 (Forall_forall _ _) Hall c Hc).
Qed.

(** C38: Updates do not use up the places for installations, as long as
    somebody starts what they install. Whatever the service manager answers,
    and whether or not its restart aborts the installer: if every agent is
    started with [agent run], each out of the executable the update before has
    left, any number of updates come through; the service is then described as
    running an executable in one of the first two installations, which has
    exactly the bytes that were downloaded last, and no more than one other
    installation is there, the one it replaces. The service itself does not
    start them: with the command line of its description no agent starts,
    nothing is removed and there is no second update. *)
Theorem updates_never_run_out args exe b downloads d :
  systemd_available systemctl = true → host d → runs_from exe b d →
  (app_parse args = Some (AgentCommand RunAgent) →
    ∃ exe' d', update_rounds args exe downloads d = Some (exe', d') ∧
      disk_files d' !! exe' = Some (default b (last (concat (A := Z) <$> downloads))) ∧
      (downloads ≠ [] →
         exe' ∈ [executable_of (installation "a"); executable_of (installation "b")] ∧
         service_executable d' = Some exe' ∧
         ∃ old, ∀ c, c ∈ letters → is_there (installation c) d' →
           executable_of (installation c) = exe' ∨ executable_of (installation c) = old)) ∧
  (downloads ≠ [] → update_rounds (service_arguments exe) exe downloads d = None).
Proof using Type.
  intros Hact Hd Hr. split.
  2: { intros Hne. destruct downloads as [|download downloads]; [done|]. csimpl. unfold update_round.
       by rewrite (service_starts_none exe b d Hr). }
  intros Hargs. revert exe b d Hd Hr.
  induction downloads as [|download downloads IH]; intros exe b d Hd Hr; csimpl.
  - exists exe, d. split; [done|]. split; [by destruct Hr|done].
  - destruct (update_round_goes args exe b download d Hact Hargs Hd Hr) as (c & d1 & Hc & -> & Hd1 & Hr1 & Hserv & Hthere). csimpl.
    destruct (IH _ _ _ Hd1 Hr1) as (exe' & d' & Hrun & Hb & Hrest). exists exe', d'. split; [done|].
    split; [rewrite Hb, last_cons; by destruct (last (concat (A := Z) <$> downloads))|]. intros _.
    destruct downloads as [|next downloads]; [|by apply Hrest]. injection Hrun as <- <-. split; [|split].
    + apply elem_of_cons in Hc as [->|Hc%list_elem_of_singleton]; [apply list_elem_of_here|subst c]. apply list_elem_of_further, list_elem_of_here.
    + exact Hserv.
    + exists exe. exact Hthere.
Qed.
End updates.

(** ** One update at a time *)
Fixpoint update_events (h : UpdateAgentHandler) (es : list UpdateEvent) : option UpdateAgentHandler :=
  match es with
  | [] => Some h
  | e :: es => h ← update_event h e; update_events h es
  end.

(** The lock is held by the one update that runs, if any. *)
Lemma one_update_at_a_time es h :
  update_events (mkUpdateAgentHandler false [] []) es = Some h →
  if mutex h then ∃ i, updating h = [i] else updating h = [].
Proof.
  assert (∀ h0, (if mutex h0 then ∃ i, updating h0 = [i] else updating h0 = []) → update_events h0 es = Some h →
    if mutex h then ∃ i, updating h = [i] else updating h = []) as Hgen; [|by apply Hgen].
  induction es as [|e es IH]; intros h0 H0 E; [by injection E as <-|]. cbn in E. apply bind_Some in E as (h1 & E1 & E).
  apply (IH h1); [|done].
  assert (∀ i r, update_done i r h0 = Some h1 → if mutex h1 then ∃ i, updating h1 = [i] else updating h1 = []) as Hdone.
  { unfold update_done. intros i r. case_bool_decide as Hi; [|done]. intros [= <-]. cbn. destruct (mutex h0).
    - destruct H0 as [j Hj]. rewrite Hj in *. apply list_elem_of_singleton in Hi as ->. by rewrite filter_cons_False by tauto.
    - rewrite H0 in Hi. by apply elem_of_nil in Hi. }
  destruct e; cbn in E1; [|by eapply Hdone..]. destruct (mutex h0) eqn:Hm; injection E1 as <-; cbn; [done|]. rewrite H0. by eexists.
Qed.

(** The service gives no action: the program it starts only says so. *)
Example service_has_no_action :
  split_on (Ascii.ascii_of_nat 32) (service_command (executable_of (installation "a"))) = ["/opt/svalin/a/svalin"; "agent"]%string ∧
  app_parse ["agent"%string] = None ∧ app_parse ["agent"; "run"]%string = Some (AgentCommand RunAgent).
Proof. by vm_compute. Qed.

(** ** Worked example *)
Definition toy_systemctl (args : list string) : result FsError (option Z) := Ok (Some 0).
Definition toy_installed : Path := Eval vm_compute in executable_of (installation "c").
Definition toy_host : FileTree :=
  mkFileTree {[ toy_installed := [1; 2] ]}
    (list_to_set [[]; ["opt"]; ["opt"; "svalin"]; ["opt"; "svalin"; "c"]; ["etc"]; ["etc"; "systemd"]; ["etc"; "systemd"; "system"];
                  ["tmp"]]%string).

Lemma toy_host_ok : host toy_host ∧ runs_from toy_installed [1; 2] toy_host.
Proof.
  split; split.
  - refine (bool_decide_unpack _ _). vm_compute. exact I.
  - refine (bool_decide_unpack _ _). vm_compute. exact I.
  - apply Forall_forall. refine (bool_decide_unpack _ _). vm_compute. exact I.
  - apply Forall_forall. refine (bool_decide_unpack _ _). vm_compute. exact I.
  - exists "c"%string. split; [|split]; [| |refine (bool_decide_unpack _ _); vm_compute; exact I].
    + apply list_elem_of_lookup. by exists 2%nat.
    + by vm_compute.
  - by vm_compute.
Qed.

Lemma toy_host_well_formed : well_formed toy_host.
Proof.
  intros p [b Hb]. cbn [toy_host disk_files] in Hb. apply lookup_singleton_Some in Hb as [<- _].
  refine (bool_decide_unpack _ _). vm_compute. exact I.
Qed.

Lemma updates_never_run_out_witness :
  (∃ exe' d', update_rounds toy_systemctl ["agent"; "run"]%string toy_installed [[[3]; [4]]; [[5; 6]]] toy_host = Some (exe', d') ∧
    disk_files d' !! exe' = Some [5; 6] ∧ service_executable d' = Some exe') ∧
  update_rounds toy_systemctl (service_arguments toy_installed) toy_installed [[[3]; [4]]; [[5; 6]]] toy_host = None.
Proof.
  destruct (updates_never_run_out toy_systemctl ["agent"; "run"]%string toy_installed [1; 2] [[[3]; [4]]; [[5; 6]]] toy_host eq_refl
    (proj1 toy_host_ok) (proj2 toy_host_ok)) as [Hruns Hnone].
  split; [|by apply Hnone]. destruct (Hruns eq_refl) as (exe' & d' & Hrun & Hb & Hrest).
  exists exe', d'. split; [exact Hrun|]. split; [exact Hb|]. by apply Hrest.
Defined.

(** It installs itself once more, beside the running one. *)
Lemma installing_keeps_installations_witness :
  free_installation toy_host letters = Some (installation "a") ∧
  survives (untouched [executable_of (installation "a"); systemd_service_location] toy_host)
    (λ r d', untouched [executable_of (installation "a"); systemd_service_location] toy_host d' ∧
       (r = Ok () → disk_files d' !! executable_of (installation "a") = Some [1; 2] ∧
          disk_files d' !! systemd_service_location =
            Some (str_bytes (service_file_contents (executable_of (installation "a"))))))
    (install_agent toy_systemctl (Ok toy_installed)) toy_host.
Proof.
  assert (free_installation toy_host letters = Some (installation "a")) as Hfree by (vm_compute; reflexivity).
  split; [exact Hfree|].
  pose proof (installing_keeps_installations toy_systemctl toy_installed [1; 2] toy_host toy_host_well_formed eq_refl) as Hi.
  rewrite Hfree in Hi. exact (proj2 Hi).
Defined.
