(* ===== verification/Profile.v ===== *)
(** * The profiles of a client ([svalin/src/client/profile.rs])

    A profile is made by a login ([Login.login_dispatch]) and keeps what the
    password vouched for: the certificates of the root and the server and the
    credential of the device, under the password. Opening it is modelled up to
    the point where the client connects. *)
From S2P Require Import Prelude.
From S2P Require Import External.
From S2P Require Import Spki.
From S2P Require Import Sql.
From S2P Require Import Toy.
From S2P Require Import Certificate.
From S2P Require Import CertChain.
From S2P Require Import Encrypt.
From S2P Require Import Credential.
From S2P Require Import SecureChain.
From S2P Require Import TrustStore.
From S2P Require Import TransactionStore.
From S2P Require Import UserStore.
From S2P Require Import Files.
From S2P Require Import Persist.
From Stdlib Require Import Ascii.
From stdpp Require Import relations.
From stdpp Require Import options.

#[local] Open Scope Z_scope.

Record Profile := mkProfile {
  profile_username : string;
  profile_upstream_address : string;
  profile_upstream_certificate : UnverifiedCertificate;
  profile_root_certificate : UnverifiedCertificate;
  local_credential_params : ArgonParams;
  profile_device_credential : EncryptedCredential;
}.

Definition profile_new (username upstream_address : string) (upstream_certificate : Certificate)
    (root_certificate : RootCertificate) (params : ArgonParams) (device_credential : EncryptedCredential) : Profile :=
  mkProfile username upstream_address (as_unverified upstream_certificate)
    (as_unverified (as_certificate root_certificate)) params device_credential.

Definition profile_name (self : Profile) : string := profile_username self +:+ "@" +:+ profile_upstream_address self.

(** [profile_name.replace(":", "+")]. *)
Fixpoint replace_colons (name : string) : string :=
  match name with
  | EmptyString => EmptyString
  | String a name => String (if decide (a = ":"%char) then "+"%char else a) (replace_colons name)
  end.

Section client.
Context `{X509, CR : Crypto, RG : !Rcgen, Aead, !Postcard SavedKeypair, Argon2}.
Context `{!Json ExportedStore, !Json Profile}.
(** [Location::user_data_dir]. *)
Context (user_dir : result LocationError Path).

Definition client_data_dir : files DiskError Path :=
  location ← gives (map_err DiskLocationError user_dir);
  files_map_err DiskLocationError (ensure_parent_exists (push location "client")).

Definition profile_dir (name : string) : files DiskError Path :=
  data_dir ← client_data_dir;
  mret (push data_dir (replace_colons name)).

(** A failed [next_entry] is a failed [read_dir]. *)
Definition list_profiles : files DiskError (list string) :=
  location ← client_data_dir;
  goes_on (op (ReadDir location)) (λ folders,
    match folders with
    | Ok entries => mret (omap (λ e : string * bool, if e.2 then Some e.1 else None) entries)
    | Err FileNotFound => mret []
    | Err e => gives (Err (DiskFsError e))
    | Panic => gives Panic
    end).

Definition save_profile (profile : Profile) : files DiskError () :=
  dir ← profile_dir (profile_name profile);
  location ← files_map_err DiskLocationError (ensure_parent_exists (push dir "profile.json"));
  json ← gives (map_err DiskJsonError (to_json profile));
  files_map_err DiskFsError (fs_write location json).

Definition get_profile (name : string) : files DiskError (option Profile) :=
  dir ← profile_dir name;
  let location := push dir "profile.json" in
  exists_ ← files_map_err DiskFsError (op (TryExists location));
  if exists_ : bool then
    json ← files_map_err DiskFsError (op (ReadFile location));
    profile ← gives (map_err DiskJsonError (from_json (T := Profile) json));
    mret (Some profile)
  else mret None.

Definition remove_profile (name : string) : files DiskError () :=
  location ← profile_dir name;
  files_map_err DiskFsError (op (RemoveDirAll location)).

Definition profile_trust_store_path (self : Profile) : files DiskError Path :=
  dir ← profile_dir (profile_name self);
  mret (push dir "trust_store.json").

(** [add_profile], with the salt and the nonce that are drawn. *)
Definition add_profile (username upstream_address : string) (upstream_certificate : Certificate)
    (root_certificate : RootCertificate) (device_credentials : Credential) (password : list Z)
    (trust_store : TrustStore) (salt nonce : list Z) : files DiskError string :=
  let params := params_strong salt in
  key ← gives (map_err DiskDeriveError (derive_encryption_key params password));
  encrypted ← gives (map_err DiskEncryptError (credential_export nonce device_credentials key));
  let profile := profile_new username upstream_address upstream_certificate root_certificate params encrypted in
  profiles ← list_profiles;
  if bool_decide (profile_name profile ∈ profiles) then gives (Err AlreadyExists)
  else
    _ ← save_profile profile;
    trust_store_path ← profile_trust_store_path profile;
    _ ← save_trust_store trust_store_path (ts_export trust_store);
    mret (profile_name profile).

(** [open_profile], up to the connection; [store] is what the client's store
    holds. *)
Record OpenedProfile := mkOpenedProfile {
  opened_address : string;
  opened_credential : Credential;
  opened_root : RootCertificate;
  opened_upstream : Certificate;
  opened_trust_store : TrustStore;
}.

Context `{!Postcard Block}.

Definition open_profile (profile_key : string) (password : list Z) (store : TxStore) (now : Z) :
    files DiskError OpenedProfile :=
  profile ← get_profile profile_key;
  profile ← gives (ok_or profile ProfileIsEmpty);
  key ← gives (map_err DiskDeriveError (derive_encryption_key (local_credential_params profile) password));
  trust_store_path ← profile_trust_store_path profile;
  device_credential ← gives (map_err DiskDecryptError (credential_decrypt (profile_device_credential profile) key));
  root_certificate ← gives (map_err DiskRootError (use_as_root (profile_root_certificate profile)));
  upstream_certificate ← gives (map_err DiskVerifyError
    (verify_signature (profile_upstream_certificate profile) (as_certificate root_certificate) now));
  trust_store ← load_trust_store_file trust_store_path store now;
  mret (mkOpenedProfile (profile_upstream_address profile) device_credential root_certificate upstream_certificate trust_store).

(** ** Where the profiles are *)
Section located.
Context (base : Path) (Huser : user_dir = Ok base).
#[local] Set Default Proof Using "Huser".

Definition profiles_root : Path := base ++ ["client"]%string.
Definition dir_of (name : string) : Path := push profiles_root (replace_colons name).

Lemma run_data_dir d : clear base d → execute client_data_dir d = (made base d, Ok profiles_root).
Proof.
  intros Hc. unfold client_data_dir. rewrite Huser. cbn [map_err].
  assert (parent profiles_root = Some base) as Hpar.
  { unfold profiles_root, parent. rewrite removelast_last. by destruct base. }
  change (execute (files_map_err DiskLocationError (ensure_parent_exists profiles_root)) d = (made base d, Ok profiles_root)).
  by rewrite (execute_map_err _ _ _ _ _ (execute_made _ _ _ Hpar Hc)).
Qed.

Lemma run_profile_dir name d : clear base d → execute (profile_dir name) d = (made base d, Ok (dir_of name)).
Proof. intros Hc. unfold profile_dir. by rewrite (execute_bind _ _ _ _ _ (run_data_dir d Hc)). Qed.

Lemma found_profile_dir name d : base ∈ disk_dirs d → execute (profile_dir name) d = (d, Ok (dir_of name)).
Proof.
  intros Hd. unfold profile_dir, client_data_dir. rewrite Huser. cbn [map_err].
  assert (parent profiles_root = Some base) as Hpar.
  { unfold profiles_root, parent. rewrite removelast_last. by destruct base. }
  assert (execute (gives (Ok base) ≫= λ location : Path, files_map_err DiskLocationError (ensure_parent_exists (push location "client"))) d =
    (d, @Ok DiskError _ profiles_root)) as Hr.
  { change (execute (files_map_err DiskLocationError (ensure_parent_exists profiles_root)) d = (d, @Ok DiskError _ profiles_root)).
    by rewrite (execute_map_err _ _ _ _ _ (ensured_parent_exists _ _ _ Hpar Hd)). }
  by rewrite (execute_bind _ _ _ _ _ Hr).
Qed.

Lemma entry_of_Some p q x : entry_of p q = Some x ↔ q = p ++ [x].
Proof.
  clear. unfold entry_of. case_decide as Hd; [|split; [done|]; intros ->; destruct Hd; rewrite take_app_length, length_app; cbn; split; [done|lia]].
  destruct Hd as [Ht Hl]. split.
  - intros Hx. rewrite <-(take_drop (length p) q), Ht. f_equal.
    assert (length (drop (length p) q) = 1%nat) as H1 by (rewrite length_drop; lia).
    destruct (drop (length p) q) as [|y [|? ?]] eqn:E; [done| |done].
    rewrite <-(take_drop (length p) q), E, last_snoc in Hx. by injection Hx as ->.
  - intros ->. by rewrite last_snoc.
Qed.

Lemma made_base_below x d : x ≠ [] → base ++ x ∈ disk_dirs (made base d) ↔ base ++ x ∈ disk_dirs d.
Proof.
  clear. intros Hx. split; [|by apply made_keeps]. intros Hm. destruct (decide (base ++ x ∈ disk_dirs d)) as [|Hn]; [done|].
  destruct (made_longer base (base ++ x) d); [|done..]. rewrite length_app. destruct x; [done|]. cbn. lia.
Qed.

(** The names of the directories. *)
Lemma run_list_profiles d :
  clear base d → ∃ l, execute list_profiles d = (made base d, Ok l) ∧
    ∀ name, name ∈ l ↔ profiles_root ++ [name] ∈ disk_dirs d ∧ profiles_root ∈ disk_dirs d.
Proof.
  intros Hc. unfold list_profiles. rewrite (execute_bind _ _ _ _ _ (run_data_dir d Hc)).
  set (d1 := made base d). assert (∀ x, x ≠ [] → base ++ x ∈ disk_dirs d1 ↔ base ++ x ∈ disk_dirs d) as Hd1
    by (intros x; apply made_base_below).
  rewrite execute_goes_on. cbn -[d1 profiles_root]. destruct (decide (profiles_root ∈ disk_dirs d1)) as [Hin|Hin].
  - eexists. split; [done|]. intros name. rewrite list_elem_of_omap. split.
    + intros (e & He & Hb). rewrite elem_of_app, !list_elem_of_omap in He.
      destruct He as [(q & Hq & Hm)|(q & _ & Hm)].
      * apply fmap_Some in Hm as (x & Hx & ->). apply entry_of_Some in Hx as ->. cbn in Hb. injection Hb as <-.
        apply elem_of_elements in Hq. unfold profiles_root in *. rewrite <-app_assoc in *. rewrite Hd1 in Hq, Hin by done. done.
      * apply fmap_Some in Hm as (x & _ & ->). done.
    + intros [Hn _]. exists (name, true). split; [|done]. apply elem_of_app. left. apply list_elem_of_omap.
      exists (profiles_root ++ [name]). split.
      * apply elem_of_elements. unfold profiles_root in *. rewrite <-app_assoc in *. by apply Hd1.
      * by rewrite (proj2 (entry_of_Some _ _ _) eq_refl).
  - exists []. split; [done|]. intros name. split; [by intros ?%elem_of_nil|]. intros [_ Hr].
    unfold profiles_root in *. by apply Hd1 in Hr.
Qed.

(** ** A profile that is added *)
Section added.
Context (username upstream_address : string) (upstream : Certificate) (root : RootCertificate) (cr : Credential).
Context (password salt nonce : list Z) (key : EncryptionKey) (encrypted : EncryptedCredential) (ts : TrustStore).
Context (json store : list Z).

Definition added_profile : Profile :=
  profile_new username upstream_address upstream root (params_strong salt) encrypted.
Definition added_dir : Path := dir_of (profile_name added_profile).
Definition added_files : list Path :=
  [added_dir ++ ["profile.json"%string]; added_dir ++ ["trust_store.tmp"%string]; added_dir ++ ["trust_store.json"%string]].

Context (Hderive : derive_encryption_key (params_strong salt) password = Ok key).
Context (Hexport : credential_export nonce cr key = Ok encrypted).
Context (Hdecrypt : credential_decrypt encrypted key = Ok cr).
Context (Hjson : to_json added_profile = Ok json) (Hstore : to_json (ts_export ts) = Ok store).
Context (Himport : ts_import (ts_export ts) = Ok ts).
Context (Hroot : use_as_root (as_unverified (as_certificate root)) = Ok root).
Context (Hplain : added_dir = profiles_root ++ [replace_colons (profile_name added_profile)]).
Context `{!JsonLaws ExportedStore, !JsonLaws Profile}.
#[local] Set Default Proof Using "All".

(** Nothing is in the way: no file where a directory is to be made, no
    directory where a file is, and no directory with the very name of the
    profile. *)
Definition ready (d : FileTree) : Prop :=
  clear base d ∧ clear added_dir d ∧ Forall (λ p, p ∉ disk_dirs d) added_files ∧
  profiles_root ++ [profile_name added_profile] ∉ disk_dirs d.

Definition prepared (d : FileTree) : FileTree := made added_dir (made base d).

Lemma prepared_spec d : ready d →
  disk_files (prepared d) = disk_files d ∧ disk_dirs d ⊆ disk_dirs (prepared d) ∧ base ∈ disk_dirs (prepared d) ∧
  Forall (λ p, writable p (prepared d)) added_files.
Proof.
  intros (_ & _ & Hfree & _). unfold prepared. split_and!.
  - by rewrite !made_files.
  - intros x Hx. by apply made_keeps, made_keeps.
  - apply made_keeps, made_dir.
  - assert (∀ f, added_dir ++ [f] ∉ disk_dirs d → writable (added_dir ++ [f]) (prepared d)) as Hw.
    { intros f Hf. split.
      - apply made_longer; [rewrite length_app; cbn; lia|]. apply made_longer; [|done].
        rewrite Hplain. unfold profiles_root. rewrite !length_app. cbn. lia.
      - exists added_dir. split; [|apply made_dir]. unfold parent. rewrite removelast_last. by destruct added_dir. }
    unfold added_files in *. repeat (apply Forall_cons in Hfree as [? Hfree]). by repeat (constructor; [by apply Hw|]).
Qed.

Lemma clear_same_files q d d' : disk_files d' = disk_files d → clear q d → clear q d'.
Proof. clear. unfold clear. by intros ->. Qed.

(** The profile is written. *)
Lemma run_save_profile d :
  ready d → execute (save_profile added_profile) (made base d) =
    (with_file (added_dir ++ ["profile.json"%string]) json (prepared d), Ok ()).
Proof.
  intros Hr. pose proof (prepared_spec d Hr) as (_ & _ & _ & Hw). destruct Hr as (Hb & Hd & _).
  unfold save_profile.
  rewrite (execute_bind _ _ _ _ _ (run_profile_dir (profile_name added_profile) (made base d) (clear_same_files _ _ _ (made_files _ _) Hb))).
  rewrite (made_again base (made base d)) by apply made_dir.
  change (push (dir_of (profile_name added_profile)) "profile.json") with (added_dir ++ ["profile.json"%string]).
  assert (parent (added_dir ++ ["profile.json"%string]) = Some added_dir) as Hpar.
  { unfold parent. rewrite removelast_last. by destruct added_dir. }
  rewrite (execute_bind _ _ _ _ _ (execute_map_err _ _ _ _ _
    (execute_made _ _ _ Hpar (clear_same_files _ _ _ (made_files _ _) Hd)))).
  rewrite Hjson. cbn [map_err]. unfold mbind, files_bind, gives. cbn [goes_on].
  apply Forall_cons in Hw as [[Hn Hp] _]. by rewrite (execute_map_err _ _ _ _ _ (execute_fs_write _ json _ Hn Hp)).
Qed.

(** The three files are different ones. *)
Lemma added_files_differ :
  added_dir ++ ["profile.json"%string] ≠ added_dir ++ ["trust_store.json"%string] ∧
  added_dir ++ ["profile.json"%string] ≠ added_dir ++ ["trust_store.tmp"%string] ∧
  with_extension (added_dir ++ ["trust_store.json"%string]) "tmp" = added_dir ++ ["trust_store.tmp"%string].
Proof.
  split_and!; [intros E%app_inv_head; discriminate E..|].
  unfold with_extension. rewrite last_snoc, removelast_last, decide_False by discriminate. reflexivity.
Qed.

Lemma run_add_profile d :
  ready d → ∃ d', execute (add_profile username upstream_address upstream root cr password ts salt nonce) d =
      (d', Ok (profile_name added_profile)) ∧
    untouched added_files d d' ∧ disk_dirs d' = disk_dirs (prepared d) ∧
    disk_files d' !! (added_dir ++ ["profile.json"%string]) = Some json ∧
    disk_files d' !! (added_dir ++ ["trust_store.json"%string]) = Some store.
Proof.
  intros Hr. pose proof (prepared_spec d Hr) as (Hf & Hds & Hbase & Hw). pose proof Hr as (Hb & _ & _ & Hname).
  destruct added_files_differ as (Hne1 & Hne2 & Hext).
  unfold added_files in Hw. apply Forall_cons in Hw as [_ Hw]. apply Forall_cons in Hw as [Hwt Hw].
  apply Forall_cons in Hw as [Hws _].
  set (d1 := with_file (added_dir ++ ["profile.json"%string]) json (prepared d)).
  destruct (execute_save (added_dir ++ ["trust_store.json"%string]) (ts_export ts) store d1) as (d' & Hsave & Hon & Hst);
    [rewrite Hext; intros E%app_inv_head; discriminate E|exact Hstore|by rewrite Hext|done|].
  assert (disk_files d' !! (added_dir ++ ["profile.json"%string]) = Some json) as Hprofile.
  { destruct Hon as ([Hu _] & _). rewrite Hu; [cbn; by rewrite lookup_insert_eq|].
    rewrite Hext. intros [E|[E|E%elem_of_nil]%elem_of_cons]%elem_of_cons; done. }
  assert (disk_dirs d' = disk_dirs (prepared d)) as Hdirs by apply Hon.
  exists d'. split_and!; [|split|done..].
  - unfold add_profile. rewrite Hderive. unfold mbind at 1, files_bind at 1, gives at 1. cbn [goes_on map_err].
    rewrite Hexport. unfold mbind at 1, files_bind at 1, gives at 1. cbn [goes_on map_err].
    destruct (run_list_profiles d Hb) as (l & Hl & Hin). rewrite (execute_bind _ _ _ _ _ Hl).
    fold added_profile. rewrite bool_decide_false by (intros Hn; by apply Hin in Hn as [? _]).
    rewrite (execute_bind _ _ _ _ _ (run_save_profile d Hr)). fold d1. unfold profile_trust_store_path.
    rewrite (execute_bind _ _ d1 d1 (added_dir ++ ["trust_store.json"%string]))
      by (by rewrite (execute_bind _ _ _ _ _ (found_profile_dir _ d1 Hbase))).
    by rewrite (execute_bind _ _ _ _ _ Hsave).
  - intros q Hq. destruct Hon as ([Hu _] & _). rewrite Hu.
    + cbn. rewrite lookup_insert_ne, Hf; [done|]. intros <-. apply Hq. unfold added_files. set_solver.
    + rewrite Hext. unfold added_files in Hq. set_solver.
  - by rewrite Hdirs.
Qed.

(** Loading the snapshot of a new profile. *)
Lemma load_new_snapshot now :
  load_trust_store from_json to_json (Some store) (tx_open []) now = Ok (ts, store).
Proof. unfold load_trust_store. cbn. rewrite (from_to_json _ _ Hstore). cbn. rewrite Himport. cbn. by rewrite Hstore. Qed.

(** With a colon in its name a profile that is there is in nobody's way. *)
Lemma ready_again d :
  replace_colons (profile_name added_profile) ≠ profile_name added_profile → ready d →
  ready (execute (add_profile username upstream_address upstream root cr password ts salt nonce) d).1.
Proof.
  intros Hcolon Hr. destruct (run_add_profile d Hr) as (d' & -> & [Hu _] & Hds & _). cbn [fst].
  pose proof (prepared_spec d Hr) as (_ & _ & _ & Hw). destruct Hr as (Hb & Hd & Hfree & Hname).
  assert (∀ x f, (length x ≤ length added_dir)%nat → x ≠ added_dir ++ [f]) as Hshort.
  { intros x f Hl ->. rewrite length_app in Hl. cbn in Hl. lia. }
  assert (length base ≤ length added_dir)%nat as Hbl.
  { rewrite Hplain. unfold profiles_root. rewrite !length_app. lia. }
  assert (∀ q, (length q ≤ length added_dir)%nat → clear q d → clear q d') as Hclear.
  { intros q Hq Hc. unfold clear in *. rewrite Forall_forall in Hc |- *. intros x Hx. rewrite Hu; [by apply Hc|].
    apply above_shorter in Hx. unfold added_files.
    intros [E|[E|[E|E%elem_of_nil]%elem_of_cons]%elem_of_cons]%elem_of_cons; [..|done];
      (eapply Hshort; [|exact E]; lia). }
  split_and!; [by apply Hclear|by apply Hclear| |].
  - rewrite Hds. eapply Forall_impl; [exact Hw|]. by intros x [].
  - rewrite Hds. unfold prepared. intros Hin. apply Hname. revert Hin. unfold made at 1. case_decide.
    + unfold profiles_root. rewrite <-app_assoc. by rewrite made_base_below.
    + cbn [disk_dirs]. intros [Hin|Hin%elem_of_list_to_set]%elem_of_union.
      * unfold profiles_root in *. rewrite <-app_assoc in *. by rewrite made_base_below in Hin.
      * apply list_elem_of_fmap in Hin as (k & Hk & _). rewrite Hplain in Hk. destruct Hcolon.
        assert (length (take k (profiles_root ++ [replace_colons (profile_name added_profile)])) = S (length profiles_root)) as Hlen.
        { rewrite <-Hk, length_app. cbn. lia. }
        rewrite length_take, length_app in Hlen. cbn in Hlen. rewrite take_ge in Hk by (rewrite length_app; cbn; lia).
        apply app_inv_head in Hk. by injection Hk.
Qed.

(** A profile that was added opens. When nothing is in the way and no
    directory has the name of the profile, adding it succeeds, changes no file
    but the three of its directory, and with the password, within the validity
    of the server's certificate, the profile opens with the address, the
    credential, the root, the server's certificate and the trust store of the
    login. A directory has the name with every colon replaced: a profile whose
    address has a port is never found by its name, and one that is there is
    replaced. *)
Theorem added_profile_opens d now :
  ready d → verify_signature (as_unverified upstream) (as_certificate root) now = Ok upstream →
  let added := execute (add_profile username upstream_address upstream root cr password ts salt nonce) d in
  added.2 = Ok (profile_name added_profile) ∧ untouched added_files d added.1 ∧
  (execute (open_profile (profile_name added_profile) password (tx_open []) now) added.1).2 =
    Ok (mkOpenedProfile upstream_address cr root upstream ts).
Proof.
  intros Hr Hv. destruct (run_add_profile d Hr) as (d' & Hadd & Hu & Hds & Hp & Hs). rewrite Hadd. cbn [fst snd].
  split_and!; [done|done|]. pose proof (prepared_spec d Hr) as (_ & _ & Hbase & Hw). rewrite <-Hds in Hbase.
  unfold added_files in Hw. apply Forall_cons in Hw as [_ Hw]. apply Forall_cons in Hw as [_ Hw].
  apply Forall_cons in Hw as [Hw _]. unfold open_profile.
  rewrite (execute_bind _ _ d' d' (Some added_profile)).
  2: { unfold get_profile. rewrite (execute_bind _ _ _ _ _ (found_profile_dir _ d' Hbase)).
       change (push (dir_of (profile_name added_profile)) "profile.json") with (added_dir ++ ["profile.json"%string]).
       rewrite (execute_bind _ _ _ _ _ (execute_exists _ _ _ _ Hp)). rewrite (execute_bind _ _ _ _ _ (execute_read _ _ _ _ Hp)).
       by rewrite (from_to_json _ _ Hjson). }
  unfold mbind at 1, files_bind at 1, gives at 1. cbn [goes_on ok_or].
  change (local_credential_params added_profile) with (params_strong salt). rewrite Hderive.
  unfold mbind at 1, files_bind at 1, gives at 1. cbn [goes_on map_err]. unfold profile_trust_store_path.
  rewrite (execute_bind _ _ d' d' (added_dir ++ ["trust_store.json"%string]))
    by (by rewrite (execute_bind _ _ _ _ _ (found_profile_dir _ d' Hbase))).
  change (profile_device_credential added_profile) with encrypted. rewrite Hdecrypt.
  unfold mbind at 1, files_bind at 1, gives at 1. cbn [goes_on map_err].
  change (profile_root_certificate added_profile) with (as_unverified (as_certificate root)). rewrite Hroot.
  unfold mbind at 1, files_bind at 1, gives at 1. cbn [goes_on map_err].
  change (profile_upstream_certificate added_profile) with (as_unverified upstream). rewrite Hv.
  unfold mbind at 1, files_bind at 1, gives at 1. cbn [goes_on map_err].
  by rewrite (execute_bind _ _ _ _ _ (load_file _ _ _ _ _ _ _ Hs (untouched_same_dirs_writable _ _ _ Hw Hds) (load_new_snapshot now))).
Qed.
End added.
End located.
End client.

(** ** Worked example *)
#[local] Existing Instance toy_x509.
#[local] Existing Instance toy_crypto.
#[local] Existing Instance toy_rcgen.
#[local] Existing Instance toy_aead.
#[local] Existing Instance toy_argon.
#[local] Existing Instance postcard_keypair.

#[local] Instance profile_eq_dec : EqDecision Profile.
Proof. solve_decision. Defined.

Definition toy_base : Path := ["home"; "svalin"]%string.
Definition toy_profile_key : EncryptionKey := mkEncryptionKey ([1; 2; 3] ++ replicate 29 7).
Definition toy_profile_encrypted : EncryptedCredential :=
  match credential_export (replicate 12 9) root_credential toy_profile_key with
  | Ok e => e
  | _ => mkEncryptedCredential no_data toy_root
  end.
Definition toy_server_cert : Certificate := mkCertificate (toy_certificate Server 5 1 500).
Definition toy_added : Profile :=
  added_profile "anna" "svalin:1234" toy_server_cert toy_root_certificate (replicate 29 7) toy_profile_encrypted.
#[local] Instance toy_profile_json : Json Profile := json_two toy_added toy_added.
#[local] Instance toy_snapshot_json : Json ExportedStore := json_two (ts_export toy_store0) (ts_export toy_store1).
#[local] Instance toy_profile_block : Postcard Block := postcard_one toy_add_block.

Definition toy_add : files DiskError string :=
  add_profile (Ok toy_base) "anna" "svalin:1234" toy_server_cert toy_root_certificate root_credential [1; 2; 3] toy_store0
    (replicate 29 7) (replicate 12 9).

Lemma added_profile_opens_witness :
  let added := execute toy_add (mkFileTree ∅ {[ [] ]}) in
  added.2 = Ok "anna@svalin:1234"%string ∧
  (execute (open_profile (Ok toy_base) "anna@svalin:1234" [1; 2; 3] (tx_open []) 600) added.1).2 =
    Ok (mkOpenedProfile "svalin:1234" root_credential toy_root_certificate toy_server_cert toy_store0).
Proof.
  destruct (added_profile_opens (Postcard0 := postcard_keypair) (Postcard1 := toy_profile_block) (Json0 := toy_snapshot_json) (Json1 := toy_profile_json) (H0 := toy_aead) (H1 := toy_argon) (Ok toy_base) toy_base eq_refl "anna" "svalin:1234" toy_server_cert toy_root_certificate
    root_credential [1; 2; 3] (replicate 29 7) (replicate 12 9) toy_profile_key toy_profile_encrypted toy_store0 [1] [1]
    eq_refl eq_refl eq_refl eq_refl eq_refl eq_refl eq_refl eq_refl (JsonLaws0 := json_two_laws _ _)
    (JsonLaws1 := json_two_laws _ _) (mkFileTree ∅ {[ [] ]}) 600) as (Ha & _ & Ho); [|reflexivity|by split].
  split_and!.
  - repeat constructor.
  - repeat constructor.
  - repeat constructor; vm_compute; set_solver.
  - vm_compute. set_solver.
Defined.
