(* ===== verification/KeyPackageCommand.v ===== *)
(** * Asking the server for key packages
    ([svalin/src/shared/commands/get_key_packages.rs])

    The exchange behind [read_packages] of [KeyRetrievers]: the server takes
    the packages from its store and sends them, the caller looks whether
    everybody it asked for is among their owners. *)
From S2P Require Import Prelude.
From S2P Require Import External.
From S2P Require Import Spki.
From S2P Require Import Toy.
From S2P Require Import Certificate.
From S2P Require Import GroupId.
From S2P Require Import ServerStore.
From S2P Require Import Mls.
From S2P Require Import KeyRetrievers.
From S2P Require Import Transport.
From S2P Require Import Script.
From S2P Require Import TlsTransport.
From S2P Require Import Streaming.
From stdpp Require Import relations.
From stdpp Require Import options.

#[local] Open Scope Z_scope.

Section command.
Context `{X509, CR : Crypto, !Rcgen} `{Mls}.
Context `{!Postcard UnverifiedKeyPackage, !Postcard (option (list UnverifiedKeyPackage))}.
Context (describe : KeyPackageError → ExtError).

Inductive GetKeyPackagesDispatcherError :=
  | PackagesSessionRead (e : ObjectReaderError)
  | PackagesServerError
  | MissingKeyPackage (h : SpkiHash)
  | PackagesVerifyError (e : KeyPackageError)
  | ToManyKeyPackages.

Inductive PackagesHandleError :=
  | PackagesStore (e : StoreFailure)
  | PackagesWrite (e : ObjectWriterError).

(** The owners of the packages, as a set, and the two checks on it. *)
Definition check_packages (requested : list SpkiHash) (packages : list UnverifiedKeyPackage) :
    result GetKeyPackagesDispatcherError () :=
  received ← map_err PackagesVerifyError (collectM unverified_owner packages);
  let received_packages : gset SpkiHash := list_to_set received in
  if bool_decide (length packages < size received_packages)%nat then Err ToManyKeyPackages
  else
    match list_find (λ h, h ∉ received_packages) requested with
    | Some (_, requested) => Err (MissingKeyPackage requested)
    | None => Ok ()
    end.

(** [GetKeyPackages::dispatch]. *)
Definition key_packages_dispatch {S} (requested : list SpkiHash) :
    script S GetKeyPackagesDispatcherError (list UnverifiedKeyPackage) :=
  key_packages ← script_map_err PackagesSessionRead (read_object (U := option (list UnverifiedKeyPackage)));
  _ ← returns (match key_packages with Some packages => check_packages requested packages | None => Ok () end);
  returns (ok_or key_packages PackagesServerError).

(** [GetKeyPackagesHandler::handle]. *)
Definition key_packages_handle (request : list SpkiHash) :
    script KeyPackages.KeyPackageStore PackagesHandleError () :=
  taken ← perform (λ store, KeyPackages.get_key_packages (stored_owner describe) store request);
  match taken with
  | Ok key_packages =>
      _ ← script_map_err PackagesWrite (write_object (Some key_packages));
      mret ()
  | Err err =>
      _ ← script_map_err PackagesWrite (write_object (None : option (list UnverifiedKeyPackage)));
      returns (Err (PackagesStore err))
  | Panic => returns Panic
  end.

(** *** They meet *)

Lemma size_of_list (l : list SpkiHash) : (size (list_to_set l : gset SpkiHash) ≤ length l)%nat.
Proof.
  induction l as [|x l IH]; [done|]. cbn [list_to_set foldr length]. rewrite size_union_alt, size_singleton.
  assert (size ((list_to_set l : gset SpkiHash) ∖ {[x]}) ≤ size (list_to_set l : gset SpkiHash))%nat
    by (apply subseteq_size; set_solver).
  lia.
Qed.

(** Packages of exactly the requested owners pass the checks. *)
Lemma check_packages_of requested packages :
  Forall2 (λ kp e, stored_owner describe kp = Ok e) packages requested → check_packages requested packages = Ok ().
Proof.
  intros Hall. assert (collectM unverified_owner packages = Ok requested) as Hc.
  { apply collectM_Ok. eapply Forall2_impl; [exact Hall|]. intros kp e Hk%map_err_Ok. done. }
  unfold check_packages. rewrite Hc. cbn [map_err mbind result_bind].
  rewrite bool_decide_false.
  2: { rewrite (Forall2_length _ _ _ Hall). pose proof (size_of_list requested). lia. }
  rewrite (proj2 (list_find_None _ _)); [done|]. apply Forall_forall. intros h Hh Hn. apply Hn. by apply elem_of_list_to_set.
Qed.

Context `{!PostcardLaws (option (list UnverifiedKeyPackage)), TS : TlsStack} {S : Type}.
#[local] Set Default Proof Using "Type*".

Definition packages_sendable : Prop := ∀ x : option (list UnverifiedKeyPackage), ∃ b, sendable x b.

(** Key packages are fetched once, for everybody asked for. In every
    interleaving the exchange ends. Either the store has a package for
    everybody: then the caller has one package of each it asked for, in order,
    and the store has exactly that many of each owner's packages less. Or it has
    not: then the caller is told so and the store is as it was. *)
Theorem key_packages_meet requested store store' r (s : S) n k h :
  packages_sendable → KeyPackages.ids_ok (KeyPackages.rows store) →
  KeyPackages.get_key_packages (stored_owner describe) store requested = (store', r) → r ≠ Panic →
  match r with
  | Ok packages =>
      Forall2 (λ kp e, unverified_owner kp = Ok e) packages requested ∧
      (∀ owner, (KeyPackages.count_key_packages store' owner + length (filter (λ e, e = owner) requested))%nat =
                KeyPackages.count_key_packages store owner) ∧
      inevitable (mkPair (key_packages_dispatch requested) s n (key_packages_handle requested) store k [] [] h)
        (mkPair (Finished (Ok packages)) s n (Finished (Ok ())) store' k [] [] h)
  | Err e =>
      store' = store ∧
      inevitable (mkPair (key_packages_dispatch requested) s n (key_packages_handle requested) store k [] [] h)
        (mkPair (Finished (Err PackagesServerError)) s n (Finished (Err (PackagesStore e))) store k [] [] h)
  | Panic => True
  end.
Proof.
  intros Hsend Hids Hg Hnp. destruct (KeyPackages.packages_taken _ _ _ _ _ Hids Hg) as [Herr Hok].
  destruct r as [packages|e|]; [| |done].
  - destruct (Hok packages eq_refl) as [Hall Hcount]. destruct (Hsend (Some packages)) as [b Hb]. split_and!; [|done|].
    { eapply Forall2_impl; [exact Hall|]. by intros kp e Hk%map_err_Ok. }
    apply rtc_inevitable; [|apply finished_nf]. unfold key_packages_dispatch, key_packages_handle.
    etransitivity; [by eapply server_performs|]. cbn beta iota. pair_does server_writes. pair_does client_reads.
    rewrite (check_packages_of _ _ Hall). apply rtc_refl.
  - pose proof (Herr e eq_refl) as ->. split; [done|]. destruct (Hsend None) as [b Hb].
    apply rtc_inevitable; [|apply finished_nf]. unfold key_packages_dispatch, key_packages_handle.
    etransitivity; [by eapply server_performs|]. cbn beta iota. pair_does server_writes. pair_does client_reads. apply rtc_refl.
Qed.
End command.

(** ** Worked example *)
#[local] Existing Instance toy_x509.
#[local] Existing Instance toy_crypto.
#[local] Existing Instance toy_rcgen.
#[local] Existing Instance toy_mls.
#[local] Existing Instance toy_tls.
#[local] Existing Instance toy_postcard.

#[local] Instance package_eq_dec : EqDecision UnverifiedKeyPackage.
Proof. intros [x] [y]. destruct (decide ((x : SpkiHash * list Z) = y)); [left; congruence|right; congruence]. Defined.
#[local] Program Instance package_countable : Countable UnverifiedKeyPackage :=
  inj_countable' (λ p, package_in p : SpkiHash * list Z) (λ x, mkUnverifiedKeyPackage (x : KeyPackageIn)) _.
Next Obligation. by intros []. Qed.

Definition toy_stored (c : Certificate) : list Z :=
  match to_stdvec (toy_package c) with Ok b => b | _ => [] end.
Definition toy_package_store : KeyPackages.KeyPackageStore :=
  KeyPackages.mkKeyPackageStore
    [KeyPackages.mkRow "a" (as_slice (spki_hash toy_user)) (toy_stored (mkCertificate toy_user));
     KeyPackages.mkRow "b" (as_slice (spki_hash toy_agent)) (toy_stored (mkCertificate toy_agent))].
Definition toy_left_over : KeyPackages.KeyPackageStore :=
  KeyPackages.mkKeyPackageStore
    [KeyPackages.mkRow "a" (as_slice (spki_hash toy_user)) (toy_stored (mkCertificate toy_user))].

Lemma key_packages_meet_witness :
  inevitable
    (mkPair (key_packages_dispatch [spki_hash toy_agent]) () 0
       (key_packages_handle toy_describe [spki_hash toy_agent]) toy_package_store 0 [] [] 0)
    (mkPair (Finished (Ok [toy_package (mkCertificate toy_agent)])) () 0 (Finished (Ok ())) toy_left_over 0 [] [] 0).
Proof.
  destruct (key_packages_meet toy_describe (PostcardLaws0 := toy_postcard_laws _) (TS := toy_tls)
    [spki_hash toy_agent] toy_package_store toy_left_over (Ok [toy_package (mkCertificate toy_agent)]) () 0 0 0) as (_ & _ & Hi).
  - intros x. by eexists.
  - repeat constructor; set_solver.
  - reflexivity.
  - done.
  - exact Hi.
Defined.
