(* ===== verification/TcpForward.v ===== *)
(** * A connection through a tunnel

    What one accepted TCP connection becomes: [TcpForwardDispatcher::dispatch]
    on the client ([tunnel_manager/tcp/dispatcher.rs]) and
    [TcpForwardHandler::handle] on the agent ([tunnel_manager/tcp/handler.rs]).
    The client waits for the agent's answer and then copies between the
    accepted socket and the session; the agent connects to the target, answers
    and copies between its socket and the session. [copy_bidirectional] is two
    copies of one direction, each with a buffer of its own, that end when
    their source does and shut their destination down.

    A direction is the three streams between the two programs at its ends, with
    the copies of the two sides in between. Streams are not bounded here:
    that a full one holds its writer up is not modelled. *)
From S2P Require Import Prelude.
From S2P Require Import External.
From S2P Require Import Transport.
From stdpp Require Import options.

(** What was written to a stream and not read yet; whether its writer has
    shut it down. *)
Record Pipe := mkPipe { waiting : list Z; ended : bool }.

(** One direction of a [copy_bidirectional]. *)
Record Copy := mkCopy { copy_buffer : list Z; copy_done : bool }.

(** [sent] is all that the program at the start ever wrote, [got] all that the
    one at the end ever read. *)
Record Direction := mkDirection {
  sent : list Z;
  first : Pipe;
  copy1 : Copy;
  middle : Pipe;
  copy2 : Copy;
  final : Pipe;
  got : list Z;
}.

Inductive TcpForwardError := Generic.

Inductive ForwardFailure :=
  | ReadAnswerError (e : ObjectReaderError)
  | ForwardError (e : TcpForwardError)
  | WriteAnswerError (e : ObjectWriterError)
  | ConnectFailed (e : ExtError)
  | CopyError (e : ExtError)
  | AnswerPanic.

Inductive Side :=
  | Opening
  | Copying
  | Returned (r : result ForwardFailure ()).

(** [upward] goes from the program that connected to the tunnel to the target,
    and is copied by the client first; [downward] goes back, and is copied by
    the agent first. [cut] is ghost state: a side was told to stop, or failed. *)
Record Forwarding := mkForwarding {
  upward : Direction;
  downward : Direction;
  client_side : Side;
  agent_side : Side;
  cut : bool;
}.

Definition pipe_new : Pipe := mkPipe [] false.
Definition direction_new : Direction := mkDirection [] pipe_new (mkCopy [] false) pipe_new (mkCopy [] false) pipe_new [].
Definition forwarding_new : Forwarding := mkForwarding direction_new direction_new Opening Opening false.

(** ** One direction *)
Inductive Which := First | Second.

(** The program calls [copy_bidirectional] of tokio. The pieces below are what
    its documentation says of it: each direction has a buffer of this size. *)
Definition buffer_size : Z := 2 ^ 13.

Definition pipe_push (p : Pipe) (b : list Z) : Pipe := mkPipe (waiting p ++ b) (ended p).
Definition pipe_drop (p : Pipe) (n : nat) : Pipe := mkPipe (drop n (waiting p)) (ended p).
Definition pipe_end (p : Pipe) : Pipe := mkPipe (waiting p) true.

(** Bytes are read into the buffer, ... *)
Definition copy_read (n : nat) (src : Pipe) (c : Copy) : option (Pipe * Copy) :=
  if negb (copy_done c) && (0 <? n)%nat && (n <=? length (waiting src))%nat &&
     (Z.of_nat (length (copy_buffer c) + n) <=? buffer_size)
  then Some (pipe_drop src n, mkCopy (copy_buffer c ++ take n (waiting src)) false)
  else None.

(** ... written from it, ... *)
Definition copy_write (n : nat) (c : Copy) (dst : Pipe) : option (Copy * Pipe) :=
  if negb (copy_done c) && (0 <? n)%nat && (n <=? length (copy_buffer c))%nat
  then Some (mkCopy (drop n (copy_buffer c)) false, pipe_push dst (take n (copy_buffer c)))
  else None.

(** ... and at the end of the source, with nothing left, the destination is shut down. *)
Definition copy_end (src : Pipe) (c : Copy) (dst : Pipe) : option (Copy * Pipe) :=
  match waiting src, copy_buffer c with
  | [], [] => if ended src && negb (copy_done c) then Some (mkCopy [] true, pipe_end dst) else None
  | _, _ => None
  end.

Definition direction_read (n : nat) (k : Which) (d : Direction) : option Direction :=
  match k with
  | First => '(p, c) ← copy_read n (first d) (copy1 d); Some (mkDirection (sent d) p c (middle d) (copy2 d) (final d) (got d))
  | Second => '(p, c) ← copy_read n (middle d) (copy2 d); Some (mkDirection (sent d) (first d) (copy1 d) p c (final d) (got d))
  end.

Definition direction_write (n : nat) (k : Which) (d : Direction) : option Direction :=
  match k with
  | First => '(c, p) ← copy_write n (copy1 d) (middle d); Some (mkDirection (sent d) (first d) c p (copy2 d) (final d) (got d))
  | Second => '(c, p) ← copy_write n (copy2 d) (final d); Some (mkDirection (sent d) (first d) (copy1 d) (middle d) c p (got d))
  end.

Definition direction_end (k : Which) (d : Direction) : option Direction :=
  match k with
  | First => '(c, p) ← copy_end (first d) (copy1 d) (middle d); Some (mkDirection (sent d) (first d) c p (copy2 d) (final d) (got d))
  | Second => '(c, p) ← copy_end (middle d) (copy2 d) (final d); Some (mkDirection (sent d) (first d) (copy1 d) (middle d) c p (got d))
  end.

(** The programs at the ends. *)
Definition direction_send (b : list Z) (d : Direction) : option Direction :=
  if ended (first d) then None
  else Some (mkDirection (sent d ++ b) (pipe_push (first d) b) (copy1 d) (middle d) (copy2 d) (final d) (got d)).

Definition direction_close (d : Direction) : option Direction :=
  Some (mkDirection (sent d) (pipe_end (first d)) (copy1 d) (middle d) (copy2 d) (final d) (got d)).

Definition direction_receive (n : nat) (d : Direction) : option Direction :=
  if (n <=? length (waiting (final d)))%nat
  then Some (mkDirection (sent d) (first d) (copy1 d) (middle d) (copy2 d) (pipe_drop (final d) n) (got d ++ take n (waiting (final d))))
  else None.

Definition end_middle (d : Direction) : Direction :=
  mkDirection (sent d) (first d) (copy1 d) (pipe_end (middle d)) (copy2 d) (final d) (got d).
Definition end_final (d : Direction) : Direction :=
  mkDirection (sent d) (first d) (copy1 d) (middle d) (copy2 d) (pipe_end (final d)) (got d).
Definition push_middle (b : list Z) (d : Direction) : Direction :=
  mkDirection (sent d) (first d) (copy1 d) (pipe_push (middle d) b) (copy2 d) (final d) (got d).
Definition set_middle (b : list Z) (d : Direction) : Direction :=
  mkDirection (sent d) (first d) (copy1 d) (mkPipe b (ended (middle d))) (copy2 d) (final d) (got d).

(** ** Both sides *)
Section forwarding.
Context `{!Postcard (result TcpForwardError ())}.

Inductive Way := Up | Down.

Definition along (w : Way) (f : Forwarding) : Direction := match w with Up => upward f | Down => downward f end.
Definition set_along (w : Way) (f : Forwarding) (d : Direction) : Forwarding :=
  match w with
  | Up => mkForwarding d (downward f) (client_side f) (agent_side f) (cut f)
  | Down => mkForwarding (upward f) d (client_side f) (agent_side f) (cut f)
  end.

(** Whose copy it is. *)
Definition owner (w : Way) (k : Which) (f : Forwarding) : Side :=
  match w, k with
  | Up, First | Down, Second => client_side f
  | Up, Second | Down, First => agent_side f
  end.

Inductive ForwardEvent :=
  | Sends (w : Way) (b : list Z)
  | HangsUp (w : Way)
  | Receives (w : Way) (n : nat)
  | Connects (r : ExtError + ())
  | Answers
  | CopyReads (w : Way) (k : Which) (n : nat)
  | CopyWrites (w : Way) (k : Which) (n : nat)
  | CopyEnds (w : Way) (k : Which)
  | ClientReturns
  | AgentReturns
  | ClientStops
  | AgentStops
  | ClientFails (e : ExtError)
  | AgentFails (e : ExtError).

(** The dispatcher has returned: its socket is dropped and the session shut
    down. *)
Definition client_leaves (f : Forwarding) (r : result ForwardFailure ()) (is_cut : bool) : Forwarding :=
  mkForwarding (end_middle (upward f)) (end_final (downward f)) (Returned r) (agent_side f) (cut f || is_cut).

(** The handler shuts both down. *)
Definition agent_leaves (f : Forwarding) (r : result ForwardFailure ()) (is_cut : bool) : Forwarding :=
  mkForwarding (end_final (upward f)) (end_middle (downward f)) (client_side f) (Returned r) (cut f || is_cut).

(** The handler up to copying: connect, and answer. *)
Definition connects (f : Forwarding) (stream : ExtError + ()) : option Forwarding :=
  match agent_side f with
  | Opening =>
      let answer : result TcpForwardError () := match stream with inr _ => Ok () | inl _ => Err Generic end in
      match write_object answer (mkTransport [] [] true) with
      | (_, Err e) => Some (agent_leaves f (Err (WriteAnswerError e)) true)
      | (_, Panic) => Some (agent_leaves f (Err AnswerPanic) true)
      | (t, Ok _) =>
          let f := mkForwarding (upward f) (push_middle (written t) (downward f)) (client_side f) (agent_side f) (cut f) in
          match stream with
          | inr _ => Some (mkForwarding (upward f) (downward f) (client_side f) Copying (cut f))
          | inl e => Some (agent_leaves f (Err (ConnectFailed e)) true)
          end
      end
  | _ => None
  end.

(** An object that has not arrived completely. *)
Definition incomplete (e : ObjectReaderError) : bool :=
  match e with
  | ChunkReadError (LengthReadError UnexpectedEof) | ChunkReadError (ExtendedLengthReadError UnexpectedEof)
  | ChunkReadError (BodyReadError UnexpectedEof) => true
  | _ => false
  end.

(** The dispatcher up to copying: it reads the answer. *)
Definition reads_answer (f : Forwarding) : option Forwarding :=
  match client_side f with
  | Opening =>
      match read_object (U := result TcpForwardError ()) (mkTransport (waiting (middle (downward f))) [] true) with
      | (t, Ok (Ok _)) =>
          Some (mkForwarding (upward f) (set_middle (incoming t) (downward f)) Copying (agent_side f) (cut f))
      | (t, Ok (Err e)) => Some (client_leaves f (Err (ForwardError e)) true)
      | (t, Ok Panic) => None
      | (t, Err e) =>
          if incomplete e && negb (ended (middle (downward f))) then None
          else Some (client_leaves f (Err (ReadAnswerError e)) true)
      | (t, Panic) => Some (client_leaves f (Err AnswerPanic) true)
      end
  | _ => None
  end.

Definition copying_event (f : Forwarding) (w : Way) (k : Which) (step : Direction → option Direction) : option Forwarding :=
  match owner w k f with
  | Copying => set_along w f <$> step (along w f)
  | _ => None
  end.

Definition forward_event (f : Forwarding) (e : ForwardEvent) : option Forwarding :=
  match e with
  | Sends w b => set_along w f <$> direction_send b (along w f)
  | HangsUp w => set_along w f <$> direction_close (along w f)
  | Receives w n => set_along w f <$> direction_receive n (along w f)
  | Connects r => connects f r
  | Answers => reads_answer f
  | CopyReads w k n => copying_event f w k (direction_read n k)
  | CopyWrites w k n => copying_event f w k (direction_write n k)
  | CopyEnds w k => copying_event f w k (direction_end k)
  | ClientReturns =>
      match client_side f with
      | Copying => if copy_done (copy1 (upward f)) && copy_done (copy2 (downward f)) then Some (client_leaves f (Ok ()) false) else None
      | _ => None
      end
  | AgentReturns =>
      match agent_side f with
      | Copying => if copy_done (copy2 (upward f)) && copy_done (copy1 (downward f)) then Some (agent_leaves f (Ok ()) false) else None
      | _ => None
      end
  | ClientStops => match client_side f with Copying => Some (client_leaves f (Ok ()) true) | _ => None end
  | AgentStops => match agent_side f with Copying => Some (agent_leaves f (Ok ()) true) | _ => None end
  | ClientFails e => match client_side f with Copying => Some (client_leaves f (Err (CopyError e)) true) | _ => None end
  | AgentFails e => match agent_side f with Copying => Some (agent_leaves f (Err (CopyError e)) true) | _ => None end
  end.

Fixpoint forward_run (f : Forwarding) (es : list ForwardEvent) : option Forwarding :=
  match es with
  | [] => Some f
  | e :: es => f' ← forward_event f e; forward_run f' es
  end.

(** ** What is on its way *)

(** [pre] is what waits in the middle before the bytes of the direction. *)
Definition carries (pre : list Z) (d : Direction) : Prop :=
  (∃ rest, waiting (middle d) = pre ++ rest ∧
     got d ++ waiting (final d) ++ copy_buffer (copy2 d) ++ rest ++ copy_buffer (copy1 d) ++ waiting (first d) = sent d) ∧
  (pre = [] ∨ got d = [] ∧ waiting (final d) = [] ∧ copy_buffer (copy2 d) = []).

(** The end of a stream is passed on behind its last byte. *)
Record ends_follow (d : Direction) : Prop := {
  ends_done1 : copy_done (copy1 d) = true → copy_buffer (copy1 d) = [] ∧ waiting (first d) = [] ∧ ended (first d) = true;
  ends_middle : ended (middle d) = copy_done (copy1 d);
  ends_done2 : copy_done (copy2 d) = true → copy_buffer (copy2 d) = [] ∧ waiting (middle d) = [] ∧ ended (middle d) = true;
  ends_final : ended (final d) = copy_done (copy2 d);
}.

(** How much is to be done, and what every step of a copy is. *)
Definition direction_work (d : Direction) : nat :=
  4 * length (waiting (first d)) + 3 * length (copy_buffer (copy1 d)) +
  2 * length (waiting (middle d)) + length (copy_buffer (copy2 d)) +
  Nat.b2n (negb (copy_done (copy1 d))) + Nat.b2n (negb (copy_done (copy2 d))).

Definition pre_unread (k : Which) (pre : list Z) : Prop := match k with First => True | Second => pre = [] end.

(** A copy leaves the rest alone. *)
Definition other_kept (k : Which) (d d' : Direction) : Prop :=
  match k with
  | First => copy2 d' = copy2 d ∧ final d' = final d ∧ got d' = got d
  | Second => copy1 d' = copy1 d ∧ first d' = first d ∧ got d' = got d
  end.

Definition advances (k : Which) (pre : list Z) (d d' : Direction) : Prop :=
  (carries pre d → carries pre d') ∧ (ends_follow d → ends_follow d') ∧ other_kept k d d' ∧
  sent d' = sent d ∧ ended (first d') = ended (first d) ∧ (direction_work d' < direction_work d)%nat.

Lemma take_drop_app (n : nat) (l k : list Z) : take n l ++ drop n l ++ k = l ++ k.
Proof. by rewrite app_assoc, take_drop. Qed.

Lemma copy_read_Some n src c src' c' :
  copy_read n src c = Some (src', c') →
  copy_done c = false ∧ copy_done c' = false ∧ ended src' = ended src ∧ waiting src ≠ [] ∧
  (0 < n)%nat ∧ (n <= length (waiting src))%nat ∧
  waiting src' = drop n (waiting src) ∧ copy_buffer c' = copy_buffer c ++ take n (waiting src).
Proof.
  unfold copy_read. intros E. case_match eqn:G; [|done]. injection E as <- <-. bool_hyps.
  rewrite ?Z.leb_le in *; rewrite Nat.ltb_lt, Nat.leb_le in *. repeat split; try done. intros Hnil; rewrite Hnil in *; cbn in *; lia.
Qed.

Lemma copy_write_Some n c dst c' dst' :
  copy_write n c dst = Some (c', dst') →
  copy_done c = false ∧ copy_done c' = false ∧ ended dst' = ended dst ∧ copy_buffer c ≠ [] ∧
  (0 < n)%nat ∧ (n <= length (copy_buffer c))%nat ∧
  copy_buffer c' = drop n (copy_buffer c) ∧ waiting dst' = waiting dst ++ take n (copy_buffer c).
Proof.
  unfold copy_write. intros E. case_match eqn:G; [|done]. injection E as <- <-. bool_hyps.
  rewrite ?Z.leb_le in *; rewrite Nat.ltb_lt, Nat.leb_le in *. repeat split; try done. intros Hnil; rewrite Hnil in *; cbn in *; lia.
Qed.

Lemma copy_end_Some src c dst c' dst' :
  copy_end src c dst = Some (c', dst') →
  waiting src = [] ∧ ended src = true ∧ copy_buffer c = [] ∧ copy_done c = false ∧
  copy_buffer c' = [] ∧ copy_done c' = true ∧ waiting dst' = waiting dst ∧ ended dst' = true.
Proof.
  unfold copy_end. intros E. repeat case_match; try done. bool_hyps. injection E as <- <-. done.
Qed.

Ltac copied := repeat match goal with
  | E : copy_read _ _ _ = Some _ |- _ => apply copy_read_Some in E; destruct E as (? & ? & ? & ? & ? & ? & ? & ?)
  | E : copy_write _ _ _ = Some _ |- _ => apply copy_write_Some in E; destruct E as (? & ? & ? & ? & ? & ? & ? & ?)
  | E : copy_end _ _ _ = Some _ |- _ => apply copy_end_Some in E; destruct E as (? & ? & ? & ? & ? & ? & ? & ?)
  end.
Ltac in_pieces d := destruct d as [? [? ?] [? ?] [? ?] [? ?] [? ?] ?].

Lemma direction_read_ok n k d d' pre :
  direction_read n k d = Some d' → pre_unread k pre → advances k pre d d'.
Proof.
  intros Hs Hk. destruct k; cbn in Hs; apply bind_Some in Hs as ([p c] & E & [= <-]);
    in_pieces d; destruct p, c; copied; cbn in *; subst; unfold advances, other_kept, carries, direction_work; cbn;
    (split; [|split; [intros []; constructor; cbn in *; naive_solver|repeat split; rewrite length_drop, length_app, length_take; lia]]).
  - intros [(rest & Hm & Hb) Hp]. split; [|exact Hp]. exists rest. split; [done|].
    by rewrite <-app_assoc, take_drop.
  - intros [(rest & Hm & Hb) _]. split; [|by left]. cbn in Hm. rewrite Hm in *.
    eexists. split; [done|]. by rewrite <-Hb, <-app_assoc, take_drop_app.
Qed.

Lemma direction_write_ok n k d d' pre :
  direction_write n k d = Some d' → advances k pre d d'.
Proof.
  intros Hs. destruct k; cbn in Hs; apply bind_Some in Hs as ([c p] & E & [= <-]);
    in_pieces d; destruct p, c; copied; cbn in *; subst; unfold advances, other_kept, carries, direction_work; cbn;
    (split; [|split; [intros []; constructor; cbn in *; naive_solver|repeat split; rewrite length_drop, ?length_app, ?length_take; lia]]).
  - intros [(rest & -> & Hb) Hp]. split; [|exact Hp]. eexists. split; [by rewrite <-app_assoc|].
    by rewrite <-Hb, <-!app_assoc, take_drop_app.
  - intros [(rest & -> & Hb) [->|(_ & _ & ->)]]; [|done]. split; [|by left]. exists rest. split; [done|].
    by rewrite <-Hb, <-!app_assoc, take_drop_app.
Qed.

Lemma direction_end_ok k d d' pre : direction_end k d = Some d' → advances k pre d d'.
Proof.
  intros Hs. destruct k; cbn in Hs; apply bind_Some in Hs as ([c p] & E & [= <-]);
    in_pieces d; destruct p, c; copied; cbn in *; subst; unfold advances, other_kept, carries, direction_work; cbn;
    (split; [done|split; [intros []; constructor; cbn in *; naive_solver|repeat split; lia]]).
Qed.
(** The programs at the ends keep both, too. *)
Lemma direction_send_ok b d d' pre :
  direction_send b d = Some d' → (carries pre d → carries pre d') ∧ (ends_follow d → ends_follow d').
Proof.
  unfold direction_send. case_match eqn:E; [done|]. intros [= <-]. in_pieces d. unfold carries. cbn in *. split.
  - intros [(rest & -> & <-) Hp]. split; [|done]. exists rest. split; [done|]. by rewrite <-!app_assoc.
  - intros []; constructor; cbn in *; naive_solver.
Qed.

Lemma direction_close_ok d d' pre :
  direction_close d = Some d' → (carries pre d → carries pre d') ∧ (ends_follow d → ends_follow d').
Proof.
  intros [= <-]. in_pieces d. unfold carries. cbn in *. split; [done|].
  intros []; constructor; cbn in *; naive_solver.
Qed.

Lemma direction_receive_ok n d d' pre :
  direction_receive n d = Some d' →
  (carries pre d → carries pre d') ∧ (ends_follow d → ends_follow d') ∧
  copy1 d' = copy1 d ∧ copy2 d' = copy2 d ∧ middle d' = middle d ∧
  (waiting (final d) = [] → got d = [] → waiting (final d') = [] ∧ got d' = []).
Proof.
  unfold direction_receive. case_match eqn:E; [|done]. intros [= <-]. in_pieces d. unfold carries. cbn in *.
  split; [|split; [intros []; constructor; cbn in *; naive_solver|]].
  - intros [(rest & -> & <-) Hp]. split.
    + exists rest. split; [done|]. by rewrite <-!app_assoc, take_drop_app.
    + destruct Hp as [->|(-> & -> & ->)]; [by left|right]. by rewrite take_nil, drop_nil.
  - repeat split; subst; by rewrite ?take_nil, ?drop_nil.
Qed.

(** ** The invariant *)
Context `{!PostcardLaws (result TcpForwardError ())}.
Context (ok_wire err_wire : list Z).
Context (Hok : wire_of (Ok () : result TcpForwardError ()) ok_wire).
Context (Herr : wire_of (Err Generic : result TcpForwardError ()) err_wire).

(** What the client finds before the bytes of the target. *)
Definition answer_before (client agent : Side) (is_cut : bool) (pre : list Z) : Prop :=
  match client with
  | Opening =>
      match agent with
      | Opening => pre = []
      | Copying => pre = ok_wire
      | Returned _ => pre = ok_wire ∨ is_cut = true ∧ pre = err_wire
      end
  | Copying => pre = []
  | Returned _ => is_cut = false → pre = []
  end.

Definition client_ok (f : Forwarding) : Prop :=
  match client_side f with
  | Opening =>
      copy1 (upward f) = mkCopy [] false ∧ copy2 (downward f) = mkCopy [] false ∧
      waiting (final (downward f)) = [] ∧ got (downward f) = []
  | Copying => True
  | Returned r =>
      cut f = false → r = Ok () ∧ copy_done (copy1 (upward f)) = true ∧ copy_done (copy2 (downward f)) = true
  end.

Definition agent_ok (f : Forwarding) : Prop :=
  match agent_side f with
  | Opening => client_side f = Opening ∧ copy1 (downward f) = mkCopy [] false ∧ middle (downward f) = pipe_new
  | Copying => True
  | Returned r =>
      cut f = false → r = Ok () ∧ copy_done (copy2 (upward f)) = true ∧ copy_done (copy1 (downward f)) = true
  end.

Definition forward_ok (f : Forwarding) : Prop :=
  (∃ pre, answer_before (client_side f) (agent_side f) (cut f) pre ∧ carries pre (downward f)) ∧
  carries [] (upward f) ∧ client_ok f ∧ agent_ok f ∧
  (cut f = false → ends_follow (upward f) ∧ ends_follow (downward f)).

Lemma copying_keeps f f' w k step :
  (∀ d d' pre, step d = Some d' → pre_unread k pre → advances k pre d d') →
  copying_event f w k step = Some f' → forward_ok f → forward_ok f'.
Proof.
  unfold copying_event. intros Hstep E ((pre & Ha & Hd) & Hu & Hc & Hg & He). case_match eqn:Ho; try done.
  apply fmap_Some in E as (d' & Es & ->).
  destruct f as [u d c g x]. unfold forward_ok, client_ok, agent_ok in *. destruct w; cbn in *.
  - destruct (Hstep _ _ [] Es) as (Hk & Hk' & Hother & _); [by destruct k|].
    split; [by exists pre|]. split; [by apply Hk|]. clear Ha Hd Hk Es.
    destruct k; cbn in Ho, Hother; destruct Hother as (Hcopy & _ & _); rewrite Ho in *.
    + split; [done|]. rewrite Hcopy. split; [done|]. naive_solver.
    + rewrite Hcopy. split; [done|]. split; [done|]. naive_solver.
  - destruct (Hstep _ _ pre Es) as (Hk & Hk' & Hother & _); [destruct k; [done|]; cbn in Ho; by rewrite Ho in Ha|].
    split; [exists pre; split; [done|by apply Hk]|]. split; [done|]. clear Ha Hd Hk Es.
    destruct k; cbn in Ho, Hother; destruct Hother as (Hcopy & Hfinal & Hgot); rewrite Ho in *.
    + rewrite Hcopy, Hfinal, Hgot. split; [done|]. split; [done|]. naive_solver.
    + rewrite Hcopy. split; [done|]. split; [|naive_solver]. by destruct g; [destruct Hg|..].
Qed.

Lemma wire_nonempty {T} `{!Postcard T} (x : T) wire : wire_of x wire → wire ≠ [].
Proof.
  intros (e & _ & _ & ->). unfold encode_chunk, chunk_header. case_match; [done|].
  by rewrite to_be_bytes4.
Qed.

(** Ending what was ended already. *)
Lemma ends_end_middle d : copy_done (copy1 d) = true → ends_follow d → ends_follow (end_middle d).
Proof. intros Hd []. constructor; cbn; naive_solver. Qed.
Lemma ends_end_final d : copy_done (copy2 d) = true → ends_follow d → ends_follow (end_final d).
Proof. intros Hd []. constructor; cbn; naive_solver. Qed.

Lemma client_leaves_ok f r is_cut :
  agent_side f ≠ Opening →
  (cut f || is_cut = false →
     client_side f = Copying ∧ r = Ok () ∧ copy_done (copy1 (upward f)) = true ∧ copy_done (copy2 (downward f)) = true) →
  forward_ok f → forward_ok (client_leaves f r is_cut).
Proof.
  intros Hopen Hr ((pre & Ha & Hd) & Hu & Hc & Hg & He). destruct f as [u d c g x].
  unfold forward_ok, client_ok, agent_ok in *. cbn in *.
  split; [exists pre; split; [|done]; intros Hcut; by destruct (Hr Hcut) as (-> & _)|].
  split; [done|]. split; [intros Hcut; by destruct (Hr Hcut) as (_ & Hrest)|]. split.
  - destruct g; [done|done|]. intros [Hx _]%orb_false_iff. by apply Hg.
  - intros Hcut. destruct (Hr Hcut) as (_ & _ & Hup & Hdown). apply orb_false_iff in Hcut as [Hx _].
    destruct (He Hx). split; [by apply ends_end_middle|by apply ends_end_final].
Qed.

Lemma agent_leaves_ok f r is_cut :
  agent_side f = Copying →
  (cut f || is_cut = false →
     r = Ok () ∧ copy_done (copy2 (upward f)) = true ∧ copy_done (copy1 (downward f)) = true) →
  forward_ok f → forward_ok (agent_leaves f r is_cut).
Proof.
  intros Hcopying Hr ((pre & Ha & Hd) & Hu & Hc & Hg & He). destruct f as [u d c g x].
  unfold forward_ok, client_ok, agent_ok in *. cbn in *. subst g.
  split; [exists pre; split; [|done]; destruct c; cbn in *; [by left|done|]; intros [? _]%orb_false_iff; by apply Ha|].
  split; [done|]. split; [|split].
  - destruct c; [done|done|]. intros [Hx _]%orb_false_iff. by apply Hc.
  - intros Hcut. by apply Hr.
  - intros Hcut. destruct (Hr Hcut) as (_ & Hup & Hdown). apply orb_false_iff in Hcut as [Hx _].
    destruct (He Hx). split; [by apply ends_end_final|by apply ends_end_middle].
Qed.

Lemma connects_ok f r f' : connects f r = Some f' → forward_ok f → forward_ok f'.
Proof using Type*.
  unfold connects. intros E ((pre & Ha & Hd) & Hu & Hc & Hg & He).
  destruct f as [u d c g x]. unfold client_ok, agent_ok in *. cbn in *. destruct g; try done.
  destruct Hg as (-> & Hcopy1 & Hmid). cbn in *. subst pre. destruct Hc as (Hcopyu & Hcopy2 & Hfin & Hgot).
  assert (∀ wire, wire ≠ [] → carries wire (push_middle wire d)) as Hpush.
  { intros wire Hw. destruct Hd as [(rest & Hm & Hb) _]. rewrite Hmid in Hm. cbn in Hm. subst rest.
    unfold carries. cbn. rewrite Hmid. cbn. split; [exists []; by rewrite app_nil_r|right]. by rewrite Hcopy2. }
  assert (x = false → ∀ wire, ends_follow (push_middle wire d)) as Hends.
  { intros Hx wire. destruct (He Hx) as [_ []]. constructor; cbn; rewrite ?Hcopy1, ?Hcopy2 in *; done. }
  destruct r as [e|[]]; cbn in E; cycle 1.
  - rewrite (write_object_ok _ _ _ Hok) in E by done. injection E as <-.
    split; [exists ok_wire; split; [done|apply Hpush; by eapply wire_nonempty]|].
    split; [done|]. split; [by unfold client_ok|]. split; [done|]. intros Hx. split; [by apply He|by apply Hends].
  - rewrite (write_object_ok _ _ _ Herr) in E by done. injection E as <-.
    split; [exists err_wire; split; [cbn; right; by rewrite orb_true_r|apply Hpush; by eapply wire_nonempty]|].
    split; [done|]. split; [by unfold client_ok|].
    split; [intros Hx; cbn in Hx; by rewrite orb_true_r in Hx|]. cbn. by rewrite orb_true_r.
Qed.

Lemma set_middle_ok pre rest d :
  waiting (middle d) = pre ++ rest → carries pre d → carries [] (set_middle rest d).
Proof.
  intros Hm [(rest' & Hm' & Hb) _]. rewrite Hm in Hm'. apply app_inv_head in Hm' as <-.
  split; [by exists rest|by left].
Qed.

(** What the answer does, by what it is. *)
Lemma answers_cases f f' :
  reads_answer f = Some f' → forward_ok f →
  client_side f = Opening ∧ agent_side f ≠ Opening ∧
  ((∃ rest, waiting (middle (downward f)) = ok_wire ++ rest ∧ carries ok_wire (downward f) ∧
      f' = mkForwarding (upward f) (set_middle rest (downward f)) Copying (agent_side f) (cut f)) ∨
   (cut f = true ∧ f' = client_leaves f (Err (ForwardError Generic)) true)).
Proof using Type*.
  unfold reads_answer. intros E ((pre & Ha & Hd) & _ & Hc & Hg & _). pose proof Hd as [(rest & Hm & _) _]. case_match eqn:Hside; try done.
  split; [done|]. unfold agent_ok in Hg.
  assert (waiting (middle (downward f)) = ok_wire ++ rest ∧ carries ok_wire (downward f) ∨ cut f = true ∧ waiting (middle (downward f)) = err_wire ++ rest ∨
    agent_side f = Opening) as [[Hw Hcarry]|[[Hcut Hw]|Hopen]].
  { cbn in Ha. destruct (agent_side f); cbn in Ha; naive_solver. }
  - rewrite Hw, (read_object_ok _ _ _ _ _ Hok) in E. cbn in E. injection E as <-. split; [|left; by exists rest].
    intros Hopen. rewrite Hopen in *. destruct Hg as (_ & _ & Hnew). rewrite Hnew in Hw. cbn in Hw.
    by destruct ok_wire; [destruct (wire_nonempty _ _ Hok)|].
  - rewrite Hw, (read_object_ok _ _ _ _ _ Herr) in E. cbn in E. injection E as <-. split; [|right; by split].
    intros Hopen. rewrite Hopen in *. destruct Hg as (_ & _ & Hnew). rewrite Hnew in Hw. cbn in Hw.
    by destruct err_wire; [destruct (wire_nonempty _ _ Herr)|].
  - rewrite Hopen in Hg. destruct Hg as (_ & _ & Hnew). rewrite Hnew in E. cbn in E.
    rewrite read_object_eof in E. done.
Qed.

Lemma answers_ok f f' : reads_answer f = Some f' → forward_ok f → forward_ok f'.
Proof using Type*.
  intros E Hf. destruct (answers_cases _ _ E Hf) as (Hside & Hopen & [(rest & Hm & Hcarry & ->)|[Hcut ->]]).
  - destruct Hf as ((pre & Ha & Hd) & Hu & Hc & Hg & He). destruct f as [u d c g x].
    unfold forward_ok, client_ok, agent_ok in *. cbn in *. subst c.
    destruct Hc as (_ & Hcopy2 & _).
    pose proof (set_middle_ok _ _ _ Hm Hcarry).
    split; [by exists []|]. split; [done|]. split; [done|]. split; [by destruct g|].
    intros Hx. destruct (He Hx) as [? []]. split; [done|]. constructor; cbn; rewrite ?Hcopy2 in *; done.
  - apply client_leaves_ok; [done| |done]. by rewrite Hcut.
Qed.

(** What a program at an end does to a direction. *)
Lemma end_program_ok f w d' :
  (∀ pre, (carries pre (along w f) → carries pre d') ∧ (ends_follow (along w f) → ends_follow d')) →
  copy1 d' = copy1 (along w f) → copy2 d' = copy2 (along w f) → middle d' = middle (along w f) →
  (waiting (final (along w f)) = [] → got (along w f) = [] → waiting (final d') = [] ∧ got d' = []) →
  forward_ok f → forward_ok (set_along w f d').
Proof.
  intros Hd Hcopy1 Hcopy2 Hmid Hgot ((pre & Ha & Hdown) & Hu & Hc & Hg & He).
  destruct f as [u d c g x]. unfold forward_ok, client_ok, agent_ok in *. destruct w; cbn in *.
  - destruct (Hd []) as [Hk Hk']. split; [by exists pre|]. split; [by apply Hk|]. rewrite Hcopy1, Hcopy2. naive_solver.
  - destruct (Hd pre) as [Hk Hk']. split; [exists pre; split; [done|by apply Hk]|]. split; [done|].
    rewrite Hcopy1, Hcopy2, Hmid. split; [destruct c; naive_solver|]. split; [done|]. naive_solver.
Qed.

Lemma forward_event_ok f e f' : forward_event f e = Some f' → forward_ok f → forward_ok f'.
Proof using Type*.
  intros E Hf. destruct e; cbn [forward_event] in E.
  - apply fmap_Some in E as (d' & E & ->). apply end_program_ok; [by intros; eapply direction_send_ok|..|done];
      unfold direction_send in E; case_match; try done; by injection E as <-.
  - apply fmap_Some in E as (d' & E & ->). apply end_program_ok; [by intros; eapply direction_close_ok|..|done];
      by injection E as <-.
  - apply fmap_Some in E as (d' & E & ->).
    apply end_program_ok; [intros pre; destruct (direction_receive_ok _ _ _ pre E) as (? & ? & _); by split|..|done];
      by destruct (direction_receive_ok _ _ _ [] E) as (_ & _ & ? & ? & ? & ?).
  - by eapply connects_ok.
  - by eapply answers_ok.
  - eapply copying_keeps; [|done..]. by intros; eapply direction_read_ok.
  - eapply copying_keeps; [|done..]. by intros; eapply direction_write_ok.
  - eapply copying_keeps; [|done..]. by intros; eapply direction_end_ok.
  - repeat case_match; try done. bool_hyps. injection E as <-. apply client_leaves_ok; try done.
    intros Hopen. destruct Hf as (_ & _ & _ & Hg & _). unfold agent_ok in Hg. rewrite Hopen in Hg. naive_solver congruence.
  - repeat case_match; try done. bool_hyps. injection E as <-. by apply agent_leaves_ok.
  - repeat case_match; try done. injection E as <-. apply client_leaves_ok; try done; [|by rewrite orb_true_r].
    intros Hopen. destruct Hf as (_ & _ & _ & Hg & _). unfold agent_ok in Hg. rewrite Hopen in Hg. naive_solver congruence.
  - repeat case_match; try done. injection E as <-. apply agent_leaves_ok; try done. by rewrite orb_true_r.
  - repeat case_match; try done. injection E as <-. apply client_leaves_ok; try done; [|by rewrite orb_true_r].
    intros Hopen. destruct Hf as (_ & _ & _ & Hg & _). unfold agent_ok in Hg. rewrite Hopen in Hg. naive_solver congruence.
  - repeat case_match; try done. injection E as <-. apply agent_leaves_ok; try done. by rewrite orb_true_r.
Qed.

Lemma forwarding_new_ok : forward_ok forwarding_new.
Proof.
  unfold forward_ok, client_ok, agent_ok, carries. cbn. split; [|split; [by split; [exists []|left]|split; [done|split; [done|by split]]]].
  exists []. split; [done|]. by split; [exists []|left].
Qed.

Lemma forward_run_ok f es f' : forward_run f es = Some f' → forward_ok f → forward_ok f'.
Proof using Type*.
  revert f. induction es as [|e es IH]; intros f E Hf; cbn in E; [by injection E as <-|].
  apply bind_Some in E as (f1 & E1 & E). eapply IH; [done|]. by eapply forward_event_ok.
Qed.

Lemma forward_reached es f : forward_run forwarding_new es = Some f → forward_ok f.
Proof using Type*. intros E. by eapply forward_run_ok, forwarding_new_ok. Qed.

Lemma carries_prefix pre d : carries pre d → got d `prefix_of` sent d.
Proof. intros [(rest & _ & <-) _]. by exists (waiting (final d) ++ copy_buffer (copy2 d) ++ rest ++ copy_buffer (copy1 d) ++ waiting (first d)). Qed.

(** What reached the end of a direction when its end did. *)
Lemma carries_all pre d : carries pre d → ends_follow d → ended (final d) = true → got d ++ waiting (final d) = sent d ∧ ended (first d) = true.
Proof.
  intros [(rest & Hm & <-) _] [] Hf. rewrite ends_final0 in Hf. destruct (ends_done4 Hf) as (-> & Hmid & Hend).
  rewrite ends_middle0 in Hend. destruct (ends_done3 Hend) as (-> & -> & ?).
  rewrite Hmid in Hm. symmetry in Hm. apply app_nil in Hm as [_ ->]. by rewrite !app_nil_r.
Qed.

(** C29: Whatever the order of the tasks of both sides, each program reads what
    the other one wrote, in order and without a byte of the answer that opens
    the tunnel; and when no side was told to stop or failed, the end of a stream comes
    behind its last byte: who reads it has read all that was sent, and the
    sender has closed its side. *)
Theorem forwarded_in_order es f w :
  forward_run forwarding_new es = Some f →
  got (along w f) `prefix_of` sent (along w f) ∧
  (cut f = false → ended (final (along w f)) = true →
   got (along w f) ++ waiting (final (along w f)) = sent (along w f) ∧ ended (first (along w f)) = true).
Proof using Type*.
  intros Hrun. destruct (forward_reached _ _ Hrun) as ((pre & _ & Hd) & Hu & _ & _ & He).
  assert (∃ pre, carries pre (along w f)) as [pre' Hw] by (destruct w; eauto).
  split; [by eapply carries_prefix|]. intros Hcut Hend.
  eapply carries_all; [done| |done]. destruct (He Hcut). by destruct w.
Qed.

(** ** Completion *)

(** What the two sides do on their own. *)
Definition own_step (e : ForwardEvent) : bool :=
  match e with
  | Answers | CopyReads _ _ _ | CopyWrites _ _ _ | CopyEnds _ _ | ClientReturns | AgentReturns => true
  | _ => false
  end.

Definition side_work (s : Side) : nat := match s with Opening => 2 | Copying => 1 | Returned _ => 0 end.

(** A bound on the steps that are left. *)
Definition forward_work (f : Forwarding) : nat :=
  direction_work (upward f) + direction_work (downward f) + side_work (client_side f) + side_work (agent_side f).

(** The agent has answered, and the programs at both ends have closed their side. *)
Definition all_sent (f : Forwarding) : Prop :=
  agent_side f ≠ Opening ∧ ended (first (upward f)) = true ∧ ended (first (downward f)) = true.

Definition arrived (d : Direction) : Prop := got d ++ waiting (final d) = sent d ∧ ended (final d) = true.

Definition completed (f : Forwarding) : Prop :=
  client_side f = Returned (Ok ()) ∧ agent_side f = Returned (Ok ()) ∧ arrived (upward f) ∧ arrived (downward f).

Lemma copying_work f f' w k step :
  (∀ d d' pre, step d = Some d' → pre_unread k pre → advances k pre d d') →
  copying_event f w k step = Some f' → all_sent f →
  all_sent f' ∧ cut f' = cut f ∧ (forward_work f' < forward_work f)%nat.
Proof.
  unfold copying_event. intros Hstep E (Ha & Hu & Hd). case_match eqn:Ho; try done.
  apply fmap_Some in E as (d' & Es & ->).
  destruct (Hstep _ _ [] Es) as (_ & _ & _ & _ & Hf & Hw); [by destruct k|].
  destruct f as [u d c g x]. unfold forward_work, all_sent in *. destruct w; cbn in *; rewrite Hf;
    (split; [done|split; [done|lia]]).
Qed.

Lemma own_step_work f e f' :
  forward_event f e = Some f' → own_step e = true → forward_ok f → cut f = false → all_sent f →
  all_sent f' ∧ cut f' = false ∧ (forward_work f' < forward_work f)%nat.
Proof using Type*.
  intros E Hown Hf Hcut Hall. rewrite <-Hcut. destruct e; try done; cbn [forward_event] in E.
  - destruct (answers_cases _ _ E Hf) as (Hside & Hopen & [(rest & Hm & _ & ->)|[Hx _]]); [|by rewrite Hcut in Hx].
    split; [done|split; [done|]]. unfold forward_work, direction_work. cbn. rewrite Hm, Hside, length_app. cbn. lia.
  - eapply copying_work; [|done..]. by intros; eapply direction_read_ok.
  - eapply copying_work; [|done..]. by intros; eapply direction_write_ok.
  - eapply copying_work; [|done..]. by intros; eapply direction_end_ok.
  - repeat case_match; try done. injection E as <-. cbn. rewrite orb_false_r.
    split; [done|split; [done|]]. unfold forward_work, direction_work. cbn. rewrite H. cbn. lia.
  - repeat case_match; try done. injection E as <-. cbn. rewrite orb_false_r.
    split; [by destruct Hall as (_ & ? & ?)|split; [done|]]. unfold forward_work, direction_work. cbn. rewrite H. cbn. lia.
Qed.

(** A copy whose source has ended is never stuck. *)
Lemma copy_moves src c dst :
  copy_done c = false → ended src = true →
  is_Some (copy_read 1 src c) ∨ is_Some (copy_write 1 c dst) ∨ is_Some (copy_end src c dst).
Proof.
  intros Hd He. unfold copy_read, copy_write, copy_end. rewrite Hd, He.
  destruct (copy_buffer c); [|right; left; cbn; eauto].
  destruct (waiting src); [right; right|left]; cbn; eauto.
Qed.

Definition moves (k : Which) (d : Direction) : Prop :=
  is_Some (direction_read 1 k d) ∨ is_Some (direction_write 1 k d) ∨ is_Some (direction_end k d).

Lemma first_moves d : copy_done (copy1 d) = false → ended (first d) = true → moves First d.
Proof.
  intros Hd He. destruct (copy_moves (first d) (copy1 d) (middle d) Hd He) as [[[] E]|[[[] E]|[[] E]]];
    [left|right; left|right; right]; cbn; rewrite E; cbn; eauto.
Qed.

Lemma second_moves d :
  ends_follow d → copy_done (copy1 d) = true → copy_done (copy2 d) = false → moves Second d.
Proof.
  intros [] Hd1 Hd. rewrite <-ends_middle0 in Hd1.
  destruct (copy_moves (middle d) (copy2 d) (final d) Hd Hd1) as [[[] E]|[[[] E]|[[] E]]];
    [left|right; left|right; right]; cbn; rewrite E; cbn; eauto.
Qed.

Lemma moves_event f w k :
  owner w k f = Copying → moves k (along w f) → ∃ e, own_step e = true ∧ is_Some (forward_event f e).
Proof.
  intros Ho [[d E]|[[d E]|[d E]]];
    [exists (CopyReads w k 1)|exists (CopyWrites w k 1)|exists (CopyEnds w k)]; split; try done;
    cbn [forward_event]; unfold copying_event; rewrite Ho, E; cbn; eauto.
Qed.

Lemma done2_done1 d : ends_follow d → copy_done (copy2 d) = true → copy_done (copy1 d) = true.
Proof. intros [] Hd. rewrite <-ends_middle0. by apply ends_done4. Qed.

(** Both copies of a side that has not returned end. *)
Lemma own_step_possible f :
  forward_ok f → cut f = false → all_sent f →
  completed f ∨ ∃ e, own_step e = true ∧ is_Some (forward_event f e).
Proof using Type*.
  intros Hf Hcut (Hopen & Hup & Hdown). pose proof Hf as ((pre & Ha & Hd) & Hu & Hc & Hg & He).
  destruct (He Hcut) as [Heu Hed]. unfold client_ok, agent_ok in *.
  destruct (client_side f) as [| |r] eqn:Hside.
  - right. exists Answers. split; [done|]. cbn. unfold reads_answer. rewrite Hside.
    destruct Hd as [(rest & Hm & _) _].
    assert (pre = ok_wire) as -> by (destruct (agent_side f); cbn in Ha; naive_solver congruence).
    rewrite Hm, (read_object_ok _ _ _ _ _ Hok). eauto.
  - destruct (copy_done (copy1 (upward f))) eqn:Hu1; [|right; by eapply (moves_event f Up First), first_moves].
    destruct (copy_done (copy2 (downward f))) eqn:Hd2.
    + right. exists ClientReturns. split; [done|]. cbn. rewrite Hside, Hu1, Hd2. eauto.
    + destruct (copy_done (copy1 (downward f))) eqn:Hd1; [right; by eapply (moves_event f Down Second), second_moves|].
      destruct (agent_side f) eqn:Hagent; [done| |naive_solver congruence].
      right. by eapply (moves_event f Down First), first_moves.
  - destruct (Hc Hcut) as (-> & Hu1 & Hd2). pose proof (done2_done1 _ Hed Hd2) as Hd1.
    destruct (agent_side f) as [| |r'] eqn:Hagent; [done| |].
    + right. destruct (copy_done (copy2 (upward f))) eqn:Hu2; [|by eapply (moves_event f Up Second), second_moves].
      exists AgentReturns. split; [done|]. cbn. rewrite Hagent, Hu2, Hd1. eauto.
    + left. destruct (Hg Hcut) as (-> & Hu2 & _). pose proof (ends_final _ Heu). pose proof (ends_final _ Hed).
      assert (ended (final (upward f)) = true) by congruence. assert (ended (final (downward f)) = true) by congruence.
      destruct (carries_all _ _ Hu Heu) as [? _]; [done|]. destruct (carries_all _ _ Hd Hed) as [? _]; [done|].
      done.
Qed.

Lemma own_run_work f es f' :
  forward_run f es = Some f' → Forall (λ e, own_step e = true) es → forward_ok f → cut f = false → all_sent f →
  forward_ok f' ∧ cut f' = false ∧ all_sent f' ∧ (length es + forward_work f' <= forward_work f)%nat.
Proof using Type*.
  revert f. induction es as [|e es IH]; intros f E Hes Hf Hcut Hall; cbn in E; [by injection E as <-|].
  apply bind_Some in E as (f1 & E1 & E). apply Forall_cons in Hes as [He Hes].
  destruct (own_step_work _ _ _ E1 He Hf Hcut Hall) as (Hall1 & Hcut1 & Hwork).
  destruct (IH f1 E Hes (forward_event_ok _ _ _ E1 Hf) Hcut1 Hall1) as (? & ? & ? & ?).
  split; [done|split; [done|split; [done|]]]. cbn [length]. lia.
Qed.

(** Once the agent has connected and both programs have closed their side,
    the rest takes care of itself: the two sides take at most [forward_work]
    more steps, in any order, and as long as one is left they can take one;
    when none is left everything sent has arrived in both directions with its
    end behind it, and both sides have returned without an error. *)
Theorem forwarding_completes es f own f' :
  forward_run forwarding_new es = Some f → cut f = false → all_sent f →
  forward_run f own = Some f' → Forall (λ e, own_step e = true) own →
  (length own <= forward_work f)%nat ∧
  (completed f' ∨ ∃ e, own_step e = true ∧ is_Some (forward_event f' e)).
Proof using Type*.
  intros Hrun Hcut Hall Hown Hes.
  destruct (own_run_work _ _ _ Hown Hes (forward_reached _ _ Hrun) Hcut Hall) as (Hf' & Hcut' & Hall' & Hwork).
  split; [lia|]. by apply own_step_possible.
Qed.
End forwarding.

(** ** A connection *)
Definition ok_bytes : list Z := [1; 0].
Definition err_bytes : list Z := [2; 1; 0].

#[local] Instance postcard_answer : Postcard (result TcpForwardError ()) := {|
  to_stdvec r := match r with Ok _ => Ok [0] | Err Generic => Ok [1; 0] | Panic => Err "panic"%string end;
  from_bytes b := match b with [0] => Ok (Ok ()) | [1; 0] => Ok (Err Generic) | _ => Err "answer"%string end;
|}.
#[local] Instance postcard_answer_laws : PostcardLaws (result TcpForwardError ()).
Proof. constructor. intros [[]|[]|] b; cbn; by intros [= <-]. Qed.

Lemma ok_bytes_wire : wire_of (Ok () : result TcpForwardError ()) ok_bytes.
Proof. by exists [0]. Qed.
Lemma err_bytes_wire : wire_of (Err Generic : result TcpForwardError ()) err_bytes.
Proof. by exists [1; 0]. Qed.

(** The target answers before the client has read the agent's answer, and the
    program hangs up when it has sent two bytes; the target hangs up later. *)
Definition toy_forward : list ForwardEvent :=
  [Sends Up [71; 10]; Connects (inr ()); Sends Down [79; 75]; CopyReads Down First 2; CopyWrites Down First 2;
   Answers; CopyReads Up First 1; HangsUp Up; CopyWrites Up First 1; HangsUp Down].
Definition toy_forward_rest : list ForwardEvent :=
  [CopyReads Up First 1; CopyWrites Up First 1; CopyEnds Up First; CopyReads Up Second 2; CopyWrites Up Second 2;
   CopyEnds Up Second; CopyEnds Down First; AgentReturns; CopyReads Down Second 2; CopyWrites Down Second 1;
   CopyWrites Down Second 1; CopyEnds Down Second; ClientReturns].

(** What the two programs have read, and how both sides returned. *)
Definition forward_outcome (f : Forwarding) : (list Z * bool) * (list Z * bool) * (Side * Side) :=
  ((got (upward f), ended (final (upward f))), (got (downward f), ended (final (downward f))),
   (client_side f, agent_side f)).

Definition toy_open : Forwarding := Eval vm_compute in default forwarding_new (forward_run forwarding_new toy_forward).
Definition toy_closed : Forwarding :=
  Eval vm_compute in default forwarding_new (forward_run toy_open (toy_forward_rest ++ [Receives Up 2; Receives Down 2])).

Example toy_closed_outcome :
  forward_outcome toy_closed = (([71; 10], true), ([79; 75], true), (Returned (Ok ()), Returned (Ok ()))).
Proof. reflexivity. Qed.

(** A target that cannot be reached. *)
Example toy_refused :
  forward_outcome <$> forward_run forwarding_new [Sends Up [71]; Connects (inl "refused"%string); Answers] =
  Some (([], true), ([], true), (Returned (Err (ForwardError Generic)), Returned (Err (ConnectFailed "refused"%string)))).
Proof. reflexivity. Qed.

Lemma forwarded_in_order_witness :
  forward_run forwarding_new (toy_forward ++ toy_forward_rest ++ [Receives Up 2; Receives Down 2]) = Some toy_closed ∧
  (got (downward toy_closed) `prefix_of` [79; 75] ∧ got (downward toy_closed) ++ [] = [79; 75]) ∧
  got (upward toy_closed) ++ [] = [71; 10].
Proof.
  assert (forward_run forwarding_new (toy_forward ++ toy_forward_rest ++ [Receives Up 2; Receives Down 2]) = Some toy_closed)
    as Hrun by reflexivity.
  split; [exact Hrun|]. split.
  - destruct (forwarded_in_order ok_bytes err_bytes ok_bytes_wire err_bytes_wire _ _ Down Hrun) as [Hp Hall].
    split; [exact Hp|]. by apply Hall.
  - by apply (forwarded_in_order ok_bytes err_bytes ok_bytes_wire err_bytes_wire _ _ Up Hrun).
Defined.

Definition toy_done : Forwarding := Eval vm_compute in default forwarding_new (forward_run toy_open toy_forward_rest).

Lemma forwarding_completes_witness :
  forward_run toy_open toy_forward_rest = Some toy_done ∧ (length toy_forward_rest <= forward_work toy_open)%nat ∧
    (completed toy_done ∨ ∃ e, own_step e = true ∧ is_Some (forward_event toy_done e)).
Proof.
  assert (forward_run forwarding_new toy_forward = Some toy_open) as Hopen by reflexivity.
  assert (forward_run toy_open toy_forward_rest = Some toy_done) as Hdone by reflexivity.
  assert (cut toy_open = false) as Hcut by reflexivity.
  assert (all_sent toy_open) as Hall by (split; [done|by split]).
  assert (Forall (λ e, own_step e = true) toy_forward_rest) as Hown by (repeat constructor).
  split; [exact Hdone|].
  exact (forwarding_completes ok_bytes err_bytes ok_bytes_wire err_bytes_wire toy_forward toy_open
    toy_forward_rest toy_done Hopen Hcut Hall Hdone Hown).
Defined.
