(* ===== verification/Terminal.v ===== *)
(** * A terminal on a device ([svalin/src/shared/commands/terminal.rs])

    [RemoteTerminalDispatcher::dispatch] on the client and
    [RemoteTerminalHandler::handle] on the agent are loops that wait for one
    of several things: the next object of the session, what is typed or
    printed, and cancellation. The object is read piece by piece, and a read
    that is not complete when something else happens first is dropped with
    what it has taken from the session. The program in the terminal is a queue
    of what it prints; streams are not bounded. *)
From S2P Require Import Prelude.
From S2P Require Import External.
From S2P Require Import Transport.
From S2P Require Import TcpForward.
From stdpp Require Import options.

#[local] Open Scope Z_scope.

Section terminal.
(** [async_pty]. *)
Context {TerminalSize : Type}.

Inductive TerminalInput :=
  | TypedInput (input : list Z)
  | TypedResize (size : TerminalSize).

Inductive TerminalPacket :=
  | Close
  | Input (input : list Z)
  | Resize (size : TerminalSize).

Definition packet_from (data : TerminalInput) : TerminalPacket :=
  match data with
  | TypedInput input => Input input
  | TypedResize size => Resize size
  end.

(** ** Reading an object in pieces *)

(** How many bytes the read waits for that has taken [p] so far: the first
    byte, the rest of a long length, the rest of the body. *)
Definition wanted (p : list Z) : nat :=
  match p with
  | [] => 1
  | b :: rest =>
      match try_from_byte b with
      | Some len => Z.to_nat (to_usize len) - length rest
      | None =>
          if (length rest <? 3)%nat then 3 - length rest
          else Z.to_nat (to_usize (from_4bytes (take 4 p))) - (length rest - 3)
      end
  end.

(** A complete chunk wants nothing more, a part of one no more than the rest. *)
Lemma wanted_bounds c p q :
  Z.of_nat (length c) < 2 ^ 31 → encode_chunk c = p ++ q →
  (wanted p <= length q)%nat ∧ (q = [] ↔ wanted p = 0%nat).
Proof.
  intros Hc E. unfold encode_chunk in E.
  destruct (header_to_usize (Z.of_nat (length c))) as [[Hl Hh]|(Hl & b0 & b1 & b2 & b3 & Hh & Hb0 & Hu)]; [lia| |];
    rewrite Hh in E; destruct p as [|x p]; cbn [app] in E.
  - subst q. cbn. split; [lia|done].
  - injection E as <- ->. cbn. unfold try_from_byte. rewrite (proj2 (Z.ltb_lt _ _)) by done. cbn.
    rewrite Nat2Z.id, length_app. split; [lia|]. rewrite <-length_zero_iff_nil. lia.
  - subst q. cbn. split; [lia|done].
  - injection E as <- E. unfold wanted, try_from_byte. rewrite (proj2 (Z.ltb_ge _ _)) by done.
    destruct (Nat.ltb_spec (length p) 3) as [Hlt|Hge].
    + assert (length (b1 :: b2 :: b3 :: c) = length (p ++ q)) as Hlen by by rewrite E.
      rewrite length_app in Hlen. cbn in Hlen. rewrite <-length_zero_iff_nil. lia.
    + destruct p as [|p1 [|p2 [|p3 p]]]; cbn in Hge; try lia. injection E as <- <- <- ->.
      change (take 4 (b0 :: b1 :: b2 :: b3 :: p)) with [b0; b1; b2; b3]. rewrite Hu, Nat2Z.id. cbn [length].
      rewrite length_app, <-length_zero_iff_nil. lia.
Qed.

(** ** Chunks on their way to a reader that has taken a part of the first *)
Definition is_chunk (c : list Z) : Prop := ∃ e, c = encode_chunk e ∧ Z.of_nat (length e) < 2 ^ 31.

Definition flow (cs : list (list Z)) (p r : list Z) : Prop :=
  Forall is_chunk cs ∧ p ++ r = concat cs ∧
  match cs with [] => p = [] | c :: _ => p `prefix_of` c end.

Lemma flow_takes cs p r n :
  flow cs p r → (0 < n)%nat → (n <= wanted p)%nat → (n <= length r)%nat → flow cs (p ++ take n r) (drop n r).
Proof.
  intros (Hcs & E & Hp) Hn Hw Hr. split; [done|]. split; [by rewrite <-app_assoc, take_drop|].
  destruct cs as [|c cs]; [subst p; cbn in E; subst r; cbn in Hr; lia|].
  destruct Hp as [q ->]. apply Forall_cons in Hcs as [(e & He & Hl) _]. cbn in E.
  rewrite <-app_assoc in E. apply app_inv_head in E as ->.
  destruct (wanted_bounds e p q Hl (eq_sym He)) as [Hb _].
  rewrite take_app_le by lia. exists (drop n q). by rewrite <-app_assoc, take_drop.
Qed.

Lemma flow_gets cs p r :
  flow cs p r → wanted p = 0%nat → ∃ cs', cs = p :: cs' ∧ flow cs' [] r.
Proof.
  intros (Hcs & E & Hp) Hw. destruct cs as [|c cs]; [by subst p|].
  destruct Hp as [q ->]. apply Forall_cons in Hcs as [(e & He & Hl) Hcs].
  destruct (wanted_bounds e p q Hl (eq_sym He)) as [_ Hb]. apply Hb in Hw as ->.
  cbn in E. rewrite app_nil_r in *. apply app_inv_head in E as ->.
  exists cs. split; [done|]. split; [done|]. split; [done|]. destruct cs; [done|]. by apply prefix_nil.
Qed.

Lemma flow_push cs p r c : is_chunk c → flow cs p r → flow (cs ++ [c]) p (r ++ c).
Proof.
  intros Hc (Hcs & E & Hp). split; [by apply Forall_app_2; [|constructor]|].
  split; [by rewrite concat_app, app_assoc, E; cbn; rewrite app_nil_r|].
  destruct cs; [subst p; by apply prefix_nil|done].
Qed.

(** A read that is not complete can take more. *)
Lemma flow_waits cs p : flow cs p [] → cs ≠ [] → wanted p = 0%nat.
Proof.
  intros (Hcs & E & Hp) Hne. destruct cs as [|c cs]; [done|]. destruct Hp as [q ->].
  apply Forall_cons in Hcs as [(e & He & Hl) _]. rewrite app_nil_r in E. cbn in E.
  rewrite <-app_assoc in E. rewrite <-(app_nil_r p) in E at 1. apply app_inv_head in E. symmetry in E.
  apply app_nil in E as [-> _]. by apply (wanted_bounds e p [] Hl (eq_sym He)).
Qed.

(** ** Both loops *)
Context `{!Postcard TerminalPacket, !Postcard (option (list Z)), !Postcard TerminalSize}.

(** What [write_object] puts on the session; objects are below 2 GiB. *)
Definition frame {U} `{Postcard U} (x : U) : option (list Z) :=
  match to_stdvec x with
  | Ok e => if Z.of_nat (length e) <? 2 ^ 31 then Some (encode_chunk e) else None
  | _ => None
  end.

Inductive HandlerEnd :=
  | HandlerOk
  | HandlerFailed (e : ObjectReaderError)
  | HandlerBroke
  | HandlerPanicked.

(** The argument of a loop is what its read has taken. *)
Inductive HandlerSide :=
  | Starting
  | Serving (partial : list Z)
  | HandlerReturned (r : HandlerEnd).

Inductive DispatcherSide :=
  | Running (partial : list Z)
  | DispatcherReturned.

(** [typed] and [printed] are all that was ever typed and printed, [pty_got]
    and [shown] what arrived; [up_lost] and [down_lost] are ghost state: a read
    was dropped that had taken something. *)
Record Terminal := mkTerminal {
  typed : list TerminalInput;
  input : list TerminalInput;
  input_closed : bool;
  up : Pipe;
  handler : HandlerSide;
  pty_got : list TerminalInput;
  printed : list (list Z);
  printing : list (list Z);
  pty_ended : bool;
  down : Pipe;
  dispatcher : DispatcherSide;
  shown : list (list Z);
  up_lost : bool;
  down_lost : bool;
}.

Inductive TerminalEvent :=
  | Types (x : TerminalInput)
  | ClosesInput
  | Prints (b : list Z)
  | Exits
  | HandlerStarts
  | HandlerTakes (n : nat)
  | HandlerGets
  | HandlerPrints
  | HandlerEof
  | HandlerStops
  | HandlerBreaks
  | DispatcherTakes (n : nat)
  | DispatcherGets
  | DispatcherSends
  | DispatcherEof
  | DispatcherStops
  | DispatcherBreaks.

Definition on_up (w : Terminal) (u : Pipe) (h : HandlerSide) (g : list TerminalInput) (l : bool) : Terminal :=
  mkTerminal (typed w) (input w) (input_closed w) u h g (printed w) (printing w) (pty_ended w) (down w) (dispatcher w)
    (shown w) l (down_lost w).
Definition on_down (w : Terminal) (d : Pipe) (s : DispatcherSide) (sh : list (list Z)) (l : bool) : Terminal :=
  mkTerminal (typed w) (input w) (input_closed w) (up w) (handler w) (pty_got w) (printed w) (printing w) (pty_ended w) d s
    sh (up_lost w) l.
Definition on_input (w : Terminal) (t i : list TerminalInput) (c : bool) : Terminal :=
  mkTerminal t i c (up w) (handler w) (pty_got w) (printed w) (printing w) (pty_ended w) (down w) (dispatcher w) (shown w)
    (up_lost w) (down_lost w).
Definition on_pty (w : Terminal) (p q : list (list Z)) (e : bool) : Terminal :=
  mkTerminal (typed w) (input w) (input_closed w) (up w) (handler w) (pty_got w) p q e (down w) (dispatcher w) (shown w)
    (up_lost w) (down_lost w).

(** The dispatcher has written the initial size. *)
Definition terminal_open (size : list Z) : Terminal :=
  mkTerminal [] [] false (mkPipe size false) Starting [] [] [] false pipe_new (Running []) [] false false.

Definition is_partial (p : list Z) : bool := match p with [] => false | _ => true end.

(** Behind its loop the dispatcher sends the end and gives the session back;
    a handler that returns closes it. *)
Definition dispatcher_leaves (w : Terminal) : Terminal :=
  on_down (on_up w (pipe_end (pipe_push (up w) (default [] (frame Close)))) (handler w) (pty_got w) (up_lost w))
    (down w) DispatcherReturned (shown w) (down_lost w).
Definition handler_leaves (w : Terminal) (r : HandlerEnd) : Terminal :=
  on_up (on_down w (pipe_end (down w)) (dispatcher w) (shown w) (down_lost w)) (up w) (HandlerReturned r) (pty_got w) (up_lost w).

Definition unexpected_eof : ObjectReaderError := ChunkReadError (LengthReadError UnexpectedEof).

Definition handler_starts (w : Terminal) : option Terminal :=
  match handler w with
  | Starting =>
      match read_object (U := TerminalSize) (mkTransport (waiting (up w)) [] true) with
      | (t, Ok size) => Some (on_up w (mkPipe (incoming t) (ended (up w))) (Serving []) (pty_got w) (up_lost w))
      | (t, Err e) => if incomplete e && negb (ended (up w)) then None else Some (handler_leaves w (HandlerFailed e))
      | (t, Panic) => Some (handler_leaves w HandlerPanicked)
      end
  | _ => None
  end.

(** [packet = session.read_object()]. *)
Definition handler_takes (w : Terminal) (n : nat) : option Terminal :=
  match handler w with
  | Serving p =>
      if (0 <? n)%nat && (n <=? wanted p)%nat && (n <=? length (waiting (up w)))%nat
      then Some (on_up w (pipe_drop (up w) n) (Serving (p ++ take n (waiting (up w)))) (pty_got w) (up_lost w))
      else None
  | _ => None
  end.

Definition handler_gets (w : Terminal) : option Terminal :=
  match handler w with
  | Serving p =>
      if (wanted p =? 0)%nat then
        match read_object (U := TerminalPacket) (mkTransport p [] true) with
        | (_, Ok Close) => Some (handler_leaves w HandlerOk)
        | (_, Ok (Input i)) => Some (on_up w (up w) (Serving []) (pty_got w ++ [TypedInput i]) (up_lost w))
        | (_, Ok (Resize s)) => Some (on_up w (up w) (Serving []) (pty_got w ++ [TypedResize s]) (up_lost w))
        | (_, Err e) => Some (handler_leaves w (HandlerFailed e))
        | (_, Panic) => Some (handler_leaves w HandlerPanicked)
        end
      else None
  | _ => None
  end.

(** [output = pty_reader.recv()]. *)
Definition handler_prints (w : Terminal) : option Terminal :=
  match handler w with
  | Serving p =>
      let lost := up_lost w || is_partial p in
      match printing w with
      | b :: rest =>
          c ← frame (Some b);
          Some (on_pty (on_up (on_down w (pipe_push (down w) c) (dispatcher w) (shown w) (down_lost w)) (up w) (Serving [])
            (pty_got w) lost) (printed w) rest (pty_ended w))
      | [] =>
          if pty_ended w then
            c ← frame (None : option (list Z));
            Some (handler_leaves (on_down w (pipe_push (down w) c) (dispatcher w) (shown w) (down_lost w)) HandlerOk)
          else None
      end
  | _ => None
  end.

(** The terminal or the session refuses what it is given. *)
Definition handler_breaks (w : Terminal) : option Terminal :=
  match handler w with HandlerReturned _ => None | _ => Some (handler_leaves w HandlerBroke) end.

(** The session ends in the middle of a read. *)
Definition handler_eof (w : Terminal) : option Terminal :=
  match handler w, waiting (up w) with
  | Serving p, [] => if ended (up w) && (0 <? wanted p)%nat then Some (handler_leaves w (HandlerFailed unexpected_eof)) else None
  | _, _ => None
  end.

(** [output = session.read_object::<Option<Vec<u8>>>()]. *)
Definition dispatcher_takes (w : Terminal) (n : nat) : option Terminal :=
  match dispatcher w with
  | Running p =>
      if (0 <? n)%nat && (n <=? wanted p)%nat && (n <=? length (waiting (down w)))%nat
      then Some (on_down w (pipe_drop (down w) n) (Running (p ++ take n (waiting (down w)))) (shown w) (down_lost w))
      else None
  | _ => None
  end.

Definition dispatcher_gets (w : Terminal) : option Terminal :=
  match dispatcher w with
  | Running p =>
      if (wanted p =? 0)%nat then
        match read_object (U := option (list Z)) (mkTransport p [] true) with
        | (_, Ok (Some chunk)) => Some (on_down w (down w) (Running []) (shown w ++ [chunk]) (down_lost w))
        | _ => Some (dispatcher_leaves w)
        end
      else None
  | _ => None
  end.

(** [input = self.input.recv()]. *)
Definition dispatcher_sends (w : Terminal) : option Terminal :=
  match dispatcher w with
  | Running p =>
      match input w with
      | x :: rest =>
          c ← frame (packet_from x);
          Some (on_input (on_up (on_down w (down w) (Running []) (shown w) (down_lost w || is_partial p))
            (pipe_push (up w) c) (handler w) (pty_got w) (up_lost w)) (typed w) rest (input_closed w))
      | [] => if input_closed w then Some (dispatcher_leaves w) else None
      end
  | _ => None
  end.

Definition dispatcher_eof (w : Terminal) : option Terminal :=
  match dispatcher w, waiting (down w) with
  | Running p, [] => if ended (down w) && (0 <? wanted p)%nat then Some (dispatcher_leaves w) else None
  | _, _ => None
  end.

(** The session refuses what it is given: the dispatcher returns at once. *)
Definition dispatcher_breaks (w : Terminal) : option Terminal :=
  match dispatcher w with
  | Running _ =>
      Some (on_down (on_up w (pipe_end (up w)) (handler w) (pty_got w) (up_lost w)) (down w) DispatcherReturned (shown w) (down_lost w))
  | DispatcherReturned => None
  end.

Definition terminal_event (w : Terminal) (e : TerminalEvent) : option Terminal :=
  match e with
  | Types x => if input_closed w then None else Some (on_input w (typed w ++ [x]) (input w ++ [x]) false)
  | ClosesInput => Some (on_input w (typed w) (input w) true)
  | Prints b => if pty_ended w then None else Some (on_pty w (printed w ++ [b]) (printing w ++ [b]) false)
  | Exits => Some (on_pty w (printed w) (printing w) true)
  | HandlerStarts => handler_starts w
  | HandlerTakes n => handler_takes w n
  | HandlerGets => handler_gets w
  | HandlerPrints => handler_prints w
  | HandlerEof => handler_eof w
  | HandlerStops => match handler w with Serving _ => Some (handler_leaves w HandlerOk) | _ => None end
  | HandlerBreaks => handler_breaks w
  | DispatcherTakes n => dispatcher_takes w n
  | DispatcherGets => dispatcher_gets w
  | DispatcherSends => dispatcher_sends w
  | DispatcherEof => dispatcher_eof w
  | DispatcherStops => match dispatcher w with Running _ => Some (dispatcher_leaves w) | _ => None end
  | DispatcherBreaks => dispatcher_breaks w
  end.

Fixpoint terminal_run (w : Terminal) (es : list TerminalEvent) : option Terminal :=
  match es with
  | [] => Some w
  | e :: es => w' ← terminal_event w e; terminal_run w' es
  end.

(** ** What is on its way *)
Context `{!PostcardLaws TerminalPacket, !PostcardLaws (option (list Z)), !PostcardLaws TerminalSize}.
Context (size : TerminalSize) (size_chunk : list Z) (Hsize : frame size = Some size_chunk).

Lemma frame_wire {U} `{Postcard U} (x : U) c : frame x = Some c → wire_of x c ∧ is_chunk c.
Proof.
  unfold frame. destruct (to_stdvec x) as [e| |] eqn:E; [|done|done]. case_match eqn:Hl; [|done]. intros [= <-].
  apply Z.ltb_lt in Hl. split; by exists e.
Qed.

Lemma frame_read {U} `{PostcardLaws U} (x : U) c rest w b :
  frame x = Some c → read_object (mkTransport (c ++ rest) w b) = (mkTransport rest w b, Ok x).
Proof. intros [Hw _]%frame_wire. by apply read_object_ok. Qed.

Lemma frame_read_all {U} `{PostcardLaws U} (x : U) c :
  frame x = Some c → read_object (mkTransport c [] true) = (mkTransport [] [] true, Ok x).
Proof. intros Hc. rewrite <-(app_nil_r c) at 1. by apply frame_read. Qed.

Definition closing : list (list Z) := match frame Close with Some c => [c] | None => [] end.
Definition exiting : list (list Z) := match frame (None : option (list Z)) with Some c => [c] | None => [] end.

(** The packets on their way and the chunks they are. *)
Definition framed {X U} `{Postcard U} (f : X → U) (cs : list (list Z)) (xs : list X) : Prop :=
  Forall2 (λ c x, frame (f x) = Some c) cs xs.

Definition up_ok (w : Terminal) : Prop :=
  up_lost w = false →
  match handler w with
  | HandlerReturned r =>
      pty_got w `prefix_of` typed w ∧ r ≠ HandlerPanicked ∧ ∀ e, r = HandlerFailed e → e = unexpected_eof
  | _ =>
      ∃ cs xs tail, framed packet_from cs xs ∧ typed w = pty_got w ++ xs ++ input w ∧
        (tail = [] ∨ dispatcher w = DispatcherReturned ∧ tail = closing) ∧
        match handler w with
        | Serving p => flow (cs ++ tail) p (waiting (up w))
        | _ => flow (size_chunk :: cs ++ tail) [] (waiting (up w))
        end
  end.

Definition down_ok (w : Terminal) : Prop :=
  (∀ r, handler w ≠ HandlerReturned r) → ended (down w) = false.

Definition shown_ok (w : Terminal) : Prop :=
  down_lost w = false →
  match dispatcher w with
  | DispatcherReturned => shown w `prefix_of` printed w
  | Running p =>
      ∃ cs xs tail, framed Some cs xs ∧ printed w = shown w ++ xs ++ printing w ∧
        (tail = [] ∨ tail = exiting ∧ printing w = [] ∧ pty_ended w = true ∧ ∃ r, handler w = HandlerReturned r) ∧
        flow (cs ++ tail) p (waiting (down w))
  end.

Record terminal_ok (w : Terminal) : Prop := { ok_up : up_ok w; ok_shown : shown_ok w; ok_down : down_ok w }.

Lemma framed_snoc {X U} `{Postcard U} (f : X → U) cs xs x c :
  framed f cs xs → frame (f x) = Some c → framed f (cs ++ [c]) (xs ++ [x]).
Proof. intros Hf Hc. apply Forall2_app; [done|]. by repeat constructor. Qed.

Lemma framed_head {X U} `{Postcard U} (f : X → U) cs xs c rest :
  framed f cs xs → cs = c :: rest → ∃ x xs', xs = x :: xs' ∧ frame (f x) = Some c ∧ framed f rest xs'.
Proof. intros Hf ->. apply Forall2_cons_inv_l in Hf as (x & xs' & Hc & Hf & ->). eauto. Qed.

Lemma up_prefix w : up_ok w → up_lost w = false → pty_got w `prefix_of` typed w.
Proof.
  intros Hw Hl. specialize (Hw Hl). destruct (handler w); [| |by destruct Hw];
    destruct Hw as (cs & xs & tail & _ & -> & _); by eexists.
Qed.

Lemma shown_prefix w : shown_ok w → down_lost w = false → shown w `prefix_of` printed w.
Proof.
  intros Hw Hl. specialize (Hw Hl). destruct (dispatcher w); [|done].
  destruct Hw as (cs & xs & tail & _ & -> & _). by eexists.
Qed.

Lemma flow_closing cs p r : flow cs p r → flow (cs ++ closing) p (r ++ default [] (frame Close)).
Proof.
  intros Hf. unfold closing. destruct (frame Close) as [c|] eqn:Hc; cbn; [|by rewrite !app_nil_r].
  apply flow_push; [|done]. by apply frame_wire in Hc as [_ ?].
Qed.

(** *** Leaving *)
Lemma dispatcher_leaves_ok w p : dispatcher w = Running p → terminal_ok w → terminal_ok (dispatcher_leaves w).
Proof.
  intros Hp [Hu Hs Hd]. split; [|intros Hl; cbn in *; by apply shown_prefix|exact Hd].
  intros Hl. specialize (Hu Hl). cbn in *. destruct (handler w); [| |done];
    destruct Hu as (cs & xs & tail & Hf & Ht & Htail & Hflow); (destruct Htail as [->|[Hr _]]; [|congruence]);
    exists cs, xs, closing; (split; [done|split; [done|split; [by right|]]]); rewrite app_nil_r in Hflow;
    [rewrite app_comm_cons|]; by apply flow_closing.
Qed.

Lemma handler_leaves_ok w r :
  (∀ r', handler w ≠ HandlerReturned r') →
  (up_lost w = false → r ≠ HandlerPanicked ∧ ∀ e, r = HandlerFailed e → e = unexpected_eof) →
  terminal_ok w → terminal_ok (handler_leaves w r).
Proof.
  intros Hn Hr [Hu Hs Hd]. split; cbn.
  - intros Hl. cbn in *. split; [by apply up_prefix|]. by apply Hr.
  - intros Hl. specialize (Hs Hl). cbn in *. destruct (dispatcher w); [|done].
    destruct Hs as (cs & xs & tail & Hf & Ht & Htail & Hflow). exists cs, xs, tail. split; [done|split; [done|split; [|done]]].
    destruct Htail as [->|(-> & ? & ? & [r' ?])]; [by left|]. by destruct (Hn r').
  - intros Hx. by destruct (Hx r).
Qed.

(** *** The handler *)
(** A step of the handler that goes on. *)
Lemma shown_serving w u h g l : (∀ r, handler w ≠ HandlerReturned r) → shown_ok w → shown_ok (on_up w u h g l).
Proof.
  intros Hn Hs Hx. specialize (Hs Hx). cbn in *. destruct (dispatcher w); [|done].
  destruct Hs as (cs & xs & tail & Hf & Ht & Htail & Hflow). exists cs, xs, tail. split_and!; try done.
  destruct Htail as [->|(_ & _ & _ & r' & Hr)]; [by left|by destruct (Hn r')].
Qed.

Lemma handler_starts_ok w w' : handler_starts w = Some w' → terminal_ok w → terminal_ok w'.
Proof using Type*.
  unfold handler_starts. intros E Hw. destruct (handler w) eqn:Hh; try done.
  destruct (up_lost w) eqn:Hl.
  - repeat case_match; try done; injection E as <-; try (apply handler_leaves_ok; [by rewrite Hh|by rewrite Hl|done]).
    destruct Hw as [Hu Hs Hd]. split; [intros Hx; cbn in Hx; congruence| |].
    + apply shown_serving; [by rewrite Hh|done].
    + intros _. apply Hd. by rewrite Hh.
  - destruct Hw as [Hu Hs Hd]. pose proof (Hu Hl) as Hu'. rewrite Hh in Hu'.
    destruct Hu' as (cs & xs & tail & Hf & Ht & Htail & (Hcs & Hwait & Hp)). cbn in Hwait.
    rewrite Hwait, (frame_read _ _ _ _ _ Hsize) in E. injection E as <-. split; cbn.
    + intros _. cbn. exists cs, xs, tail. split; [done|split; [done|split; [done|]]].
      apply Forall_cons in Hcs as [_ Hcs]. split; [done|split; [done|]]. destruct (cs ++ tail); [done|by apply prefix_nil].
    + apply shown_serving; [by rewrite Hh|done].
    + intros _. apply Hd. by rewrite Hh.
Qed.

Lemma handler_takes_ok w n w' : handler_takes w n = Some w' → terminal_ok w → terminal_ok w'.
Proof.
  unfold handler_takes. intros E [Hu Hs Hd]. destruct (handler w) as [|p|] eqn:Hh; try done.
  case_match eqn:Hc; [|done]. injection E as <-. bool_hyps. rewrite Nat.ltb_lt, !Nat.leb_le in *.
  split; [|by apply shown_serving; [rewrite Hh|]|intros _; apply Hd; by rewrite Hh].
  intros Hl. cbn in *. specialize (Hu Hl). rewrite Hh in Hu. destruct Hu as (cs & xs & tail & Hf & Ht & Htail & Hflow).
  exists cs, xs, tail. split; [done|split; [done|split; [done|]]]. by apply flow_takes.
Qed.

Lemma handler_gets_ok w w' : handler_gets w = Some w' → terminal_ok w → terminal_ok w'.
Proof using Type*.
  unfold handler_gets. intros E Hw. destruct (handler w) as [|p|] eqn:Hh; try done.
  case_match eqn:Hc; [|done]. apply Nat.eqb_eq in Hc.
  assert (∀ g, down_ok (on_up w (up w) (Serving []) g (up_lost w))) as Hd.
  { intros g _. apply (ok_down _ Hw). by rewrite Hh. }
  assert (∀ g, shown_ok (on_up w (up w) (Serving []) g (up_lost w))) as Hs.
  { intros g. apply shown_serving; [by rewrite Hh|apply Hw]. }
  destruct (up_lost w) eqn:Hl.
  - repeat case_match; injection E as <-; try (apply handler_leaves_ok; [by rewrite Hh|by rewrite Hl|done]);
      (split; [by intros Hx|apply Hs|apply Hd]).
  - pose proof (ok_up _ Hw Hl) as Hu. rewrite Hh in Hu.
    destruct Hu as (cs & xs & tail & Hf & Ht & Htail & Hflow). apply flow_gets in Hflow as (cs' & Hcs & Hflow); [|done].
    destruct cs as [|c cs].
    + cbn in Hcs. subst tail. destruct Htail as [[=]|[Hdisp Htail]]. unfold closing in Htail.
      destruct (frame Close) as [c|] eqn:Hclose; [|done]. injection Htail as -> ->.
      rewrite (frame_read_all _ _ Hclose) in E. injection E as <-. apply handler_leaves_ok; [by rewrite Hh|done|done].
    + injection Hcs as -> <-. destruct (framed_head _ _ _ _ _ Hf eq_refl) as (x & xs' & -> & Hx & Hf').
      rewrite (frame_read_all _ _ Hx) in E.
      assert (w' = on_up w (up w) (Serving []) (pty_got w ++ [x]) false) as -> by (by destruct x; injection E as <-).
      split; [|apply Hs|apply Hd]. intros _. cbn. exists cs, xs', tail. split; [done|]. by rewrite Ht, <-!app_assoc.
Qed.

Lemma handler_eof_ok w w' : handler_eof w = Some w' → terminal_ok w → terminal_ok w'.
Proof.
  unfold handler_eof. intros E Hw. destruct (handler w) eqn:Hh; try done. repeat case_match; try done. injection E as <-.
  apply handler_leaves_ok; [by rewrite Hh| |done]. intros _. split; [done|]. by intros e [= <-].
Qed.

Lemma handler_prints_ok w w' : handler_prints w = Some w' → terminal_ok w → terminal_ok w'.
Proof.
  unfold handler_prints. intros E [Hu Hs Hd]. destruct (handler w) as [|p|] eqn:Hh; try done.
  assert (∀ r, handler w ≠ HandlerReturned r) as Hn by (by rewrite Hh).
  destruct (printing w) as [|b rest] eqn:Hp.
  - destruct (pty_ended w) eqn:Hend; [|done]. apply bind_Some in E as (c & Hc & E). injection E as <-.
    split; cbn.
    + intros Hl. cbn in *. split; [by apply up_prefix|done].
    + intros Hl. specialize (Hs Hl). cbn in *. destruct (dispatcher w); [|done].
      destruct Hs as (cs & xs & tail & Hf & Ht & Htail & Hflow).
      destruct Htail as [->|(_ & _ & _ & r & Hr)]; [|by destruct (Hn r)]. rewrite app_nil_r in Hflow.
      exists cs, xs, [c]. split; [done|split; [done|split]].
      * right. unfold exiting. rewrite Hc. split_and!; try done. by eexists.
      * apply flow_push; [|done]. by apply frame_wire in Hc as [_ ?].
    + intros Hx. by destruct (Hx HandlerOk).
  - apply bind_Some in E as (c & Hc & E). injection E as <-. split; cbn.
    + intros [Hl Hpart]%orb_false_iff. cbn in *. specialize (Hu Hl). rewrite Hh in Hu.
      destruct p; [|done]. exact Hu.
    + intros Hl. specialize (Hs Hl). cbn in *. destruct (dispatcher w); [|done].
      destruct Hs as (cs & xs & tail & Hf & Ht & Htail & Hflow).
      destruct Htail as [->|(_ & _ & _ & r & Hr)]; [|by destruct (Hn r)]. rewrite app_nil_r in Hflow.
      exists (cs ++ [c]), (xs ++ [b]), []. split; [by apply framed_snoc|]. split; [by rewrite Ht, Hp, <-app_assoc|].
      split; [by left|]. rewrite app_nil_r. apply flow_push; [|done]. by apply frame_wire in Hc as [_ ?].
    + intros _. by apply Hd.
Qed.

(** *** The dispatcher *)
(** A step of the dispatcher that goes on leaves what it has sent. *)
Lemma up_running w d p sh l p' : dispatcher w = Running p' → up_ok w → up_ok (on_down w d (Running p) sh l).
Proof.
  intros Hp Hu Hl. specialize (Hu Hl). cbn in *. destruct (handler w); [| |done];
    destruct Hu as (cs & xs & tail & Hf & Ht & [->|[Hr _]] & Hflow); try congruence;
    exists cs, xs, []; (split; [done|split; [done|split; [by left|done]]]).
Qed.

Lemma dispatcher_takes_ok w n w' : dispatcher_takes w n = Some w' → terminal_ok w → terminal_ok w'.
Proof.
  unfold dispatcher_takes. intros E [Hu Hs Hd]. destruct (dispatcher w) as [p|] eqn:Hp; [|done].
  case_match eqn:Hc; [|done]. injection E as <-. bool_hyps. rewrite Nat.ltb_lt, !Nat.leb_le in *.
  split; [by eapply up_running| |intros Hx; cbn in *; by apply Hd].
  intros Hl. cbn in *. specialize (Hs Hl). rewrite Hp in Hs. destruct Hs as (cs & xs & tail & Hf & Ht & Htail & Hflow).
  exists cs, xs, tail. split; [done|split; [done|split; [done|]]]. by apply flow_takes.
Qed.

Lemma dispatcher_gets_ok w w' : dispatcher_gets w = Some w' → terminal_ok w → terminal_ok w'.
Proof using Type*.
  unfold dispatcher_gets. intros E Hw. destruct (dispatcher w) as [p|] eqn:Hp; [|done].
  case_match eqn:Hc; [|done]. apply Nat.eqb_eq in Hc.
  assert (terminal_ok (dispatcher_leaves w)) as Hleave by by eapply dispatcher_leaves_ok.
  assert (∀ chunk, (∀ Hl : down_lost w = false, shown_ok (on_down w (down w) (Running []) (shown w ++ [chunk]) (down_lost w))) →
    terminal_ok (on_down w (down w) (Running []) (shown w ++ [chunk]) (down_lost w))) as Hgo.
  { intros chunk Hs. destruct Hw as [Hu _ Hd]. split; [by eapply up_running| |exact Hd].
    intros Hl. by apply Hs. }
  destruct (down_lost w) eqn:Hl.
  - repeat case_match; injection E as <-; try exact Hleave; by apply Hgo.
  - pose proof (ok_shown _ Hw Hl) as Hs. rewrite Hp in Hs. destruct Hs as (cs & xs & tail & Hf & Ht & Htail & Hflow).
    apply flow_gets in Hflow as (cs' & Hcs & Hflow); [|done]. destruct cs as [|c cs].
    + cbn in Hcs. subst tail. destruct Htail as [[=]|[Htail _]]. unfold exiting in Htail.
      destruct (frame (None : option (list Z))) as [c|] eqn:Hnone; [|done]. injection Htail as -> ->.
      rewrite (frame_read_all _ _ Hnone) in E. by injection E as <-.
    + injection Hcs as -> <-. destruct (framed_head _ _ _ _ _ Hf eq_refl) as (x & xs' & -> & Hx & Hf').
      rewrite (frame_read_all _ _ Hx) in E. injection E as <-. apply Hgo. intros _ _. cbn.
      exists cs, xs', tail. split; [done|]. by rewrite Ht, <-!app_assoc.
Qed.

Lemma dispatcher_sends_ok w w' : dispatcher_sends w = Some w' → terminal_ok w → terminal_ok w'.
Proof.
  unfold dispatcher_sends. intros E Hw. destruct (dispatcher w) as [p|] eqn:Hp; [|done].
  destruct (input w) as [|x rest] eqn:Hi.
  - case_match; [|done]. injection E as <-. by eapply dispatcher_leaves_ok.
  - apply bind_Some in E as (c & Hc & E). injection E as <-. destruct Hw as [Hu Hs Hd].
    assert (is_chunk c) as Hchunk by by apply frame_wire in Hc as [_ ?].
    split; cbn.
    + intros Hl. specialize (Hu Hl). cbn in *. destruct (handler w); [| |done];
        destruct Hu as (cs & xs & tail & Hf & Ht & [->|[Hr _]] & Hflow); try congruence; rewrite app_nil_r in Hflow;
        exists (cs ++ [c]), (xs ++ [x]), []; (split; [by apply framed_snoc|split; [by rewrite Ht, Hi, <-!app_assoc|split; [by left|]]]);
        rewrite app_nil_r; [rewrite app_comm_cons|]; by apply flow_push.
    + intros [Hl Hpart]%orb_false_iff. cbn in *. specialize (Hs Hl). rewrite Hp in Hs. destruct p; [exact Hs|done].
    + exact Hd.
Qed.

Lemma dispatcher_eof_ok w w' : dispatcher_eof w = Some w' → terminal_ok w → terminal_ok w'.
Proof.
  unfold dispatcher_eof. intros E Hw. destruct (dispatcher w) eqn:Hp; [|done]. repeat case_match; try done. injection E as <-.
  by eapply dispatcher_leaves_ok.
Qed.

Lemma dispatcher_breaks_ok w w' : dispatcher_breaks w = Some w' → terminal_ok w → terminal_ok w'.
Proof.
  unfold dispatcher_breaks. intros E [Hu Hs Hd]. destruct (dispatcher w) as [p|] eqn:Hp; [|done]. injection E as <-.
  split; [|intros Hl; cbn in *; by apply shown_prefix|exact Hd].
  intros Hl. specialize (Hu Hl). cbn in *. destruct (handler w); [| |done];
    destruct Hu as (cs & xs & tail & Hf & Ht & [->|[Hr _]] & Hflow); try congruence;
    exists cs, xs, []; (split; [done|split; [done|split; [by left|done]]]).
Qed.

(** *** The ends *)
Lemma terminal_event_ok w e w' : terminal_event w e = Some w' → terminal_ok w → terminal_ok w'.
Proof using Type*.
  intros E Hw. destruct e; cbn [terminal_event] in E.
  - case_match; [done|]. injection E as <-. destruct Hw as [Hu Hs Hd]. split; [|exact Hs|exact Hd].
    intros Hl. specialize (Hu Hl). cbn in *. destruct (handler w).
    + destruct Hu as (cs & xs & tail & Hf & -> & Hrest). exists cs, xs, tail. by rewrite <-!app_assoc.
    + destruct Hu as (cs & xs & tail & Hf & -> & Hrest). exists cs, xs, tail. by rewrite <-!app_assoc.
    + destruct Hu as [Hpre Hr]. split; [by apply prefix_app_r|done].
  - injection E as <-. destruct Hw as [Hu Hs Hd]. by split.
  - case_match eqn:Hend; [done|]. injection E as <-. destruct Hw as [Hu Hs Hd]. split; [exact Hu| |exact Hd].
    intros Hl. specialize (Hs Hl). cbn in *. destruct (dispatcher w); [|by apply prefix_app_r].
    destruct Hs as (cs & xs & tail & Hf & -> & Htail & Hflow). exists cs, xs, tail. rewrite <-!app_assoc.
    split_and!; try done. destruct Htail as [->|(_ & _ & ? & _)]; [by left|congruence].
  - injection E as <-. destruct Hw as [Hu Hs Hd]. split; [exact Hu| |exact Hd].
    intros Hl. specialize (Hs Hl). cbn in *. destruct (dispatcher w); [|done].
    destruct Hs as (cs & xs & tail & Hf & Ht & Htail & Hflow). exists cs, xs, tail. split_and!; try done.
    destruct Htail as [->|(? & ? & _ & ?)]; [by left|by right].
  - by eapply handler_starts_ok.
  - by eapply handler_takes_ok.
  - by eapply handler_gets_ok.
  - by eapply handler_prints_ok.
  - by eapply handler_eof_ok.
  - case_match eqn:Hh; try done. injection E as <-. apply handler_leaves_ok; [by rewrite Hh|done|done].
  - unfold handler_breaks in E. destruct (handler w) eqn:Hh; try done; injection E as <-;
      (apply handler_leaves_ok; [by rewrite Hh|done|done]).
  - by eapply dispatcher_takes_ok.
  - by eapply dispatcher_gets_ok.
  - by eapply dispatcher_sends_ok.
  - by eapply dispatcher_eof_ok.
  - case_match eqn:Hp; try done. injection E as <-. by eapply dispatcher_leaves_ok.
  - by eapply dispatcher_breaks_ok.
Qed.

Lemma terminal_open_ok : terminal_ok (terminal_open size_chunk).
Proof using Type*.
  split; intros _; cbn; [|exists [], [], []; split_and!; try done; [constructor|by left]|done].
  exists [], [], []. split_and!; [constructor|done|by left|]. apply frame_wire in Hsize as [_ Hc].
  split; [by repeat constructor|]. split; [cbn; by rewrite app_nil_r|by apply prefix_nil].
Qed.

Lemma terminal_run_ok w es w' : terminal_run w es = Some w' → terminal_ok w → terminal_ok w'.
Proof using Type*.
  revert w. induction es as [|e es IH]; intros w E Hw; cbn in E; [by injection E as <-|].
  apply bind_Some in E as (w1 & E1 & E). eapply IH; [done|]. by eapply terminal_event_ok.
Qed.

(** C35: Whatever is typed and printed and however the steps of both loops
    interleave: as long as no read was dropped that had taken a part of an
    object, the terminal gets what was typed and shows what was printed, each
    in order and without gaps, and the agent fails at most because the session
    has ended, not because of what it reads. *)
Theorem terminal_in_order es w :
  terminal_run (terminal_open size_chunk) es = Some w →
  (up_lost w = false → pty_got w `prefix_of` typed w ∧
     ∀ e, handler w = HandlerReturned (HandlerFailed e) → e = unexpected_eof) ∧
  (down_lost w = false → shown w `prefix_of` printed w).
Proof using Type*.
  intros Hrun. destruct (terminal_run_ok _ _ _ Hrun terminal_open_ok) as [Hu Hs _].
  split; [|by apply shown_prefix]. intros Hl. split; [by apply up_prefix|].
  intros e He. specialize (Hu Hl). rewrite He in Hu. destruct Hu as (_ & _ & Hr). by apply Hr.
Qed.

(** ** The end *)

(** What the two loops do for the output. *)
Definition output_step (e : TerminalEvent) : bool :=
  match e with
  | HandlerPrints | DispatcherTakes _ | DispatcherGets | DispatcherEof => true
  | _ => false
  end.

Definition frame_length (b : option (list Z)) : nat := length (default [] (frame b)).

(** A bound on the steps that are left. *)
Definition output_work (w : Terminal) : nat :=
  (match handler w with
   | Serving _ => sum_list ((λ b, (1 + 2 * frame_length (Some b))%nat) <$> printing w) + 1 + 2 * frame_length None
   | _ => 0
   end + 2 * length (waiting (down w)) +
   match dispatcher w with Running p => 1 + length p | DispatcherReturned => 0 end)%nat.

(** The shell has exited and nobody types. *)
Definition only_output (w : Terminal) : Prop :=
  pty_ended w = true ∧ down_lost w = false ∧
  Forall (λ b, is_Some (frame (Some b))) (printing w) ∧ is_Some (frame (None : option (list Z))) ∧
  match handler w, dispatcher w with
  | Serving _, Running _ => True
  | HandlerReturned _, Running p =>
      printing w = [] ∧ ∃ cs xs, framed Some cs xs ∧ printed w = shown w ++ xs ∧ flow (cs ++ exiting) p (waiting (down w))
  | HandlerReturned _, DispatcherReturned => shown w = printed w
  | _, _ => False
  end.

Lemma handler_prints_output w w' :
  handler_prints w = Some w' → terminal_ok w → only_output w → only_output w' ∧ (output_work w' < output_work w)%nat.
Proof.
  unfold handler_prints. intros E [_ Hs _] (Hend & Hl & Hall & Hnone & Hw). specialize (Hs Hl).
  destruct (handler w) as [|p|] eqn:Hh; try done. destruct (dispatcher w) as [q|] eqn:Hq; [|done].
  destruct Hs as (cs & xs & tail & Hf & Ht & Htail & Hflow).
  destruct Htail as [->|(_ & _ & _ & r & Hr)]; [|done]. rewrite app_nil_r in Hflow.
  destruct (printing w) as [|b rest] eqn:Hp.
  - rewrite Hend in E. apply bind_Some in E as (c & Hc & E). injection E as <-. split.
    + unfold only_output. cbn. rewrite Hp. split; [done|split; [done|split; [done|split; [done|split; [done|]]]]].
      exists cs, xs. split; [done|]. rewrite app_nil_r in Ht. split; [done|]. unfold exiting. rewrite Hc.
      apply flow_push; [|done]. by apply frame_wire in Hc as [_ ?].
    + unfold output_work, frame_length. cbn. rewrite Hh, Hq, Hp, Hc, length_app. cbn. lia.
  - apply bind_Some in E as (c & Hc & E). injection E as <-. apply Forall_cons in Hall as [_ Hall]. split.
    + unfold only_output. cbn. by split_and!.
    + unfold output_work, frame_length. cbn. rewrite Hh, Hq, Hp, length_app. csimpl. rewrite Hc. cbn. lia.
Qed.

Lemma dispatcher_takes_output w n w' :
  dispatcher_takes w n = Some w' → only_output w → only_output w' ∧ (output_work w' < output_work w)%nat.
Proof.
  unfold dispatcher_takes. intros E (Hend & Hl & Hall & Hnone & Hw). destruct (dispatcher w) as [p|] eqn:Hq; [|done].
  destruct (_ && _) eqn:Hc in E; [|done]. injection E as <-. bool_hyps. rewrite Nat.ltb_lt, !Nat.leb_le in *. split.
  - unfold only_output. cbn. split; [done|split; [done|split; [done|split; [done|]]]].
    destruct (handler w); [done|done|]. destruct Hw as (Hp & cs & xs & Hf & Ht & Hflow). split; [done|].
    exists cs, xs. split; [done|split; [done|]]. by apply flow_takes.
  - unfold output_work. cbn. rewrite Hq, length_drop, length_app, length_take. destruct (handler w); lia.
Qed.

Lemma dispatcher_gets_output w w' :
  dispatcher_gets w = Some w' → terminal_ok w → only_output w → only_output w' ∧ (output_work w' < output_work w)%nat.
Proof using PostcardLaws1.
  unfold dispatcher_gets. intros E [_ Hs _] (Hend & Hl & Hall & Hnone & Hw). destruct (dispatcher w) as [p|] eqn:Hq; [|done].
  destruct (wanted p =? 0)%nat eqn:Hc; [|done]. apply Nat.eqb_eq in Hc. assert (p ≠ []) as Hp by (by intros ->).
  specialize (Hs Hl). rewrite Hq in Hs.
  assert (∀ w'', (∃ chunk, w'' = on_down w (down w) (Running []) (shown w ++ [chunk]) (down_lost w)) ∨ w'' = dispatcher_leaves w →
    (output_work w'' < output_work w)%nat) as Hwork.
  { unfold output_work. rewrite Hq. destruct p; [done|]. intros w'' [[chunk ->]| ->]; cbn; lia. }
  destruct (handler w) as [|h|r] eqn:Hh; [done| |].
  - destruct Hs as (cs & xs & tail & Hf & Ht & Htail & Hflow).
    destruct Htail as [->|(_ & _ & _ & r & Hr)]; [|done]. rewrite app_nil_r in Hflow.
    apply flow_gets in Hflow as (cs' & -> & Hflow); [|done].
    destruct (framed_head _ _ _ _ _ Hf eq_refl) as (x & xs' & -> & Hx & Hf').
    rewrite (frame_read_all _ _ Hx) in E. injection E as <-. split; [|by apply Hwork; left; eexists].
    unfold only_output. cbn. by rewrite Hh.
  - destruct Hw as (Hprint & cs & xs & Hf & Ht & Hflow). apply flow_gets in Hflow as (cs' & Hcs & Hflow); [|done].
    destruct cs as [|c cs].
    + cbn in Hcs. unfold exiting in Hcs. destruct (frame (None : option (list Z))) as [c|] eqn:Hc'; [|done].
      injection Hcs as -> <-. rewrite (frame_read_all _ _ Hc') in E. injection E as <-. split; [|by apply Hwork; right].
      unfold only_output. cbn. rewrite Hh. apply Forall2_nil_inv_l in Hf as ->. rewrite app_nil_r in Ht.
      rewrite Hc'. by split_and!.
    + injection Hcs as -> <-. destruct (framed_head _ _ _ _ _ Hf eq_refl) as (x & xs' & -> & Hx & Hf').
      rewrite (frame_read_all _ _ Hx) in E. injection E as <-. split; [|by apply Hwork; left; eexists].
      unfold only_output. cbn. rewrite Hh. split; [done|split; [done|split; [done|split; [done|split; [done|]]]]].
      exists cs, xs'. by rewrite Ht, <-app_assoc.
Qed.

(** While something is on its way the session has not ended for the client. *)
Lemma dispatcher_eof_output w w' : dispatcher_eof w = Some w' → terminal_ok w → only_output w → False.
Proof.
  unfold dispatcher_eof. intros E [_ _ Hd] (Hend & Hl & Hall & Hnone & Hw). destruct (dispatcher w) as [p|] eqn:Hq; [|done].
  destruct (waiting (down w)) eqn:Hwait; [|done]. destruct (_ && _) eqn:Hc in E; [|done]. bool_hyps. rewrite Nat.ltb_lt in *.
  destruct (handler w) as [|h|r] eqn:Hh; [done| |].
  - rewrite Hd in *; [done|by rewrite Hh].
  - destruct Hw as (_ & cs & xs & _ & _ & Hflow). destruct Hnone as [c Hc'].
    apply flow_waits in Hflow; [lia|]. unfold exiting. rewrite Hc'. by destruct cs.
Qed.
Lemma output_event w e w' :
  output_step e = true → terminal_event w e = Some w' → terminal_ok w → only_output w →
  terminal_ok w' ∧ only_output w' ∧ printed w' = printed w ∧ (output_work w' < output_work w)%nat.
Proof using Type*.
  intros He E Hok Hw. split; [by eapply terminal_event_ok|].
  cut ((only_output w' ∧ (output_work w' < output_work w)%nat) ∧ printed w' = printed w); [tauto|].
  destruct e; try done; cbn in E; (split; [|clear Hok Hw]).
  - by eapply handler_prints_output.
  - unfold handler_prints in E. repeat case_match; try done; apply bind_Some in E as (c & _ & E); by injection E as <-.
  - by eapply dispatcher_takes_output.
  - unfold dispatcher_takes in E. repeat case_match; try done; by injection E as <-.
  - by eapply dispatcher_gets_output.
  - unfold dispatcher_gets in E. repeat case_match; try done; by injection E as <-.
  - by destruct (dispatcher_eof_output _ _ E Hok Hw).
  - unfold dispatcher_eof in E. repeat case_match; try done; by injection E as <-.
Qed.

Lemma output_run w es w' :
  forallb output_step es = true → terminal_run w es = Some w' → terminal_ok w → only_output w →
  terminal_ok w' ∧ only_output w' ∧ printed w' = printed w ∧ (output_work w' + length es <= output_work w)%nat.
Proof using Type*.
  revert w. induction es as [|e es IH]; intros w Hes E Hok Hw; cbn in E.
  - injection E as <-. cbn. split_and!; [done|done|done|lia].
  - cbn in Hes. apply andb_true_iff in Hes as [He Hes]. apply bind_Some in E as (w1 & E1 & E).
    destruct (output_event _ _ _ He E1 Hok Hw) as (Hok1 & Hw1 & Hp1 & Hlt).
    destruct (IH w1 Hes E Hok1 Hw1) as (Hok' & Hw' & Hp & Hle). cbn. split_and!; [done|done|congruence|lia].
Qed.

Definition both_returned (w : Terminal) : Prop := dispatcher w = DispatcherReturned ∧ ∃ r, handler w = HandlerReturned r.

(** Nothing has to be waited for. *)
Lemma output_next w :
  only_output w → both_returned w ∧ shown w = printed w ∨ ∃ e w', output_step e = true ∧ terminal_event w e = Some w'.
Proof.
  intros (Hend & Hl & Hall & [none Hnone] & Hw). destruct (handler w) as [|p|r] eqn:Hh; [done| |].
  - right. exists HandlerPrints. cbn. unfold handler_prints. rewrite Hh.
    destruct (printing w) as [|b rest].
    + rewrite Hend, Hnone. by eexists.
    + apply Forall_cons in Hall as [[c Hc] _]. rewrite Hc. by eexists.
  - destruct (dispatcher w) as [p|] eqn:Hq; [right|left; split; [split; [done|by exists r]|done]].
    destruct Hw as (_ & cs & xs & _ & _ & Hflow). destruct (decide (wanted p = 0%nat)) as [Hp|Hp].
    + exists DispatcherGets. cbn. unfold dispatcher_gets. rewrite Hq, Hp. cbn.
      repeat case_match; by eexists.
    + exists (DispatcherTakes 1). cbn. unfold dispatcher_takes. rewrite Hq.
      destruct (waiting (down w)) as [|b rest] eqn:Hwait.
      * destruct Hp. apply flow_waits in Hflow; [done|]. unfold exiting. rewrite Hnone. by destruct cs.
      * rewrite (proj2 (Nat.leb_le 1 (wanted p))) by lia. by eexists.
Qed.

(** C36: A shell that has exited while both loops run and whose output no read
    was lost of: whatever the order of the steps that are left for the output,
    there are at most [output_work] of them, one of them is always possible,
    and when there is none both have returned and everything it ever printed
    was shown. *)
Theorem output_completes es w partial partial' steps w' :
  terminal_run (terminal_open size_chunk) es = Some w →
  handler w = Serving partial → dispatcher w = Running partial' → pty_ended w = true → down_lost w = false →
  Forall (λ b, is_Some (frame (Some b))) (printing w) → is_Some (frame (None : option (list Z))) →
  forallb output_step steps = true → terminal_run w steps = Some w' →
  (length steps <= output_work w)%nat ∧
  (both_returned w' ∧ shown w' = printed w ∨ ∃ e w'', output_step e = true ∧ terminal_event w' e = Some w'').
Proof using Type*.
  intros Hrun Hh Hq Hend Hl Hall Hnone Hsteps E.
  assert (only_output w) as Hw by (unfold only_output; by rewrite Hh, Hq).
  destruct (output_run _ _ _ Hsteps E (terminal_run_ok _ _ _ Hrun terminal_open_ok) Hw) as (_ & Hw' & Hp & Hle).
  split; [lia|]. rewrite <-Hp. by apply output_next.
Qed.
End terminal.

#[global] Arguments TerminalInput : clear implicits.
#[global] Arguments TerminalPacket : clear implicits.
#[global] Arguments Terminal : clear implicits.
#[global] Arguments TerminalEvent : clear implicits.

(** ** A small shell *)
#[local] Instance postcard_size : Postcard Z :=
  {| to_stdvec s := Ok [s]; from_bytes b := match b with [s] => Ok s | _ => Err ""%string end |}.

#[local] Instance postcard_size_laws : PostcardLaws Z.
Proof. split. by intros x b [= <-]. Qed.

#[local] Instance postcard_packet : Postcard (TerminalPacket Z) := {|
  to_stdvec p := Ok match p with Close => [0] | Input i => 1 :: i | Resize s => [2; s] end;
  from_bytes b := match b with 0 :: _ => Ok Close | 1 :: i => Ok (Input i) | [2; s] => Ok (Resize s) | _ => Err ""%string end;
|}.

#[local] Instance postcard_packet_laws : PostcardLaws (TerminalPacket Z).
Proof. split. intros [] b [= <-]; done. Qed.

#[local] Instance postcard_output : Postcard (option (list Z)) := {|
  to_stdvec o := Ok match o with None => [0] | Some c => 1 :: c end;
  from_bytes b := match b with 0 :: _ => Ok None | 1 :: c => Ok (Some c) | _ => Err ""%string end;
|}.

#[local] Instance postcard_output_laws : PostcardLaws (option (list Z)).
Proof. split. intros [] b [= <-]; done. Qed.

Definition toy_terminal : Terminal Z := terminal_open [1; 80].
Definition toy_size_frame : frame 80 = Some [1; 80] := eq_refl.

(** "ls" is typed and resized, the shell prints "a" and exits. *)
Definition toy_typing : list (TerminalEvent Z) :=
  [HandlerStarts; Types (TypedInput [108; 115]); Types (TypedResize 90); DispatcherSends; DispatcherSends;
   HandlerTakes 1; HandlerTakes 3; HandlerGets; HandlerTakes 1; HandlerTakes 2; HandlerGets; Prints [97]; Exits].
Definition toy_printing : list (TerminalEvent Z) :=
  [HandlerPrints; DispatcherTakes 1; HandlerPrints; DispatcherTakes 2; DispatcherGets; DispatcherTakes 1; DispatcherTakes 1;
   DispatcherGets].

Definition toy_exited : Terminal Z := Eval vm_compute in default toy_terminal (terminal_run toy_terminal toy_typing).
Definition toy_shown : Terminal Z := Eval vm_compute in default toy_terminal (terminal_run toy_exited toy_printing).

Example toy_terminal_outcome :
  (pty_got toy_shown, shown toy_shown, handler toy_shown, dispatcher toy_shown) =
  ([TypedInput [108; 115]; TypedResize 90], [[97]], HandlerReturned HandlerOk, DispatcherReturned).
Proof. reflexivity. Qed.

(** The output is read before the input that has begun to arrive: what is left
    of the input is read as an object of its own. Here the bytes 1 and 0 that
    are typed close the terminal and never reach it. *)
Definition toy_interrupted : list (TerminalEvent Z) :=
  [HandlerStarts; Types (TypedInput [1; 0]); DispatcherSends; HandlerTakes 1; HandlerTakes 1; Prints [97]; HandlerPrints;
   HandlerTakes 1; HandlerTakes 1; HandlerGets].

Example interrupted_read_desynchronises :
  (λ w, (typed w, pty_got w, handler w, up_lost w)) <$> terminal_run toy_terminal toy_interrupted =
  Some ([TypedInput [1; 0]], [], HandlerReturned HandlerOk, true).
Proof. reflexivity. Qed.

Lemma terminal_in_order_witness :
  terminal_run toy_terminal (toy_typing ++ toy_printing) = Some toy_shown ∧
  pty_got toy_shown `prefix_of` [TypedInput [108; 115]; TypedResize 90] ∧ shown toy_shown `prefix_of` [[97]].
Proof.
  assert (terminal_run toy_terminal (toy_typing ++ toy_printing) = Some toy_shown) as Hrun by reflexivity.
  split; [exact Hrun|]. destruct (terminal_in_order 80 [1; 80] toy_size_frame _ _ Hrun) as [Hup Hdown].
  split; [by apply Hup|by apply Hdown].
Defined.

Lemma output_completes_witness :
  (length toy_printing <= output_work toy_exited)%nat ∧
  (both_returned toy_shown ∧ shown toy_shown = printed toy_exited ∨
   ∃ e w'', output_step e = true ∧ terminal_event toy_shown e = Some w'').
Proof.
  assert (terminal_run toy_terminal toy_typing = Some toy_exited) as Hrun by reflexivity.
  assert (terminal_run toy_exited toy_printing = Some toy_shown) as Hdone by reflexivity.
  assert (Forall (λ b, is_Some (frame (Some b))) (printing toy_exited)) as Hall
    by (constructor; [by exists [2; 1; 97]|constructor]).
  assert (is_Some (frame (None : option (list Z)))) as Hnone by (by exists [1; 0]).
  exact (output_completes 80 [1; 80] toy_size_frame _ toy_exited [] [] toy_printing toy_shown
    Hrun eq_refl eq_refl eq_refl eq_refl Hall Hnone eq_refl Hdone).
Defined.
