(* ===== verification/Tunnels.v ===== *)
(** * TCP tunnels of a client ([svalin/src/client/tunnel_manager.rs], [tunnel_manager/tcp.rs],
    [tunnel_manager/tcp/dispatcher.rs])

    A tunnel is an object in the manager's map, a task that listens on a
    local port, a task that takes the tunnel out of the map when the listener
    ends, and a task per accepted connection. They share a watch channel that
    says whether the tunnel is active. The world below holds all of them; a
    task's progress is one step. *)
From S2P Require Import Prelude.
From S2P Require Import External.
From S2P Require Import Toy.
From S2P Require Import Certificate.
From S2P Require Import Verifiers.
From stdpp Require Import relations.
From stdpp Require Import options.

#[local] Open Scope Z_scope.

Abbreviation Uuid := Z.

Record TcpTunnelConfig := mkTcpTunnelConfig { local_port : Z; remote_host : string }.
Inductive TunnelConfig := Tcp (config : TcpTunnelConfig).

Inductive TcpTunnelCreateError := BindError (port : Z) (e : ExtError).
Inductive TcpTunnelRunError := AcceptConnectionError (e : ExtError).
Inductive TunnelCreateError :=
  | NoPeerOnConnection
  | CreateTcp (e : TcpTunnelCreateError).
Inductive TunnelRunError := RunTcp (e : TcpTunnelRunError).

(** [Tunnel]; its channels are named by the number of the run they belong to. *)
Record Tunnel := mkTunnel {
  tunnel_id : Uuid;
  tunnel_config : TunnelConfig;
  run_result : option nat;
  active_send : nat;
  tunnel_peer : Peer;
}.

(** The channels and the listening task of one tunnel: [active_version]
    counts what was sent on the watch channel, a receiver remembers the
    version it has seen; the oneshot channel resolves when the task ends. *)
Record Run := mkRun {
  run_config : TcpTunnelConfig;
  run_connection : Peer;
  active_value : bool;
  active_version : nat;
  listener : option nat;
  run_error : option TcpTunnelRunError;
}.

(** One accepted connection, dispatched to the agent. *)
Inductive ForwardState := Requesting | Copying | Panicked.
#[export] Instance ForwardState_eq_dec : EqDecision ForwardState.
Proof. solve_decision. Defined.
Record Forward := mkForward {
  forward_run : nat;
  forward_target : string;
  forward_seen : nat;
  forward_state : ForwardState;
}.

Record TunnelWorld := mkTunnelWorld {
  (** [HashMap<Certificate, HashMap<Uuid, Tunnel>>]; certificates are hashed and compared by their DER. *)
  active_tunnels : gmap (list Z) (gmap Uuid Tunnel);
  runs : gmap nat Run;
  (** calls of [open] whose tunnel is not yet in the map *)
  opening : gmap nat (Certificate * Tunnel);
  (** [join_set]: the tasks that wait for a run's result *)
  removals : gmap nat (Certificate * Uuid);
  forwards : gmap nat Forward;
}.

Definition tunnel_manager_new : TunnelWorld := mkTunnelWorld ∅ ∅ ∅ ∅ ∅.

Definition with_run (f : Run → Run) (n : nat) (w : TunnelWorld) : TunnelWorld :=
  mkTunnelWorld (active_tunnels w) (alter f n (runs w)) (opening w) (removals w) (forwards w).
Definition with_forwards (f : gmap nat Forward) (w : TunnelWorld) : TunnelWorld :=
  mkTunnelWorld (active_tunnels w) (runs w) (opening w) (removals w) f.
Definition with_tunnels (t : gmap (list Z) (gmap Uuid Tunnel)) (w : TunnelWorld) : TunnelWorld :=
  mkTunnelWorld t (runs w) (opening w) (removals w) (forwards w).

(** *** The watch channel
    [send] fails without changing the value when no receiver is left. *)
Definition forward_holds (n : nat) (f : Forward) : Prop := forward_run f = n.
#[export] Instance forward_holds_dec n f : Decision (forward_holds n f) := decide (forward_run f = n).

Definition has_receivers (w : TunnelWorld) (n : nat) : bool :=
  match runs w !! n with
  | Some r => bool_decide (is_Some (listener r)) || bool_decide (filter (λ nf, forward_holds n nf.2) (forwards w) ≠ ∅)
  | None => false
  end.

Definition set_inactive (r : Run) : Run :=
  mkRun (run_config r) (run_connection r) false (S (active_version r)) (listener r) (run_error r).

Definition send_false (n : nat) (w : TunnelWorld) : TunnelWorld :=
  if has_receivers w n then with_run set_inactive n w else w.

(** [Tunnel::close] and [Drop for Tunnel]. *)
Definition close (t : Tunnel) (w : TunnelWorld) : TunnelWorld := send_false (active_send t) w.
Definition drop_tunnel (t : Tunnel) (w : TunnelWorld) : TunnelWorld := send_false (active_send t) w.

(** *** Opening *)

(** [TcpTunnelConfig::run]: [bound] is what the operating system answers. *)
Definition tcp_run (config : TcpTunnelConfig) (connection : Peer) (bound : result ExtError ()) (n : nat)
    (w : TunnelWorld) : TunnelWorld * result TcpTunnelCreateError nat :=
  match bound with
  | Ok _ =>
      (mkTunnelWorld (active_tunnels w) (<[ n := mkRun config connection true 0 (Some 0%nat) None ]> (runs w))
         (opening w) (removals w) (forwards w), Ok n)
  | Err e => (w, Err (BindError (local_port config) e))
  | Panic => (w, Panic)
  end.

Definition tunnel_open (connection : Peer) (config : TunnelConfig) (bound : result ExtError ()) (n : nat)
    (id : Uuid) (w : TunnelWorld) : TunnelWorld * result TunnelCreateError Tunnel :=
  match config with
  | Tcp tcp =>
      let '(w, r) := tcp_run tcp connection bound n w in
      (w, n ← map_err CreateTcp r; Ok (mkTunnel id config (Some n) n connection))
  end.

Definition take_result (t : Tunnel) : Tunnel * option nat :=
  (mkTunnel (tunnel_id t) (tunnel_config t) None (active_send t) (tunnel_peer t), run_result t).

(** [TunnelManager::open] until the tunnel is running ... *)
Definition manager_open (connection : Peer) (config : TunnelConfig) (bound : result ExtError ()) (n : nat)
    (id : Uuid) (w : TunnelWorld) : TunnelWorld * result TunnelCreateError () :=
  match connection with
  | Anonymous => (w, Err NoPeerOnConnection)
  | PeerCertificate certificate =>
      match tunnel_open connection config bound n id w with
      | (w, Ok tunnel) =>
          match take_result tunnel with
          | (tunnel, Some m) =>
              (mkTunnelWorld (active_tunnels w) (runs w) (<[ m := (certificate, tunnel) ]> (opening w)) (removals w)
                 (forwards w), Ok ())
          | (_, None) => (w, Panic)
          end
      | (w, Err e) => (w, Err e)
      | (w, Panic) => (w, Panic)
      end
  end.

(** ... and from there on: the tunnel is put into the map, a tunnel it
    replaces is dropped, and the task that removes it is spawned. *)
Definition manager_list (m : nat) (w : TunnelWorld) : TunnelWorld :=
  match opening w !! m with
  | Some opened =>
      let certificate : Certificate := opened.1 in
      let tunnel := opened.2 in
      let id := tunnel_id tunnel in
      let '(tunnels, replaced) :=
        match active_tunnels w !! der certificate with
        | Some peer_tunnels =>
            (<[ der certificate := <[ id := tunnel ]> peer_tunnels ]> (active_tunnels w), peer_tunnels !! id)
        | None => (<[ der certificate := {[ id := tunnel ]} ]> (active_tunnels w), None)
        end in
      let w := mkTunnelWorld tunnels (runs w) (delete m (opening w)) (<[ m := (certificate, id) ]> (removals w))
                 (forwards w) in
      match replaced with Some old => drop_tunnel old w | None => w end
  | None => w
  end.

(** [TunnelManager::close_tunnel] closes the first tunnel with that id; the
    order in which the outer map is walked is [order]. *)
Fixpoint find_tunnel (tunnels : gmap (list Z) (gmap Uuid Tunnel)) (order : list (list Z)) (id : Uuid) :
    option Tunnel :=
  match order with
  | [] => None
  | peer :: order =>
      match (peer_tunnels ← tunnels !! peer; peer_tunnels !! id) with
      | Some tunnel => Some tunnel
      | None => find_tunnel tunnels order id
      end
  end%stdpp.
Definition close_tunnel (order : list (list Z)) (id : Uuid) (w : TunnelWorld) : TunnelWorld :=
  match find_tunnel (active_tunnels w) order id with
  | Some tunnel => close tunnel w
  | None => w
  end.

(** *** The listening task *)
Definition end_listener (error : option TcpTunnelRunError) (r : Run) : Run :=
  mkRun (run_config r) (run_connection r) (active_value r) (active_version r) None error.

(** The branch [active_recv.changed()]. *)
Definition listener_changed (n : nat) (w : TunnelWorld) : TunnelWorld :=
  match runs w !! n with
  | Some r =>
      match listener r with
      | Some seen =>
          if bool_decide (seen = active_version r) then w
          else if active_value r then
            with_run (λ r, mkRun (run_config r) (run_connection r) (active_value r) (active_version r)
                             (Some (active_version r)) (run_error r)) n w
          else with_run (end_listener None) n w
      | None => w
      end
  | None => w
  end.

(** The branch [listener.accept()]; a new forward gets the number [k]. *)
Definition listener_accept (n : nat) (stream : result ExtError ()) (k : nat) (w : TunnelWorld) : TunnelWorld :=
  match runs w !! n with
  | Some r =>
      match listener r with
      | Some seen =>
          if negb (active_value r) then with_run (end_listener None) n w
          else match stream with
               | Err e => with_run (end_listener (Some (AcceptConnectionError e))) n w
               | Ok _ => with_forwards
                           (<[ k := mkForward n (remote_host (run_config r)) seen Requesting ]> (forwards w)) w
               | Panic => w
               end
      | None => w
      end
  | None => w
  end.

(** *** The task that removes a tunnel *)
Definition await_result (r : Run) : result TunnelRunError () :=
  match run_error r with Some err => Err (RunTcp err) | None => Ok () end.

(** It logs the result and takes the tunnel out of the map, which drops it. *)
Definition removal (n : nat) (w : TunnelWorld) : TunnelWorld :=
  match removals w !! n, runs w !! n with
  | Some entry, Some r =>
      let certificate : Certificate := entry.1 in
      let id := entry.2 in
      match listener r with
      | Some _ => w
      | None =>
          let done := mkTunnelWorld (active_tunnels w) (runs w) (opening w) (delete n (removals w)) (forwards w) in
          match active_tunnels w !! der certificate with
          | None => done
          | Some peer_tunnels =>
              let rest := delete id peer_tunnels in
              let done := with_tunnels
                (if bool_decide (rest = ∅) then delete (der certificate) (active_tunnels w)
                 else <[ der certificate := rest ]> (active_tunnels w)) done in
              match peer_tunnels !! id with Some tunnel => drop_tunnel tunnel done | None => done end
          end
      end
  | _, _ => w
  end.

(** *** The task of an accepted connection ([TcpForwardDispatcher::dispatch]) *)
Definition forward_answer (k : nat) (answer : result () ()) (w : TunnelWorld) : TunnelWorld :=
  match forwards w !! k with
  | Some f =>
      match forward_state f with
      | Requesting =>
          with_forwards
            (match answer with
             | Ok _ => <[ k := mkForward (forward_run f) (forward_target f) (forward_seen f) Copying ]> (forwards w)
             | _ => delete k (forwards w)
             end) w
      | _ => w
      end
  | None => w
  end.

Definition forward_copied (k : nat) (w : TunnelWorld) : TunnelWorld :=
  match forwards w !! k with
  | Some f => match forward_state f with Copying => with_forwards (delete k (forwards w)) w | _ => w end
  | None => w
  end.

Definition forward_changed (k : nat) (w : TunnelWorld) : TunnelWorld :=
  match forwards w !! k with
  | Some f =>
      match forward_state f, runs w !! forward_run f with
      | Copying, Some r =>
          if bool_decide (forward_seen f = active_version r) then w
          else with_forwards
            (if negb (active_value r) then delete k (forwards w)
             else <[ k := mkForward (forward_run f) (forward_target f) (active_version r) Panicked ]> (forwards w)) w
      | _, _ => w
      end
  | None => w
  end.

(** ** The manager at work *)

(** The tasks' own steps. *)
Inductive tunnel_task (w : TunnelWorld) : TunnelWorld → Prop :=
  | task_listed m : is_Some (opening w !! m) → tunnel_task w (manager_list m w)
  | task_listener n r seen :
      runs w !! n = Some r → listener r = Some seen → seen ≠ active_version r → tunnel_task w (listener_changed n w)
  | task_removal n r entry :
      removals w !! n = Some entry → runs w !! n = Some r → listener r = None → tunnel_task w (removal n w)
  | task_forward k f r :
      forwards w !! k = Some f → forward_state f = Copying → runs w !! forward_run f = Some r →
      forward_seen f ≠ active_version r → tunnel_task w (forward_changed k w).

(** The ids of the tunnels there are; a drawn UUID is none of them. *)
Definition id_in_use (w : TunnelWorld) (id : Uuid) : Prop :=
  (∃ d peer_tunnels, active_tunnels w !! d = Some peer_tunnels ∧ is_Some (peer_tunnels !! id)) ∨
  (∃ m certificate tunnel, opening w !! m = Some (certificate, tunnel) ∧ tunnel_id tunnel = id).

(** What the user, the peers and the operating system do. *)
Inductive world_step (w : TunnelWorld) : TunnelWorld → Prop :=
  | step_task w' : tunnel_task w w' → world_step w w'
  | step_open connection config bound n id :
      ¬ id_in_use w id → runs w !! n = None → world_step w (manager_open connection config bound n id w).1
  | step_close order id : world_step w (close_tunnel order id w)
  | step_accept n stream k : forwards w !! k = None → world_step w (listener_accept n stream k w)
  | step_answer k answer : world_step w (forward_answer k answer w)
  | step_copied k : world_step w (forward_copied k w).

Definition reachable (w : TunnelWorld) : Prop := rtc world_step tunnel_manager_new w.

(** ** What holds in every reachable world *)
Definition listed (w : TunnelWorld) (d : list Z) (id : Uuid) (t : Tunnel) : Prop :=
  ∃ peer_tunnels, active_tunnels w !! d = Some peer_tunnels ∧ peer_tunnels !! id = Some t.

(** Somebody still looks at the channel of run [n]. *)
Definition heard (w : TunnelWorld) (n : nat) : Prop :=
  ∃ r, runs w !! n = Some r ∧ (is_Some (listener r) ∨ ∃ k f, forwards w !! k = Some f ∧ forward_run f = n).

Definition quiet (w : TunnelWorld) (n : nat) : Prop :=
  ∀ r, runs w !! n = Some r → active_value r = true → ¬ heard w n.
Definition owned (w : TunnelWorld) (n : nat) : Prop := is_Some (opening w !! n) ∨ is_Some (removals w !! n).

(** The manager's books: the map, the calls of [open] under way, the removal tasks. *)
Record book_ok (w : TunnelWorld) : Prop := {
  book_opening m c t :
    opening w !! m = Some (c, t) →
    active_send t = m ∧ is_Some (runs w !! m) ∧ removals w !! m = None ∧ tunnel_peer t = PeerCertificate c ∧
    ∀ d t', ¬ listed w d (tunnel_id t) t';
  book_opening_ids m c t m' c' t' :
    opening w !! m = Some (c, t) → opening w !! m' = Some (c', t') → tunnel_id t = tunnel_id t' → m = m';
  book_removal n c id :
    removals w !! n = Some (c, id) →
    is_Some (runs w !! n) ∧ ∃ t, listed w (der (c : Certificate)) id t ∧ active_send t = n;
  book_listed d id t :
    listed w d id t →
    ∃ c, removals w !! active_send t = Some (c, id) ∧ der (c : Certificate) = d ∧
         tunnel_id t = id ∧ tunnel_peer t = PeerCertificate c;
  book_ids d id t d' t' : listed w d id t → listed w d' id t' → d = d';
  book_peers d peer_tunnels : active_tunnels w !! d = Some peer_tunnels → peer_tunnels ≠ ∅;
}.

(** The watch channels: nothing but [false] was ever sent. *)
Record channels_ok (w : TunnelWorld) : Prop := {
  channel_version n r :
    runs w !! n = Some r → (active_value r = true ↔ active_version r = 0%nat);
  channel_listener n r seen : runs w !! n = Some r → listener r = Some seen → seen = 0%nat;
  channel_forward k f :
    forwards w !! k = Some f → forward_seen f = 0%nat ∧ forward_state f ≠ Panicked ∧ is_Some (runs w !! forward_run f);
}.

Record world_ok (w : TunnelWorld) : Prop := {
  ok_book : book_ok w;
  ok_channels : channels_ok w;
  ok_owned n : quiet w n ∨ owned w n;
}.

Lemma has_receivers_iff w n : has_receivers w n = true ↔ heard w n.
Proof.
  unfold has_receivers, heard. destruct (runs w !! n) as [r|]; [|naive_solver].
  rewrite orb_true_iff, !bool_decide_eq_true. split.
  - intros [Hl|(k & f & Hf)%map_choose]; [naive_solver|].
    apply map_lookup_filter_Some in Hf as [Hf Hn]. exists r. split; [done|]. right. by exists k, f.
  - intros (r' & [= <-] & [Hl|(k & f & Hf & Hn)]); [by left|right]. intros He.
    assert (filter (λ nf, forward_holds n nf.2) (forwards w) !! k = Some f) as Hk by by apply map_lookup_filter_Some.
    by rewrite He, lookup_empty in Hk.
Qed.

(** The books mention the runs only by their existence. *)
Lemma book_ok_runs w f n fs :
  book_ok w → book_ok (mkTunnelWorld (active_tunnels w) (alter f n (runs w)) (opening w) (removals w) fs).
Proof.
  intros [Ho Hi Hr Hl Hd Hp]. split; cbn; try done.
  - intros m c t Hm. destruct (Ho m c t Hm) as (? & ? & ? & ? & ?). split_and!; try done.
    rewrite lookup_alter_is_Some. done.
  - intros m c id Hm. destruct (Hr m c id Hm) as (? & ?). rewrite lookup_alter_is_Some. done.
Qed.

Lemma quiet_mono w w' n :
  (∀ r', runs w' !! n = Some r' → active_value r' = true → ∃ r, runs w !! n = Some r ∧ active_value r = true) →
  (heard w' n → heard w n) → quiet w n → quiet w' n.
Proof. intros Hr Hh Hq r' Hr' Ha Hn. destruct (Hr _ Hr' Ha) as (r & ? & ?). by eapply Hq; [..|apply Hh]. Qed.

Lemma owned_same w w' n : opening w' = opening w → removals w' = removals w → owned w n → owned w' n.
Proof. intros Ho Hr. unfold owned. by rewrite Ho, Hr. Qed.

(** *** Sending [false] *)
Lemma heard_run w f n m :
  (∀ r, listener (f r) = listener r) → heard (with_run f n w) m ↔ heard w m.
Proof.
  intros Hf. unfold heard. cbn. split.
  - intros (r & Hr & Hh). destruct (decide (n = m)) as [->|Hne].
    + rewrite lookup_alter_eq, fmap_Some in Hr. destruct Hr as (r' & Hr' & ->). rewrite Hf in Hh. by exists r'.
    + rewrite lookup_alter_ne in Hr by done. by exists r.
  - intros (r & Hr & Hh). destruct (decide (n = m)) as [->|Hne].
    + exists (f r). rewrite lookup_alter_eq, Hr, Hf. done.
    + exists r. by rewrite lookup_alter_ne.
Qed.

Lemma send_false_cases (P : TunnelWorld → Prop) n w :
  P w → P (with_run set_inactive n w) → P (send_false n w).
Proof. intros H1 H2. unfold send_false. by destruct (has_receivers w n). Qed.

Lemma send_false_book n w : book_ok w → book_ok (send_false n w).
Proof. intros Hb. apply send_false_cases; [done|]. by apply book_ok_runs. Qed.

Lemma send_false_channels n w : channels_ok w → channels_ok (send_false n w).
Proof.
  intros Hc. apply send_false_cases; [done|]. destruct Hc as [Hv Hl Hf]. split; cbn.
  - intros m r. destruct (decide (n = m)) as [->|Hne].
    + rewrite lookup_alter_eq, fmap_Some. intros (r' & Hr' & ->). cbn. split; done.
    + rewrite lookup_alter_ne by done. apply Hv.
  - intros m r seen. destruct (decide (n = m)) as [->|Hne].
    + rewrite lookup_alter_eq, fmap_Some. intros (r' & Hr' & ->). by apply (Hl m r').
    + rewrite lookup_alter_ne by done. apply Hl.
  - intros k f Hk. rewrite lookup_alter_is_Some. by apply (Hf k).
Qed.

Lemma send_false_quiet n w m : quiet w m → quiet (send_false n w) m.
Proof.
  intros Hq. apply send_false_cases; [done|]. eapply quiet_mono; [| |done].
  - cbn. intros r'. destruct (decide (n = m)) as [->|Hne]; [|rewrite lookup_alter_ne by done; eauto].
    rewrite lookup_alter_eq, fmap_Some. by intros (r & Hr & ->) [=].
  - by apply heard_run.
Qed.

Lemma send_false_silences n w : quiet (send_false n w) n.
Proof.
  unfold send_false. destruct (has_receivers w n) eqn:Hh.
  - intros r. cbn. rewrite lookup_alter_eq, fmap_Some. by intros (r' & Hr & ->) [=].
  - intros r Hr _ Hn%has_receivers_iff. by rewrite Hh in Hn.
Qed.

Lemma send_false_owned n w m : owned (send_false n w) m ↔ owned w m.
Proof. unfold send_false. by destruct (has_receivers w n). Qed.

Lemma close_ok t w : world_ok w → world_ok (close t w).
Proof.
  intros [Hb Hc Ho]. split; [by apply send_false_book|by apply send_false_channels|].
  intros n. destruct (Ho n) as [Hq|Hn]; [left; by apply send_false_quiet|right; by apply send_false_owned].
Qed.

Lemma close_tunnel_ok order id w : world_ok w → world_ok (close_tunnel order id w).
Proof. intros Hw. unfold close_tunnel. destruct (find_tunnel _ _ _); [by apply close_ok|done]. Qed.

(** *** Tasks that only use the channels *)
Lemma only_channels w f n fs :
  world_ok w →
  (∀ r, active_value (f r) = active_value r) →
  (∀ r, is_Some (listener (f r)) → is_Some (listener r)) →
  (∀ k g, fs !! k = Some g → heard w (forward_run g) ) →
  channels_ok (mkTunnelWorld (active_tunnels w) (alter f n (runs w)) (opening w) (removals w) fs) →
  world_ok (mkTunnelWorld (active_tunnels w) (alter f n (runs w)) (opening w) (removals w) fs).
Proof.
  intros [Hb Hc Ho] Hv Hl Hf Hc'. split; [by apply book_ok_runs|done|].
  intros m. destruct (Ho m) as [Hq|Hn]; [left|by right]. eapply quiet_mono; [| |done]; cbn.
  - intros r'. destruct (decide (n = m)) as [->|Hne]; [|rewrite lookup_alter_ne by done; eauto].
    rewrite lookup_alter_eq, fmap_Some. intros (r & Hr & ->). rewrite Hv. eauto.
  - intros (r & Hr & [Hs|(k & g & Hk & Hm)]); cbn in *.
    + destruct (decide (n = m)) as [->|Hne]; [|rewrite lookup_alter_ne in Hr by done; exists r; eauto].
      rewrite lookup_alter_eq, fmap_Some in Hr. destruct Hr as (r' & Hr & ->). exists r'. split; [done|]. left. by apply Hl.
    + subst m. by apply (Hf k g).
Qed.

Lemma forwards_heard w k g : channels_ok w → forwards w !! k = Some g → heard w (forward_run g).
Proof. intros Hc Hk. destruct (channel_forward _ Hc _ _ Hk) as (_ & _ & r & Hr). exists r. split; [done|]. right. by exists k, g. Qed.

Lemma listener_ended w n error : world_ok w → world_ok (with_run (end_listener error) n w).
Proof.
  intros Hw. apply only_channels; [done|done|by intros r [? [=]]| |].
  { intros k g. by apply forwards_heard, Hw. }
  destruct (ok_channels _ Hw) as [Hv Hl Hf]. split; cbn.
  - intros m r. destruct (decide (n = m)) as [->|Hne]; [|rewrite lookup_alter_ne by done; apply Hv].
    rewrite lookup_alter_eq, fmap_Some. intros (r' & Hr & ->). apply (Hv m r' Hr).
  - intros m r seen. destruct (decide (n = m)) as [->|Hne]; [|rewrite lookup_alter_ne by done; apply Hl].
    rewrite lookup_alter_eq, fmap_Some. by intros (r' & Hr & ->).
  - intros k f Hk. rewrite lookup_alter_is_Some. by apply (Hf k).
Qed.

Lemma forwards_set w fs :
  world_ok w →
  (∀ k g, fs !! k = Some g →
     forward_seen g = 0%nat ∧ forward_state g ≠ Panicked ∧ heard w (forward_run g)) →
  world_ok (with_forwards fs w).
Proof.
  intros Hw Hfs.
  assert (Hid : runs w = alter (λ r, r) 0%nat (runs w)) by by rewrite alter_id.
  unfold with_forwards. rewrite Hid. apply only_channels; [done|done|done|by intros k g (_ & _ & ?)%Hfs|].
  rewrite <- Hid. destruct (ok_channels _ Hw) as [Hv Hl Hf]. split; [done|done|].
  intros k f (? & ? & r & Hr & _)%Hfs. by split_and!.
Qed.

Lemma listener_changed_ok n w : world_ok w → world_ok (listener_changed n w).
Proof.
  intros Hw. unfold listener_changed. destruct (runs w !! n) as [r|] eqn:Hr; [|done].
  destruct (listener r) as [seen|] eqn:Hs; [|done]. case_bool_decide as Hv; [done|].
  destruct (active_value r) eqn:Ha; [|by apply listener_ended].
  destruct Hv. rewrite (channel_listener _ (ok_channels _ Hw) _ _ _ Hr Hs).
  symmetry. by apply (channel_version _ (ok_channels _ Hw) _ _ Hr).
Qed.

Lemma forward_kept w k g :
  world_ok w → forwards w !! k = Some g →
  forward_seen g = 0%nat ∧ forward_state g ≠ Panicked ∧ heard w (forward_run g).
Proof.
  intros Hw Hk. destruct (channel_forward _ (ok_channels _ Hw) _ _ Hk) as (? & ? & _). split_and!; [done..|].
  eapply forwards_heard; [apply Hw|done].
Qed.

Lemma forward_deleted w k : world_ok w → world_ok (with_forwards (delete k (forwards w)) w).
Proof. intros Hw. apply forwards_set; [done|]. intros j g [_ Hj]%lookup_delete_Some. by apply (forward_kept w j). Qed.

Lemma forward_inserted w k g :
  world_ok w → forward_seen g = 0%nat → forward_state g ≠ Panicked → heard w (forward_run g) →
  world_ok (with_forwards (<[ k := g ]> (forwards w)) w).
Proof.
  intros Hw ???. apply forwards_set; [done|].
  intros j g' [[<- <-]|[_ Hj]]%lookup_insert_Some; [done|by apply (forward_kept w j)].
Qed.

Lemma listener_accept_ok n stream k w : world_ok w → world_ok (listener_accept n stream k w).
Proof.
  intros Hw. unfold listener_accept. destruct (runs w !! n) as [r|] eqn:Hr; [|done].
  destruct (listener r) as [seen|] eqn:Hs; [|done]. destruct (active_value r) eqn:Ha; cbn [negb]; [|by apply listener_ended].
  destruct stream as [[]|e|]; [|by apply listener_ended|done].
  apply forward_inserted; [done| |done|]; cbn.
  - apply (channel_listener _ (ok_channels _ Hw) _ _ _ Hr Hs).
  - exists r. split; [done|]. left. by rewrite Hs.
Qed.

Lemma forward_answer_ok k answer w : world_ok w → world_ok (forward_answer k answer w).
Proof.
  intros Hw. unfold forward_answer. destruct (forwards w !! k) as [f|] eqn:Hf; [|done].
  destruct (forward_kept _ _ _ Hw Hf) as (? & ? & ?).
  destruct (forward_state f); [|done..]. destruct answer; [by apply forward_inserted|by apply forward_deleted..].
Qed.

Lemma forward_copied_ok k w : world_ok w → world_ok (forward_copied k w).
Proof.
  intros Hw. unfold forward_copied. destruct (forwards w !! k) as [f|]; [|done].
  destruct (forward_state f); [done|by apply forward_deleted|done].
Qed.

Lemma forward_changed_ok k w : world_ok w → world_ok (forward_changed k w).
Proof.
  intros Hw. unfold forward_changed. destruct (forwards w !! k) as [f|] eqn:Hf; [|done].
  destruct (forward_state f); [done| |done]. destruct (runs w !! forward_run f) as [r|] eqn:Hr; [|done].
  case_bool_decide as Hv; [done|]. destruct (active_value r) eqn:Ha; cbn [negb]; [|by apply forward_deleted].
  destruct Hv. rewrite (proj1 (forward_kept _ _ _ Hw Hf)). symmetry.
  by apply (channel_version _ (ok_channels _ Hw) _ _ Hr).
Qed.

(** *** Opening and listing *)
Lemma manager_open_ok connection config bound n id w :
  ¬ id_in_use w id → runs w !! n = None → world_ok w → world_ok (manager_open connection config bound n id w).1.
Proof.
  intros Hid Hn [Hb Hc Ho]. unfold manager_open.
  destruct connection as [|certificate]; [done|]. destruct config as [tcp]. cbn.
  destruct bound as [[]|e|]; cbn; [|done..]. split.
  - destruct Hb as [Bo Bi Br Bl Bd Bp]. split; cbn; try done.
    + intros m c t [[<- [= <- <-]]|[Hne Hm]]%lookup_insert_Some.
      * cbn. rewrite lookup_insert_eq. split_and!; [done|done| |done|].
        { destruct (removals w !! n) as [[c' id']|] eqn:Hr; [|done]. destruct (Br _ _ _ Hr) as [[] _]. congruence. }
        intros d t' (pt & Hpt & Ht'). apply Hid. left. exists d, pt. by rewrite Ht'.
      * destruct (Bo m c t Hm) as (? & ? & ? & ? & ?). split_and!; try done. by rewrite lookup_insert_ne.
    + intros m c t m' c' t' [[<- [= <- <-]]|[Hne Hm]]%lookup_insert_Some [[<- [= <- <-]]|[Hne' Hm']]%lookup_insert_Some;
        cbn; intros He; [done| | |by eapply Bi]; destruct Hid; right; eauto 6.
    + intros m c i Hm. destruct (Br m c i Hm) as (Hr & ?). split; [|done].
      destruct (decide (n = m)) as [<-|Hne]; [by rewrite lookup_insert_eq|by rewrite lookup_insert_ne].
  - destruct Hc as [Hv Hl Hf]. split; cbn.
    + intros m r [[<- <-]|[_ Hm]]%lookup_insert_Some; [done|by apply (Hv m)].
    + intros m r seen [[<- <-]|[_ Hm]]%lookup_insert_Some; [by intros [= <-]|by apply (Hl m)].
    + intros k f Hk. destruct (Hf k f Hk) as (? & ? & ?). split_and!; [done..|].
      destruct (decide (n = forward_run f)) as [->|Hne]; [by rewrite lookup_insert_eq|by rewrite lookup_insert_ne].
  - intros m. destruct (decide (n = m)) as [<-|Hne].
    { right. left. cbn. by rewrite lookup_insert_eq. }
    destruct (Ho m) as [Hq|Hm]; [left|right].
    + eapply quiet_mono; [| |done]; cbn.
      * rewrite lookup_insert_ne by done. eauto.
      * intros (r & Hr & Hh). cbn in *. rewrite lookup_insert_ne in Hr by done. by exists r.
    + unfold owned. cbn. by rewrite lookup_insert_ne.
Qed.

Lemma manager_list_world w m c t :
  world_ok w → opening w !! m = Some (c, t) →
  ∃ T, manager_list m w = mkTunnelWorld T (runs w) (delete m (opening w)) (<[ m := (c, tunnel_id t) ]> (removals w)) (forwards w) ∧
    (∀ d i t', listed (with_tunnels T w) d i t' ↔ (d = der (c : Certificate) ∧ i = tunnel_id t ∧ t' = t) ∨ listed w d i t') ∧
    (∀ d pt, T !! d = Some pt → pt ≠ ∅).
Proof.
  intros [Hb _ _] Hm. destruct (book_opening _ Hb _ _ _ Hm) as (_ & _ & _ & _ & Hfree).
  unfold manager_list. rewrite Hm. cbn [fst snd].
  set (T := match active_tunnels w !! der c with
            | Some pt => <[ der c := <[ tunnel_id t := t ]> pt ]> (active_tunnels w)
            | None => <[ der c := {[ tunnel_id t := t ]} ]> (active_tunnels w) end).
  exists T. split_and!.
  - unfold T. destruct (active_tunnels w !! der c) as [pt|] eqn:Hpt; [|done].
    destruct (pt !! tunnel_id t) as [old|] eqn:Hold; [|done]. exfalso. eapply (Hfree (der c) old). by exists pt.
  - intros d i t'. unfold listed, T. cbn. destruct (active_tunnels w !! der c) as [pt|] eqn:Hpt; split.
    + intros (pt' & [[<- <-]|[Hd Hp]]%lookup_insert_Some & Ht); [|right; by exists pt'].
      apply lookup_insert_Some in Ht as [[<- <-]|[Hi Ht]]; [by left|right; by exists pt].
    + intros [(-> & -> & ->)|(pt' & Hp & Ht)]; [eexists; split; [by rewrite lookup_insert_eq|by rewrite lookup_insert_eq]|].
      destruct (decide (d = der c)) as [->|Hd]; [|exists pt'; by rewrite lookup_insert_ne].
      replace pt' with pt in Ht by congruence. eexists. split; [by rewrite lookup_insert_eq|].
      rewrite lookup_insert_ne; [done|]. intros <-. eapply (Hfree (der c) t'). by exists pt.
    + intros (pt' & [[<- <-]|[Hd Hp]]%lookup_insert_Some & Ht); [|right; by exists pt'].
      apply lookup_singleton_Some in Ht as [<- <-]. by left.
    + intros [(-> & -> & ->)|(pt' & Hp & Ht)]; [eexists; split; [by rewrite lookup_insert_eq|by apply lookup_singleton_Some]|].
      exists pt'. rewrite lookup_insert_ne by congruence. done.
  - intros d pt. unfold T.
    destruct (active_tunnels w !! der c) as [pt'|]; intros [[<- <-]|[_ Hd]]%lookup_insert_Some;
      [apply insert_non_empty|by eapply book_peers|apply map_non_empty_singleton|by eapply book_peers].
Qed.

Lemma removal_world w n c i r :
  world_ok w → removals w !! n = Some (c, i) → runs w !! n = Some r → listener r = None →
  ∃ T, removal n w = send_false n (mkTunnelWorld T (runs w) (opening w) (delete n (removals w)) (forwards w)) ∧
    (∀ d j t, listed (with_tunnels T w) d j t ↔ listed w d j t ∧ active_send t ≠ n) ∧
    (∀ d pt, T !! d = Some pt → pt ≠ ∅).
Proof.
  intros [Hb _ _] Hn Hr Hl. destruct (book_removal _ Hb _ _ _ Hn) as (_ & t & (pt & Hpt & Ht) & Hs).
  set (T := if bool_decide (delete i pt = ∅) then delete (der c) (active_tunnels w)
            else <[ der c := delete i pt ]> (active_tunnels w)).
  assert (Hown : ∀ d j t', listed w d j t' → active_send t' = n → d = der c ∧ j = i).
  { intros d j t' (c' & Hc' & <- & _)%(book_listed _ Hb) Hn'. rewrite Hn', Hn in Hc'. by injection Hc' as <- <-. }
  assert (Hit : ∀ t', listed w (der c) i t' → active_send t' = n) by (intros t' (pt' & ? & ?); congruence).
  exists T. split_and!.
  - unfold removal. rewrite Hn, Hr, Hl. cbn [fst snd]. rewrite Hpt, Ht. unfold drop_tunnel. by rewrite Hs.
  - intros d j t'. trans (listed w d j t' ∧ ¬ (d = der c ∧ j = i)).
    2: { split; intros [Ht' Hne]; (split; [done|]); intros H'; apply Hne; [by eapply Hown|].
         destruct H' as [-> ->]. by apply Hit. }
    unfold listed, T. cbn. case_bool_decide as He.
    + setoid_rewrite lookup_delete_Some. split.
      * intros (pt' & [Hd Hp] & Ht'). split; [by exists pt'|]. intros [-> _]. done.
      * intros ((pt' & Hp & Ht') & Hne). exists pt'. split; [|done]. split; [|done]. intros <-.
        apply Hne. split; [done|]. replace pt' with pt in Ht' by congruence.
        destruct (decide (j = i)) as [|Hj]; [done|]. assert (delete i pt !! j = Some t') as Hx by by rewrite lookup_delete_ne.
        by rewrite He, lookup_empty in Hx.
    + split.
      * intros (pt' & [[<- <-]|[Hd Hp]]%lookup_insert_Some & Ht').
        { apply lookup_delete_Some in Ht' as [Hj Ht']. split; [by exists pt|]. by intros [_ ->]. }
        split; [by exists pt'|]. by intros [-> _].
      * intros ((pt' & Hp & Ht') & Hne). destruct (decide (d = der c)) as [->|Hd]; [|exists pt'; by rewrite lookup_insert_ne].
        replace pt' with pt in Ht' by congruence. exists (delete i pt). rewrite lookup_insert_eq. split; [done|].
        rewrite lookup_delete_ne; [done|]. intros <-. by apply Hne.
  - intros d pt'. unfold T. case_bool_decide as He.
    + intros [_ Hd]%lookup_delete_Some. by eapply book_peers.
    + intros [[<- <-]|[_ Hd]]%lookup_insert_Some; [done|by eapply book_peers].
Qed.

Lemma manager_list_ok m w : world_ok w → world_ok (manager_list m w).
Proof.
  intros Hw. destruct (opening w !! m) as [[c t]|] eqn:Hm; [|unfold manager_list; by rewrite Hm].
  destruct (manager_list_world _ _ _ _ Hw Hm) as (T & -> & Hl & HT).
  destruct Hw as [[Bo Bi Br Bl Bd Bp] Hc Ho]. destruct (Bo _ _ _ Hm) as (Hs & Hrun & Hnone & Hpeer & Hfree). split.
  - split; cbn.
    + intros m' c' t' [Hne Hm']%lookup_delete_Some. destruct (Bo _ _ _ Hm') as (? & ? & ? & ? & Hf).
      rewrite lookup_insert_ne by done. split_and!; [done..|]. intros d t2 [(-> & He & ->)|Ht2]%Hl; [|by eapply Hf].
      apply Hne. symmetry. by eapply Bi.
    + intros m1 c1 t1 m2 c2 t2 [_ H1]%lookup_delete_Some [_ H2]%lookup_delete_Some. by eapply Bi.
    + intros n c' i [[<- [= <- <-]]|[_ Hn]]%lookup_insert_Some.
      { split; [done|]. exists t. split; [|done]. apply Hl. by left. }
      destruct (Br _ _ _ Hn) as (? & t' & Ht' & ?). split; [done|]. exists t'. split; [|done]. apply Hl. by right.
    + intros d i t' [(-> & -> & ->)|Ht']%Hl.
      { exists c. by rewrite Hs, lookup_insert_eq. }
      destruct (Bl _ _ _ Ht') as (c' & Hr & ? & ? & ?). exists c'. rewrite lookup_insert_ne; [done|]. congruence.
    + intros d i t1 d' t2 [(-> & -> & ->)|H1]%Hl [(-> & He & ->)|H2]%Hl; [done| | |by eapply Bd].
      * by destruct (Hfree _ _ H2).
      * subst. by destruct (Hfree _ _ H1).
    + apply HT.
  - by destruct Hc.
  - intros n. destruct (Ho n) as [Hq|Hn]; [left; by eapply quiet_mono; [| |done]; eauto|].
    destruct (decide (m = n)) as [<-|Hne]; right; unfold owned; cbn.
    + right. by rewrite lookup_insert_eq.
    + by rewrite lookup_delete_ne, lookup_insert_ne.
Qed.

Lemma removal_cases (P : TunnelWorld → Prop) n w :
  world_ok w → P w →
  (∀ c i r T, removals w !! n = Some (c, i) → runs w !! n = Some r → listener r = None →
     (∀ d j t, listed (with_tunnels T w) d j t ↔ listed w d j t ∧ active_send t ≠ n) →
     (∀ d pt, T !! d = Some pt → pt ≠ ∅) →
     P (send_false n (mkTunnelWorld T (runs w) (opening w) (delete n (removals w)) (forwards w)))) →
  P (removal n w).
Proof.
  intros Hw H1 H2. destruct (removals w !! n) as [[c i]|] eqn:Hn; [|unfold removal; by rewrite Hn].
  destruct (runs w !! n) as [r|] eqn:Hr; [|unfold removal; by rewrite Hn, Hr].
  destruct (listener r) eqn:Hl; [unfold removal; by rewrite Hn, Hr, Hl|].
  destruct (removal_world _ _ _ _ _ Hw Hn Hr Hl) as (T & -> & HT & Hne). by eapply H2.
Qed.

Lemma removal_ok n w : world_ok w → world_ok (removal n w).
Proof.
  intros Hw. apply removal_cases; [done|done|]. intros c i r T Hn Hr Hls HT Hne.
  destruct Hw as [[Bo Bi Br Bl Bd Bp] Hc Ho]. split.
  - apply send_false_book. split; cbn.
    + intros m c' t' Hm. destruct (Bo _ _ _ Hm) as (? & ? & Hnone & ? & Hf). split_and!; [done..| |done|].
      { destruct (decide (n = m)) as [->|]; [by rewrite lookup_delete_eq|by rewrite lookup_delete_ne]. }
      intros d t2 [Ht2 _]%HT. by eapply Hf.
    + apply Bi.
    + intros m c' j [Hnm Hm]%lookup_delete_Some. destruct (Br _ _ _ Hm) as (? & t' & Ht' & Hs). split; [done|].
      exists t'. split; [|done]. apply HT. split; [done|]. congruence.
    + intros d j t' [Ht' Hs]%HT. destruct (Bl _ _ _ Ht') as (c' & ? & ? & ? & ?). exists c'.
      by rewrite lookup_delete_ne.
    + intros d j t1 d' t2 [H1 _]%HT [H2 _]%HT. by eapply Bd.
    + apply Hne.
  - apply send_false_channels. by destruct Hc.
  - intros m. destruct (decide (n = m)) as [<-|Hnm]; [left; apply send_false_silences|].
    destruct (Ho m) as [Hq|Hm]; [left|right].
    + apply send_false_quiet. eapply quiet_mono; [| |done]; eauto.
    + apply send_false_owned. unfold owned. cbn. by rewrite lookup_delete_ne.
Qed.

Lemma tunnel_task_ok w w' : tunnel_task w w' → world_ok w → world_ok w'.
Proof.
  intros [m _|n r seen _ _ _|n r e _ _ _|k f r _ _ _ _];
    eauto using manager_list_ok, listener_changed_ok, removal_ok, forward_changed_ok.
Qed.

Lemma world_step_ok w w' : world_step w w' → world_ok w → world_ok w'.
Proof.
  intros [? Ht|????? Hid Hn|??|????|??|?] Hw;
    eauto using tunnel_task_ok, manager_open_ok, close_tunnel_ok, listener_accept_ok, forward_answer_ok, forward_copied_ok.
Qed.

Lemma new_ok : world_ok tunnel_manager_new.
Proof.
  split.
  - split; cbn; try done; [by intros d i t (? & ? & ?)|by intros d i t d' t' (? & ? & ?)].
  - split; cbn; done.
  - intros n. left. by intros r.
Qed.

Lemma reachable_ok w : reachable w → world_ok w.
Proof.
  unfold reachable. intros Hr. cut (world_ok tunnel_manager_new); [|apply new_ok].
  induction Hr as [|w1 w2 w3 Hs _ IH]; [done|]. intros Hw. apply IH. by eapply world_step_ok.
Qed.

(** ** The tasks finish their work *)
Definition listening (w : TunnelWorld) : gset nat := dom (filter (λ nr, is_Some (listener nr.2)) (runs w)).
Definition copying (w : TunnelWorld) : gset nat := dom (filter (λ kf, forward_state kf.2 = Copying) (forwards w)).
Definition work (w : TunnelWorld) : nat :=
  (2 * size (opening w) + size (removals w) + size (listening w) + size (copying w))%nat.

Lemma elem_of_listening w n : n ∈ listening w ↔ ∃ r, runs w !! n = Some r ∧ is_Some (listener r).
Proof.
  unfold listening. rewrite elem_of_dom. split.
  - intros [r [Hr Hl]%map_lookup_filter_Some]. by exists r.
  - intros (r & Hr & Hl). exists r. by apply map_lookup_filter_Some.
Qed.

Lemma elem_of_copying w k : k ∈ copying w ↔ ∃ f, forwards w !! k = Some f ∧ forward_state f = Copying.
Proof.
  unfold copying. rewrite elem_of_dom. split.
  - intros [r [Hr Hl]%map_lookup_filter_Some]. by exists r.
  - intros (r & Hr & Hl). exists r. by apply map_lookup_filter_Some.
Qed.

(** A listener that has news ends; a copying forward that has news returns. *)
Lemma news_is_false w n r :
  channels_ok w → runs w !! n = Some r → active_version r ≠ 0%nat → active_value r = false.
Proof. intros Hc Hr Hv. destruct (active_value r) eqn:Ha; [|done]. destruct Hv. by apply (channel_version _ Hc _ _ Hr). Qed.

Lemma listener_ends w n r seen :
  channels_ok w → runs w !! n = Some r → listener r = Some seen → seen ≠ active_version r →
  listener_changed n w = with_run (end_listener None) n w.
Proof.
  intros Hc Hr Hl Hs. unfold listener_changed. rewrite Hr, Hl, bool_decide_false by done.
  rewrite (news_is_false w n r); [done..|]. by rewrite <- (channel_listener _ Hc _ _ _ Hr Hl).
Qed.

Lemma forward_returns w k f r :
  channels_ok w → forwards w !! k = Some f → forward_state f = Copying → runs w !! forward_run f = Some r →
  forward_seen f ≠ active_version r → forward_changed k w = with_forwards (delete k (forwards w)) w.
Proof.
  intros Hc Hf Hs Hr Hn. unfold forward_changed. rewrite Hf, Hs, Hr, bool_decide_false by done.
  rewrite (news_is_false w (forward_run f) r); [done..|]. by rewrite <- (proj1 (channel_forward _ Hc _ _ Hf)).
Qed.

Lemma listening_send_false n w : listening (send_false n w) = listening w.
Proof.
  apply set_eq. intros m. rewrite !elem_of_listening. apply send_false_cases; [done|]. cbn.
  destruct (decide (n = m)) as [->|Hne]; [|by rewrite lookup_alter_ne].
  rewrite lookup_alter_eq. split; [intros (r & (r' & ? & ->)%fmap_Some & Hl)|intros (r & -> & Hl)]; by eexists.
Qed.

Lemma tunnel_task_works w w' : world_ok w → tunnel_task w w' → (work w' < work w)%nat.
Proof.
  intros Hw [m [[c t] Hm]|n r seen Hr Hl Hs|n r [c i] Hn Hr Hl|k f r Hf Hs Hr Hv].
  - destruct (manager_list_world _ _ _ _ Hw Hm) as (T & -> & _). unfold work, listening, copying. cbn.
    destruct (book_opening _ (ok_book _ Hw) _ _ _ Hm) as (_ & _ & Hnone & _).
    rewrite map_size_insert_None by done. pose proof (map_size_delete m (opening w)) as Hd. rewrite Hm in Hd.
    assert (size (opening w) ≠ 0%nat) by (intros He%map_size_empty_inv; by rewrite He, lookup_empty in Hm). cbn in *. lia.
  - rewrite (listener_ends w n r seen) by (done || apply Hw). unfold work, copying. cbn.
    assert (size (listening (with_run (end_listener None) n w)) < size (listening w))%nat; [|lia].
    apply subset_size, (strict_spec_alt (A := gset nat)). split.
    + intros m (r' & Hr' & Hl')%elem_of_listening. cbn in Hr'. apply elem_of_listening.
      destruct (decide (n = m)) as [->|Hne]; [|rewrite lookup_alter_ne in Hr' by done; eauto].
      rewrite lookup_alter_eq, Hr in Hr'. injection Hr' as <-. by destruct Hl'.
    + intros He. assert (n ∈ listening w) as Hi by (apply elem_of_listening; exists r; rewrite Hl; done).
      rewrite <- He in Hi. apply elem_of_listening in Hi as (r' & Hr' & Hl'). cbn in Hr'.
      rewrite lookup_alter_eq, Hr in Hr'. injection Hr' as <-. by destruct Hl'.
  - destruct (removal_world _ _ _ _ _ Hw Hn Hr Hl) as (T & -> & _). unfold work. rewrite listening_send_false.
    unfold send_false, listening, copying. destruct (has_receivers _ _); cbn;
      pose proof (map_size_delete n (removals w)) as Hd; rewrite Hn in Hd;
      (assert (size (removals w) ≠ 0%nat) by (intros He%map_size_empty_inv; by rewrite He, lookup_empty in Hn)); cbn in *; lia.
  - rewrite (forward_returns w k f r) by (done || apply Hw). unfold work, listening. cbn.
    assert (size (copying (with_forwards (delete k (forwards w)) w)) < size (copying w))%nat; [|lia].
    apply subset_size, (strict_spec_alt (A := gset nat)). split.
    + intros j (f' & Hf' & Hc')%elem_of_copying. cbn in Hf'. apply lookup_delete_Some in Hf' as [_ Hf'].
      apply elem_of_copying. eauto.
    + intros He. assert (k ∈ copying w) as Hi by (apply elem_of_copying; by exists f).
      rewrite <- He in Hi. apply elem_of_copying in Hi as (f' & Hf' & _). cbn in Hf'. by rewrite lookup_delete_eq in Hf'.
Qed.

Lemma tasks_end w : world_ok w → ∀ m w', nsteps tunnel_task m w w' → (m + work w' ≤ work w)%nat.
Proof.
  intros Hw m w' Hm. induction Hm as [|m w1 w2 w3 H12 _ IH]; [lia|].
  pose proof (tunnel_task_works _ _ Hw H12). specialize (IH (tunnel_task_ok _ _ H12 Hw)). lia.
Qed.

Lemma tasks_ok w w' : world_ok w → rtc tunnel_task w w' → world_ok w'.
Proof. intros Hw Hr. induction Hr; eauto using tunnel_task_ok. Qed.

(** *** Settled worlds *)
Section settled.
#[local] Set Default Proof Using "All".
Context (w : TunnelWorld) (Hw : world_ok w) (Hs : nf tunnel_task w).

Lemma settled_opening m : opening w !! m = None.
Proof. apply eq_None_not_Some. intros Hm. apply Hs. eexists. by apply task_listed. Qed.

Lemma settled_listener n r : runs w !! n = Some r → is_Some (listener r) → active_value r = true.
Proof.
  intros Hr [seen Hl]. apply (channel_version _ (ok_channels _ Hw) _ _ Hr).
  destruct (decide (seen = active_version r)) as [<-|Hne]; [by apply (channel_listener _ (ok_channels _ Hw) n r)|].
  destruct Hs. eexists. by eapply task_listener.
Qed.

Lemma settled_forward k f r :
  forwards w !! k = Some f → forward_state f = Copying → runs w !! forward_run f = Some r → active_value r = true.
Proof.
  intros Hf Hc Hr. apply (channel_version _ (ok_channels _ Hw) _ _ Hr).
  destruct (decide (forward_seen f = active_version r)) as [<-|Hne]; [by apply (channel_forward _ (ok_channels _ Hw) k f)|].
  destruct Hs. eexists. by eapply task_forward.
Qed.

Lemma settled_removal n entry : removals w !! n = Some entry → ∃ r, runs w !! n = Some r ∧ is_Some (listener r).
Proof.
  intros Hn. destruct entry as [c i]. destruct (book_removal _ (ok_book _ Hw) _ _ _ Hn) as ([r Hr] & _).
  exists r. split; [done|]. apply not_eq_None_Some. intros Hl. destruct Hs. eexists. by eapply task_removal.
Qed.

Lemma settled_owned n r :
  runs w !! n = Some r → active_value r = true → heard w n → ∃ d id t, listed w d id t ∧ active_send t = n.
Proof.
  intros Hr Ha Hh. destruct (ok_owned _ Hw n) as [Hq|[Ho|[[c i] Hn]]].
  - by destruct (Hq r Hr Ha).
  - rewrite settled_opening in Ho. by destruct Ho.
  - destruct (book_removal _ (ok_book _ Hw) _ _ _ Hn) as (_ & t & Ht & Hsend). by exists (der (c : Certificate)), i, t.
Qed.
End settled.

(** In every reachable world nothing is left of a tunnel that the manager
    does not list, once the tasks have nothing to do: the tunnels of the map
    are exactly the ones with a port listening, they are filed under the
    certificate of their peer and their own id, every connection that is
    still copied belongs to one of them, and no peer without tunnels is left
    in the map. The dispatcher never reaches its [todo!()], settled or not. *)
Theorem settled_tunnels w :
  reachable w →
  (∀ k f, forwards w !! k = Some f → forward_state f ≠ Panicked) ∧
  (nf tunnel_task w →
     (∀ n, (∃ r, runs w !! n = Some r ∧ is_Some (listener r)) ↔ (∃ d id t, listed w d id t ∧ active_send t = n)) ∧
     (∀ d id t, listed w d id t → tunnel_id t = id ∧ ∃ c, tunnel_peer t = PeerCertificate c ∧ der c = d) ∧
     (∀ k f, forwards w !! k = Some f → forward_state f = Copying →
        ∃ d id t, listed w d id t ∧ active_send t = forward_run f) ∧
     (∀ d, active_tunnels w !! d ≠ Some ∅)).
Proof.
  intros Hw%reachable_ok. split; [intros k f Hf; by apply (channel_forward _ (ok_channels _ Hw) k f)|].
  intros Hs. split_and!.
  - intros n. split.
    + intros (r & Hr & Hl). eapply settled_owned; [done..|by eapply settled_listener|]. exists r. by split; [|left].
    + intros (d & id & t & Ht & <-). destruct (book_listed _ (ok_book _ Hw) _ _ _ Ht) as (c & Hn & _). by eapply settled_removal.
  - intros d id t Ht. destruct (book_listed _ (ok_book _ Hw) _ _ _ Ht) as (c & _ & ? & ? & ?). split; [done|]. by exists c.
  - intros k f Hf Hc. pose proof (forwards_heard _ _ _ (ok_channels _ Hw) Hf) as Hh. destruct Hh as (r & Hr & Hh).
    eapply settled_owned; [done..|by eapply settled_forward|]. by exists r.
  - intros d Hd. by destruct (book_peers _ (ok_book _ Hw) _ _ Hd).
Qed.

(** *** Closing a tunnel *)
Lemma find_tunnel_listed w order id t :
  find_tunnel (active_tunnels w) order id = Some t → ∃ d, listed w d id t.
Proof.
  induction order as [|d order IH]; [done|]. cbn. destruct (active_tunnels w !! d) as [pt|] eqn:Hd; cbn; [|done].
  destruct (pt !! id) as [t'|] eqn:Ht; [|done]. intros [= <-]. exists d, pt. done.
Qed.

Lemma close_tunnel_closes w order d id t :
  book_ok w → listed w d id t → d ∈ order → close_tunnel order id w = send_false (active_send t) w.
Proof.
  intros Hb Ht Hd. unfold close_tunnel. destruct (find_tunnel _ _ _) as [t'|] eqn:Hf.
  - apply find_tunnel_listed in Hf as [d' Ht']. unfold close. replace t' with t; [done|].
    pose proof (book_ids _ Hb _ _ _ _ _ Ht Ht') as <-. destruct Ht as (? & ? & ?), Ht' as (? & ? & ?). congruence.
  - exfalso. revert Hf. destruct Ht as (pt & Hpt & Ht). induction order as [|x order IH]; [by apply not_elem_of_nil in Hd|].
    cbn. apply elem_of_cons in Hd as [<-|Hd].
    + by rewrite Hpt; cbn; rewrite Ht.
    + destruct (active_tunnels w !! x) as [pt'|]; cbn; [destruct (pt' !! id); [done|]|]; by apply IH.
Qed.

(** The tunnel of run [n] and id [id] is on its way out. *)
Record closing (n : nat) (id : Uuid) (w : TunnelWorld) : Prop := {
  closing_quiet : quiet w n;
  closing_listed d t : listed w d id t → active_send t = n;
  closing_opening m c t : opening w !! m = Some (c, t) → tunnel_id t ≠ id;
}.

(** A tunnel that is listed, listens and was not told to stop. *)
Record alive (d : list Z) (id : Uuid) (t : Tunnel) (r : Run) (w : TunnelWorld) : Prop := {
  alive_listed : listed w d id t;
  alive_run : runs w !! active_send t = Some r;
  alive_listener : is_Some (listener r);
  alive_value : active_value r = true;
}.

Lemma with_run_quiet w n f m :
  (∀ r, active_value (f r) = active_value r) → (∀ r, is_Some (listener (f r)) → is_Some (listener r)) →
  quiet w m → quiet (with_run f n w) m.
Proof.
  intros Hv Hl. apply quiet_mono; cbn.
  - intros r'. destruct (decide (n = m)) as [->|Hne]; [|rewrite lookup_alter_ne by done; eauto].
    rewrite lookup_alter_eq, fmap_Some. intros (r & Hr & ->). rewrite Hv. eauto.
  - intros (r & Hr & Hh). cbn in *. destruct (decide (n = m)) as [->|Hne]; [|rewrite lookup_alter_ne in Hr by done; by exists r].
    rewrite lookup_alter_eq, fmap_Some in Hr. destruct Hr as (r' & Hr & ->). exists r'. split; [done|].
    destruct Hh as [Hh|Hh]; [left; by apply Hl|by right].
Qed.

Lemma tunnel_task_closing n id w w' : world_ok w → tunnel_task w w' → closing n id w → closing n id w'.
Proof.
  intros Hw [m [[c t] Hm]|k r seen Hr Hl Hs|k r [c i] Hn Hr Hl|k f r Hf Hs Hr Hv] [Hq Hcl Hco].
  - destruct (manager_list_world _ _ _ _ Hw Hm) as (T & -> & HT & _). split.
    + eapply quiet_mono; [| |done]; eauto.
    + intros d t' [(_ & -> & _)|Ht']%HT; [by destruct (Hco _ _ _ Hm)|by eapply Hcl].
    + cbn. intros m' c' t' [_ Hm']%lookup_delete_Some. by eapply Hco.
  - rewrite (listener_ends w k r seen) by (done || apply Hw). split; [|done..]. apply with_run_quiet; [done| |done]. by intros ? [].
  - destruct (removal_world _ _ _ _ _ Hw Hn Hr Hl) as (T & -> & HT & _). split.
    + apply send_false_quiet. eapply quiet_mono; [| |done]; eauto.
    + apply send_false_cases; intros d t' [Ht' _]%HT; by eapply Hcl.
    + apply send_false_cases; apply Hco.
  - rewrite (forward_returns w k f r) by (done || apply Hw). split; [|done..].
    eapply quiet_mono; [| |done]; [eauto|]. intros (r' & Hr' & [Hl|(j & g & Hj & Hg)]); exists r'; (split; [done|]); [by left|right].
    cbn in Hj. apply lookup_delete_Some in Hj as [_ Hj]. eauto.
Qed.

Lemma tunnel_task_alive d id t r w w' : world_ok w → tunnel_task w w' → alive d id t r w → alive d id t r w'.
Proof.
  intros Hw [m [[c t'] Hm]|k r' seen Hr Hl Hs|k r' [c i] Hn Hr Hl|k f r' Hf Hs Hr Hv] [Hli Hru Hls Hva].
  - destruct (manager_list_world _ _ _ _ Hw Hm) as (T & -> & HT & _). split; [|done..]. apply HT. by right.
  - rewrite (listener_ends w k r' seen) by (done || apply Hw).
    assert (k ≠ active_send t) as Hne.
    { intros ->. replace r' with r in * by congruence. destruct Hs. rewrite (channel_listener _ (ok_channels _ Hw) _ _ _ Hr Hl).
      symmetry. by apply (channel_version _ (ok_channels _ Hw) _ _ Hr). }
    split; [done| |done..]. cbn. by rewrite lookup_alter_ne.
  - destruct (removal_world _ _ _ _ _ Hw Hn Hr Hl) as (T & -> & HT & _).
    assert (k ≠ active_send t) as Hne.
    { intros ->. replace r' with r in * by congruence. by rewrite Hl in Hls; destruct Hls. }
    apply send_false_cases; split; cbn; try done; try (by apply HT). by rewrite lookup_alter_ne.
  - rewrite (forward_returns w k f r') by (done || apply Hw). by split.
Qed.

Lemma tasks_keep (P : TunnelWorld → Prop) w w' :
  (∀ w1 w2, world_ok w1 → tunnel_task w1 w2 → P w1 → P w2) → world_ok w → rtc tunnel_task w w' → P w → P w'.
Proof. intros HP Hw Hr. induction Hr; eauto using tunnel_task_ok. Qed.

Lemma listed_sends w d1 id1 t1 d2 id2 t2 :
  book_ok w → listed w d1 id1 t1 → listed w d2 id2 t2 → id1 ≠ id2 → active_send t1 ≠ active_send t2.
Proof.
  intros Hb (c1 & H1 & _)%(book_listed _ Hb) (c2 & H2 & _)%(book_listed _ Hb) Hne He. rewrite He in H1. congruence.
Qed.

(** C23: Closing a listed tunnel leads to its end, whatever order the tasks
    run in: they all finish, and then the tunnel has left the map, its port
    does not listen, and no connection through it is copied; those that
    still wait for the agent's answer are the only ones left. Every other
    tunnel that was running still is, with its channel and its port. *)
Theorem closed_tunnel_removed w order d id t :
  reachable w → listed w d id t → d ∈ order →
  (∃ bound, ∀ m w', nsteps tunnel_task m (close_tunnel order id w) w' → (m ≤ bound)%nat) ∧
  ∀ w', rtc tunnel_task (close_tunnel order id w) w' → nf tunnel_task w' →
    (∀ d' t', ¬ listed w' d' id t') ∧
    (∀ r, runs w' !! active_send t = Some r → listener r = None) ∧
    (∀ k f, forwards w' !! k = Some f → forward_run f = active_send t → forward_state f = Requesting) ∧
    (∀ d' id' t' r, id' ≠ id → alive d' id' t' r w → alive d' id' t' r w').
Proof.
  intros Hw%reachable_ok Ht Hd. pose proof (close_tunnel_ok order id w Hw) as Hcw. split.
  { exists (work (close_tunnel order id w)). intros m w' Hm. pose proof (tasks_end _ Hcw m w' Hm). lia. }
  intros w' Hrtc Hnf. pose proof (tasks_ok _ _ Hcw Hrtc) as Hw'.
  assert (closing (active_send t) id w') as [Hq Hcl _].
  { eapply (tasks_keep (closing (active_send t) id)); [by eauto using tunnel_task_closing|exact Hcw|exact Hrtc|].
    rewrite (close_tunnel_closes w order d id t) by (done || apply Hw). split; [apply send_false_silences| |].
    - apply send_false_cases; intros d' t' Ht'; pose proof (book_ids _ (ok_book _ Hw) _ _ _ _ _ Ht Ht') as <-;
        destruct Ht as (? & ? & ?), Ht' as (? & ? & ?); cbn in *; congruence.
    - apply send_false_cases; intros m c t' Hm He; destruct (book_opening _ (ok_book _ Hw) _ _ _ Hm) as (_ & _ & _ & _ & Hfree);
        rewrite He in Hfree; by eapply Hfree. }
  split_and!.
  - intros d' t' Ht'. pose proof (Hcl _ _ Ht') as Hs. destruct (book_listed _ (ok_book _ Hw') _ _ _ Ht') as (c & Hn & _).
    destruct (settled_removal _ Hw' Hnf _ _ Hn) as (r & Hr & Hl). rewrite Hs in Hr.
    apply (Hq r Hr); [by eapply settled_listener|]. exists r. by split; [|left].
  - intros r Hr. apply eq_None_not_Some. intros Hl. apply (Hq r Hr); [by eapply settled_listener|]. exists r. by split; [|left].
  - intros k f Hf Hrun. destruct (channel_forward _ (ok_channels _ Hw') _ _ Hf) as (_ & Hp & r & Hr).
    destruct (forward_state f) eqn:Hst; [done| |done]. exfalso. rewrite Hrun in Hr.
    apply (Hq r Hr); [eapply settled_forward; [done..|by rewrite Hrun]|]. exists r. split; [done|]. right. by exists k, f.
  - intros d' id' t' r Hne [Hli Hru Hls Hva].
    eapply (tasks_keep (alive d' id' t' r)); [by eauto using tunnel_task_alive|exact Hcw|exact Hrtc|].
    rewrite (close_tunnel_closes w order d id t) by (done || apply Hw).
    pose proof (listed_sends _ _ _ _ _ _ _ (ok_book _ Hw) Hli Ht Hne).
    apply send_false_cases; split; cbn; try done. by rewrite lookup_alter_ne.
Qed.

(** ** Worked example *)
Definition toy_tunnel_peer : Peer := PeerCertificate (mkCertificate toy_agent).
Definition toy_tunnel_config (port : Z) : TunnelConfig := Tcp (mkTcpTunnelConfig port "localhost:80").
Definition toy_one_tunnel : TunnelWorld :=
  manager_list 0 (manager_open toy_tunnel_peer (toy_tunnel_config 8080) (Ok ()) 0 7 tunnel_manager_new).1.
Definition toy_tunnel : Tunnel := mkTunnel 7 (toy_tunnel_config 8080) None 0 toy_tunnel_peer.

(** Accepted, answered, closed: the three tasks end one after the other. *)
Definition toy_used_tunnel : TunnelWorld := forward_answer 0 (Ok ()) (listener_accept 0 (Ok ()) 0 toy_one_tunnel).
Definition toy_after_close : TunnelWorld :=
  removal 0 (forward_changed 0 (listener_changed 0 (close_tunnel [der toy_agent] 7 toy_used_tunnel))).

Example closed_world_is_empty :
  (active_tunnels toy_after_close, opening toy_after_close, removals toy_after_close, forwards toy_after_close)
  = (∅, ∅, ∅, ∅).
Proof. reflexivity. Qed.

Lemma toy_reachable : reachable toy_one_tunnel.
Proof.
  eapply rtc_l; [apply (step_open _ toy_tunnel_peer (toy_tunnel_config 8080) (Ok ()) 0 7); [|done]|].
  { by intros [(d & pt & Hd & _)|(m & c & t & Hm & _)]. }
  apply rtc_once, step_task, task_listed. by eexists.
Qed.

Lemma toy_used_reachable : reachable toy_used_tunnel.
Proof.
  unfold reachable. etransitivity; [apply toy_reachable|]. eapply rtc_l; [by apply (step_accept _ 0 (Ok ()) 0)|]. apply rtc_once, step_answer.
Qed.

Lemma settled_tunnels_witness :
  forwards toy_used_tunnel !! 0%nat = Some (mkForward 0 "localhost:80" 0 Copying) ∧ Copying ≠ Panicked.
Proof.
  split; [reflexivity|].
  exact (proj1 (settled_tunnels toy_used_tunnel toy_used_reachable) 0%nat (mkForward 0 "localhost:80" 0 Copying) eq_refl).
Defined.

Lemma closed_tunnel_removed_witness :
  ∃ bound, ∀ m w', nsteps tunnel_task m (close_tunnel [der toy_agent] 7 toy_used_tunnel) w' → (m ≤ bound)%nat.
Proof.
  apply (closed_tunnel_removed toy_used_tunnel [der toy_agent] (der toy_agent) 7 toy_tunnel toy_used_reachable).
  - by eexists.
  - by apply elem_of_cons; left.
Defined.
