(* ===== verification/Commands.v ===== *)
(** * The short commands of servers and agents
    ([svalin/src/shared/commands/get_user_credentials.rs], [public_server_status.rs],
    [list_user_sessions.rs], [request_system_report.rs],
    [svalin_rpc/src/commands/ping.rs], [schedule_system_reports] of [svalin/src/agent/mls.rs])

    One question, one answer: both ends of each command as scripts, and what
    a client does with the answer when it opens a profile
    ([svalin/src/client/profile.rs]). *)
From S2P Require Import Prelude.
From S2P Require Import External.
From S2P Require Import Provider.
From S2P Require Import Spki.
From S2P Require Import Toy.
From S2P Require Import Certificate.
From S2P Require Import Encrypt.
From S2P Require Import Credential.
From S2P Require Import SecureChain.
From S2P Require Import TrustStore.
From S2P Require Import ServerStore.
From S2P Require Import ClientStore.
From S2P Require Import UserStore.
From S2P Require Import Verifiers.
From S2P Require Import Transport.
From S2P Require Import Script.
From S2P Require Import TlsTransport.
From S2P Require Import Pake.
From S2P Require Import Login.
From S2P Require Import LoginMeets.
From stdpp Require Import relations.
From stdpp Require Import options.

#[local] Open Scope Z_scope.

(** ** Ping *)
Section ping.
(** A [u128] of nanoseconds. *)
Context {X : X509} `{CR : !Crypto, RG : !Rcgen, !Postcard Z}.

Inductive PingError :=
  | WritePingError (e : ObjectWriterError)
  | ReadPongError (e : ObjectReaderError)
  | ConvertTimestampError.

Inductive PingHandlerError :=
  | PingRead (e : ObjectReaderError)
  | PingWrite (e : ObjectWriterError).

(** [PingHandler::handle]. *)
Definition ping_handle {S} : script S PingHandlerError () :=
  ping ← script_map_err PingRead (read_object (U := Z));
  _ ← script_map_err PingWrite (write_object (ping : Z));
  mret ().

(** [u128] subtraction wraps around in a release build; a [Duration] is made
    of a [u64]. *)
Definition u128_sub (a b : Z) : Z := (a - b) `mod` 2 ^ 128.
Definition duration_from_nanos (diff : Z) : result PingError Z :=
  if bool_decide (diff < 2 ^ 64) then Ok diff else Err ConvertTimestampError.

(** [Ping::dispatch]; a clock before 1970 unwinds. *)
Definition unix_nanos (m : Machine) (n : nat) : result PingError Z :=
  if bool_decide (0 ≤ clock m n) then Ok (clock m n) else Panic.

Definition ping_dispatch {S} (m : Machine) : script S PingError Z :=
  n ← draw;
  ping ← returns (unix_nanos m n);
  _ ← script_map_err WritePingError (write_object (ping : Z));
  pong ← script_map_err ReadPongError (read_object (U := Z));
  n ← draw;
  now ← returns (unix_nanos m n);
  returns (duration_from_nanos (u128_sub now pong)).
End ping.

(** ** The status of a server *)
Inductive PublicStatus := WaitingForInit | Ready.

Section status.
Context `{!Postcard PublicStatus}.

Inductive GetPutblicStatusError := ReadStatusError (e : ObjectReaderError).
Inductive StatusHandlerError := WriteStatusError (e : ObjectWriterError).

Definition public_status_handle {S} (current_status : PublicStatus) : script S StatusHandlerError () :=
  _ ← script_map_err WriteStatusError (write_object current_status);
  mret ().
Definition get_public_status {S} : script S GetPutblicStatusError PublicStatus :=
  status ← script_map_err ReadStatusError read_object;
  mret status.
End status.

(** ** The credential of a user *)
Section credential.
Context `{X509, CR : Crypto, RG : !Rcgen, Aead, !Postcard SavedKeypair, Argon2, LT : LoginTypes, Sysinfo, !Postcard StoredUser}.

Record UserCredential := mkUserCredential {
  response_credential : EncryptedCredential;
  response_params : ArgonParams;
}.

Context `{!Postcard UserCredential}.

Inductive UserCredentialHandlerError :=
  | InvalidPeer
  | InvalidPeerType
  | UserNotFound
  | CredentialStoreError (e : UserStoreError)
  | CredentialWrite (e : ObjectWriterError).

(** [GetUserCredentialHandler::handle]; the state is the table of users. *)
Definition user_credential_handle (peer : Peer) : script UserStore UserCredentialHandlerError () :=
  match peer with
  | Anonymous => returns (Err InvalidPeer)
  | PeerCertificate cert =>
      if bool_decide (certificate_type cert ≠ UserSession) then returns (Err InvalidPeerType)
      else
        store ← get;
        user ← returns (map_err CredentialStoreError (get_user store (issuer cert)));
        match user with
        | None => returns (Err UserNotFound)
        | Some user =>
            let response := mkUserCredential (encrypted_credential user) (credential_key_params user) in
            _ ← script_map_err CredentialWrite (write_object response);
            mret ()
        end
  end.

Definition get_user_credential {S} : script S ObjectReaderError UserCredential := read_object.

(** What [open_profile] does with the answer. *)
Inductive UnlockError :=
  | UnlockRead (e : ObjectReaderError)
  | UnlockDerive (e : DeriveKeyError)
  | UnlockDecrypt (e : DecodeCredentialsError).

Definition unlock_user {S} (password : list Z) : script S UnlockError (EncryptionKey * Credential) :=
  user_credential ← script_map_err UnlockRead get_user_credential;
  key ← returns (map_err UnlockDerive (derive_encryption_key (response_params user_credential) password));
  credential ← returns (map_err UnlockDecrypt (credential_decrypt (response_credential user_credential) key));
  mret (key, credential).
End credential.

(** ** The sessions of a user *)
Section sessions.
Context `{X509, CR : Crypto, !Postcard (list UnverifiedCertificate), !Postcard ()}.

Inductive ListSessionsError :=
  | ListStore (e : StoreFailure)
  | ListRead (e : ObjectReaderError)
  | ListWrite (e : ObjectWriterError).

(** [ListUserSessionsHandler::handle] and its dispatcher. *)
Definition list_sessions_handle (request : SpkiHash) : script Sessions.SessionStore ListSessionsError () :=
  store ← get;
  user_sessions ← returns (map_err ListStore (Sessions.list_user_sessions store request));
  _ ← script_map_err ListWrite (write_object user_sessions);
  _ ← script_map_err ListRead (read_object (U := ()));
  mret ().

Definition list_sessions_dispatch {S} : script S ListSessionsError (list UnverifiedCertificate) :=
  user_sessions ← script_map_err ListRead (read_object (U := list UnverifiedCertificate));
  _ ← script_map_err ListWrite (write_object ());
  mret user_sessions.
End sessions.

(** ** They meet *)
Section meeting.
#[local] Set Default Proof Using "Type*".
Context `{TS : TlsStack} {S T : Type}.
Implicit Types (s : S) (t : T).

Lemma ping_meets `{X509, CR : !Crypto, RG : !Rcgen, !Postcard Z, !PostcardLaws Z} mc s n t m h b :
  0 ≤ clock mc n → clock mc n ≤ clock mc (1 + n) < 2 ^ 128 → sendable (clock mc n) b →
  inevitable (mkPair (ping_dispatch mc) s n ping_handle t m [] [] h)
    (mkPair (Finished (duration_from_nanos (clock mc (1 + n) - clock mc n))) s (2 + n) (Finished (Ok ())) t m [] [] h).
Proof.
  intros H0c Hc Hb. apply rtc_inevitable; [|apply finished_nf]. unfold ping_dispatch, ping_handle.
  pair_does client_draws_one. unfold unix_nanos. rewrite bool_decide_true, returns_bind by lia.
  pair_does client_writes. pair_does server_reads. pair_does server_writes. pair_does client_reads.
  pair_does client_draws_one. rewrite bool_decide_true, returns_bind by lia.
  unfold u128_sub. rewrite Z.mod_small by lia. apply rtc_refl.
Qed.

(** An answer from the future makes the subtraction wrap, which the
    conversion catches. *)
Lemma pong_from_the_future now pong :
  0 ≤ now < pong → pong < 2 ^ 127 → duration_from_nanos (u128_sub now pong) = Err ConvertTimestampError.
Proof.
  intros Hn Hp. unfold u128_sub, duration_from_nanos.
  rewrite <-(Z.mod_add _ 1) by lia. rewrite Z.mod_small by lia. by rewrite bool_decide_false by lia.
Qed.

Lemma status_meets `{!Postcard PublicStatus, !PostcardLaws PublicStatus} status s n t m h b :
  sendable status b →
  inevitable (mkPair get_public_status s n (public_status_handle status) t m [] [] h)
    (mkPair (Finished (Ok status)) s n (Finished (Ok ())) t m [] [] h).
Proof.
  intros Hb. apply rtc_inevitable; [|apply finished_nf]. unfold get_public_status, public_status_handle.
  pair_does server_writes. pair_does client_reads. apply rtc_refl.
Qed.

Lemma list_sessions_meets `{X509, CR : !Crypto, !Postcard (list UnverifiedCertificate), !Postcard ()}
    `{!PostcardLaws (list UnverifiedCertificate), !PostcardLaws ()} user sessions store s n m h b b' :
  Sessions.list_user_sessions store user = Ok sessions → sendable sessions b → sendable () b' →
  inevitable (mkPair list_sessions_dispatch s n (list_sessions_handle user) store m [] [] h)
    (mkPair (Finished (Ok sessions)) s n (Finished (Ok ())) store m [] [] h).
Proof.
  intros Hl Hb Hb'. apply rtc_inevitable; [|apply finished_nf]. unfold list_sessions_dispatch, list_sessions_handle.
  pair_does server_gets. rewrite Hl. cbn [map_err]. rewrite returns_bind. pair_does server_writes.
  pair_does client_reads. pair_does client_writes. pair_does server_reads. apply rtc_refl.
Qed.
End meeting.

Section unlocking.
#[local] Set Default Proof Using "Type*".
Context `{X509, CR : Crypto, RG : !Rcgen, Aead, !Postcard SavedKeypair, TS : TlsStack, Argon2, LT : LoginTypes}.
Context `{Sysinfo, !Postcard StoredUser, !PakeTypes, PK : !Pake, !Postcard (list Z), !Postcard UserCredential}.
Context `{!RcgenLaws, !AeadLaws, !PostcardLaws SavedKeypair, !PostcardLaws UserCredential}.
Context {S : Type}.

(** A session of a user gets the user's credential back from the server
    with the user's password, in every interleaving: the client that opens a
    profile ends with the very credential the user was made with, and the
    table of users is as before. Whoever asks, the server sends at most one
    message, the encrypted credential of the user who issued the certificate
    of the asking session; to anybody else than a session it sends nothing. *)
Theorem user_credential_meets users user password root (ts : TrustStore) (session : Certificate) (s : S) n m h b :
  certificate_type session = UserSession →
  get_user users (issuer session) = Ok (Some user) →
  provisioned user password root ts → credential_ok root →
  sendable (mkUserCredential (encrypted_credential user) (credential_key_params user)) b →
  (∃ key, derive_encryption_key (credential_key_params user) password = Ok key ∧
     inevitable
       (mkPair (unlock_user password) s n (user_credential_handle (PeerCertificate session)) users m [] [] h)
       (mkPair (Finished (Ok (key, root))) s n (Finished (Ok ())) users m [] [] h)) ∧
  (∀ peer w w' r, run (user_credential_handle peer) w = (w', r) →
     local w' = local w ∧
     (sent w' = sent w ∨
      ∃ (c : Certificate) u b, peer = PeerCertificate c ∧ certificate_type c = UserSession ∧
        get_user (local w) (issuer c) = Ok (Some u) ∧
        to_stdvec (mkUserCredential (encrypted_credential u) (credential_key_params u)) = Ok b ∧
        sent w' = sent w ++ [Chunk b])).
Proof.
  intros Ht Hu [_ (key & r1 & r2 & Hkey & Hexp & _) _] Hok Hb. split.
  - exists key. split; [done|]. apply rtc_inevitable; [|apply finished_nf].
    unfold unlock_user, get_user_credential, user_credential_handle.
    rewrite bool_decide_false by (by intros []; rewrite Ht). pair_does server_gets. rewrite Hu. cbn [map_err]. rewrite returns_bind.
    pair_does server_writes. pair_does client_reads. cbn [response_params response_credential].
    rewrite Hkey. cbn [map_err]. rewrite returns_bind, (decrypt_exported _ _ _ _ Hok Hexp). cbn [map_err].
    rewrite returns_bind. apply rtc_refl.
  - intros peer w w' r Hr. unfold user_credential_handle in Hr. destruct peer as [|c]; [injection Hr as <- <-; auto|].
    case_bool_decide as Hc; [injection Hr as <- <-; auto|].
    rewrite (run_bind_step get _ w w (local w)) in Hr by done.
    destruct (get_user (local w) (issuer c)) as [[u|]|e|] eqn:Hg; cbn [map_err] in Hr; [|injection Hr as <- <-; auto..].
    rewrite returns_bind in Hr. unfold write_object in Hr.
    destruct (to_stdvec _) as [d|e|] eqn:Hd; [|injection Hr as <- <-; auto..].
    cbn in Hr. destruct (from_usize _) as [x|e|]; [|injection Hr as <- <-; auto..]. cbn in Hr.
    destruct (head (answers w)) as [[]|]; injection Hr as <- <-; cbn; split; auto. right. by exists c, u, d.
Qed.
End unlocking.

(** ** Reports on request

    [RequestSystemReportHandler] only notifies the task of
    [schedule_system_reports]; a [Notify] keeps one permit for the next
    [notified]. [asked] counts the requests, [covered] those made before the
    last report was begun, [answered] those before the last one that ended,
    well or not. *)
Inductive ReportPhase := Sending | Waiting.

Record Reports := mkReports {
  report_phase : ReportPhase;
  permit : bool;
  asked : nat;
  covered : nat;
  answered : nat;
}.

Definition reports_start : Reports := mkReports Sending false 0 0 0.

(** [RequestSystemReportHandler::handle]. *)
Definition notify_one (r : Reports) : Reports :=
  mkReports (report_phase r) true (S (asked r)) (covered r) (answered r).

(** The task: a report is sent or fails; a permit or the interval begins the
    next one. *)
Definition report_done (r : Reports) : Reports :=
  match report_phase r with
  | Sending => mkReports Waiting (permit r) (asked r) (covered r) (covered r)
  | Waiting => r
  end.
Definition report_notified (r : Reports) : Reports :=
  match report_phase r, permit r with
  | Waiting, true => mkReports Sending false (asked r) (asked r) (answered r)
  | _, _ => r
  end.
Definition report_interval (r : Reports) : Reports :=
  match report_phase r with
  | Waiting => mkReports Sending (permit r) (asked r) (asked r) (answered r)
  | Sending => r
  end.

Inductive report_step (r : Reports) : Reports → Prop :=
  | report_request : report_step r (notify_one r)
  | report_sent : report_phase r = Sending → report_step r (report_done r)
  | report_permit : report_phase r = Waiting → permit r = true → report_step r (report_notified r)
  | report_due : report_phase r = Waiting → report_step r (report_interval r).

(** The steps of the task that do not wait for the clock or a request. *)
Definition report_task (r r' : Reports) : Prop :=
  (report_phase r = Sending ∧ r' = report_done r) ∨
  (report_phase r = Waiting ∧ permit r = true ∧ r' = report_notified r).

Definition reports_ok (r : Reports) : Prop :=
  (answered r ≤ covered r ≤ asked r)%nat ∧
  (permit r = false → covered r = asked r) ∧
  (report_phase r = Waiting → answered r = covered r).

Lemma report_step_ok r r' : report_step r r' → reports_ok r → reports_ok r'.
Proof.
  destruct r as [p q a c d]. intros Hs (H1 & H2 & H3). cbn in *.
  destruct Hs as [|Hp|Hp Hq|Hp]; unfold reports_ok, notify_one, report_done, report_notified, report_interval; cbn in *;
    subst; cbn; repeat case_match; naive_solver lia.
Qed.

(** A request is never lost, however it falls between the steps of the task:
    from any reachable state the task, left alone, comes to rest within three
    steps, and then a report was begun after the last request and has
    ended. *)
Theorem requested_report_follows r :
  rtc report_step reports_start r →
  (∀ n r', nsteps report_task n r r' → (n ≤ 3)%nat) ∧
  (∀ r', rtc report_task r r' → nf report_task r' → answered r' = asked r).
Proof.
  intros Hr. assert (reports_ok r) as Hok.
  { cut (reports_ok reports_start); [|by split_and!]. induction Hr; eauto using report_step_ok. }
  assert (∀ r r', report_task r r' → asked r' = asked r ∧
    ((if report_phase r' then 1 else 0) + (if permit r' then 2 else 0) < (if report_phase r then 1 else 0) + (if permit r then 2 else 0))%nat)
    as Hdown.
  { intros [p q a c d] r' [(Hp & ->)|(Hp & Hq & ->)]; cbn in *; subst; cbn; split; lia. }
  assert (∀ r r', report_task r r' → report_step r r') as Hstep.
  { intros r1 r2 [(Hp & ->)|(Hp & Hq & ->)]; by constructor. }
  split.
  - intros n r' Hn. assert ((n + ((if report_phase r' then 1 else 0) + (if permit r' then 2 else 0))
      ≤ (if report_phase r then 1 else 0) + (if permit r then 2 else 0)))%nat as Hb.
    { clear -Hn Hdown. induction Hn as [|n x y z Hxy _ IH]; [lia|]. destruct (Hdown _ _ Hxy). lia. }
    destruct (report_phase r), (permit r); lia.
  - intros r' Hrr Hnf. assert (reports_ok r' ∧ asked r' = asked r) as [(_ & H2 & H3) <-].
    { clear Hnf Hr. induction Hrr as [|x y z Hxy _ IH]; [done|].
      destruct (IH (report_step_ok _ _ (Hstep _ _ Hxy) Hok)) as [? ->]. split; [done|]. by apply Hdown. }
    destruct (report_phase r') eqn:Hp; [destruct Hnf; eexists; by left|].
    destruct (permit r') eqn:Hq; [destruct Hnf; eexists; by right|]. rewrite H3, H2; done.
Qed.

(** ** Worked examples *)
#[local] Existing Instance toy_x509.
#[local] Existing Instance toy_crypto.
#[local] Existing Instance toy_rcgen.
#[local] Existing Instance toy_aead.
#[local] Existing Instance toy_argon.
#[local] Existing Instance toy_tls.
#[local] Existing Instance toy_login_types.
#[local] Existing Instance toy_pake_types.
#[local] Existing Instance toy_pake.
#[local] Existing Instance toy_disks.
#[local] Existing Instance postcard_keypair.
#[local] Existing Instance toy_postcard.
#[local] Existing Instances postcard_keypair_laws toy_aead_laws toy_rcgen_laws.

(** The one user of this server, and what is sent of it. *)
#[local] Instance postcard_user : Postcard StoredUser :=
  {| to_stdvec u := Ok []; from_bytes b := Ok provisioned_user |}.
Definition toy_response : UserCredential :=
  mkUserCredential (encrypted_credential provisioned_user) (credential_key_params provisioned_user).
#[local] Instance response_eq_dec : EqDecision UserCredential.
Proof. solve_decision. Defined.
#[local] Instance postcard_response : Postcard UserCredential := {|
  to_stdvec r := if bool_decide (r = toy_response) then Ok [] else Err "response"%string;
  from_bytes b := Ok toy_response;
|}.
#[local] Instance postcard_response_laws : PostcardLaws UserCredential.
Proof. split. intros a b. cbn. case_bool_decide as E; [|done]. intros [= <-]. by rewrite E. Qed.

Definition toy_user_table : UserStore := mkUserStore [mkUserRow (as_slice (spki_hash toy_root)) [65] []].

Lemma toy_response_sendable : sendable toy_response [].
Proof. split; [cbn; by rewrite bool_decide_true|done]. Qed.

Lemma user_credential_meets_witness :
  ∃ key,
    derive_encryption_key (credential_key_params provisioned_user) [1; 2; 3] = Ok key ∧
    inevitable
      (mkPair (unlock_user [1; 2; 3]) () 0
         (user_credential_handle (PeerCertificate (credential_certificate toy_device))) toy_user_table 0 [] [] 0)
      (mkPair (Finished (Ok (key, root_credential))) () 0 (Finished (Ok ())) toy_user_table 0 [] [] 0).
Proof.
  pose proof (user_credential_meets (S := ()) (TS := toy_tls) (H1 := toy_argon) toy_user_table provisioned_user [1; 2; 3]
    root_credential toy_store1 (credential_certificate toy_device) () 0 0 0 []) as E.
  exact (proj1 (E eq_refl eq_refl toy_provisioned toy_root_credential_ok toy_response_sendable)).
Defined.

Lemma requested_report_follows_witness :
  rtc report_step reports_start (notify_one reports_start) ∧
  answered (report_done (report_notified (report_done (notify_one reports_start)))) =
    asked (notify_one reports_start).
Proof.
  assert (rtc report_step reports_start (notify_one reports_start)) as Hr by (apply rtc_once; constructor).
  split; [exact Hr|]. apply (requested_report_follows _ Hr).
  - eapply rtc_l; [by left|]. eapply rtc_l; [by right|]. apply rtc_once. by left.
  - intros [r [(Hp & _)|(_ & Hp & _)]]; done.
Defined.
