(* ===== verification/FirstConnect.v ===== *)
(** * The first connection of a client ([svalin/src/client/first_connect.rs])

    A client that has no profile asks a server, whoever it is, for its status
    and then initialises it or logs in. Behind an initialisation it connects
    again and logs in, now only to a server that the new trust store
    certifies; a login ends with a profile. What the client does with the
    network, the clock and its disk is the sequence of its steps; the exchanges
    on a connection are those of [Init] and [Login]. *)
From S2P Require Import Prelude.
From S2P Require Import External.
From S2P Require Import Spki.
From S2P Require Import Toy.
From S2P Require Import Certificate.
From S2P Require Import CertChain.
From S2P Require Import Encrypt.
From S2P Require Import Credential.
From S2P Require Import SecureChain.
From S2P Require Import TrustStore.
From S2P Require Import Provider.
From S2P Require Import ServerStore.
From S2P Require Import ClientStore.
From S2P Require Import UserStore.
From S2P Require Import Verifiers.
From S2P Require Import Transport.
From S2P Require Import Script.
From S2P Require Import TlsTransport.
From S2P Require Import Pake.
From S2P Require Import Login.
From S2P Require Import LoginMeets.
From S2P Require Import Init.
From S2P Require Import Files.
From S2P Require Import Persist.
From S2P Require Import Profile.
From S2P Require Import Commands.
From stdpp Require Import options.

#[local] Open Scope Z_scope.

(** ** Errors *)

(** What a dispatch of a command on a connection may end with, besides the
    error of the command itself. *)
Inductive ConnectionDispatchError (D : Type) :=
  | OpenSessionError (e : ExtError)
  | SessionFailed (e : ExtError)
  | NoneSession
  | DispatcherOther (e : D).
Arguments OpenSessionError {D} e.
Arguments SessionFailed {D} e.
Arguments NoneSession {D}.
Arguments DispatcherOther {D} e.

Section first_connect.
Context `{X509, CR : Crypto, RG : !Rcgen, Aead, !Postcard SavedKeypair, Argon2, LT : LoginTypes, Sysinfo}.
Context `{!Postcard StoredUser, !PakeTypes, PK : !Pake, TS : TlsStack}.
Context `{!Json ExportedStore, !Json Profile}.
Context `{!Postcard ClientStore.State, !Postcard (gmap (list Z) (list Z)), !Postcard ChainDigest}.
Context `{!Postcard UnverifiedCertificate, !Postcard (EncryptedObject UnverifiedCertificate)}.
Context `{!Postcard (list Z), !Postcard Nonce, !Postcard PublicKey, !Postcard (result () Authenticator)}.
Context `{!Postcard StrongUsername, !Postcard StrongClientInfo, !Postcard LoginApproval}.
Context `{!Postcard bool, !Postcard string, !Postcard (result () ()), !Postcard ExportedPublicKey, !Postcard InitRequest, !Postcard ()}.

Inductive LoginError :=
  | LoginDispatchError (e : ConnectionDispatchError LoginDispatcherError)
  | LoginWrongPassword
  | LoginInvalidTotp
  | AddProfileError (e : DiskError).

Inductive FirstConnectError :=
  | ConnectError (e : ExtError)
  | StatusError (e : ConnectionDispatchError GetPutblicStatusError)
  | MakeInitError (e : CreateCredentialsError)
  | InitDispatchError (e : ConnectionDispatchError InitError)
  | CloseElapsed
  | FirstLoginError (e : LoginError).

(** The [map_err] of the login: two errors are what the user did. *)
Definition login_error (err : ConnectionDispatchError LoginDispatcherError) : LoginError :=
  match err with
  | DispatcherOther WrongPassword => LoginWrongPassword
  | DispatcherOther InvalidTotp => LoginInvalidTotp
  | err => LoginDispatchError err
  end.

(** ** The steps of the client *)
Definition Link : Type := nat.

(** How a client checks the certificate of a server. *)
Definition ServerCheck : Type := list Z → Z → result RustlsError ().

(** The steps it waits for, each with the place where it goes on. *)
Inductive flow (A : Type) : Type :=
  | Ends (r : result FirstConnectError A)
  | Connects (address : string) (check : ServerCheck) (k : result ExtError Link → flow A)
  | AsksStatus (link : Link) (k : result (ConnectionDispatchError GetPutblicStatusError) PublicStatus → flow A)
  | MakesInit (totp : Totp) (username password : list Z) (k : result CreateCredentialsError Init → flow A)
  | Initialises (link : Link) (init : Init) (k : result (ConnectionDispatchError InitError) ClientInitSuccess → flow A)
  | LogsIn (link : Link) (login : Login) (k : result (ConnectionDispatchError LoginDispatcherError) LoginSuccess → flow A)
  | Closes (link : Link) (seconds : Z) (k : result () () → flow A)
  | Sleeps (seconds : Z) (k : flow A)
  | ReadsTotp (secret : Totp) (k : string → flow A)
  | Saves (profile : list Z → list Z → files DiskError string) (k : result DiskError string → flow A).
#[local] Arguments Ends {A} r.
#[local] Arguments Connects {A} address check k.
#[local] Arguments AsksStatus {A} link k.
#[local] Arguments MakesInit {A} totp username password k.
#[local] Arguments Initialises {A} link init k.
#[local] Arguments LogsIn {A} link login k.
#[local] Arguments Closes {A} link seconds k.
#[local] Arguments Sleeps {A} seconds k.
#[local] Arguments ReadsTotp {A} secret k.
#[local] Arguments Saves {A} profile k.

(** The [?] operator. *)
Definition goes {E A B} (f : E → FirstConnectError) (r : result E A) (k : A → flow B) : flow B :=
  match r with
  | Ok a => k a
  | Err e => Ends (Err (f e))
  | Panic => Ends Panic
  end.

Record InitAt := mkInitAt { init_link : Link; init_address : string }.
Record LoginAt := mkLoginAt { login_link : Link; login_address : string }.

Inductive FirstConnect :=
  | FirstInit (i : InitAt)
  | FirstLogin (l : LoginAt).

(** [SkipServerVerification]. *)
Definition skip_check : ServerCheck := λ _ _, Ok ().

(** [TrustStoreVerifier::new(trust_store).server_only().to_tls_verifier()]. *)
Definition server_only_check (trust_store : TrustStore) : ServerCheck :=
  verify_server_cert (to_tls_verifier (server_only (mkTrustStoreVerifier trust_store))).

Definition first_connect (address : string) : flow FirstConnect :=
  Connects address skip_check (λ client, goes ConnectError client (λ client,
  AsksStatus client (λ server_status, goes StatusError server_status (λ server_status,
  match server_status with
  | WaitingForInit => Ends (Ok (FirstInit (mkInitAt client address)))
  | Ready => Ends (Ok (FirstLogin (mkLoginAt client address)))
  end)))).

(** [String::into_bytes]. *)
Definition into_bytes (s : string) : list Z := str_bytes s.

(** [Login::login]; the profile is saved with a salt and a nonce that are
    drawn. *)
Definition login_login (user_dir : result LocationError Path) (self : LoginAt) (username : string)
    (password : list Z) (totp : string) : flow string :=
  LogsIn (login_link self) (mkLogin (into_bytes username) password totp) (λ login_data,
  goes FirstLoginError (map_err login_error login_data) (λ login_data,
  Saves (λ salt nonce, add_profile user_dir username (login_address self) (success_server_cert login_data)
           (success_root_cert login_data) (device_credential login_data) password
           (success_trust_store login_data) salt nonce) (λ profile,
  goes (λ e, FirstLoginError (AddProfileError e)) profile (λ profile, Ends (Ok profile))))).

(** [INIT_SERVER_SHUTDOWN_COUNTDOWN], in seconds. *)
Definition shutdown_countdown : Z := 1.

(** [Init::init]. *)
Definition init_init (user_dir : result LocationError Path) (self : InitAt) (username : string)
    (password : list Z) (totp_secret : Totp) : flow string :=
  MakesInit totp_secret (into_bytes username) password (λ init, goes MakeInitError init (λ init,
  Initialises (init_link self) init (λ init_data, goes InitDispatchError init_data (λ init_data,
  Closes (init_link self) 1 (λ closed, goes (λ _, CloseElapsed) closed (λ _,
  Sleeps shutdown_countdown (
  Connects (init_address self) (server_only_check (client_trust_store init_data)) (λ client,
  goes ConnectError client (λ client,
  ReadsTotp totp_secret (λ totp,
  login_login user_dir (mkLoginAt client (init_address self)) username password totp)))))))))).

(** ** What happened *)
Inductive FlowEvent :=
  | Connected (address : string) (check : ServerCheck) (r : result ExtError Link)
  | AskedStatus (link : Link) (r : result (ConnectionDispatchError GetPutblicStatusError) PublicStatus)
  | MadeInit (totp : Totp) (username password : list Z) (r : result CreateCredentialsError Init)
  | Initialised (link : Link) (init : Init) (r : result (ConnectionDispatchError InitError) ClientInitSuccess)
  | LoggedIn (link : Link) (login : Login) (r : result (ConnectionDispatchError LoginDispatcherError) LoginSuccess)
  | Closed (link : Link) (seconds : Z) (r : result () ())
  | Slept (seconds : Z)
  | ReadTotp (secret : Totp) (totp : string)
  | Saved (profile : list Z → list Z → files DiskError string) (r : result DiskError string).

(** [tr] is a history of the client's steps that it takes from the start to
    the end, with any outcomes. *)
Inductive follows {A} : flow A → list FlowEvent → result FirstConnectError A → Prop :=
  | follows_end r : follows (Ends r) [] r
  | follows_connect a c k x tr r : follows (k x) tr r → follows (Connects a c k) (Connected a c x :: tr) r
  | follows_status l k x tr r : follows (k x) tr r → follows (AsksStatus l k) (AskedStatus l x :: tr) r
  | follows_make t u p k x tr r : follows (k x) tr r → follows (MakesInit t u p k) (MadeInit t u p x :: tr) r
  | follows_init l i k x tr r : follows (k x) tr r → follows (Initialises l i k) (Initialised l i x :: tr) r
  | follows_login l i k x tr r : follows (k x) tr r → follows (LogsIn l i k) (LoggedIn l i x :: tr) r
  | follows_close l s k x tr r : follows (k x) tr r → follows (Closes l s k) (Closed l s x :: tr) r
  | follows_sleep s k tr r : follows k tr r → follows (Sleeps s k) (Slept s :: tr) r
  | follows_totp s k x tr r : follows (k x) tr r → follows (ReadsTotp s k) (ReadTotp s x :: tr) r
  | follows_save p k x tr r : follows (k x) tr r → follows (Saves p k) (Saved p x :: tr) r.

(** ** The trust store of a new server *)

(** A block that adds a certificate adds just that. *)
Lemma added_certificates (ts before ts' : TrustStore) (c : Certificate) credential now b {E} :
  ts_add ts c credential now = (before, Ok b) → ts_apply (E := E) before b = Ok ts' →
  state_certificates (chain_state (store_chain ts')) = <[spki_hash c := c]> (state_certificates (chain_state (store_chain ts))).
Proof.
  unfold ts_add, ts_apply, package. intros Hp Ha.
  destruct (state_check _ _ _ _) as [[]|e|] eqn:Hcheck; [|done|done].
  apply store_check_Add in Hcheck as (p0 & _ & Hnone & _ & _).
  destruct (state_apply _ _ _ _) as [applied|[]|] eqn:Happ; [|done]. injection Hp as <- <-.
  assert (∀ (state s : TrustStore.State) a t, store_apply state a t (Add c) = Ok s →
    state_certificates s = <[spki_hash c := c]> (state_certificates state)) as Hmap.
  { intros state s a t Hs. unfold store_apply in Hs.
    destruct (state_certificates _ !! issuer _) as [p|]; [|done]. cbn in Hs.
    destruct (verify_signature _ _ _) as [v|e|] eqn:Hv; [|done|done]. cbn in Hs. injection Hs as <-.
    apply verify_signature_Ok in Hv as (-> & _). by destruct c. }
  apply bind_Ok in Ha as (chain & Ha & [= <-]). unfold apply in Ha.
  apply bind_Ok in Ha as (s & Hs & Ha). case_bool_decide; [done|]. injection Ha as <-. cbn.
  assert (∃ a t, store_apply (store_revert applied (Add c)) a t (Add c) = Ok s) as (a & t & Hs').
  { destruct (last_block (store_chain ts)); eexists _, _;
      cbn [as_unchecked sign_block block_transaction state_apply store_chain_state] in Hs;
      destruct (store_apply _ _ _ _) as [x|[]|] eqn:Hx; try done; injection Hs as <-; exact Hx. }
  rewrite (Hmap _ _ _ _ Hs'). cbn. rewrite (Hmap _ _ (spki_hash (credential_certificate credential)) now Happ). by rewrite delete_insert_id.
Qed.

(** What an initialisation leaves with the client. *)
Definition made_server (init : Init) (ts : TrustStore) (server_cert : Certificate) : Prop :=
  (∃ pk now1 now2, create_server_certificate_for_key (init_root init) pk now1 now2 = Ok server_cert) ∧
  ∃ root before block now, use_as_root (as_unverified (credential_certificate (init_root init))) = Ok root ∧
    ts_add (ts_initialize root) server_cert (init_root init) now = (before, Ok block) ∧
    ts_apply (E := InitError) before block = Ok ts.

Lemma init_dispatch_made {S} (m : Machine) init (w w' : World S) data :
  run (init_dispatch m init) w = (w', Ok data) → ∃ server_cert, made_server init (client_trust_store data) server_cert.
Proof.
  unfold init_dispatch. intros (w1 & pk & _ & Hr)%run_bind_inv.
  apply run_bind_inv in Hr as (w2 & t1 & _ & Hr). apply run_bind_inv in Hr as (w3 & t2 & _ & Hr).
  apply run_bind_inv in Hr as (w4 & server_cert & [= _ Hcert%map_err_Ok] & Hr).
  apply run_bind_inv in Hr as (w5 & root & [= _ Hroot%map_err_Ok] & Hr). exists server_cert.
  apply run_bind_inv in Hr as (w6 & [request ts] & Hreq & Hr).
  apply run_bind_inv in Hr as (w7 & [] & _ & Hr). apply run_bind_inv in Hr as (w8 & answer & _ & Hr).
  apply run_bind_inv in Hr as (w9 & [] & _ & Hr).
  destruct answer; cbn in Hr; [injection Hr as <- <-|done|done]. cbn. split; [by exists pk, (clock m t1), (clock m t2)|].
  unfold make_request in Hreq.
  apply run_bind_inv in Hreq as (v1 & [[e ps] v] & _ & Hr). apply run_bind_inv in Hr as (v2 & salt & _ & Hr).
  apply run_bind_inv in Hr as (v3 & key & _ & Hr). apply run_bind_inv in Hr as (v4 & data & _ & Hr).
  destruct (new_memory []) as [arcs [x handle]].
  apply run_bind_inv in Hr as (v5 & r1 & _ & Hr). apply run_bind_inv in Hr as (v6 & mls & _ & Hr).
  apply run_bind_inv in Hr as (v7 & r2 & _ & Hr). apply run_bind_inv in Hr as (v8 & enc & _ & Hr).
  apply run_bind_inv in Hr as (v9 & t & _ & Hr).
  destruct (ts_add _ _ _ _) as [before r] eqn:Hadd.
  apply run_bind_inv in Hr as (v10 & block & [= _ Hb%map_err_Ok] & Hr).
  apply run_bind_inv in Hr as (v11 & ts' & [= _ Happly] & Hr).
  apply run_bind_inv in Hr as (v12 & digest & _ & Hr). injection Hr as _ _ <-. subst r.
  by exists root, before, block, (get_current_timestamp m t).
Qed.

(** The check for the second connection lets one server in. *)
Lemma server_only_one init ts server_cert d now :
  made_server init ts server_cert →
  server_only_check ts d now = Ok () ↔
  d = der server_cert ∧ certificate_type server_cert = Server ∧ check_validity_at server_cert now = Ok ().
Proof.
  intros [(pk & now1 & now2 & Hcert) (root & before & block & t & Hroot & Hadd & Happly)].
  pose proof (added_certificates _ _ _ _ _ _ _ Hadd Happly) as Hmap. cbn in Hmap.
  assert (parsed server_cert) as Hparsed.
  { unfold create_server_certificate_for_key, create_certificate_for_key in Hcert.
    apply bind_Ok in Hcert as (c & Hc & [= <-]). cbn. inv_result Hc. by eapply from_der_parsed. }
  unfold use_as_root in Hroot. case_bool_decide as Htype; [|done]. injection Hroot as <-.
  assert (∀ h (c : Certificate), ts_get ts h = Some c → certificate_type c = Server → c = server_cert) as Hone.
  { unfold ts_get. rewrite Hmap. intros h c. rewrite lookup_insert_Some. intros [[_ <-]|[_ Hc]]; [done|].
    apply lookup_singleton_Some in Hc as [_ <-]. cbn in *. by rewrite Htype. }
  unfold server_only_check. rewrite server_only_tls. cbn. setoid_rewrite trust_store_verify_Ok. cbn. split.
  - intros (c & c' & Hc & Hserver & [Hg Hv] & <-). pose proof (Hone _ _ Hg Hserver) as ->. done.
  - intros (-> & Hserver & Hv). exists server_cert, server_cert. split_and!; try done.
    unfold ts_get. by rewrite Hmap, lookup_insert_eq.
Qed.

(** ** What the client ends with *)
Ltac follow H := inversion H; subst; clear H; cbn [goes map_err] in *.

(** A login is followed by a profile of just what it brought, or by nothing. *)
Lemma login_login_inv dir self username password totp tr r :
  follows (login_login dir self username password totp) tr r →
  ∃ out rest, tr = LoggedIn (login_link self) (mkLogin (into_bytes username) password totp) out :: rest ∧
    match out with
    | Err e => rest = [] ∧ r = Err (FirstLoginError (login_error e))
    | Panic => rest = [] ∧ r = Panic
    | Ok data => ∃ profile,
        rest = [Saved (λ salt nonce, add_profile dir username (login_address self) (success_server_cert data)
                         (success_root_cert data) (device_credential data) password
                         (success_trust_store data) salt nonce) profile] ∧
        r = map_err (λ e, FirstLoginError (AddProfileError e)) profile
    end.
Proof.
  unfold login_login. intros Hf. follow Hf. eexists x, _. split; [done|].
  destruct x as [data|e|]; cbn [goes map_err] in *; match goal with H : follows _ _ _ |- _ => follow H end; [|done|done].
  exists x. match goal with H : follows _ _ _ |- _ => destruct x; cbn [goes] in H; follow H end; done.
Qed.

(** C34: A client that has initialised a server logs in behind that only over a
    new connection to the same address, opened when the old one was closed and
    the server had the time to restart, with the password and a code of the
    secret it gave the server; and whatever answers there, the check of the
    connection lets in the server that was initialised and no other. *)
Theorem init_logs_in_at_its_server dir self username password secret tr r link login out :
  follows (init_init dir self username password secret) tr r → LoggedIn link login out ∈ tr →
  ∃ init data totp rest,
    tr = [MadeInit secret (into_bytes username) password (Ok init); Initialised (init_link self) init (Ok data);
          Closed (init_link self) 1 (Ok ()); Slept shutdown_countdown;
          Connected (init_address self) (server_only_check (client_trust_store data)) (Ok link);
          ReadTotp secret totp; LoggedIn link login out] ++ rest ∧
    login = mkLogin (into_bytes username) password totp ∧
    ∀ (S : Type) (m : Machine) (w w' : World S), run (init_dispatch m init) w = (w', Ok data) →
      ∃ server_cert, made_server init (client_trust_store data) server_cert ∧
        ∀ d now, server_only_check (client_trust_store data) d now = Ok () ↔
          d = der server_cert ∧ certificate_type server_cert = Server ∧ check_validity_at server_cert now = Ok ().
Proof.
  unfold init_init. intros Hf Hin.
  repeat match goal with
  | Hf : follows (goes _ ?x _) _ _ |- _ => destruct x; cbn [goes] in Hf
  | Hf : follows (Ends _) _ _ |- _ => inversion Hf; subst; clear Hf; set_solver
  | Hf : follows (login_login _ _ _ _ _) _ _ |- _ => apply login_login_inv in Hf as (? & ? & -> & Hout)
  | Hf : follows _ _ _ |- _ => inversion Hf; subst; clear Hf
  end.
  rewrite !elem_of_cons in Hin. destruct Hin as [|[|[|[|[|[|[Hin|Hin]]]]]]]; try done.
  - injection Hin as -> -> ->. repeat match goal with u : () |- _ => destruct u end.
    eexists _, _, _, _. split; [reflexivity|]. split; [done|].
    intros S m w w' (server_cert & Hmade)%init_dispatch_made. exists server_cert. split; [done|].
    intros d now. by eapply server_only_one.
  - exfalso. match goal with Hout : match ?o with _ => _ end |- _ => destruct o end.
    + destruct Hout as (p & -> & _). set_solver.
    + destruct Hout as [-> _]. set_solver.
    + destruct Hout as [-> _]. set_solver.
Qed.

(** A history without errors. *)
Definition smooth dir self username password secret init data link totp login_data name : list FlowEvent :=
  [MadeInit secret (into_bytes username) password (Ok init); Initialised (init_link self) init (Ok data);
   Closed (init_link self) 1 (Ok ()); Slept shutdown_countdown;
   Connected (init_address self) (server_only_check (client_trust_store data)) (Ok link);
   ReadTotp secret totp; LoggedIn link (mkLogin (into_bytes username) password totp) (Ok login_data);
   Saved (λ salt nonce, add_profile dir username (init_address self) (success_server_cert login_data)
            (success_root_cert login_data) (device_credential login_data) password
            (success_trust_store login_data) salt nonce) (Ok name)].

Lemma smooth_follows dir self username password secret init data link totp login_data name :
  follows (init_init dir self username password secret)
    (smooth dir self username password secret init data link totp login_data name) (Ok name).
Proof.
  unfold init_init, smooth.
  apply follows_make, follows_init, follows_close, follows_sleep, follows_connect, follows_totp.
  apply follows_login, follows_save. constructor.
Qed.

Lemma smooth_init dir self username password secret init data link totp login_data name t u p i l d rest :
  smooth dir self username password secret init data link totp login_data name = MadeInit t u p i :: Initialised l init (Ok d) :: rest →
  d = data.
Proof. by intros [= _ _ _ _ _ -> _]. Qed.
Lemma smooth_made dir self username password secret init data link totp login_data name t u p i rest :
  smooth dir self username password secret init data link totp login_data name = MadeInit t u p (Ok i) :: rest → i = init.
Proof. by intros [= _ _ _ -> _]. Qed.
End first_connect.

(** ** A server is set up *)
#[local] Existing Instance toy_x509.
#[local] Existing Instance toy_crypto.
#[local] Existing Instance toy_rcgen.
#[local] Existing Instance toy_aead.
#[local] Existing Instance toy_argon.
#[local] Existing Instance toy_tls.
#[local] Existing Instance toy_login_types.
#[local] Existing Instance toy_pake_types.
#[local] Existing Instance toy_pake.
#[local] Existing Instance toy_disks.
#[local] Existing Instance postcard_keypair.
#[local] Existing Instance toy_postcard.
#[local] Existing Instance done_countable.
#[local] Existing Instance Init.postcard_state.
#[local] Existing Instance postcard_memory.
#[local] Existing Instance postcard_init_user.
#[local] Existing Instance postcard_init_request.
#[local] Existing Instance Init.postcard_public_key.
#[local] Existing Instance toy_profile_json.
#[local] Existing Instance toy_snapshot_json.

Definition toy_client_world : World () := mkWorld () 0 [Received []; Wrote; Received [Zpos (encode (Ok () : result () ()))]; Wrote] [].
Definition toy_init_data : ClientInitSuccess := mkClientInitSuccess root_credential toy_init_store.

Lemma toy_init_runs : (run (init_dispatch toy_alice toy_init) toy_client_world).2 = Ok toy_init_data.
Proof. reflexivity. Qed.

Definition toy_secret : @Totp toy_login_types := [].
Definition toy_login_data : LoginSuccess :=
  mkLoginSuccess root_credential toy_root_certificate toy_init_certificate toy_init_store.
Definition toy_login_made : Login := mkLogin (into_bytes "A") toy_root_password "123456".

Definition toy_setup : list FlowEvent :=
  smooth (Ok toy_base) (mkInitAt 0%nat "svalin:1234") "A" toy_root_password toy_secret toy_init toy_init_data 1%nat
    "123456" toy_login_data "A@svalin:1234".

Lemma init_logs_in_at_its_server_witness :
  ∃ init data server_cert, Initialised 0%nat init (Ok data) ∈ toy_setup ∧
    made_server init (client_trust_store data) server_cert ∧ data = toy_init_data.
Proof.
  destruct (init_logs_in_at_its_server (Ok toy_base) (mkInitAt 0%nat "svalin:1234") "A" toy_root_password toy_secret
    toy_setup (Ok "A@svalin:1234"%string) 1%nat toy_login_made (Ok toy_login_data)
    (smooth_follows _ _ _ _ _ _ _ _ _ _ _))
    as (init & data & totp & rest & Htr & _ & Hserver).
  { do 6 apply list_elem_of_further. by apply list_elem_of_here. }
  assert (init = toy_init) as -> by exact (smooth_made _ _ _ _ _ _ _ _ _ _ _ _ _ _ _ _ Htr).
  assert (data = toy_init_data) as -> by exact (smooth_init _ _ _ _ _ _ _ _ _ _ _ _ _ _ _ _ _ _ Htr).
  destruct (Hserver ()%type toy_alice toy_client_world (run (init_dispatch toy_alice toy_init) toy_client_world).1) as (cert & Hm & _).
  { exact (io_run _ _ _ toy_init_runs). }
  exists toy_init, toy_init_data, cert. split; [|by split]. apply list_elem_of_further, list_elem_of_here.
Defined.
