(* ===== verification/Devices.v ===== *)
(** * Commands of a client on a device
    ([svalin/src/client/device.rs], [svalin_rpc/src/commands/forward.rs],
    [e2e.rs], [Session::dispatch] and [handle] of [svalin_rpc/src/rpc])

    A client reaches a device through the server: it asks to be forwarded,
    starts TLS with the device inside of the forwarded session, and dispatches
    its command in there. Here are both ends of it as scripts. The server is a
    pipe once the device has accepted ([Rpc.forward_is_transparent]); the far
    end of the client's session is then the device. That a side is done and
    closes is left out of scripts. *)
From S2P Require Import Prelude.
From S2P Require Import External.
From S2P Require Import Spki.
From S2P Require Import Toy.
From S2P Require Import Certificate.
From S2P Require Import CertChain.
From S2P Require Import Encrypt.
From S2P Require Import Credential.
From S2P Require Import SecureChain.
From S2P Require Import TrustStore.
From S2P Require Import Verifiers.
From S2P Require Import Permissions.
From S2P Require Import Transport.
From S2P Require Import Rpc.
From S2P Require Import Script.
From S2P Require Import TlsTransport.
From S2P Require Import LoginMeets.
From S2P Require Import Commands.
From S2P Require Import Enroll.
From stdpp Require Import relations.
From stdpp Require Import options.

#[local] Open Scope Z_scope.

(** ** The client's end of a session *)
Inductive DispatchError (E : Type) :=
  | HeaderWriteFailed (e : ObjectWriterError)
  | RequestWriteFailed (e : ObjectWriterError)
  | ResponseReadFailed (e : ObjectReaderError)
  | Declined (code : Z) (message : string)
  | DispatcherFailed (e : E).
#[global] Arguments HeaderWriteFailed {E} _.
#[global] Arguments RequestWriteFailed {E} _.
#[global] Arguments ResponseReadFailed {E} _.
#[global] Arguments Declined {E} _ _.
#[global] Arguments DispatcherFailed {E} _.

Section dispatching.
Context `{!HeaderCodec} {S : Type}.

(** [Session::dispatch]. *)
Definition dispatch_command {Request E A} `{Postcard Request} (key : string) (request : Request) (dispatcher : script S E A) :
    script S (DispatchError E) A :=
  _ ← script_map_err HeaderWriteFailed (write_object (mkRequestHeader key));
  _ ← script_map_err RequestWriteFailed (write_object request);
  response ← script_map_err ResponseReadFailed (read_object (U := SessionResponseHeader));
  match response with
  | Decline code message => returns (Err (Declined code message))
  | Accept => script_map_err DispatcherFailed dispatcher
  end.

(** ** The serving end *)
Section serving.
Context {Permission : Type}.

(** A handler with its permission, for a session of its own. *)
Record CommandHandler := mkCommandHandler {
  command_request : Type;
  command_postcard : Postcard command_request;
  command_permission : command_request → Permission;
  command_handle : command_request → script S ServeError ();
}.

(** [Session::handle] with a collection of handlers, for a peer. *)
Definition handle_command (may : Permission → result PermissionCheckError ()) (commands : gmap string CommandHandler) :
    script S ServeError () :=
  header ← script_map_err ServeRead (read_object (U := SessionRequestHeader));
  match commands !! command_key header with
  | None =>
      _ ← script_map_err ServeWrite (write_object (Decline 404 "command not found"));
      returns (Err (ServeOther "command not found"))
  | Some handler =>
      request ← script_map_err ServeRead (read_object (H := command_postcard handler));
      match may (command_permission handler request) with
      | Err err =>
          _ ← script_map_err ServeWrite (write_object (Decline 403 "Permission denied"));
          returns (Err (ServePermission err))
      | Ok _ =>
          _ ← script_map_err ServeWrite (write_object Accept);
          command_handle handler request
      | Panic => returns Panic
      end
  end.
End serving.
End dispatching.
#[global] Arguments CommandHandler : clear implicits.

(** ** The session with a device *)
Section device.
Context `{X509, CR : Crypto, RG : !Rcgen, Aead, !Postcard SavedKeypair, TS : Script.TlsStack}.
Context `{!HeaderCodec, !Postcard (), !Postcard SpkiHash, !Postcard (() + ForwardError)}.

Inductive ForwardDispatchError :=
  | AwaitForwardError (e : ObjectReaderError)
  | ForwardRefused (e : ForwardError).

Inductive DeviceError :=
  | DeviceUnknown (e : VerifyError)
  | ForwardFailed (e : DispatchError ForwardDispatchError)
  | EncryptionFailed (e : DispatchError TlsClientError).

Section client.
Context {S : Type}.

Definition forward_dispatch : script S ForwardDispatchError () :=
  answer ← script_map_err AwaitForwardError (read_object (U := () + ForwardError));
  match answer with
  | inl _ => mret ()
  | inr e => returns (Err (ForwardRefused e))
  end.

(** [E2EDispatcher]. *)
Definition e2e_dispatch (peer : Certificate) (credentials : Credential) : script S TlsClientError TlsTransport :=
  tls_client (exactly peer) credentials.

(** [ForwardConnection::open_raw_session]. *)
Definition open_device_session (credentials : Credential) (target : Certificate) : script S DeviceError TlsTransport :=
  _ ← script_map_err ForwardFailed (dispatch_command "forward" (spki_hash target) forward_dispatch);
  script_map_err EncryptionFailed (dispatch_command "e2e" () (e2e_dispatch target credentials)).

(** [Connection::dispatch] over it. The frames that follow travel inside the
    TLS connection that was opened, as those of a script do behind its
    handshake. *)
Definition device_dispatch {Request E A} `{Postcard Request} (credentials : Credential) (target : Certificate) (key : string)
    (request : Request) (dispatcher : script S E A) : script S (DeviceError + DispatchError E) A :=
  _ ← script_map_err inl (open_device_session credentials target);
  script_map_err inr (dispatch_command key request dispatcher).

(** [DeviceHandle::connection] and a command on it. *)
Definition device_request {Request E A} `{Postcard Request} (verifier : TrustStoreVerifier) (now : Z) (credentials : Credential)
    (device : SpkiHash) (key : string) (request : Request) (dispatcher : script S E A) :
    script S (DeviceError + DispatchError E) A :=
  cert ← returns (map_err (λ e, inl (DeviceUnknown e)) (trust_store_verify verifier device now));
  device_dispatch credentials cert key request dispatcher.
End client.

Section server.
Context {S : Type}.

(** [ForwardHandler]: what a connected device does with a session it has taken
    over, unless it refuses to. *)
Definition forward_command (connected : gmap SpkiHash (option (script S ServeError ()))) : CommandHandler S Permission :=
  mkCommandHandler SpkiHash _ (λ _, permission_of CmdForward) (λ target,
    match connected !! target with
    | Some None =>
        _ ← script_map_err ServeWrite (write_object (inr DeauthFailure : () + ForwardError));
        returns (Err (ServeOther "deauthentication failed"))
    | Some (Some device) =>
        _ ← script_map_err ServeWrite (write_object (inl () : () + ForwardError));
        device
    | None =>
        _ ← script_map_err ServeWrite (write_object (inr TargetNotConnected : () + ForwardError));
        returns (Err (ServeOther "no connection to requested peer"))
    end).

(** [E2EHandler]: what follows is handled for the peer of the TLS session. *)
Definition e2e_command (credentials : Credential) (verifier : TrustStoreVerifier) (root : RootCertificate)
    (e2e_commands : Peer → gmap string (CommandHandler S Permission)) : CommandHandler S Permission :=
  mkCommandHandler () _ (λ _, permission_of CmdE2E) (λ _,
    tls_transport ← script_map_err (λ _, ServeTls) (tls_server (verify_cert (to_tls_verifier verifier)) credentials);
    let peer := tls_peer tls_transport in
    handle_command (may (mkDefaultHandler root) peer) (e2e_commands peer)).

(** What a device serves to nobody in particular. *)
Definition device_public (credentials : Credential) (verifier : TrustStoreVerifier) (root : RootCertificate)
    (e2e_commands : Peer → gmap string (CommandHandler S Permission)) : script S ServeError () :=
  handle_command (may (mkDefaultHandler root) Anonymous)
    {[ "e2e"%string := e2e_command credentials verifier root e2e_commands ]}.
End server.
End device.

(** ** What is sent before the device has shown itself *)
Section alone.
Context {S : Type}.
Implicit Types w : World S.

Definition frame_of {U} `{Postcard U} (x : U) : list Frame := match to_stdvec x with Ok b => [Chunk b] | _ => [] end.

(** A script that sends nothing. *)
Definition silent {E A} (p : script S E A) : Prop := ∀ w, sent (run p w).1 = sent w.

Lemma run_answers {E A} (p : script S E A) w : ∃ used, answers w = used ++ answers (run p w).1.
Proof.
  assert (∀ w, ∃ used, answers w = used ++ tail (answers w)) as Htail.
  { intros w0. destruct (answers w0) as [|a l]; [by exists []|by exists [a]]. }
  assert (∀ (p : script S E A) w w0, tail (answers w) = answers w0 → (∀ w, ∃ used, answers w = used ++ answers (run p w).1) →
    ∃ used, answers w = used ++ answers (run p w0).1) as Hstep.
  { intros q w1 w0 E0 Hq. destruct (Htail w1) as [u1 Hu1], (Hq w0) as [u2 Hu2]. exists (u1 ++ u2).
    by rewrite <-app_assoc, <-Hu2, <-E0. }
  revert w. induction p as [r|k IH|k IH|s k IH|b k IH|n k IH|b k IH|k IH|c k IH]; intros w; cbn [run].
  - by exists [].
  - exact (IH (drawn w) (mkWorld (local w) (1 + drawn w)%nat (answers w) (sent w))).
  - exact (IH (local w) w).
  - exact (IH (mkWorld s (drawn w) (answers w) (sent w))).
  - destruct (head (answers w)) as [[]|]; by apply Hstep.
  - destruct (head (answers w)) as [[]|]; by apply Hstep.
  - destruct (head (answers w)) as [[]|]; by apply Hstep.
  - destruct (head (answers w)) as [[]|]; by apply Hstep.
  - destruct (head (answers w)) as [[]|]; by apply Hstep.
Qed.

Lemma run_uses {E A} (p : script S E A) w w' r : run p w = (w', r) → ∃ used, answers w = used ++ answers w'.
Proof. intros Hr. destruct (run_answers p w) as [u Hu]. exists u. by rewrite Hr in Hu. Qed.

Lemma silent_read_object {U E} `{Postcard U} (f : ObjectReaderError → E) : silent (script_map_err f (read_object (U := U))).
Proof.
  intros w. rewrite run_map_err. unfold read_object. rewrite run_bind. unfold mbind, io_bind. rewrite run_map_err. cbn.
  destruct (head (answers w)) as [[]|]; cbn; try done; by destruct (from_bytes b).
Qed.

(** Either nothing is sent and the script fails, or exactly the object is. *)
Lemma run_write_object {U E} `{Postcard U} (f : ObjectWriterError → E) (x : U) w w' r :
  run (script_map_err f (write_object x)) w = (w', r) →
  (sent w' = sent w ∧ is_ok r = false) ∨ (sent w' = sent w ++ frame_of x ∧ r = Ok ()).
Proof.
  rewrite run_map_err. unfold write_object, frame_of. rewrite run_bind. unfold mbind at 1, io_bind at 1. rewrite run_returns.
  destruct (to_stdvec x) as [b|e|]; cbn [map_err]; [|intros [= <- <-]; by left|intros [= <- <-]; by left].
  rewrite run_bind. unfold mbind at 1, io_bind at 1. rewrite run_returns.
  destruct (from_usize (Z.of_nat (length b))) as [u|e|]; [|intros [= <- <-]; by left|intros [= <- <-]; by left].
  rewrite run_map_err. cbn. destruct (head (answers w)) as [[]|]; cbn; intros [= <- <-]; by (left + right).
Qed.

Context `{!HeaderCodec}.

(** [Session::dispatch] gives its dispatcher a session on which just the
    header and the request were sent. *)
Lemma run_dispatch_command {Request E A} `{Postcard Request} key (request : Request) (d : script S E A) w w' r :
  run (dispatch_command key request d) w = (w', r) →
  (∃ frames, frames `prefix_of` frame_of (mkRequestHeader key) ++ frame_of request ∧ sent w' = sent w ++ frames ∧ is_ok r = false) ∨
  ∃ w1, sent w1 = sent w ++ frame_of (mkRequestHeader key) ++ frame_of request ∧ (∃ used, answers w = used ++ answers w1) ∧
    run (script_map_err DispatcherFailed d) w1 = (w', r).
Proof.
  unfold dispatch_command. intros Hrun.
  apply run_bind_cases in Hrun as [(w1 & [] & Hr1 & Hrun)|(r' & Hr1 & Hn' & Hn)].
  2: { left. apply run_write_object in Hr1 as [[Hs _]|[_ ->]]; [|done]. exists []. rewrite app_nil_r. split_and!; [by apply prefix_nil|done|done]. }
  destruct (run_uses _ _ _ _ Hr1) as [u1 Hu1].
  apply run_write_object in Hr1 as [[_ Hn]|[Hs1 _]]; [done|].
  apply run_bind_cases in Hrun as [(w2 & [] & Hr2 & Hrun)|(r' & Hr2 & Hn' & Hn)].
  2: { left. apply run_write_object in Hr2 as [[Hs _]|[_ ->]]; [|done]. exists (frame_of (mkRequestHeader key)).
       split_and!; [by eexists|by rewrite Hs, Hs1|done]. }
  destruct (run_uses _ _ _ _ Hr2) as [u2 Hu2].
  apply run_write_object in Hr2 as [[_ Hn]|[Hs2 _]]; [done|].
  assert (sent w2 = sent w ++ frame_of (mkRequestHeader key) ++ frame_of request) as Hs by (by rewrite Hs2, Hs1, <-app_assoc).
  pose proof (silent_read_object (U := SessionResponseHeader) (ResponseReadFailed (E := E)) w2) as Hread.
  apply run_bind_cases in Hrun as [(w3 & response & Hr3 & Hrun)|(r' & Hr3 & Hn' & Hn)];
    destruct (run_uses _ _ _ _ Hr3) as [u3 Hu3]; rewrite Hr3 in Hread; cbn in Hread.
  2: { left. exists (frame_of (mkRequestHeader key) ++ frame_of request). split_and!; [done|by rewrite Hread|done]. }
  destruct response as [|code message].
  - right. exists w3. split; [by rewrite Hread|]. split; [|done]. exists (u1 ++ u2 ++ u3). by rewrite Hu1, Hu2, Hu3, <-!app_assoc.
  - left. injection Hrun as <- <-. exists (frame_of (mkRequestHeader key) ++ frame_of request). split_and!; [done|by rewrite Hread|done].
Qed.
End alone.

Section guarded.
Context `{X509, CR : Crypto, RG : !Rcgen, Aead, !Postcard SavedKeypair, TS : Script.TlsStack}.
Context `{!HeaderCodec, !Postcard (), !Postcard SpkiHash, !Postcard (() + ForwardError)}.
Context {S : Type}.
Implicit Types w : World S.

(** What the server sees of a request to a device: whom it is for. *)
Definition opening (device : SpkiHash) : list Frame :=
  (frame_of (mkRequestHeader "forward") ++ frame_of device) ++ frame_of (mkRequestHeader "e2e") ++ frame_of ().

(** The device has shown its certificate in the TLS session. *)
Definition device_shown (cert : Certificate) w (tls : TlsTransport) : Prop :=
  ∃ time rest, Shook time (tls_stream tls) ∈ answers w ∧ peer_certificates (tls_stream tls) = Some (der cert :: rest) ∧
    check_validity_at cert time = Ok () ∧ tls_peer tls = PeerCertificate cert.

Lemma run_e2e_dispatch (target : Certificate) credentials w w' r :
  parsed target → run (e2e_dispatch target credentials) w = (w', r) →
  sent w' = sent w ∧ ∀ tls, r = Ok tls → device_shown target w tls.
Proof.
  intros Hp. unfold e2e_dispatch, tls_client. rewrite run_bind. unfold mbind at 1, io_bind at 1. rewrite run_returns.
  destruct (rustls_private_key _) as [key|e|]; [|by intros [= <- <-]|by intros [= <- <-]].
  rewrite run_bind. unfold mbind at 1, io_bind at 1. rewrite run_returns.
  destruct (map_err ClientCreateConfigError _) as [[]|e|]; [|by intros [= <- <-]|by intros [= <- <-]].
  rewrite run_bind. unfold mbind at 1, io_bind at 1. rewrite run_returns.
  destruct (map_err ClientParseHostError _) as [[]|e|]; [|by intros [= <- <-]|by intros [= <- <-]].
  cbn. destruct (head (answers w)) as [[|b|time stream]|] eqn:Hh; cbn; try (by intros [= <- <-]).
  unfold shake. cbn [tls_verify].
  destruct (peer_certificates stream) as [[|d rest]|] eqn:Hc; cbn; unfold presented; rewrite ?Hc; cbn;
    try (by intros [= <- <-]).
  destruct (exactly target d time) as [[]|e|] eqn:Hv; cbn; [|by intros [= <- <-]|by intros [= <- <-]].
  rewrite Hc. cbn. apply (exact_tls_accepts target d time Hp) in Hv as [-> Hvalid].
  unfold dangerous_from_already_verified_der. unfold parsed in Hp. rewrite Hp. cbn. intros [= <- <-]. split; [done|].
  intros tls [= <-]. exists time, rest. split_and!; [|done|done|by destruct target].
  destruct (answers w) as [|a l]; [done|]. injection Hh as ->. apply list_elem_of_here.
Qed.

Lemma silent_forward_dispatch {F} (f : ForwardDispatchError → F) w w' r :
  run (script_map_err f forward_dispatch) w = (w', r) → sent w' = sent w.
Proof.
  rewrite run_map_err. unfold forward_dispatch. rewrite run_bind. unfold mbind, io_bind.
  pose proof (silent_read_object (U := () + ForwardError) AwaitForwardError w) as Hs.
  destruct (run _ w) as [w1 [[[]|e]|e|]]; cbn in *; by intros [= <- <-].
Qed.

Lemma run_open_device_session credentials (target : Certificate) w w' r :
  parsed target → run (open_device_session credentials target) w = (w', r) →
  (∃ frames, frames `prefix_of` opening (spki_hash target) ∧ sent w' = sent w ++ frames ∧ is_ok r = false) ∨
  ∃ tls, r = Ok tls ∧ sent w' = sent w ++ opening (spki_hash target) ∧ device_shown target w tls.
Proof.
  intros Hp Hrun. unfold open_device_session in Hrun.
  set (o1 := frame_of (mkRequestHeader "forward") ++ frame_of (spki_hash target)).
  assert (o1 `prefix_of` opening (spki_hash target)) as Hpre by (by eexists).
  apply run_bind_cases in Hrun as [(w1 & [] & Hr1 & Hrun)|(r' & Hr1 & Hn' & Hn)].
  2: { left. rewrite run_map_err in Hr1. destruct (run (dispatch_command _ _ _) w) as [w1 r1] eqn:E. injection Hr1 as <- <-.
       apply run_dispatch_command in E as [(frames & Hf & Hs & _)|(w2 & Hs & _ & E)].
       - exists frames. split; [by etransitivity|done].
       - exists o1. split; [done|]. split; [|done]. by rewrite (silent_forward_dispatch _ _ _ _ E). }
  apply run_map_err_inv in Hr1. destruct (run_uses _ _ _ _ Hr1) as [u1 Hu1].
  apply run_dispatch_command in Hr1 as [(? & _ & _ & Hn)|(w2 & Hs1 & _ & Hr1)]; [done|].
  apply silent_forward_dispatch in Hr1. rewrite <-Hr1 in Hs1.
  rewrite run_map_err in Hrun. destruct (run (dispatch_command _ _ _) w1) as [w3 r3] eqn:E. injection Hrun as <- <-.
  apply run_dispatch_command in E as [(frames & Hf & Hs & Hn)|(w4 & Hs & [u2 Hu2] & E)].
  - left. exists (o1 ++ frames). split; [by apply prefix_app|]. split; [by rewrite Hs, Hs1, <-app_assoc|]. by destruct r3.
  - rewrite run_map_err in E. destruct (run (e2e_dispatch target credentials) w4) as [w5 r5] eqn:E5. injection E as <- <-.
    destruct (run_e2e_dispatch _ _ _ _ _ Hp E5) as [Hs5 Hok].
    assert (sent w5 = sent w ++ opening (spki_hash target)) as Hall by (by rewrite Hs5, Hs, Hs1, <-app_assoc).
    destruct r5 as [tls|e|]; [right|left|left].
    + exists tls. split; [done|]. split; [done|]. destruct (Hok tls eq_refl) as (time & rest & Hin & Hrest).
      exists time, rest. split; [|done]. rewrite Hu1, Hu2. by do 2 (apply elem_of_app; right).
    + by exists (opening (spki_hash target)).
    + by exists (opening (spki_hash target)).
Qed.

(** C39: A client's request to a device, whatever the server and the device
    answer: nothing but the hash of the device's certificate leaves the client
    before a TLS session is up, in which the peer has shown the certificate
    that the client's trust store holds for the device, within its validity,
    and which derives from the root. The request and all that follows go into
    that session. *)
Theorem request_reaches_its_device {Request E A} `{Postcard Request} (root : RootCertificate) ts now credentials device
    key (request : Request) (dispatcher : script S E A) w w' r :
  parsed root → reachable root ts →
  run (device_request (mkTrustStoreVerifier ts) now credentials device key request dispatcher) w = (w', r) →
  (∃ frames, frames `prefix_of` opening device ∧ sent w' = sent w ++ frames ∧ is_ok r = false) ∨
  ∃ (cert : Certificate) tls w1,
    ts_get ts device = Some cert ∧ spki_hash cert = device ∧ derives root cert ∧ device_shown cert w tls ∧
    sent w1 = sent w ++ opening device ∧ run (script_map_err inr (dispatch_command key request dispatcher)) w1 = (w', r).
Proof.
  intros Hroot Hts. destruct (reachable_inv root ts Hroot Hts) as (Hwf & Ht & Hr & _). unfold device_request. intros Hrun.
  rewrite run_bind in Hrun. unfold mbind, io_bind in Hrun. rewrite run_returns in Hrun.
  destruct (trust_store_verify (mkTrustStoreVerifier ts) device now) as [cert|e|] eqn:Hv; cbn [map_err] in Hrun.
  2, 3: left; exists []; injection Hrun as <- <-; rewrite app_nil_r; split_and!; [apply prefix_nil|done|done].
  apply trust_store_verify_Ok in Hv as [Hget _]. cbn [verifier_store] in Hget.
  destruct (store_wf_lookup _ _ _ Hwf Hget) as [Hhash Hparsed]. unfold device_dispatch in Hrun.
  apply run_bind_cases in Hrun as [(w1 & tls & Hr1 & Hrun)|(r' & Hr1 & Hn' & Hn)].
  - right. apply run_map_err_inv in Hr1.
    apply run_open_device_session in Hr1 as [(? & _ & _ & Hn)|(tls' & [= <-] & Hs & Hshown)]; [done| |done].
    exists cert, tls, w1. rewrite Hhash in Hs. split_and!; try done. pose proof (Ht _ _ Hget) as Hd. by rewrite Hr in Hd.
  - left. rewrite run_map_err in Hr1. destruct (run (open_device_session credentials cert) w) as [w1 r1] eqn:Er. injection Hr1 as <- <-.
    apply run_open_device_session in Er as [(frames & Hf & Hs & _)|(tls & -> & _)]; [|done|done].
    exists frames. by rewrite Hhash in Hf.
Qed.
End guarded.

(** ** Both ends *)
Section meeting.
Context `{X509, CR : Crypto, RG : !Rcgen, Aead, !Postcard SavedKeypair, TS : Script.TlsStack}.
Context `{!HeaderCodec, !Postcard (), !Postcard SpkiHash, !Postcard (() + ForwardError)}.
Context `{!HeaderCodecLaws, !PostcardLaws (), !PostcardLaws SpkiHash, !PostcardLaws (() + ForwardError), TL : !Script.TlsStackLaws}.
Context {S T : Type}.

Lemma dispatch_meets {Permission Request E A} {HR : Postcard Request} {HL : PostcardLaws Request} key (request : Request)
    (d : script S E A) may (commands : gmap string (CommandHandler T Permission)) permission body bk bq ba s n t m h :
  commands !! key = Some (mkCommandHandler Request HR permission body) → may (permission request) = Ok () →
  sendable (mkRequestHeader key) bk → sendable request bq → sendable Accept ba →
  rtc pair_step (mkPair (dispatch_command key request d) s n (handle_command may commands) t m [] [] h)
    (mkPair (script_map_err DispatcherFailed d) s n (body request) t m [] [] h).
Proof using Type*.
  intros Hc Hm Hk Hq Ha. unfold dispatch_command, handle_command.
  pose proof (sendable_back _ _ Hk). pose proof (sendable_back _ _ Hq). pose proof (sendable_back _ _ Ha).
  pair_does client_writes. pair_does client_writes. pair_does server_reads. cbn [command_key]. rewrite Hc.
  pair_does server_reads. cbn [command_permission command_handle]. rewrite Hm.
  pair_does server_writes. etransitivity; [by eapply client_reads with (x := Accept)|]. apply rtc_refl.
Qed.

Context (cc dc : Credential) (root : RootCertificate) (client_store device_store : TrustStore).
Implicit Types (s : S) (t : T).
Let target : Certificate := credential_certificate dc.
Let client : Certificate := credential_certificate cc.
Let device : SpkiHash := spki_hash target.

Lemma forward_meets (commands : gmap string (CommandHandler T Permission))
    (connected : gmap SpkiHash (option (script T ServeError ()))) served bf bd bo ba s n t m h :
  commands !! "forward"%string = Some (forward_command connected) → connected !! device = Some (Some served) →
  may (mkDefaultHandler root) (PeerCertificate client) RootOnlyPlaceholder = Ok () →
  sendable (mkRequestHeader "forward") bf → sendable device bd → sendable (inl () : () + ForwardError) bo → sendable Accept ba →
  rtc pair_step
    (mkPair (dispatch_command "forward" device forward_dispatch) s n
       (handle_command (may (mkDefaultHandler root) (PeerCertificate client)) commands) t m [] [] h)
    (mkPair (Finished (Ok ())) s n served t m [] [] h).
Proof using Type*.
  intros Hc Hconn Hmay Hbf Hbd Hbo Hba.
  etransitivity; [by eapply dispatch_meets|]. cbn beta. rewrite Hconn.
  etransitivity; [by eapply server_writes|]. cbn [app]. pose proof (sendable_back _ _ Hbo) as Hback.
  etransitivity; [apply client_continue; unfold forward_dispatch; by eapply client_reads with (x := inl ())|]. apply rtc_refl.
Qed.

Lemma e2e_meets (e2e_commands : Peer → gmap string (CommandHandler T Permission)) be bu ba s n t m h :
  server_name_ok "todo" = Ok () → tls_usable cc → tls_usable dc → parsed client → parsed target →
  check_validity_at target (handshake_time h) = Ok () →
  verify_cert (to_tls_verifier (mkTrustStoreVerifier device_store)) (der client) (handshake_time h) = Ok () →
  sendable (mkRequestHeader "e2e") be → sendable () bu → sendable Accept ba →
  ∃ tls, rtc pair_step
    (mkPair (dispatch_command "e2e" () (e2e_dispatch target cc)) s n
       (device_public dc (mkTrustStoreVerifier device_store) root e2e_commands) t m [] [] h)
    (mkPair (Finished (Ok tls)) s n
       (handle_command (may (mkDefaultHandler root) (PeerCertificate client)) (e2e_commands (PeerCertificate client))) t m [] [] (1 + h)).
Proof using Type*.
  intros Hname Huc Hud Hpc Hpt Hvalid Htrust Hbe Hbu Hba.
  destruct (tls_meets (exactly target) (verify_cert (to_tls_verifier (mkTrustStoreVerifier device_store))) cc dc s n t m h
    Hname Huc Hud Hpc Hpt) as (exporter & _ & Hr); [by apply exact_tls_accepts|done|].
  eexists. etransitivity; [eapply dispatch_meets; [apply lookup_singleton_eq|done|done|done|done]|]. cbn beta.
  etransitivity; [eapply server_continue, pair_continue, Hr|]. apply rtc_refl.
Qed.

(** C40: A session of the root, a connected device that both sides trust, and a
    command the device serves: in every interleaving the session is forwarded,
    both ends start TLS with each other's certificates, and the command meets
    its handler, which is run for the client's own certificate; what the two
    come to is what the request comes to. *)
Theorem device_command_meets {Request E A} {HR : Postcard Request} {HL : PostcardLaws Request} now key (request : Request)
    (dispatcher : script S E A) permission (body : Peer → Request → script T ServeError ())
    (commands : gmap string (CommandHandler T Permission))
    (connected : gmap SpkiHash (option (script T ServeError ()))) (e2e_commands : Peer → gmap string (CommandHandler T Permission))
    bf bd bo be bu bk bq ba s n t m h a s' n' t' m' h' :
  trust_store_verify (mkTrustStoreVerifier client_store) device now = Ok target →
  certificate_type client = UserSession → issuer client = spki_hash root →
  commands !! "forward"%string = Some (forward_command connected) →
  connected !! device = Some (Some (device_public dc (mkTrustStoreVerifier device_store) root e2e_commands)) →
  (∀ peer, e2e_commands peer !! key = Some (mkCommandHandler Request HR permission (body peer))) →
  may (mkDefaultHandler root) (PeerCertificate client) (permission request) = Ok () →
  server_name_ok "todo" = Ok () → tls_usable cc → tls_usable dc → parsed client → parsed target →
  check_validity_at target (handshake_time h) = Ok () →
  verify_cert (to_tls_verifier (mkTrustStoreVerifier device_store)) (der client) (handshake_time h) = Ok () →
  sendable (mkRequestHeader "forward") bf → sendable device bd → sendable (inl () : () + ForwardError) bo →
  sendable (mkRequestHeader "e2e") be → sendable () bu → sendable (mkRequestHeader key) bk → sendable request bq → sendable Accept ba →
  rtc pair_step (mkPair dispatcher s n (body (PeerCertificate client) request) t m [] [] (1 + h))
    (mkPair (Finished (Ok a)) s' n' (Finished (Ok ())) t' m' [] [] h') →
  inevitable
    (mkPair (device_request (mkTrustStoreVerifier client_store) now cc device key request dispatcher) s n
       (handle_command (may (mkDefaultHandler root) (PeerCertificate client)) commands) t m [] [] h)
    (mkPair (Finished (Ok a)) s' n' (Finished (Ok ())) t' m' [] [] h').
Proof using Type*.
  intros Hverify Htype Hissuer Hforward Hconn Hcmd Hmay Hname Huc Hud Hpc Hpt Hvalid Htrust Hbf Hbd Hbo Hbe Hbu Hbk Hbq Hba Hmeet.
  apply rtc_inevitable; [|apply finished_nf]. unfold device_request. rewrite Hverify. cbn [map_err]. rewrite returns_bind.
  assert (∀ perm, perm = RootOnlyPlaceholder → may (mkDefaultHandler root) (PeerCertificate client) perm = Ok ()) as Hroot.
  { intros perm ->. cbn. unfold allowed. rewrite Htype. by rewrite bool_decide_true. }
  destruct (e2e_meets e2e_commands be bu ba s n t m h) as [tls Hr]; try done.
  unfold device_dispatch, open_device_session, script_map_err at 1 2, mbind, script_bind.
  etransitivity; [eapply client_continue, client_continue, client_continue, client_continue, forward_meets; [done|done|by apply Hroot|done..]|].
  cbn [continue map_err]. unfold script_map_err at 1.
  etransitivity; [eapply client_continue, client_continue, client_continue, Hr|]. cbn [continue map_err].
  etransitivity; [eapply client_continue; by eapply dispatch_meets|].
  etransitivity; [eapply client_continue, client_continue, Hmeet|]. apply rtc_refl.
Qed.
End meeting.

(** ** Worked example *)
#[local] Existing Instance toy_x509.
#[local] Existing Instance toy_crypto.
#[local] Existing Instance toy_rcgen.
#[local] Existing Instance toy_aead.
#[local] Existing Instance TlsTransport.toy_tls.
#[local] Existing Instance toy_tls_laws.
#[local] Existing Instance postcard_keypair.

#[local] Instance postcard_header : Postcard SessionRequestHeader := {|
  to_stdvec h := Ok (str_bytes (command_key h));
  from_bytes b := Ok (mkRequestHeader (str_of_bytes b));
|}.
#[local] Instance postcard_response_header : Postcard SessionResponseHeader := {|
  to_stdvec h := match h with Accept => Ok [] | Decline c m => Ok (c :: str_bytes m) end;
  from_bytes b := match b with [] => Ok Accept | c :: m => Ok (Decline c (str_of_bytes m)) end;
|}.
#[local] Instance device_codec : HeaderCodec := {| header_postcard := postcard_header; response_postcard := postcard_response_header |}.
#[local] Instance device_codec_laws : HeaderCodecLaws.
Proof.
  split; split.
  - intros [key] b [= <-]. cbn. by rewrite str_of_bytes_str.
  - intros [|c m] b [= <-]; cbn; [done|]. by rewrite str_of_bytes_str.
Qed.
#[local] Instance postcard_nothing : Postcard () := {| to_stdvec _ := Ok []; from_bytes _ := Ok () |}.
#[local] Instance postcard_nothing_laws : PostcardLaws ().
Proof. split. by intros [] b [= <-]. Qed.
#[local] Instance postcard_hash : Postcard SpkiHash := {| to_stdvec h := Ok (as_slice h); from_bytes b := Ok (mkSpkiHash b) |}.
#[local] Instance postcard_hash_laws : PostcardLaws SpkiHash.
Proof. split. by intros [x] b [= <-]. Qed.
#[local] Instance postcard_forwarded : Postcard (() + ForwardError) := {|
  to_stdvec r := Ok match r with inl _ => [0] | inr TargetNotConnected => [1] | inr DeauthFailure => [2] end;
  from_bytes b := match b with
    | [0] => Ok (inl ()) | [1] => Ok (inr TargetNotConnected) | [2] => Ok (inr DeauthFailure)
    | _ => Err "answer"%string end;
|}.
#[local] Instance postcard_forwarded_laws : PostcardLaws (() + ForwardError).
Proof. split. by intros [[]|[]] b [= <-]. Qed.

(** A command that answers with who asks. *)
Definition toy_who (peer : Peer) (_ : ()) : script () ServeError () :=
  match peer with
  | PeerCertificate c => script_map_err ServeWrite (write_object (spki_hash c))
  | Anonymous => returns (Err (ServeOther "nobody"))
  end.
Definition toy_device_commands (peer : Peer) : gmap string (CommandHandler () Permission) :=
  {[ "who"%string := mkCommandHandler () _ (λ _, RootOnlyPlaceholder) (toy_who peer) ]}.
Definition toy_agent_credential : Credential := mkCredential (toy_keypair 59) toy_agent_certificate.
Definition toy_connected : gmap SpkiHash (option (script () ServeError ())) :=
  {[ spki_hash toy_agent_certificate :=
       Some (device_public toy_agent_credential (mkTrustStoreVerifier toy_agent_store) toy_root_certificate toy_device_commands) ]}.
Definition toy_forwarding : gmap string (CommandHandler () Permission) := {[ "forward"%string := forward_command toy_connected ]}.
Definition toy_who_asks : script () ObjectReaderError SpkiHash := read_object.

Lemma device_command_meets_witness :
  inevitable
    (mkPair (device_request (mkTrustStoreVerifier toy_agent_store) 520 toy_device (spki_hash toy_agent_certificate) "who" () toy_who_asks) () 0
       (handle_command (may (mkDefaultHandler toy_root_certificate) (PeerCertificate (credential_certificate toy_device))) toy_forwarding)
       () 0 [] [] 0)
    (mkPair (Finished (Ok (spki_hash (credential_certificate toy_device)))) () 0 (Finished (Ok ())) () 0 [] [] 1).
Proof.
  assert (∀ {U} {HU : Postcard U} (x : U) b, to_stdvec x = Ok b → (length b <=? 1000)%nat = true → sendable x b) as Hsend.
  { intros U HU x b Hx Hl%Nat.leb_le. split; [exact Hx|]. lia. }
  assert (∀ key, (length (str_bytes key) <=? 1000)%nat = true → sendable (mkRequestHeader key) (str_bytes key)) as Hkey
    by (intros key Hl; by apply Hsend).
  assert (trust_store_verify (mkTrustStoreVerifier toy_agent_store) (spki_hash toy_agent_certificate) 520 = Ok toy_agent_certificate)
    as Hverify by (vm_compute; reflexivity).
  assert (parsed (credential_certificate toy_device)) as Hpc by (vm_compute; reflexivity).
  assert (parsed toy_agent_certificate) as Hpd by (vm_compute; reflexivity).
  assert (verify_cert (to_tls_verifier (mkTrustStoreVerifier toy_agent_store)) (der (credential_certificate toy_device)) 520 = Ok ())
    as Htrust by (vm_compute; reflexivity).
  refine (device_command_meets toy_device toy_agent_credential toy_root_certificate toy_agent_store toy_agent_store
    520 "who" () toy_who_asks (λ _, RootOnlyPlaceholder) toy_who toy_forwarding toy_connected toy_device_commands
    (str_bytes "forward") (as_slice (spki_hash toy_agent_certificate)) [0] (str_bytes "e2e") [] (str_bytes "who") [] []
    () 0 () 0 0 _ () 0 () 0 1
    Hverify eq_refl eq_refl (lookup_singleton_eq _ _) (lookup_singleton_eq _ _) (λ peer, lookup_singleton_eq _ _) eq_refl
    eq_refl (conj eq_refl eq_refl) (conj eq_refl eq_refl) Hpc Hpd eq_refl Htrust
    (Hkey "forward"%string eq_refl) (Hsend _ _ (spki_hash toy_agent_certificate) _ eq_refl eq_refl)
    (Hsend _ _ (inl () : () + ForwardError) _ eq_refl eq_refl) (Hkey "e2e"%string eq_refl) (Hsend _ _ () _ eq_refl eq_refl)
    (Hkey "who"%string eq_refl) (Hsend _ _ () _ eq_refl eq_refl) (Hsend _ _ Accept _ eq_refl eq_refl) _).
  eapply rtc_l; [apply step_server; reflexivity|]. eapply rtc_l; [apply step_client; reflexivity|]. apply rtc_refl.
Defined.

Lemma toy_agent_store_reachable : reachable toy_root_certificate toy_agent_store.
Proof.
  eapply (reachable_block _ toy_store0 toy_agent_block 600 toy_store0 toy_agent_block); [apply reachable_init| | |].
  - vm_compute. reflexivity.
  - vm_compute. reflexivity.
  - vm_compute. reflexivity.
Qed.

(** The server and the device answer as they should. *)
Definition toy_device_stream : TlsStream := mkTlsStream (Some [der toy_agent_certificate]) (λ _ _ _, Ok []).
Definition toy_device_world : World () := mkWorld () 0
  [Wrote; Wrote; Received []; Received [0]; Wrote; Wrote; Received []; Shook 530 toy_device_stream; Wrote; Wrote; Received [];
   Received [7]] [].
Definition toy_device_request : script () (DeviceError + DispatchError ObjectReaderError) SpkiHash :=
  device_request (mkTrustStoreVerifier toy_agent_store) 520 toy_device (spki_hash toy_agent_certificate) "who" () toy_who_asks.

Lemma request_reaches_its_device_witness :
  (run toy_device_request toy_device_world).2 = Ok (mkSpkiHash [7]) ∧
  ∃ (cert : Certificate) tls (w1 : World ()),
    spki_hash cert = spki_hash toy_agent_certificate ∧ derives toy_root_certificate cert ∧ device_shown cert toy_device_world tls ∧
    sent w1 = opening (spki_hash toy_agent_certificate).
Proof.
  assert ((run toy_device_request toy_device_world).2 = Ok (mkSpkiHash [7])) as Hok by (vm_compute; reflexivity).
  split; [exact Hok|].
  destruct (request_reaches_its_device toy_root_certificate toy_agent_store 520 toy_device (spki_hash toy_agent_certificate) "who" ()
    toy_who_asks toy_device_world (run toy_device_request toy_device_world).1 (run toy_device_request toy_device_world).2
    toy_root_parsed toy_agent_store_reachable (surjective_pairing _)) as [(frames & _ & _ & Hn)|(cert & tls & w1 & _ & Hh & Hd & Hs & Hsent & _)].
  - rewrite Hok in Hn. discriminate Hn.
  - exists cert, tls, w1. split; [exact Hh|]. split; [exact Hd|]. split; [exact Hs|exact Hsent].
Defined.
