(* ===== verification/Gui.v ===== *)
(** * Choosing a profile in the graphical client
    ([svalin_iced/src/ui/profile_picker.rs], [profile_picker/init_server.rs],
    [profile_picker/login.rs])

    The screen a user starts from: select and unlock a profile, or connect to
    a server and initialise it or log in. [update] takes a message and gives
    an action, which may start a task; [view] decides which messages the user
    can send. Tasks are data here, and finish with any of the messages their
    futures can give, in any order. Texts are the keys of their translations. *)
From S2P Require Import Prelude.
From S2P Require Import External.
From stdpp Require Import relations.
From stdpp Require Import options.

#[local] Open Scope Z_scope.

Record ErrorDisplayInfo := mkErrorInfo { info_error : ExtError; info_context : string }.

(** What [first_connect] gives: a connection to be used once, and its address. *)
Record InitHandle := mkInitHandle { init_id : nat; init_address : string }.
Record LoginHandle := mkLoginHandle { login_id : nat; login_address : string }.

(** The client of a profile that was opened with a password. *)
Record OpenClient := mkOpenClient { client_profile : string; client_password : string }.

(** ** Initialising a server *)
Section init_server.
(** [totp_rs]: a new secret for an account, its QR code, its address, and the
    check of a code now; the number stands for the random bytes and the time. *)
Context {Totp : Type} (build_totp : nat → string → result ExtError Totp) (to_qr_png : Totp → result ExtError ()).
Context (to_url : Totp → string) (check_current : nat → Totp → string → bool).

Inductive InitMessage :=
  | InitError (e : ErrorDisplayInfo)
  | CopyTOTP
  | InitContinue
  | InitBack
  | InitClient (c : OpenClient)
  | InitUsername (s : string)
  | InitPassword (s : string)
  | ConfirmPassword (s : string)
  | InitTotp (s : string).

Inductive InitTask :=
  | FocusInit (id : string)
  | CopyToClipboard (text : string)
  | RunInit (init : InitHandle) (username password : string) (totp : Totp).

Inductive InitAction :=
  | InitNone
  | InitOpenProfile (c : OpenClient)
  | InitExit (host : string)
  | InitRun (t : InitTask).

Inductive InitState :=
  | InitFailed (e : ErrorDisplayInfo)
  | InitLoading (text : string)
  | InitUser
  | InitShowTotp (totp : Totp).

Record InitServerDialog := mkInitServerDialog {
  init_state : InitState;
  init_handle : option InitHandle;
  init_username : string;
  init_password : string;
  confirm_password : string;
  totp_input : string;
}.

Definition init_server_start (init : InitHandle) : InitServerDialog * InitTask :=
  (mkInitServerDialog InitUser (Some init) "" "" "" "", FocusInit "username").

Definition with_init_state (s : InitState) (self : InitServerDialog) : InitServerDialog :=
  mkInitServerDialog s (init_handle self) (init_username self) (init_password self) (confirm_password self) (totp_input self).
Definition init_error (e : ErrorDisplayInfo) (self : InitServerDialog) : InitServerDialog := with_init_state (InitFailed e) self.

(** The branch [Message::Continue]. The dialog holds the only reference to
    its [Init], so [Arc::into_inner] gives it. *)
Definition init_continue (n : nat) (self : InitServerDialog) : result ExtError (InitServerDialog * InitAction) :=
  match init_state self with
  | InitLoading _ | InitFailed _ => Ok (self, InitNone)
  | InitUser =>
      if bool_decide (init_password self ≠ confirm_password self) then Ok (self, InitNone)
      else match build_totp n (init_username self) with
           | Err err =>
               Ok (with_init_state (InitFailed (mkErrorInfo err "profile-picker.error.totp.register")) self, InitNone)
           | Ok totp =>
               match to_qr_png totp with
               | Ok _ =>
                   Ok (mkInitServerDialog (InitShowTotp totp) (init_handle self) (init_username self) (init_password self)
                         (confirm_password self) "", InitRun (FocusInit "totp"))
               | _ => Panic
               end
           | Panic => Panic
           end
  | InitShowTotp totp =>
      if negb (check_current n totp (totp_input self)) then
        Ok (init_error (mkErrorInfo "TOTP mismatch" "profile-picker.error.totp.verify") self, InitNone)
      else match init_handle self with
           | None => Ok (init_error (mkErrorInfo "init already used" "init already used") self, InitNone)
           | Some init =>
               Ok (mkInitServerDialog (InitLoading "profile-picker.init-loading") None (init_username self)
                     (init_password self) (confirm_password self) (totp_input self),
                   InitRun (RunInit init (init_username self) (init_password self) totp))
           end
  end.

Definition init_update (n : nat) (message : InitMessage) (self : InitServerDialog) :
    result ExtError (InitServerDialog * InitAction) :=
  match message with
  | InitError e => Ok (init_error e self, InitNone)
  | InitUsername s =>
      Ok (mkInitServerDialog (init_state self) (init_handle self) s (init_password self) (confirm_password self)
            (totp_input self), InitNone)
  | InitPassword s =>
      Ok (mkInitServerDialog (init_state self) (init_handle self) (init_username self) s (confirm_password self)
            (totp_input self), InitNone)
  | ConfirmPassword s =>
      Ok (mkInitServerDialog (init_state self) (init_handle self) (init_username self) (init_password self) s
            (totp_input self), InitNone)
  | InitTotp s =>
      Ok (mkInitServerDialog (init_state self) (init_handle self) (init_username self) (init_password self)
            (confirm_password self) s, InitNone)
  | CopyTOTP =>
      match init_state self with
      | InitShowTotp totp => Ok (self, InitRun (CopyToClipboard (to_url totp)))
      | _ => Ok (self, InitNone)
      end
  | InitBack =>
      match init_state self with
      | InitLoading _ => Ok (self, InitNone)
      | InitShowTotp _ => Ok (with_init_state InitUser self, InitNone)
      | InitFailed _ | InitUser =>
          Ok (self, InitExit (match init_handle self with Some init => init_address init | None => "" end))
      end
  | InitContinue => init_continue n self
  | InitClient client => Ok (self, InitOpenProfile client)
  end.

(** What [view] lets the user send. *)
Definition init_view (self : InitServerDialog) (m : InitMessage) : Prop :=
  match init_state self with
  | InitFailed _ => m = InitBack
  | InitLoading _ => False
  | InitUser =>
      (∃ s, m = InitUsername s) ∨ (∃ s, m = InitPassword s) ∨ (∃ s, m = ConfirmPassword s) ∨ m = InitBack ∨ m = InitContinue
  | InitShowTotp _ => m = CopyTOTP ∨ (∃ s, m = InitTotp s) ∨ m = InitBack ∨ m = InitContinue
  end.

(** What a task can finish with. *)
Definition init_finishes (t : InitTask) (m : InitMessage) : Prop :=
  match t with
  | RunInit _ _ password _ =>
      (∃ e, m = InitError (mkErrorInfo e "profile-picker.error.server-init")) ∨
      ∃ profile, m = InitClient (mkOpenClient profile password)
  | FocusInit _ | CopyToClipboard _ => False
  end.
End init_server.

(** ** Logging in *)
Inductive LoginMessage :=
  | LoginUsername (s : string)
  | LoginPassword (s : string)
  | LoginTotp (s : string)
  | LoginError (e : ErrorDisplayInfo)
  | LoginClient (c : OpenClient)
  | LoginContinue
  | LoginBack
  | LoginWrongPassword
  | LoginInvalidTotp.

Inductive LoginTask :=
  | FocusLogin (id : string)
  | RunLogin (login : LoginHandle) (username password totp : string).

Inductive LoginAction :=
  | LoginNone
  | LoginExit (host : string)
  | LoginOpenProfile (c : OpenClient)
  | LoginRun (t : LoginTask).

Inductive LoginState :=
  | LoginForm
  | LoginLoading (text : string)
  | LoginFailed (e : ErrorDisplayInfo)
  | WrongPasswordShown
  | InvalidTotpShown.

Record LoginDialog := mkLoginDialog {
  login_handle : option LoginHandle;
  dialog_address : string;
  login_state : LoginState;
  login_username : string;
  login_password : string;
  current_totp : string;
}.

Definition login_dialog_start (login : LoginHandle) : LoginDialog * LoginTask :=
  (mkLoginDialog (Some login) (login_address login) LoginForm "" "" "", FocusLogin "username").

Definition with_login_state (s : LoginState) (self : LoginDialog) : LoginDialog :=
  mkLoginDialog (login_handle self) (dialog_address self) s (login_username self) (login_password self) (current_totp self).

Definition login_update (message : LoginMessage) (self : LoginDialog) : LoginDialog * LoginAction :=
  match message with
  | LoginUsername s =>
      (mkLoginDialog (login_handle self) (dialog_address self) (login_state self) s (login_password self)
         (current_totp self), LoginNone)
  | LoginPassword s =>
      (mkLoginDialog (login_handle self) (dialog_address self) (login_state self) (login_username self) s
         (current_totp self), LoginNone)
  | LoginTotp s =>
      (mkLoginDialog (login_handle self) (dialog_address self) (login_state self) (login_username self)
         (login_password self) s, LoginNone)
  | LoginError e => (with_login_state (LoginFailed e) self, LoginNone)
  | LoginWrongPassword => (with_login_state WrongPasswordShown self, LoginNone)
  | LoginInvalidTotp => (with_login_state InvalidTotpShown self, LoginNone)
  | LoginClient client => (self, LoginOpenProfile client)
  | LoginContinue =>
      match login_state self with
      | LoginForm =>
          match login_handle self with
          | None => (with_login_state (LoginFailed (mkErrorInfo "login already used" "login already used")) self, LoginNone)
          | Some login =>
              (mkLoginDialog None (dialog_address self) (LoginLoading "profile-picker.login-loading")
                 (login_username self) (login_password self) (current_totp self),
               LoginRun (RunLogin login (login_username self) (login_password self) (current_totp self)))
          end
      | _ => (self, LoginNone)
      end
  | LoginBack =>
      match login_state self with
      | LoginLoading _ => (self, LoginNone)
      | LoginForm | LoginFailed _ | WrongPasswordShown | InvalidTotpShown => (self, LoginExit (dialog_address self))
      end
  end.

Definition login_view (self : LoginDialog) (m : LoginMessage) : Prop :=
  match login_state self with
  | LoginLoading _ => False
  | LoginForm =>
      (∃ s, m = LoginUsername s) ∨ (∃ s, m = LoginPassword s) ∨ (∃ s, m = LoginTotp s) ∨ m = LoginBack ∨ m = LoginContinue
  | LoginFailed _ | WrongPasswordShown | InvalidTotpShown => m = LoginBack
  end.

Definition login_finishes (t : LoginTask) (m : LoginMessage) : Prop :=
  match t with
  | RunLogin _ _ password _ =>
      m = LoginWrongPassword ∨ m = LoginInvalidTotp ∨
      (∃ e, m = LoginError (mkErrorInfo e "profile-picker.error.login")) ∨
      (∃ profile, m = LoginClient (mkOpenClient profile password)) ∨
      (∃ e, m = LoginError (mkErrorInfo e "profile-picker.error.unlock"))
  | FocusLogin _ => False
  end.

(** ** The picker *)
Section picker.
Context {Totp : Type} (build_totp : nat → string → result ExtError Totp) (to_qr_png : Totp → result ExtError ()).
Context (to_url : Totp → string) (check_current : nat → Totp → string → bool).

Inductive PickerInput := HostInput (s : string) | PasswordInput (s : string).

Inductive PickerMessage :=
  | PickError (e : ErrorDisplayInfo)
  | PickInput (i : PickerInput)
  | PickReset
  | SelectProfile (profile : string)
  | DeleteProfile (profile : string)
  | ConfirmDelete (profile : string)
  | CancelDelete
  | UnlockProfile
  | AddProfile (host : string)
  | Connect (host : string)
  | PickInit (init : InitHandle)
  | PickInitServer (m : InitMessage)
  | PickLoginDialog (m : LoginMessage)
  | PickLogin (login : LoginHandle)
  | GotProfile (c : OpenClient)
  | GotProfiles (profiles : list string)
  | PickNothing.

Inductive PickerTask :=
  | Focus (id : string)
  | ListProfiles
  | RemoveProfile (profile : string)
  | OpenProfile (profile password : string)
  | FirstConnect (host : string)
  | OfInit (t : InitTask (Totp := Totp))
  | OfLogin (t : LoginTask).

Inductive PickerAction :=
  | PickerNone
  | PickerOpenProfile (c : OpenClient)
  | PickerRun (t : PickerTask).

Inductive PickerState :=
  | Failed (e : ErrorDisplayInfo)
  | SelectingProfile (profiles : list string)
  | UnlockingProfile (profile password : string)
  | Loading (text : string)
  | AddingProfile (host : string)
  | Initialising (d : InitServerDialog (Totp := Totp))
  | LoggingIn (d : LoginDialog).

Record ProfilePicker := mkPicker { picker_state : PickerState; confirm_delete : option string }.

Definition picker_start : ProfilePicker * PickerMessage := (mkPicker (SelectingProfile []) None, PickReset).

Definition with_state (s : PickerState) (self : ProfilePicker) : ProfilePicker := mkPicker s (confirm_delete self).
Definition add_profile (host : string) (self : ProfilePicker) : ProfilePicker := with_state (AddingProfile host) self.

Definition input_update (i : PickerInput) (state : ProfilePicker) : ProfilePicker :=
  match picker_state state, i with
  | AddingProfile _, HostInput new_host => with_state (AddingProfile new_host) state
  | UnlockingProfile profile _, PasswordInput new_password => with_state (UnlockingProfile profile new_password) state
  | _, _ => state
  end.

Definition picker_update (n : nat) (message : PickerMessage) (self : ProfilePicker) :
    result ExtError (ProfilePicker * PickerAction) :=
  match message with
  | PickNothing => Ok (self, PickerNone)
  | PickInitServer message =>
      match picker_state self with
      | Initialising init_server =>
          '(init_server, action) ← init_update build_totp to_qr_png to_url check_current n message init_server;
          let self := with_state (Initialising init_server) self in
          match action with
          | InitNone => Ok (self, PickerNone)
          | InitOpenProfile client => Ok (self, PickerOpenProfile client)
          | InitExit host => Ok (add_profile host self, PickerNone)
          | InitRun task => Ok (self, PickerRun (OfInit task))
          end
      | _ => Ok (self, PickerNone)
      end
  | PickLoginDialog message =>
      match picker_state self with
      | LoggingIn login_dialog =>
          let '(login_dialog, action) := login_update message login_dialog in
          let self := with_state (LoggingIn login_dialog) self in
          match action with
          | LoginNone => Ok (self, PickerNone)
          | LoginExit host => Ok (add_profile host self, PickerNone)
          | LoginOpenProfile client => Ok (self, PickerOpenProfile client)
          | LoginRun task => Ok (self, PickerRun (OfLogin task))
          end
      | _ => Ok (self, PickerNone)
      end
  | PickError e => Ok (with_state (Failed e) self, PickerNone)
  | PickInput input => Ok (input_update input self, PickerNone)
  | PickReset => Ok (self, PickerRun ListProfiles)
  | GotProfiles profiles =>
      Ok (if bool_decide (profiles = []) then add_profile "" self else with_state (SelectingProfile profiles) self,
          PickerNone)
  | SelectProfile profile => Ok (with_state (UnlockingProfile profile "") self, PickerRun (Focus "password"))
  | DeleteProfile profile => Ok (mkPicker (picker_state self) (Some profile), PickerNone)
  | ConfirmDelete profile => Ok (mkPicker (picker_state self) None, PickerRun (RemoveProfile profile))
  | CancelDelete => Ok (mkPicker (picker_state self) None, PickerNone)
  | UnlockProfile =>
      match picker_state self with
      | UnlockingProfile profile password =>
          Ok (with_state (Loading "profile-picker.unlocking") self, PickerRun (OpenProfile profile password))
      | _ => Ok (self, PickerNone)
      end
  | AddProfile host => Ok (add_profile host self, PickerRun (Focus "host"))
  | Connect host => Ok (with_state (Loading "profile-picker.connecting-to-server") self, PickerRun (FirstConnect host))
  | PickInit init =>
      let '(state, task) := init_server_start init in
      Ok (with_state (Initialising state) self, PickerRun (OfInit task))
  | PickLogin login =>
      let '(state, task) := login_dialog_start login in
      Ok (with_state (LoggingIn state) self, PickerRun (OfLogin task))
  | GotProfile client => Ok (self, PickerOpenProfile client)
  end.

(** What [view] lets the user send: by the content, and by the dialog over it. *)
Definition content_view (s : PickerState) (m : PickerMessage) : Prop :=
  match s with
  | Initialising d => ∃ m', init_view d m' ∧ m = PickInitServer m'
  | LoggingIn d => ∃ m', login_view d m' ∧ m = PickLoginDialog m'
  | Failed _ => m = PickReset
  | Loading _ => False
  | SelectingProfile profiles =>
      (∃ p, p ∈ profiles ∧ (m = SelectProfile p ∨ m = DeleteProfile p)) ∨ m = AddProfile ""
  | UnlockingProfile _ _ => (∃ s, m = PickInput (PasswordInput s)) ∨ m = UnlockProfile ∨ m = PickReset
  | AddingProfile host => (∃ s, m = PickInput (HostInput s)) ∨ m = Connect host ∨ m = PickReset
  end.
Definition picker_view (self : ProfilePicker) (m : PickerMessage) : Prop :=
  content_view (picker_state self) m ∨
  ∃ profile, confirm_delete self = Some profile ∧ (m = CancelDelete ∨ m = ConfirmDelete profile).

(** What a task can finish with; [fresh] numbers the connections. *)
Definition picker_finishes (fresh : nat) (t : PickerTask) (m : PickerMessage) : Prop :=
  match t with
  | Focus _ => False
  | ListProfiles =>
      (∃ profiles, m = GotProfiles profiles) ∨ ∃ e, m = PickError (mkErrorInfo e "profile-picker.error.list")
  | RemoveProfile _ => (∃ e, m = PickError (mkErrorInfo e "profile-picker.error.delete")) ∨ m = PickReset
  | OpenProfile profile password =>
      m = GotProfile (mkOpenClient profile password) ∨
      ∃ e, m = PickError (mkErrorInfo e "profile-picker.error.unlock")
  | FirstConnect host =>
      m = PickInit (mkInitHandle fresh host) ∨ m = PickLogin (mkLoginHandle fresh host) ∨
      ∃ e, m = PickError (mkErrorInfo e "profile-picker.error.connect-to-server")
  | OfInit t => ∃ m', init_finishes t m' ∧ m = PickInitServer m'
  | OfLogin t => ∃ m', login_finishes t m' ∧ m = PickLoginDialog m'
  end.

(** ** The client while the picker is shown
    [started] are the tasks that were ever started. When a profile is opened
    the main view takes over ([UI::update]). *)
Record Screen := mkScreen {
  picker : ProfilePicker;
  running : list PickerTask;
  started : list PickerTask;
  connections : nat;
  opened : option OpenClient;
}.

Definition screen_start : Screen := mkScreen picker_start.1 [ListProfiles] [ListProfiles] 0 None.

Definition act (a : PickerAction) (p : ProfilePicker) (tasks : list PickerTask) (c : nat) (s : Screen) : Screen :=
  match a with
  | PickerNone => mkScreen p tasks (started s) c (opened s)
  | PickerOpenProfile client => mkScreen p tasks (started s) c (Some client)
  | PickerRun t => mkScreen p (t :: tasks) (t :: started s) c (opened s)
  end.

Inductive screen_step (s : Screen) : Screen → Prop :=
  | user_sends n m p a :
      opened s = None → picker_view (picker s) m → picker_update n m (picker s) = Ok (p, a) →
      screen_step s (act a p (running s) (connections s) s)
  | task_finishes n before t after m p a :
      opened s = None → running s = before ++ t :: after → picker_finishes (connections s) t m →
      picker_update n m (picker s) = Ok (p, a) →
      screen_step s (act a p (before ++ after) (S (connections s)) s).

Definition shown (s : Screen) : Prop := rtc screen_step screen_start s.

(** *** The user can always go on *)
Definition busy (st : PickerState) : bool :=
  match st with
  | Loading _ => true
  | Initialising d => match init_state d with InitLoading _ => true | _ => false end
  | LoggingIn d => match login_state d with LoginLoading _ => true | _ => false end
  | _ => false
  end.

(** The task a busy state waits for. *)
Definition awaited (st : PickerState) (t : PickerTask) : Prop :=
  match st, t with
  | Loading _, OpenProfile _ _ | Loading _, FirstConnect _ => True
  | Initialising _, OfInit (RunInit _ _ _ _) => True
  | LoggingIn _, OfLogin (RunLogin _ _ _ _) => True
  | _, _ => False
  end.

Ltac picker_cases :=
  repeat match goal with
  | H : Ok _ = Ok _ |- _ => injection H as H; subst
  | H : (_, _) = (_, _) |- _ => injection H as H; subst
  | H : Err _ = Ok _ |- _ => discriminate H
  | H : Panic = Ok _ |- _ => discriminate H
  | H : ∃ _, _ |- _ => destruct H
  | H : _ ∧ _ |- _ => destruct H
  | H : _ ∨ _ |- _ => destruct H
  | H : False |- _ => destruct H
  | H : context [match ?x with _ => _ end] |- _ => destruct x eqn:?; cbn in *
  end.

Lemma awaited_ends fresh st t n m p p' a :
  picker_state p = st → busy st = true → awaited st t → picker_finishes fresh t m →
  picker_update n m p = Ok (p', a) → busy (picker_state p') = false ∨ ∃ c, a = PickerOpenProfile c.
Proof.
  intros <- Hb Ha Hf Hu. destruct p as [st cd]. cbn in *.
  destruct st, t; try done; cbn in *; try (destruct t; try done); cbn in *; picker_cases; subst; cbn in *; picker_cases; eauto.
Qed.

(** A task never makes the picker wait again; a user does by starting a task. *)
Lemma task_stays_busy fresh t n m p p' a :
  picker_finishes fresh t m → picker_update n m p = Ok (p', a) → busy (picker_state p') = true →
  (∃ c, a = PickerOpenProfile c) ∨ picker_state p' = picker_state p.
Proof.
  intros Hf Hu Hb. destruct p as [st cd]. destruct t; cbn in Hf; try (destruct t; cbn in Hf); picker_cases; subst; cbn in *;
    picker_cases; subst; cbn in *; eauto; congruence.
Qed.

Lemma user_gets_busy n m p p' a :
  picker_view p m → picker_update n m p = Ok (p', a) → busy (picker_state p') = true →
  picker_state p' = picker_state p ∨ ∃ t, a = PickerRun t ∧ awaited (picker_state p') t.
Proof.
  intros Hv Hu Hb. destruct p as [st cd]. destruct Hv as [Hv|(x & _ & [-> | ->])]; [|cbn in Hu; picker_cases; by left..].
  destruct st; cbn in Hv; picker_cases; subst; cbn in *; picker_cases; subst; cbn in *; try done; eauto;
    unfold init_view, login_view in *; cbn in *; repeat case_match; picker_cases; subst; cbn in *; picker_cases; subst; cbn in *;
    unfold init_continue in *; cbn in *; picker_cases; subst; cbn in *; eauto; try congruence;
    right; by eexists.
Qed.

Lemma not_busy_offers p : busy (picker_state p) = false → ∃ m, picker_view p m.
Proof.
  clear build_totp to_qr_png to_url check_current. destruct p as [st cd]. unfold picker_view. cbn. destruct st as [e|ps|pr pw|t|h|d|d]; cbn; try done; intros Hb.
  - exists PickReset. by left.
  - exists (AddProfile ""). left. by right.
  - exists PickReset. left. by right; right.
  - exists PickReset. left. by right; right.
  - exists (PickInitServer InitBack). left. exists InitBack. split; [|done]. unfold init_view. destruct (init_state d); naive_solver.
  - exists (PickLoginDialog LoginBack). left. exists LoginBack. split; [|done]. unfold login_view. destruct (login_state d); naive_solver.
Qed.

Definition waits_for (s : Screen) : Prop :=
  opened s = None → busy (picker_state (picker s)) = true →
  ∃ t, t ∈ running s ∧ awaited (picker_state (picker s)) t.

Lemma act_opened a p tasks c s client : opened (act a p tasks c s) = None → a ≠ PickerOpenProfile client.
Proof. by intros Ho ->. Qed.

Lemma act_picker a p tasks c s : picker (act a p tasks c s) = p.
Proof. by destruct a. Qed.

Lemma act_running a p tasks c s t : t ∈ tasks → t ∈ running (act a p tasks c s).
Proof. destruct a; cbn; [done|done|]. intros. by apply elem_of_cons; right. Qed.

Lemma screen_step_waits s s' : screen_step s s' → waits_for s → waits_for s'.
Proof.
  intros [n m p a Ho Hv Hu|n before t after m p a Ho Hr Hf Hu] Hw Ho' Hb; rewrite act_picker in *.
  - destruct (user_gets_busy _ _ _ _ _ Hv Hu Hb) as [He|(t & -> & Ht)].
    + rewrite He in *. destruct (Hw Ho Hb) as (t & Ht & Ha). exists t. split; [by apply act_running|done].
    + exists t. split; [by left|done].
  - destruct (task_stays_busy _ _ _ _ _ _ _ Hf Hu Hb) as [(c & ->)|He]; [done|].
    rewrite He in *. destruct (Hw Ho Hb) as (t0 & Ht0 & Ha). exists t0. split; [|done]. apply act_running.
    rewrite Hr in Ht0. apply elem_of_app in Ht0 as [Ht0|[<-|Ht0]%elem_of_cons]; [apply elem_of_app; by left| |apply elem_of_app; by right].
    exfalso. destruct (awaited_ends _ _ _ _ _ _ _ _ eq_refl Hb Ha Hf Hu) as [Hn|(c & ->)]; [|done].
    rewrite He in Hn. congruence.
Qed.

(** The picker is never stuck. Whatever the user does and in whatever
    order tasks finish, those of dialogs that were left long ago included:
    as long as no profile is opened either the user can send a message, or a
    task is running whose every outcome ends the waiting, with a profile
    opened or with something the user can send. *)
Theorem picker_never_stuck s :
  shown s → opened s = None →
  (∃ m, picker_view (picker s) m) ∨
  ∃ t, t ∈ running s ∧
    ∀ n m p a, picker_finishes (connections s) t m → picker_update n m (picker s) = Ok (p, a) →
      (∃ m', picker_view p m') ∨ ∃ c, a = PickerOpenProfile c.
Proof.
  intros Hs Ho. assert (waits_for s) as Hw.
  { cut (waits_for screen_start); [|done]. unfold shown in Hs. clear Ho. induction Hs; eauto using screen_step_waits. }
  destruct (busy (picker_state (picker s))) eqn:Hb; [right|left; by apply not_busy_offers].
  destruct (Hw Ho Hb) as (t & Ht & Ha). exists t. split; [done|]. intros n m p a Hf Hu.
  destruct (awaited_ends _ _ _ _ _ _ _ _ eq_refl Hb Ha Hf Hu) as [Hn|Hc]; [left; by apply not_busy_offers|by right].
Qed.

(** *** What is done with a connection *)
Definition used_id (t : PickerTask) : option nat :=
  match t with
  | OfInit (RunInit h _ _ _) => Some (init_id h)
  | OfLogin (RunLogin h _ _ _) => Some (login_id h)
  | _ => None
  end.
Definition held_id (st : PickerState) : option nat :=
  match st with
  | Initialising d => init_id <$> init_handle d
  | LoggingIn d => login_id <$> login_handle d
  | _ => None
  end.
Definition started_by (a : PickerAction) : option PickerTask :=
  match a with PickerRun t => Some t | _ => None end.
Definition uses (a : PickerAction) : option nat := t ← started_by a; used_id t.
Definition brings_id (m : PickerMessage) : option nat :=
  match m with PickInit h => Some (init_id h) | PickLogin h => Some (login_id h) | _ => None end.

(** The secret that is shown was made for the name, under a password that
    was typed twice. *)
Definition totp_of (st : PickerState) : Prop :=
  match st with
  | Initialising d =>
      match init_state d with
      | InitShowTotp totp => (∃ n, build_totp n (init_username d) = Ok totp) ∧ init_password d = confirm_password d
      | _ => True
      end
  | _ => True
  end.

(** Who opened a client. *)
Definition opens (t : PickerTask) (c : OpenClient) : Prop :=
  match t with
  | OpenProfile profile password => c = mkOpenClient profile password
  | OfInit (RunInit _ _ password _) | OfLogin (RunLogin _ _ password _) => client_password c = password
  | _ => False
  end.

Lemma update_ids n m p p' a :
  picker_update n m p = Ok (p', a) →
  match brings_id m with
  | Some id => held_id (picker_state p') = Some id ∧ uses a = None
  | None =>
      (uses a = None ∧ (held_id (picker_state p') = held_id (picker_state p) ∨ held_id (picker_state p') = None)) ∨
      (uses a = held_id (picker_state p) ∧ held_id (picker_state p') = None)
  end.
Proof.
  intros Hu. destruct p as [st cd]. destruct m; cbn in Hu;
    unfold init_update, init_continue, login_update, input_update in *; picker_cases; subst; cbn in *;
    picker_cases; subst; cbn in *; unfold uses; cbn; try done; auto;
    repeat match goal with H : init_handle ?d = _ |- _ => rewrite H in * | H : login_handle ?d = _ |- _ => rewrite H in * end;
    cbn; auto; repeat case_match; subst; cbn in *; auto.
Qed.

Lemma user_totp n m p p' a :
  picker_view p m → picker_update n m p = Ok (p', a) → totp_of (picker_state p) → totp_of (picker_state p').
Proof.
  intros Hv Hu Ht. destruct p as [st cd]. destruct Hv as [Hv|(x & _ & [-> | ->])]; [|cbn in Hu; picker_cases; done..].
  destruct st; cbn in Hv; picker_cases; subst; cbn in *; picker_cases; subst; cbn in *; try done;
    unfold init_view, init_update, init_continue in *; cbn in *; picker_cases; subst; cbn in *; picker_cases; subst; cbn in *;
    repeat match goal with H : init_state ?d = _ |- _ => rewrite H in * end; try done; try (by eauto).
  all: repeat match goal with H : bool_decide _ = false |- _ => apply bool_decide_eq_false in H; apply dec_stable in H end; simplify_eq; eauto.
Qed.

Lemma task_totp fresh t n m p p' a :
  picker_finishes fresh t m → picker_update n m p = Ok (p', a) → totp_of (picker_state p) → totp_of (picker_state p').
Proof.
  intros Hf Hu. destruct p as [st cd]. destruct t; cbn in Hf; try (destruct t; cbn in Hf); picker_cases; subst; cbn in *;
    picker_cases; subst; cbn in *; unfold init_update in *; picker_cases; subst; cbn in *; try done.
  by case_bool_decide.
Qed.

(** What has happened to the connections so far. *)
Record uses_ok (s : Screen) : Prop := {
  used_once : NoDup (omap used_id (started s));
  used_before id : id ∈ omap used_id (started s) → (id < connections s)%nat;
  held_fresh id :
    held_id (picker_state (picker s)) = Some id → (id < connections s)%nat ∧ id ∉ omap used_id (started s);
  shown_totp : totp_of (picker_state (picker s));
  running_started t : t ∈ running s → t ∈ started s;
  init_checked h u p totp :
    OfInit (RunInit h u p totp) ∈ started s →
    ∃ n n' code, build_totp n u = Ok totp ∧ check_current n' totp code = true;
  opened_by c : opened s = Some c → ∃ t, t ∈ started s ∧ opens t c;
}.

Lemma started_init n m p p' a h u pw totp :
  totp_of (picker_state p) → picker_update n m p = Ok (p', a) →
  started_by a = Some (OfInit (RunInit h u pw totp)) →
  ∃ d, picker_state p = Initialising d ∧ init_password d = pw ∧ confirm_password d = pw ∧
    init_username d = u ∧ (∃ k, build_totp k u = Ok totp) ∧ check_current n totp (totp_input d) = true.
Proof.
  intros Ht Hu Ha. revert Ht. destruct p as [st cd]. destruct m; cbn in Hu; unfold init_update, init_continue, login_update in *;
    picker_cases; subst; cbn in *; try done; simplify_eq.
  match goal with |- context [init_password ?d] => intros [Ht Hp]; exists d end. split_and!; [done|done|done|done|done|].
  by match goal with H : negb _ = false |- _ => apply negb_false_iff in H end.
Qed.

Lemma task_opens fresh t n m p p' c :
  picker_finishes fresh t m → picker_update n m p = Ok (p', PickerOpenProfile c) → opens t c.
Proof.
  intros Hf Hu. destruct p as [st cd]. destruct t; cbn in Hf; try (destruct t; cbn in Hf); picker_cases; subst; cbn in *;
    unfold init_update, login_update in *; picker_cases; subst; cbn in *; simplify_eq; done.
Qed.

Lemma user_opens_nothing n m p p' c : picker_view p m → picker_update n m p ≠ Ok (p', PickerOpenProfile c).
Proof.
  intros Hv Hu. destruct p as [st cd]. destruct Hv as [Hv|(x & _ & [-> | ->])]; [|cbn in Hu; picker_cases; done..].
  destruct st; cbn in Hv; picker_cases; subst; cbn in *; picker_cases; subst; cbn in *; try done;
    unfold init_view, login_view, init_update, init_continue, login_update in *; cbn in *; picker_cases; subst; cbn in *;
    picker_cases; subst; cbn in *; done.
Qed.

Lemma act_started a p tasks c s :
  started (act a p tasks c s) = match started_by a with Some t => t :: started s | None => started s end.
Proof. by destruct a. Qed.

(** One step: a message [m] at the state of [s], the tasks left, and the
    number of connections afterwards. *)
Lemma act_uses_ok n m p' a tasks c s :
  uses_ok s → (connections s ≤ c)%nat → (∀ t, t ∈ tasks → t ∈ running s) →
  picker_update n m (picker s) = Ok (p', a) →
  (∀ id, brings_id m = Some id → id = connections s ∧ (connections s < c)%nat) →
  totp_of (picker_state p') →
  (∀ client, a = PickerOpenProfile client → ∃ t, t ∈ running s ∧ opens t client) →
  opened s = None →
  uses_ok (act a p' tasks c s).
Proof.
  intros [H1 H2 H3 H4 H5 H6 H7] Hc Ht Hu Hm Hp Ho Hn. pose proof (update_ids _ _ _ _ _ Hu) as Hids.
  assert (Hnew : ∀ id, uses a = Some id → held_id (picker_state (picker s)) = Some id ∧ held_id (picker_state p') = None).
  { intros id Hid. destruct (brings_id m); naive_solver congruence. }
  assert (Hom : omap used_id (started (act a p' tasks c s)) =
    match uses a with Some id => id :: omap used_id (started s) | None => omap used_id (started s) end).
  { rewrite act_started. unfold uses. destruct (started_by a) as [t|]; [|done]. cbn. by destruct (used_id t). }
  assert (connections (act a p' tasks c s) = c) as Hcc by by destruct a.
  split; rewrite ?Hom, ?Hcc, ?act_picker.
  - destruct (uses a) as [id|] eqn:E; [|done]. apply NoDup_cons. split; [|done]. by apply H3, Hnew.
  - intros id Hid. destruct (uses a) as [id'|] eqn:E; [apply elem_of_cons in Hid as [->|Hid]|].
    + destruct (H3 id') as [? _]; [by apply Hnew|lia].
    + specialize (H2 _ Hid). lia.
    + specialize (H2 _ Hid). lia.
  - intros id Hid. destruct (uses a) as [id'|] eqn:E; [destruct (Hnew id' eq_refl); congruence|].
    destruct (brings_id m) as [new|] eqn:Eb.
    + destruct (Hm new eq_refl) as [-> Hlt]. destruct Hids as [Hids _]. replace id with (connections s) by congruence.
      split; [done|]. intros Hin%H2. lia.
    + destruct Hids as [[_ [He|He]]|[_ He]]; [|congruence..]. rewrite He in Hid. destruct (H3 _ Hid). split; [lia|done].
  - done.
  - intros t. rewrite act_started. destruct a as [|client|t']; cbn; [by eauto..|].
    intros [->|Hin]%elem_of_cons; apply elem_of_cons; [by left|right; by eauto].
  - intros h u pw totp. rewrite act_started. destruct (started_by a) as [t|] eqn:E; [|by apply H6].
    intros [<-|Hin]%elem_of_cons; [|by eapply H6].
    destruct (started_init _ _ _ _ _ _ _ _ _ H4 Hu E) as (d & _ & _ & _ & _ & (k & Hk) & Hcheck). by exists k, n, (totp_input d).
  - intros client Hop. destruct a as [|client'|t]; cbn in Hop; [congruence| |congruence]. injection Hop as ->.
    destruct (Ho client eq_refl) as (t & Hin & Hopens). exists t. split; [by apply H5|done].
Qed.

Lemma screen_step_uses_ok s s' : screen_step s s' → uses_ok s → uses_ok s'.
Proof.
  intros [n m p a Ho Hv Hu|n before t after m p a Ho Hr Hf Hu] Hok.
  - eapply act_uses_ok; [done|lia|done|done| | |intros client ->|done].
    + intros id Hid. exfalso. destruct Hv as [Hv|(x & _ & [-> | ->])]; [|done..].
      destruct (picker_state (picker s)); cbn in Hv; picker_cases; subst; done.
    + eapply user_totp; [done..|]. apply Hok.
    + by destruct (user_opens_nothing _ _ _ _ _ Hv Hu).
  - eapply act_uses_ok; [done|lia| |done| | |intros client ->|done].
    + intros t'. rewrite Hr, !elem_of_app, elem_of_cons. naive_solver.
    + intros id Hid. split; [|lia]. destruct t; cbn in Hf; picker_cases; subst; cbn in Hid; try done; by injection Hid as <-.
    + eapply task_totp; [done..|]. apply Hok.
    + exists t. split; [rewrite Hr; apply elem_of_app; right; by left|]. by eapply task_opens.
Qed.

(** A connection is used once, by one initialisation or one login; what
    is initialised is checked. Whenever an initialisation starts, its password
    was typed twice, its secret was made for its user name, and the code the
    user typed was right for that secret at that moment. A client that the
    picker opens belongs to a profile that was unlocked with the password typed
    for it, or to an initialisation or login the user started, under the
    password of that. *)
Theorem connections_used_once s :
  shown s →
  NoDup (omap used_id (started s)) ∧
  (∀ s' h u pw totp, screen_step s s' → started s' = OfInit (RunInit h u pw totp) :: started s →
     ∃ d n, picker_state (picker s) = Initialising d ∧ init_password d = pw ∧ confirm_password d = pw ∧
       init_username d = u ∧ (∃ k, build_totp k u = Ok totp) ∧ check_current n totp (totp_input d) = true) ∧
  (∀ c, opened s = Some c → ∃ t, t ∈ started s ∧ opens t c).
Proof.
  intros Hs. assert (uses_ok s) as Hok.
  { cut (uses_ok screen_start); [unfold shown in Hs; induction Hs; eauto using screen_step_uses_ok|].
    split; cbn; try done; [by constructor| |]; [by intros ? ?%elem_of_nil|].
    intros h u pw totp [?|?%elem_of_nil]%elem_of_cons; done. }
  split_and!; [apply Hok| |apply Hok]. intros s' h u pw totp Hstep Hst.
  assert (∀ n m p a tasks c, picker_update n m (picker s) = Ok (p, a) → s' = act a p tasks c s → started_by a = Some (OfInit (RunInit h u pw totp)) →
    ∃ d n, picker_state (picker s) = Initialising d ∧ init_password d = pw ∧ confirm_password d = pw ∧
       init_username d = u ∧ (∃ k, build_totp k u = Ok totp) ∧ check_current n totp (totp_input d) = true) as Hgo.
  { intros n m p a tasks c Hu _ Ha. destruct (started_init _ _ _ _ _ _ _ _ _ (shown_totp _ Hok) Hu Ha) as (d & ? & ? & ? & ? & ? & ?).
    exists d, n. done. }
  assert (∀ a p tasks c, started (act a p tasks c s) = OfInit (RunInit h u pw totp) :: started s →
    started_by a = Some (OfInit (RunInit h u pw totp))) as Hby.
  { intros a p tasks c. rewrite act_started. destruct (started_by a); [by intros [= ->]|].
    intros He%(f_equal length). cbn in He. lia. }
  destruct Hstep as [n m p a _ _ Hu|n before t after m p a _ _ _ Hu]; (eapply Hgo; [exact Hu|done|by eapply Hby]).
Qed.
End picker.

(** ** Worked example
    A server is initialised; a secret is the name it was made for. *)
Definition toy_build (n : nat) (account : string) : result ExtError string := Ok account.
Definition toy_png (totp : string) : result ExtError () := Ok ().
Definition toy_url (totp : string) : string := "otpauth://" +:+ totp.
Definition toy_code (n : nat) (totp code : string) : bool := bool_decide (code = "123456"%string).

#[local] Abbreviation toy_update := (picker_update toy_build toy_png toy_url toy_code).
#[local] Abbreviation toy_shown := (shown toy_build toy_png toy_url toy_code).

(** The user has typed a host and connects. *)
Definition toy_waiting : Screen (Totp := string) :=
  mkScreen (mkPicker (Loading "profile-picker.connecting-to-server") None)
    [FirstConnect "h"] [FirstConnect "h"; ListProfiles] 1 None.

Lemma toy_waiting_shown : toy_shown toy_waiting.
Proof.
  eapply rtc_l.
  { eapply (task_finishes _ _ _ _ _ 0 [] ListProfiles [] (GotProfiles [])); [done|done|left; by eexists|reflexivity]. }
  eapply rtc_l.
  { eapply (user_sends _ _ _ _ _ 0 (PickInput (HostInput "h"))); [done|left; left; by eexists|reflexivity]. }
  eapply rtc_l; [eapply (user_sends _ _ _ _ _ 0 (Connect "h")); [done|left; right; by left|reflexivity]|reflexivity].
Qed.

Lemma picker_never_stuck_witness :
  (∃ m, picker_view (picker toy_waiting) m) ∨
  ∃ t, t ∈ running toy_waiting ∧
    ∀ n m p a, picker_finishes (connections toy_waiting) t m → toy_update n m (picker toy_waiting) = Ok (p, a) →
      (∃ m', picker_view p m') ∨ ∃ c, a = PickerOpenProfile c.
Proof. exact (picker_never_stuck toy_build toy_png toy_url toy_code toy_waiting toy_waiting_shown eq_refl). Defined.

(** The user types a name, the password twice, and the code. *)
Definition toy_dialog (s : InitState (Totp := string)) (h : option InitHandle) (code : string) : InitServerDialog :=
  mkInitServerDialog s h "u" "p" "p" code.
Definition toy_shown_code : Screen (Totp := string) :=
  mkScreen (mkPicker (Initialising (toy_dialog (InitShowTotp "u") (Some (mkInitHandle 1 "h")) "123456")) None)
    [OfInit (FocusInit "totp"); OfInit (FocusInit "username")]
    [OfInit (FocusInit "totp"); OfInit (FocusInit "username"); FirstConnect "h"; ListProfiles] 2 None.

Lemma toy_code_shown : toy_shown toy_shown_code.
Proof.
  unfold shown. etransitivity; [apply toy_waiting_shown|].
  eapply rtc_l.
  { eapply (task_finishes _ _ _ _ _ 0 [] (FirstConnect "h") []); [done|done|by left|reflexivity]. }
  eapply rtc_l.
  { eapply (user_sends _ _ _ _ _ 0 (PickInitServer (InitUsername "u"))); [done| |reflexivity].
    left. eexists. split; [left; by eexists|done]. }
  eapply rtc_l.
  { eapply (user_sends _ _ _ _ _ 0 (PickInitServer (InitPassword "p"))); [done| |reflexivity].
    left. eexists. split; [right; left; by eexists|done]. }
  eapply rtc_l.
  { eapply (user_sends _ _ _ _ _ 0 (PickInitServer (ConfirmPassword "p"))); [done| |reflexivity].
    left. eexists. split; [do 2 right; left; by eexists|done]. }
  eapply rtc_l.
  { eapply (user_sends _ _ _ _ _ 0 (PickInitServer InitContinue)); [done| |reflexivity].
    left. eexists. split; [by do 4 right|done]. }
  eapply rtc_l.
  { eapply (user_sends _ _ _ _ _ 0 (PickInitServer (InitTotp "123456"))); [done| |reflexivity].
    left. eexists. split; [right; left; by eexists|done]. }
  reflexivity.
Qed.

Lemma connections_used_once_witness :
  ∃ d n, picker_state (picker toy_shown_code) = Initialising d ∧ init_password d = "p"%string ∧
    confirm_password d = "p"%string ∧ init_username d = "u"%string ∧ (∃ k, toy_build k "u" = Ok "u"%string) ∧
    toy_code n "u" (totp_input d) = true.
Proof.
  apply (proj1 (proj2 (connections_used_once toy_build toy_png toy_url toy_code toy_shown_code toy_code_shown))
    (act (PickerRun (OfInit (RunInit (mkInitHandle 1 "h") "u" "p" "u")))
       (mkPicker (Initialising (mkInitServerDialog (InitLoading "profile-picker.init-loading") None "u" "p" "p" "123456")) None)
       (running toy_shown_code) (connections toy_shown_code) toy_shown_code)
    (mkInitHandle 1 "h") "u"%string "p"%string "u"%string).
  - eapply (user_sends _ _ _ _ _ 0 (PickInitServer InitContinue)); [done| |reflexivity].
    left. eexists. split; [by do 3 right|done].
  - done.
Defined.
