(* ===== verification/GuiMain.v ===== *)
(** * The main view of the graphical client
    ([svalin_iced/src/ui/mainview.rs], [mainview/add_device.rs],
    [mainview/device_view.rs], [device_view/meta_display.rs], [device_view/update.rs])

    The devices of an opened profile: a list, a view of one of them, and the
    dialog that adds one. As in [Gui] tasks are data and the views are the
    messages they let the user send. What the list shows is the state of
    [Receivers]. *)
From S2P Require Import Prelude.
From S2P Require Import External.
From S2P Require Import Spki.
From S2P Require Import Toy.
From S2P Require Import Certificate.
From S2P Require Import ClientStore.
From S2P Require Import Receivers.
From stdpp Require Import relations.
From stdpp Require Import options.

#[local] Open Scope Z_scope.

(** ** Adding a device *)
Section add_device.
(** The numeric characters of a text, [char::is_numeric]. *)
Context (numeric : string → string).

(** The channels and the task of one attempt to add a device go by a number. *)
Inductive AddMessage :=
  | JoinCode (s : string)
  | ConfirmCode (s : string)
  | ConnectToDevice
  | AddCancel
  | AddDone (certificate : Certificate)
  | WaitForConfirm (confirm : nat)
  | AddError (e : ExtError)
  | SwitchToConfirm
  | Confirm.

Inductive AddScreen :=
  | AddLoading (text : string)
  | AddFailed (e : ExtError)
  | AskJoinCode
  | AskConfirm.

Record AddDevice := mkAddDevice {
  add_screen : AddScreen;
  join_code : string;
  confirm_code : string;
  confirm_sender : option nat;
  (** aborts the task when it is dropped *)
  add_handle : option nat;
}.

Inductive AddTask :=
  | FocusAdd (id : string)
  | AddAgent (k : nat) (join_code : string)
  | ReceiveConfirm (k : nat).

Inductive AddAction :=
  | AddNone
  | AddRun (ts : list AddTask)
  | AddClose
  | AddShow (h : SpkiHash).

Definition add_device_new : AddDevice * list AddTask :=
  (mkAddDevice AskJoinCode "" "" None None, [FocusAdd "join_code"]).

Definition with_screen (s : AddScreen) (self : AddDevice) : AddDevice :=
  mkAddDevice s (join_code self) (confirm_code self) (confirm_sender self) (add_handle self).

(** [k] numbers a new attempt; [waiting] tells which attempts still wait for
    their confirm code, to which sending it succeeds. *)
Definition add_update (k : nat) (waiting : nat → bool) (message : AddMessage) (self : AddDevice) :
    AddDevice * AddAction :=
  match message with
  | AddCancel => (self, AddClose)
  | JoinCode s =>
      (mkAddDevice (add_screen self) (numeric s) (confirm_code self) (confirm_sender self) (add_handle self), AddNone)
  | ConfirmCode s =>
      (mkAddDevice (add_screen self) (join_code self) (numeric s) (confirm_sender self) (add_handle self), AddNone)
  | AddError err =>
      match add_screen self with
      | AddFailed _ => (self, AddNone)
      | _ => (with_screen (AddFailed err) self, AddNone)
      end
  | ConnectToDevice =>
      match add_screen self with
      | AskJoinCode =>
          (mkAddDevice (AddLoading "Connecting via join code...") (join_code self) (confirm_code self)
             (confirm_sender self) (Some k),
           AddRun [AddAgent k (join_code self); ReceiveConfirm k])
      | _ => (self, AddNone)
      end
  | WaitForConfirm confirm =>
      (mkAddDevice AskConfirm (join_code self) (confirm_code self) (Some confirm) (add_handle self),
       AddRun [FocusAdd "device_name"])
  | SwitchToConfirm => (with_screen AskConfirm self, AddRun [FocusAdd "confirm_code"])
  | Confirm =>
      match add_screen self, confirm_sender self with
      | AskConfirm, Some sender =>
          let self := mkAddDevice (add_screen self) (join_code self) (confirm_code self) None (add_handle self) in
          (with_screen (if waiting sender then AddLoading "Adding device..." else AddFailed "ran into timeout") self,
           AddNone)
      | _, _ => (self, AddNone)
      end
  | AddDone certificate => (self, AddShow (spki_hash certificate))
  end.

Definition add_view (self : AddDevice) (m : AddMessage) : Prop :=
  match add_screen self with
  | AddFailed _ => m = AddCancel
  | AddLoading _ => False
  | AskJoinCode => (∃ s, m = JoinCode s) ∨ m = AddCancel ∨ m = ConnectToDevice
  | AskConfirm => (∃ s, m = ConfirmCode s) ∨ m = AddCancel ∨ m = Confirm
  end.

Definition add_finishes (t : AddTask) (m : AddMessage) : Prop :=
  match t with
  | AddAgent _ _ => (∃ certificate, m = AddDone certificate) ∨ ∃ e, m = AddError e
  | ReceiveConfirm k => m = WaitForConfirm k ∨ m = AddError "error adding agent: channel closed"
  | FocusAdd _ => False
  end.
End add_device.

(** ** One device *)
Section device_view.
Context `{Sysinfo}.
(** [text_editor]: its actions on a text. *)
Context {EditAction : Type} (perform_edit : EditAction → string → string).

Inductive MetaMessage :=
  | MetaEdit
  | MetaCancelEdit
  | ChangeName (name : string)
  | ChangeGroup (group : string)
  | ChangeNotes (a : EditAction)
  | MetaSave.

Record MetaDisplay := mkMetaDisplay { meta_edit : bool; edit_name : string; edit_group : string; edit_notes : string }.

Definition meta_display_new : MetaDisplay := mkMetaDisplay false "" "" "".

Definition meta_update (now : Z) (msg : MetaMessage) (current_info : SvalinMetaInfo) (self : MetaDisplay) :
    MetaDisplay * option SvalinMetaInfo :=
  match msg with
  | MetaEdit =>
      (mkMetaDisplay true (meta_name current_info) (group current_info) (notes current_info), None)
  | MetaCancelEdit => (mkMetaDisplay false (edit_name self) (edit_group self) (edit_notes self), None)
  | ChangeName name => (mkMetaDisplay (meta_edit self) name (edit_group self) (edit_notes self), None)
  | ChangeGroup group => (mkMetaDisplay (meta_edit self) (edit_name self) group (edit_notes self), None)
  | ChangeNotes a =>
      (mkMetaDisplay (meta_edit self) (edit_name self) (edit_group self) (perform_edit a (edit_notes self)), None)
  | MetaSave =>
      (mkMetaDisplay false (edit_name self) (edit_group self) (edit_notes self),
       Some (mkSvalinMetaInfo now (edit_name self) (edit_group self) (edit_notes self)))
  end.

Definition meta_view (self : MetaDisplay) (m : MetaMessage) : Prop :=
  if meta_edit self then
    (∃ s, m = ChangeName s) ∨ (∃ s, m = ChangeGroup s) ∨ (∃ a, m = ChangeNotes a) ∨ m = MetaSave ∨ m = MetaCancelEdit
  else m = MetaEdit.

Inductive UpdateMessage := ChangeCustomUrl (url : string) | StartAgentUpdate.
Record UpdateForm := mkUpdateForm { custom_url : string }.
Definition update_form_new : UpdateForm := mkUpdateForm "".
Definition update_form_update (m : UpdateMessage) (self : UpdateForm) : UpdateForm * option string :=
  match m with
  | ChangeCustomUrl url => (mkUpdateForm url, None)
  | StartAgentUpdate => (self, Some (custom_url self))
  end.
Definition update_form_view (self : UpdateForm) (m : UpdateMessage) : Prop :=
  (∃ url, m = ChangeCustomUrl url) ∨ (custom_url self ≠ ""%string ∧ m = StartAgentUpdate).

Inductive DeviceMessage :=
  | DeviceBack
  | OfMeta (m : MetaMessage)
  | OfUpdate (m : UpdateMessage).

Inductive DeviceTask :=
  | UpdateMetainfo (h : SpkiHash) (info : SvalinMetaInfo)
  | UpdateAgentFrom (h : SpkiHash) (url : string).

Inductive DeviceAction := DeviceNone | DeviceGoBack | DeviceRun (t : DeviceTask).

Record DeviceView := mkDeviceView { view_spki_hash : SpkiHash; meta_display : MetaDisplay; update_form : UpdateForm }.

Definition device_view_new (h : SpkiHash) : DeviceView := mkDeviceView h meta_display_new update_form_new.

Definition placeholder_meta : SvalinMetaInfo := mkSvalinMetaInfo 0 "" "" "".

Definition device_update (now : Z) (message : DeviceMessage) (client_state : ClientState) (self : DeviceView) :
    DeviceView * DeviceAction :=
  match devices (persistent client_state) !! view_spki_hash self with
  | None => match message with DeviceBack => (self, DeviceGoBack) | _ => (self, DeviceNone) end
  | Some device =>
      match message with
      | DeviceBack => (self, DeviceGoBack)
      | OfMeta message =>
          let meta := default placeholder_meta (meta_info device) in
          let '(display, new_meta) := meta_update now message meta (meta_display self) in
          let self := mkDeviceView (view_spki_hash self) display (update_form self) in
          match new_meta with
          | None => (self, DeviceNone)
          | Some new_meta => (self, DeviceRun (UpdateMetainfo (view_spki_hash self) new_meta))
          end
      | OfUpdate message =>
          let '(form, url) := update_form_update message (update_form self) in
          let self := mkDeviceView (view_spki_hash self) (meta_display self) form in
          match url with
          | Some url => (self, DeviceRun (UpdateAgentFrom (view_spki_hash self) url))
          | None => (self, DeviceNone)
          end
      end
  end.

(** [view] and [header]; going back is always possible. *)
Definition device_view_view (client_state : ClientState) (self : DeviceView) (m : DeviceMessage) : Prop :=
  m = DeviceBack ∨
  ∃ device, devices (persistent client_state) !! view_spki_hash self = Some device ∧
    ((agent_online client_state (view_spki_hash self) = true ∧ ∃ m', update_form_view (update_form self) m' ∧ m = OfUpdate m') ∨
     ∃ m', meta_view (meta_display self) m' ∧ m = OfMeta m').
End device_view.

(** ** The main view *)
Section main_view.
Context `{Sysinfo} (numeric : string → string) {EditAction : Type} (perform_edit : EditAction → string → string).

Inductive MainMessage :=
  | InitState (state : ClientState)
  | MainError (e : ExtError)
  | UpdateState (u : ClientStateUpdate)
  | OpenAddDevice
  | SelectDevice (h : SpkiHash)
  | OfAddDevice (m : AddMessage)
  | OfDeviceView (m : DeviceMessage (EditAction := EditAction)).

Inductive MainTask :=
  | SubscribeState
  | StateUpdates
  | AddTasks (t : AddTask)
  | DeviceTasks (t : DeviceTask).

Inductive MainAction := MainNone | MainRun (ts : list MainTask).

Inductive MainScreen :=
  | LoadingDevices (text : string)
  | DeviceList
  | AddingDevice (d : AddDevice)
  | ShowingDevice (d : DeviceView).

Record MainView := mkMainView { main_screen : MainScreen; main_state : ClientState; main_error : option ExtError }.

Definition main_view_new : MainView * MainTask :=
  (mkMainView (LoadingDevices "Loading devices...") client_state_empty None, SubscribeState).

Definition go_to (s : MainScreen) (self : MainView) : MainView := mkMainView s (main_state self) (main_error self).

Definition main_update (k : nat) (waiting : nat → bool) (now : Z) (message : MainMessage) (self : MainView) :
    MainView * MainAction :=
  match message with
  | MainError error => (mkMainView (main_screen self) (main_state self) (Some error), MainNone)
  | InitState state => (mkMainView DeviceList state (main_error self), MainRun [StateUpdates])
  | UpdateState update =>
      (mkMainView (main_screen self) (client_state_update (main_state self) update) (main_error self), MainNone)
  | SelectDevice h => (go_to (ShowingDevice (device_view_new h)) self, MainNone)
  | OpenAddDevice =>
      let '(add_device, tasks) := add_device_new in
      (go_to (AddingDevice add_device) self, MainRun (AddTasks <$> tasks))
  | OfAddDevice message =>
      match main_screen self with
      | AddingDevice add_device =>
          let '(add_device, action) := add_update numeric k waiting message add_device in
          let self := go_to (AddingDevice add_device) self in
          match action with
          | AddNone => (self, MainNone)
          | AddClose => (go_to DeviceList self, MainNone)
          | AddShow h => (go_to (ShowingDevice (device_view_new h)) self, MainNone)
          | AddRun tasks => (self, MainRun (AddTasks <$> tasks))
          end
      | _ => (self, MainNone)
      end
  | OfDeviceView message =>
      match main_screen self with
      | ShowingDevice device_view =>
          let '(device_view, action) := device_update perform_edit now message (main_state self) device_view in
          let self := go_to (ShowingDevice device_view) self in
          match action with
          | DeviceNone => (self, MainNone)
          | DeviceGoBack => (go_to DeviceList self, MainNone)
          | DeviceRun task => (self, MainRun [DeviceTasks task])
          end
      | _ => (self, MainNone)
      end
  end.

(** [view] and [header]. An error is shown without a way to close it. *)
Definition main_view (self : MainView) (m : MainMessage) : Prop :=
  match main_error self with
  | Some _ => False
  | None =>
      match main_screen self with
      | LoadingDevices _ => False
      | DeviceList => m = OpenAddDevice ∨ ∃ h, is_Some (devices (persistent (main_state self)) !! h) ∧ m = SelectDevice h
      | AddingDevice d => ∃ m', add_view d m' ∧ m = OfAddDevice m'
      | ShowingDevice d => ∃ m', device_view_view (main_state self) d m' ∧ m = OfDeviceView m'
      end
  end.

Definition main_finishes (t : MainTask) (m : MainMessage) : Prop :=
  match t with
  | SubscribeState => (∃ state, m = InitState state) ∨ ∃ e, m = MainError e
  | StateUpdates | DeviceTasks _ => False
  | AddTasks t => ∃ m', add_finishes t m' ∧ m = OfAddDevice m'
  end.

(** *** The view at work
    Leaving the dialog, or a new attempt in it, aborts the task of the old
    one: only the task whose handle is held goes on. *)
Definition held (s : MainScreen) : option nat := match s with AddingDevice d => add_handle d | _ => None end.
Definition not_aborted (s : MainScreen) (t : MainTask) : Prop :=
  match t with AddTasks (AddAgent k _) => held s = Some k | _ => True end.
#[export] Instance not_aborted_dec s t : Decision (not_aborted s t).
Proof. unfold not_aborted. destruct t as [| |[]|]; apply _. Defined.

Record Shown := mkShown { view_now : MainView; tasks_now : list MainTask; attempts : nat }.

Definition main_start : Shown := mkShown main_view_new.1 [main_view_new.2] 0.

Definition awaits_code (ts : list MainTask) (k : nat) : Prop := ∃ code, AddTasks (AddAgent k code) ∈ ts.

Definition tasks_of (a : MainAction) : list MainTask := match a with MainNone => [] | MainRun ts => ts end.

Definition after (v : MainView) (a : MainAction) (ts : list MainTask) (s : Shown) : Shown :=
  mkShown v (filter (not_aborted (main_screen v)) (ts ++ tasks_of a)) (S (attempts s)).

(** A code can be sent at most to a task that is running. *)
Inductive main_step (s : Shown) : Shown → Prop :=
  | main_user waiting now m v a :
      (∀ k, waiting k = true → awaits_code (tasks_now s) k) →
      main_view (view_now s) m → main_update (attempts s) waiting now m (view_now s) = (v, a) →
      main_step s (after v a (tasks_now s) s)
  | main_finished waiting now before t rest m v a :
      (∀ k, waiting k = true → awaits_code (before ++ rest) k) →
      tasks_now s = before ++ t :: rest → main_finishes t m →
      main_update (attempts s) waiting now m (view_now s) = (v, a) →
      main_step s (after v a (before ++ rest) s)
  | main_updated waiting now u v a :
      StateUpdates ∈ tasks_now s → main_update (attempts s) waiting now (UpdateState u) (view_now s) = (v, a) →
      main_step s (after v a (tasks_now s) s).

(** *** The view is never stuck *)
Definition waiting_screen (s : MainScreen) : bool :=
  match s with
  | LoadingDevices _ => true
  | AddingDevice d => match add_screen d with AddLoading _ => true | _ => false end
  | _ => false
  end.

Definition main_awaited (s : MainScreen) (t : MainTask) : Prop :=
  match s, t with
  | LoadingDevices _, SubscribeState => True
  | AddingDevice d, AddTasks (AddAgent k _) => add_handle d = Some k
  | _, _ => False
  end.

Lemma offers_something v : main_error v = None → waiting_screen (main_screen v) = false → ∃ m, main_view v m.
Proof.
  clear numeric perform_edit. unfold main_view. intros ->. destruct (main_screen v) as [| |d|d]; cbn; [done| | |]; intros Hw.
  - exists OpenAddDevice. by left.
  - exists (OfAddDevice AddCancel). exists AddCancel. split; [|done]. unfold add_view. destruct (add_screen d); naive_solver.
  - exists (OfDeviceView DeviceBack). exists DeviceBack. split; [by left|done].
Qed.

(** What a message does to a screen that waits, and when one begins to. *)
Definition add_waits (d : AddDevice) : bool := match add_screen d with AddLoading _ => true | _ => false end.

Lemma add_update_waits k waiting m d d' a :
  add_update numeric k waiting m d = (d', a) → add_waits d' = true →
  (∃ code, a = AddRun [AddAgent k code; ReceiveConfirm k] ∧ add_handle d' = Some k) ∨
  (∃ sender, waiting sender = true ∧ add_handle d' = add_handle d ∧ a = AddNone) ∨
  (add_waits d = true ∧ add_handle d' = add_handle d ∧ (a = AddNone ∨ a = AddClose ∨ ∃ h, a = AddShow h)).
Proof.
  destruct d as [sc jc cc cs ah]. unfold add_waits. destruct m; cbn; [| | | | | | | |destruct sc; [..|destruct cs as [n|]; [destruct (waiting n) eqn:E|]]];
    try destruct sc; intros [= <- <-]; cbn; intros Hw; try done;
    first [right; right; split_and!; by eauto|right; left; by eauto|left; by eauto].
Qed.

Lemma main_update_waits k waiting now m v v' a :
  main_update k waiting now m v = (v', a) → waiting_screen (main_screen v') = true →
  (∃ code, AddTasks (AddAgent k code) ∈ tasks_of a ∧ held (main_screen v') = Some k) ∨
  (∃ sender, waiting sender = true ∧ held (main_screen v') = held (main_screen v)) ∨
  (waiting_screen (main_screen v) = true ∧ held (main_screen v') = held (main_screen v) ∧
   ∀ t, main_awaited (main_screen v) t → main_awaited (main_screen v') t).
Proof.
  intros Hu Hw. destruct v as [s st er]. destruct m as [st'|e|u| |h|m|m]; cbn in Hu.
  - by injection Hu as <- <-.
  - injection Hu as <- <-. by right; right.
  - injection Hu as <- <-. by right; right.
  - by injection Hu as <- <-.
  - by injection Hu as <- <-.
  - destruct s as [t| |d|d]; [injection Hu as <- <-; by right; right|by injection Hu as <- <-| |by injection Hu as <- <-].
    destruct (add_update _ _ _ _ _) as [d' act] eqn:E.
    destruct act as [|ts| |h]; injection Hu as <- <-; try done; cbn in Hw;
      destruct (add_update_waits _ _ _ _ _ _ E Hw) as [(code & Ha & Hh)|[(sender & Hs & Hh & Ha)|(Hd & Hh & Ha)]]; cbn; try done.
    + right; left. by exists sender.
    + right; right. split_and!; [done|done|]. intros [| |[| |]|]; cbn; congruence.
    + left. exists code. injection Ha as ->. cbn. split; [by left|done].
    + destruct Ha as [?|[?|[? ?]]]; done.
  - destruct s as [t| |d|d]; try (injection Hu as <- <-; first [done|by right; right]).
    destruct (device_update _ _ _ _ _) as [dv []]; injection Hu as <- <-; done.
Qed.

(** The end of what a screen waits for. *)
Lemma main_awaited_ends t k waiting now m v v' a :
  main_awaited (main_screen v) t → main_finishes t m → main_update k waiting now m v = (v', a) →
  waiting_screen (main_screen v') = false ∨ is_Some (main_error v').
Proof.
  intros Ha Hf Hu. destruct v as [s st er]. cbn in Ha. destruct s as [x| |d|d], t as [| |t|t]; try done; cbn in Hf.
  - destruct Hf as [[? ->]|[? ->]]; injection Hu as <- <-; cbn; eauto.
  - destruct t as [|k' code|]; [done| |done]. destruct Hf as (m' & [[c ->]|[e ->]] & ->); cbn in Hu.
    + injection Hu as <- <-. by left.
    + destruct d as [sc jc cc cs ah]. destruct sc; injection Hu as <- <-; by left.
Qed.

Definition main_ok (s : Shown) : Prop :=
  (∀ k code, AddTasks (AddAgent k code) ∈ tasks_now s → held (main_screen (view_now s)) = Some k) ∧
  (waiting_screen (main_screen (view_now s)) = true → main_error (view_now s) = None →
   ∃ t, t ∈ tasks_now s ∧ main_awaited (main_screen (view_now s)) t).

Lemma held_awaited s k code : held s = Some k → main_awaited s (AddTasks (AddAgent k code)).
Proof. by destruct s. Qed.

Lemma awaited_not_aborted s t : main_awaited s t → not_aborted s t.
Proof. by destruct s, t as [| |[]|]. Qed.

Lemma error_stays k waiting now m v v' a :
  main_update k waiting now m v = (v', a) → main_error v' = None → main_error v = None.
Proof.
  intros Hu He. destruct v as [s st er]. destruct m; cbn in Hu; try (by injection Hu as <- <-);
    destruct s; try (by injection Hu as <- <-).
  - destruct (add_update _ _ _ _ _) as [? []]; by injection Hu as <- <-.
  - destruct (device_update _ _ _ _ _) as [? []]; by injection Hu as <- <-.
Qed.

Lemma after_ok waiting now m v a ts s :
  main_ok s → (∀ t, t ∈ ts → t ∈ tasks_now s) → (∀ k, waiting k = true → awaits_code ts k) →
  main_update (attempts s) waiting now m (view_now s) = (v, a) →
  (∀ t, t ∈ tasks_now s → main_awaited (main_screen (view_now s)) t →
     t ∈ ts ∨ waiting_screen (main_screen v) = false ∨ is_Some (main_error v)) →
  main_ok (after v a ts s).
Proof.
  intros [H1 H2] Hts Hw Hu Ht. unfold after. split; cbn.
  { intros k code [Hn _]%list_elem_of_filter. done. }
  intros Hv He.
  assert (Hin : ∀ t, t ∈ ts ++ tasks_of a → main_awaited (main_screen v) t →
    ∃ t, t ∈ filter (not_aborted (main_screen v)) (ts ++ tasks_of a) ∧ main_awaited (main_screen v) t).
  { intros t Hin Ha. exists t. split; [|done]. apply list_elem_of_filter. split; [by apply awaited_not_aborted|done]. }
  destruct (main_update_waits _ _ _ _ _ _ _ Hu Hv) as [(code & Hc & Hh)|[(sender & Hs & Hh)|(Hb & Hh & Hkeep)]].
  - eapply Hin; [apply elem_of_app; by right|by apply held_awaited].
  - destruct (Hw _ Hs) as [code Hc]. eapply Hin; [apply elem_of_app; by left|]. apply held_awaited. rewrite Hh. by eapply H1, Hts.
  - destruct (H2 Hb) as (t & Htin & Ha); [by eapply error_stays|].
    destruct (Ht t Htin Ha) as [Hts'|[Hn|[e He']]]; [|congruence..].
    eapply Hin; [apply elem_of_app; by left|by apply Hkeep].
Qed.

Lemma main_step_ok s s' : main_step s s' → main_ok s → main_ok s'.
Proof.
  intros [waiting now m v a Hw Hv Hu|waiting now before t rest m v a Hw Hr Hf Hu|waiting now u v a Hi Hu] Hok.
  - by eapply after_ok; eauto.
  - eapply after_ok; [done| |done..|].
    { intros t'. rewrite Hr, !elem_of_app, elem_of_cons. naive_solver. }
    intros t' Hin Ha. rewrite Hr, elem_of_app, elem_of_cons in Hin. destruct Hin as [Hin|[->|Hin]].
    + left. apply elem_of_app. by left.
    + right. by eapply main_awaited_ends.
    + left. apply elem_of_app. by right.
  - eapply (after_ok (λ _, false) now (UpdateState u)); [done|done|done|exact Hu|]. auto.
Qed.

(** The main view is never stuck, short of an error it cannot get over.
    Whatever the user does, whichever tasks finish in whichever order, and
    whatever tasks of a dialog that was closed still have to say: without an
    error the user can send a message, or a task is running whose every
    outcome ends the waiting. A device is being added, moreover, only by the
    dialog that is shown: closing it, or leaving it, stops its task. *)
Theorem main_view_never_stuck s :
  rtc main_step main_start s →
  (∀ k code, AddTasks (AddAgent k code) ∈ tasks_now s → held (main_screen (view_now s)) = Some k) ∧
  (main_error (view_now s) = None →
   (∃ m, main_view (view_now s) m) ∨
   ∃ t, t ∈ tasks_now s ∧
     ∀ k waiting now m v a, main_finishes t m → main_update k waiting now m (view_now s) = (v, a) →
       (∃ m', main_view v m') ∨ is_Some (main_error v)).
Proof.
  intros Hs. assert (main_ok s) as [H1 H2].
  { cut (main_ok main_start); [induction Hs; eauto using main_step_ok|]. split; cbn.
    - intros k code [?|?%elem_of_nil]%elem_of_cons; done.
    - intros _ _. exists SubscribeState. split; [by left|done]. }
  split; [done|]. intros He. destruct (waiting_screen (main_screen (view_now s))) eqn:Hw; [right|left; by apply offers_something].
  destruct (H2 eq_refl He) as (t & Ht & Ha). exists t. split; [done|]. intros k waiting now m v a Hf Hu.
  destruct (main_error v) eqn:Hv; [by right; eexists|left]. apply offers_something; [done|].
  destruct (main_awaited_ends _ _ _ _ _ _ _ _ Ha Hf Hu) as [?|[? ?]]; [done|congruence].
Qed.
End main_view.

(** ** Worked example
    A device is being added. *)
#[local] Instance view_disks : Sysinfo := {| DiskKind := Empty_set |}.
Definition toy_edit (a : string) (text : string) : string := text +:+ a.
Definition toy_numeric (text : string) : string := text.
#[local] Abbreviation toy_step := (main_step toy_numeric toy_edit).

Definition toy_view (sc : MainScreen) : MainView :=
  mkMainView sc client_state_empty None.
Definition toy_adding (sc : AddScreen) (h : option nat) : AddDevice := mkAddDevice sc "123456" "" None h.
Definition toy_connecting : Shown :=
  mkShown (toy_view (AddingDevice (toy_adding (AddLoading "Connecting via join code...") (Some 3%nat))))
    [StateUpdates; AddTasks (FocusAdd "join_code"); AddTasks (AddAgent 3 "123456"); AddTasks (ReceiveConfirm 3)] 4.

Lemma toy_connecting_shown : rtc toy_step main_start toy_connecting.
Proof.
  eapply rtc_l.
  { eapply (main_finished _ _ _ (λ _, false) 0 [] SubscribeState [] (InitState client_state_empty));
      [done|done|left; by eexists|reflexivity]. }
  eapply rtc_l.
  { eapply (main_user _ _ _ (λ _, false) 0 OpenAddDevice); [done|by left|reflexivity]. }
  eapply rtc_l.
  { eapply (main_user _ _ _ (λ _, false) 0 (OfAddDevice (JoinCode "123456"))); [done| |reflexivity].
    eexists. split; [left; by eexists|done]. }
  eapply rtc_l.
  { eapply (main_user _ _ _ (λ _, false) 0 (OfAddDevice ConnectToDevice)); [done| |reflexivity].
    eexists. split; [by right; right|done]. }
  reflexivity.
Qed.

Lemma main_view_never_stuck_witness :
  held (main_screen (view_now toy_connecting)) = Some 3%nat.
Proof.
  apply (proj1 (main_view_never_stuck toy_numeric toy_edit toy_connecting toy_connecting_shown) 3%nat "123456"%string).
  right; right; by left.
Defined.
