(* ===== verification/Replication.v ===== *)
(** * The trust store on many nodes at once

    The blocks of the trust store reach the server over the message streams of
    several sessions, and leave it over the update streams of several nodes
    ([with_client.rs], [server_store/trust_store_transaction_store.rs],
    [update_trust_store.rs]). Each of these streams is a task of its own, and
    between two of its steps the others go on. This file cuts the operations
    of [Streaming] and [TransactionStore] at the points where their tasks wait
    or release a lock, and lets the pieces of all tasks interleave: a world is
    the server with its writers and update streams and the nodes, an event is
    one piece of one task.

    The specification is a log: blocks are appended to it, and the server and
    the nodes move along it. [replication_refines_log] shows that every
    interleaving implements it; [followers_keep_up] and [node_catches_up] show
    which interleavings keep the nodes up to date, and the worked examples at
    the end show that the others, which lose a node, can happen.

    The nodes follow: the clients have the trust store that the initialisation
    left (a login hands out that one, whenever it happens), and an agent that
    is enrolled gets the one of the client that enrols it. If that one has a
    further block the agent is left behind for good
    ([enrolled_later_stays_behind]). A client that adds a block applies it
    itself behind the server's answer; this step is not one of the events, and
    [own_block_refused] shows what it can do to the client's stream. *)
From S2P Require Import Prelude.
From S2P Require Import External.
From S2P Require Import Toy.
From S2P Require Import Spki.
From S2P Require Import Sql.
From S2P Require Import Certificate.
From S2P Require Import Credential.
From S2P Require Import SecureChain.
From S2P Require Import TrustStore.
From S2P Require Import TransactionStore.
From S2P Require Import Streaming.
From stdpp Require Import relations.
From stdpp Require Import options.

#[local] Open Scope Z_scope.

Section replication.
Context `{X509, CR : Crypto, !Rcgen, !Postcard Block}.

(** ** The pieces of a block's way into the server *)

(** The comparison in [add_and_broadcast], before its query. *)
Definition add_expected (self : ServerTxStore) (transaction : CheckedBlock StoreTransaction) : result ServerTxError () :=
  let expected := wrap_u64 (stx_current self + 1) in
  if negb (block_sequence transaction =? expected) then Err (StxSequenceMismatch expected (block_sequence transaction))
  else Ok ().

(** Its query. *)
Definition add_insert (self : ServerTxStore) (transaction : CheckedBlock StoreTransaction) :
    result ServerTxError ServerTxStore :=
  data ← map_err StxPostcardError (to_stdvec (as_unchecked transaction));
  rows ← map_err StxSqlxError (sql_insert (as_i64 (block_sequence transaction)) data (stx_rows self));
  Ok (mkServerTxStore rows (stx_current self) (stx_receivers self)).

(** What follows the query: the new sequence and the broadcast. *)
Definition add_publish (self : ServerTxStore) (transaction : CheckedBlock StoreTransaction) :
    ServerTxStore * result ServerTxError () :=
  match broadcast_send transaction (stx_receivers self) with
  | None => (mkServerTxStore (stx_rows self) (block_sequence transaction) (stx_receivers self), Err StxBroadcastError)
  | Some receivers => (mkServerTxStore (stx_rows self) (block_sequence transaction) receivers, Ok ())
  end.

(** Without anybody in between they are [add_and_broadcast]. *)
Lemma add_in_pieces self transaction :
  add_and_broadcast self transaction =
  match add_expected self transaction with
  | Err e => (self, Err e)
  | Panic => (self, Panic)
  | Ok _ =>
      match add_insert self transaction with
      | Err e => (self, Err e)
      | Panic => (self, Panic)
      | Ok stored => add_publish stored transaction
      end
  end.
Proof.
  unfold add_and_broadcast, add_expected, add_insert, add_publish. destruct (negb _); [done|].
  destruct (to_stdvec _) as [data|e|]; cbn [map_err mbind result_bind]; [|done|done].
  destruct (sql_insert _ _ _) as [rows|e|]; cbn [map_err mbind result_bind stx_receivers]; [|done|done].
  by destruct (broadcast_send _ _).
Qed.

(** How far the task of a session is with a block. *)
Inductive Writer :=
  | WriterIdle
  | WriterChecked (block : CheckedBlock StoreTransaction)
  | WriterExpected (block : CheckedBlock StoreTransaction)
  | WriterInserted (block : CheckedBlock StoreTransaction)
  | WriterPublished (block : CheckedBlock StoreTransaction).

(** ** The pieces of an update stream *)

(** How far [UpdateTrustStoreHandler::handle] is: subscribed, with the rows of
    its query, emptying its receiver, about to read the digest, and in its
    last loop. *)
Inductive Handling :=
  | Subscribed (request : Z)
  | Queried (request : Z) (transactions : list Block)
  | Draining
  | Drained
  | Forwarding.

(** Which loop of [UpdateTrustStore::dispatch] its node is in. *)
Inductive Dispatching :=
  | CatchingUp
  | Following
  | Stopped (r : result SyncError ()).

Record UpdateStream := mkUpdateStream {
  stream_node : nat;
  handling : Handling;
  stream_wire : list TrustStoreUpdate;
  dispatching : Dispatching;
}.

(** One message that a node reads. *)
Definition dispatch_update (node : Node) (now : Z) (d : Dispatching) (message : TrustStoreUpdate) : Node * Dispatching :=
  match d, message with
  | Stopped r, _ => (node, Stopped r)
  | _, UpdateTransaction block =>
      match apply_block node block now with
      | (node, Ok _) => (node, d)
      | (node, r) => (node, Stopped r)
      end
  | CatchingUp, UpToDate server_digest =>
      if bool_decide (server_digest ≠ ts_digest (node_trust node)) then (node, Stopped (Err WrongDigest))
      else (node, Following)
  | CatchingUp, UpdateClose => (node, Stopped (Err ClosedWhileCatchingUp))
  | Following, UpToDate _ => (node, Stopped (Err AlreadyUpToDate))
  | Following, UpdateClose => (node, Stopped (Ok ()))
  end.

Fixpoint dispatch_updates (node : Node) (now : Z) (d : Dispatching) (messages : list TrustStoreUpdate) : Node * Dispatching :=
  match messages with
  | [] => (node, d)
  | message :: messages => let '(node, d) := dispatch_update node now d message in dispatch_updates node now d messages
  end.

Lemma dispatch_stopped node now r messages : dispatch_updates node now (Stopped r) messages = (node, Stopped r).
Proof. by induction messages. Qed.

(** One after the other they are the two loops of [dispatch]; the connection
    that ends is the only thing missing. *)
Definition stopped_by_end (d : Dispatching) : result SyncError () :=
  match d with Stopped r => r | _ => Err (ReadError ""%string) end.

Lemma live_in_pieces node now messages :
  let '(node', d) := dispatch_updates node now Following messages in
  live node now messages = (node', stopped_by_end d).
Proof.
  revert node. induction messages as [|[block|digest|] messages IH]; intros node; cbn; [done| | |].
  - destruct (apply_block node block now) as [node1 [[]|e|]]; [apply IH| |]; by rewrite dispatch_stopped.
  - by rewrite dispatch_stopped.
  - by rewrite dispatch_stopped.
Qed.

Lemma dispatch_in_pieces node now messages :
  let '(node', d) := dispatch_updates node now CatchingUp messages in
  update_trust_store_dispatch node now messages = (node', stopped_by_end d).
Proof.
  unfold update_trust_store_dispatch.
  revert node. induction messages as [|[block|digest|] messages IH]; intros node; cbn; [done| | |].
  - destruct (apply_block node block now) as [node1 [[]|e|]]; [apply IH| |]; by rewrite dispatch_stopped.
  - case_bool_decide; [by rewrite dispatch_stopped|]. apply live_in_pieces.
  - by rewrite dispatch_stopped.
Qed.

(** ** The world *)
Record ReplicaWorld := mkReplicaWorld {
  w_trust : TrustStore;
  w_store : ServerTxStore;
  w_writers : list Writer;
  w_streams : list UpdateStream;
  w_nodes : list Node;
}.

Inductive Event :=
  | Receives (writer : nat) (block : Block) (now : Z)
  | Compares (writer : nat)
  | Inserts (writer : nat)
  | Publishes (writer : nat)
  | Applies (writer : nat)
  | Opens (node : nat)
  | Queries (stream : nat)
  | Takes (stream : nat)
  | Drains (stream : nat)
  | SendsDigest (stream : nat)
  | Forwards (stream : nat)
  | Delivers (stream : nat) (now : Z)
  | Ends (stream : nat)
  | Enrols (node : nat).

(** The writers: [MessageHandler::handle] of a session, on its block. *)
Definition writer_event (w : ReplicaWorld) (i : nat) (at_work : Writer)
    (trust : TrustStore) (store : ServerTxStore) : ReplicaWorld :=
  mkReplicaWorld trust store (<[ i := at_work ]> (w_writers w)) (w_streams w) (w_nodes w).

Definition receives (w : ReplicaWorld) (i : nat) (block : Block) (now : Z) : option ReplicaWorld :=
  match w_writers w !! i with
  | Some WriterIdle =>
      match ts_check (w_trust w) block now with
      | (trust, Ok block) => Some (writer_event w i (WriterChecked block) trust (w_store w))
      | (trust, _) => Some (writer_event w i WriterIdle trust (w_store w))
      end
  | _ => None
  end.

Definition compares (w : ReplicaWorld) (i : nat) : option ReplicaWorld :=
  match w_writers w !! i with
  | Some (WriterChecked block) =>
      let next := match add_expected (w_store w) block with Ok _ => WriterExpected block | _ => WriterIdle end in
      Some (writer_event w i next (w_trust w) (w_store w))
  | _ => None
  end.

Definition inserts_row (w : ReplicaWorld) (i : nat) : option ReplicaWorld :=
  match w_writers w !! i with
  | Some (WriterExpected block) =>
      match add_insert (w_store w) block with
      | Ok store => Some (writer_event w i (WriterInserted block) (w_trust w) store)
      | _ => Some (writer_event w i WriterIdle (w_trust w) (w_store w))
      end
  | _ => None
  end.

Definition publishes (w : ReplicaWorld) (i : nat) : option ReplicaWorld :=
  match w_writers w !! i with
  | Some (WriterInserted block) =>
      match add_publish (w_store w) block with
      | (store, Ok _) => Some (writer_event w i (WriterPublished block) (w_trust w) store)
      | (store, _) => Some (writer_event w i WriterIdle (w_trust w) store)
      end
  | _ => None
  end.

Definition applies (w : ReplicaWorld) (i : nat) : option ReplicaWorld :=
  match w_writers w !! i with
  | Some (WriterPublished block) =>
      let trust := match ts_apply (E := ()) (w_trust w) block with Ok trust => trust | _ => w_trust w end in
      Some (writer_event w i WriterIdle trust (w_store w))
  | _ => None
  end.

(** The update streams: both sides of the command. *)
Definition dispatches (n : nat) (s : UpdateStream) : bool :=
  Nat.eqb (stream_node s) n && match dispatching s with Stopped _ => false | _ => true end.

Definition set_receivers (store : ServerTxStore) (receivers : list (list Block)) : ServerTxStore :=
  mkServerTxStore (stx_rows store) (stx_current store) receivers.

(** A node asks for what follows its own sequence, and is subscribed. *)
Definition subscribes (w : ReplicaWorld) (n : nat) : option ReplicaWorld :=
  match w_nodes w !! n with
  | Some node =>
      if existsb (dispatches n) (w_streams w) then None
      else
        Some (mkReplicaWorld (w_trust w) (set_receivers (w_store w) (stx_receivers (w_store w) ++ [[]])) (w_writers w)
          (w_streams w ++ [mkUpdateStream n (Subscribed (ts_sequence (node_trust node))) [] CatchingUp]) (w_nodes w))
  | None => None
  end.

(** The handler of a stream goes on: its next phase, what it writes, and what
    is left in its receiver. *)
Definition handler_event (w : ReplicaWorld) (j : nat) (s : UpdateStream) (next : Handling)
    (written : list TrustStoreUpdate) (queue : list Block) : ReplicaWorld :=
  mkReplicaWorld (w_trust w) (set_receivers (w_store w) (<[ j := queue ]> (stx_receivers (w_store w)))) (w_writers w)
    (<[ j := mkUpdateStream (stream_node s) next (stream_wire s ++ written) (dispatching s) ]> (w_streams w)) (w_nodes w).

Definition handler_step (w : ReplicaWorld) (e : Event) (j : nat) : option ReplicaWorld :=
  s ← w_streams w !! j;
  queue ← stx_receivers (w_store w) !! j;
  match e, handling s with
  | Queries _, Subscribed request =>
      match collectM from_bytes (sql_after (as_i64 request) (stx_rows (w_store w))) with
      | Ok transactions => Some (handler_event w j s (Queried request transactions) [] queue)
      | _ => None
      end
  | Takes _, Queried request transactions =>
      let '(transactions, queue) := take_newer request transactions queue in
      Some (handler_event w j s Draining (UpdateTransaction <$> transactions) queue)
  | Drains _, Draining =>
      match queue with
      | [] => Some (handler_event w j s Drained [] [])
      | block :: queue => Some (handler_event w j s Draining [UpdateTransaction block] queue)
      end
  | SendsDigest _, Drained => Some (handler_event w j s Forwarding [UpToDate (ts_digest (w_trust w))] queue)
  | Forwards _, Forwarding =>
      match queue with
      | [] => None
      | block :: queue => Some (handler_event w j s Forwarding [UpdateTransaction block] queue)
      end
  | _, _ => None
  end.

(** A node reads its next message. *)
Definition delivers (w : ReplicaWorld) (j : nat) (now : Z) : option ReplicaWorld :=
  s ← w_streams w !! j;
  node ← w_nodes w !! stream_node s;
  match stream_wire s with
  | [] => None
  | message :: wire =>
      let '(node, d) := dispatch_update node now (dispatching s) message in
      Some (mkReplicaWorld (w_trust w) (w_store w) (w_writers w)
        (<[ j := mkUpdateStream (stream_node s) (handling s) wire d ]> (w_streams w))
        (<[ stream_node s := node ]> (w_nodes w)))
  end.

(** A stream ends on both sides: its receiver is dropped. *)
Definition ends (w : ReplicaWorld) (j : nat) : option ReplicaWorld :=
  if (j <? length (w_streams w))%nat then
    Some (mkReplicaWorld (w_trust w) (set_receivers (w_store w) (delete j (stx_receivers (w_store w)))) (w_writers w)
      (delete j (w_streams w)) (w_nodes w))
  else None.

(** A node as it starts for the first time: the trust store it was given, and
    an empty store of blocks. *)
Definition fresh_node (ts : TrustStore) : Node := mkNode ts (tx_open []).

(** A client enrols an agent, which gets the trust store the client exports
    ([accept_handler.rs], [init_with] of [agent.rs]). *)
Definition enrols (w : ReplicaWorld) (n : nat) : option ReplicaWorld :=
  node ← w_nodes w !! n;
  match ts_import (ts_export (node_trust node)) with
  | Ok ts => Some (mkReplicaWorld (w_trust w) (w_store w) (w_writers w) (w_streams w) (w_nodes w ++ [fresh_node ts]))
  | _ => None
  end.

Definition happens (w : ReplicaWorld) (e : Event) : option ReplicaWorld :=
  match e with
  | Receives i block now => receives w i block now
  | Compares i => compares w i
  | Inserts i => inserts_row w i
  | Publishes i => publishes w i
  | Applies i => applies w i
  | Opens n => subscribes w n
  | Queries j | Takes j | Drains j | SendsDigest j | Forwards j => handler_step w e j
  | Delivers j now => delivers w j now
  | Ends j => ends w j
  | Enrols n => enrols w n
  end.

Fixpoint happen (w : ReplicaWorld) (es : list Event) : option ReplicaWorld :=
  match es with
  | [] => Some w
  | e :: es => w' ← happens w e; happen w' es
  end.

Lemma happen_app w es es' : happen w (es ++ es') = (w' ← happen w es; happen w' es').
Proof.
  revert w. induction es as [|e es IH]; intros w; cbn; [done|].
  destruct (happens w e) as [w'|]; cbn; [apply IH|done].
Qed.

Lemma infallible_any_error {E1 E2 A} (r : result Empty_set A) a : infallible (E := E1) r = Ok a → infallible (E := E2) r = Ok a.
Proof. destruct r as [x|e|]; [|destruct e|]; cbn; [by intros [= ->]|by intros [=]]. Qed.

Lemma ts_apply_any_error {E1 E2} ts cb ts' : ts_apply (E := E1) ts cb = Ok ts' → ts_apply (E := E2) ts cb = Ok ts'.
Proof.
  unfold ts_apply, apply. intros (c & (s & Hs & Hc)%bind_Ok & [= <-])%bind_Ok.
  apply (infallible_any_error (E2 := E2)) in Hs. unfold SecureChain.apply. rewrite Hs. cbn. revert Hc. case_bool_decide; [done|].
  intros [= <-]. by rewrite bool_decide_false by (by intros []).
Qed.

(** A writer that nobody interrupts does what [handle_block] does. *)
Lemma uninterrupted_writer {Mls F} (w : ReplicaWorld) i block now (server server' : SessionServer Mls) :
  w_writers w !! i = Some WriterIdle → trust_store server = w_trust w → transaction_store server = w_store w →
  handle_block (F := F) block now server = (server', Ok false) →
  happen w [Receives i block now; Compares i; Inserts i; Publishes i; Applies i] =
    Some (mkReplicaWorld (trust_store server') (transaction_store server') (w_writers w) (w_streams w) (w_nodes w)).
Proof.
  intros Hi Ht Hs. pose proof (lookup_lt_Some _ _ _ Hi) as Hlt. unfold handle_block. rewrite Ht, Hs. cbn.
  unfold receives. rewrite Hi.
  destruct (ts_check (w_trust w) block now) as [trust [cb|e|]]; [|done|done]. rewrite add_in_pieces.
  destruct (add_expected (w_store w) cb) as [[]|e|] eqn:He; [|done|done].
  destruct (add_insert (w_store w) cb) as [stored|e|] eqn:Hn; [|done|done].
  destruct (add_publish stored cb) as [store r] eqn:Hp. intros Hr.
  destruct r as [[]|e|]; [|done|done].
  destruct (ts_apply trust cb) as [trust'|e|] eqn:Ha; [|done|done]. injection Hr as <-.
  cbn. unfold compares. cbn. rewrite list_lookup_insert_eq by done. rewrite He. cbn.
  unfold inserts_row. cbn. rewrite list_lookup_insert_eq by (by rewrite length_insert). rewrite Hn. cbn.
  unfold publishes. cbn. rewrite list_lookup_insert_eq by (by rewrite !length_insert). rewrite Hp. cbn.
  unfold applies. cbn. rewrite list_lookup_insert_eq by (by rewrite !length_insert).
  rewrite (ts_apply_any_error _ _ _ Ha). unfold writer_event. cbn.
  by rewrite !list_insert_insert_eq, list_insert_id.
Qed.
End replication.

(** ** The log *)
Section log.
Context `{X509, CR : Crypto, !Rcgen, !Postcard Block}.
Context (root : RootCertificate) (base : TrustStore).

(** A trust store takes the block, and comes to the other one, at any clock
    that is not behind the block. *)
Definition follows (ts : TrustStore) (b : Block) (ts' : TrustStore) : Prop :=
  block_sequence b = ts_sequence ts + 1 ∧ ts_sequence ts' = ts_sequence ts + 1 ∧ reachable root ts' ∧
  store_tx_wf (block_transaction b) ∧
  ∀ now, block_time b ≤ now → replay_block now ts b = Ok ts'.

(** The blocks since [base], each with the trust store it leads to. *)
Abbreviation Log := (list (Block * TrustStore)).

Definition replica_state (l : Log) (k : nat) : option TrustStore :=
  match k with O => Some base | S k => snd <$> l !! k end.

Definition log_ok (l : Log) : Prop :=
  ∀ k b ts', l !! k = Some (b, ts') → ∃ ts, replica_state l k = Some ts ∧ follows ts b ts'.

(** The specification: a log, how much of it has been announced, how much of
    it the server has applied, and how much each of the nodes. A block is
    appended only to what the server has applied; a node that is new has what
    one of the others has. *)
Record Replicas := mkReplicas {
  r_log : Log;
  r_announced : nat;
  r_applied : nat;
  r_nodes : list nat;
}.

Inductive spec_step : Replicas → Replicas → Prop :=
  | spec_append l ps b ts ts' :
      replica_state l (length l) = Some ts → follows ts b ts' →
      spec_step (mkReplicas l (length l) (length l) ps) (mkReplicas (l ++ [(b, ts')]) (length l) (length l) ps)
  | spec_announce l k t ps : (k < length l)%nat → spec_step (mkReplicas l k t ps) (mkReplicas l (S k) t ps)
  | spec_apply l k t ps : (t < k)%nat → spec_step (mkReplicas l k t ps) (mkReplicas l k (S t) ps)
  | spec_node l k t ps n p : ps !! n = Some p → (p < length l)%nat →
      spec_step (mkReplicas l k t ps) (mkReplicas l k t (<[ n := S p ]> ps))
  | spec_join l k t ps n p : ps !! n = Some p → spec_step (mkReplicas l k t ps) (mkReplicas l k t (ps ++ [p])).

Lemma replica_state_app l l' k ts : replica_state l k = Some ts → replica_state (l ++ l') k = Some ts.
Proof. destruct k as [|k]; [done|]. cbn. intros ([b t] & Hl & ->)%fmap_Some. by rewrite (lookup_app_l_Some _ _ _ _ Hl). Qed.

Lemma replica_state_last l b ts : replica_state (l ++ [(b, ts)]) (S (length l)) = Some ts.
Proof.
  unfold replica_state.
  by rewrite lookup_app_r, Nat.sub_diag by lia.
Qed.

Lemma log_ok_nil : log_ok [].
Proof. intros k b ts'. by rewrite lookup_nil. Qed.

Lemma log_ok_snoc l b ts ts' : log_ok l → replica_state l (length l) = Some ts → follows ts b ts' → log_ok (l ++ [(b, ts')]).
Proof.
  intros Hl Hts Hf k b1 ts1 [Hk|[Hk E]]%lookup_app_Some.
  - destruct (Hl _ _ _ Hk) as (ts0 & Hs & Hf0). exists ts0. split; [by apply replica_state_app|done].
  - apply list_lookup_singleton_Some in E as [Ek [= <- <-]]. assert (k = length l) as -> by lia.
    exists ts. split; [by apply replica_state_app|done].
Qed.

Lemma log_numbers l k ts : reachable root base → log_ok l → replica_state l k = Some ts →
  ts_sequence ts = ts_sequence base + Z.of_nat k ∧ reachable root ts.
Proof.
  intros Hr Hl. revert ts. induction k as [|k IH]; intros ts; [intros [= <-]; split; [lia|done]|].
  intros ([b t] & Hk & ->)%fmap_Some. destruct (Hl _ _ _ Hk) as (ts0 & Hs & _ & Hq & Hr' & _).
  destruct (IH _ Hs) as [E _]. cbn. split; [lia|done].
Qed.

Lemma log_block l k b ts' : reachable root base → log_ok l → l !! k = Some (b, ts') →
  block_sequence b = ts_sequence base + Z.of_nat k + 1.
Proof.
  intros Hr Hl Hk. destruct (Hl _ _ _ Hk) as (ts0 & Hs & Hb & _). destruct (log_numbers _ _ _ Hr Hl Hs) as [E _]. lia.
Qed.

Lemma replica_state_lt l k ts : replica_state l k = Some ts → (k ≤ length l)%nat.
Proof. destruct k as [|k]; [lia|]. intros (x & Hk & _)%fmap_Some. apply lookup_lt_Some in Hk. lia. Qed.

(** The states of one log differ in their sequence. *)
Lemma log_position l b k p ts' ts : reachable root base → log_ok l → l !! k = Some (b, ts') →
  replica_state l p = Some ts → block_sequence b = ts_sequence ts + 1 → k = p.
Proof.
  intros Hr Hl Hk Hp E. rewrite (log_block _ _ _ _ Hr Hl Hk) in E.
  destruct (log_numbers _ _ _ Hr Hl Hp) as [E' _]. lia.
Qed.

(** *** The rows of the log *)
Lemma filter_all_above {A} (k : Z) (rows : list (Z * A)) : Forall (λ r, k < r.1) rows → filter (λ r, k < r.1) rows = rows.
Proof. induction 1 as [|r rows Hr _ IH]; [done|]. by rewrite filter_cons_True, IH. Qed.

Inductive rows_from : Z → list (Z * list Z) → Log → Prop :=
  | rows_from_nil s : rows_from s [] []
  | rows_from_cons s rows l b ts data :
      to_stdvec b = Ok data → rows_from (s + 1) rows l → rows_from s ((s + 1, data) :: rows) ((b, ts) :: l).

Lemma rows_from_snoc s rows l b ts data :
  rows_from s rows l → to_stdvec b = Ok data →
  rows_from s (rows ++ [(s + Z.of_nat (length l) + 1, data)]) (l ++ [(b, ts)]).
Proof.
  intros Hr Hd. induction Hr as [s|s rows l b0 ts0 d0 Hd0 Hr IH]; cbn.
  - rewrite Z.add_0_r. by constructor; [|constructor].
  - constructor; [done|]. replace (s + Z.of_nat (S (length l)) + 1) with (s + 1 + Z.of_nat (length l) + 1) by lia. done.
Qed.

Lemma rows_from_keys s rows l : rows_from s rows l → Forall (λ r, s < r.1 ≤ s + Z.of_nat (length l)) rows.
Proof.
  induction 1 as [|s rows l b ts d Hd Hr IH]; constructor; cbn; [lia|].
  eapply Forall_impl; [exact IH|]. cbn. lia.
Qed.

Lemma rows_from_present s rows l k : rows_from s rows l → s < k ≤ s + Z.of_nat (length l) → table_ok rows ∧ k ∈ rows.*1.
Proof.
  intros Hr. revert k. induction Hr as [|s rows l b ts d Hd Hr IH]; intros k Hk; [cbn in Hk; lia|]. cbn in Hk.
  assert (table_ok ((s + 1, d) :: rows)) as Hok.
  { constructor.
    - destruct l as [|x l]; [inversion Hr; constructor|]. apply (IH (s + 2)). cbn. lia.
    - eapply Forall_impl; [exact (rows_from_keys _ _ _ Hr)|]. cbn. lia. }
  split; [done|]. cbn. destruct (decide (k = s + 1)) as [->|Hne]; [by left|]. right. apply IH. lia.
Qed.

Lemma rows_from_decode `{!PostcardLaws Block} s rows l row b :
  rows_from s rows l → row ∈ rows → from_bytes row.2 = Ok b → ∃ k ts, l !! k = Some (b, ts).
Proof.
  induction 1 as [|s rows l b0 ts d Hd Hr IH]; [by intros ?%elem_of_nil|].
  intros [->|Hin]%elem_of_cons Hf.
  - cbn in Hf. rewrite (from_to_stdvec _ _ Hd) in Hf. injection Hf as <-. by exists 0%nat, ts.
  - destruct (IH Hin Hf) as (k & ts' & Hk). by exists (S k), ts'.
Qed.

Lemma rows_from_after `{!PostcardLaws Block} s rows l k : rows_from s rows l →
  collectM from_bytes (sql_after (s + Z.of_nat k) rows) = Ok (drop k l.*1).
Proof.
  intros Hr. revert k. induction Hr as [s|s rows l b ts d Hd Hr IH]; intros k; [by destruct k|].
  unfold sql_after in *. destruct k as [|k].
  - rewrite filter_cons_True by (cbn; lia). cbn. rewrite (from_to_stdvec _ _ Hd). cbn.
    specialize (IH 0%nat). rewrite filter_all_above in IH by (eapply Forall_impl; [exact (rows_from_keys _ _ _ Hr)|]; cbn; lia).
    rewrite filter_all_above by (eapply Forall_impl; [exact (rows_from_keys _ _ _ Hr)|]; cbn; lia). by rewrite IH.
  - rewrite filter_cons_False by (cbn; lia). cbn. specialize (IH k).
    replace (s + Z.of_nat (S k)) with (s + 1 + Z.of_nat k) by lia. done.
Qed.
End log.

(** ** Segments of a list *)
Section segments.
Context {A : Type}.
Implicit Types l : list A.

(** The elements from number [a] up to, and without, number [b]. *)
Definition segment l (a b : nat) : list A := take (b - a) (drop a l).

Lemma segment_app l l' a b : (b ≤ length l)%nat → segment (l ++ l') a b = segment l a b.
Proof.
  intros Hb. unfold segment. destruct (decide (a ≤ b)%nat) as [Hab|Hab].
  - rewrite drop_app_le by lia. rewrite take_app_le; [done|]. rewrite length_drop. lia.
  - by replace (b - a)%nat with 0%nat by lia.
Qed.

Lemma segment_nil l a b : (b ≤ a)%nat → segment l a b = [].
Proof. intros Hb. unfold segment. by replace (b - a)%nat with 0%nat by lia. Qed.

Lemma segment_cons l a b x : l !! a = Some x → (a < b)%nat → segment l a b = x :: segment l (S a) b.
Proof.
  intros Hx Hab. unfold segment. rewrite (drop_S _ _ _ Hx). by replace (b - a)%nat with (S (b - S a)) by lia.
Qed.

Lemma segment_snoc l a b x : l !! b = Some x → (a ≤ b)%nat → segment l a (S b) = segment l a b ++ [x].
Proof.
  intros Hx Hab. unfold segment. replace (S b - a)%nat with (S (b - a)) by lia. apply take_S_r.
  rewrite lookup_drop. by replace (a + (b - a))%nat with b by lia.
Qed.

Lemma segment_drop l a : drop a l = segment l a (length l).
Proof. unfold segment. rewrite take_ge; [done|]. rewrite length_drop. lia. Qed.

Lemma segment_inv l a b x q : segment l a b = x :: q → l !! a = Some x ∧ (a < b)%nat ∧ q = segment l (S a) b.
Proof.
  intros E. assert (a < b)%nat as Hab by (apply Nat.nle_gt; intros Hle; by rewrite segment_nil in E).
  destruct (l !! a) as [y|] eqn:Hy.
  - rewrite (segment_cons _ _ _ _ Hy Hab) in E. injection E as -> ->. done.
  - unfold segment in E. apply lookup_ge_None in Hy. by rewrite drop_ge, take_nil in E.
Qed.

Lemma segment_nil_inv l a b : segment l a b = [] → (b ≤ length l)%nat → (b ≤ a)%nat.
Proof.
  intros E Hb. unfold segment in E. apply (f_equal length) in E. rewrite length_take, length_drop in E. cbn in E. lia.
Qed.

Lemma segment_last l a b : (a < b)%nat → (b ≤ length l)%nat → last (segment l a b) = l !! (b - 1)%nat.
Proof.
  intros Hab Hb. destruct b as [|b]; [lia|]. destruct (lookup_lt_is_Some_2 l b ltac:(lia)) as [x Hx].
  rewrite (segment_snoc _ _ _ _ Hx), last_snoc by lia. by replace (S b - 1)%nat with b by lia.
Qed.
End segments.

(** ** Every interleaving implements the log *)
Section refines.
Context `{X509, CR : Crypto, !Rcgen, !Postcard Block, !PostcardLaws Block}.
Context (root : RootCertificate) (base : TrustStore).
Hypothesis root_parsed : parsed root.
Hypothesis base_reachable : reachable root base.
Hypothesis base_sequence : 0 ≤ ts_sequence base.
#[local] Set Default Proof Using "Type*".

#[local] Abbreviation Log := (list (Block * TrustStore)).
#[local] Abbreviation s0 := (ts_sequence base).
#[local] Abbreviation follows := (follows root).
#[local] Abbreviation log_ok := (log_ok root base).
#[local] Abbreviation state := (replica_state base).
#[local] Abbreviation spec_step := (spec_step root base).

Definition logged (l : Log) (b : Block) : Prop := ∃ k ts', l !! k = Some (b, ts').

Lemma logged_app l l' b : logged l b → logged (l ++ l') b.
Proof. intros (k & ts' & Hk). exists k, ts'. by apply lookup_app_l_Some. Qed.

(** A trust store of the log takes the next block, and refuses the others. *)
Lemma replica_check l p ts b now ts1 r :
  log_ok l → state l p = Some ts → logged l b → s0 + Z.of_nat p < 2 ^ 63 - 1 →
  ts_check ts b now = (ts1, r) →
  ts1 = ts ∧ (∀ cb, r = Ok cb → cb = mkCheckedBlock b ∧
    ∃ ts', l !! p = Some (b, ts') ∧ follows ts b ts' ∧ ∀ E, ts_apply (E := E) ts cb = Ok ts').
Proof.
  intros Hl Hp (k & ts' & Hk) Hlt Hc. destruct (log_numbers _ _ _ _ _ base_reachable Hl Hp) as [Hs Hr].
  destruct (Hl _ _ _ Hk) as (ts0 & Hs0 & Hf). pose proof Hf as (Hb & _ & _ & Htx & Hrep).
  assert (ts1 = ts) as -> by (pose proof (ts_check_keeps root _ b now root_parsed Hr Htx) as E; by rewrite Hc in E).
  split; [done|]. intros cb ->. destruct (ts_check_later _ _ _ _ _ Hc) as (-> & Hb' & Ht & _).
  rewrite wrap_u64_small in Hb' by (unfold is_u64; lia). split; [done|].
  pose proof (log_position _ _ _ _ _ _ _ _ base_reachable Hl Hk Hp Hb') as ->.
  rewrite Hp in Hs0. injection Hs0 as <-. exists ts'. split_and!; [done|done|]. intros E.
  specialize (Hrep now Ht). unfold replay_block in Hrep. rewrite Hc in Hrep. cbn in Hrep.
  by apply (ts_apply_any_error _ _ _ Hrep).
Qed.

Lemma replica_apply l p node b now node' r :
  log_ok l → state l p = Some (node_trust node) → logged l b → s0 + Z.of_nat p < 2 ^ 63 - 1 →
  apply_block node b now = (node', r) →
  node_trust node' = node_trust node ∨ (p < length l)%nat ∧ state l (S p) = Some (node_trust node').
Proof.
  intros Hl Hp Hb Hlt Ha. unfold apply_block in Ha.
  destruct (ts_check (node_trust node) b now) as [ts1 r1] eqn:Hc.
  destruct (replica_check _ _ _ _ _ _ _ Hl Hp Hb Hlt Hc) as [-> Hok].
  destruct r1 as [cb|e|]; [|by injection Ha as <- _; left|by injection Ha as <- _; left].
  destruct (Hok cb eq_refl) as (-> & ts' & Hk & _ & Happ).
  destruct (tx_add _ _) as [tx [[]|e|]]; [|by injection Ha as <- _; left|by injection Ha as <- _; left].
  rewrite Happ in Ha. injection Ha as <- _. right. split; [by eapply lookup_lt_Some|]. cbn. by rewrite Hk.
Qed.

(** What a block that a writer holds is. *)
Definition candidate (ts : TrustStore) (t : nat) (cb : CheckedBlock StoreTransaction) : Prop :=
  ∃ b, cb = mkCheckedBlock b ∧ s0 < block_sequence b ≤ s0 + Z.of_nat t + 1 ∧
    (block_sequence b = s0 + Z.of_nat t + 1 → ∃ ts', follows ts b ts').

Definition writer_ok (r : Replicas) (ts : TrustStore) (wr : Writer) : Prop :=
  match wr with
  | WriterIdle => True
  | WriterChecked cb | WriterExpected cb => candidate ts (r_applied r) cb
  | WriterInserted cb =>
      r_announced r = r_applied r ∧ ∃ ts', r_log r !! r_applied r = Some (as_unchecked cb, ts')
  | WriterPublished cb =>
      r_announced r = S (r_applied r) ∧ ∃ ts', r_log r !! r_applied r = Some (as_unchecked cb, ts')
  end.

Definition in_flight (wr : Writer) : bool :=
  match wr with WriterInserted _ | WriterPublished _ => true | _ => false end.
Definition inserted (wr : Writer) : bool := match wr with WriterInserted _ => true | _ => false end.

Definition update_logged (l : Log) (u : TrustStoreUpdate) : Prop :=
  match u with UpdateTransaction b => logged l b | _ => True end.

Definition stream_logged (l : Log) (s : UpdateStream) : Prop :=
  Forall (update_logged l) (stream_wire s) ∧
  match handling s with Queried _ transactions => Forall (logged l) transactions | _ => True end.

Record represents (w : ReplicaWorld) (r : Replicas) : Prop := {
  rep_log : log_ok (r_log r);
  rep_trust : state (r_log r) (r_applied r) = Some (w_trust w);
  rep_rows : rows_from s0 (stx_rows (w_store w)) (r_log r);
  rep_current : stx_current (w_store w) = s0 + Z.of_nat (r_announced r);
  rep_order : (r_applied r ≤ r_announced r ≤ length (r_log r) ∧ length (r_log r) ≤ S (r_applied r))%nat;
  rep_writers : Forall (writer_ok r (w_trust w)) (w_writers w);
  rep_alone : ∀ i j wi wj, w_writers w !! i = Some wi → w_writers w !! j = Some wj →
    in_flight wi = true → in_flight wj = true → i = j;
  rep_inserting : (r_announced r < length (r_log r))%nat → ∃ i wr, w_writers w !! i = Some wr ∧ inserted wr = true;
  rep_nodes : Forall2 (λ node p, state (r_log r) p = Some (node_trust node)) (w_nodes w) (r_nodes r);
  rep_streams : Forall (stream_logged (r_log r)) (w_streams w);
  rep_queues : Forall (Forall (logged (r_log r))) (stx_receivers (w_store w));
  rep_aligned : length (stx_receivers (w_store w)) = length (w_streams w);
}.

(** *** The writers *)

(** A writer changes and nothing else does. *)
Lemma writer_changes w r i wi wr :
  represents w r → w_writers w !! i = Some wi → writer_ok r (w_trust w) wr →
  (in_flight wr = true → in_flight wi = true) → (inserted wi = true → inserted wr = true) →
  represents (writer_event w i wr (w_trust w) (w_store w)) r.
Proof.
  intros [] Hi Hok Hf Hn. constructor; cbn; try done.
  - by apply Forall_insert.
  - intros a b wa wb Ha Hb Hfa Hfb.
    apply list_lookup_insert_Some in Ha as [(<- & <- & _)|[Hne Ha]], Hb as [(<- & <- & _)|[Hne' Hb]];
      [done|eapply rep_alone0; eauto..].
  - intros Hlt. apply rep_inserting0 in Hlt as (k & wk & Hk & Hin).
    destruct (decide (i = k)) as [<-|Hne].
    + exists i, wr. rewrite Hk in Hi. injection Hi as ->. split; [|by apply Hn]. apply list_lookup_insert_eq. by eapply lookup_lt_Some.
    + exists k, wk. by rewrite list_lookup_insert_ne.
Qed.

Lemma represents_receives w r i b now w' :
  represents w r → store_tx_wf (block_transaction b) → s0 + Z.of_nat (length (r_log r)) < 2 ^ 63 - 1 →
  receives w i b now = Some w' → represents w' r.
Proof.
  intros Hrep Htx Hlt. pose proof Hrep as []. unfold receives. destruct (w_writers w !! i) as [[]|] eqn:Hi; try done.
  destruct (log_numbers _ _ _ _ _ base_reachable rep_log0 rep_trust0) as [Hs Hr].
  destruct (ts_check (w_trust w) b now) as [trust r1] eqn:Hc.
  pose proof (ts_check_keeps root _ b now root_parsed Hr Htx) as E. rewrite Hc in E. cbn in E. subst trust.
  destruct r1 as [cb|e|]; intros [= <-]; eapply writer_changes; eauto; cbn; try done.
  destruct (checked_block_applies root _ _ _ _ root_parsed Hr Htx ltac:(lia) Hc) as (-> & Hb & ts' & Ha & Hs' & Hr' & Hrep').
  exists b. split_and!; [done|lia|lia|]. intros _. exists ts'. by split_and!.
Qed.

Lemma represents_compares w r i w' : represents w r → compares w i = Some w' → represents w' r.
Proof.
  intros Hrep. pose proof Hrep as []. unfold compares. destruct (w_writers w !! i) as [[]|] eqn:Hi; try done.
  pose proof (Forall_lookup_1 _ _ _ _ rep_writers0 Hi) as Hw.
  intros [= <-]. destruct (add_expected _ _); eapply writer_changes; eauto; done.
Qed.

Lemma insert_cases w r b :
  represents w r → s0 + Z.of_nat (length (r_log r)) < 2 ^ 63 - 1 →
  s0 < block_sequence b ≤ s0 + Z.of_nat (r_applied r) + 1 →
  match add_insert (w_store w) (mkCheckedBlock b) with
  | Ok store => r_applied r = length (r_log r) ∧ r_announced r = length (r_log r) ∧
      block_sequence b = s0 + Z.of_nat (r_applied r) + 1 ∧
      stx_current store = stx_current (w_store w) ∧ stx_receivers store = stx_receivers (w_store w) ∧
      ∀ ts', rows_from s0 (stx_rows store) (r_log r ++ [(b, ts')])
  | _ => True
  end.
Proof.
  intros [] Hlt Hb. unfold add_insert. cbn [as_unchecked].
  assert (as_i64 (block_sequence b) = block_sequence b) as ->
    by (unfold as_i64; by rewrite (proj2 (Z.ltb_lt _ _)) by lia).
  destruct (to_stdvec b) as [data|e|] eqn:Hd; cbn [map_err mbind result_bind]; [|done|done].
  destruct (decide (block_sequence b ≤ s0 + Z.of_nat (length (r_log r)))) as [Hle|Hgt].
  - destruct (rows_from_present _ _ _ (block_sequence b) rep_rows0) as [Hok Hin]; [lia|].
    by rewrite sql_insert_present.
  - rewrite sql_insert_last by (eapply Forall_impl; [apply (rows_from_keys _ _ _ rep_rows0)|]; cbn; lia).
    cbn. split_and!; try done; [lia|lia|lia|]. intros ts'.
    replace (block_sequence b) with (s0 + Z.of_nat (length (r_log r)) + 1) by lia. by apply rows_from_snoc.
Qed.

Lemma represents_inserts w r i w' :
  represents w r → s0 + Z.of_nat (length (r_log r)) < 2 ^ 63 - 1 → inserts_row w i = Some w' →
  represents w' r ∨ ∃ b ts', r_announced r = length (r_log r) ∧ r_applied r = length (r_log r) ∧
    follows (w_trust w) b ts' ∧
    represents w' (mkReplicas (r_log r ++ [(b, ts')]) (r_announced r) (r_applied r) (r_nodes r)).
Proof.
  intros Hrep Hlt. unfold inserts_row. destruct (w_writers w !! i) as [[|cb|cb|cb|cb]|] eqn:Hi; try done.
  pose proof (Forall_lookup_1 _ _ _ _ (rep_writers _ _ Hrep) Hi) as (b & -> & Hb & Hf).
  pose proof (insert_cases _ _ _ Hrep Hlt Hb) as Hc.
  destruct (add_insert _ _) as [store|e|]; intros [= <-]; [right|left; by eapply writer_changes..].
  destruct Hc as (Ht & Hp & Hs & Hcur & Hrec & Hrows). destruct (Hf Hs) as [ts' Hts']. exists b, ts'.
  split_and!; [done|done|done|]. destruct Hrep as [].
  assert (∀ wr, writer_ok r (w_trust w) wr → in_flight wr = false) as Hnone.
  { intros [] Hw; try done; destruct Hw as (_ & ? & Hw%lookup_lt_Some); lia. }
  assert (∀ k wk, <[ i := WriterInserted (mkCheckedBlock b) ]> (w_writers w) !! k = Some wk → in_flight wk = true → i = k) as Hone.
  { intros k wk [(<- & _)|[_ Hk]]%list_lookup_insert_Some Hfk; [done|].
    rewrite (Hnone _ (Forall_lookup_1 _ _ _ _ rep_writers0 Hk)) in Hfk. done. }
  constructor; cbn.
  - eapply log_ok_snoc; eauto. congruence.
  - by apply replica_state_app.
  - apply Hrows.
  - congruence.
  - rewrite length_app. cbn. lia.
  - apply Forall_insert; [|split; cbn [r_log r_applied r_announced]; [lia|]; exists ts'; by apply list_lookup_middle].
    eapply Forall_impl; [exact rep_writers0|]. intros [] Hw; cbn; try done; specialize (Hnone _ Hw); done.
  - intros k1 k2 w1 w2 H1 H2 Hf1 Hf2. by rewrite <-(Hone _ _ H1 Hf1), <-(Hone _ _ H2 Hf2).
  - intros _. exists i, (WriterInserted (mkCheckedBlock b)). split; [|done]. apply list_lookup_insert_eq. by eapply lookup_lt_Some.
  - eapply Forall2_impl; [exact rep_nodes0|]. intros n p. apply replica_state_app.
  - eapply Forall_impl; [exact rep_streams0|]. intros s [H1 H2]. split.
    + eapply Forall_impl; [exact H1|]. intros [b1| |]; cbn; [apply logged_app|done|done].
    + destruct (handling s); try done. eapply Forall_impl; [exact H2|]. intros b1. apply logged_app.
  - rewrite Hrec. eapply Forall_impl; [exact rep_queues0|]. intros q Hq. eapply Forall_impl; [exact Hq|]. intros b1. apply logged_app.
  - by rewrite Hrec.
Qed.
(** When a block is in flight, the other writers have none. *)
Lemma others_ok w r r' i wi wr ts' :
  represents w r → w_writers w !! i = Some wi → in_flight wi = true →
  (∀ cb, candidate (w_trust w) (r_applied r) cb → candidate ts' (r_applied r') cb) →
  writer_ok r' ts' wr → Forall (writer_ok r' ts') (<[ i := wr ]> (w_writers w)).
Proof.
  intros [] Hi Hf Hc Hok. apply Forall_lookup_2. intros k wk [(<- & <- & _)|[Hne Hk]]%list_lookup_insert_Some; [done|].
  pose proof (Forall_lookup_1 _ _ _ _ rep_writers0 Hk) as Hw.
  destruct wk; cbn in *; try done; try (by apply Hc); by destruct Hne; eapply rep_alone0.
Qed.

Lemma alone_after w r i wi wr :
  represents w r → w_writers w !! i = Some wi → in_flight wi = true →
  ∀ a b wa wb, <[ i := wr ]> (w_writers w) !! a = Some wa → <[ i := wr ]> (w_writers w) !! b = Some wb →
    in_flight wa = true → in_flight wb = true → a = b.
Proof.
  intros [] Hi Hf a b wa wb Ha Hb Hfa Hfb.
  apply list_lookup_insert_Some in Ha as [(<- & <- & _)|[Hne Ha]], Hb as [(<- & <- & _)|[Hne' Hb]]; [done|eapply rep_alone0; eauto..].
Qed.

(** What a log holds is applied without fail. *)
Lemma replica_applies l p ts b ts' :
  log_ok l → state l p = Some ts → l !! p = Some (b, ts') → s0 + Z.of_nat p < 2 ^ 63 - 1 →
  (∀ E, ts_apply (E := E) ts (mkCheckedBlock b) = Ok ts') ∧
  ∀ now, block_time b ≤ now → ts_check ts b now = (ts, Ok (mkCheckedBlock b)).
Proof.
  intros Hl Hp Hk Hlt. destruct (Hl _ _ _ Hk) as (ts0 & Hs0 & (_ & _ & _ & _ & Hrep)). rewrite Hp in Hs0. injection Hs0 as <-.
  assert (∀ now, block_time b ≤ now → ts_check ts b now = (ts, Ok (mkCheckedBlock b)) ∧ ∀ E, ts_apply (E := E) ts (mkCheckedBlock b) = Ok ts') as Hall.
  { intros now Ht. specialize (Hrep now Ht). unfold replay_block in Hrep.
    destruct (ts_check ts b now) as [ts1 r1] eqn:Hc.
    destruct (replica_check _ _ _ _ _ _ _ Hl Hp (ex_intro _ p (ex_intro _ ts' Hk)) Hlt Hc) as [-> Hok].
    destruct r1 as [cb|e|]; [|done|done]. destruct (Hok cb eq_refl) as (-> & ts2 & Hk2 & _ & Happ).
    rewrite Hk in Hk2. injection Hk2 as <-. done. }
  split; [exact (proj2 (Hall (block_time b) ltac:(lia)))|]. intros now Ht. exact (proj1 (Hall now Ht)).
Qed.

Lemma represents_publishes w r i w' :
  represents w r → publishes w i = Some w' →
  (r_announced r < length (r_log r))%nat ∧
  ∃ cb ts', r_log r !! r_announced r = Some (as_unchecked cb, ts') ∧
    stx_receivers (w_store w') = (λ q, q ++ [as_unchecked cb]) <$> stx_receivers (w_store w) ∧
    w_streams w' = w_streams w ∧ w_nodes w' = w_nodes w ∧ w_trust w' = w_trust w ∧
    represents w' (mkReplicas (r_log r) (S (r_announced r)) (r_applied r) (r_nodes r)).
Proof.
  intros Hrep. pose proof Hrep as []. unfold publishes. destruct (w_writers w !! i) as [[|cb|cb|cb|cb]|] eqn:Hi; try done.
  pose proof (Forall_lookup_1 _ _ _ _ rep_writers0 Hi) as (Hp & ts' & Hk).
  pose proof (lookup_lt_Some _ _ _ Hk) as Hlt.
  assert (block_sequence (as_unchecked cb) = s0 + Z.of_nat (S (r_announced r))) as Hs.
  { rewrite (log_block _ _ _ _ _ _ base_reachable rep_log0 Hk). lia. }
  pose proof (alone_after _ _ _ _ (WriterPublished cb) Hrep Hi eq_refl) as Halone.
  pose proof (alone_after _ _ _ _ WriterIdle Hrep Hi eq_refl) as Halone'.
  set (r' := mkReplicas (r_log r) (S (r_announced r)) (r_applied r) (r_nodes r)).
  assert (writer_ok r' (w_trust w) (WriterPublished cb)) as Hok by (split; cbn; [lia|eauto]).
  pose proof (others_ok _ _ r' _ _ _ (w_trust w) Hrep Hi eq_refl (λ _ Hc, Hc) Hok) as Hothers.
  pose proof (others_ok _ _ r' _ _ WriterIdle (w_trust w) Hrep Hi eq_refl (λ _ Hc, Hc) I) as Hothers'.
  assert (Forall (Forall (logged (r_log r))) ((λ q, q ++ [as_unchecked cb]) <$> stx_receivers (w_store w))) as Hqueues.
  { apply Forall_fmap. eapply Forall_impl; [exact rep_queues0|]. intros q' Hq'. cbn. apply Forall_app. split; [done|].
    constructor; [|constructor]. by exists (r_applied r), ts'. }
  intros Hw. split; [lia|]. exists cb, ts'. split; [by rewrite Hp|]. revert Hw. unfold add_publish.
  destruct (stx_receivers (w_store w)) as [|q qs] eqn:Hq; cbn [broadcast_send];
    intros [= <-]; cbn [w_store w_streams w_nodes w_trust writer_event stx_receivers]; fold r';
    (split_and!; [by rewrite ?Hq|done..|]); constructor; cbn [w_store w_streams w_nodes w_trust w_writers writer_event r'
      stx_rows stx_current stx_receivers r_log r_announced r_applied r_nodes]; try done; try lia.
  - rewrite <-rep_aligned0. cbn. by rewrite length_fmap.
Qed.

Lemma represents_applies w r i w' :
  represents w r → s0 + Z.of_nat (length (r_log r)) < 2 ^ 63 - 1 → applies w i = Some w' →
  (r_applied r < r_announced r)%nat ∧ w_store w' = w_store w ∧ w_streams w' = w_streams w ∧ w_nodes w' = w_nodes w ∧
  represents w' (mkReplicas (r_log r) (r_announced r) (S (r_applied r)) (r_nodes r)).
Proof.
  intros Hrep Hlt. pose proof Hrep as []. unfold applies. destruct (w_writers w !! i) as [[|cb|cb|cb|cb]|] eqn:Hi; try done.
  pose proof (Forall_lookup_1 _ _ _ _ rep_writers0 Hi) as (Hp & ts' & Hk).
  pose proof (lookup_lt_Some _ _ _ Hk) as Hlen.
  destruct (replica_applies _ _ _ _ _ rep_log0 rep_trust0 Hk ltac:(lia)) as [Ha _].
  replace (mkCheckedBlock (as_unchecked cb)) with cb in Ha by (by destruct cb). rewrite Ha.
  intros [= <-]. split_and!; [lia|done..|].
  set (r' := mkReplicas (r_log r) (r_announced r) (S (r_applied r)) (r_nodes r)).
  pose proof (alone_after _ _ _ _ WriterIdle Hrep Hi eq_refl) as Halone.
  assert (∀ cb', candidate (w_trust w) (r_applied r) cb' → candidate ts' (r_applied r') cb') as Hcand.
  { intros cb' (b & -> & Hb & _). exists b. cbn. split_and!; [done|lia|lia|]. intros E. lia. }
  pose proof (others_ok _ _ r' _ _ WriterIdle ts' Hrep Hi eq_refl Hcand I) as Hothers.
  constructor; cbn [w_store w_streams w_nodes w_trust w_writers writer_event r' r_log r_announced r_applied r_nodes]; try done; try lia.
  cbn. by rewrite Hk.
Qed.
(** *** The streams *)
Lemma take_newer_Forall (P : Block → Prop) after txs queue :
  Forall P txs → Forall P queue →
  Forall P (take_newer after txs queue).1 ∧ Forall P (take_newer after txs queue).2.
Proof using Type.
  intros Ht Hq. revert txs Ht. induction Hq as [|b queue Hb Hq IH]; intros txs Ht; cbn; [by split; [|constructor]|].
  destruct (_ >? _); cbn; [|by apply IH]. split; [|done]. apply Forall_app. split; [done|]. by constructor; [|constructor].
Qed.

Lemma represents_opens w r n w' : represents w r → subscribes w n = Some w' → represents w' r.
Proof.
  intros [] Ho. unfold subscribes in Ho. destruct (w_nodes w !! n) as [node|]; [|done].
  destruct (existsb _ _); [done|]. injection Ho as <-.
  constructor; cbn; try done.
  - apply Forall_app. split; [done|]. constructor; [|constructor]. by split; [constructor|].
  - apply Forall_app. split; [done|]. by constructor; constructor.
  - rewrite !length_app. cbn. lia.
Qed.

Lemma represents_handler_event w r j s queue next written :
  represents w r → w_streams w !! j = Some s → Forall (logged (r_log r)) queue →
  stream_logged (r_log r) (mkUpdateStream (stream_node s) next (stream_wire s ++ written) (dispatching s)) →
  represents (handler_event w j s next written queue) r.
Proof.
  intros [] Hs Hq Hl. constructor; cbn; try done; [by apply Forall_insert..|by rewrite !length_insert].
Qed.

Lemma query_logged w r k transactions :
  represents w r → collectM from_bytes (sql_after k (stx_rows (w_store w))) = Ok transactions →
  ∀ b, b ∈ transactions → logged (r_log r) b.
Proof.
  intros [] Hc b Hb. apply collectM_Ok in Hc. apply list_elem_of_lookup in Hb as [i Hi].
  destruct (Forall2_lookup_r _ _ _ _ _ Hc Hi) as (d & Hd & Hfrom). unfold sql_after in Hd.
  apply list_lookup_fmap_Some in Hd as (row & -> & Hrow). apply list_elem_of_lookup_2, list_elem_of_filter in Hrow as [_ Hrow].
  by destruct (rows_from_decode _ _ _ _ _ rep_rows0 Hrow Hfrom) as (n & ts & Hn); exists n, ts.
Qed.

Lemma represents_handler w r e j w' : represents w r → handler_step w e j = Some w' → represents w' r.
Proof.
  intros Hrep. unfold handler_step. intros (s & Hs & (queue & Hq & Hw)%bind_Some)%bind_Some.
  pose proof (Forall_lookup_1 _ _ _ _ (rep_streams _ _ Hrep) Hs) as [Hwire Hphase].
  pose proof (Forall_lookup_1 _ _ _ _ (rep_queues _ _ Hrep) Hq) as Hqueue. cbn in Hqueue.
  assert (∀ next written, Forall (update_logged (r_log r)) written →
    match next with Queried _ transactions => Forall (logged (r_log r)) transactions | _ => True end →
    stream_logged (r_log r) (mkUpdateStream (stream_node s) next (stream_wire s ++ written) (dispatching s))) as Hlogged.
  { intros next written Hwr Hn. split; [|done]. cbn. by apply Forall_app. }
  destruct e, (handling s) as [request|request txs| | |] eqn:Hh; try done.
  - destruct (collectM _ _) as [txs|e|] eqn:Hc; [|done|done]. injection Hw as <-.
    apply represents_handler_event; [done..|]. apply Hlogged; [constructor|].
    apply Forall_forall. intros b Hb. apply (query_logged _ _ _ _ Hrep Hc _ Hb).
  - pose proof (take_newer_Forall _ request txs queue Hphase Hqueue) as [H1 H2].
    destruct (take_newer request txs queue) as [txs' rest]. injection Hw as <-.
    apply represents_handler_event; [done..|]. apply Hlogged; [|done]. by apply Forall_fmap.
  - destruct queue as [|b queue]; injection Hw as <-; (apply represents_handler_event; [done|done| |apply Hlogged]); try done.
    + by apply Forall_cons in Hqueue as [_ ?].
    + apply Forall_cons in Hqueue as [? _]. by constructor.
  - injection Hw as <-. apply represents_handler_event; [done..|]. apply Hlogged; [|done]. by constructor.
  - destruct queue as [|b queue]; [done|]. apply Forall_cons in Hqueue as [? ?]. injection Hw as <-.
    apply represents_handler_event; [done..|]. apply Hlogged; [|done]. by constructor.
Qed.

Lemma dispatch_update_cases l p node now d u node' d' :
  log_ok l → state l p = Some (node_trust node) → s0 + Z.of_nat p < 2 ^ 63 - 1 → update_logged l u →
  dispatch_update node now d u = (node', d') →
  node_trust node' = node_trust node ∨ (p < length l)%nat ∧ state l (S p) = Some (node_trust node').
Proof.
  intros Hl Hp Hlt Hu Hd. unfold dispatch_update in Hd.
  destruct d as [| |r]; [| |injection Hd as <- _; by left];
    (destruct u as [b|g|]; [|try case_bool_decide; injection Hd as <- _; by left..]).
  all: destruct (apply_block node b now) as [node1 r1] eqn:Ha;
    pose proof (replica_apply _ _ _ _ _ _ _ Hl Hp Hu Hlt Ha);
    destruct r1; by injection Hd as <- _.
Qed.

(** A world in which a node has read the first message of its stream. *)
Definition delivered (w : ReplicaWorld) (j : nat) (s : UpdateStream) (wire : list TrustStoreUpdate) (node : Node) (d : Dispatching) : ReplicaWorld :=
  mkReplicaWorld (w_trust w) (w_store w) (w_writers w)
    (<[ j := mkUpdateStream (stream_node s) (handling s) wire d ]> (w_streams w)) (<[ stream_node s := node ]> (w_nodes w)).

Definition node_at (r : Replicas) (n p : nat) : Replicas :=
  mkReplicas (r_log r) (r_announced r) (r_applied r) (<[ n := p ]> (r_nodes r)).

Lemma represents_delivered w r j s u wire node d p p' :
  represents w r → w_streams w !! j = Some s → stream_wire s = u :: wire → r_nodes r !! stream_node s = Some p →
  state (r_log r) p' = Some (node_trust node) → represents (delivered w j s wire node d) (node_at r (stream_node s) p').
Proof using Type.
  intros [] Hs Hwr Hp Hst. pose proof (Forall_lookup_1 _ _ _ _ rep_streams0 Hs) as [Hwire Hphase].
  rewrite Hwr in Hwire. apply Forall_cons in Hwire as [_ Hwire].
  constructor; cbn [node_at delivered r_log r_announced r_applied r_nodes w_trust w_store w_writers w_streams w_nodes]; try done.
  - by apply Forall2_insert.
  - apply Forall_insert; [done|by split].
  - by rewrite length_insert.
Qed.

Lemma node_stays r n p : r_nodes r !! n = Some p → node_at r n p = r.
Proof using Type. intros Hp. unfold node_at. rewrite list_insert_id by done. by destruct r. Qed.

Lemma represents_delivers w r j now w' :
  represents w r → s0 + Z.of_nat (length (r_log r)) < 2 ^ 63 - 1 → delivers w j now = Some w' →
  ∃ s p, w_streams w !! j = Some s ∧ r_nodes r !! stream_node s = Some p ∧
    (represents w' r ∨ (p < length (r_log r))%nat ∧ represents w' (node_at r (stream_node s) (S p))).
Proof.
  intros Hrep Hlt. unfold delivers. intros (s & Hs & (node & Hn & Hw)%bind_Some)%bind_Some. pose proof Hrep as [].
  destruct (Forall2_lookup_l _ _ _ _ _ rep_nodes0 Hn) as (p & Hp & Hst). exists s, p. split; [done|]. split; [done|].
  pose proof (Forall_lookup_1 _ _ _ _ rep_streams0 Hs) as [Hwire Hphase].
  destruct (stream_wire s) as [|u wire] eqn:Hwr; [done|]. apply Forall_cons in Hwire as [Hu Hwire].
  destruct (dispatch_update node now (dispatching s) u) as [node' d'] eqn:Hd. injection Hw as <-.
  change (mkReplicaWorld _ _ _ _ _) with (delivered w j s wire node' d').
  pose proof (replica_state_lt _ _ _ _ Hst) as Hple.
  destruct (dispatch_update_cases _ _ _ _ _ _ _ _ rep_log0 Hst ltac:(lia) Hu Hd) as [E|[Hpl E]]; [left|right; split; [done|]].
  - rewrite <-(node_stays r _ _ Hp). eapply represents_delivered; eauto. congruence.
  - by eapply represents_delivered.
Qed.

Lemma represents_ends w r j w' : represents w r → ends w j = Some w' → represents w' r.
Proof.
  intros [] He. unfold ends in He. destruct (j <? _)%nat eqn:Hj; [|done]. injection He as <-. apply Nat.ltb_lt in Hj.
  constructor; cbn; try done; [by apply Forall_delete..|].
  pose proof (lookup_lt_is_Some_2 (w_streams w) j Hj) as [s Hs].
  pose proof (lookup_lt_is_Some_2 (stx_receivers (w_store w)) j ltac:(lia)) as [q Hq].
  rewrite !length_delete by eauto. lia.
Qed.
(** An agent starts where the client that enrolled it is. *)
Lemma enrols_inv w r n w' :
  represents w r → enrols w n = Some w' →
  ∃ node p, w_nodes w !! n = Some node ∧ r_nodes r !! n = Some p ∧ state (r_log r) p = Some (node_trust node) ∧
    w' = mkReplicaWorld (w_trust w) (w_store w) (w_writers w) (w_streams w) (w_nodes w ++ [fresh_node (node_trust node)]).
Proof.
  intros []. unfold enrols. intros (node & Hn & Hw)%bind_Some.
  destruct (Forall2_lookup_l _ _ _ _ _ rep_nodes0 Hn) as (p & Hp & Hst). exists node, p. split_and!; [done..|].
  destruct (log_numbers _ _ _ _ _ base_reachable rep_log0 Hst) as [_ Hr].
  destruct (ts_import _) as [ts| |] eqn:Hi; [|done|done]. injection Hw as <-.
  by rewrite (ts_import_exported root _ _ root_parsed Hr Hi).
Qed.

Lemma represents_enrols w r n w' :
  represents w r → enrols w n = Some w' →
  ∃ p, r_nodes r !! n = Some p ∧ represents w' (mkReplicas (r_log r) (r_announced r) (r_applied r) (r_nodes r ++ [p])).
Proof.
  intros Hrep He. destruct (enrols_inv _ _ _ _ Hrep He) as (node & p & _ & Hp & Hst & ->). exists p. split; [done|].
  destruct Hrep as []. constructor; cbn; try done. apply Forall2_app; [done|]. by constructor.
Qed.

(** *** The theorem *)

(** Certificates in blocks are parsed when they are read. *)
Definition event_wf (e : Event) : Prop :=
  match e with Receives _ b _ => store_tx_wf (block_transaction b) | _ => True end.

Lemma represents_happens w r e w' :
  represents w r → event_wf e → s0 + Z.of_nat (length (r_log r)) < 2 ^ 63 - 1 → happens w e = Some w' →
  ∃ r', represents w' r' ∧ rtc spec_step r r' ∧ (length (r_log r') ≤ S (length (r_log r)))%nat.
Proof.
  intros Hrep Hwf Hlt He.
  assert (represents w' r → ∃ r', represents w' r' ∧ rtc spec_step r r' ∧ (length (r_log r') ≤ S (length (r_log r)))%nat) as Hsame.
  { intros Hr. exists r. split_and!; [done|apply rtc_refl|lia]. }
  destruct e as [i b now|i|i|i|i|n|j|j|j|j|j|j now|j|n]; cbn in He.
  - by apply Hsame; eapply represents_receives.
  - by apply Hsame; eapply represents_compares.
  - destruct (represents_inserts _ _ _ _ Hrep Hlt He) as [|(b & ts' & Ha & Ht & Hf & Hr)]; [by apply Hsame|].
    eexists. split_and!; [exact Hr| |cbn; rewrite length_app; cbn; lia]. apply rtc_once.
    pose proof (rep_trust _ _ Hrep) as Hst. rewrite Ht in Hst. destruct r as [l k t ps]. cbn in *. subst k t.
    by eapply spec_append.
  - destruct (represents_publishes _ _ _ _ Hrep He) as (Hk & _ & _ & _ & _ & _ & _ & _ & Hr).
    eexists. split_and!; [exact Hr| |cbn; lia]. apply rtc_once. destruct r. by apply spec_announce.
  - destruct (represents_applies _ _ _ _ Hrep Hlt He) as (Hk & _ & _ & _ & Hr).
    eexists. split_and!; [exact Hr| |cbn; lia]. apply rtc_once. destruct r. by apply spec_apply.
  - by apply Hsame; eapply represents_opens.
  - by apply Hsame; eapply represents_handler.
  - by apply Hsame; eapply represents_handler.
  - by apply Hsame; eapply represents_handler.
  - by apply Hsame; eapply represents_handler.
  - by apply Hsame; eapply represents_handler.
  - destruct (represents_delivers _ _ _ _ _ Hrep Hlt He) as (s & p & _ & Hp & [Hr|[Hpl Hr]]); [by apply Hsame|].
    eexists. split_and!; [exact Hr| |cbn; lia]. apply rtc_once. destruct r. by apply spec_node.
  - by apply Hsame; eapply represents_ends.
  - destruct (represents_enrols _ _ _ _ Hrep He) as (p & Hp & Hr).
    eexists. split_and!; [exact Hr| |cbn; lia]. apply rtc_once. destruct r. by eapply spec_join.
Qed.

(** The world at the start of a server: the trust store and the table are in
    step, nobody is connected, and the nodes have the trust store too. *)
Definition starting (writers : nat) (nodes : list Node) : ReplicaWorld :=
  mkReplicaWorld base (mkServerTxStore [] s0 []) (replicate writers WriterIdle) [] nodes.

Lemma starting_represents writers nodes :
  Forall (λ node, node_trust node = base) nodes →
  represents (starting writers nodes) (mkReplicas [] 0 0 (replicate (length nodes) 0%nat)).
Proof.
  intros Hn. constructor; cbn; try done; try lia.
  - constructor.
  - apply Forall_replicate. exact I.
  - intros i j wi wj [-> _]%lookup_replicate_1. done.
  - induction Hn as [|node nodes E Hn IH]; cbn; constructor; [by cbn; rewrite E|done].
Qed.

Lemma happen_represents es : ∀ w r w',
  represents w r → Forall event_wf es → s0 + Z.of_nat (length (r_log r) + length es) < 2 ^ 63 - 1 →
  happen w es = Some w' →
  ∃ r', rtc spec_step r r' ∧ represents w' r' ∧ (length (r_log r') ≤ length (r_log r) + length es)%nat.
Proof.
  induction es as [|e es IH]; intros w r w' Hrep Hwf Hlt; cbn.
  - intros [= <-]. exists r. split_and!; [apply rtc_refl|done|lia].
  - apply Forall_cons in Hwf as [He Hes]. intros (w1 & Hw1 & Hw)%bind_Some. cbn in Hlt.
    destruct (represents_happens _ _ _ _ Hrep He ltac:(lia) Hw1) as (r1 & Hr1 & Hs & Hl1).
    destruct (IH _ _ _ Hr1 Hes ltac:(lia) Hw) as (r' & Hs' & Hr' & Hl').
    exists r'. split_and!; [by etransitivity|done|cbn; lia].
Qed.

(** C1: Whatever sessions send and in whatever order the tasks of the server
    and of the nodes get on, the trust stores implement one log: the run is a
    run of the specification, in which blocks are only ever appended, behind
    what the server has applied, and every trust store is the one some
    number of blocks of the log leads to. No interleaving makes two trust
    stores diverge. *)
Theorem replication_refines_log writers nodes es w :
  Forall (λ node, node_trust node = base) nodes → Forall event_wf es → s0 + Z.of_nat (length es) < 2 ^ 63 - 1 →
  happen (starting writers nodes) es = Some w →
  ∃ r, rtc spec_step (mkReplicas [] 0 0 (replicate (length nodes) 0%nat)) r ∧ log_ok (r_log r) ∧
    state (r_log r) (r_applied r) = Some (w_trust w) ∧
    Forall2 (λ node p, state (r_log r) p = Some (node_trust node)) (w_nodes w) (r_nodes r) ∧
    collectM from_bytes (sql_after s0 (stx_rows (w_store w))) = Ok (r_log r).*1.
Proof.
  intros Hn Hwf Hlt Hw.
  destruct (happen_represents es _ _ _ (starting_represents writers nodes Hn) Hwf Hlt Hw) as (r & Hs & [] & _).
  exists r. split_and!; try done. pose proof (rows_from_after _ _ _ 0 rep_rows0) as E. by rewrite Z.add_0_r in E.
Qed.
(** *** Nodes that stay behind *)

(** A store of blocks that was empty at a later snapshot than the first one
    stands at sequence 1 all the same, and takes nothing that follows the
    snapshot ([fresh_store_accepts]). *)
Definition left_behind (node : Node) : Prop :=
  node_tx node = tx_open [] ∧ 1 < ts_sequence (node_trust node).

Definition refused : result SyncError () := Err (AddError TxSequenceMismatch).

Lemma in_step_or_behind node : node_in_step node → ¬ left_behind node.
Proof using Type. intros [Hc _] [Ht Hlt]. rewrite Ht in Hc. change (tx_current (tx_open [])) with 1 in Hc. lia. Qed.

(** A node that is left behind refuses the next block of the log. *)
Lemma left_behind_refuses l p node b ts' now :
  log_ok l → state l p = Some (node_trust node) → l !! p = Some (b, ts') → s0 + Z.of_nat p < 2 ^ 63 - 1 →
  left_behind node → block_time b ≤ now → apply_block node b now = (node, refused).
Proof.
  intros Hl Hp Hk Hlt [Htx Hs] Ht. destruct (replica_applies _ _ _ _ _ Hl Hp Hk Hlt) as [_ Hc].
  destruct (log_numbers _ _ _ _ _ base_reachable Hl Hp) as [Hn _].
  pose proof (log_block _ _ _ _ _ _ base_reachable Hl Hk) as Hb.
  unfold apply_block. rewrite (Hc now Ht). unfold tx_add. cbn [as_unchecked]. rewrite Htx.
  change (tx_current (tx_open [])) with 1. change (wrap_u64 (1 + 1)) with 2.
  rewrite Z.gtb_ltb, (proj2 (Z.ltb_lt 2 (block_sequence b))) by lia. rewrite <-Htx. by destruct node.
Qed.

(** Only messages that arrive change nodes, and only enrolments add some. *)
Lemma nodes_same w e w' :
  happens w e = Some w' →
  match e with Delivers _ _ | Enrols _ => True | _ => w_nodes w' = w_nodes w end.
Proof using Type.
  assert (∀ j, handler_step w e j = Some w' → w_nodes w' = w_nodes w) as Hhandler.
  { intros j. unfold handler_step. intros (s & _ & (q & _ & Hw)%bind_Some)%bind_Some. repeat case_match; by simplify_eq. }
  destruct e; cbn [happens]; try done; try apply Hhandler;
    unfold receives, compares, inserts_row, publishes, applies, subscribes, ends; intros Hw; repeat case_match; by simplify_eq.
Qed.

Lemma nodes_stay w e w' : happens w e = Some w' → (length (w_nodes w) ≤ length (w_nodes w'))%nat.
Proof using Type.
  intros He. pose proof (nodes_same _ _ _ He) as Hs. destruct e; try by rewrite Hs.
  - cbn in He. unfold delivers in He. apply bind_Some in He as (s & _ & (x & _ & He)%bind_Some).
    repeat case_match; simplify_eq. cbn. by rewrite length_insert.
  - cbn in He. unfold enrols in He. apply bind_Some in He as (x & _ & He). case_match; simplify_eq. cbn.
    rewrite length_app. lia.
Qed.

(** Nothing that happens changes a node that is left behind. *)
Lemma left_behind_stays w r e w' n node :
  represents w r → s0 + Z.of_nat (length (r_log r)) < 2 ^ 63 - 1 → happens w e = Some w' →
  w_nodes w !! n = Some node → left_behind node → w_nodes w' !! n = Some node.
Proof.
  intros Hrep Hlt He Hn Hb. pose proof (nodes_same _ _ _ He) as Hs. destruct e; try by rewrite Hs.
  - cbn in He. unfold delivers in He. apply bind_Some in He as (s & Hj & (x & Hx & He)%bind_Some). pose proof Hrep as [].
    destruct (stream_wire s) as [|u wire] eqn:Hwr; [done|].
    destruct (dispatch_update x now (dispatching s) u) as [x' d] eqn:Hd. injection He as <-. cbn.
    destruct (decide (stream_node s = n)) as [<-|Hne]; [|by rewrite list_lookup_insert_ne].
    rewrite Hn in Hx. injection Hx as <-. rewrite list_lookup_insert_eq by (by eapply lookup_lt_Some). f_equal.
    destruct (Forall2_lookup_l _ _ _ _ _ rep_nodes0 Hn) as (p & Hp & Hst).
    pose proof (Forall_lookup_1 _ _ _ _ rep_streams0 Hj) as [Hwire _]. rewrite Hwr in Hwire. apply Forall_cons in Hwire as [Hu _].
    pose proof (replica_state_lt _ _ _ _ Hst) as Hple.
    assert (∀ b, logged (r_log r) b → ∃ res, apply_block node b now = (node, res) ∧ res ≠ Ok ()) as Hrefuse.
    { intros b Hlog. unfold apply_block. destruct (ts_check (node_trust node) b now) as [ts1 r1] eqn:Hc.
      destruct (replica_check _ _ _ _ _ _ _ rep_log0 Hst Hlog ltac:(lia) Hc) as [-> Hok].
      destruct r1 as [cb|e|]; [|by destruct node; eexists..]. destruct (Hok cb eq_refl) as (-> & ts' & Hk & _ & _).
      destruct (left_behind_refuses _ _ _ _ _ (Z.max now (block_time b)) rep_log0 Hst Hk ltac:(lia) Hb ltac:(lia)).
      destruct Hb as [Htx Hs1]. pose proof (log_block _ _ _ _ _ _ base_reachable rep_log0 Hk) as Hbs.
      destruct (log_numbers _ _ _ _ _ base_reachable rep_log0 Hst) as [Hn1 _].
      unfold tx_add. cbn [as_unchecked]. rewrite Htx.
      change (tx_current (tx_open [])) with 1. change (wrap_u64 (1 + 1)) with 2.
      rewrite Z.gtb_ltb, (proj2 (Z.ltb_lt 2 (block_sequence b))) by lia. rewrite <-Htx. destruct node. by eexists. }
    unfold dispatch_update in Hd. destruct (dispatching s) as [| |res]; [| |by injection Hd as <- _];
      (destruct u as [b|g|]; [|try case_bool_decide; by injection Hd as <- _..]);
      destruct (Hrefuse b Hu) as (res & Ha & Hne); rewrite Ha in Hd; destruct res; by injection Hd as <- _.
  - cbn in He. unfold enrols in He. apply bind_Some in He as (x & _ & He). case_match; simplify_eq. cbn.
    by apply lookup_app_l_Some.
Qed.

Lemma left_behind_stays_run es : ∀ w r w' n node,
  represents w r → Forall event_wf es → s0 + Z.of_nat (length (r_log r) + length es) < 2 ^ 63 - 1 → happen w es = Some w' →
  w_nodes w !! n = Some node → left_behind node → w_nodes w' !! n = Some node.
Proof.
  induction es as [|e es IH]; intros w r w' n node Hrep Hwf Hlt; cbn; [by intros [= <-]|].
  apply Forall_cons in Hwf as [He Hes]. intros (w1 & Hw1 & Hw)%bind_Some Hn Hb. cbn in Hlt.
  destruct (represents_happens _ _ _ _ Hrep He ltac:(lia) Hw1) as (r1 & Hr1 & _ & Hl1).
  eapply (IH w1 r1); eauto; [lia|]. by eapply (left_behind_stays w r e); eauto; lia.
Qed.

(** C33: An agent that is enrolled later stays behind for good. Whatever happened before and
    whatever happens then, disturbed or not: an agent that a client enrols
    while the client's trust store has a block beyond the first keeps exactly
    the trust store it was enrolled with, and never stores a block. *)
Theorem enrolled_later_stays_behind writers nodes es es' w w' n node :
  Forall (λ node, node_trust node = base) nodes → Forall event_wf es → Forall event_wf es' →
  s0 + Z.of_nat (length es + S (length es')) < 2 ^ 63 - 1 →
  happen (starting writers nodes) es = Some w → happen w (Enrols n :: es') = Some w' →
  w_nodes w !! n = Some node → 1 < ts_sequence (node_trust node) →
  w_nodes w' !! length (w_nodes w) = Some (mkNode (node_trust node) (tx_open [])).
Proof.
  intros Hnodes Hwf Hwf' Hlt Hw Hw' Hn Hs.
  destruct (happen_represents es _ _ _ (starting_represents writers nodes Hnodes) Hwf ltac:(cbn; lia) Hw) as (r & _ & Hrep & Hl).
  cbn [r_log length] in Hl. cbn [happen happens] in Hw'. apply bind_Some in Hw' as (w1 & He & Hw').
  destruct (represents_happens w r (Enrols n) w1 Hrep I ltac:(lia) He) as (r1 & Hr1 & _ & Hl1).
  destruct (enrols_inv _ _ _ _ Hrep He) as (x & p & Hx & _ & _ & ->). rewrite Hn in Hx. injection Hx as <-.
  eapply (left_behind_stays_run es' _ r1); [done|done|lia|exact Hw'|cbn; by apply list_lookup_middle|by split].
Qed.

(** *** Nodes that keep up

    Three events can leave a node behind: a handler that takes over its rows
    while one of them has not been broadcast yet will send that row again; a
    handler whose receiver is not empty, or whose server has not applied what
    it broadcast, reads a digest that is not that of what it sent; and a
    message that arrives where the clock is behind it is refused. *)
Definition undisturbed (w : ReplicaWorld) (e : Event) : bool :=
  match e with
  | Takes _ => negb (existsb inserted (w_writers w))
  | SendsDigest j =>
      bool_decide (stx_receivers (w_store w) !! j = Some []) && (stx_current (w_store w) =? ts_sequence (w_trust w))
  | Delivers j now =>
      match s ← w_streams w !! j; head (stream_wire s) with
      | Some (UpdateTransaction block) => block_time block <=? now
      | _ => true
      end
  | _ => true
  end.

Fixpoint undisturbed_run (w : ReplicaWorld) (es : list Event) : bool :=
  match es with
  | [] => true
  | e :: es => undisturbed w e && match happens w e with Some w' => undisturbed_run w' es | None => true end
  end.

Lemma undisturbed_run_app w es es' w1 :
  happen w es = Some w1 → undisturbed_run w (es ++ es') = undisturbed_run w es && undisturbed_run w1 es'.
Proof using Type.
  revert w. induction es as [|e es IH]; intros w; cbn; [by intros [= ->]|].
  intros (w2 & -> & Hw)%bind_Some. by rewrite (IH _ Hw), andb_assoc.
Qed.

(** What a stream will still do for its node, which is at [p]. *)
Definition stream_up (l : list Block) (states : nat → option TrustStore) (announced p : nat) (s : UpdateStream)
    (queue : list Block) : Prop :=
  match handling s with
  | Subscribed request =>
      request = s0 + Z.of_nat p ∧ stream_wire s = [] ∧ dispatching s = CatchingUp ∧
      ∃ a, queue = segment l a announced ∧ (a ≤ announced)%nat
  | Queried request transactions =>
      request = s0 + Z.of_nat p ∧ stream_wire s = [] ∧ dispatching s = CatchingUp ∧
      ∃ a m, queue = segment l a announced ∧ transactions = segment l p m ∧ (a ≤ m ≤ length l)%nat ∧ (a ≤ announced)%nat ∧ (p ≤ m)%nat
  | Draining | Drained =>
      dispatching s = CatchingUp ∧ ∃ m, stream_wire s = UpdateTransaction <$> segment l p m ∧
        queue = segment l m announced ∧ (p ≤ m ≤ announced)%nat
  | Forwarding => ∃ m, queue = segment l m announced ∧ (p ≤ m ≤ announced)%nat ∧
      (dispatching s = Following ∧ stream_wire s = UpdateTransaction <$> segment l p m ∨
       dispatching s = CatchingUp ∧ ∃ m1 ts, (p ≤ m1 ≤ m)%nat ∧ states m1 = Some ts ∧
         stream_wire s = (UpdateTransaction <$> segment l p m1) ++ UpToDate (ts_digest ts) :: (UpdateTransaction <$> segment l m1 m))
  end.

Definition going (s : UpdateStream) : Prop := ∀ r, dispatching s ≠ Stopped r.

Definition stopped_behind (nodes : list Node) (s : UpdateStream) : Prop :=
  dispatching s = Stopped refused ∧ ∃ node, nodes !! stream_node s = Some node ∧ left_behind node.

(** The snapshot of the initialisation holds one block ([init.rs]), and the
    first [clients] nodes start from it. *)
Hypothesis base_initial : s0 = 1.
Variable clients : nat.

Record keeps_up (w : ReplicaWorld) (r : Replicas) : Prop := {
  up_steps : ∀ n node, w_nodes w !! n = Some node → node_in_step node ∨ (clients ≤ n)%nat ∧ left_behind node;
  up_once : ∀ i j si sj, w_streams w !! i = Some si → w_streams w !! j = Some sj → going si → going sj →
    stream_node si = stream_node sj → i = j;
  up_streams : ∀ j s, w_streams w !! j = Some s → stopped_behind (w_nodes w) s ∨ ∃ q p,
    stx_receivers (w_store w) !! j = Some q ∧ r_nodes r !! stream_node s = Some p ∧
    stream_up (r_log r).*1 (state (r_log r)) (r_announced r) p s q;
}.

Lemma blocks_lookup (l : Log) k b : l.*1 !! k = Some b → ∃ ts, l !! k = Some (b, ts).
Proof using Type. intros ([b' ts] & -> & Hk)%list_lookup_fmap_Some. by exists ts. Qed.

(** The loop of [load_all_after], on what a receiver gets. *)
Lemma take_newer_segments l p m a announced :
  log_ok l → (a ≤ m ≤ announced)%nat → (announced ≤ length l)%nat → (p ≤ m)%nat →
  ∃ m', (m ≤ m' ≤ announced)%nat ∧
    take_newer (s0 + Z.of_nat p) (segment l.*1 p m) (segment l.*1 a announced) = (segment l.*1 p m', segment l.*1 m' announced).
Proof.
  intros Hl Hm Ha Hp.
  assert (default (s0 + Z.of_nat p) (block_sequence <$> last (segment l.*1 p m)) = s0 + Z.of_nat m) as Hlast.
  { destruct (decide (p = m)) as [->|Hne]; [by rewrite segment_nil by lia|].
    rewrite segment_last by (rewrite ?length_fmap; lia).
    destruct (lookup_lt_is_Some_2 l (m - 1)%nat ltac:(lia)) as [[b ts] Hb].
    rewrite list_lookup_fmap, Hb. cbn. rewrite (log_block _ _ _ _ _ _ base_reachable Hl Hb). lia. }
  remember (announced - a)%nat as n eqn:Hn. revert a Hm Hn. induction n as [|n IH]; intros a Hm Hn.
  - exists m. split; [lia|]. rewrite (segment_nil _ a) by lia. cbn. by rewrite (segment_nil _ m) by lia.
  - destruct (lookup_lt_is_Some_2 l a ltac:(lia)) as [[b ts] Hb].
    rewrite (segment_cons _ a _ b) by (rewrite ?list_lookup_fmap, ?Hb; done || lia). cbn [take_newer].
    rewrite Hlast, (log_block _ _ _ _ _ _ base_reachable Hl Hb), Z.gtb_ltb.
    destruct (Z.ltb_spec (s0 + Z.of_nat m) (s0 + Z.of_nat a + 1)).
    + assert (a = m) as -> by lia. exists (S m). split; [lia|].
      by rewrite (segment_snoc _ p m b) by (rewrite ?list_lookup_fmap, ?Hb; done || lia).
    + apply IH; lia.
Qed.
Lemma keeps_up_same w w' r r' :
  keeps_up w r → w_nodes w' = w_nodes w → w_streams w' = w_streams w →
  stx_receivers (w_store w') = stx_receivers (w_store w) →
  r_log r' = r_log r → r_announced r' = r_announced r → r_nodes r' = r_nodes r → keeps_up w' r'.
Proof using Type.
  intros [] En Es Eq El Ea Er. constructor; rewrite ?En, ?Es, ?Eq, ?El, ?Ea, ?Er; done.
Qed.

Lemma stream_up_append l (l' : Log) announced p s q :
  (announced ≤ length l)%nat → stream_up l.*1 (state l) announced p s q → stream_up (l ++ l').*1 (state (l ++ l')) announced p s q.
Proof using Type.
  intros Ha. unfold stream_up. rewrite fmap_app. pose proof (length_fmap fst l) as Hlen.
  destruct (handling s) as [req|req txs| | |].
  - intros (? & ? & ? & a & -> & ?). split_and!; [done..|]. exists a. by rewrite segment_app by lia.
  - intros (? & ? & ? & a & m & -> & -> & ? & ? & ?). split_and!; [done..|]. exists a, m.
    rewrite !segment_app by lia. rewrite length_app. split_and!; done || lia.
  - intros (? & m & -> & -> & ?). split; [done|]. exists m. by rewrite !segment_app by lia.
  - intros (? & m & -> & -> & ?). split; [done|]. exists m. by rewrite !segment_app by lia.
  - intros (m & -> & ? & [[? ->]|(? & m1 & ts & ? & Hts & ->)]); exists m; (split; [by rewrite segment_app by lia|]);
      (split; [done|]); [left|right].
    + by rewrite segment_app by lia.
    + split; [done|]. exists m1, ts. rewrite !segment_app by lia. split_and!; [lia..|by apply replica_state_app|done].
Qed.

Lemma stream_up_announce l states announced p s q b :
  l !! announced = Some b → stream_up l states announced p s q → stream_up l states (S announced) p s (q ++ [b]).
Proof using Type.
  intros Hb. unfold stream_up. destruct (handling s) as [req|req txs| | |].
  - intros (? & ? & ? & a & -> & ?). split_and!; [done..|]. exists a. rewrite (segment_snoc _ _ _ _ Hb) by lia. split; [done|lia].
  - intros (? & ? & ? & a & m & -> & -> & ? & ? & ?). split_and!; [done..|]. exists a, m.
    rewrite (segment_snoc _ a _ _ Hb) by lia. split_and!; done || lia.
  - intros (? & m & -> & -> & ?). split; [done|]. exists m. rewrite (segment_snoc _ m _ _ Hb) by lia. split_and!; done || lia.
  - intros (? & m & -> & -> & ?). split; [done|]. exists m. rewrite (segment_snoc _ m _ _ Hb) by lia. split_and!; done || lia.
  - intros (m & -> & ? & Hrest). exists m. rewrite (segment_snoc _ m _ _ Hb) by lia. split_and!; [done|lia|lia|done].
Qed.

Lemma keeps_up_inserts w r i w' b ts' :
  represents w r → keeps_up w r → inserts_row w i = Some w' →
  keeps_up w' (mkReplicas (r_log r ++ [(b, ts')]) (r_announced r) (r_applied r) (r_nodes r)).
Proof.
  intros [] [] Hi.
  assert (w_nodes w' = w_nodes w ∧ w_streams w' = w_streams w ∧ stx_receivers (w_store w') = stx_receivers (w_store w)) as (E1 & E2 & E3).
  { unfold inserts_row, add_insert in Hi. destruct (w_writers w !! i) as [[|cb|cb|cb|cb]|]; try done.
    destruct (to_stdvec _) as [data|e|]; cbn in Hi; [|by injection Hi as <-..].
    destruct (sql_insert _ _ _); cbn in Hi; by injection Hi as <-. }
  constructor; rewrite ?E1, ?E2, ?E3; try done. intros j s Hj.
  destruct (up_streams0 j s Hj) as [?|(q & p & Hq & Hp & Hup)]; [by left|right].
  exists q, p. split_and!; [done..|]. apply stream_up_append; [cbn; lia|done].
Qed.

Lemma keeps_up_inserts_nothing w r i w' : keeps_up w r → inserts_row w i = Some w' → keeps_up w' r.
Proof using Type.
  intros Hk Hi. apply (keeps_up_same w _ r); try done;
    unfold inserts_row, add_insert in Hi; destruct (w_writers w !! i) as [[|cb|cb|cb|cb]|]; try done;
    (destruct (to_stdvec _) as [data|e|]; cbn in Hi; [|by injection Hi as <-..]);
    destruct (sql_insert _ _ _); cbn in Hi; by injection Hi as <-.
Qed.

Lemma keeps_up_publishes w r i w' :
  represents w r → keeps_up w r → publishes w i = Some w' →
  keeps_up w' (mkReplicas (r_log r) (S (r_announced r)) (r_applied r) (r_nodes r)).
Proof.
  intros Hrep [] Hi. destruct (represents_publishes _ _ _ _ Hrep Hi) as (_ & cb & ts' & Hk & E3 & E2 & E1 & _ & _).
  constructor; rewrite ?E1, ?E2; try done. intros j s Hj.
  destruct (up_streams0 j s Hj) as [?|(q & p & Hq & Hp & Hup)]; [by left|right].
  exists (q ++ [as_unchecked cb]), p. split_and!; [by rewrite E3, list_lookup_fmap, Hq|done|].
  apply stream_up_announce; [|done]. cbn. by rewrite list_lookup_fmap, Hk.
Qed.

Lemma stream_up_going l states announced p s q : stream_up l states announced p s q → going s.
Proof using Type. unfold stream_up. intros Hs r E. rewrite E in Hs. destruct (handling s); naive_solver. Qed.

Lemma stopped_not_going nodes s : stopped_behind nodes s → ¬ going s.
Proof using Type. intros [E _] Hg. by apply (Hg refused). Qed.

Lemma keeps_up_opens w r n w' : represents w r → keeps_up w r → subscribes w n = Some w' → keeps_up w' r.
Proof.
  intros Hrep [] Ho. pose proof Hrep as []. unfold subscribes in Ho. destruct (w_nodes w !! n) as [node|] eqn:Hn; [|done].
  destruct (existsb _ _) eqn:He; [done|]. injection Ho as <-.
  assert (∀ j s, w_streams w !! j = Some s → going s → stream_node s ≠ n) as Hfree.
  { intros j s Hj Hg En. assert (existsb (dispatches n) (w_streams w) = true) as Hx; [|by rewrite Hx in He].
    apply existsb_exists. exists s. split; [by apply list_elem_of_In, (list_elem_of_lookup_2 _ j)|].
    unfold dispatches. rewrite En, Nat.eqb_refl. cbn. by destruct (dispatching s) as [| |r1] eqn:Hd; [..|destruct (Hg r1)]. }
  destruct (Forall2_lookup_l _ _ _ _ _ rep_nodes0 Hn) as (p & Hp & Hst).
  destruct (log_numbers _ _ _ _ _ base_reachable rep_log0 Hst) as [Hs _].
  constructor; cbn; [done| |].
  - intros i j si sj [Hi|[Hi Ei]]%lookup_app_Some [Hj|[Hj Ej]]%lookup_app_Some Hgi Hgj Hne;
      try (apply list_lookup_singleton_Some in Ei as [Hi' <-]); try (apply list_lookup_singleton_Some in Ej as [Hj' <-]); cbn in Hne.
    + by eapply up_once0.
    + by destruct (Hfree _ _ Hi).
    + by destruct (Hfree _ _ Hj).
    + lia.
  - intros j s [Hj|[Hj Ej]]%lookup_app_Some.
    + destruct (up_streams0 j s Hj) as [?|(q & p' & Hq & Hp' & Hup)]; [by left|right].
      exists q, p'. split_and!; [by apply lookup_app_l_Some|done..].
    + apply list_lookup_singleton_Some in Ej as [Hj' <-]. right. exists [], p. split_and!; [|done|].
      * assert (j = length (stx_receivers (w_store w))) as -> by lia. by apply list_lookup_middle.
      * cbn. split_and!; [done..|]. exists (r_announced r). by rewrite segment_nil.
Qed.
Lemma keeps_up_handler_event w r j s queue next written :
  represents w r → keeps_up w r → w_streams w !! j = Some s →
  stopped_behind (w_nodes w) s ∨ (∃ p, r_nodes r !! stream_node s = Some p ∧
    stream_up (r_log r).*1 (state (r_log r)) (r_announced r) p
      (mkUpdateStream (stream_node s) next (stream_wire s ++ written) (dispatching s)) queue) →
  keeps_up (handler_event w j s next written queue) r.
Proof using Type.
  intros [] [] Hj Hup. pose proof (lookup_lt_Some _ _ _ Hj) as Hlt. constructor; cbn; [done| |].
  - intros a b sa sb Ha Hb Hga Hgb Hne.
    apply list_lookup_insert_Some in Ha as [(<- & <- & _)|[_ Ha]], Hb as [(<- & <- & _)|[_ Hb]]; cbn in Hne; [done|eapply up_once0; eauto..].
  - intros k s' [(<- & <- & _)|[Hne Hk]]%list_lookup_insert_Some.
    + destruct Hup as [?|(p & Hp & Hup)]; [by left|right].
      exists queue, p. split_and!; [|done..]. apply list_lookup_insert_eq. lia.
    + destruct (up_streams0 k s' Hk) as [?|(q' & p' & Hq' & ? & ?)]; [by left|right]. exists q', p'. split_and!; [|done..].
      by rewrite list_lookup_insert_ne.
Qed.

Lemma keeps_up_handler w r e j w' :
  represents w r → keeps_up w r → s0 + Z.of_nat (length (r_log r)) < 2 ^ 63 - 1 → undisturbed w e = true →
  match e with Queries i | Takes i | Drains i | SendsDigest i | Forwards i => i = j | _ => True end →
  handler_step w e j = Some w' → keeps_up w' r.
Proof.
  intros Hrep Hup Hbound Hun Hj. pose proof Hrep as []. pose proof Hup as [].
  unfold handler_step. intros (s & Hs & (queue & Hq & Hw)%bind_Some)%bind_Some.
  destruct (up_streams0 j s Hs) as [Hstop|(q & p & Hq' & Hp & Hst)].
  { assert (∀ next written queue, keeps_up (handler_event w j s next written queue) r) as Hany
      by (intros; apply keeps_up_handler_event; auto).
    destruct e, (handling s); try done; subst; try (destruct (collectM _ _); [|done..]); try destruct (take_newer _ _ _);
      try (destruct queue as [|b queue]); try done; by injection Hw as <-. }
  rewrite Hq in Hq'. injection Hq' as <-.
  pose proof (length_fmap fst (r_log r)) as Hlen.
  assert (p ≤ length (r_log r))%nat as Hple.
  { destruct (Forall2_lookup_r _ _ _ _ _ rep_nodes0 Hp) as (node & _ & Hst'). by apply replica_state_lt in Hst'. }
  unfold stream_up in Hst. destruct e, (handling s) as [request|request txs| | |] eqn:Hh; try done; subst.
  - destruct Hst as (-> & Hwire & Hd & a & -> & Ha).
    assert (as_i64 (s0 + Z.of_nat p) = s0 + Z.of_nat p) as Eas by (unfold as_i64; by rewrite (proj2 (Z.ltb_lt _ _)) by lia).
    rewrite Eas, (rows_from_after _ _ _ _ rep_rows0) in Hw. injection Hw as <-.
    apply keeps_up_handler_event; [done..|]. right. exists p. split; [done|]. unfold stream_up. cbn. rewrite Hwire. split_and!; [done..|].
    exists a, (length (r_log r)). rewrite segment_drop, Hlen. split_and!; done || lia.
  - destruct Hst as (-> & Hwire & Hd & a & m & -> & -> & Hm & Ha & Hpm). cbn in Hun.
    assert (r_announced r = length (r_log r)) as Ea.
    { apply Nat.le_antisymm; [lia|]. apply Nat.nlt_ge. intros Hlt. destruct (rep_inserting0 Hlt) as (i & wr & Hi & Hin).
      apply negb_true_iff in Hun. rewrite (proj2 (existsb_exists _ _)) in Hun; [done|].
      exists wr. split; [by apply list_elem_of_In, (list_elem_of_lookup_2 _ i)|done]. }
    destruct (take_newer_segments (r_log r) p m a (r_announced r)) as (m' & Hm' & E); [done|lia..|].
    rewrite E in Hw. injection Hw as <-.
    apply keeps_up_handler_event; [done..|]. right. exists p. split; [done|]. unfold stream_up. cbn. rewrite Hwire. split; [done|]. exists m'. split_and!; done || lia.
  - destruct Hst as (Hd & m & Hwire & -> & Hm). destruct (segment _ m _) as [|b rest] eqn:Hseg; injection Hw as <-.
    + apply keeps_up_handler_event; [done..|]. right. exists p. split; [done|]. unfold stream_up. cbn. rewrite Hwire, app_nil_r. split; [done|]. exists m. by rewrite Hseg.
    + apply segment_inv in Hseg as (Hb & Hlt & ->).
      apply keeps_up_handler_event; [done..|]. right. exists p. split; [done|]. unfold stream_up. cbn. rewrite Hwire. split; [done|]. exists (S m).
      rewrite (segment_snoc _ _ _ _ Hb), fmap_app by lia. split_and!; done || lia.
  - destruct Hst as (Hd & m & Hwire & -> & Hm). cbn in Hun. apply andb_true_iff in Hun as [Hun%bool_decide_eq_true Hcur%Z.eqb_eq].
    rewrite Hq in Hun. injection Hun as Hnil. pose proof (segment_nil_inv _ _ _ Hnil ltac:(lia)) as Hle.
    assert (m = r_announced r) as Em by lia.
    destruct (log_numbers _ _ _ _ _ base_reachable rep_log0 rep_trust0) as [Ht _].
    assert (r_announced r = r_applied r) as Eap by lia. injection Hw as <-.
    apply keeps_up_handler_event; [done..|]. right. exists p. split; [done|]. unfold stream_up. cbn. exists m. split; [done|]. split; [lia|]. right. split; [done|].
    exists m, (w_trust w). split; [lia|]. split; [by rewrite Em, Eap|]. rewrite Hwire, (segment_nil _ m m) by lia. done.
  - destruct Hst as (m & -> & Hm & Hst). destruct (segment _ m _) as [|b rest] eqn:Hseg; [done|]. injection Hw as <-.
    apply segment_inv in Hseg as (Hb & Hlt & ->).
    apply keeps_up_handler_event; [done..|]. right. exists p. split; [done|]. unfold stream_up. cbn. exists (S m). split; [done|]. split; [lia|].
    destruct Hst as [[Hd Hwire]|(Hd & m1 & ts & Hm1 & Hts & Hwire)]; [left|right].
    + split; [done|]. by rewrite Hwire, (segment_snoc _ _ _ _ Hb), fmap_app by lia.
    + split; [done|]. exists m1, ts. split; [lia|]. split; [done|].
      by rewrite Hwire, (segment_snoc _ m1 _ _ Hb), fmap_app, <-app_assoc by lia.
Qed.

Lemma keeps_up_ends w r j w' : keeps_up w r → ends w j = Some w' → keeps_up w' r.
Proof using Type.
  intros [] He. unfold ends in He. destruct (j <? _)%nat; [|done]. injection He as <-.
  set (at_ := λ i, if (i <? j)%nat then i else S i).
  assert (∀ {A} (l : list A) i, delete j l !! i = l !! at_ i) as Hdel.
  { intros A l i. unfold at_. destruct (Nat.ltb_spec i j); [by rewrite list_lookup_delete_lt|by rewrite list_lookup_delete_ge]. }
  constructor; cbn; [done| |].
  - intros a b sa sb Ha Hb Hga Hgb Hne. rewrite Hdel in Ha, Hb. pose proof (up_once0 _ _ _ _ Ha Hb Hga Hgb Hne) as E.
    unfold at_ in E. destruct (Nat.ltb_spec a j), (Nat.ltb_spec b j); lia.
  - intros k s Hk. rewrite Hdel in Hk. destruct (up_streams0 _ _ Hk) as [?|(q & p & Hq & ? & ?)]; [by left|right].
    exists q, p. split_and!; [by rewrite Hdel|done..].
Qed.
Lemma rows_from_encodes s rows l k b ts : rows_from s rows l → l !! k = Some (b, ts) → ∃ data, to_stdvec b = Ok data.
Proof using Type.
  intros Hr. revert k. induction Hr as [|s rows l b0 ts0 d Hd Hr IH]; intros k; [by rewrite lookup_nil|].
  destruct k as [|k]; cbn; [intros [= -> ->]; by exists d|apply IH].
Qed.

(** A node takes the next block of the log. *)
Lemma node_takes l p node b ts' data now :
  log_ok l → state l p = Some (node_trust node) → l !! p = Some (b, ts') → s0 + Z.of_nat p < 2 ^ 63 - 1 →
  to_stdvec b = Ok data → node_in_step node → block_time b ≤ now →
  ∃ node', apply_block node b now = (node', Ok ()) ∧ node_trust node' = ts' ∧ node_in_step node'.
Proof.
  intros Hl Hp Hk Hlt Hd Hstep Ht. destruct (replica_applies _ _ _ _ _ Hl Hp Hk Hlt) as [Ha Hc].
  destruct (log_numbers _ _ _ _ _ base_reachable Hl Hp) as [Hs _].
  pose proof (log_block _ _ _ _ _ _ base_reachable Hl Hk) as Hb.
  assert (∃ node', apply_block node b now = (node', Ok ()) ∧ node_trust node' = ts') as (node' & Happ & Htr).
  { unfold apply_block. rewrite (Hc now Ht). unfold tx_add. cbn [as_unchecked]. destruct Hstep as [Hcur Hrows].
    rewrite Hcur, wrap_u64_small, Z.gtb_ltb by (unfold is_u64; lia).
    rewrite (proj2 (Z.ltb_ge _ _)), (proj2 (Z.leb_gt _ _)) by lia. rewrite Hd. cbn [map_err mbind result_bind].
    assert (as_i64 (block_sequence b) = block_sequence b) as -> by (unfold as_i64; by rewrite (proj2 (Z.ltb_lt _ _)) by lia).
    rewrite sql_insert_last by (eapply Forall_impl; [exact Hrows|]; cbn; lia). cbn [map_err]. rewrite Ha. by eexists. }
  exists node'. split_and!; [done..|].
  by destruct (apply_block_Ok _ _ _ _ Hstep ltac:(lia) Happ).
Qed.

Lemma keeps_up_delivered w r j s u wire node0 node d p p' :
  keeps_up w r → w_streams w !! j = Some s → stream_wire s = u :: wire → r_nodes r !! stream_node s = Some p →
  w_nodes w !! stream_node s = Some node0 →
  node_in_step node ∨ (clients ≤ stream_node s)%nat ∧ left_behind node → (left_behind node0 → node = node0) →
  going s ∨ p' = p → (∀ res, dispatching s = Stopped res → d = Stopped res) →
  (stopped_behind (<[stream_node s := node]> (w_nodes w)) (mkUpdateStream (stream_node s) (handling s) wire d) ∨
   ∃ q, stx_receivers (w_store w) !! j = Some q ∧
     stream_up (r_log r).*1 (state (r_log r)) (r_announced r) p' (mkUpdateStream (stream_node s) (handling s) wire d) q) →
  keeps_up (delivered w j s wire node d) (node_at r (stream_node s) p').
Proof using Type.
  intros [] Hs Hwr Hp Hn Hstep Hkeep Hgo Hd Hup. pose proof (lookup_lt_Some _ _ _ Hs) as Hj. constructor; cbn.
  - intros n x [(<- & <- & _)|[_ Hx]]%list_lookup_insert_Some; [done|by apply up_steps0].
  - assert (going (mkUpdateStream (stream_node s) (handling s) wire d) → going s) as Hback.
    { intros Hg res E. by apply (Hg res), Hd. }
    intros a b sa sb Ha Hb Hga Hgb Hne.
    apply list_lookup_insert_Some in Ha as [(<- & <- & _)|[_ Ha]], Hb as [(<- & <- & _)|[_ Hb]]; cbn in Hne;
      [done|eapply up_once0; eauto..].
  - intros k s' [(<- & <- & _)|[Hne Hk]]%list_lookup_insert_Some.
    + destruct Hup as [?|(q & Hq & Hup)]; [by left|right]. exists q, p'. split_and!; [done| |done].
      cbn. apply list_lookup_insert_eq. by eapply lookup_lt_Some.
    + destruct (up_streams0 k s' Hk) as [[Hst (x & Hx & Hl)]|(q & p1 & Hq & Hp1 & Hst)]; [left|right].
      * split; [done|]. exists x. split; [|done]. destruct (decide (stream_node s = stream_node s')) as [E|E].
        -- rewrite <-E in Hx |- *. rewrite Hn in Hx. injection Hx as ->. rewrite Hkeep by done.
           apply list_lookup_insert_eq. by eapply lookup_lt_Some.
        -- by rewrite list_lookup_insert_ne.
      * exists q, p1. split_and!; [done| |done]. destruct (decide (stream_node s = stream_node s')) as [E|E].
        -- destruct Hgo as [Hg| ->]; [|rewrite <-E in Hp1 |- *; rewrite list_lookup_insert_eq; [congruence|by eapply lookup_lt_Some]].
           destruct Hne. by eapply up_once0; eauto using stream_up_going.
        -- by rewrite list_lookup_insert_ne.
Qed.
Lemma sent_segment l p m u wire (tail : list TrustStoreUpdate) :
  (UpdateTransaction <$> segment l p m) ++ tail = u :: wire →
  (∃ b, u = UpdateTransaction b ∧ l !! p = Some b ∧ (p < m)%nat ∧ wire = (UpdateTransaction <$> segment l (S p) m) ++ tail) ∨
  (segment l p m = [] ∧ tail = u :: wire).
Proof using Type.
  destruct (segment l p m) as [|b rest] eqn:Hseg; cbn; [by right|]. intros [= <- <-].
  apply segment_inv in Hseg as (Hb & Hlt & ->). left. by exists b.
Qed.

(** The first message of a stream is the next block, or the right digest. *)
Lemma stream_up_reads l states announced p s q u wire :
  (announced ≤ length l)%nat → stream_up l states announced p s q → stream_wire s = u :: wire →
  (∃ b, u = UpdateTransaction b ∧ l !! p = Some b ∧
     stream_up l states announced (S p) (mkUpdateStream (stream_node s) (handling s) wire (dispatching s)) q) ∨
  (∃ ts, u = UpToDate (ts_digest ts) ∧ states p = Some ts ∧ dispatching s = CatchingUp ∧
     stream_up l states announced p (mkUpdateStream (stream_node s) (handling s) wire Following) q).
Proof using Type.
  intros Hlen Hup Hwr. unfold stream_up in *. rewrite Hwr in Hup. cbn [handling stream_wire dispatching].
  destruct (handling s) as [req|req txs| | |].
  - by destruct Hup as (_ & ? & _).
  - by destruct Hup as (_ & ? & _).
  - destruct Hup as (Hd & m & Hw & -> & Hm). left.
    destruct (sent_segment l p m u wire []) as [(b & -> & Hb & Hlt & ->)|[_ ?]]; [by rewrite app_nil_r|exists b|done].
    rewrite app_nil_r. split_and!; [done..|]. exists m. split_and!; done || lia.
  - destruct Hup as (Hd & m & Hw & -> & Hm). left.
    destruct (sent_segment l p m u wire []) as [(b & -> & Hb & Hlt & ->)|[_ ?]]; [by rewrite app_nil_r|exists b|done].
    rewrite app_nil_r. split_and!; [done..|]. exists m. split_and!; done || lia.
  - destruct Hup as (m & -> & Hm & [[Hd Hw]|(Hd & m1 & ts & Hm1 & Hts & Hw)]).
    + left. destruct (sent_segment l p m u wire []) as [(b & -> & Hb & Hlt & ->)|[_ ?]]; [by rewrite app_nil_r|exists b|done].
      rewrite app_nil_r. split_and!; [done..|]. exists m. split_and!; [done|lia|lia|by left].
    + destruct (sent_segment l p m1 u wire _ (eq_sym Hw)) as [(b & -> & Hb & Hlt & ->)|[Hnil [= <- <-]]]; [left|right].
      * exists b. split_and!; [done..|]. exists m. split; [done|]. split; [lia|]. right. split; [done|].
        exists m1, ts. split_and!; done || lia.
      * apply segment_nil_inv in Hnil; [|lia]. assert (p = m1) as <- by lia.
        exists ts. split_and!; [done..|]. exists m. split_and!; [done|lia|lia|by left].
Qed.

Lemma keeps_up_delivers w r j now w' :
  represents w r → keeps_up w r → s0 + Z.of_nat (length (r_log r)) < 2 ^ 63 - 1 →
  undisturbed w (Delivers j now) = true → delivers w j now = Some w' →
  ∃ r', represents w' r' ∧ keeps_up w' r' ∧ r_log r' = r_log r ∧
    ∀ n node, w_nodes w !! n = Some node → node_in_step node → ∃ node', w_nodes w' !! n = Some node' ∧ node_in_step node'.
Proof.
  intros Hrep Hup Hlt Hun. unfold delivers. intros (s & Hs & (node & Hn & Hw)%bind_Some)%bind_Some. cbn in Hun. rewrite Hs in Hun. cbn in Hun.
  pose proof Hrep as []. pose proof Hup as [].
  destruct (stream_wire s) as [|u wire] eqn:Hwr; [done|]. cbn in Hun.
  destruct (dispatch_update node now (dispatching s) u) as [node' d'] eqn:Hd. injection Hw as <-.
  change (mkReplicaWorld _ _ _ _ _) with (delivered w j s wire node' d').
  destruct (Forall2_lookup_l _ _ _ _ _ rep_nodes0 Hn) as (p & Hp & Hts).
  pose proof (up_steps0 _ _ Hn) as Hstep.
  assert ((node_in_step node → node_in_step node') →
    ∀ n x, w_nodes w !! n = Some x → node_in_step x →
      ∃ x', w_nodes (delivered w j s wire node' d') !! n = Some x' ∧ node_in_step x') as Hkept.
  { intros Hk n x Hx Hin. cbn. destruct (decide (stream_node s = n)) as [<-|Hne].
    - exists node'. rewrite Hn in Hx. injection Hx as <-.
      split; [apply list_lookup_insert_eq; by eapply lookup_lt_Some|by apply Hk].
    - exists x. by rewrite list_lookup_insert_ne. }
  destruct (up_streams0 j s Hs) as [[Hst Hb]|(q & p1 & Hq & Hp1 & Hst)].
  { rewrite Hst in Hd. cbn in Hd. injection Hd as <- <-.
    exists (node_at r (stream_node s) p). split_and!; [| |done|by apply Hkept].
    - by eapply represents_delivered.
    - eapply keeps_up_delivered; eauto. { by rewrite Hst. } left. split; [done|]. cbn. by rewrite list_insert_id. }
  rewrite Hp in Hp1. injection Hp1 as <-.
  pose proof (replica_state_lt _ _ _ _ Hts) as Hple. pose proof (stream_up_going _ _ _ _ _ _ Hst) as Hgo.
  assert (∀ res, dispatching s = Stopped res → d' = Stopped res) as Hno by (intros res E; by destruct (Hgo res)).
  assert (r_announced r ≤ length (r_log r).*1)%nat as Hle by (rewrite length_fmap; lia).
  destruct (stream_up_reads _ _ _ _ _ _ _ _ Hle Hst Hwr)
    as [(b & -> & Hb & Hnext)|(ts & -> & Hpos & Hc & Hnext)].
  - apply blocks_lookup in Hb as [ts' Hk]. destruct (rows_from_encodes _ _ _ _ _ _ rep_rows0 Hk) as [data Hdata].
    pose proof (lookup_lt_Some _ _ _ Hk) as Hlen. apply Z.leb_le in Hun.
    destruct Hstep as [Hstep|[Hcl Hbehind]].
    + destruct (node_takes _ _ _ _ _ _ now rep_log0 Hts Hk ltac:(lia) Hdata Hstep Hun) as (node1 & Happ & Htr & Hstep1).
      assert (node' = node1 ∧ d' = dispatching s) as [-> ->].
      { unfold dispatch_update in Hd. rewrite Happ in Hd.
        destruct (dispatching s) as [| |r1] eqn:E; [by injection Hd as <- <-..|by destruct (Hgo r1)]. }
      exists (node_at r (stream_node s) (S p)). split_and!; [| |done|by apply Hkept].
      * eapply represents_delivered; eauto. cbn. by rewrite Hk, Htr.
      * eapply keeps_up_delivered; eauto. intros Hb. by destruct (in_step_or_behind node).
    + pose proof (left_behind_refuses _ _ _ _ _ now rep_log0 Hts Hk ltac:(lia) Hbehind Hun) as Happ.
      assert (node' = node ∧ d' = Stopped refused) as [-> ->].
      { unfold dispatch_update in Hd. rewrite Happ in Hd. unfold refused in Hd.
        destruct (dispatching s) as [| |r1] eqn:E; [by injection Hd as <- <-..|by destruct (Hgo r1)]. }
      exists (node_at r (stream_node s) p). split_and!; [| |done|by apply Hkept].
      * by eapply represents_delivered.
      * eapply keeps_up_delivered; eauto. left. split; [done|]. cbn. exists node. by rewrite list_insert_id.
  - rewrite Hc in Hd. cbn in Hd. rewrite Hts in Hpos. injection Hpos as <-. rewrite bool_decide_false in Hd by (by intros []).
    injection Hd as <- <-. exists (node_at r (stream_node s) p). split_and!; [| |done|by apply Hkept].
    + by eapply represents_delivered.
    + eapply keeps_up_delivered; eauto.
Qed.

Lemma keeps_up_enrols w r n w' p :
  represents w r → keeps_up w r → enrols w n = Some w' → r_nodes r !! n = Some p → (clients ≤ length (w_nodes w))%nat →
  keeps_up w' (mkReplicas (r_log r) (r_announced r) (r_applied r) (r_nodes r ++ [p])).
Proof.
  intros Hrep [] He Hp Hcl. destruct (enrols_inv _ _ _ _ Hrep He) as (node & p' & Hn & Hp' & Hst & ->).
  destruct Hrep as []. destruct (log_numbers _ _ _ _ _ base_reachable rep_log0 Hst) as [Hs _].
  constructor; cbn; [|done|].
  - intros m x [Hx|[Hm Hx]]%lookup_app_Some; [by apply up_steps0|]. apply list_lookup_singleton_Some in Hx as [Hm' <-].
    destruct (decide (ts_sequence (node_trust node) = 1)) as [E|E]; [left|right].
    + split; cbn; [by rewrite E|constructor].
    + split; [lia|]. split; [done|]. cbn. lia.
  - intros j s Hj. destruct (up_streams0 j s Hj) as [(Hd & x & Hx & Hb)|(q & p1 & Hq & Hp1 & Hup)]; [left|right].
    + split; [done|]. exists x. split; [by apply lookup_app_l_Some|done].
    + exists q, p1. split_and!; [done|by apply lookup_app_l_Some|done].
Qed.

Lemma keeps_up_happens w r e w' :
  represents w r → keeps_up w r → (clients ≤ length (w_nodes w))%nat → event_wf e → undisturbed w e = true →
  s0 + Z.of_nat (length (r_log r)) < 2 ^ 63 - 1 → happens w e = Some w' →
  ∃ r', represents w' r' ∧ keeps_up w' r' ∧ (length (r_log r') ≤ S (length (r_log r)))%nat.
Proof.
  intros Hrep Hup Hcl Hwf Hun Hlt He.
  assert (represents w' r → keeps_up w' r → ∃ r', represents w' r' ∧ keeps_up w' r' ∧ (length (r_log r') ≤ S (length (r_log r)))%nat) as Hsame.
  { intros Hr Hk. exists r. split_and!; [done..|lia]. }
  destruct e as [i b now|i|i|i|i|n|j|j|j|j|j|j now|j|n]; cbn [happens] in He.
  - apply Hsame; [by eapply represents_receives|]. apply (keeps_up_same w _ r); try done;
      unfold receives in He; destruct (w_writers w !! i) as [[]|]; try done; destruct (ts_check _ _ _) as [? []]; by injection He as <-.
  - apply Hsame; [by eapply represents_compares|]. apply (keeps_up_same w _ r); try done;
      unfold compares in He; destruct (w_writers w !! i) as [[]|]; try done; by injection He as <-.
  - destruct (represents_inserts _ _ _ _ Hrep Hlt He) as [Hr|(b & ts' & Ha & Ht & Hf & Hr)].
    + apply Hsame; [done|]. by eapply keeps_up_inserts_nothing.
    + eexists. split_and!; [exact Hr|by eapply keeps_up_inserts|cbn; rewrite length_app; cbn; lia].
  - destruct (represents_publishes _ _ _ _ Hrep He) as (Hk & _ & _ & _ & _ & _ & _ & _ & Hr).
    eexists. split_and!; [exact Hr|by eapply keeps_up_publishes|cbn; lia].
  - destruct (represents_applies _ _ _ _ Hrep Hlt He) as (Hk & E1 & E2 & E3 & Hr).
    eexists. split_and!; [exact Hr| |cbn; lia]. eapply keeps_up_same; eauto. by rewrite E1.
  - apply Hsame; [by eapply represents_opens|by eapply keeps_up_opens].
  - apply Hsame; [by eapply represents_handler|by eapply keeps_up_handler].
  - apply Hsame; [by eapply represents_handler|by eapply keeps_up_handler].
  - apply Hsame; [by eapply represents_handler|by eapply keeps_up_handler].
  - apply Hsame; [by eapply represents_handler|by eapply keeps_up_handler].
  - apply Hsame; [by eapply represents_handler|by eapply keeps_up_handler].
  - destruct (keeps_up_delivers _ _ _ _ _ Hrep Hup Hlt Hun He) as (r' & Hr & Hk & El & _). exists r'. rewrite El. split_and!; [done..|lia].
  - apply Hsame; [by eapply represents_ends|by eapply keeps_up_ends].
  - destruct (represents_enrols _ _ _ _ Hrep He) as (p & Hp & Hr).
    eexists. split_and!; [exact Hr|by eapply keeps_up_enrols|cbn; lia].
Qed.

Lemma undisturbed_run_keeps_up es : ∀ w r w',
  represents w r → keeps_up w r → (clients ≤ length (w_nodes w))%nat → Forall event_wf es → undisturbed_run w es = true →
  s0 + Z.of_nat (length (r_log r) + length es) < 2 ^ 63 - 1 → happen w es = Some w' →
  ∃ r', represents w' r' ∧ keeps_up w' r' ∧ (length (r_log r') ≤ length (r_log r) + length es)%nat.
Proof.
  induction es as [|e es IH]; intros w r w' Hrep Hup Hcl Hwf Hun Hlt; cbn.
  - intros [= <-]. exists r. split_and!; [done..|lia].
  - apply Forall_cons in Hwf as [He Hes]. intros (w1 & Hw1 & Hw)%bind_Some. cbn in Hlt, Hun. apply andb_true_iff in Hun as [Hun1 Hun].
    rewrite Hw1 in Hun.
    destruct (keeps_up_happens _ _ _ _ Hrep Hup Hcl He Hun1 ltac:(lia) Hw1) as (r1 & Hr1 & Hk1 & Hl1).
    pose proof (nodes_stay _ _ _ Hw1) as Hn1.
    destruct (IH _ _ _ Hr1 Hk1 ltac:(lia) Hes Hun ltac:(lia) Hw) as (r' & Hr' & Hk' & Hl').
    exists r'. split_and!; [done..|cbn; lia].
Qed.

(** The world in which a server was initialised: [clients] clients have its
    snapshot, some of them from a later login, and an empty store. *)
Definition initialised (writers : nat) : ReplicaWorld := starting writers (replicate clients (fresh_node base)).

Lemma initialised_represents writers : represents (initialised writers) (mkReplicas [] 0 0 (replicate clients 0%nat)).
Proof.
  pose proof (starting_represents writers (replicate clients (fresh_node base))) as Hs. rewrite length_replicate in Hs.
  apply Hs. by apply Forall_replicate.
Qed.

Lemma initialised_keeps_up writers : keeps_up (initialised writers) (mkReplicas [] 0 0 (replicate clients 0%nat)).
Proof.
  constructor; cbn; [|done|done]. intros n node [-> _]%lookup_replicate_1. left. split; cbn; [by rewrite base_initial|constructor].
Qed.

Lemma initialised_run writers es w :
  Forall event_wf es → undisturbed_run (initialised writers) es = true → s0 + Z.of_nat (length es) < 2 ^ 63 - 1 →
  happen (initialised writers) es = Some w →
  ∃ r, represents w r ∧ keeps_up w r ∧ (clients ≤ length (w_nodes w))%nat ∧ (length (r_log r) ≤ length es)%nat.
Proof.
  intros Hwf Hun Hlt Hw. assert (clients ≤ length (w_nodes (initialised writers)))%nat as Hcl by (cbn; by rewrite length_replicate).
  destruct (undisturbed_run_keeps_up es _ _ _ (initialised_represents writers) (initialised_keeps_up writers) Hcl Hwf Hun Hlt Hw)
    as (r & Hr & Hk & Hlen).
  exists r. split_and!; [done..| |done]. clear Hr Hk Hlen Hun Hwf Hlt r. revert Hw Hcl. generalize (initialised writers).
  induction es as [|e es IH]; intros w0; cbn; [by intros [= <-]|]. intros (w1 & Hw1 & Hw)%bind_Some Hcl.
  pose proof (nodes_stay _ _ _ Hw1). eapply IH; [done|lia].
Qed.

Lemma up_to_date w r j s :
  represents w r → keeps_up w r → w_streams w !! j = Some s → handling s = Forwarding → stream_wire s = [] →
  stx_receivers (w_store w) !! j = Some [] → stx_current (w_store w) = ts_sequence (w_trust w) → going s →
  dispatching s = Following ∧ ∃ node, w_nodes w !! stream_node s = Some node ∧ node_trust node = w_trust w.
Proof.
  intros [] [] Hs Hh Hwire Hq Hcur Hgo.
  destruct (up_streams0 j s Hs) as [Hst|(q & p & Hq' & Hp & Hup)]; [by destruct (stopped_not_going _ _ Hst)|].
  rewrite Hq in Hq'. injection Hq' as <-. unfold stream_up in Hup. rewrite Hh, Hwire in Hup.
  destruct (log_numbers _ _ _ _ _ base_reachable rep_log0 rep_trust0) as [Ht _].
  destruct Hup as (m & Hnil & Hm & [[Hd Hw]|(_ & m1 & ts & _ & _ & Hw)]); [split; [done|]|].
  - pose proof (length_fmap fst (r_log r)) as Hlen. symmetry in Hnil, Hw.
    apply fmap_nil_inv in Hw. apply segment_nil_inv in Hnil; [|lia]. apply segment_nil_inv in Hw; [|lia].
    assert (p = r_applied r) as -> by lia.
    destruct (Forall2_lookup_r _ _ _ _ _ rep_nodes0 Hp) as (node & Hn & Hst). exists node. split; [done|]. congruence.
  - by destruct (segment _ p m1).
Qed.

(** C6: What keeps nodes up to date, from the initialisation on. In a run in
    which none of the three disturbing events happens (a handler that takes
    over its rows while one of them is not broadcast, one that reads the digest
    while something is still to come, a clock that is behind a block), whatever
    else happens, in whatever order: the nodes that start from the snapshot of
    the initialisation never refuse what they are sent; the only nodes that do
    are agents that were enrolled later, with a trust store that has a further
    block, and what stops them is their empty store of blocks. A node whose
    command goes on has the server's trust store whenever nothing is left to be
    sent to it and the server is done with what it broadcast. *)
Theorem followers_keep_up writers es w j s node :
  Forall event_wf es → s0 + Z.of_nat (length es) < 2 ^ 63 - 1 →
  undisturbed_run (initialised writers) es = true → happen (initialised writers) es = Some w →
  w_streams w !! j = Some s → w_nodes w !! stream_node s = Some node →
  (∀ r, dispatching s = Stopped r →
     r = Err (AddError TxSequenceMismatch) ∧ left_behind node ∧ (clients ≤ stream_node s)%nat) ∧
  (going s → handling s = Forwarding → stream_wire s = [] → stx_receivers (w_store w) !! j = Some [] →
   stx_current (w_store w) = ts_sequence (w_trust w) → node_trust node = w_trust w).
Proof.
  intros Hwf Hlt Hun Hw Hs Hn. destruct (initialised_run _ _ _ Hwf Hun Hlt Hw) as (r & Hrep & Hup & _). split.
  - intros res Hres. destruct (up_streams _ _ Hup _ _ Hs) as [(Hd & x & Hx & Hb)|(q & p & _ & _ & Hst)].
    + rewrite Hn in Hx. injection Hx as <-. rewrite Hres in Hd. injection Hd as ->. split_and!; [done..|].
      destruct (up_steps _ _ Hup _ _ Hn) as [Hin|[? _]]; [by destruct (in_step_or_behind node)|done].
    + by destruct (stream_up_going _ _ _ _ _ _ Hst res).
  - intros Hgo Hh Hwire Hq Hcur. destruct (up_to_date _ _ _ _ Hrep Hup Hs Hh Hwire Hq Hcur Hgo) as (_ & x & Hx & E).
    rewrite Hn in Hx. by injection Hx as ->.
Qed.

(** *** A node that connects catches up *)
Definition settled (w : ReplicaWorld) : Prop :=
  Forall (λ wr, in_flight wr = false) (w_writers w) ∧ stx_current (w_store w) = ts_sequence (w_trust w).

Lemma settled_announced w r : represents w r → settled w → r_announced r = r_applied r ∧ r_announced r = length (r_log r).
Proof.
  intros [] [Hf Hcur]. destruct (log_numbers _ _ _ _ _ base_reachable rep_log0 rep_trust0) as [Ht _]. split; [lia|].
  apply Nat.le_antisymm; [lia|]. apply Nat.nlt_ge. intros Hlt. destruct (rep_inserting0 Hlt) as (i & wr & Hi & Hin).
  pose proof (Forall_lookup_1 _ _ _ _ Hf Hi) as Hn. by destruct wr.
Qed.

Definition clock_ahead (w : ReplicaWorld) (now : Z) : Prop :=
  ∀ row b, row ∈ stx_rows (w_store w) → from_bytes row.2 = Ok b → block_time b ≤ now.

Lemma logged_time s rows l k b ts now :
  rows_from s rows l → (∀ row b', row ∈ rows → from_bytes row.2 = Ok b' → block_time b' ≤ now) → l !! k = Some (b, ts) → block_time b ≤ now.
Proof using PostcardLaws0.
  intros Hr. revert k. induction Hr as [|s rows l b0 ts0 d Hd Hr IH]; intros k Hall Hk; [by rewrite lookup_nil in Hk|].
  destruct k as [|k]; cbn in Hk.
  - injection Hk as <- <-. apply (Hall (s + 1, d)); [by left|]. by apply from_to_stdvec.
  - apply (IH k); [|done]. intros row b' Hin. apply Hall. by right.
Qed.

Lemma delivers_all now k : ∀ w r j s node,
  represents w r → keeps_up w r → s0 + Z.of_nat (length (r_log r)) < 2 ^ 63 - 1 → clock_ahead w now →
  w_streams w !! j = Some s → length (stream_wire s) = k → w_nodes w !! stream_node s = Some node → node_in_step node →
  ∃ w' r' s', undisturbed_run w (replicate k (Delivers j now)) = true ∧ happen w (replicate k (Delivers j now)) = Some w' ∧
    represents w' r' ∧ keeps_up w' r' ∧ w_trust w' = w_trust w ∧ w_store w' = w_store w ∧
    w_streams w' !! j = Some s' ∧ stream_wire s' = [] ∧ handling s' = handling s ∧ stream_node s' = stream_node s ∧
    ∃ node', w_nodes w' !! stream_node s = Some node' ∧ node_in_step node'.
Proof.
  induction k as [|k IH]; intros w r j s node Hrep Hup Hlt Hclock Hs Hk Hn Hin.
  - exists w, r, s. apply nil_length_inv in Hk. split_and!; try done. by exists node.
  - destruct (stream_wire s) as [|u wire] eqn:Hwr; [done|]. injection Hk as Hk.
    pose proof Hrep as [].
    destruct (dispatch_update node now (dispatching s) u) as [node' d'] eqn:Hd.
    assert (delivers w j now = Some (delivered w j s wire node' d')) as Hdel.
    { unfold delivers. rewrite Hs. cbn. rewrite Hn. cbn. by rewrite Hwr, Hd. }
    assert (undisturbed w (Delivers j now) = true) as Hun.
    { cbn. rewrite Hs. cbn. rewrite Hwr. cbn. destruct u as [b| |]; [|done..]. apply Z.leb_le.
      pose proof (Forall_lookup_1 _ _ _ _ rep_streams0 Hs) as [Hl _]. rewrite Hwr in Hl. apply Forall_cons in Hl as [(n & ts & Hb) _].
      by eapply logged_time. }
    destruct (keeps_up_delivers _ _ _ _ _ Hrep Hup Hlt Hun Hdel) as (r1 & Hr1 & Hk1 & El & Hkept).
    destruct (Hkept _ _ Hn Hin) as (node1 & Hn1 & Hin1).
    destruct (IH (delivered w j s wire node' d') r1 j (mkUpdateStream (stream_node s) (handling s) wire d') node1)
      as (w' & r' & s' & Hu & Hh & Hr' & Hk' & Ht & Hst' & Hs' & Hw' & Hha & Hno & Hn'); [done|done|by rewrite El|done| |done|done|done|].
    { cbn. apply list_lookup_insert_eq. by eapply lookup_lt_Some. }
    exists w', r', s'. cbn [replicate undisturbed_run happen]. rewrite Hun. cbn [happens andb]. rewrite Hdel. cbn [mbind option_bind].
    split_and!; done.
Qed.
Definition with_stream (w : ReplicaWorld) (s : UpdateStream) (queue : list Block) : ReplicaWorld :=
  mkReplicaWorld (w_trust w) (set_receivers (w_store w) (stx_receivers (w_store w) ++ [queue])) (w_writers w) (w_streams w ++ [s]) (w_nodes w).

Lemma insert_last {A} (l : list A) x y : <[ length l := y ]> (l ++ [x]) = l ++ [y].
Proof using Type. rewrite <-(Nat.add_0_r (length l)) at 1. by rewrite insert_app_r. Qed.

Lemma insert_last_lookup {A} (l : list A) x y : <[ length l := y ]> (l ++ [x]) !! length l = Some y.
Proof using Type. rewrite insert_last. by apply list_lookup_middle. Qed.

Lemma handler_event_last w s queue next written queue' :
  length (stx_receivers (w_store w)) = length (w_streams w) →
  handler_event (with_stream w s queue) (length (w_streams w)) s next written queue' =
  with_stream w (mkUpdateStream (stream_node s) next (stream_wire s ++ written) (dispatching s)) queue'.
Proof using Type.
  intros E. unfold handler_event, with_stream. cbn. rewrite insert_last, <-E, insert_last. done.
Qed.

Lemma handler_step_last w s queue e :
  length (stx_receivers (w_store w)) = length (w_streams w) →
  handler_step (with_stream w s queue) e (length (w_streams w)) =
  match e, handling s with
  | Queries _, Subscribed request =>
      match collectM from_bytes (sql_after (as_i64 request) (stx_rows (w_store w))) with
      | Ok transactions => Some (with_stream w (mkUpdateStream (stream_node s) (Queried request transactions) (stream_wire s ++ []) (dispatching s)) queue)
      | _ => None
      end
  | Takes _, Queried request transactions =>
      let '(transactions, queue) := take_newer request transactions queue in
      Some (with_stream w (mkUpdateStream (stream_node s) Draining (stream_wire s ++ (UpdateTransaction <$> transactions)) (dispatching s)) queue)
  | Drains _, Draining =>
      match queue with
      | [] => Some (with_stream w (mkUpdateStream (stream_node s) Drained (stream_wire s ++ []) (dispatching s)) [])
      | block :: queue => Some (with_stream w (mkUpdateStream (stream_node s) Draining (stream_wire s ++ [UpdateTransaction block]) (dispatching s)) queue)
      end
  | SendsDigest _, Drained =>
      Some (with_stream w (mkUpdateStream (stream_node s) Forwarding (stream_wire s ++ [UpToDate (ts_digest (w_trust w))]) (dispatching s)) queue)
  | Forwards _, Forwarding =>
      match queue with
      | [] => None
      | block :: queue => Some (with_stream w (mkUpdateStream (stream_node s) Forwarding (stream_wire s ++ [UpdateTransaction block]) (dispatching s)) queue)
      end
  | _, _ => None
  end.
Proof using Type.
  intros E. unfold handler_step. cbn [with_stream w_streams w_store w_trust set_receivers stx_rows stx_receivers].
  rewrite list_lookup_middle by done. cbn [mbind option_bind]. rewrite list_lookup_middle by done. cbn [mbind option_bind].
  fold (with_stream w s queue).
  destruct e, (handling s) as [req|req txs| | |]; try done.
  - destruct (collectM _ _); try done. by rewrite handler_event_last.
  - destruct (take_newer _ _ _). by rewrite handler_event_last.
  - destruct queue; by rewrite handler_event_last.
  - by rewrite handler_event_last.
  - destruct queue; [done|]. by rewrite handler_event_last.
Qed.

Definition catching_up (n j k : nat) (now : Z) : list Event :=
  [Opens n; Queries j; Takes j; Drains j; SendsDigest j] ++ replicate k (Delivers j now).
(** The handler of a new stream, in a settled world, up to the digest. *)
Lemma catching_up_sent w r n node p :
  represents w r → settled w → s0 + Z.of_nat (length (r_log r)) < 2 ^ 63 - 1 →
  w_nodes w !! n = Some node → r_nodes r !! n = Some p → existsb (dispatches n) (w_streams w) = false →
  let es := [Opens n; Queries (length (w_streams w)); Takes (length (w_streams w)); Drains (length (w_streams w));
    SendsDigest (length (w_streams w))] in
  let wire := (UpdateTransaction <$> drop p (r_log r).*1) ++ [UpToDate (ts_digest (w_trust w))] in
  happen w es = Some (with_stream w (mkUpdateStream n Forwarding wire CatchingUp) []) ∧ undisturbed_run w es = true.
Proof.
  intros Hrep Hset Hlt Hn Hp Hfree. destruct (settled_announced _ _ Hrep Hset) as [Ea El]. pose proof Hrep as [].
  pose proof (Forall2_lookup_lr _ _ _ _ _ _ rep_nodes0 Hn Hp) as Hst. cbn in Hst.
  destruct (log_numbers _ _ _ _ _ base_reachable rep_log0 Hst) as [Hs _]. pose proof (replica_state_lt _ _ _ _ Hst) as Hple.
  set (j := length (w_streams w)). set (txs := drop p (r_log r).*1).
  set (at_ := λ h wire, with_stream w (mkUpdateStream n h wire CatchingUp) []).
  assert (subscribes w n = Some (at_ (Subscribed (ts_sequence (node_trust node))) [])) as E1.
  { unfold subscribes. by rewrite Hn, Hfree. }
  assert (handler_step (at_ (Subscribed (ts_sequence (node_trust node))) []) (Queries j) j = Some (at_ (Queried (ts_sequence (node_trust node)) txs) [])) as E2.
  { unfold at_, j. rewrite handler_step_last by done. cbn [handling].
    assert (as_i64 (ts_sequence (node_trust node)) = s0 + Z.of_nat p) as -> by (unfold as_i64; rewrite (proj2 (Z.ltb_lt _ _)) by lia; done).
    by rewrite (rows_from_after _ _ _ _ rep_rows0). }
  assert (handler_step (at_ (Queried (ts_sequence (node_trust node)) txs) []) (Takes j) j = Some (at_ Draining (UpdateTransaction <$> txs))) as E3.
  { unfold at_, j. by rewrite handler_step_last. }
  assert (handler_step (at_ Draining (UpdateTransaction <$> txs)) (Drains j) j = Some (at_ Drained (UpdateTransaction <$> txs))) as E4.
  { unfold at_, j. rewrite handler_step_last by done. cbn. by rewrite app_nil_r. }
  assert (handler_step (at_ Drained (UpdateTransaction <$> txs)) (SendsDigest j) j =
    Some (at_ Forwarding ((UpdateTransaction <$> txs) ++ [UpToDate (ts_digest (w_trust w))]))) as E5.
  { unfold at_, j. by rewrite handler_step_last. }
  cbn zeta. fold j txs. cbn [happen undisturbed_run happens]. rewrite E1. cbn [mbind option_bind].
  rewrite E2. cbn [mbind option_bind]. rewrite E3. cbn [mbind option_bind]. rewrite E4. cbn [mbind option_bind]. rewrite E5. cbn [mbind option_bind].
  split; [done|]. cbn [undisturbed andb]. unfold at_. cbn [with_stream w_writers w_store w_trust set_receivers stx_receivers stx_current].
  destruct Hset as [Hf Hcur]. rewrite list_lookup_middle, bool_decide_true, Hcur, Z.eqb_refl by done. rewrite !andb_true_r.
  apply negb_true_iff, not_true_iff_false. intros (wr & Hin%list_elem_of_In & Hi)%existsb_exists.
  apply (proj1 (Forall_forall _ _) Hf) in Hin. by destruct wr.
Qed.

(** The stream of a node that is in step, to its end. *)
Lemma catches_up w r n node p now :
  represents w r → keeps_up w r → (clients ≤ length (w_nodes w))%nat → s0 + Z.of_nat (length (r_log r) + 5) < 2 ^ 63 - 1 →
  settled w → clock_ahead w now → w_nodes w !! n = Some node → r_nodes r !! n = Some p → node_in_step node →
  existsb (dispatches n) (w_streams w) = false →
  ∃ k w' s node', let j := length (w_streams w) in
    happen w (catching_up n j k now) = Some w' ∧ undisturbed_run w (catching_up n j k now) = true ∧
    w_trust w' = w_trust w ∧ w_nodes w' !! n = Some node' ∧ node_trust node' = w_trust w ∧
    w_streams w' !! j = Some s ∧ dispatching s = Following.
Proof.
  intros Hrep Hup Hcl Hlt Hset Hclock Hnode Hp Hin Hfree.
  destruct (catching_up_sent w r n node p Hrep Hset ltac:(lia) Hnode Hp Hfree) as [Hsent Hsu].
  set (j := length (w_streams w)) in *. set (es5 := [_; _; _; _; _]) in *. set (wire := _ ++ _) in *.
  set (s5 := mkUpdateStream n Forwarding wire CatchingUp) in *.
  assert (Forall event_wf es5) as Hwf5 by (repeat constructor).
  destruct (undisturbed_run_keeps_up es5 _ _ _ Hrep Hup Hcl Hwf5 Hsu ltac:(cbn; lia) Hsent) as (r5 & Hrep5 & Hup5 & Hlen5).
  change (length es5) with 5%nat in Hlen5.
  assert (w_streams (with_stream w s5 []) !! j = Some s5) as Hs5 by (cbn; by apply list_lookup_middle).
  destruct (delivers_all now (length wire) _ _ j s5 node Hrep5 Hup5)
    as (w' & r' & s' & Hu & Hh & Hr' & Hk' & Ht & Hst & Hs' & Hwire & Hha & Hno & node1 & Hn1 & Hin1);
    [lia|done|done|done|done|done|].
  assert (stx_receivers (w_store w') !! j = Some []) as Hq.
  { rewrite Hst. cbn. apply list_lookup_middle. symmetry. apply (rep_aligned _ _ Hrep). }
  assert (going s') as Hgo.
  { destruct (up_streams _ _ Hk' _ _ Hs') as [(_ & x & Hx & Hb)|(q & p' & _ & _ & Hst')]; [|by eapply stream_up_going].
    rewrite Hno in Hx. cbn in Hx, Hn1. rewrite Hn1 in Hx. injection Hx as <-. by destruct (in_step_or_behind node1). }
  destruct (up_to_date w' r' j s' Hr' Hk' Hs' Hha Hwire Hq) as (Hfol & node' & Hnode' & Htrust); [|done|].
  { rewrite Hst, Ht. apply Hset. }
  exists (length wire), w', s', node'. cbn zeta. fold j. unfold catching_up. fold es5.
  rewrite happen_app, (undisturbed_run_app _ _ _ _ Hsent), Hsent, Hsu. cbn [mbind option_bind andb].
  rewrite Hno in Hnode'. rewrite Ht in Htrust. by split_and!.
Qed.

(** The stream of a node that is left behind, to its first block. *)
Lemma stops_behind w r n node p now :
  represents w r → s0 + Z.of_nat (length (r_log r) + 5) < 2 ^ 63 - 1 →
  settled w → clock_ahead w now → w_nodes w !! n = Some node → r_nodes r !! n = Some p → left_behind node →
  existsb (dispatches n) (w_streams w) = false → node_trust node ≠ w_trust w →
  ∃ w' s, let j := length (w_streams w) in
    happen w (catching_up n j 1 now) = Some w' ∧ w_nodes w' !! n = Some node ∧
    w_streams w' !! j = Some s ∧ dispatching s = Stopped (Err (AddError TxSequenceMismatch)).
Proof.
  intros Hrep Hlt Hset Hclock Hnode Hp Hb Hfree Hne.
  destruct (catching_up_sent w r n node p Hrep Hset ltac:(lia) Hnode Hp Hfree) as [Hsent _].
  destruct (settled_announced _ _ Hrep Hset) as [Ea El]. pose proof Hrep as [].
  pose proof (Forall2_lookup_lr _ _ _ _ _ _ rep_nodes0 Hnode Hp) as Hst. cbn in Hst.
  pose proof (replica_state_lt _ _ _ _ Hst) as Hple.
  assert (p < length (r_log r))%nat as Hpl.
  { destruct (decide (p = length (r_log r))) as [E|]; [|lia]. rewrite <-El, Ea in E. rewrite E, rep_trust0 in Hst. congruence. }
  destruct (lookup_lt_is_Some_2 (r_log r) p Hpl) as [[b ts'] Hk].
  assert (block_time b ≤ now) as Ht by (eapply logged_time; [exact rep_rows0|exact Hclock|exact Hk]).
  pose proof (left_behind_refuses _ _ _ _ _ now rep_log0 Hst Hk ltac:(lia) Hb Ht) as Happ.
  assert ((r_log r).*1 !! p = Some b) as Hk1 by (by rewrite list_lookup_fmap, Hk).
  rewrite (drop_S _ _ _ Hk1) in Hsent. cbn [fmap list_fmap app] in Hsent.
  set (j := length (w_streams w)) in *. set (rest := _ ++ _) in *.
  eexists _, _. cbn zeta. fold j. unfold catching_up. rewrite happen_app, Hsent.
  cbn [mbind option_bind replicate happen happens]. unfold delivers. cbn [with_stream w_streams w_nodes].
  rewrite list_lookup_middle by done. cbn [mbind option_bind stream_node]. rewrite Hnode.
  cbn [mbind option_bind stream_wire dispatching dispatch_update]. rewrite Happ. cbn.
  split; [reflexivity|]. cbn [w_nodes w_streams]. split; [by rewrite list_insert_id|].
  split; [by apply insert_last_lookup|done].
Qed.

(** C7: Who catches up and who does not. After a run from the initialisation
    in which none of the three disturbing events happened, let a node that has
    no update stream connect while no block is on its way into the server and
    its clock is not behind the blocks, and let only the new stream go on. A
    node that is not left behind comes to the server's trust store and follows;
    no node that starts from the snapshot of the initialisation is left behind.
    A node that is left behind (an agent enrolled later) does not catch up: the
    first block it lacks stops it, unchanged. *)
Theorem node_catches_up writers es w n node now :
  Forall event_wf es → s0 + Z.of_nat (length es + 5) < 2 ^ 63 - 1 →
  undisturbed_run (initialised writers) es = true → happen (initialised writers) es = Some w →
  settled w → clock_ahead w now → w_nodes w !! n = Some node → existsb (dispatches n) (w_streams w) = false →
  ((n < clients)%nat → ¬ left_behind node) ∧
  (¬ left_behind node → ∃ k w' s node', let j := length (w_streams w) in
    happen w (catching_up n j k now) = Some w' ∧ undisturbed_run w (catching_up n j k now) = true ∧
    w_trust w' = w_trust w ∧ w_nodes w' !! n = Some node' ∧ node_trust node' = w_trust w ∧
    w_streams w' !! j = Some s ∧ dispatching s = Following) ∧
  (left_behind node → node_trust node ≠ w_trust w → ∃ w' s, let j := length (w_streams w) in
    happen w (catching_up n j 1 now) = Some w' ∧ w_nodes w' !! n = Some node ∧
    w_streams w' !! j = Some s ∧ dispatching s = Stopped (Err (AddError TxSequenceMismatch))).
Proof.
  intros Hwf Hlt Hun Hw Hset Hclock Hnode Hfree.
  destruct (initialised_run _ _ _ Hwf Hun ltac:(lia) Hw) as (r & Hrep & Hup & Hcl & Hlen).
  pose proof (up_steps _ _ Hup _ _ Hnode) as Hstep.
  destruct (Forall2_lookup_l _ _ _ _ _ (rep_nodes _ _ Hrep) Hnode) as (p & Hp & _).
  assert (s0 + Z.of_nat (length (r_log r) + 5) < 2 ^ 63 - 1) as Hlt' by lia.
  split_and!.
  - intros Hn Hb. destruct Hstep as [Hin|[? _]]; [by destruct (in_step_or_behind node)|lia].
  - intros Hnb. destruct Hstep as [Hin|[_ ?]]; [|done].
    exact (catches_up w r n node p now Hrep Hup Hcl Hlt' Hset Hclock Hnode Hp Hin Hfree).
  - intros Hb Hne. exact (stops_behind w r n node p now Hrep Hlt' Hset Hclock Hnode Hp Hb Hfree Hne).
Qed.
End refines.

(** ** Worked examples *)
#[local] Existing Instance toy_x509.
#[local] Existing Instance toy_crypto.
#[local] Existing Instance toy_rcgen.
(** The toy root's user adds two agents behind the block that the
    initialisation leaves. *)
Definition toy_user_credential : Credential := mkCredential (toy_keypair 2) (mkCertificate toy_user).
Definition toy_added (ts : TrustStore) (certificate : UnverifiedCertificate) (now : Z) : Block :=
  match (ts_add ts (mkCertificate certificate) toy_user_credential now).2 with
  | Ok block => as_unchecked block
  | _ => as_unchecked toy_add_block
  end.
Definition toy_after (ts : TrustStore) (block : Block) : TrustStore :=
  match ts_apply (E := ()) ts (mkCheckedBlock block) with Ok ts => ts | _ => ts end.

Definition toy_block2 : Block := Eval vm_compute in toy_added toy_store1 toy_agent 600.
Definition toy_store2 : TrustStore := toy_after toy_store1 toy_block2.
Definition toy_block3 : Block := Eval vm_compute in toy_added toy_store2 (toy_certificate Agent 4 2 300) 700.

(** An encoding that knows these blocks. *)
#[local] Instance replication_postcard : Postcard Block := {|
  to_stdvec x := if decide (x = toy_block2) then Ok [2] else if decide (x = toy_block3) then Ok [3] else Err "block"%string;
  from_bytes d := match d with [2] => Ok toy_block2 | [3] => Ok toy_block3 | _ => Err "bytes"%string end;
|}.
#[local] Instance replication_postcard_laws : PostcardLaws Block.
Proof.
  split. intros x d. unfold to_stdvec, from_bytes, replication_postcard. case_decide as E2; [by intros [= <-]; rewrite E2|].
  case_decide as E3; [by intros [= <-]; rewrite E3|done].
Qed.

Lemma toy_blocks_wf : store_tx_wf (block_transaction toy_block2) ∧ store_tx_wf (block_transaction toy_block3).
Proof. split; vm_compute; reflexivity. Qed.

Definition toy_start : ReplicaWorld := initialised toy_store1 1 1.

Definition toy_write (block : Block) : list Event := [Receives 0 block 800; Compares 0; Inserts 0; Publishes 0; Applies 0].
Definition toy_follow (n : nat) : list Event := [Opens n; Queries n; Takes n; Drains n; SendsDigest n; Delivers n 900].
Definition toy_forward (j : nat) : list Event := [Forwards j; Delivers j 900].

(** A client follows, an agent is enrolled, and the agent is added. *)
Definition toy_first : list Event := toy_follow 0 ++ toy_write toy_block2 ++ toy_forward 0.
Definition toy_second : list Event := toy_follow 1 ++ toy_write toy_block3 ++ toy_forward 1 ++ toy_forward 0.

Lemma toy_events_wf : Forall event_wf toy_first ∧ Forall event_wf (Enrols 0 :: toy_second).
Proof. split; repeat (constructor; [first [exact I|apply toy_blocks_wf]|]); constructor. Qed.

Definition toy_world1 : ReplicaWorld := default toy_start (happen toy_start toy_first).
Definition toy_world2 : ReplicaWorld := default toy_start (happen toy_start (toy_first ++ Enrols 0 :: toy_second)).

Lemma toy_happens1 : happen toy_start toy_first = Some toy_world1.
Proof. vm_compute. reflexivity. Qed.
Lemma toy_happens2 : happen toy_start (toy_first ++ Enrols 0 :: toy_second) = Some toy_world2.
Proof. vm_compute. reflexivity. Qed.

Lemma replication_refines_log_witness :
  ∃ r, rtc (spec_step toy_root_certificate toy_store1) (mkReplicas [] 0 0 [0%nat]) r ∧
    replica_state toy_store1 (r_log r) (r_applied r) = Some (w_trust toy_world2).
Proof.
  destruct (replication_refines_log toy_root_certificate toy_store1 toy_root_parsed toy_store1_reachable ltac:(done)
    1 [fresh_node toy_store1] _ toy_world2 ltac:(by repeat constructor)
    (proj2 (Forall_app _ _ _) toy_events_wf) ltac:(done) toy_happens2) as (r & Hs & _ & Ht & _).
  exists r. split; [exact Hs|exact Ht].
Defined.

(** The two races. A node that connects while a block is on its way is told
    the digest of a state that it has not been sent... *)
Lemma digest_race :
  (λ w, dispatching <$> w_streams w) <$>
    happen toy_start ([Opens 0; Queries 0; Takes 0; Drains 0] ++ toy_write toy_block2 ++ [SendsDigest 0; Delivers 0 900]) =
  Some [Stopped (Err WrongDigest)].
Proof. vm_compute. reflexivity. Qed.

(** ... or is sent the same block twice, once from the table and once from the
    broadcast: it refuses the second one, and follows no longer. *)
Lemma duplicate_race :
  (λ w, (dispatching <$> w_streams w, (λ node, ts_sequence (node_trust node)) <$> w_nodes w)) <$>
    happen toy_start ([Receives 0 toy_block2 800; Compares 0; Inserts 0; Opens 0; Queries 0; Takes 0; Publishes 0;
      Drains 0; Applies 0; Delivers 0 900; Delivers 0 900]) =
  Some ([Stopped (Err (CheckError SequenceMismatch))], [2]).
Proof. vm_compute. reflexivity. Qed.

(** A client that adds a certificate stores and applies the block itself once
    the server has answered ([add_cert_to_trust_store]). If the answer comes
    before the block does on the client's own update stream, the stream stops.
    The nodes of the runs above do not add. *)
Lemma own_block_refused :
  (dispatch_update (mkNode toy_store2 (tx_add (tx_open []) (mkCheckedBlock toy_block2)).1) 900 Following
    (UpdateTransaction toy_block2)).2 = Stopped (Err (CheckError SequenceMismatch)).
Proof. vm_compute. reflexivity. Qed.

(** The client is up to date, the agent is not. *)
Definition toy_stream (w : ReplicaWorld) (j : nat) : UpdateStream := default (mkUpdateStream 0 Draining [] CatchingUp) (w_streams w !! j).
Definition toy_node (w : ReplicaWorld) (n : nat) : Node := default (fresh_node toy_store1) (w_nodes w !! n).

Lemma followers_keep_up_witness :
  (undisturbed_run toy_start (toy_first ++ Enrols 0 :: toy_second) = true ∧ node_trust (toy_node toy_world2 0) = w_trust toy_world2) ∧
  dispatching (toy_stream toy_world2 1) = Stopped (Err (AddError TxSequenceMismatch)) ∧ left_behind (toy_node toy_world2 1).
Proof.
  assert (undisturbed_run toy_start (toy_first ++ Enrols 0 :: toy_second) = true) as Hun by (vm_compute; reflexivity).
  pose proof (λ j : nat, followers_keep_up toy_root_certificate toy_store1 toy_root_parsed toy_store1_reachable ltac:(done) eq_refl 1 1 _ toy_world2 j
    (toy_stream toy_world2 j) (toy_node toy_world2 j) (proj2 (Forall_app _ _ _) toy_events_wf) ltac:(done) Hun toy_happens2) as Hk.
  assert (dispatching (toy_stream toy_world2 1) = Stopped (Err (AddError TxSequenceMismatch))) as Hd by (vm_compute; reflexivity).
  split; [split; [exact Hun|]|split; [exact Hd|]].
  - refine (proj2 (Hk 0%nat _ _) _ _ _ _ _); try (vm_compute; reflexivity). vm_compute. discriminate.
  - refine (proj1 (proj2 (proj1 (Hk 1%nat _ _) _ Hd))); vm_compute; reflexivity.
Defined.

Lemma enrolled_later_stays_behind_witness :
  w_nodes toy_world2 !! 1%nat = Some (mkNode (node_trust (toy_node toy_world1 0)) (tx_open [])).
Proof.
  refine (enrolled_later_stays_behind toy_root_certificate toy_store1 toy_root_parsed toy_store1_reachable ltac:(done)
    1 [fresh_node toy_store1] toy_first toy_second toy_world1 toy_world2 0 (toy_node toy_world1 0)
    ltac:(by repeat constructor) (proj1 toy_events_wf) (Forall_inv_tail (proj2 toy_events_wf)) ltac:(done) toy_happens1 _ _ _);
    vm_compute; reflexivity.
Defined.

(** Of two clients one follows; an agent is enrolled; another block comes. *)
Definition toy_late : list Event := toy_first ++ Enrols 0 :: toy_write toy_block3.
Definition toy_late_world : ReplicaWorld := default toy_start (happen (initialised toy_store1 2 1) toy_late).

Lemma toy_late_happens : happen (initialised toy_store1 2 1) toy_late = Some toy_late_world.
Proof. vm_compute. reflexivity. Qed.

Lemma toy_late_wf : Forall event_wf toy_late.
Proof. repeat (constructor; [first [exact I|apply toy_blocks_wf]|]); constructor. Qed.

Lemma toy_late_blocks :
  Forall (λ row : Z * bytes, match from_bytes (T := Block) row.2 with Ok b => (block_time b <=? 900) = true | _ => True end)
    (stx_rows (w_store toy_late_world)).
Proof. vm_compute. repeat constructor. Qed.

Lemma toy_clock_ahead : clock_ahead toy_late_world 900.
Proof.
  intros row b Hrow E. pose proof (proj1 (Forall_forall _ _) toy_late_blocks _ Hrow) as Hb. cbv beta in Hb.
  rewrite E in Hb. by apply Z.leb_le.
Qed.

Lemma toy_late_settled : settled toy_late_world.
Proof. split; [|vm_compute; reflexivity]. vm_compute. repeat constructor. Qed.

Lemma node_catches_up_witness :
  (∃ k w', happen toy_late_world (catching_up 1 1 k 900) = Some w' ∧
    ∃ node, w_nodes w' !! 1%nat = Some node ∧ node_trust node = w_trust toy_late_world) ∧
  (∃ w', happen toy_late_world (catching_up 2 1 1 900) = Some w' ∧ w_nodes w' !! 2%nat = Some (toy_node toy_late_world 2)).
Proof.
  assert (undisturbed_run (initialised toy_store1 2 1) toy_late = true) as Hun by (vm_compute; reflexivity).
  pose proof (λ n : nat, node_catches_up toy_root_certificate toy_store1 toy_root_parsed toy_store1_reachable ltac:(done) eq_refl 2 1 toy_late toy_late_world
    n (toy_node toy_late_world n) 900 toy_late_wf ltac:(done) Hun toy_late_happens toy_late_settled toy_clock_ahead) as Hc.
  split.
  - destruct (Hc 1%nat eq_refl eq_refl) as (Hnb & Hup & _).
    destruct (Hup (Hnb ltac:(lia))) as (k & w' & s & node & Hw & _ & _ & Hn & Ht & _). exists k, w'. split; [exact Hw|].
    exists node. split; [exact Hn|exact Ht].
  - destruct (Hc 2%nat eq_refl eq_refl) as (_ & _ & Hstop).
    destruct Hstop as (w' & s & Hw & Hn & _); [split; [vm_compute; reflexivity|vm_compute; reflexivity]|vm_compute; discriminate|].
    exists w'. split; [exact Hw|exact Hn].
Defined.
