(* ===== verification/Serving.v ===== *)
(** * The tasks of a server, and its end

    [svalin_rpc/src/rpc/server/mod.rs], the loop that serves a connection
    ([svalin_rpc/src/rpc/connection/mod.rs]) and [Server::close]
    ([svalin/src/server.rs]). A server accepts connections in one task and
    serves each of them in another one; a connection is served by accepting
    its sessions, each handled in a task of its own; one more task waits for
    the end of a connection of a known peer. Closing cancels the loops and
    waits for all of these tasks. Each event below is one thing that one task
    observes or does. *)
From S2P Require Import Prelude.
From S2P Require Import External.
From S2P Require Import Toy.
From S2P Require Import Spki.
From S2P Require Import Certificate.
From S2P Require Import Credential.
From S2P Require Import Verifiers.
From S2P Require Import Connections.
From stdpp Require Import options.

(** How far [serve_connection] is: the connection is being established, its
    sessions are accepted, the loop has ended and its sessions have not, or it
    has returned. *)
Inductive ConnectionPhase := Establishing | Serving | Finishing | Finished.

Record ServedConnection := mkServed {
  served : DirectConnection;
  phase : ConnectionPhase;
  (** Neither side has closed it. *)
  is_open : bool;
  (** The tasks of [open_sessions]. *)
  open_sessions : nat;
  (** [update_connection_data_on_close] runs. *)
  watched : bool;
}.

Inductive Elapsed := TimeoutElapsed.

(** Where [Server::close] is: in the wait of [RpcServer::close], in its own,
    which remembers the first result, or done. *)
Inductive Closing :=
  | NotClosing
  | WaitingRpc
  | WaitingTasks (result1 : result Elapsed ())
  | CloseReturned (r : result Elapsed ()).

Record ServerTasks := mkServerTasks {
  book : RpcServer;
  accepting : bool;
  cancelled : bool;
  endpoint_open : bool;
  connections : list ServedConnection;
  closing : Closing;
}.

Inductive ServeEvent :=
  | Arrives (conn : DirectConnection)
  | Establishes (i : nat) (ok : bool)
  | OpensSession (i : nat)
  | AcceptFails (i : nat)
  | SessionEnds (i : nat)
  | LoopCancelled (i : nat)
  | ConnectionDone (i : nat)
  | PeerCloses (i : nat)
  | NotesClose (i : nat)
  | ServeCancelled
  | Cancels
  | Closes
  | RpcWaited (in_time : bool)
  | TasksWaited (in_time : bool).

(** The tracker is empty. *)
Definition connection_done (sc : ServedConnection) : bool :=
  match phase sc with Finished => negb (watched sc) | _ => false end.

Definition tasks_done (s : ServerTasks) : bool :=
  negb (accepting s) && forallb connection_done (connections s).

Definition with_connection (s : ServerTasks) (i : nat) (sc : ServedConnection) : ServerTasks :=
  mkServerTasks (book s) (accepting s) (cancelled s) (endpoint_open s) (<[ i := sc ]> (connections s)) (closing s).

Definition with_book (s : ServerTasks) (b : RpcServer) : ServerTasks :=
  mkServerTasks b (accepting s) (cancelled s) (endpoint_open s) (connections s) (closing s).

Definition is_certificate (peer : Peer) : bool := match peer with PeerCertificate _ => true | Anonymous => false end.

(** [serve]: an incoming connection gets a task. *)
Definition connection_arrives (s : ServerTasks) (conn : DirectConnection) : option ServerTasks :=
  if accepting s && endpoint_open s && forallb (λ sc, negb (Nat.eqb (stable_id (served sc)) (stable_id conn))) (connections s) then
    Some (mkServerTasks (book s) (accepting s) (cancelled s) (endpoint_open s)
      (connections s ++ [mkServed conn Establishing false 0 false]) (closing s))
  else None.

(** [serve_connection_inner]: up to serving the connection. A failed handshake
    ends the task. *)
Definition establishes (s : ServerTasks) (i : nat) (ok : bool) : option ServerTasks :=
  sc ← connections s !! i;
  match phase sc with
  | Establishing =>
      if ok then
        if endpoint_open s then
          Some (with_book
            (with_connection s i (mkServed (served sc) Serving true 0 (is_certificate (conn_peer (served sc)))))
            (note_connection (book s) (served sc)))
        else None
      else Some (with_connection s i (mkServed (served sc) Finished false 0 false))
  | _ => None
  end.

(** The loop of [ServeableConnection::serve], and the wait behind it. *)
Definition opens_session (s : ServerTasks) (i : nat) : option ServerTasks :=
  sc ← connections s !! i;
  match phase sc with
  | Serving =>
      if is_open sc then Some (with_connection s i (mkServed (served sc) Serving true (S (open_sessions sc)) (watched sc)))
      else None
  | _ => None
  end.

Definition accept_fails (s : ServerTasks) (i : nat) : option ServerTasks :=
  sc ← connections s !! i;
  match phase sc with
  | Serving =>
      if is_open sc then None
      else Some (with_connection s i (mkServed (served sc) Finishing (is_open sc) (open_sessions sc) (watched sc)))
  | _ => None
  end.

Definition loop_cancelled (s : ServerTasks) (i : nat) : option ServerTasks :=
  sc ← connections s !! i;
  match phase sc with
  | Serving =>
      if cancelled s then Some (with_connection s i (mkServed (served sc) Finishing (is_open sc) (open_sessions sc) (watched sc)))
      else None
  | _ => None
  end.

Definition connection_returns (s : ServerTasks) (i : nat) : option ServerTasks :=
  sc ← connections s !! i;
  match phase sc, open_sessions sc with
  | Finishing, O => Some (with_connection s i (mkServed (served sc) Finished (is_open sc) 0 (watched sc)))
  | _, _ => None
  end.

(** The handler of a session returns. *)
Definition session_ends (s : ServerTasks) (i : nat) : option ServerTasks :=
  sc ← connections s !! i;
  match open_sessions sc with
  | O => None
  | S n => Some (with_connection s i (mkServed (served sc) (phase sc) (is_open sc) n (watched sc)))
  end.

Definition peer_closes (s : ServerTasks) (i : nat) : option ServerTasks :=
  sc ← connections s !! i;
  if is_open sc then Some (with_connection s i (mkServed (served sc) (phase sc) false (open_sessions sc) (watched sc)))
  else None.

(** [update_connection_data_on_close], behind [conn.closed()]. *)
Definition notes_close (s : ServerTasks) (i : nat) : option ServerTasks :=
  sc ← connections s !! i;
  if watched sc && negb (is_open sc) then
    Some (with_book (with_connection s i (mkServed (served sc) (phase sc) (is_open sc) (open_sessions sc) false))
      (note_close (book s) (served sc)))
  else None.

Definition serve_cancelled (s : ServerTasks) : option ServerTasks :=
  if accepting s && cancelled s then
    Some (mkServerTasks (book s) false (cancelled s) (endpoint_open s) (connections s) (closing s))
  else None.

Definition cancels (s : ServerTasks) : option ServerTasks :=
  Some (mkServerTasks (book s) (accepting s) true (endpoint_open s) (connections s) (closing s)).

(** [endpoint.close]: every connection is closed. *)
Definition close_endpoint (s : ServerTasks) (c : Closing) : ServerTasks :=
  mkServerTasks (book s) (accepting s) (cancelled s) false
    ((λ sc, mkServed (served sc) (phase sc) false (open_sessions sc) (watched sc)) <$> connections s) c.

(** [Server::close], up to the wait of [RpcServer::close]. *)
Definition closes (s : ServerTasks) : option ServerTasks :=
  match closing s with
  | NotClosing => Some (mkServerTasks (book s) (accepting s) true (endpoint_open s) (connections s) WaitingRpc)
  | _ => None
  end.

(** The end of [RpcServer::close]: the wait is over in time only when the tasks are. *)
Definition rpc_waited (s : ServerTasks) (in_time : bool) : option ServerTasks :=
  match closing s with
  | WaitingRpc =>
      if in_time then if tasks_done s then Some (close_endpoint s (WaitingTasks (Ok ()))) else None
      else Some (close_endpoint s (WaitingTasks (Err TimeoutElapsed)))
  | _ => None
  end.

(** [result1.or(result2)]. The server's own tracker has one task, which waits
    for the tasks of the [RpcServer]. *)
Definition result_or {E A} (r1 r2 : result E A) : result E A := match r1 with Ok a => Ok a | _ => r2 end.

Definition tasks_waited (s : ServerTasks) (in_time : bool) : option ServerTasks :=
  match closing s with
  | WaitingTasks result1 =>
      let returned r := mkServerTasks (book s) (accepting s) (cancelled s) (endpoint_open s) (connections s) (CloseReturned r) in
      if in_time then if tasks_done s then Some (returned (result_or result1 (Ok ()))) else None
      else Some (returned (result_or result1 (Err TimeoutElapsed)))
  | _ => None
  end.

Definition serve_event (s : ServerTasks) (e : ServeEvent) : option ServerTasks :=
  match e with
  | Arrives conn => connection_arrives s conn
  | Establishes i ok => establishes s i ok
  | OpensSession i => opens_session s i
  | AcceptFails i => accept_fails s i
  | SessionEnds i => session_ends s i
  | LoopCancelled i => loop_cancelled s i
  | ConnectionDone i => connection_returns s i
  | PeerCloses i => peer_closes s i
  | NotesClose i => notes_close s i
  | ServeCancelled => serve_cancelled s
  | Cancels => cancels s
  | Closes => closes s
  | RpcWaited in_time => rpc_waited s in_time
  | TasksWaited in_time => tasks_waited s in_time
  end.

Fixpoint serve_run (s : ServerTasks) (es : list ServeEvent) : option ServerTasks :=
  match es with
  | [] => Some s
  | e :: es => s' ← serve_event s e; serve_run s' es
  end.

(** [RpcServer::create] and the spawned [serve]. *)
Definition server_started : ServerTasks := mkServerTasks rpc_server_new true false true [] NotClosing.

(** ** The invariant *)
Definition connection_ok (endpoint : bool) (sc : ServedConnection) : Prop :=
  (is_open sc = true → endpoint = true ∧ watched sc = is_certificate (conn_peer (served sc))) ∧
  match phase sc with
  | Establishing => is_open sc = false ∧ open_sessions sc = 0%nat ∧ watched sc = false
  | Finished => open_sessions sc = 0%nat
  | _ => True
  end.

Definition closing_ok (s : ServerTasks) : Prop :=
  (closing s ≠ NotClosing → cancelled s = true) ∧
  match closing s with
  | NotClosing | WaitingRpc => True
  | WaitingTasks r | CloseReturned r => endpoint_open s = false ∧ (r = Ok () → tasks_done s = true)
  end.

Record serving_ok (s : ServerTasks) : Prop := {
  ok_connections : ∀ i sc, connections s !! i = Some sc → connection_ok (endpoint_open s) sc;
  ok_ids : ∀ i j si sj, connections s !! i = Some si → connections s !! j = Some sj →
    stable_id (served si) = stable_id (served sj) → i = j;
  ok_book : ∀ h c, latest_connections (book s) !! h = Some c →
    ∃ i sc, connections s !! i = Some sc ∧ served sc = c ∧ watched sc = true ∧ peer_hash c = Some h;
  ok_closing : closing_ok s;
}.

Lemma started_ok : serving_ok server_started.
Proof. by constructor. Qed.

Lemma tasks_done_iff s :
  tasks_done s = true ↔ accepting s = false ∧ ∀ i sc, connections s !! i = Some sc → connection_done sc = true.
Proof.
  unfold tasks_done. rewrite andb_true_iff, negb_true_iff, forallb_forall. split; intros [Ha Hc]; (split; [done|]).
  - intros i sc Hi. apply Hc, list_elem_of_In, (list_elem_of_lookup_2 _ i _ Hi).
  - intros sc [i Hi]%list_elem_of_In%list_elem_of_lookup. by eapply Hc.
Qed.

(** A connection changes. *)
Lemma with_connection_done s i sc sc' :
  connections s !! i = Some sc → (connection_done sc = true → connection_done sc' = true) →
  tasks_done s = true → tasks_done (with_connection s i sc') = true.
Proof.
  intros Hi Hd. rewrite !tasks_done_iff. cbn. intros [Ha Hc]. split; [done|].
  intros j x [(<- & <- & _)|[_ Hj]]%list_lookup_insert_Some; [apply Hd|]; by eapply Hc.
Qed.

Lemma with_connection_ids s i sc sc' :
  serving_ok s → connections s !! i = Some sc → served sc' = served sc →
  ∀ a b sa sb, <[ i := sc' ]> (connections s) !! a = Some sa → <[ i := sc' ]> (connections s) !! b = Some sb →
    stable_id (served sa) = stable_id (served sb) → a = b.
Proof.
  intros [] Hi Hs a b sa sb Ha Hb Hid.
  apply list_lookup_insert_Some in Ha as [(<- & <- & _)|[_ Ha]], Hb as [(<- & <- & _)|[_ Hb]];
    [done|rewrite ?Hs in Hid; eauto..].
Qed.

Lemma with_connection_ok s i sc sc' :
  serving_ok s → connections s !! i = Some sc → served sc' = served sc → watched sc' = watched sc →
  connection_ok (endpoint_open s) sc' → (connection_done sc = true → connection_done sc' = true) →
  serving_ok (with_connection s i sc').
Proof.
  intros Hok Hi Hs Hw Hc Hd. pose proof Hok as []. constructor.
  - intros j x [(<- & <- & _)|[_ Hj]]%list_lookup_insert_Some; [done|by eapply ok_connections0].
  - by eapply with_connection_ids.
  - intros h c Hh. destruct (ok_book0 h c Hh) as (j & x & Hj & Hx & Hwx & Hp). destruct (decide (i = j)) as [<-|Hne].
    + exists i, sc'. rewrite Hi in Hj. injection Hj as <-. split_and!; try congruence.
      apply list_lookup_insert_eq. by eapply lookup_lt_Some.
    + exists j, x. split_and!; try done. cbn. by rewrite list_lookup_insert_ne.
  - destruct ok_closing0 as [Hcan Hcl]. split; [exact Hcan|]. cbn. destruct (closing s); try done;
      (split; [apply Hcl|]; intros Hr; eapply with_connection_done; [done..|by apply Hcl]).
Qed.

Lemma closing_unchanged s s' :
  closing s' = closing s → endpoint_open s' = endpoint_open s → cancelled s' = cancelled s →
  (tasks_done s = true → tasks_done s' = true) → closing_ok s → closing_ok s'.
Proof. unfold closing_ok. intros -> -> -> Hd. destruct (closing s); naive_solver. Qed.

Lemma connection_arrives_ok s c s' : serving_ok s → connection_arrives s c = Some s' → serving_ok s'.
Proof.
  intros []. unfold connection_arrives. destruct (accepting s) eqn:Ha; [|done]. destruct (endpoint_open s) eqn:He; [|done].
  destruct (forallb _ _) eqn:Hf; [|done]. intros [= <-]. rewrite forallb_forall in Hf.
  assert (∀ j x, connections s !! j = Some x → stable_id (served x) ≠ stable_id c) as Hnew.
  { intros j x Hj Hid. specialize (Hf x (proj1 (list_elem_of_In _ _) (list_elem_of_lookup_2 _ _ _ Hj))).
    by rewrite Hid, Nat.eqb_refl in Hf. }
  constructor; cbn.
  - intros j x [Hj|[_ E]]%lookup_app_Some; [by eapply ok_connections0|].
    apply list_lookup_singleton_Some in E as [_ <-]. by split.
  - intros a b sa sb [Hsa|[Hla E]]%lookup_app_Some [Hsb|[Hlb E']]%lookup_app_Some Hid;
      try (apply list_lookup_singleton_Some in E as [? <-]); try (apply list_lookup_singleton_Some in E' as [? <-]); cbn in Hid.
    + eauto.
    + by destruct (Hnew _ _ Hsa).
    + by destruct (Hnew _ _ Hsb).
    + lia.
  - intros h x Hx. destruct (ok_book0 h x Hx) as (j & y & Hj & ?). exists j, y. split; [by apply lookup_app_l_Some|done].
  - eapply closing_unchanged; [..|exact ok_closing0]; try done. unfold tasks_done. by rewrite Ha.
Qed.

Lemma establishes_ok s i ok s' : serving_ok s → establishes s i ok = Some s' → serving_ok s'.
Proof.
  intros Hok. unfold establishes. intros (sc & Hi & Hs)%bind_Some. pose proof Hok as [].
  pose proof (ok_connections0 _ _ Hi) as [Ho Hp]. destruct (phase sc) eqn:Hph; try done. destruct Hp as (Hop & Hse & Hwa).
  assert (connection_done sc = false) as Hnd by (unfold connection_done; by rewrite Hph).
  destruct ok; [destruct (endpoint_open s) eqn:He; [|done]|]; injection Hs as <-.
  2: { eapply with_connection_ok; [done..|by split|by rewrite Hnd]. }
  set (sc' := mkServed (served sc) Serving true 0 (is_certificate (conn_peer (served sc)))).
  pose proof (with_connection_ids s i sc sc' Hok Hi eq_refl) as Hids.
  assert (connections s !! i = Some sc → <[ i := sc' ]> (connections s) !! i = Some sc') as Hat
    by (intros _; apply list_lookup_insert_eq; by eapply lookup_lt_Some).
  constructor; cbn.
  - rewrite He. intros j x [(<- & <- & _)|[_ Hj]]%list_lookup_insert_Some; [by split|by eapply ok_connections0].
  - exact Hids.
  - assert (∀ h c, latest_connections (book s) !! h = Some c → ∃ j x, <[ i := sc' ]> (connections s) !! j = Some x ∧
      served x = c ∧ watched x = true ∧ peer_hash c = Some h) as Hold.
    { intros h c Hh. destruct (ok_book0 h c Hh) as (j & x & Hj & Hx & Hwx & Hpx). exists j, x.
      rewrite list_lookup_insert_ne; [done|]. intros <-. rewrite Hi in Hj. injection Hj as <-. by rewrite Hwa in Hwx. }
    unfold note_connection. destruct (conn_peer (served sc)) as [|cert] eqn:Hpeer; [exact Hold|].
    intros h c. cbn. intros [[<- <-]|[_ Hh]]%lookup_insert_Some; [|by apply Hold].
    exists i, sc'. split_and!; [by apply Hat|done|done|]. unfold peer_hash. by rewrite Hpeer.
  - eapply closing_unchanged; [..|exact ok_closing0]; try done.
    rewrite tasks_done_iff. intros [_ Hc]. by rewrite (Hc _ _ Hi) in Hnd.
Qed.

Lemma notes_close_ok s i s' : serving_ok s → notes_close s i = Some s' → serving_ok s'.
Proof.
  intros Hok. unfold notes_close. intros (sc & Hi & Hs)%bind_Some. pose proof Hok as [].
  pose proof (ok_connections0 _ _ Hi) as [Ho Hp]. destruct (watched sc) eqn:Hw; [|done]. destruct (is_open sc) eqn:Hopen; [done|].
  injection Hs as <-. set (sc' := mkServed (served sc) (phase sc) false (open_sessions sc) false).
  pose proof (with_connection_ids s i sc sc' Hok Hi eq_refl) as Hids. constructor; cbn.
  - intros j x [(<- & <- & _)|[_ Hj]]%list_lookup_insert_Some; [|by eapply ok_connections0].
    split; [done|]. cbn. destruct (phase sc); [|done..]. by destruct Hp as (_ & _ & ?).
  - exact Hids.
  - assert (∀ h c, latest_connections (book s) !! h = Some c → stable_id c ≠ stable_id (served sc) →
      ∃ j x, <[ i := sc' ]> (connections s) !! j = Some x ∧ served x = c ∧ watched x = true ∧ peer_hash c = Some h) as Hold.
    { intros h c Hh Hid. destruct (ok_book0 h c Hh) as (j & x & Hj & Hx & Hwx & Hpx). exists j, x.
      rewrite list_lookup_insert_ne; [done|]. intros <-. rewrite Hi in Hj. injection Hj as <-. by rewrite <-Hx in Hid. }
    assert (∀ h c, latest_connections (book s) !! h = Some c → stable_id c = stable_id (served sc) → c = served sc ∧ peer_hash (served sc) = Some h) as Hsame.
    { intros h c Hh Hid. destruct (ok_book0 h c Hh) as (j & x & Hj & <- & _ & Hpx).
      pose proof (ok_ids0 _ _ _ _ Hj Hi Hid) as ->. rewrite Hi in Hj. by injection Hj as <-. }
    unfold note_close. intros h c Hh. destruct (conn_peer (served sc)) as [|cert] eqn:Hpeer.
    + apply Hold; [done|]. intros Hid. destruct (Hsame h c Hh Hid) as [_ E]. unfold peer_hash in E. by rewrite Hpeer in E.
    + destruct (latest_connections (book s) !! spki_hash cert) as [l|] eqn:Hl.
      * case_bool_decide as Hid.
        -- cbn in Hh. apply lookup_delete_Some in Hh as [Hne Hh]. apply Hold; [done|]. intros Hid'.
           destruct (Hsame h c Hh Hid') as [_ E]. unfold peer_hash in E. rewrite Hpeer in E. congruence.
        -- apply Hold; [done|]. intros Hid'. destruct (Hsame h c Hh Hid') as [-> E]. unfold peer_hash in E. rewrite Hpeer in E.
           injection E as <-. rewrite Hl in Hh. by injection Hh as ->.
      * apply Hold; [done|]. intros Hid'. destruct (Hsame h c Hh Hid') as [_ E]. unfold peer_hash in E. rewrite Hpeer in E.
        injection E as <-. by rewrite Hl in Hh.
  - eapply closing_unchanged; [..|exact ok_closing0]; try done. cbn.
    rewrite !tasks_done_iff. cbn. intros [Ha Hc]. split; [done|].
    intros j x [(<- & <- & _)|[_ Hj]]%list_lookup_insert_Some; [|by eapply Hc].
    specialize (Hc _ _ Hi). unfold connection_done in *. cbn. by destruct (phase sc).
Qed.

Lemma close_endpoint_ok s r : serving_ok s → closing s ≠ NotClosing → (r = Ok () → tasks_done s = true) → serving_ok (close_endpoint s (WaitingTasks r)).
Proof.
  intros [] Hcn Hr. constructor; cbn.
  - intros i x (sc & -> & Hi)%list_lookup_fmap_Some. pose proof (ok_connections0 _ _ Hi) as [Ho Hp]. split; [done|]. cbn.
    destruct (phase sc); naive_solver.
  - intros i j si sj (a & -> & Hi)%list_lookup_fmap_Some (b & -> & Hj)%list_lookup_fmap_Some. cbn. by apply ok_ids0.
  - intros h c Hh. destruct (ok_book0 h c Hh) as (i & sc & Hi & ?). eexists i, _. rewrite list_lookup_fmap, Hi. by split.
  - split; [intros _; by apply ok_closing0|]. split; [done|]. intros E. specialize (Hr E). revert Hr. rewrite !tasks_done_iff. cbn. intros [Ha Hc]. split; [done|].
    intros i x (sc & -> & Hi)%list_lookup_fmap_Some. exact (Hc _ _ Hi).
Qed.

Lemma serve_event_ok s e s' : serving_ok s → serve_event s e = Some s' → serving_ok s'.
Proof.
  intros Hok. pose proof Hok as []. destruct e as [c|i ok|i|i|i|i|i|i|i| | | |t|t]; cbn.
  - by apply connection_arrives_ok.
  - by apply establishes_ok.
  - unfold opens_session. intros (sc & Hi & Hs)%bind_Some. pose proof (ok_connections0 _ _ Hi) as [Ho Hp].
    destruct (phase sc) eqn:Hph; try done. destruct (is_open sc) eqn:Hop; [|done]. injection Hs as <-.
    eapply with_connection_ok; [done..|split; [by intros _; apply Ho|done]|]. unfold connection_done. by rewrite Hph.
  - unfold accept_fails. intros (sc & Hi & Hs)%bind_Some. pose proof (ok_connections0 _ _ Hi) as [Ho Hp].
    destruct (phase sc) eqn:Hph; try done. destruct (is_open sc) eqn:Hop; [done|]. injection Hs as <-.
    eapply with_connection_ok; [done..|by split|]. unfold connection_done. by rewrite Hph.
  - unfold session_ends. intros (sc & Hi & Hs)%bind_Some. pose proof (ok_connections0 _ _ Hi) as [Ho Hp].
    destruct (open_sessions sc) as [|n] eqn:Hn; [done|]. injection Hs as <-.
    eapply with_connection_ok; [done..|split; [exact Ho|]|done]. cbn. by destruct (phase sc); [destruct Hp as (_ & ? & _)|..].
  - unfold loop_cancelled. intros (sc & Hi & Hs)%bind_Some. pose proof (ok_connections0 _ _ Hi) as [Ho Hp].
    destruct (phase sc) eqn:Hph; try done. destruct (cancelled s); [|done]. injection Hs as <-.
    eapply with_connection_ok; [done..|by split|]. unfold connection_done. by rewrite Hph.
  - unfold connection_returns. intros (sc & Hi & Hs)%bind_Some. pose proof (ok_connections0 _ _ Hi) as [Ho Hp].
    destruct (phase sc) eqn:Hph; try done. destruct (open_sessions sc); [|done]. injection Hs as <-.
    eapply with_connection_ok; [done..|by split|]. unfold connection_done. by rewrite Hph.
  - unfold peer_closes. intros (sc & Hi & Hs)%bind_Some. pose proof (ok_connections0 _ _ Hi) as [Ho Hp].
    destruct (is_open sc) eqn:Hop; [|done]. injection Hs as <-.
    eapply with_connection_ok; [done..|split; [done|]|done]. cbn. destruct (phase sc); naive_solver.
  - by apply notes_close_ok.
  - unfold serve_cancelled. destruct (accepting s && cancelled s); [|done]. intros [= <-]. constructor; try done.
    eapply closing_unchanged; [..|exact ok_closing0]; try done. rewrite !tasks_done_iff. naive_solver.
  - intros [= <-]. constructor; try done. by destruct ok_closing0 as [_ Hcl].
  - unfold closes. destruct (closing s); try done. intros [= <-]. by constructor.
  - unfold rpc_waited. destruct (closing s) eqn:Hcl; try done. destruct t; [destruct (tasks_done s) eqn:Hd; [|done]|];
      intros [= <-]; apply close_endpoint_ok; try done; by rewrite Hcl.
  - unfold tasks_waited. unfold closing_ok in ok_closing0. destruct (closing s) as [| |r1|] eqn:Hcl; try done.
    destruct ok_closing0 as [Hcan [He Hr1]]. destruct t; [destruct (tasks_done s) eqn:Hd; [|done]|];
      intros [= <-]; constructor; try done; (split; [by intros _; apply Hcan|]); (split; [done|]); cbn; intros Hr; try done. apply Hr1. by destruct r1 as [[]| |].
Qed.

Lemma serve_run_ok es : ∀ s s', serving_ok s → serve_run s es = Some s' → serving_ok s'.
Proof.
  induction es as [|e es IH]; intros s s' Hok; cbn; [by intros [= <-]|].
  intros (s1 & H1 & H2)%bind_Some. eapply IH; [|done]. by eapply serve_event_ok.
Qed.

(** ** What closing comes to *)
Lemma with_connection_closing s i sc : closing (with_connection s i sc) = closing s.
Proof. done. Qed.

Lemma returned_stays s e s' r : closing s = CloseReturned r → serve_event s e = Some s' → closing s' = CloseReturned r.
Proof.
  intros Hc. destruct e; cbn; unfold connection_arrives, establishes, opens_session, accept_fails, session_ends, loop_cancelled,
    connection_returns, peer_closes, notes_close, serve_cancelled, cancels, closes, rpc_waited, tasks_waited;
    rewrite ?Hc; try done; try (intros (sc & _ & Hs)%bind_Some; revert Hs); repeat case_match; try done; by intros [= <-].
Qed.

Lemma run_returned es : ∀ s s' r, closing s = CloseReturned r → serve_run s es = Some s' → closing s' = CloseReturned r.
Proof.
  induction es as [|e es IH]; intros s s' r Hc; cbn; [by intros [= <-]|].
  intros (s1 & H1 & H2)%bind_Some. eapply IH; [|done]. by eapply returned_stays.
Qed.

(** C30: When [Server::close] has reported success, everything has ended: the
    server accepts no connections, no handler of a session runs, every
    connection is closed and the book of connections is empty; and so it
    stays. *)
Theorem close_succeeded es s :
  serve_run server_started es = Some s → closing s = CloseReturned (Ok ()) →
  ∀ es' later, serve_run s es' = Some later →
    accepting later = false ∧ latest_connections (book later) = ∅ ∧
    ∀ i sc, connections later !! i = Some sc → phase sc = Finished ∧ open_sessions sc = 0%nat ∧ is_open sc = false.
Proof.
  intros Hs Hc es' later Hl. pose proof (serve_run_ok _ _ _ started_ok Hs) as Hok.
  pose proof (serve_run_ok _ _ _ Hok Hl) as []. pose proof (run_returned _ _ _ _ Hc Hl) as Hcl.
  destruct ok_closing0 as [_ Hret]. rewrite Hcl in Hret. destruct Hret as [He Hd].
  apply tasks_done_iff in Hd as [Ha Hd]; [|done].
  split_and!; [done| |].
  - apply map_eq. intros h. rewrite lookup_empty. destruct (_ !! h) as [c|] eqn:Hh; [|done].
    destruct (ok_book0 h c Hh) as (i & sc & Hi & _ & Hw & _). specialize (Hd i sc Hi). unfold connection_done in Hd.
    rewrite Hw in Hd. by destruct (phase sc).
  - intros i sc Hi. specialize (Hd i sc Hi). destruct (ok_connections0 i sc Hi) as [Ho Hp]. unfold connection_done in Hd.
    destruct (phase sc); try done. split_and!; [done..|]. apply not_true_iff_false. intros Hop. by destruct (Ho Hop) as [E _]; rewrite He in E.
Qed.

(** A connection stays open until its peer or the endpoint closes it. *)
Lemma stays_open s e s' i sc :
  connections s !! i = Some sc → phase sc ≠ Establishing → is_open sc = true →
  e ≠ PeerCloses i → (∀ t, e ≠ RpcWaited t) → serve_event s e = Some s' →
  ∃ sc', connections s' !! i = Some sc' ∧ phase sc' ≠ Establishing ∧ is_open sc' = true ∧ served sc' = served sc.
Proof.
  intros Hi Hph Hop Hne Hnr He.
  assert (∀ j x x', connections s !! j = Some x → (i = j → phase x' ≠ Establishing ∧ is_open x' = true ∧ served x' = served x) →
    ∃ sc', <[ j := x' ]> (connections s) !! i = Some sc' ∧ phase sc' ≠ Establishing ∧ is_open sc' = true ∧ served sc' = served sc) as Hins.
  { intros j x x' Hj Hx. destruct (decide (j = i)) as [->|Hji].
    - rewrite Hi in Hj. injection Hj as <-. exists x'. split; [apply list_lookup_insert_eq; by eapply lookup_lt_Some|by apply Hx].
    - exists sc. by rewrite list_lookup_insert_ne. }
  destruct e as [c|j ok|j|j|j|j|j|j|j| | | |t|t]; cbn in He.
  - unfold connection_arrives in He. destruct (_ && _); [|done]. injection He as <-. exists sc. split; [by apply lookup_app_l_Some|done].
  - unfold establishes in He. apply bind_Some in He as (x & Hj & He). destruct (phase x) eqn:Hx; try done.
    destruct ok; [destruct (endpoint_open s); [|done]|]; injection He as <-; apply (Hins j x _ Hj); intros <-;
      rewrite Hi in Hj; injection Hj as <-; done.
  - unfold opens_session in He. apply bind_Some in He as (x & Hj & He). destruct (phase x) eqn:Hx; try done.
    destruct (is_open x); [|done]. injection He as <-. by apply (Hins j x _ Hj).
  - unfold accept_fails in He. apply bind_Some in He as (x & Hj & He). destruct (phase x) eqn:Hx; try done.
    destruct (is_open x) eqn:Hox; [done|]. injection He as <-. apply (Hins j x _ Hj). intros <-.
    rewrite Hi in Hj. injection Hj as <-. by rewrite Hop in Hox.
  - unfold session_ends in He. apply bind_Some in He as (x & Hj & He). destruct (open_sessions x); [done|]. injection He as <-.
    apply (Hins j x _ Hj). intros <-. rewrite Hi in Hj. by injection Hj as <-.
  - unfold loop_cancelled in He. apply bind_Some in He as (x & Hj & He). destruct (phase x) eqn:Hx; try done.
    destruct (cancelled s); [|done]. injection He as <-. apply (Hins j x _ Hj). intros <-. rewrite Hi in Hj. by injection Hj as <-.
  - unfold connection_returns in He. apply bind_Some in He as (x & Hj & He). destruct (phase x) eqn:Hx; try done.
    destruct (open_sessions x); [|done]. injection He as <-. apply (Hins j x _ Hj). intros <-. rewrite Hi in Hj. by injection Hj as <-.
  - unfold peer_closes in He. apply bind_Some in He as (x & Hj & He). destruct (is_open x); [|done]. injection He as <-.
    apply (Hins j x _ Hj). by intros <-.
  - unfold notes_close in He. apply bind_Some in He as (x & Hj & He). destruct (watched x && negb (is_open x)) eqn:Hw; [|done].
    injection He as <-. apply (Hins j x _ Hj). intros <-. rewrite Hi in Hj. injection Hj as <-. by rewrite Hop, andb_false_r in Hw.
  - unfold serve_cancelled in He. destruct (_ && _); [|done]. injection He as <-. by exists sc.
  - injection He as <-. by exists sc.
  - unfold closes in He. destruct (closing s); try done. injection He as <-. by exists sc.
  - by destruct (Hnr t).
  - unfold tasks_waited in He. destruct (closing s); try done. destruct t; [destruct (tasks_done s); [|done]|]; injection He as <-; by exists sc.
Qed.

(** A peer that keeps its connection open keeps the server from closing in
    time: as long as a connection of a peer with a certificate is open, the
    wait of [RpcServer::close] is not over, whatever the other tasks do,
    because one of the awaited tasks waits for the connection, which is
    closed only behind the wait. *)
Theorem open_peer_delays_close es s i sc cert :
  serve_run server_started es = Some s →
  connections s !! i = Some sc → phase sc ≠ Establishing → is_open sc = true → conn_peer (served sc) = PeerCertificate cert →
  ∀ es' later, serve_run s es' = Some later → PeerCloses i ∉ es' → RpcWaited false ∉ es' →
    serve_event later (RpcWaited true) = None.
Proof.
  intros Hs Hi Hph Hop Hpeer es'. pose proof (serve_run_ok _ _ _ started_ok Hs) as Hok. clear Hs.
  assert (∀ s sc, serving_ok s → connections s !! i = Some sc → is_open sc = true → conn_peer (served sc) = PeerCertificate cert →
    serve_event s (RpcWaited true) = None) as Hnow.
  { intros s1 sc1 [] Hi1 Hop1 Hp1. cbn. unfold rpc_waited. destruct (closing s1); try done.
    destruct (tasks_done s1) eqn:Hd; [|done]. apply tasks_done_iff in Hd as [_ Hd]. specialize (Hd _ _ Hi1).
    destruct (ok_connections0 _ _ Hi1) as [Ho _]. destruct (Ho Hop1) as [_ Hw]. unfold connection_done in Hd.
    rewrite Hw, Hp1 in Hd. by destruct (phase sc1). }
  revert s sc Hok Hi Hph Hop Hpeer. induction es' as [|e es' IH]; intros s sc Hok Hi Hph Hop Hpeer later; cbn.
  - intros [= <-] _ _. by eapply Hnow.
  - intros (s1 & He & Hl)%bind_Some Hn1 Hn2.
    apply not_elem_of_cons in Hn1 as [Hne Hn1], Hn2 as [Hnr Hn2].
    assert (∀ t, e ≠ RpcWaited t) as Hnrt.
    { intros [] ->; [|done]. by rewrite (Hnow s sc) in He. }
    destruct (stays_open _ _ _ _ _ Hi Hph Hop (not_eq_sym Hne) Hnrt He) as (sc' & Hi' & Hph' & Hop' & Hsv).
    eapply (IH s1 sc'); try done; [by eapply serve_event_ok|by rewrite Hsv].
Qed.

(** *** The tasks end *)
Definition connection_work (sc : ServedConnection) : nat :=
  (match phase sc with Establishing => 3 | Serving => 2 | Finishing => 1 | Finished => 0 end) + open_sessions sc +
  (if watched sc then 1 else 0).

Definition remaining (s : ServerTasks) : nat :=
  (if accepting s then 1 else 0) + sum_list_with connection_work (connections s).

(** What is left to happen behind the wait of [RpcServer::close]: the events of
    the tasks, and no call of the program. *)
Definition task_event (e : ServeEvent) : bool :=
  match e with Cancels | Closes | RpcWaited _ | TasksWaited _ => false | _ => true end.

Lemma sum_insert (f : ServedConnection → nat) l i x y :
  l !! i = Some x → (sum_list_with f (<[ i := y ]> l) + f x = sum_list_with f l + f y)%nat.
Proof.
  revert i. induction l as [|z l IH]; intros [|i] Hi; try done; simpl in *; [injection Hi as ->; lia|].
  specialize (IH i Hi). lia.
Qed.

Lemma work_decreases s i x y :
  connections s !! i = Some x → (connection_work y < connection_work x)%nat →
  ((if accepting s then 1 else 0) + sum_list_with connection_work (<[ i := y ]> (connections s)) < remaining s)%nat.
Proof. intros Hi Hlt. pose proof (sum_insert connection_work _ _ _ y Hi). unfold remaining. lia. Qed.

Lemma task_event_works s e s' :
  serving_ok s → endpoint_open s = false → task_event e = true → serve_event s e = Some s' →
  (remaining s' < remaining s)%nat ∧ endpoint_open s' = false ∧ closing s' = closing s.
Proof.
  intros [] He Ht Hs.
  assert (∀ i x, connections s !! i = Some x → is_open x = false) as Hclosed.
  { intros i x Hi. apply not_true_iff_false. intros Ho. destruct (ok_connections0 i x Hi) as [H _]. destruct (H Ho) as [E _]. by rewrite He in E. }
  destruct e as [c|j ok|j|j|j|j|j|j|j| | | |t|t]; try done; cbn in Hs.
  - unfold connection_arrives in Hs. by rewrite He, andb_false_r in Hs.
  - unfold establishes in Hs. apply bind_Some in Hs as (x & Hj & Hs). destruct (phase x) eqn:Hx; try done.
    rewrite He in Hs. destruct ok; [done|]. injection Hs as <-. split; [|done].
    apply (work_decreases s j x _ Hj). unfold connection_work. rewrite Hx. cbn. lia.
  - unfold opens_session in Hs. apply bind_Some in Hs as (x & Hj & Hs). destruct (phase x) eqn:Hx; try done. by rewrite (Hclosed _ _ Hj) in Hs.
  - unfold accept_fails in Hs. apply bind_Some in Hs as (x & Hj & Hs). destruct (phase x) eqn:Hx; try done.
    destruct (is_open x); [done|]. injection Hs as <-. split; [|done].
    apply (work_decreases s j x _ Hj). unfold connection_work. rewrite Hx. cbn. lia.
  - unfold session_ends in Hs. apply bind_Some in Hs as (x & Hj & Hs). destruct (open_sessions x) eqn:Hx; [done|]. injection Hs as <-.
    split; [|done]. apply (work_decreases s j x _ Hj). unfold connection_work. rewrite Hx. cbn. lia.
  - unfold loop_cancelled in Hs. apply bind_Some in Hs as (x & Hj & Hs). destruct (phase x) eqn:Hx; try done.
    destruct (cancelled s); [|done]. injection Hs as <-. split; [|done].
    apply (work_decreases s j x _ Hj). unfold connection_work. rewrite Hx. cbn. lia.
  - unfold connection_returns in Hs. apply bind_Some in Hs as (x & Hj & Hs). destruct (phase x) eqn:Hx; try done.
    destruct (open_sessions x) eqn:Hn; [|done]. injection Hs as <-. split; [|done].
    apply (work_decreases s j x _ Hj). unfold connection_work. rewrite Hx, Hn. cbn. lia.
  - unfold peer_closes in Hs. apply bind_Some in Hs as (x & Hj & Hs). by rewrite (Hclosed _ _ Hj) in Hs.
  - unfold notes_close in Hs. apply bind_Some in Hs as (x & Hj & Hs). destruct (watched x) eqn:Hw; [|done].
    rewrite (Hclosed _ _ Hj) in Hs. injection Hs as <-. split; [|done].
    apply (work_decreases s j x _ Hj). unfold connection_work. rewrite Hw. cbn. lia.
  - unfold serve_cancelled in Hs. destruct (accepting s) eqn:Ha; [|done]. destruct (cancelled s); [|done]. injection Hs as <-.
    split; [|done]. unfold remaining. rewrite Ha. cbn. lia.
Qed.

(** When no task can go on, there is none. *)
Lemma no_task_left s :
  serving_ok s → endpoint_open s = false → cancelled s = true →
  (∀ e, task_event e = true → serve_event s e = None) → tasks_done s = true.
Proof.
  intros [] He Hc Hnone. apply tasks_done_iff. split.
  - specialize (Hnone ServeCancelled eq_refl). cbn in Hnone. unfold serve_cancelled in Hnone. rewrite Hc in Hnone. by destruct (accepting s).
  - intros i sc Hi. destruct (ok_connections0 i sc Hi) as [Ho Hp].
    assert (is_open sc = false) as Hop by (apply not_true_iff_false; intros H; destruct (Ho H) as [E _]; by rewrite He in E).
    pose proof (Hnone (NotesClose i) eq_refl) as Hn. cbn in Hn. unfold notes_close in Hn. rewrite Hi in Hn. cbn in Hn. rewrite Hop in Hn.
    pose proof (Hnone (SessionEnds i) eq_refl) as Hse. cbn in Hse. unfold session_ends in Hse. rewrite Hi in Hse. cbn in Hse.
    pose proof (Hnone (Establishes i false) eq_refl) as He'. cbn in He'. unfold establishes in He'. rewrite Hi in He'. cbn in He'.
    pose proof (Hnone (LoopCancelled i) eq_refl) as Hlc. cbn in Hlc. unfold loop_cancelled in Hlc. rewrite Hi in Hlc. cbn in Hlc. rewrite Hc in Hlc.
    pose proof (Hnone (ConnectionDone i) eq_refl) as Hcd. cbn in Hcd. unfold connection_returns in Hcd. rewrite Hi in Hcd. cbn in Hcd.
    unfold connection_done. destruct (phase sc), (watched sc), (open_sessions sc); done.
Qed.

(** C31: Behind the wait of [RpcServer::close] nothing holds the server up any
    more: its tasks, which only end, take a bounded number of steps, and when
    none of them can go on, the handlers of the sessions included, then
    [Server::close] reports success. *)
Theorem close_ends es s result1 :
  serve_run server_started es = Some s → closing s = WaitingTasks result1 →
  ∀ es' later, Forall (λ e, task_event e = true) es' → serve_run s es' = Some later →
    (length es' ≤ remaining s)%nat ∧
    ((∀ e, task_event e = true → serve_event later e = None) →
     ∃ final, serve_event later (TasksWaited true) = Some final ∧ closing final = CloseReturned (Ok ())).
Proof.
  intros Hs Hc. pose proof (serve_run_ok _ _ _ started_ok Hs) as Hok. clear Hs es.
  assert (endpoint_open s = false) as He by (destruct (ok_closing _ Hok) as [_ H]; rewrite Hc in H; apply H).
  intros es'. revert s Hok Hc He. induction es' as [|e es' IH]; intros s Hok Hc He later Hall; cbn.
  - intros [= <-]. split; [lia|]. intros Hnone. pose proof (ok_closing _ Hok) as [Hcan Hcl]. rewrite Hc in Hcan, Hcl.
    assert (tasks_done s = true) as Hd by (apply no_task_left; try done; by apply Hcan).
    unfold tasks_waited. rewrite Hc, Hd. eexists. split; [done|]. by destruct result1 as [[]| |].
  - apply Forall_cons in Hall as [Ht Hall]. intros (s1 & H1 & Hl)%bind_Some.
    destruct (task_event_works _ _ _ Hok He Ht H1) as (Hlt & He1 & Hc1).
    destruct (IH s1 (serve_event_ok _ _ _ Hok H1) ltac:(by rewrite Hc1) He1 later Hall Hl) as [Hlen Hend]. split; [lia|done].
Qed.

(** ** Worked examples *)
#[local] Existing Instance toy_x509.

Definition toy_served : DirectConnection := mkConnection 0 (PeerCertificate (mkCertificate toy_agent)).
Definition toy_serves : list ServeEvent := [Arrives toy_served; Establishes 0 true; OpensSession 0].
Definition toy_ends : list ServeEvent := [ServeCancelled; LoopCancelled 0; SessionEnds 0; ConnectionDone 0; NotesClose 0].

Definition after_run (es : list ServeEvent) : ServerTasks := default server_started (serve_run server_started es).
Definition toy_serving : ServerTasks := after_run toy_serves.
Definition toy_timed_out : ServerTasks := after_run (toy_serves ++ [Closes; RpcWaited false]).
Definition toy_closed : ServerTasks := after_run (toy_serves ++ [Closes; RpcWaited false] ++ toy_ends ++ [TasksWaited true]).

Lemma close_succeeded_witness :
  closing toy_closed = CloseReturned (Ok ()) ∧ latest_connections (book toy_closed) = ∅ ∧
  open_sessions <$> connections toy_closed = [0%nat].
Proof.
  destruct (close_succeeded (toy_serves ++ [Closes; RpcWaited false] ++ toy_ends ++ [TasksWaited true]) toy_closed eq_refl eq_refl
    [] toy_closed eq_refl) as (_ & Hb & _).
  split; [reflexivity|]. split; [exact Hb|reflexivity].
Defined.

Lemma open_peer_delays_close_witness :
  tasks_done toy_closed = true ∧
  serve_event (after_run (toy_serves ++ [Closes; ServeCancelled; LoopCancelled 0; SessionEnds 0; ConnectionDone 0])) (RpcWaited true) = None.
Proof.
  split; [reflexivity|].
  refine (open_peer_delays_close toy_serves toy_serving 0 (mkServed toy_served Serving true 1 true) (mkCertificate toy_agent)
    eq_refl eq_refl _ eq_refl eq_refl [Closes; ServeCancelled; LoopCancelled 0; SessionEnds 0; ConnectionDone 0] _ eq_refl _ _).
  - discriminate.
  - by repeat (apply not_elem_of_cons; split; [discriminate|]); apply not_elem_of_nil.
  - by repeat (apply not_elem_of_cons; split; [discriminate|]); apply not_elem_of_nil.
Defined.

Lemma close_ends_witness :
  remaining toy_timed_out = 5%nat ∧
  ∃ later, serve_run toy_timed_out toy_ends = Some later ∧
    ((∀ e, task_event e = true → serve_event later e = None) →
     ∃ final, serve_event later (TasksWaited true) = Some final ∧ closing final = CloseReturned (Ok ())).
Proof.
  split; [reflexivity|]. exists (default toy_timed_out (serve_run toy_timed_out toy_ends)). split; [reflexivity|].
  refine (proj2 (close_ends (toy_serves ++ [Closes; RpcWaited false]) toy_timed_out (Err TimeoutElapsed) eq_refl eq_refl
    toy_ends _ _ eq_refl)).
  repeat constructor.
Defined.
